(* ===== verification/_CoqProject ===== *)
-Q . S2P
Prelude.v
Cache.v
AttemptLimiter.v
RateLimit.v
GoStrings.v
Encoding.v
KVStore.v
Calendar.v
Timestamps.v
NetAddr.v
Duration.v
Classify.v
Outbox.v
Admission.v
QueueWorker.v
Filter.v
RuleStore.v
Quarantine.v
Suppression.v
Senders.v
SendRate.v
Events.v
EventStore.v
EventTimeline.v
EventListing.v
EventRetention.v
EventCounters.v
EventSeries.v
EventCases.v
SharedEvents.v
SharedCounters.v
SharedReads.v
SharedRetention.v
DualWrite.v
SharedCases.v
Tracking.v
InboundStore.v
Inbound.v
InboundPosts.v
InboundCases.v
SystemSettings.v
Retention.v
RetentionCases.v
ProviderEvents.v
Secrets.v
SentCopySettings.v
Webhooks.v
Send.v
SendCases.v
SentCopies.v
SmtpMime.v
Policy.v
Accounts.v
ApiKeys.v
SignIn.v
Gate.v
SmtpSession.v
SmtpListener.v
