(* ===== verification/Prelude.v ===== *)
(** * Panmail: a verification development

    Panmail is a multi-tenant mail gateway written in Go.  Clients send mail
    through its API (or SMTP submission); it is checked, queued in an outbox, and
    delivered by workers through each tenant's providers, with several gateways
    sharing one database.  What becomes of a message -- sent, bounced, opened,
    complained about -- is recorded as events, which feed the timeline and the
    metrics of the dashboard, suppress addresses and are posted to the tenant's
    webhook subscribers.  Mail that arrives, by polling or by provider posts, is
    screened, stored and announced, and the delivery reports among it are turned
    into bounces.  An authentication layer decides who may call what.

    ** The parts and where they are modelled

    One file models one part; each holds a module of its name with the data as
    the code has it, one definition per operation and the theorems.  Names are the
    source's wherever Rocq allows it.

    Shared foundations:
    - [Prelude]: results and database faults as values, instants, machine-width
      arithmetic, the generic lemmas, tactics and the hint database;
    - [GoStrings], [Encoding], [Calendar], [Timestamps], [Duration], [NetAddr]: what
      the sources use of Go's strings, strconv, base64, hex, time and net;
    - [KVStore]: the embedded key-value store (pebble) as a class with its laws,
      and an instance.

    Sending:
    - [Admission], [Senders], [SendRate], [RateLimit], [Cache]: the checks before a
      message is queued (internal/email/usecases, internal/email_provider/senders,
      internal/ratelimit, pkg/cache);
    - [Outbox], [QueueWorker]: the queue with its claims and leases, and the worker
      (internal/email/repositories, queue_worker*.go);
    - [Send], [SendCases]: SendEmail from admission to delivery, composed of the
      parts above (send_email_usecase.go and the files beside it);
    - [Filter], [RuleStore], [Quarantine]: filter rules, their store and cache, and
      the review of held mail (internal/emailfilter);
    - [Suppression]: the suppression list (internal/suppression);
    - [Tracking]: signed links and the endpoints that serve them (pkg/tracking,
      internal/event/transports/http);
    - [SentCopySettings], [SentCopies]: the copies filed in a sender's Sent folder, the
      logins kept for it, and the queue and worker (internal/sent_copy);
    - [SmtpMime], [SmtpSession]: submission over SMTP: the conversation, its replies and
      the parser of submitted messages (internal/email/transports/smtp);
    - [SmtpListener]: the listener's configuration, its supervisor and the use case that
      changes it (internal/smtp_submission);
    - [Classify]: what an error text says of a delivery (pkg/emailutil).

    Events and notifications:
    - [Events]: recording an event and what it sets off (process_event_usecase.go);
    - [EventStore], [EventTimeline], [EventListing], [EventRetention],
      [EventCounters], [EventSeries], [EventCases]: the event store on disk: its
      single writer, its indexes and reads, its retention and its counters
      (internal/event/repositories/stores/pebble);
    - [SharedEvents], [SharedCounters], [SharedReads], [SharedRetention],
      [SharedCases]: the event store on a shared SQL database: its batching
      writer, its counters, its listings and messages, its retention
      (internal/event/repositories/stores/postgres);
    - [DualWrite]: the layers that write to both stores, one as the primary and
      one as its shadow (internal/event/repositories/stores, postgres/store.go);
    - [Webhooks]: the durable queue of notifications and its worker
      (internal/webhook).

    Receiving:
    - [InboundStore], [Inbound], [InboundPosts], [InboundCases]: received mail, the
      receipts that recognise a retried post, delivery reports, and the endpoint
      inbound-parse services post to (internal/inbound).
    - [ProviderEvents]: the endpoint providers post delivery events to
      (internal/event/transports/http).

    Operation:
    - [SystemSettings], [Retention], [RetentionCases]: the stored settings, the
      retention policy, and the worker that enforces it on the stores
      (internal/system_settings, internal/retention).
    Who may do what:
    - [Policy], [Accounts], [ApiKeys], [SignIn], [Gate], [AttemptLimiter]: roles and
      scopes, accounts and memberships, keys, sign-in with its second factor and
      its limits, and the middleware that puts them together (internal/auth);
    - [Secrets]: the keyring, stored credentials and the change of key
      (pkg/secrets, internal/config/keys.go, data_key.go).

    ** How code becomes definitions

    A Go method is a function of its receiver's state, its arguments and of what
    its collaborators answer, and returns the new state, the effects it has on
    collaborators in order, and its result; [(T, error)] is [result].  The clock,
    random tokens and the answers of stores outside the component are arguments.
    A database statement is one atomic step; a call on the database takes a [fault]
    ([exec]): it works, fails before it takes effect, or takes effect and reports a
    failure.  Concurrency is the list of atomic steps in the order they commit, any
    list; a read and a later write of one call have an arbitrary change of the
    database between them.  Pointers that are shared (limiter records, buckets) are
    indices into a heap.  Integers that can overflow are wrapped where they do.
    Local time is the function that gives its offset from UTC at an instant.

    Code outside the repository (pebble, SQL's engine, bcrypt, PASETO, HMAC, SHA,
    AES-GCM, JSON, the mail and URL parsers, the HTML tokenizer) is a parameter or a
    class with named laws; every theorem that assumes a law has a witness on an
    instance.

    ** What the theorems show

    - Sending: a message is never delivered twice to a recipient by one row, an
      unfinished pass resumes where it stopped and accounts for everyone, two
      workers never hold one message, leases are confirmed before sending, retries
      end (waiting for one's turn apart), suppressed and unauthorised addresses are never sent to, a send is
      admitted whole or not at all, and a retried request is answered with the
      first ([never_a_second_copy], [pass_accounts_for_everyone],
      [confirmed_leases_disjoint], [retries_end], [delivery_respects_lists],
      [admission_is_all_or_nothing], [retry_is_answered_with_the_first]).
    - Events: a hard bounce stops the next send; whatever order writes, lost commits,
      retention and crashes come in, the timeline lists a message once; a closed
      store holds what it accepted; a listing is exactly the events asked for; a
      period's totals are its events; retention archives before it deletes and
      removes exactly what is old; pruning the counters drops whole buckets.
    - The shared event store: every event taken is written or counted as lost; the
      figures are what landed; pages tile the listing; a pass archives before it
      deletes, removes exactly what is old, and with a local mirror beside it each
      event is archived in one place; a shadow store never shows, and a local store
      written beside the shared one holds what it would hold alone.
    - Notifications: an attempt is made under its own claim and finished within its
      lease, a batch answers for its claim, and a dead endpoint is left alone.
    - Receiving: a bounce is believed only of a copy panmail sent; a post proves
      whose it is; an accepted post answers for its retries; mail is announced
      once; the network is asked only of SNS; a provider's event is believed only
      if it is vouched for.
    - Retention: a pass does what the policy says, whatever it meets spares what is
      fresh, and a change of the policy is not missed by the instance that saved it;
      another instance sees it at its own next pass ([saved_elsewhere_is_not_seen]).
    - Copies of sent mail: a copy is in one worker's hands while its claim lasts, goes
      to the sender of the message and nobody else, and ten settled attempts are its
      last; stored
      passwords stay sealed and none crosses a connection in the clear.
    - Submission over SMTP: a message is submitted only under a key that may send,
      everyone in the envelope is sent to and nobody blind is shown, a resubmission
      has the key of the first, what parses the send path accepts, and a refusal is
      final only when a retry cannot succeed.
    - The SMTP listener: what is served passed every check, has a certificate or is on
      the loopback address, and leaves no port open behind it; an application that
      fails leaves what was served or says so; an accepted change reads back as asked.
    - Authority: what a request may do follows the account, memberships and keys as
      they are now; tenant administrators are confined to their tenant; a session
      follows a right password, and guesses are within a budget as long as the
      limiter has room ([flood_resets_the_budget] is what happens when it has not);
      changing the data key loses nothing while nobody edits a credential.
    - Findings: some theorems state what goes wrong, on concrete inputs or in
      general, and say so in their comments.

    ** Bounds and fuel

    Recursion that is not structural carries fuel, and what is enough is proved
    where a theorem depends on it: the loop over counter runs needs five
    ([five_runs_tile_any_range]), the pruning walk one step per key, the paged
    listing one request more than there are rows, the archiving pass over the shared
    tables one round more than there are old rows, the retry loop the number of
    retries.  Parsing of
    durations, digits and folded headers uses the length of the text.  Reading a
    delivery report uses the length of its body plus two: a block takes a byte.

    ** What is not modelled

    The generated API and its transport glue and the process start-up (cmd/api);
    the web client; I/O that carries no decision of its own (IMAP polling,
    logging, metrics export, backups, migrations); template rendering, which is a
    library's; the SMTP protocol library; the extraction of text from attachments,
    which is the work of libraries; the listings and forms of the dashboard services
    and the management of providers.  ASCII case mapping and white space stand for Unicode's. *)

From stdpp Require Export base gmap strings list sorting fin_maps.
From stdpp Require Export relations.
From Stdlib Require Export ZArith Lia.
From Stdlib Require Import Ascii.


(** ** Errors as values

    Go's [(T, error)] results: [Ok x] is [(x, nil)], [Err e] is a non-nil
    error. *)
Inductive result (E A : Type) : Type :=
| Ok (a : A)
| Err (e : E).
Arguments Ok {E A} a.
Arguments Err {E A} e.

Definition rbind {E A B : Type} (m : result E A) (k : A -> result E B) : result E B :=
  match m with
  | Ok a => k a
  | Err e => Err e
  end.

Definition is_ok {E A : Type} (m : result E A) : bool :=
  match m with Ok _ => true | Err _ => false end.

Declare Scope go_scope.
Delimit Scope go_scope with go.
Notation "'let?' x ':=' m 'in' k" := (rbind m (fun x => k))
  (at level 10, x pattern, m at level 100, k at level 200) : go_scope.

(** ** Time

    A [time.Time] is the number of nanoseconds since Go's zero time, so the
    zero time is [0]; a [time.Duration] is a number of nanoseconds.  [Sub]
    saturates at the bounds of [int64], as [time.Time.Sub] documents. *)
Definition maxInt64 : Z := (2 ^ 63 - 1)%Z.
Definition minInt64 : Z := (- 2 ^ 63)%Z.

Definition sat64 (z : Z) : Z := Z.max minInt64 (Z.min maxInt64 z).

(** Two's-complement wrap-around of a 64-bit signed integer. *)
Definition wrap64 (z : Z) : Z := ((z + 2 ^ 63) mod 2 ^ 64 - 2 ^ 63)%Z.

Definition time_sub (a b : Z) : Z := sat64 (a - b).
Definition time_add (t d : Z) : Z := (t + d)%Z.
Definition time_before (a b : Z) : bool := (a <? b)%Z.
Definition time_after (a b : Z) : bool := (b <? a)%Z.
Definition time_is_zero (t : Z) : bool := (t =? 0)%Z.

Definition Second : Z := 1000000000%Z.
Definition Minute : Z := (60 * Second)%Z.
Definition Hour : Z := (60 * Minute)%Z.
Definition Day : Z := (24 * Hour)%Z.

(** 1970-01-01, and the number of seconds since ([time.Time.Unix]). *)
Definition unixEpoch : Z := (62135596800 * Second)%Z.
Definition Unix (t : Z) : Z := ((t - unixEpoch) / Second)%Z.

(** [time.Time.UnixNano]: out of range it wraps. *)
Definition UnixNano (t : Z) : Z := wrap64 (t - unixEpoch).

(** ** Database calls and their failures *)

(** Database stores share the way one call can go wrong.

    How one call to the database goes: it runs; the connection is down; the
    statement is refused before it takes effect; or it takes effect and the
    answer is lost. *)
Inductive fault :=
| Up
| Down
| Refused (e : string)
| Lost (e : string).

Definition errNotConnected : string := "database not connected".

Definition exec {S A : Type} (f : fault) (stmt : S -> result string (S * A)) (s : S) :
    S * result string A :=
  match f with
  | Down => (s, Err errNotConnected)
  | Refused e => (s, Err e)
  | Up =>
      match stmt s with
      | Ok (s', a) => (s', Ok a)
      | Err e => (s, Err e)
      end
  | Lost e =>
      match stmt s with
      | Ok (s', _) => (s', Err e)
      | Err e' => (s, Err e')
      end
  end.

(** A query: nothing changes, and a lost answer is an error. *)
Definition query {A : Type} (f : fault) (r : result string A) : result string A :=
  match f with Up => r | Down => Err errNotConnected | Refused e | Lost e => Err e end.

(** ** Tactics *)

(** Split every [match] and [if] of the goal and of the hypotheses, keeping
    the equations, and clean up after each split. *)
Ltac go_cases :=
  repeat (case_match; simplify_eq/=).

(** Turn boolean comparisons of [Z] and [nat] in the hypotheses into their
    propositions. *)
Ltac b2p :=
  repeat match goal with
  | H : (_ && _)%bool = true |- _ => apply andb_true_iff in H; destruct H
  | H : (_ && _)%bool = false |- _ => apply andb_false_iff in H
  | H : (_ || _)%bool = true |- _ => apply orb_true_iff in H
  | H : (_ || _)%bool = false |- _ => apply orb_false_iff in H; destruct H
  | H : negb _ = true |- _ => apply negb_true_iff in H
  | H : negb _ = false |- _ => apply negb_false_iff in H
  | H : (_ <? _)%Z = true |- _ => apply Z.ltb_lt in H
  | H : (_ <? _)%Z = false |- _ => apply Z.ltb_ge in H
  | H : (_ <=? _)%Z = true |- _ => apply Z.leb_le in H
  | H : (_ <=? _)%Z = false |- _ => apply Z.leb_gt in H
  | H : (_ =? _)%Z = true |- _ => apply Z.eqb_eq in H
  | H : (_ =? _)%Z = false |- _ => apply Z.eqb_neq in H
  | H : (_ <? _)%nat = true |- _ => apply Nat.ltb_lt in H
  | H : (_ <? _)%nat = false |- _ => apply Nat.ltb_ge in H
  | H : (_ <=? _)%nat = true |- _ => apply Nat.leb_le in H
  | H : (_ <=? _)%nat = false |- _ => apply Nat.leb_gt in H
  end.

(** ** Shared lemmas *)

Create HintDb panmail.

Lemma sat64_id z : (minInt64 <= z <= maxInt64)%Z -> sat64 z = z.
Proof. unfold sat64. lia. Qed.

Lemma sat64_le z b : (minInt64 <= b)%Z -> (z <= b)%Z -> (sat64 z <= b)%Z.
Proof. unfold sat64. lia. Qed.

Lemma sat64_nonneg z : (0 <= z)%Z -> (0 <= sat64 z)%Z.
Proof. unfold sat64, minInt64, maxInt64. lia. Qed.

(** A saturated difference exceeds a duration exactly when the true one does. *)
Lemma time_sub_gt a b d :
  (minInt64 <= d < maxInt64)%Z -> (d < time_sub a b)%Z <-> (d < a - b)%Z.
Proof. unfold time_sub, sat64. lia. Qed.

Lemma time_sub_lt a b d :
  (minInt64 < d <= maxInt64)%Z -> (time_sub a b < d)%Z <-> (a - b < d)%Z.
Proof. unfold time_sub, sat64. lia. Qed.

Lemma wrap64_id z : (minInt64 <= z <= maxInt64)%Z -> wrap64 z = z.
Proof.
  unfold wrap64, minInt64, maxInt64. intros.
  rewrite Z.mod_small; lia.
Qed.

Lemma wrap64_range z : (minInt64 <= wrap64 z <= maxInt64)%Z.
Proof.
  unfold wrap64, minInt64, maxInt64.
  pose proof (Z.mod_pos_bound (z + 2 ^ 63) (2 ^ 64) ltac:(lia)). lia.
Qed.

#[export] Hint Resolve sat64_nonneg : panmail.

(** *** Finite maps *)

Lemma map_size_insert_bound {K A} `{Countable K} (m : gmap K A) k v :
  (size (<[k := v]> m) <= S (size m))%nat.
Proof.
  destruct (m !! k) eqn:E.
  - rewrite map_size_insert_Some by eauto. lia.
  - rewrite map_size_insert_None by done. lia.
Qed.

(** *** Lists *)

(** A list cut into runs of [n], as a loop over [start += n] takes them; the
    fuel is the list's length, enough since every run but an empty list's takes
    an element. *)
Fixpoint chunks_fuel {A} (fuel n : nat) (l : list A) : list (list A) :=
  match fuel, l with
  | _, [] | O, _ => []
  | S fuel', _ => take n l :: chunks_fuel fuel' n (drop n l)
  end.

Definition chunks {A} (n : nat) (l : list A) : list (list A) := chunks_fuel (length l) n l.

Lemma chunks_fuel_concat {A} n fuel (l : list A) :
  (0 < n)%nat -> (length l <= fuel)%nat -> concat (chunks_fuel fuel n l) = l.
Proof.
  intros Hn. revert l. induction fuel as [|fuel IH]; intros [|x l] H; simpl in *; try done; [lia|].
  rewrite IH; [apply take_drop|]. rewrite length_drop. simpl. lia.
Qed.

Lemma concat_chunks {A} n (l : list A) : (0 < n)%nat -> concat (chunks n l) = l.
Proof. intros. by apply chunks_fuel_concat. Qed.

(** Rows of one table have distinct keys. *)
Lemma NoDup_fst_sub {K A} `{Countable K} (m : gmap K A) (l : list (K * A)) :
  NoDup l -> (forall id r, (id, r) ∈ l -> m !! id = Some r) -> NoDup l.*1.
Proof.
  intros Hnd Hin. apply NoDup_fmap_2_strong; [|done].
  intros [i a] [j b] Ha Hb Heq. simpl in Heq. subst j.
  apply Hin in Ha, Hb. congruence.
Qed.

(** What a sorted list is cut into. *)
Lemma strongly_sorted_take_drop {A} (R : A -> A -> Prop) n (l : list A) x y :
  StronglySorted R l -> x ∈ take n l -> y ∈ drop n l -> R x y.
Proof.
  revert n. induction l as [|a l IH]; intros [|n] Hs Hx Hy; simpl in *;
    try (by apply not_elem_of_nil in Hx); try (by apply not_elem_of_nil in Hy).
  apply StronglySorted_inv in Hs as [Hs Ha].
  apply elem_of_cons in Hx as [->|Hx].
  - rewrite Forall_forall in Ha. apply Ha.
    apply list_elem_of_lookup_1 in Hy as [i Hi]. rewrite lookup_drop in Hi.
    by eapply list_elem_of_lookup_2.
  - by eapply IH.
Qed.
