(* ===== verification/Cache.v ===== *)
(** * The bounded TTL cache (pkg/cache/ttl_cache.go)

    [TTLCache] is used on the hot paths: resolved memberships
    (auth middleware), send ceilings, backlog counts and retry patterns.
    The file models every operation, gives the contract a client may rely
    on as the class [CacheSpec], and proves that the cache meets it. *)

From S2P Require Import Prelude.

Module TTLCache.

(** ** Data *)

Definition DefaultMaxEntries : Z := 4096.

Record entry (V : Type) : Type := mk_entry {
  value : V;
  expiresAt : Z;
}.
Arguments mk_entry {V} value expiresAt.
Arguments value {V} _.
Arguments expiresAt {V} _.

Record t (V : Type) : Type := mk {
  entries : gmap string (entry V);
  ttl : Z;
  maxEntries : Z;
}.
Arguments mk {V} entries ttl maxEntries.
Arguments entries {V} _.
Arguments ttl {V} _.
Arguments maxEntries {V} _.

Section ops.
Context {V : Type}.
Implicit Types (c : t V) (key : string) (now : Z).

Definition set_entries c (m : gmap string (entry V)) : t V :=
  mk m (ttl c) (maxEntries c).

(** ** Operations

    [now] is the value [time.Now()] returns at that point of the call. *)

Definition NewWithLimit (ttl maxEntries : Z) : t V :=
  mk ∅ ttl (if (maxEntries <=? 0)%Z then DefaultMaxEntries else maxEntries).

Definition New (ttl : Z) : t V := NewWithLimit ttl DefaultMaxEntries.

Definition Get c key now : option V * t V :=
  match entries c !! key with
  | None => (None, c)
  | Some e =>
      if time_after now (expiresAt e)
      then (None, set_entries c (delete key (entries c)))
      else (Some (value e), c)
  end.

(** The loop deletes each expired entry it meets; the surviving map does not
    depend on the order Go visits the keys in. *)
Definition evictExpiredLocked c now : t V :=
  set_entries c
    (filter (fun kv : string * entry V => time_after now (expiresAt kv.2) = false) (entries c)).

(** [nowEvict] is read by the eviction, [nowStore] when the entry is stamped. *)
Definition Put c key (v : V) (nowEvict nowStore : Z) : t V :=
  let store c' := set_entries c' (<[key := mk_entry v (time_add nowStore (ttl c'))]> (entries c')) in
  let full c' := (maxEntries c' <=? Z.of_nat (size (entries c')))%Z in
  if bool_decide (entries c !! key = None) && full c then
    let c' := evictExpiredLocked c nowEvict in
    if full c' then c' else store c'
  else store c.

Definition Delete c key : t V := set_entries c (delete key (entries c)).

Definition Len c : nat := size (entries c).

(** ** Traces *)

(** One call on the cache, with the clock readings it made. *)
Inductive op : Type :=
| OGet (key : string) (now : Z)
| OPut (key : string) (v : V) (nowEvict nowStore : Z)
| ODelete (key : string).

Definition step c (o : op) : t V :=
  match o with
  | OGet key now => (Get c key now).2
  | OPut key v n1 n2 => Put c key v n1 n2
  | ODelete key => Delete c key
  end.

Definition run c (os : list op) : t V := foldl step c os.

(** What the calls of a trace last said about a key: the value put and when,
    or nothing. *)
Definition last_write key (os : list op) : option (V * Z) :=
  foldl (fun acc o =>
    match o with
    | OPut k v _ n => if bool_decide (k = key) then Some (v, n) else acc
    | ODelete k => if bool_decide (k = key) then None else acc
    | OGet _ _ => acc
    end) None os.

End ops.
Arguments op V : clear implicits.

(** ** The contract a client relies on

    [cs_contents c] is what the cache may still answer from: a hit is always
    one of its unexpired entries, a [Get] never adds one, a [Put] adds at most
    its own and a [Delete] leaves none under its key. *)
Class CacheSpec (C V : Type) : Type := {
  cs_contents : C -> gmap string (V * Z);
  cs_ttl : C -> Z;
  cs_get : C -> string -> Z -> option V * C;
  cs_put : C -> string -> V -> Z -> Z -> C;
  cs_get_hit : forall c k now v, (cs_get c k now).1 = Some v ->
    exists e, cs_contents c !! k = Some (v, e) /\ (now <= e)%Z;
  cs_get_shrinks : forall c k now, cs_contents (cs_get c k now).2 ⊆ cs_contents c;
  cs_get_ttl : forall c k now, cs_ttl (cs_get c k now).2 = cs_ttl c;
  cs_put_adds : forall c k v n1 n2,
    cs_contents (cs_put c k v n1 n2) ⊆ <[k := (v, (n2 + cs_ttl c)%Z)]> (cs_contents c);
  cs_put_ttl : forall c k v n1 n2, cs_ttl (cs_put c k v n1 n2) = cs_ttl c;
  cs_delete : C -> string -> C;
  cs_delete_drops : forall c k, cs_contents (cs_delete c k) = delete k (cs_contents c);
  cs_delete_ttl : forall c k, cs_ttl (cs_delete c k) = cs_ttl c;
}.

(** A client that only puts what it has just read: every entry was true, in the
    sense of [R key value time], one TTL before it expires. *)
Section grounded.
Context {C V : Type} `{!CacheSpec C V}.
Implicit Types (R : string -> V -> Z -> Prop) (c : C).

Definition grounded R c : Prop :=
  forall k v e, cs_contents c !! k = Some (v, e) -> exists t0, e = (t0 + cs_ttl c)%Z /\ R k v t0.

Lemma grounded_mono R R' c : (forall k v t, R k v t -> R' k v t) -> grounded R c -> grounded R' c.
Proof. intros HR H k v e He. destruct (H k v e He) as (t0 & ? & ?). eauto. Qed.

Lemma grounded_hit R c k now v :
  grounded R c -> (cs_get c k now).1 = Some v -> exists t0, R k v t0 /\ (now <= t0 + cs_ttl c)%Z.
Proof.
  intros H Hg. apply cs_get_hit in Hg as (e & He & Hle). destruct (H k v e He) as (t0 & -> & ?). eauto.
Qed.

Lemma grounded_get R c k now : grounded R c -> grounded R (cs_get c k now).2.
Proof.
  intros H k' v e He. rewrite cs_get_ttl. apply (H k' v e).
  eapply lookup_weaken; [exact He|apply cs_get_shrinks].
Qed.

Lemma grounded_put R c k v n1 n2 : R k v n2 -> grounded R c -> grounded R (cs_put c k v n1 n2).
Proof.
  intros HR H k' v' e He. rewrite cs_put_ttl. eapply lookup_weaken in He; [|apply cs_put_adds].
  apply lookup_insert_Some in He as [[<- [= <- <-]]|[_ He]]; [by exists n2|by apply (H k')].
Qed.

Lemma grounded_delete R c k : grounded R c -> grounded R (cs_delete c k).
Proof.
  intros H k' v e He. rewrite cs_delete_ttl. rewrite cs_delete_drops in He.
  apply lookup_delete_Some in He as [_ He]. by apply (H k').
Qed.

Lemma delete_no_hit c k now : (cs_get (cs_delete c k) k now).1 = None.
Proof.
  destruct (cs_get (cs_delete c k) k now).1 eqn:E; [|done]. apply cs_get_hit in E as (e & He & _).
  by rewrite cs_delete_drops, lookup_delete_eq in He.
Qed.
End grounded.

(** ** Lemmas *)

Section lemmas.
Context {V : Type}.
Implicit Types (c : t V) (key : string) (now : Z).

Definition contents c : gmap string (V * Z) :=
  (fun e => (value e, expiresAt e)) <$> entries c.

Definition bounded c : Prop := (0 < maxEntries c /\ Z.of_nat (size (entries c)) <= maxEntries c)%Z.

Lemma evict_subseteq c now : entries (evictExpiredLocked c now) ⊆ entries c.
Proof. apply map_filter_subseteq. Qed.

Lemma contents_mono c c' : entries c ⊆ entries c' -> contents c ⊆ contents c'.
Proof. intros. unfold contents. by apply map_fmap_mono. Qed.

Lemma Get_entries c key now : entries (Get c key now).2 ⊆ entries c.
Proof. unfold Get. go_cases; try done. apply delete_subseteq. Qed.

(** [Put] either leaves a part of the old entries, or adds exactly its own to
    a part of them. *)
Lemma Put_entries c key v n1 n2 :
  exists m, m ⊆ entries c /\
    (entries (Put c key v n1 n2) = <[key := mk_entry v (time_add n2 (ttl c))]> m \/
     (entries (Put c key v n1 n2) = m /\ entries c !! key = None)).
Proof.
  unfold Put. go_cases; b2p; eauto using evict_subseteq.
  exists (entries (evictExpiredLocked c n1)). split; [apply evict_subseteq|].
  right. split; [done|]. by apply bool_decide_eq_true in H.
Qed.

Lemma size_subseteq (m1 m2 : gmap string (entry V)) : m1 ⊆ m2 -> (size m1 <= size m2)%nat.
Proof. apply map_subseteq_size. Qed.

Lemma bounded_step c o : bounded c -> bounded (step c o).
Proof.
  intros [Hpos Hsz]. destruct o as [k n|k v n1 n2|k]; simpl.
  - assert (maxEntries (Get c k n).2 = maxEntries c) as E by (unfold Get; by go_cases).
    pose proof (size_subseteq _ _ (Get_entries c k n)). unfold bounded. rewrite E. lia.
  - unfold bounded, Put. go_cases; b2p; simpl in *.
    + pose proof (size_subseteq _ _ (evict_subseteq c n1)). simpl in *. lia.
    + pose proof (map_size_insert_bound (entries (evictExpiredLocked c n1)) k (mk_entry v (time_add n2 (ttl c)))).
      simpl in *. lia.
    + destruct H as [H|H].
      * apply bool_decide_eq_false in H.
        apply not_eq_None_Some in H. rewrite map_size_insert_Some by done. lia.
      * b2p. pose proof (map_size_insert_bound (entries c) k (mk_entry v (time_add n2 (ttl c)))). lia.
  - pose proof (size_subseteq _ _ (delete_subseteq (entries c) k)). unfold bounded. simpl. lia.
Qed.

(** *** The trace invariant behind the refinement

    Every entry of the cache is the last write of its key, stamped with that
    write's time plus the TTL. *)
Definition faithful (d : Z) c (os : list (op V)) : Prop :=
  ttl c = d /\
  forall key e, entries c !! key = Some e ->
    exists n, last_write key os = Some (value e, n) /\ expiresAt e = (n + d)%Z.

Lemma last_write_snoc key (os : list (op V)) o :
  last_write key (os ++ [o]) =
  match o with
  | OPut k v _ n => if bool_decide (k = key) then Some (v, n) else last_write key os
  | ODelete k => if bool_decide (k = key) then None else last_write key os
  | OGet _ _ => last_write key os
  end.
Proof. unfold last_write. by rewrite foldl_app. Qed.

Lemma faithful_step d c os o : faithful d c os -> faithful d (step c o) (os ++ [o]).
Proof.
  intros [Hd Hf]. destruct o as [k n|k v n1 n2|k]; simpl.
  - split; [unfold Get; by go_cases|]. intros key e He.
    rewrite last_write_snoc. apply Hf. eapply lookup_weaken; [exact He|apply Get_entries].
  - split; [unfold Put; by go_cases|]. intros key e. rewrite last_write_snoc.
    destruct (Put_entries c k v n1 n2) as (m & Hm & [E|[E Hnone]]); rewrite E; clear E.
    + rewrite lookup_insert. case_decide as Hk.
      * intros [= <-]. subst. rewrite bool_decide_true by done. eauto.
      * intros He. rewrite bool_decide_false by done. apply Hf. by eapply lookup_weaken.
    + intros He. assert (entries c !! key = Some e) as He' by by eapply lookup_weaken.
      rewrite bool_decide_false; [by apply Hf|]. intros ->. congruence.
  - split; [done|]. intros key e. simpl. rewrite last_write_snoc, lookup_delete.
    case_decide as Hk; [done|]. intros. rewrite bool_decide_false by done. by apply Hf.
Qed.

Lemma faithful_run d (os : list (op V)) m : faithful d (run (NewWithLimit d m) os) os.
Proof.
  induction os as [|o os IH] using rev_ind.
  - split; [done|]. intros key e. simpl. by rewrite lookup_empty.
  - unfold run in *. rewrite foldl_app. by apply faithful_step.
Qed.

Lemma run_bounded (os : list (op V)) d m : bounded (run (NewWithLimit d m) os).
Proof.
  unfold run. generalize (NewWithLimit (V:=V) d m) (ltac:(
    unfold bounded, NewWithLimit; simpl; rewrite map_size_empty; unfold DefaultMaxEntries;
    destruct (Z.leb_spec m 0); lia) : bounded (NewWithLimit (V:=V) d m)).
  induction os as [|o os IH]; intros c Hc; simpl; [done|]. auto using bounded_step.
Qed.

Lemma Get_hit c key now v :
  (Get c key now).1 = Some v ->
  exists e, entries c !! key = Some e /\ value e = v /\ (now <= expiresAt e)%Z.
Proof.
  unfold Get, time_after. destruct (entries c !! key) as [e|]; [|done].
  destruct (Z.ltb_spec (expiresAt e) now); [done|]. intros [= <-]. eauto.
Qed.

End lemmas.

(** The TTL cache meets the contract. *)
#[export] Program Instance ttl_cache_spec (V : Type) : CacheSpec (t V) V := {|
  cs_contents := contents;
  cs_ttl := ttl;
  cs_get := Get;
  cs_put := Put;
  cs_delete := Delete;
|}.
Next Obligation.
  intros V c k now v Hg. apply Get_hit in Hg as (e & He & <- & Hle).
  exists (expiresAt e). unfold contents. by rewrite lookup_fmap, He.
Qed.
Next Obligation. intros. apply contents_mono, Get_entries. Qed.
Next Obligation. intros. unfold Get. by go_cases. Qed.
Next Obligation.
  intros V c k v n1 n2. unfold contents at 1.
  destruct (Put_entries c k v n1 n2) as (m & Hm & [E|[E Hn]]); rewrite E.
  - rewrite fmap_insert. apply insert_mono. by apply map_fmap_mono.
  - transitivity (contents c); [by apply map_fmap_mono|].
    apply insert_subseteq. unfold contents. by rewrite lookup_fmap, Hn.
Qed.
Next Obligation. intros. unfold Put. by go_cases. Qed.
Next Obligation. intros. unfold contents, Delete. simpl. apply fmap_delete. Qed.
Next Obligation. done. Qed.

(** ** Properties *)

(** However the cache is used, it never holds more than its limit, so a
    map keyed by tenant or template cannot grow with the workload. *)
Theorem cache_bounded {V : Type} (d m : Z) (os : list (op V)) :
  (Z.of_nat (Len (run (NewWithLimit d m) os))
     <= if (m <=? 0)%Z then DefaultMaxEntries else m)%Z.
Proof.
  destruct (run_bounded os d m) as [_ H]. unfold Len.
  replace (if (m <=? 0)%Z then _ else _) with (maxEntries (run (NewWithLimit (V:=V) d m) os)); [done|].
  clear H. unfold run. change (if (m <=? 0)%Z then DefaultMaxEntries else m)
    with (maxEntries (NewWithLimit (V:=V) d m)).
  generalize (NewWithLimit (V:=V) d m). induction os as [|o os IH]; intros c; simpl; [done|].
  rewrite IH. destruct o; simpl; [unfold Get|unfold Put|]; by go_cases.
Qed.

(** A hit is never stale and never invented.  Whatever calls were made
    before it, the value a [Get] returns is the one most recently [Put] under
    that key with no [Delete] since, and that [Put] is at most one TTL old. *)
Theorem cache_hit_is_last_write {V : Type} (d m now : Z) (os : list (op V)) key v :
  (Get (run (NewWithLimit d m) os) key now).1 = Some v ->
  exists n, last_write key os = Some (v, n) /\ (now <= n + d)%Z.
Proof.
  intros Hg. apply Get_hit in Hg as (e & He & <- & Hle).
  destruct (faithful_run d os m) as [_ Hf]. destruct (Hf _ _ He) as (n & Hn & E).
  exists n. split; [done|]. lia.
Qed.

Lemma cache_hit_is_last_write_witness :
  exists n, last_write "k" [OPut "k" 1%Z 0 5; OGet "j" 6; OPut "k" 7%Z 9 9] = Some (7%Z, n)
    /\ (12 <= n + 10)%Z.
Proof.
  apply (cache_hit_is_last_write 10 2 12 _ "k" 7%Z). vm_compute. reflexivity.
Defined.

End TTLCache.
