(* ===== verification/AttemptLimiter.v ===== *)
(** * The sign-in attempt limiter
    (internal/auth/usecases/attempt_limiter.go)

    The limiter counts failed sign-in and two-factor attempts per subject and
    locks a subject out once it has used its budget.  Records are shared
    objects: the map, the recency list and every running attempt hold the
    same [*attemptRecord], and a record evicted from the map may still be
    referenced by an attempt in progress.  The model keeps that aliasing: a
    pointer is an index into a heap that only grows.

    A nil dereference (taking the front of an empty recency list) is [None];
    [limiter_reachable_ok] shows that it cannot happen. *)

From S2P Require Import Prelude.

Module AttemptLimiter.
#[local] Open Scope Z_scope.

(** ** Data *)

Definition maxTrackedSubjects : Z := 10000.
Definition sweepInterval : Z := Minute.
Definition evictionProbe : nat := 64.

(** A [*attemptRecord]. *)
Abbreviation ref := nat (only parsing).

(** [elem] is whether the record holds a place in the recency list, i.e.
    [rec.elem != nil]. *)
Record attemptRecord : Type := mkRecord {
  subject : string;
  failures : Z;
  inFlight : Z;
  lastTry : Z;
  blockedUntil : Z;
  elem : bool;
}.

(** An admitted attempt: the record whose budget it holds, and whether it has
    been settled. *)
Record attempt : Type := mkAttempt {
  arec : ref;
  settled : bool;
}.

Record attemptLimiter : Type := mkLimiter {
  heap : list attemptRecord;
  attempts : list attempt;
  records : gmap string ref;
  recency : list ref; (* front is least recently used *)
  max : Z;
  capacity : Z;
  blockFor : Z;
  lastSweep : Z;
}.

Definition newAttemptLimiter (max blockFor : Z) : attemptLimiter :=
  mkLimiter [] [] ∅ [] max maxTrackedSubjects blockFor 0.

(** *** Field updates *)

Definition set_failures (n : Z) (r : attemptRecord) : attemptRecord :=
  mkRecord (subject r) n (inFlight r) (lastTry r) (blockedUntil r) (elem r).
Definition set_inFlight (n : Z) (r : attemptRecord) : attemptRecord :=
  mkRecord (subject r) (failures r) n (lastTry r) (blockedUntil r) (elem r).
Definition set_lastTry (t : Z) (r : attemptRecord) : attemptRecord :=
  mkRecord (subject r) (failures r) (inFlight r) t (blockedUntil r) (elem r).
Definition set_blockedUntil (t : Z) (r : attemptRecord) : attemptRecord :=
  mkRecord (subject r) (failures r) (inFlight r) (lastTry r) t (elem r).
Definition set_elem (b : bool) (r : attemptRecord) : attemptRecord :=
  mkRecord (subject r) (failures r) (inFlight r) (lastTry r) (blockedUntil r) b.

Definition with_heap (l : attemptLimiter) h :=
  mkLimiter h (attempts l) (records l) (recency l) (max l) (capacity l) (blockFor l) (lastSweep l).
Definition with_attempts (l : attemptLimiter) a :=
  mkLimiter (heap l) a (records l) (recency l) (max l) (capacity l) (blockFor l) (lastSweep l).
Definition with_records (l : attemptLimiter) m :=
  mkLimiter (heap l) (attempts l) m (recency l) (max l) (capacity l) (blockFor l) (lastSweep l).
Definition with_recency (l : attemptLimiter) q :=
  mkLimiter (heap l) (attempts l) (records l) q (max l) (capacity l) (blockFor l) (lastSweep l).
Definition with_lastSweep (l : attemptLimiter) t :=
  mkLimiter (heap l) (attempts l) (records l) (recency l) (max l) (capacity l) (blockFor l) t.

(** Write through a record pointer. *)
Definition upd (r : ref) (f : attemptRecord -> attemptRecord) (l : attemptLimiter) : attemptLimiter :=
  with_heap l (alter f r (heap l)).

(** ** Operations *)

Definition blocked (r : attemptRecord) (now : Z) : bool := time_before now (blockedUntil r).

Definition expireLocked (l : attemptLimiter) (now : Z) (rec : attemptRecord) : attemptRecord :=
  let rec := if negb (time_is_zero (blockedUntil rec)) && negb (blocked rec now)
             then set_blockedUntil 0 (set_failures 0 rec) else rec in
  if (0 <? failures rec) && time_is_zero (blockedUntil rec)
     && (blockFor l <? time_sub now (lastTry rec))
  then set_failures 0 rec else rec.

Definition removeLocked (r : ref) (l : attemptLimiter) : attemptLimiter :=
  match heap l !! r with
  | None => l
  | Some rec =>
      let l := if bool_decide (records l !! subject rec = Some r)
               then with_records l (delete (subject rec) (records l)) else l in
      if elem rec
      then upd r (set_elem false) (with_recency l (filter (fun x => x <> r) (recency l)))
      else l
  end.

(** Whether eviction may drop the record: neither locked out nor mid-attempt. *)
Definition evictable (l : attemptLimiter) (now : Z) (r : ref) : bool :=
  match heap l !! r with
  | Some rec => negb (blocked rec now) && (inFlight rec =? 0)
  | None => false
  end.

(** The victim: the first evictable record among the [evictionProbe] least
    recently used, else the front of the list. *)
Definition victim (l : attemptLimiter) (now : Z) : option ref :=
  match List.find (evictable l now) (take evictionProbe (recency l)) with
  | Some r => Some r
  | None => head (recency l)
  end.

Definition makeRoomLocked (now : Z) (l : attemptLimiter) : option attemptLimiter :=
  if Z.of_nat (size (records l)) <? capacity l then Some l
  else (fun r => removeLocked r l) <$> victim l now.

(** [l.recency.PushBack(rec)] and [l.records[subject] = rec]. *)
Definition track (r : ref) (sub : string) (l : attemptLimiter) : attemptLimiter :=
  upd r (set_elem true)
    (with_records (with_recency l (recency l ++ [r])) (<[sub := r]> (records l))).

Definition insertLocked (sub : string) (now : Z) (l : attemptLimiter) : option (ref * attemptLimiter) :=
  (fun l => let r := length (heap l) in
     (r, track r sub (with_heap l (heap l ++ [mkRecord sub 0 0 0 0 false]))))
  <$> makeRoomLocked now l.

(** A record may be dropped by the sweep: it can no longer block anyone. *)
Definition sweepable (l : attemptLimiter) (now : Z) (r : ref) : bool :=
  match heap l !! r with
  | Some rec => (inFlight rec =? 0) && negb (blocked rec now)
                && time_before (lastTry rec) (time_add now (- blockFor l))
  | None => false
  end.

(** The loop removes each sweepable record it meets.  A removal changes no
    other record, so the result does not depend on the order of the map. *)
Definition maybeSweepLocked (now : Z) (l : attemptLimiter) : attemptLimiter :=
  if time_sub now (lastSweep l) <? sweepInterval then l
  else foldl (fun l kr => if sweepable l now (snd kr) then removeLocked (snd kr) l else l)
         (with_lastSweep l now) (map_to_list (records l)).

(** What [Begin] answers: an attempt, or how long the subject is locked for. *)
Inductive answer : Type :=
| Granted (a : nat)
| Refused (retryAfter : Z).

(** [l.recency.MoveToBack(rec.elem)]. *)
Definition moveToBack (r : ref) (l : attemptLimiter) : attemptLimiter :=
  with_recency l (filter (fun x => x <> r) (recency l) ++ [r]).

Definition grant (r : ref) (now : Z) (l : attemptLimiter) : answer * attemptLimiter :=
  let l := upd r (fun rec => set_lastTry now (set_inFlight (inFlight rec + 1) rec)) l in
  let l := moveToBack r l in
  (Granted (length (attempts l)), with_attempts l (attempts l ++ [mkAttempt r false])).

(** [nowEvict] is the clock as [makeRoomLocked] reads it again. *)
Definition Begin (sub : string) (now nowEvict : Z) (l : attemptLimiter)
    : option (answer * attemptLimiter) :=
  let l := maybeSweepLocked now l in
  match records l !! sub with
  | Some r =>
      let l := upd r (expireLocked l now) l in
      match heap l !! r with
      | None => None
      | Some rec =>
          if blocked rec now then Some (Refused (time_sub (blockedUntil rec) now), l)
          else if (max l <=? failures rec + inFlight rec) then Some (Refused 0, l)
          else Some (grant r now l)
      end
  | None => (fun rl => grant rl.1 now rl.2) <$> insertLocked sub nowEvict l
  end.

(** [settle] releases the reservation once and then runs the outcome; a second
    call is a no-op. *)
Definition settle (a : nat) (fn : ref -> attemptLimiter -> option attemptLimiter)
    (l : attemptLimiter) : option attemptLimiter :=
  match attempts l !! a with
  | Some (mkAttempt r false) =>
      fn r (upd r (fun rec => set_inFlight (inFlight rec - 1) rec)
              (with_attempts l (<[a := mkAttempt r true]> (attempts l))))
  | _ => Some l
  end.

Definition Succeeded (a : nat) (l : attemptLimiter) : option attemptLimiter :=
  settle a (fun r l => Some (removeLocked r l)) l.

Definition Abandon (a : nat) (l : attemptLimiter) : option attemptLimiter :=
  settle a (fun _ l => Some l) l.

(** [rec.failures += n], locking the record at [now] if the budget is gone. *)
Definition charge (l : attemptLimiter) (n now : Z) (rec : attemptRecord) : attemptRecord :=
  let rec := set_failures (failures rec + n) rec in
  if (max l <=? failures rec) then set_blockedUntil (time_add now (blockFor l)) rec else rec.

(** The outcome [Failed] settles with.  [now1], [now2] and [now3] are the
    readings of the clock on the three paths that read it: the record's own
    lock, the lock of a record that replaced it, and the eviction that makes
    room to put it back. *)
Definition failedLocked (now1 now2 now3 : Z) (r : ref) (l : attemptLimiter) : option attemptLimiter :=
  let l := upd r (charge l 1 now1) l in
  match heap l !! r with
  | None => None
  | Some rec =>
      if bool_decide (records l !! subject rec = Some r) then Some l
      else match records l !! subject rec with
           | Some r' => Some (upd r' (charge l (failures rec) now2) l)
           | None => track r (subject rec) <$> makeRoomLocked now3 l
           end
  end.

Definition Failed (a : nat) (now1 now2 now3 : Z) (l : attemptLimiter) : option attemptLimiter :=
  settle a (failedLocked now1 now2 now3) l.

(** ** Traces: any interleaving of the four calls *)

Inductive op : Type :=
| OBegin (sub : string) (now nowEvict : Z)
| OSucceeded (a : nat)
| OFailed (a : nat) (now1 now2 now3 : Z)
| OAbandon (a : nat).

(** What a call did, by the subject it did it to. *)
Inductive event : Type :=
| EAdmitted (sub : string)
| ERefused (sub : string)
| ESucceeded (sub : string)
| EFailed (sub : string)
| EAbandoned (sub : string)
| ENothing.

#[export] Instance event_eq_dec : EqDecision event.
Proof. solve_decision. Defined.

(** The subject of an attempt that is still running. *)
Definition running (l : attemptLimiter) (a : nat) : option string :=
  match attempts l !! a with
  | Some (mkAttempt r false) => subject <$> heap l !! r
  | _ => None
  end.

Definition settled_event (l : attemptLimiter) (a : nat) (e : string -> event) : event :=
  match running l a with Some s => e s | None => ENothing end.

Definition step (l : attemptLimiter) (o : op) : option (attemptLimiter * event) :=
  match o with
  | OBegin sub now nowE =>
      (fun r => match r.1 with
                | Granted _ => (r.2, EAdmitted sub)
                | Refused _ => (r.2, ERefused sub)
                end) <$> Begin sub now nowE l
  | OSucceeded a => (fun l' => (l', settled_event l a ESucceeded)) <$> Succeeded a l
  | OFailed a n1 n2 n3 => (fun l' => (l', settled_event l a EFailed)) <$> Failed a n1 n2 n3 l
  | OAbandon a => (fun l' => (l', settled_event l a EAbandoned)) <$> Abandon a l
  end.

Fixpoint run (l : attemptLimiter) (os : list op) : option (attemptLimiter * list event) :=
  match os with
  | [] => Some (l, [])
  | o :: os =>
      match step l o with
      | None => None
      | Some (l', e) =>
          match run l' os with
          | None => None
          | Some (l'', es) => Some (l'', e :: es)
          end
      end
  end.

Definition count_event (e : event) (es : list event) : Z :=
  Z.of_nat (length (filter (fun e' => e' = e) es)).

(** The clock readings of a call. *)
Definition op_times (o : op) : list Z :=
  match o with
  | OBegin _ n n' => [n; n']
  | OFailed _ n1 n2 n3 => [n1; n2; n3]
  | _ => []
  end.

(** ** Invariant

    The map and the recency list hold the same records, each once; a tracked
    record is filed under its own subject; an attempt points to a record that
    exists; the limiter is within its capacity. *)
Record wf (l : attemptLimiter) : Prop := {
  w_rec : forall k r, records l !! k = Some r ->
    exists rec, heap l !! r = Some rec /\ subject rec = k;
  w_nodup : NoDup (recency l);
  w_mirror : forall r, r ∈ recency l <-> exists k, records l !! k = Some r;
  w_elem : forall r rec, heap l !! r = Some rec -> (elem rec = true <-> r ∈ recency l);
  w_att : forall a at', attempts l !! a = Some at' -> is_Some (heap l !! arec at');
  w_cap : 1 <= capacity l;
  w_size : Z.of_nat (size (records l)) <= capacity l;
}.

(** A write that keeps what the map and the list are indexed by. *)
Definition benign (f : attemptRecord -> attemptRecord) : Prop :=
  forall rec, subject (f rec) = subject rec /\ elem (f rec) = elem rec.

(** *** Heap lemmas *)

Lemma upd_lookup r f l r' :
  heap (upd r f l) !! r' = if decide (r = r') then f <$> heap l !! r' else heap l !! r'.
Proof. simpl. rewrite list_lookup_alter. case_decide; by subst. Qed.

Lemma upd_lookup_inv r f l r' rec :
  heap (upd r f l) !! r' = Some rec ->
  exists rec0, heap l !! r' = Some rec0 /\ rec = (if decide (r = r') then f rec0 else rec0).
Proof.
  rewrite upd_lookup. case_decide.
  - intros (rec0 & -> & ->)%fmap_Some. eauto.
  - eauto.
Qed.

Lemma upd_is_Some r f l r' : is_Some (heap (upd r f l) !! r') <-> is_Some (heap l !! r').
Proof. rewrite upd_lookup. case_decide; [|done]. by rewrite fmap_is_Some. Qed.

(** *** Structural lemmas *)

Lemma wf_upd r f l : benign f -> wf l -> wf (upd r f l).
Proof.
  intros Hf []. constructor; try done.
  - intros k r' Hk. destruct (w_rec0 _ _ Hk) as (rec & Hr & <-).
    rewrite upd_lookup, Hr. case_decide; simpl; eauto. eexists. split; [done|]. apply Hf.
  - intros r' rec (rec0 & Hr & ->)%upd_lookup_inv. rewrite <- (w_elem0 _ _ Hr).
    case_decide; [|done]. by rewrite (proj2 (Hf rec0)).
  - intros a at' Ha. apply upd_is_Some. eauto.
Qed.

Lemma benign_expire l now : benign (expireLocked l now).
Proof. intros rec. unfold expireLocked. by go_cases. Qed.

Lemma benign_charge l n now : benign (charge l n now).
Proof. intros rec. unfold charge. by go_cases. Qed.

(** In a well-formed limiter [removeLocked] either untracks the record
    entirely or finds it untracked already and does nothing. *)
Lemma removeLocked_cases r rec l :
  wf l -> heap l !! r = Some rec ->
  (records l !! subject rec = Some r /\
   removeLocked r l =
     upd r (set_elem false)
       (with_recency (with_records l (delete (subject rec) (records l)))
          (filter (fun x => x <> r) (recency l)))) \/
  ((forall k, records l !! k <> Some r) /\ removeLocked r l = l).
Proof.
  intros [] Hr. unfold removeLocked. rewrite Hr. case_bool_decide as Hin.
  - left. split; [done|]. assert (elem rec = true) as ->; [|done].
    apply (w_elem0 _ _ Hr), w_mirror0. eauto.
  - right. assert (forall k, records l !! k <> Some r) as Hno.
    { intros k Hk. destruct (w_rec0 _ _ Hk) as (? & ? & <-). congruence. }
    split; [done|]. destruct (elem rec) eqn:E; [|done].
    apply (w_elem0 _ _ Hr), w_mirror0 in E as [k Hk]. by destruct (Hno k).
Qed.

Lemma wf_removeLocked r l : wf l -> wf (removeLocked r l).
Proof.
  intros Hwf. destruct (heap l !! r) as [rec|] eqn:Hr; [|by unfold removeLocked; rewrite Hr].
  destruct (removeLocked_cases _ _ _ Hwf Hr) as [[Hk ->]|[_ ->]]; [|done].
  destruct Hwf. constructor; simpl.
  - intros k r' [Hne Hk']%lookup_delete_Some. destruct (w_rec0 _ _ Hk') as (rec' & Hr' & E).
    rewrite list_lookup_alter_ne by congruence. eauto.
  - by apply NoDup_filter.
  - intros r'. rewrite list_elem_of_filter, w_mirror0. split.
    + intros [Hne [k Hk']]. exists k. apply lookup_delete_Some. split; [|done].
      intros <-. congruence.
    + intros [k [Hne Hk']%lookup_delete_Some]. split; [|eauto]. intros ->.
      destruct (w_rec0 _ _ Hk') as (? & ? & ?). congruence.
  - intros r' rec' (rec0 & Hr' & ->)%upd_lookup_inv. simpl in *. rewrite list_elem_of_filter.
    case_decide; simpl.
    + subst. split; [done|tauto].
    + rewrite (w_elem0 _ _ Hr'). intuition congruence.
  - intros a at' Ha. apply (upd_is_Some r (set_elem false) l). eauto.
  - done.
  - rewrite map_size_delete_Some by eauto. lia.
Qed.

(** Removing one record frees a place. *)
Lemma size_removeLocked r l : (size (records (removeLocked r l)) <= size (records l))%nat.
Proof.
  unfold removeLocked. destruct (heap l !! r); [|done].
  rewrite map_subseteq_size; [done|]. case_bool_decide; destruct (elem _); simpl;
    try done; apply delete_subseteq.
Qed.

Lemma wf_track r sub rec l :
  wf l -> heap l !! r = Some rec -> subject rec = sub ->
  records l !! sub = None -> Z.of_nat (size (records l)) < capacity l ->
  wf (track r sub l).
Proof.
  intros [] Hr Hsub Hnone Hsz.
  assert (forall k, records l !! k <> Some r) as Hfresh.
  { intros k Hk. destruct (w_rec0 _ _ Hk) as (? & ? & ?). congruence. }
  assert (r ∉ recency l) as Hnot by (rewrite w_mirror0; intros [k Hk]; exact (Hfresh k Hk)).
  constructor; simpl; try done.
  - intros k r' [[<- <-]|[Hne Hk]]%lookup_insert_Some.
    + rewrite list_lookup_alter_eq, Hr. simpl. eauto.
    + destruct (w_rec0 _ _ Hk) as (rec' & Hr' & E).
      rewrite list_lookup_alter_ne by (intros ->; exact (Hfresh k Hk)). eauto.
  - apply NoDup_app. split_and!; [done| |apply NoDup_singleton].
    intros x Hx ->%list_elem_of_singleton. done.
  - intros r'. rewrite elem_of_app, list_elem_of_singleton, w_mirror0. split.
    + intros [[k Hk]| ->]; [|exists sub; apply lookup_insert_eq].
      exists k. rewrite lookup_insert_ne; [done|]. congruence.
    + intros [k [[<- <-]|[Hne Hk]]%lookup_insert_Some]; eauto.
  - intros r' rec' (rec0 & Hr' & ->)%upd_lookup_inv. simpl in *.
    rewrite elem_of_app, list_elem_of_singleton. case_decide; simpl; [subst; tauto|].
    rewrite (w_elem0 _ _ Hr'). intuition congruence.
  - intros a at' Ha. apply (upd_is_Some r (set_elem true) l). eauto.
  - rewrite map_size_insert_None by done. lia.
Qed.

Lemma wf_moveToBack r l : wf l -> r ∈ recency l -> wf (moveToBack r l).
Proof.
  intros [] Hr. assert (forall x, x ∈ filter (fun x => x <> r) (recency l) ++ [r] <-> x ∈ recency l) as Hin.
  { intros x. rewrite elem_of_app, list_elem_of_filter, list_elem_of_singleton.
    destruct (decide (x = r)); [subst|]; tauto. }
  constructor; simpl; try done.
  - apply NoDup_app. split_and!; [by apply NoDup_filter| |apply NoDup_singleton].
    intros x [? ?]%list_elem_of_filter ->%list_elem_of_singleton. done.
  - intros x. by rewrite Hin.
  - intros x rec Hx. rewrite Hin. eauto.
Qed.

Lemma wf_lastSweep l t : wf l -> wf (with_lastSweep l t).
Proof. intros []. by constructor. Qed.

Lemma wf_alloc l rec : elem rec = false -> wf l -> wf (with_heap l (heap l ++ [rec])).
Proof.
  intros Hel []. assert (forall r x, heap l !! r = Some x -> (heap l ++ [rec]) !! r = Some x) as Hold.
  { intros r x Hx. by apply lookup_app_l_Some. }
  constructor; simpl; try done.
  - intros k r Hk. destruct (w_rec0 _ _ Hk) as (x & Hx & E). eauto.
  - intros r x [Hx|[Hge Hx]]%lookup_app_Some; [eauto|].
    destruct (r - length (heap l))%nat eqn:E; simplify_eq/=. rewrite Hel.
    split; [done|]. intros [k Hk]%w_mirror0. destruct (w_rec0 _ _ Hk) as (y & Hy & _).
    apply lookup_lt_Some in Hy. lia.
  - intros a at' Ha. destruct (w_att0 _ _ Ha) as [x Hx]. eauto.
Qed.

Lemma wf_attempts l ats :
  wf l -> (forall a at', ats !! a = Some at' -> is_Some (heap l !! arec at')) ->
  wf (with_attempts l ats).
Proof. intros [] Hats. by constructor. Qed.

(** *** The steps keep the invariant and never dereference nil *)

(** The sweep only ever removes sweepable records: whatever holds of the
    limiter and survives that, holds after it. *)
Lemma sweep_ind (P : attemptLimiter -> Prop) now l :
  (forall l r, P l -> sweepable l now r = true -> P (removeLocked r l)) ->
  P l -> P (with_lastSweep l now) -> P (maybeSweepLocked now l).
Proof.
  intros Hrem Hl Hl0. unfold maybeSweepLocked. case_match; [done|].
  revert Hl0. generalize (with_lastSweep l now) (map_to_list (records l)).
  intros l0 kvs. revert l0. induction kvs as [|kv kvs IH]; intros l0 Hl0; simpl; [done|].
  apply IH. case_match; auto.
Qed.

Lemma wf_sweep now l : wf l -> wf (maybeSweepLocked now l).
Proof. intros. apply sweep_ind; auto using wf_removeLocked, wf_lastSweep. Qed.

Lemma records_nonempty l : wf l -> recency l = [] -> records l = ∅.
Proof.
  intros [] Hq. apply map_eq. intros k. rewrite lookup_empty.
  destruct (records l !! k) as [r|] eqn:Hk; [|done].
  assert (r ∈ recency l) as Hin by (apply w_mirror0; eauto). rewrite Hq in Hin. set_solver.
Qed.

Lemma victim_in_recency l now r : victim l now = Some r -> r ∈ recency l.
Proof.
  unfold victim. case_match eqn:E.
  - intros [= <-]. apply find_some in E as [Hin _]. apply list_elem_of_In in Hin.
    eapply elem_of_submseteq; [exact Hin|]. apply sublist_submseteq, sublist_take.
  - intros H. destruct (recency l); simplify_eq/=. left.
Qed.

(** Making room always succeeds, keeps the invariant, leaves a free place and
    touches at most one record, by removing it. *)
Lemma makeRoom_spec now l :
  wf l -> exists l', makeRoomLocked now l = Some l' /\ wf l' /\
    Z.of_nat (size (records l')) < capacity l' /\
    (l' = l \/ exists r, victim l now = Some r /\ l' = removeLocked r l).
Proof.
  intros Hwf. unfold makeRoomLocked. destruct (Z.ltb_spec (Z.of_nat (size (records l))) (capacity l)).
  { exists l. auto. }
  destruct (victim l now) as [r|] eqn:Hv.
  - exists (removeLocked r l). split_and!; [done|by apply wf_removeLocked| |eauto].
    assert (r ∈ recency l) as Hin by eauto using victim_in_recency.
    destruct (proj1 (w_mirror _ Hwf r) Hin) as [k Hk].
    destruct (w_rec _ Hwf _ _ Hk) as (rec & Hr & <-).
    destruct (removeLocked_cases _ _ _ Hwf Hr) as [[_ ->]|[Hno _]]; [|by destruct (Hno _ Hk)].
    simpl. rewrite map_size_delete_Some by eauto. destruct Hwf. lia.
  - exfalso. unfold victim in Hv. case_match; [done|].
    destruct (recency l) as [|] eqn:Hq; [|done].
    pose proof (records_nonempty _ Hwf Hq) as E. rewrite E, map_size_empty in H.
    destruct Hwf. lia.
Qed.

Lemma makeRoom_id now l : Z.of_nat (size (records l)) < capacity l -> makeRoomLocked now l = Some l.
Proof. intros. unfold makeRoomLocked. by rewrite (proj2 (Z.ltb_lt _ _)). Qed.

Lemma removeLocked_records_sub r l : records (removeLocked r l) ⊆ records l.
Proof.
  unfold removeLocked. destruct (heap l !! r); [|done].
  case_bool_decide; destruct (elem _); simpl; try done; apply delete_subseteq.
Qed.

(** The record [insertLocked] makes is tracked, blank and in the list. *)
Lemma insertLocked_spec sub now l :
  wf l -> records l !! sub = None ->
  exists l' r, insertLocked sub now l = Some (r, l') /\ wf l' /\
    records l' !! sub = Some r /\ r ∈ recency l'.
Proof.
  intros Hwf Hnone. destruct (makeRoom_spec now l Hwf) as (l1 & E & Hwf1 & Hroom & Hcase).
  assert (records l1 !! sub = None) as Hnone1.
  { destruct Hcase as [->|(r & _ & ->)]; [done|].
    destruct (records (removeLocked r l) !! sub) eqn:Hk; [|done].
    pose proof (lookup_weaken _ _ _ _ Hk (removeLocked_records_sub r l)). congruence. }
  unfold insertLocked. rewrite E. simpl. eexists _, _. split; [done|]. split_and!.
  - apply (wf_track _ _ (mkRecord sub 0 0 0 0 false)); simpl; [by apply wf_alloc| |done|done|done].
    by rewrite list_lookup_middle.
  - simpl. apply lookup_insert_eq.
  - simpl. apply elem_of_app. right. by left.
Qed.

Lemma wf_grant r now l : wf l -> r ∈ recency l -> wf (grant r now l).2.
Proof.
  intros Hwf Hin. unfold grant. cbv zeta. simpl.
  assert (benign (fun rec => set_lastTry now (set_inFlight (inFlight rec + 1) rec))) as Hb by done.
  pose proof (wf_moveToBack r _ (wf_upd r _ _ Hb Hwf) Hin) as Hwf1.
  apply wf_attempts; [done|]. intros a at' [Ha|[_ Ha]]%lookup_app_Some.
  - eapply w_att; eauto.
  - destruct (a - _)%nat; simplify_eq/=. apply (upd_is_Some r _ l).
    destruct (proj1 (w_mirror _ Hwf r) Hin) as [k Hk].
    destruct (w_rec _ Hwf _ _ Hk) as (rec & -> & _). eauto.
Qed.

Lemma wf_Begin sub now nowE l :
  wf l -> exists r, Begin sub now nowE l = Some r /\ wf r.2.
Proof.
  intros Hwf. unfold Begin. pose proof (wf_sweep now l Hwf) as Hwf1.
  set (l1 := maybeSweepLocked now l) in *. cbv zeta.
  destruct (records l1 !! sub) as [r|] eqn:Hk.
  - assert (wf (upd r (expireLocked l1 now) l1)) as Hwf2 by (apply wf_upd; auto using benign_expire).
    destruct (w_rec _ Hwf2 sub r Hk) as (rec & -> & _). repeat case_match; eauto.
    eexists. split; [done|]. apply wf_grant; [done|]. apply (w_mirror _ Hwf2). eauto.
  - destruct (insertLocked_spec sub nowE l1 Hwf1 Hk) as (l2 & r & -> & Hwf2 & _ & Hin).
    simpl. eexists. split; [done|]. by apply wf_grant.
Qed.

(** The reservation is released: what [settle] hands to the outcome. *)
Lemma wf_settled a r l :
  wf l -> attempts l !! a = Some (mkAttempt r false) ->
  wf (upd r (fun rec => set_inFlight (inFlight rec - 1) rec)
        (with_attempts l (<[a := mkAttempt r true]> (attempts l)))).
Proof.
  intros Hwf Ha. apply wf_upd; [done|]. apply wf_attempts; [done|].
  intros a' at' [(<- & <- & _)|[_ Ha']]%list_lookup_insert_Some.
  - apply (w_att _ Hwf _ _ Ha).
  - apply (w_att _ Hwf _ _ Ha').
Qed.

Lemma wf_settle a fn l :
  wf l ->
  (forall r l, wf l -> is_Some (heap l !! r) -> exists l', fn r l = Some l' /\ wf l') ->
  exists l', settle a fn l = Some l' /\ wf l'.
Proof.
  intros Hwf Hfn. unfold settle. destruct (attempts l !! a) as [[r []]|] eqn:Ha; eauto.
  apply Hfn; [by eapply wf_settled|]. apply upd_is_Some. apply (w_att _ Hwf _ _ Ha).
Qed.

Lemma wf_Failed a n1 n2 n3 l : wf l -> exists l', Failed a n1 n2 n3 l = Some l' /\ wf l'.
Proof.
  intros Hwf. apply wf_settle; [done|]. clear l Hwf. intros r l Hwf Hr. unfold failedLocked. cbv zeta.
  assert (wf (upd r (charge l 1 n1) l)) as Hwf1 by (apply wf_upd; auto using benign_charge).
  apply (upd_is_Some r (charge l 1 n1)) in Hr as [rec Hr]. rewrite Hr.
  case_bool_decide as Hk; [eauto|].
  destruct (records (upd r (charge l 1 n1) l) !! subject rec) as [r'|] eqn:Hk'.
  - eexists. split; [done|]. apply wf_upd; auto using benign_charge.
  - destruct (makeRoom_spec n3 _ Hwf1) as (l2 & -> & Hwf2 & Hroom & Hcase). simpl.
    eexists. split; [done|].
    assert (exists rec2, heap l2 !! r = Some rec2 /\ subject rec2 = subject rec) as (rec2 & Hr2 & E).
    { destruct Hcase as [->|(v & _ & ->)]; [eauto|].
      destruct (heap (upd r (charge l 1 n1) l) !! v) as [recv|] eqn:Hv;
        [|unfold removeLocked; rewrite Hv; eauto].
      destruct (removeLocked_cases _ _ _ Hwf1 Hv) as [[_ ->]|[_ ->]]; [|eauto].
      rewrite upd_lookup. case_decide; simpl in *; rewrite Hr; simpl; eauto. }
    eapply wf_track; [done|done|done| |done].
    destruct Hcase as [->|(v & _ & ->)]; [done|].
    destruct (records (removeLocked v _) !! subject rec) eqn:Hx; [|done].
    pose proof (lookup_weaken _ _ _ _ Hx (removeLocked_records_sub v _)). congruence.
Qed.

Lemma wf_step l o : wf l -> exists l' e, step l o = Some (l', e) /\ wf l'.
Proof.
  intros Hwf. destruct o as [sub n n'|a|a n1 n2 n3|a]; simpl.
  - destruct (wf_Begin sub n n' l Hwf) as ([an l'] & -> & Hwf'). simpl. destruct an; eauto.
  - destruct (wf_settle a (fun r l => Some (removeLocked r l)) l Hwf) as (l' & E & Hwf').
    { intros r l0 H0 _. eauto using wf_removeLocked. }
    unfold Succeeded. rewrite E. simpl. eauto.
  - destruct (wf_Failed a n1 n2 n3 l Hwf) as (l' & -> & Hwf'). simpl. eauto.
  - destruct (wf_settle a (fun _ l => Some l) l Hwf) as (l' & E & Hwf'); [eauto|].
    unfold Abandon. rewrite E. simpl. eauto.
Qed.

Lemma wf_run os l : wf l -> exists l' es, run l os = Some (l', es) /\ wf l'.
Proof.
  revert l. induction os as [|o os IH]; intros l Hwf; simpl; [eauto|].
  destruct (wf_step l o Hwf) as (l1 & e & -> & Hwf1).
  destruct (IH _ Hwf1) as (l2 & es & -> & Hwf2). eauto.
Qed.

Definition emptyLimiter (mx cap d : Z) : attemptLimiter := mkLimiter [] [] ∅ [] mx cap d 0.

Lemma wf_empty mx cap d : 1 <= cap -> wf (emptyLimiter mx cap d).
Proof.
  constructor; simpl; try done; try lia.
  - apply NoDup_nil_2.
  - intros r. split; [by intros ?%not_elem_of_nil|]. intros [k Hk]. by rewrite lookup_empty in Hk.
  - rewrite map_size_empty. lia.
Qed.

Lemma wf_new mx d : wf (newAttemptLimiter mx d).
Proof. apply wf_empty. unfold maxTrackedSubjects. lia. Qed.

(** *** What [Begin] did

    Either the subject was tracked, and it was refused for its lock or its
    spent budget or else admitted on its record; or it was not, and it was
    admitted on a fresh one. *)
Definition fresh_record (sub : string) (l : attemptLimiter) : attemptLimiter :=
  track (length (heap l)) sub (with_heap l (heap l ++ [mkRecord sub 0 0 0 0 false])).

Lemma Begin_inv sub now nowE l an l' :
  Begin sub now nowE l = Some (an, l') ->
  let l1 := maybeSweepLocked now l in
  (exists r rec, records l1 !! sub = Some r /\
     let l2 := upd r (expireLocked l1 now) l1 in
     heap l2 !! r = Some rec /\
     ((exists d, an = Refused d) /\ l' = l2 \/
      (an, l') = grant r now l2 /\ blocked rec now = false /\ failures rec + inFlight rec < max l1)) \/
  (records l1 !! sub = None /\ exists l2, makeRoomLocked nowE l1 = Some l2 /\
     (an, l') = grant (length (heap l2)) now (fresh_record sub l2)).
Proof.
  unfold Begin. cbv zeta. set (l1 := maybeSweepLocked now l).
  destruct (records l1 !! sub) as [r|] eqn:Hk.
  - intros H. left. exists r. destruct (heap (upd r _ l1) !! r) as [rec|] eqn:Hr; [|done].
    exists rec. split_and!; [done|done|].
    destruct (blocked rec now) eqn:Hbl; [simplify_eq/=; eauto|].
    destruct (Z.leb_spec (max (upd r (expireLocked l1 now) l1)) (failures rec + inFlight rec));
      simplify_eq/=; eauto.
  - intros ([r l2] & Hi & E)%fmap_Some. unfold insertLocked in Hi.
    apply fmap_Some in Hi as (l3 & Hm & E3). simplify_eq/=. right. eauto.
Qed.

(** What [Failed] did to the record it charged: it was still tracked, or its
    charge was moved to the record that replaced it, or it was put back. *)
Lemma failedLocked_inv n1 n2 n3 r l l' :
  failedLocked n1 n2 n3 r l = Some l' ->
  let l1 := upd r (charge l 1 n1) l in
  exists rec, heap l1 !! r = Some rec /\
    (records l1 !! subject rec = Some r /\ l' = l1 \/
     (exists r', records l1 !! subject rec = Some r' /\ r' <> r /\
        l' = upd r' (charge l1 (failures rec) n2) l1) \/
     (records l1 !! subject rec = None /\
        exists l2, makeRoomLocked n3 l1 = Some l2 /\ l' = track r (subject rec) l2)).
Proof.
  unfold failedLocked. cbv zeta. set (l1 := upd r (charge l 1 n1) l).
  destruct (heap l1 !! r) as [rec|] eqn:Hr; [|done]. intros H. exists rec. split; [done|].
  case_bool_decide; [simplify_eq/=; by left|]. right.
  destruct (records l1 !! subject rec) as [r'|] eqn:Hk.
  - left. exists r'. simplify_eq/=. split_and!; [done| |done]. congruence.
  - right. apply fmap_Some in H as (l2 & ? & ->). eauto.
Qed.

(** *** The configuration never changes *)

Definition params (l : attemptLimiter) : Z * Z * Z := (max l, capacity l, blockFor l).

Lemma params_removeLocked r l : params (removeLocked r l) = params l.
Proof. unfold removeLocked. by repeat case_match. Qed.

Lemma params_makeRoom now l l' : makeRoomLocked now l = Some l' -> params l' = params l.
Proof.
  unfold makeRoomLocked. case_match; [by intros [= <-]|].
  intros (r & _ & ->)%fmap_Some. apply params_removeLocked.
Qed.

Lemma params_sweep now l : params (maybeSweepLocked now l) = params l.
Proof. apply (sweep_ind (fun l' => params l' = params l)); intros; by rewrite ?params_removeLocked. Qed.

Lemma params_settle a fn l l' :
  (forall r l l', fn r l = Some l' -> params l' = params l) ->
  settle a fn l = Some l' -> params l' = params l.
Proof.
  intros Hfn. unfold settle. destruct (attempts l !! a) as [[r []]|]; try by intros [= <-].
  by intros ->%Hfn.
Qed.

Lemma params_step l o l' e : step l o = Some (l', e) -> params l' = params l.
Proof.
  destruct o as [sub n n'|a|a n1 n2 n3|a]; simpl.
  - intros ([an l1] & Hb & E)%fmap_Some. assert (params l1 = params l) as Hp.
    { rewrite <- (params_sweep n l).
      apply Begin_inv in Hb as [(r & rec & _ & _ & [[_ ->]|[[= -> ->] _]])|(_ & l2 & Hm & [= -> ->])];
        [done|done|]. by rewrite <- (params_makeRoom _ _ _ Hm). }
    simpl in E. destruct an; injection E as -> _; exact Hp.
  - intros (l1 & Hb & [= -> _])%fmap_Some. eapply params_settle; [|exact Hb].
    intros ??? [= <-]. apply params_removeLocked.
  - intros (l1 & Hb & [= -> _])%fmap_Some. eapply params_settle; [|exact Hb].
    intros r l2 l3 (rec & _ & [[_ ->]|[(r' & _ & _ & ->)|(_ & l4 & Hm & ->)]])%failedLocked_inv;
      [done|done|]. apply (params_makeRoom _ _ _ Hm).
  - intros (l1 & Hb & [= -> _])%fmap_Some. eapply params_settle; [|exact Hb]. by intros ??? [= <-].
Qed.

(** A call tracks at most one more subject. *)
Lemma size_sweep now l : (size (records (maybeSweepLocked now l)) <= size (records l))%nat.
Proof.
  apply (sweep_ind (fun l' => (size (records l') <= size (records l))%nat)); try done.
  intros l' r H _. pose proof (size_removeLocked r l'). lia.
Qed.

Lemma size_makeRoom now l l' :
  makeRoomLocked now l = Some l' -> (size (records l') <= size (records l))%nat.
Proof.
  unfold makeRoomLocked. case_match; [by intros [= <-]|].
  intros (r & _ & ->)%fmap_Some. apply size_removeLocked.
Qed.

Lemma size_settle a fn l l' :
  (forall r l l', fn r l = Some l' -> (size (records l') <= S (size (records l)))%nat) ->
  settle a fn l = Some l' -> (size (records l') <= S (size (records l)))%nat.
Proof.
  intros Hfn. unfold settle. destruct (attempts l !! a) as [[r []]|]; try (intros [= <-]; lia).
  by intros ?%Hfn.
Qed.

Lemma size_step l o l' e :
  step l o = Some (l', e) -> (size (records l') <= S (size (records l)))%nat.
Proof.
  destruct o as [sub n n'|a|a n1 n2 n3|a]; simpl.
  - intros ([an l1] & Hb & E)%fmap_Some.
    assert ((size (records l1) <= S (size (records l)))%nat) as Hp.
    { pose proof (size_sweep n l).
      apply Begin_inv in Hb as [(r & rec & _ & _ & [[_ ->]|[[= -> ->] _]])|(_ & l2 & Hm & [= -> ->])];
        simpl; [lia|lia|]. pose proof (size_makeRoom _ _ _ Hm).
      pose proof (map_size_insert_bound (records l2) sub (length (heap l2))). lia. }
    simpl in E. destruct an; injection E as -> _; exact Hp.
  - intros (l1 & Hb & [= -> _])%fmap_Some. eapply size_settle; [|exact Hb].
    intros r l2 l3 [= <-]. pose proof (size_removeLocked r l2). lia.
  - intros (l1 & Hb & [= -> _])%fmap_Some. eapply size_settle; [|exact Hb].
    intros r l2 l3 (rec & _ & [[_ ->]|[(r' & _ & _ & ->)|(_ & l4 & Hm & ->)]])%failedLocked_inv;
      simpl; [lia|lia|]. pose proof (size_makeRoom _ _ _ Hm). simpl in *.
    pose proof (map_size_insert_bound (records l4) (subject rec) r). lia.
  - intros (l1 & Hb & [= -> _])%fmap_Some. eapply size_settle; [|exact Hb]. intros ??? [= <-]. lia.
Qed.

(** *** The budget of one subject

    [budget k t0 n l]: the subject [k] has [n] units of its budget charged,
    all on one record, last tried at [t0] or later.  [n] is [0] for a subject
    no record was ever made for. *)
Definition tracked_budget (k : string) (t0 n : Z) (l : attemptLimiter) (r : ref) : Prop :=
  exists rec, records l !! k = Some r /\ heap l !! r = Some rec /\ subject rec = k /\
    failures rec + inFlight rec = n /\ n <= max l /\ t0 <= lastTry rec /\
    (blockedUntil rec = 0 \/ t0 + blockFor l <= blockedUntil rec) /\
    (forall r' rec', heap l !! r' = Some rec' -> subject rec' = k -> r' = r).

Definition unseen (k : string) (l : attemptLimiter) : Prop :=
  records l !! k = None /\ forall r rec, heap l !! r = Some rec -> subject rec <> k.

Definition budget (k : string) (t0 n : Z) (l : attemptLimiter) : Prop :=
  (n = 0 /\ unseen k l) \/ exists r, tracked_budget k t0 n l r.

(** The budget depends on the heap, the map and the configuration only. *)
Lemma budget_ext k t0 n l l' :
  heap l' = heap l -> records l' = records l -> params l' = params l ->
  budget k t0 n l -> budget k t0 n l'.
Proof.
  unfold budget, unseen, tracked_budget. intros -> -> [= -> _ ->]. done.
Qed.

Lemma budget_upd_other k t0 n l r f rec :
  (forall x, subject (f x) = subject x) -> heap l !! r = Some rec -> subject rec <> k ->
  budget k t0 n l -> budget k t0 n (upd r f l).
Proof.
  intros Hf Hr Hne [[-> [Hk Hno]]|(r0 & rec0 & Hk & Hr0 & ? & ? & ? & ? & ? & Huniq)].
  - left. split; [done|split; [done|]]. intros r' rec' (x & Hx & ->)%upd_lookup_inv.
    case_decide; [rewrite Hf|]; eauto.
  - right. exists r0, rec0. split_and!; try done.
    + rewrite upd_lookup, decide_False; [done|]. congruence.
    + intros r' rec' (x & Hx & ->)%upd_lookup_inv.
      case_decide; [rewrite Hf|]; eauto.
Qed.

Lemma budget_upd_self k t0 n n' l r rec f :
  tracked_budget k t0 n l r -> heap l !! r = Some rec ->
  subject (f rec) = k -> (forall x, subject (f x) = subject x) ->
  failures (f rec) + inFlight (f rec) = n' -> n' <= max l -> t0 <= lastTry (f rec) ->
  (blockedUntil (f rec) = 0 \/ t0 + blockFor l <= blockedUntil (f rec)) ->
  budget k t0 n' (upd r f l).
Proof.
  intros (rec0 & Hk & Hr0 & ? & ? & ? & ? & ? & Huniq) Hr. intros. right. exists r, (f rec).
  split_and!; try done.
  - by rewrite upd_lookup, decide_True, Hr.
  - intros r' rec' (x & Hx & ->)%upd_lookup_inv. case_decide; [done|eauto].
Qed.

(** Tracking or untracking another subject leaves the budget alone. *)
Lemma budget_records k t0 n l m :
  m !! k = records l !! k -> budget k t0 n l -> budget k t0 n (with_records l m).
Proof.
  intros Hm [[-> [Hk Hno]]|(r & rec & Hk & H)].
  - left. split; [done|split; [simpl; congruence|done]].
  - right. exists r, rec. split; [simpl; congruence|done].
Qed.

Lemma budget_removeLocked k t0 n l r rec :
  heap l !! r = Some rec -> subject rec <> k ->
  budget k t0 n l -> budget k t0 n (removeLocked r l).
Proof.
  intros Hr Hne Hb. unfold removeLocked. rewrite Hr. case_bool_decide; destruct (elem rec); try done.
  - eapply budget_upd_other; [done|exact Hr|done|].
    eapply budget_ext; [| | |apply (budget_records k t0 n l (delete (subject rec) (records l)))]; try done.
    by rewrite lookup_delete_ne.
  - apply budget_records; [|done]. by rewrite lookup_delete_ne.
  - eapply budget_upd_other; [done|exact Hr|done|]. by eapply budget_ext.
Qed.

Lemma budget_alloc k t0 n l rec :
  wf l -> subject rec <> k -> budget k t0 n l -> budget k t0 n (with_heap l (heap l ++ [rec])).
Proof.
  intros Hwf Hne [[-> [Hk Hno]]|(r & rec0 & Hk & Hr & ? & ? & ? & ? & ? & Huniq)].
  - left. split; [done|split; [done|]]. intros r rec' [Hx|[_ Hx]]%lookup_app_Some; [eauto|].
    apply list_lookup_singleton_Some in Hx as [_ <-]. done.
  - right. exists r, rec0. split_and!; try done.
    + by apply lookup_app_l_Some.
    + intros r' rec' [Hx|[_ Hx]]%lookup_app_Some; [eauto|].
      apply list_lookup_singleton_Some in Hx as [_ <-]. done.
Qed.

Lemma budget_track k t0 n l r sub rec :
  heap l !! r = Some rec -> subject rec = sub -> sub <> k ->
  budget k t0 n l -> budget k t0 n (track r sub l).
Proof.
  intros Hr Hs Hne Hb. eapply budget_upd_other; [done|exact Hr|congruence|].
  apply budget_records; [simpl; by rewrite lookup_insert_ne|]. by eapply budget_ext.
Qed.

(** A clock reading inside the window that starts at [t0]. *)
Definition in_window (t0 : Z) (l : attemptLimiter) (t : Z) : Prop := t0 <= t < t0 + blockFor l.

(** How a call changes the charge on [k]. *)
Definition delta (k : string) (e : event) : Z :=
  match e with
  | EAdmitted s => if bool_decide (s = k) then 1 else 0
  | EAbandoned s => if bool_decide (s = k) then -1 else 0
  | _ => 0
  end.

(** Inside the window nothing about the record expires. *)
Lemma expire_in_window l t0 now rec :
  in_window t0 l now -> t0 <= lastTry rec -> 0 <= blockFor l ->
  (blockedUntil rec = 0 \/ t0 + blockFor l <= blockedUntil rec) ->
  expireLocked l now rec = rec.
Proof.
  intros [Hlo Hhi] Hlt Hpos Hb. unfold expireLocked, blocked, time_is_zero, time_before.
  assert (negb (blockedUntil rec =? 0) && negb (now <? blockedUntil rec) = false) as ->.
  { destruct (Z.eqb_spec (blockedUntil rec) 0), (Z.ltb_spec now (blockedUntil rec)); try done. lia. }
  destruct (Z.ltb_spec (blockFor l) (time_sub now (lastTry rec))) as [Hgt|];
    [|by rewrite andb_false_r].
  unfold time_sub, sat64, minInt64 in Hgt. lia.
Qed.

Lemma budget_sweep k t0 n now l :
  0 <= blockFor l -> in_window t0 l now -> budget k t0 n l ->
  budget k t0 n (maybeSweepLocked now l).
Proof.
  intros Hpos Hwin Hb.
  apply (sweep_ind (fun l' => params l' = params l /\ budget k t0 n l')).
  - intros l' r [Hp Hb'] Hsw. split; [by rewrite params_removeLocked|].
    assert (blockFor l' = blockFor l) as Hbf by (by injection Hp).
    unfold sweepable in Hsw. destruct (heap l' !! r) as [rec|] eqn:Hr; [|done].
    eapply budget_removeLocked; [exact Hr| |exact Hb']. intros Hs.
    destruct Hb' as [[_ [_ Hno]]|(r0 & rec0 & _ & Hr0 & _ & _ & _ & Hlt & _ & Huniq)];
      [by eapply Hno|]. assert (r = r0) as -> by eauto. simplify_eq.
    b2p. unfold time_before, time_add in *. b2p. unfold in_window in Hwin. lia.
  - done.
  - split; [done|]. by eapply budget_ext.
Qed.

Lemma budget_grant_other k t0 n now r rec l :
  heap l !! r = Some rec -> subject rec <> k -> budget k t0 n l -> budget k t0 n (grant r now l).2.
Proof.
  intros Hr Hne Hb. unfold grant. cbv zeta. simpl.
  eapply budget_ext; [| | |eapply (budget_upd_other k t0 n l r _ rec); [|exact Hr|exact Hne|exact Hb]]; done.
Qed.

Lemma budget_grant_self k t0 n now r rec l :
  t0 <= now -> tracked_budget k t0 n l r -> heap l !! r = Some rec ->
  failures rec + inFlight rec < max l -> budget k t0 (n + 1) (grant r now l).2.
Proof.
  intros Hnow Ht Hr Hlt. unfold grant. cbv zeta. simpl.
  pose proof Ht as (rec0 & Hk & Hr0 & Hs & Hn & Hmax & Hl & Hbl & Huniq).
  assert (rec0 = rec) as -> by congruence.
  eapply budget_ext; [| | |eapply (budget_upd_self k t0 n (n + 1) l r rec
    (fun rec => set_lastTry now (set_inFlight (inFlight rec + 1) rec)) Ht Hr)]; try done; simpl; lia.
Qed.

(** A fresh record is charged for the first attempt it admits. *)
Lemma budget_fresh_self k t0 now l :
  1 <= max l -> t0 <= now -> unseen k l ->
  budget k t0 1 (grant (length (heap l)) now (fresh_record k l)).2.
Proof.
  intros Hmax Hnow [Hk Hno]. right. exists (length (heap l)).
  exists (mkRecord k 0 1 now 0 true). unfold grant, fresh_record. cbv zeta. simpl.
  split_and!; try done; try lia.
  - apply lookup_insert_eq.
  - by rewrite !list_lookup_alter_eq, list_lookup_middle.
  - intros r' rec'. rewrite !list_lookup_alter. case_decide; [done|].
    intros [Hx|[? Hx]]%lookup_app_Some Hs; [by destruct (Hno _ _ Hx)|].
    apply list_lookup_singleton_Some in Hx as [? _]. lia.
Qed.

Lemma budget_fresh_other k sub t0 n now l :
  wf l -> sub <> k -> budget k t0 n l ->
  budget k t0 n (grant (length (heap l)) now (fresh_record sub l)).2.
Proof.
  intros Hwf Hne Hb. apply (budget_grant_other _ _ _ _ _ (mkRecord sub 0 0 0 0 true)); [|done|].
  - unfold fresh_record. simpl. by rewrite list_lookup_alter_eq, list_lookup_middle.
  - unfold fresh_record. apply (budget_track _ _ _ _ _ _ (mkRecord sub 0 0 0 0 false)); [|done|done|by apply budget_alloc].
    simpl. by rewrite list_lookup_middle.
Qed.

Lemma budget_Begin k t0 n sub now nowE l an l' :
  wf l -> 1 <= max l -> 0 <= blockFor l -> Z.of_nat (size (records l)) < capacity l ->
  in_window t0 l now -> budget k t0 n l -> Begin sub now nowE l = Some (an, l') ->
  budget k t0 (n + delta k (match an with Granted _ => EAdmitted sub | Refused _ => ERefused sub end)) l'.
Proof.
  intros Hwf Hmax Hpos Hroom Hwin Hb HB.
  pose proof (wf_sweep now l Hwf) as Hwf1. pose proof (budget_sweep k t0 n now l Hpos Hwin Hb) as Hb1.
  pose proof (params_sweep now l) as Hp. pose proof (size_sweep now l) as Hsz.
  apply Begin_inv in HB. set (l1 := maybeSweepLocked now l) in *. unfold params in Hp.
  injection Hp as Hm Hc Hbf. unfold in_window in *.
  destruct HB as [(r & rec & Hk & Hr & Hcase)|(Hk & l2 & Hm2 & E)].
  - destruct (w_rec _ Hwf1 _ _ Hk) as (rec1 & Hr1 & Hs1).
    rewrite upd_lookup, decide_True, Hr1 in Hr by done. simpl in Hr. simplify_eq.
    destruct (decide (subject rec1 = k)) as [<-|Hne].
    + destruct Hb1 as [[_ [? _]]|(r0 & Ht)]; [congruence|]. pose proof Ht as (rec0 & Hk0 & Hr0 & ? & ? & ? & ? & ? & ?).
      assert (r0 = r) as -> by congruence. assert (rec0 = rec1) as -> by congruence. assert (expireLocked l1 now rec1 = rec1) as Ee.
      { eapply (expire_in_window l1 t0); unfold in_window; try done; lia. }
      rewrite Ee in Hcase.
      assert (heap (upd r (expireLocked l1 now) l1) !! r = Some rec1) as Hr2.
      { rewrite upd_lookup, decide_True, Hr1 by done. exact (f_equal Some Ee). }
      assert (tracked_budget (subject rec1) t0 (failures rec1 + inFlight rec1)
        (upd r (expireLocked l1 now) l1) r) as Ht2.
      { exists rec1. split_and!; try done; [simpl; lia|].
        intros r' rec' (x & Hx & ->)%upd_lookup_inv. case_decide; [done|eauto]. }
      destruct Hcase as [[[d ->] ->]|[E [_ Hlt]]].
      * simpl. rewrite Z.add_0_r. replace n with (failures rec1 + inFlight rec1) by done. right. eauto.
      * injection E as -> ->. simpl. rewrite bool_decide_true by done.
        replace n with (failures rec1 + inFlight rec1) by done.
        eapply budget_grant_self; [lia|exact Ht2|exact Hr2|simpl; lia].
    + assert (budget k t0 n (upd r (expireLocked l1 now) l1)) as Hb2.
      { eapply budget_upd_other; [apply benign_expire|exact Hr1|done|done]. }
      destruct Hcase as [[[d ->] ->]|[E _]]; [simpl; by rewrite Z.add_0_r|].
      injection E as -> ->. simpl. rewrite bool_decide_false, Z.add_0_r by done.
      eapply budget_grant_other; [by rewrite upd_lookup, decide_True, Hr1| |done].
      by rewrite (proj1 (benign_expire l1 now rec1)).
  - rewrite makeRoom_id in Hm2 by lia. injection Hm2 as <-. injection E as -> ->. simpl.
    case_bool_decide as Hs.
    + subst sub. destruct Hb1 as [[-> Hun]|(r0 & rec0 & Hk0 & _)]; [|congruence].
      apply budget_fresh_self; [lia|lia|done].
    + rewrite Z.add_0_r. by apply budget_fresh_other.
Qed.

(** *** Settling an attempt *)

(** The state [settle] hands to the outcome of attempt [a] on record [r]. *)
Definition released (a : nat) (r : ref) (l : attemptLimiter) : attemptLimiter :=
  upd r (fun rec => set_inFlight (inFlight rec - 1) rec)
    (with_attempts l (<[a := mkAttempt r true]> (attempts l))).

Lemma settle_inv a fn l l' (e : string -> event) :
  settle a fn l = Some l' -> wf l ->
  (l' = l /\ settled_event l a e = ENothing) \/
  (exists r rec, attempts l !! a = Some (mkAttempt r false) /\ heap l !! r = Some rec /\
     settled_event l a e = e (subject rec) /\ fn r (released a r l) = Some l').
Proof.
  unfold settle, settled_event, running. intros H Hwf.
  destruct (attempts l !! a) as [[r []]|] eqn:Ha; [left; by simplify_eq| |left; by simplify_eq].
  right. destruct (w_att _ Hwf _ _ Ha) as [rec Hr]. exists r, rec. simpl in Hr. by rewrite Hr.
Qed.

Lemma budget_released_other k t0 n a r rec l :
  heap l !! r = Some rec -> subject rec <> k -> budget k t0 n l -> budget k t0 n (released a r l).
Proof.
  intros Hr Hne Hb. eapply budget_upd_other; [done|exact Hr|done|]. by eapply budget_ext.
Qed.

Lemma released_lookup a r l rec :
  heap l !! r = Some rec -> heap (released a r l) !! r = Some (set_inFlight (inFlight rec - 1) rec).
Proof. intros Hr. unfold released. rewrite upd_lookup, decide_True by done. simpl. by rewrite Hr. Qed.

(** The record of a running attempt of [k] is the one [k] is tracked under. *)
Lemma budget_running k t0 n l r rec :
  budget k t0 n l -> heap l !! r = Some rec -> subject rec = k -> tracked_budget k t0 n l r.
Proof.
  intros [[_ [_ Hno]]|(r0 & rec0 & Hk & Hr0 & ? & ? & ? & ? & ? & Huniq)] Hr Hs;
    [by destruct (Hno _ _ Hr)|].
  assert (r = r0) as -> by eauto. exists rec0. split_and!; eauto.
Qed.

Lemma budget_Abandon k t0 n a l l' :
  wf l -> budget k t0 n l -> Abandon a l = Some l' ->
  budget k t0 (n + delta k (settled_event l a EAbandoned)) l'.
Proof.
  intros Hwf Hb HA. unfold Abandon in HA.
  destruct (settle_inv _ _ _ _ EAbandoned HA Hwf) as [[-> ->]|(r & rec & Ha & Hr & -> & [= <-])].
  { simpl. by rewrite Z.add_0_r. }
  simpl. case_bool_decide as Hs; [|rewrite Z.add_0_r; by eapply budget_released_other].
  pose proof (budget_running _ _ _ _ _ _ Hb Hr Hs) as Ht.
  pose proof Ht as (rec0 & Hk & Hr0 & ? & ? & ? & ? & ? & Huniq). assert (rec0 = rec) as -> by congruence.
  eapply (budget_upd_self k t0 n); [|exact Hr| | | | | |]; simpl; try done; try lia.
Qed.

Lemma budget_Succeeded k t0 n a l l' :
  wf l -> budget k t0 n l -> Succeeded a l = Some l' ->
  settled_event l a ESucceeded <> ESucceeded k -> budget k t0 n l'.
Proof.
  intros Hwf Hb HS Hne. unfold Succeeded in HS.
  destruct (settle_inv _ _ _ _ ESucceeded HS Hwf) as [[-> _]|(r & rec & Ha & Hr & E & [= <-])]; [done|].
  rewrite E in Hne. assert (subject rec <> k) by congruence.
  eapply budget_removeLocked; [by apply released_lookup|done|]. by eapply budget_released_other.
Qed.

Lemma budget_failed_self k t0 n n1 n2 n3 a r rec l l' :
  in_window t0 l n1 -> tracked_budget k t0 n l r -> heap l !! r = Some rec ->
  failedLocked n1 n2 n3 r (released a r l) = Some l' -> budget k t0 n l'.
Proof.
  intros [Hlo Hhi] (rec0 & Hk & Hr0 & Hs & Hn & ? & ? & ? & Huniq) Hr HF.
  assert (rec0 = rec) as -> by congruence.
  set (rec1 := charge (released a r l) 1 n1 (set_inFlight (inFlight rec - 1) rec)).
  assert (heap (upd r (charge (released a r l) 1 n1) (released a r l)) !! r = Some rec1) as Hr1.
  { by rewrite upd_lookup, decide_True, (released_lookup _ _ _ rec). }
  assert (subject rec1 = k) as Hs1 by (subst rec1; by rewrite (proj1 (benign_charge _ _ _ _))).
  apply failedLocked_inv in HF as (rec' & Hr' & HF). rewrite Hr1 in Hr'. injection Hr' as <-.
  rewrite Hs1 in HF. change (records (upd _ _ _)) with (records l) in HF.
  destruct HF as [[_ ->]|[(r' & ? & ? & _)|[? _]]]; [|congruence|congruence].
  right. exists r, rec1. split_and!; try done.
  - subst rec1. unfold charge. case_match; simpl; lia.
  - subst rec1. unfold charge. case_match; simpl; lia.
  - subst rec1. unfold charge, time_add. case_match; simpl; [right; lia|done].
  - intros r' rec' (x & (y & Hy & ->)%upd_lookup_inv & ->)%upd_lookup_inv.
    repeat case_decide; try done. eauto.
Qed.

Lemma budget_failed_other k t0 n n1 n2 n3 r rec l l' :
  wf l -> Z.of_nat (size (records l)) < capacity l ->
  heap l !! r = Some rec -> subject rec <> k -> budget k t0 n l ->
  failedLocked n1 n2 n3 r l = Some l' -> budget k t0 n l'.
Proof.
  intros Hwf Hroom Hr Hne Hb HF.
  assert (wf (upd r (charge l 1 n1) l)) as Hwf1 by (apply wf_upd; auto using benign_charge).
  assert (budget k t0 n (upd r (charge l 1 n1) l)) as Hb1.
  { eapply budget_upd_other; [apply benign_charge|exact Hr|done|done]. }
  apply failedLocked_inv in HF as (rec1 & Hr1 & HF).
  assert (subject rec1 = subject rec) as Hs1.
  { rewrite upd_lookup, decide_True, Hr in Hr1 by done. injection Hr1 as <-. apply benign_charge. }
  rewrite Hs1 in HF. destruct HF as [[_ ->]|[(r' & Hk' & _ & ->)|(_ & l2 & Hm & ->)]]; [done| |].
  - destruct (w_rec _ Hwf1 _ _ Hk') as (rec' & Hr' & Hs').
    eapply budget_upd_other; [apply benign_charge|exact Hr'|congruence|done].
  - rewrite makeRoom_id in Hm by done. injection Hm as <-. by eapply budget_track.
Qed.

Lemma budget_Failed k t0 n a n1 n2 n3 l l' :
  wf l -> Z.of_nat (size (records l)) < capacity l -> in_window t0 l n1 ->
  budget k t0 n l -> Failed a n1 n2 n3 l = Some l' -> budget k t0 n l'.
Proof.
  intros Hwf Hroom Hwin Hb HF. unfold Failed in HF.
  destruct (settle_inv _ _ _ _ EFailed HF Hwf) as [[-> _]|(r & rec & Ha & Hr & _ & HF')]; [done|].
  destruct (decide (subject rec = k)) as [Hs|Hne].
  - eapply budget_failed_self; [exact Hwin|by eapply budget_running|exact Hr|exact HF'].
  - eapply budget_failed_other; [by apply wf_settled|done|by apply released_lookup|done| |exact HF'].
    by eapply budget_released_other.
Qed.

Lemma budget_step k t0 n l o l' e :
  wf l -> 1 <= max l -> 0 <= blockFor l -> Z.of_nat (size (records l)) < capacity l ->
  Forall (in_window t0 l) (op_times o) -> budget k t0 n l ->
  step l o = Some (l', e) -> e <> ESucceeded k -> budget k t0 (n + delta k e) l'.
Proof.
  intros Hwf Hmax Hpos Hroom Hwin Hb Hst Hne. destruct o as [sub n0 n'|a|a n1 n2 n3|a]; simpl in *.
  - apply fmap_Some in Hst as ([an l1] & HB & E). simpl in E. apply Forall_cons in Hwin as [Hw _].
    pose proof (budget_Begin _ _ _ _ _ _ _ _ _ Hwf Hmax Hpos Hroom Hw Hb HB) as H.
    destruct an; by injection E as -> ->.
  - apply fmap_Some in Hst as (l1 & HS & [= -> ->]). replace (delta k _) with 0; [rewrite Z.add_0_r|].
    + by eapply budget_Succeeded.
    + unfold settled_event. by case_match.
  - apply fmap_Some in Hst as (l1 & HF & [= -> ->]). apply Forall_cons in Hwin as [Hw _].
    replace (delta k _) with 0; [rewrite Z.add_0_r; by eapply budget_Failed|].
    unfold settled_event. by case_match.
  - apply fmap_Some in Hst as (l1 & HA & [= -> ->]). by eapply budget_Abandon.
Qed.

Lemma params_run os : forall l l' es, run l os = Some (l', es) -> params l' = params l.
Proof.
  induction os as [|o os IH]; intros l l' es Hr; simpl in Hr; [by injection Hr as <- _|].
  destruct (step l o) as [[l1 e]|] eqn:Hst; [|done].
  destruct (run l1 os) as [[l2 es2]|] eqn:Hr2; [|done]. injection Hr as <- <-.
  rewrite <- (params_step _ _ _ _ Hst). eauto.
Qed.

Definition total_delta (k : string) (es : list event) : Z := foldr (fun e n => delta k e + n) 0 es.

Lemma budget_run k t0 os : forall n l l' es,
  wf l -> 1 <= max l -> 0 <= blockFor l ->
  Z.of_nat (size (records l) + length os) <= capacity l ->
  Forall (in_window t0 l) (mbind op_times os) -> budget k t0 n l ->
  run l os = Some (l', es) -> ESucceeded k ∉ es -> budget k t0 (n + total_delta k es) l'.
Proof.
  induction os as [|o os IH]; intros n l l' es Hwf Hmax Hpos Hroom Hwin Hb Hrun Hno; simpl in *.
  { injection Hrun as <- <-. simpl. by rewrite Z.add_0_r. }
  destruct (step l o) as [[l1 e]|] eqn:Hst; [|done].
  destruct (run l1 os) as [[l2 es2]|] eqn:Hr2; [|done]. injection Hrun as <- <-.
  apply Forall_app in Hwin as [Hw1 Hw2]. apply not_elem_of_cons in Hno as [Hne Hno].
  pose proof (params_step _ _ _ _ Hst) as Hp. unfold params in Hp. injection Hp as Em Ec Eb.
  pose proof (size_step _ _ _ _ Hst) as Hsz.
  destruct (wf_step l o Hwf) as (l1' & e' & Hst' & Hwf1). rewrite Hst in Hst'. injection Hst' as <- <-.
  simpl. rewrite Z.add_assoc.
  apply (IH (n + delta k e) l1 l2 es2); try done; try lia.
  - eapply Forall_impl; [exact Hw2|]. unfold in_window. intros. lia.
  - eapply budget_step; [exact Hwf|done|done|lia|exact Hw1|exact Hb|exact Hst|congruence].
Qed.

Lemma total_delta_count k es :
  total_delta k es = count_event (EAdmitted k) es - count_event (EAbandoned k) es.
Proof.
  unfold count_event. induction es as [|e es IH]; [done|]. simpl. rewrite IH.
  rewrite !filter_cons.
  destruct e; simpl; repeat case_bool_decide; repeat case_decide; simplify_eq/=; lia.
Qed.

(** ** Properties *)

(** However sign-ins, failures, successes and abandoned attempts of any
    number of subjects interleave, the limiter never dereferences nil, never
    tracks more than its capacity, and its map and recency list hold exactly
    the same records. *)
Theorem limiter_reachable_ok mx d os :
  exists l es, run (newAttemptLimiter mx d) os = Some (l, es) /\
    Z.of_nat (size (records l)) <= maxTrackedSubjects /\
    NoDup (recency l) /\
    (forall r, r ∈ recency l <-> exists k, records l !! k = Some r).
Proof.
  destruct (wf_run os _ (wf_new mx d)) as (l & es & Hr & Hwf). exists l, es.
  split; [done|]. pose proof (params_run _ _ _ _ Hr) as Hp. injection Hp as _ Hc _.
  destruct Hwf. split_and!; [lia|done|done].
Qed.

(** C40: the guess budget holds under concurrency.  In any window shorter than
    the block period, whatever the interleaving of concurrent attempts, the
    attempts admitted for a subject and not abandoned (each one a password or
    code that was checked or is being checked) never exceed the budget, as
    long as none of them succeeded, the subject was not tracked when the window
    began, and the limiter had room for every call of the window, so that it
    evicted nobody.  Under a flood that fills the limiter the budget does not
    hold: [flood_resets_the_budget]. *)
Theorem guesses_within_budget k t0 mx d l l' es os :
  wf l -> unseen k l -> max l = mx -> blockFor l = d -> 1 <= mx -> 0 <= d ->
  Z.of_nat (size (records l) + length os) <= capacity l ->
  Forall (fun t => t0 <= t < t0 + d) (mbind op_times os) ->
  run l os = Some (l', es) -> ESucceeded k ∉ es ->
  count_event (EAdmitted k) es - count_event (EAbandoned k) es <= mx.
Proof.
  intros Hwf Hun <- <- Hmax Hpos Hroom Hwin Hrun Hno. rewrite <- total_delta_count.
  assert (budget k t0 0 l) as Hb by (left; done).
  pose proof (budget_run k t0 os 0 l l' es Hwf Hmax Hpos Hroom Hwin Hb Hrun Hno) as Hb'.
  pose proof (params_run _ _ _ _ Hrun) as Hp. injection Hp as Hm _ _.
  destruct Hb' as [[E _]|(r & rec & _ & _ & _ & _ & ? & _)]; lia.
Qed.

Definition burst : list op :=
  [OBegin "a" 100 100; OBegin "a" 100 100; OBegin "a" 101 101; OFailed 0 102 102 102;
   OBegin "a" 103 103; OAbandon 1; OBegin "a" 104 104; OFailed 2 105 105 105; OBegin "a" 106 106].

Lemma guesses_within_budget_witness :
  match run (newAttemptLimiter 2 1000) burst with
  | Some (_, es) => count_event (EAdmitted "a") es - count_event (EAbandoned "a") es <= 2
  | None => False
  end.
Proof.
  destruct (run (newAttemptLimiter 2 1000) burst) as [[l' es]|] eqn:E; [|vm_compute in E; discriminate].
  apply (guesses_within_budget "a" 100 2 1000 (newAttemptLimiter 2 1000) l' es burst).
  - apply wf_new.
  - split; [reflexivity|]. intros r rec H. discriminate.
  - reflexivity.
  - reflexivity.
  - lia.
  - lia.
  - vm_compute. discriminate.
  - vm_compute. repeat constructor; discriminate.
  - exact E.
  - vm_compute in E. injection E as _ <-. rewrite list_elem_of_In. simpl. intuition discriminate.
Defined.

(** What the room is for: the limiter evicts a subject that has failed but is not
    locked out yet, and with it the count of its failures.  A limiter of two
    subjects and two tries: one failure, then two invented subjects, then two more
    tries, and three guesses were admitted, and checked, within the window. *)
Definition flood : list op :=
  [OBegin "a" 100 100; OFailed 0 101 101 101;
   OBegin "x" 102 102; OFailed 1 103 103 103; OBegin "y" 104 104; OFailed 2 105 105 105;
   OBegin "a" 106 106; OFailed 3 107 107 107; OBegin "a" 108 108; OFailed 4 109 109 109].

Theorem flood_resets_the_budget :
  match run (mkLimiter [] [] ∅ [] 2 2 1000 0) flood with
  | Some (_, es) => count_event (EAdmitted "a") es - count_event (EAbandoned "a") es = 3 /\ ESucceeded "a" ∉ es
  | None => False
  end.
Proof.
  destruct (run _ flood) as [[l es]|] eqn:E; [|vm_compute in E; discriminate].
  vm_compute in E. injection E as _ <-. split; [reflexivity|]. rewrite list_elem_of_In. simpl. intuition discriminate.
Qed.

(** A lockout is not released by filling the limiter.  When the limiter
    makes room it drops at most one record, and that record is neither locked
    out nor mid-attempt whenever one of the [evictionProbe] least recently
    used records is neither. *)
Theorem eviction_spares_lockouts now l l' :
  wf l -> makeRoomLocked now l = Some l' ->
  (exists r, r ∈ take evictionProbe (recency l) /\ evictable l now r = true) ->
  forall k r rec, records l !! k = Some r -> heap l !! r = Some rec ->
    blocked rec now = true \/ inFlight rec <> 0 ->
    records l' !! k = Some r /\ heap l' !! r = Some rec.
Proof.
  intros Hwf Hm (r1 & Hin & Hev) k r rec Hk Hr Hbusy.
  destruct (makeRoom_spec now l Hwf) as (l0 & E & _ & _ & Hcase). rewrite Hm in E. injection E as <-.
  destruct Hcase as [->|(v & Hv & ->)]; [done|].
  assert (evictable l now v = true) as Hevv.
  { unfold victim in Hv. destruct (List.find _ _) eqn:Hf; [injection Hv as <-; apply (find_some _ _ Hf)|].
    rewrite list_elem_of_In in Hin. by rewrite (find_none _ _ Hf _ Hin) in Hev. }
  unfold evictable in Hevv. destruct (heap l !! v) as [recv|] eqn:Hrv; [|done].
  assert (v <> r) as Hne.
  { intros ->. simplify_eq. b2p. destruct Hbusy; congruence. }
  destruct (removeLocked_cases _ _ _ Hwf Hrv) as [[Hkv ->]|[_ ->]]; [|done].
  destruct (w_rec _ Hwf _ _ Hk) as (rec' & Hr' & Hs). simplify_eq. split.
  - simpl. rewrite lookup_delete_ne; [done|]. congruence.
  - by rewrite upd_lookup, decide_False.
Qed.

(** "a" is locked out, "b" is idle, and the limiter holds two. *)
Definition full : list op := [OBegin "a" 100 100; OFailed 0 101 101 101; OBegin "b" 102 102; OAbandon 1].

Lemma eviction_spares_lockouts_witness :
  match run (emptyLimiter 1 2 1000) full with
  | Some (l, _) =>
      match makeRoomLocked 105 l with
      | Some l' => records l' !! "a" = Some 0%nat /\ records l' !! "b" = None
      | None => False
      end
  | None => False
  end.
Proof.
  destruct (wf_run full (emptyLimiter 1 2 1000) ltac:(apply wf_empty; lia)) as (l & es & E & Hwf).
  rewrite E. destruct (makeRoomLocked 105 l) as [l'|] eqn:Hm.
  - split.
    + vm_compute in E. injection E as <- <-.
      refine (proj1 (eviction_spares_lockouts 105 _ l' Hwf Hm _ "a" 0 _ _ _ _)).
      * exists 1%nat. split; [right; left|reflexivity].
      * reflexivity.
      * reflexivity.
      * left. reflexivity.
    + vm_compute in E. injection E as <- <-. vm_compute in Hm. injection Hm as <-. reflexivity.
  - vm_compute in E. injection E as <- <-. vm_compute in Hm. discriminate.
Defined.

End AttemptLimiter.
