(* ===== verification/RateLimit.v ===== *)
(** * The send-rate limiter (internal/ratelimit/limiter.go)

    One token bucket per key (a tenant, or a tenant and provider).  Buckets
    are shared objects: [AllowAll] keeps pointers to the buckets it assessed
    and charges them afterwards, so a pointer is an index into a heap and the
    map holds pointers.

    Token counts are [float64] in the code.  The operations are written
    against the class [Num], whose laws [NumLaws] are the properties of
    [float64] arithmetic on finite values that the safety theorems need
    (monotone, correctly rounded operations satisfy them).  [Q_num] is exact
    arithmetic and [SF64_num] is IEEE binary64 as the standard library
    specifies it; the definitions compute in both. *)

From S2P Require Import Prelude.
From Stdlib Require Import QArith Lqa SpecFloat.
#[local] Open Scope Z_scope.

(** ** Numbers *)

Class Num (F : Type) : Type := {
  of_Z : Z -> F;
  fadd : F -> F -> F;
  fsub : F -> F -> F;
  fmul : F -> F -> F;
  fdiv : F -> F -> F;
  fltb : F -> F -> bool;
  fleb : F -> F -> bool;
  feqb : F -> F -> bool;
  trunc : F -> Z; (* conversion to an integer, towards zero *)
}.

Class NumLaws (F : Type) `{Num F} : Prop := {
  fleb_refl : forall a, fleb a a = true;
  fleb_trans : forall a b c, fleb a b = true -> fleb b c = true -> fleb a c = true;
  fltb_false : forall a b, fltb a b = false -> fleb b a = true;
  fltb_true : forall a b, fltb a b = true -> fleb a b = true;
  of_Z_mono : forall x y, x <= y -> fleb (of_Z x) (of_Z y) = true;
  fsub_nonneg : forall t w, fleb w t = true -> fleb (of_Z 0) (fsub t w) = true;
  fsub_le : forall t w, fleb (of_Z 0) w = true -> fleb (fsub t w) t = true;
  fadd_nonneg : forall a b, fleb (of_Z 0) a = true -> fleb (of_Z 0) b = true -> fleb (of_Z 0) (fadd a b) = true;
  fmul_nonneg : forall a b, fleb (of_Z 0) a = true -> fleb (of_Z 0) b = true -> fleb (of_Z 0) (fmul a b) = true;
  fdiv_nonneg : forall a n, fleb (of_Z 0) a = true -> 0 < n -> fleb (of_Z 0) (fdiv a (of_Z n)) = true;
}.

#[export] Instance Q_num : Num Q := {|
  of_Z := inject_Z;
  fadd := Qplus; fsub := Qminus; fmul := Qmult; fdiv := Qdiv;
  fltb a b := negb (Qle_bool b a);
  fleb := Qle_bool;
  feqb := Qeq_bool;
  trunc q := Z.quot (Qnum q) (Zpos (Qden q));
|}.

(** IEEE binary64, round to nearest even. *)
#[export] Instance SF64_num : Num spec_float := {|
  of_Z z := binary_normalize 53 1024 z 0 false;
  fadd := SFadd 53 1024; fsub := SFsub 53 1024; fmul := SFmul 53 1024; fdiv := SFdiv 53 1024;
  fltb := SFltb; fleb := SFleb; feqb := SFeqb;
  trunc x := match x with
             | S754_finite s m e =>
                 let a := if 0 <=? e then Zpos m * 2 ^ e else Z.quot (Zpos m) (2 ^ (- e)) in
                 if s then - a else a
             | _ => 0
             end;
|}.

(** ** Data *)

Record Limit : Type := mkLimit {
  PerMinute : Z;
  Burst : Z;
}.

Record Request : Type := mkRequest {
  Key : string;
  Limit_of : Limit;
}.

Definition Unlimited (l : Limit) : bool := PerMinute l <=? 0.

Definition defaultMaxBuckets : Z := 10000.
Definition defaultIdleTTL : Z := 15 * Minute.

Module RateLimit.
Section ops.
Context {F : Type} `{Num F}.
(** The order in which [range] visits a map. *)
Variable order : gmap string nat -> list (string * nat).

Record bucket : Type := mkBucket {
  tokens : F;
  bcapacity : F;
  perSec : F;
  refilled : Z;
  seen : Z;
}.

Record Limiter : Type := mkLimiter {
  heap : list bucket;
  buckets : gmap string nat;
  maxBuckets : Z;
  idleTTL : Z;
}.

Definition New : Limiter := mkLimiter [] ∅ defaultMaxBuckets defaultIdleTTL.

Definition set_tokens (x : F) (b : bucket) : bucket :=
  mkBucket x (bcapacity b) (perSec b) (refilled b) (seen b).
Definition set_refilled (t : Z) (b : bucket) : bucket :=
  mkBucket (tokens b) (bcapacity b) (perSec b) t (seen b).
Definition set_seen (t : Z) (b : bucket) : bucket :=
  mkBucket (tokens b) (bcapacity b) (perSec b) (refilled b) t.

Definition with_buckets (l : Limiter) (m : gmap string nat) : Limiter :=
  mkLimiter (heap l) m (maxBuckets l) (idleTTL l).

(** Write through a bucket pointer. *)
Definition upd (r : nat) (f : bucket -> bucket) (l : Limiter) : Limiter :=
  mkLimiter (alter f r (heap l)) (buckets l) (maxBuckets l) (idleTTL l).

(** ** Helpers *)

Definition minFloat (a b : F) : F := if fltb a b then a else b.
Definition maxFloat (a b : F) : F := if fltb b a then a else b.

Definition capacity (l : Limit) : F :=
  if 0 <? Burst l then of_Z (Burst l) else of_Z (PerMinute l).

(** [time.Duration.Seconds]: whole seconds plus the rest over [1e9]. *)
Definition Seconds (d : Z) : F :=
  fadd (of_Z (Z.quot d Second)) (fdiv (of_Z (Z.rem d Second)) (of_Z Second)).

(** ** Assessing and charging one bucket *)

Record decision : Type := mkDecision {
  allowed : bool;
  retryAfter : Z;
  spend : F;
  empty : bool;
}.

Definition apply (d : decision) (b : bucket) : bucket :=
  if negb (allowed d) then b
  else if empty d then set_tokens (of_Z 0) b
  else set_tokens (fsub (tokens b) (spend d)) b.

(** The refill at the head of [assess] and of the loop of [ReserveAll]. *)
Definition refill (now : Z) (b : bucket) : bucket :=
  let elapsed := Seconds (time_sub now (refilled b)) in
  let b := if fltb (of_Z 0) elapsed
           then set_refilled now
                  (set_tokens (minFloat (bcapacity b) (fadd (tokens b) (fmul elapsed (perSec b)))) b)
           else b in
  set_seen now b.

(** What a refilled bucket would do about a cost. *)
Definition decide_cost (b : bucket) (cost : Z) : decision :=
  let want := of_Z cost in
  if fltb (bcapacity b) want then mkDecision true 0 (of_Z 0) true
  else if fleb want (tokens b) then mkDecision true 0 want false
  else let shortfall := fsub want (tokens b) in
       mkDecision false (trunc (fmul (fdiv shortfall (perSec b)) (of_Z Second))) (of_Z 0) false.

(** [assess] returns the refilled bucket it leaves behind and the decision. *)
Definition assess (b : bucket) (cost now : Z) : bucket * decision :=
  let b := refill now b in (b, decide_cost b cost).

(** ** The map of buckets *)

Definition seen_at (l : Limiter) (r : nat) : Z :=
  match heap l !! r with Some b => seen b | None => 0 end.

(** The scan for the least recently used bucket. *)
Definition older (l : Limiter) (acc : string * Z) (kv : string * nat) : string * Z :=
  if bool_decide (fst acc = "") || time_before (seen_at l (snd kv)) (snd acc)
  then (fst kv, seen_at l (snd kv)) else acc.

Definition oldest (l : Limiter) (kvs : list (string * nat)) : string :=
  fst (foldl (older l) ("", 0) kvs).

Definition evictIfNeeded (now : Z) (l : Limiter) : Limiter :=
  if Z.of_nat (size (buckets l)) <? maxBuckets l then l
  else
    let l := with_buckets l
      (filter (fun kv : string * nat =>
         (idleTTL l <? time_sub now (seen_at l kv.2)) = false) (buckets l)) in
    if Z.of_nat (size (buckets l)) <? maxBuckets l then l
    else with_buckets l (delete (oldest l (order (buckets l))) (buckets l)).

Definition rerate (ps cap : F) (b : bucket) : bucket :=
  if negb (feqb (perSec b) ps) || negb (feqb (bcapacity b) cap)
  then mkBucket (minFloat (tokens b) cap) cap ps (refilled b) (seen b)
  else b.

Definition fresh (limit : Limit) (now : Z) : bucket :=
  mkBucket (capacity limit) (capacity limit) (fdiv (of_Z (PerMinute limit)) (of_Z 60)) now now.

Definition bucketFor (key : string) (limit : Limit) (now : Z) (l : Limiter) : nat * Limiter :=
  match buckets l !! key with
  | Some r => (r, upd r (rerate (fdiv (of_Z (PerMinute limit)) (of_Z 60)) (capacity limit)) l)
  | None =>
      let l := evictIfNeeded now l in
      let r := length (heap l) in
      (r, mkLimiter (heap l ++ [fresh limit now]) (<[key := r]> (buckets l)) (maxBuckets l) (idleTTL l))
  end.

(** [assess] through a pointer. *)
Definition assess_at (r : nat) (cost now : Z) (l : Limiter) : decision * Limiter :=
  match heap l !! r with
  | Some b => (decide_cost (refill now b) cost, upd r (refill now) l)
  | None => (mkDecision false 0 (of_Z 0) false, l)
  end.

(** ** Allow and AllowAll *)

Definition norm_cost (cost : Z) : Z := if cost <=? 0 then 1 else cost.

Definition Allow (tenantID : string) (limit : Limit) (cost now : Z) (l : Limiter)
    : (bool * Z) * Limiter :=
  if Unlimited limit then ((true, 0), l)
  else
    let cost := norm_cost cost in
    let '(r, l) := bucketFor tenantID limit now l in
    let '(d, l) := assess_at r cost now l in
    ((allowed d, retryAfter d), upd r (apply d) l).

(** Skipped by [AllowAll] and [ReserveAll]. *)
Definition skipped (req : Request) : bool :=
  Unlimited (Limit_of req) || bool_decide (Key req = "").

(** The deciding loop: the verdict so far, the longest wait of the buckets
    that refused, and the buckets assessed, in order. *)
Fixpoint decideAll (reqs : list Request) (cost now : Z) (l : Limiter)
    : (bool * Z * list (nat * decision)) * Limiter :=
  match reqs with
  | [] => ((true, 0, []), l)
  | req :: reqs =>
      if skipped req then decideAll reqs cost now l
      else
        let '(r, l) := bucketFor (Key req) (Limit_of req) now l in
        let '(d, l) := assess_at r cost now l in
        let '((ok, wait, ds), l) := decideAll reqs cost now l in
        ((allowed d && ok, if allowed d then wait else Z.max (retryAfter d) wait, (r, d) :: ds), l)
  end.

Definition applyAll (ds : list (nat * decision)) (l : Limiter) : Limiter :=
  foldl (fun l rd => upd (fst rd) (apply (snd rd)) l) l ds.

Definition AllowAll (reqs : list Request) (cost now : Z) (l : Limiter) : (bool * Z) * Limiter :=
  let cost := norm_cost cost in
  let '((ok, wait, ds), l) := decideAll reqs cost now l in
  if negb ok then ((false, wait), l) else ((true, 0), applyAll ds l).

(** ** Reservations *)

Record held : Type := mkHeld {
  hkey : string;
  restore : F;
}.

Record Reservation : Type := mkReservation {
  delay : Z;
  rheld : list held;
}.

(** [Reservation.Delay]. *)
Definition Delay (res : Reservation) : Z := delay res.

(** One turn of the loop of [ReserveAll] on a refilled bucket: the charged
    bucket, what [Cancel] would give back, and the wait. *)
Definition reserve_bucket (cost : Z) (b : bucket) : bucket * F * Z :=
  let want := of_Z cost in
  if fltb (bcapacity b) want then (set_tokens (of_Z 0) b, maxFloat (tokens b) (of_Z 0), 0)
  else
    let b := set_tokens (fsub (tokens b) want) b in
    (b, want,
     if fltb (tokens b) (of_Z 0)
     then trunc (fmul (fdiv (fsub (of_Z 0) (tokens b)) (perSec b)) (of_Z Second)) else 0).

Fixpoint reserveLoop (reqs : list Request) (cost now : Z) (res : Reservation) (l : Limiter)
    : Reservation * Limiter :=
  match reqs with
  | [] => (res, l)
  | req :: reqs =>
      if skipped req then reserveLoop reqs cost now res l
      else
        let '(r, l) := bucketFor (Key req) (Limit_of req) now l in
        match heap l !! r with
        | None => reserveLoop reqs cost now res l
        | Some b =>
            let '(b', give, wait) := reserve_bucket cost (refill now b) in
            reserveLoop reqs cost now
              (mkReservation (if delay res <? wait then wait else delay res)
                 (rheld res ++ [mkHeld (Key req) give]))
              (upd r (fun _ => b') l)
        end
  end.

Definition ReserveAll (reqs : list Request) (cost now : Z) (l : Limiter) : Reservation * Limiter :=
  reserveLoop reqs (norm_cost cost) now (mkReservation 0 []) l.

(** [Cancel] on a reservation that is not nil; it empties the reservation. *)
Definition Cancel (res : Reservation) (l : Limiter) : Reservation * Limiter :=
  (mkReservation (delay res) [],
   foldl (fun l h =>
     match buckets l !! hkey h with
     | None => l
     | Some r => upd r (fun b => set_tokens (minFloat (bcapacity b) (fadd (tokens b) (restore h))) b) l
     end) l (rheld res)).

Definition Forget (tenantID : string) (l : Limiter) : Limiter :=
  with_buckets l (delete tenantID (buckets l)).

Definition Tracked (l : Limiter) : nat := size (buckets l).

(** ** Invariant and its preservation *)

Definition view (l : Limiter) (k : string) : option bucket := buckets l !! k ≫= fun r => heap l !! r.

(** Pointers are valid and not shared between keys, and the map is bounded. *)
Record wf (l : Limiter) : Prop := {
  w_ptr : forall k r, buckets l !! k = Some r -> is_Some (heap l !! r);
  w_inj : forall k k' r, buckets l !! k = Some r -> buckets l !! k' = Some r -> k = k';
  w_max : 1 <= maxBuckets l;
  w_size : Z.of_nat (size (buckets l)) <= maxBuckets l;
}.

(** A tracked bucket never holds more than its capacity. *)
Definition full_at_most (b : bucket) : Prop :=
  fleb (of_Z 0) (bcapacity b) = true /\ fleb (tokens b) (bcapacity b) = true.

Definition inv (l : Limiter) : Prop :=
  wf l /\ forall k b, view l k = Some b -> full_at_most b.

Definition room (l : Limiter) : Prop := Z.of_nat (size (buckets l)) < maxBuckets l.

Hypothesis order_perm : forall m, order m ≡ₚ map_to_list m.

Lemma rl_wf_upd r f l : wf l -> wf (upd r f l).
Proof.
  intros []. constructor; try done. intros k r' Hk. simpl.
  rewrite list_lookup_alter. case_decide; [|eauto]. subst. apply fmap_is_Some. eauto.
Qed.

Lemma view_upd_same r f l k :
  buckets l !! k = Some r -> view (upd r f l) k = f <$> view l k.
Proof. intros Hk. unfold view. simpl. rewrite Hk. simpl. by rewrite list_lookup_alter_eq. Qed.

Lemma view_upd_other r f l k k' :
  wf l -> buckets l !! k = Some r -> k' <> k -> view (upd r f l) k' = view l k'.
Proof.
  intros Hwf Hk Hne. unfold view. simpl. destruct (buckets l !! k') as [r'|] eqn:Hk'; [|done]. simpl.
  rewrite list_lookup_alter_ne; [done|]. intros ->. by eapply Hne, (w_inj _ Hwf).
Qed.

(** An update of one bucket that keeps it within its capacity. *)
Lemma inv_upd r f l :
  inv l -> (forall b, full_at_most b -> full_at_most (f b)) -> inv (upd r f l).
Proof.
  intros [Hwf Hb] Hf. split; [by apply rl_wf_upd|]. intros k b. unfold view. simpl.
  destruct (buckets l !! k) as [r'|] eqn:Hk; [|done]. simpl. rewrite list_lookup_alter.
  assert (view l k = heap l !! r') as Hv by (unfold view; by rewrite Hk).
  case_decide; [subst|]; intros Hx.
  - apply fmap_Some in Hx as (b0 & Hb0 & ->). apply Hf, (Hb k). congruence.
  - apply (Hb k). congruence.
Qed.

Lemma wf_sub l m : wf l -> m ⊆ buckets l -> wf (with_buckets l m).
Proof.
  intros [] Hm. constructor; simpl; try done.
  - intros k r Hk. eapply w_ptr0, lookup_weaken; eauto.
  - intros k k' r Hk Hk'. eapply w_inj0; eapply lookup_weaken; eauto.
  - pose proof (map_subseteq_size _ _ Hm). lia.
Qed.

Lemma inv_sub l m : inv l -> m ⊆ buckets l -> inv (with_buckets l m).
Proof.
  intros [Hwf Hb] Hm. split; [by apply wf_sub|]. intros k b. unfold view. simpl. intros Hx.
  apply bind_Some in Hx as (r & Hr & Hx). apply (Hb k). unfold view.
  by rewrite (lookup_weaken _ _ _ _ Hr Hm).
Qed.

(** The scan names a key of the map it scanned. *)
Lemma oldest_in l kvs : kvs <> [] -> oldest l kvs ∈ kvs.*1.
Proof.
  assert (forall kvs acc, (foldl (older l) acc kvs).1 = acc.1 \/ (foldl (older l) acc kvs).1 ∈ kvs.*1) as Hgen.
  { clear kvs. induction kvs as [|kv kvs IH]; intros acc; simpl; [by left|].
    destruct (IH (older l acc kv)) as [->|Hin]; [|right; by right]. unfold older.
    case_match; [right; by left|by left]. }
  destruct kvs as [|kv kvs]; [done|]. intros _. unfold oldest. simpl.
  change (older l ("", 0) kv) with (kv.1, seen_at l kv.2).
  destruct (Hgen kvs (kv.1, seen_at l kv.2)) as [->|Hin]; [by left|by right].
Qed.

Lemma evict_spec now l :
  wf l -> exists m, m ⊆ buckets l /\ evictIfNeeded now l = with_buckets l m /\
    Z.of_nat (size m) < maxBuckets l /\ (room l -> m = buckets l).
Proof.
  intros Hwf. unfold evictIfNeeded. destruct (Z.ltb_spec (Z.of_nat (size (buckets l))) (maxBuckets l)).
  { exists (buckets l). by destruct l. }
  assert (forall m, room l -> m = buckets l) as Hno by (unfold room; lia).
  cbv zeta. set (m := filter _ (buckets l)). simpl.
  assert (m ⊆ buckets l) as Hm by apply map_filter_subseteq.
  destruct (Z.ltb_spec (Z.of_nat (size m)) (maxBuckets l)) as [|Hge]; [by exists m; auto|].
  exists (delete (oldest (with_buckets l m) (order m)) m).
  split_and!; [etransitivity; [apply delete_subseteq|done]|reflexivity| |auto].
  assert (order m <> []) as Hne.
  { intros E. pose proof (order_perm m) as Hp. rewrite E in Hp. apply Permutation_nil_l in Hp.
    symmetry in Hp. apply map_to_list_empty_iff in Hp. subst. rewrite Hp, map_size_empty in Hge.
    destruct Hwf. lia. }
  assert (is_Some (m !! oldest (with_buckets l m) (order m))) as Hin.
  { pose proof (oldest_in (with_buckets l m) _ Hne) as Hk.
    apply list_elem_of_fmap in Hk as ([k r] & -> & Hk).
    apply (elem_of_Permutation_proper (k, r) _ _ (order_perm m)), elem_of_map_to_list in Hk. eauto. }
  rewrite map_size_delete_Some by done. destruct Hwf. pose proof (map_subseteq_size _ _ Hm). lia.
Qed.

Definition prepare (limit : Limit) (now : Z) (o : option bucket) : bucket :=
  refill now match o with
             | Some b => rerate (fdiv (of_Z (PerMinute limit)) (of_Z 60)) (capacity limit) b
             | None => fresh limit now
             end.

(** Inserting a fresh bucket under a key that has none. *)
Lemma wf_insert l k b :
  wf l -> buckets l !! k = None -> room l ->
  wf (mkLimiter (heap l ++ [b]) (<[k := length (heap l)]> (buckets l)) (maxBuckets l) (idleTTL l)).
Proof.
  intros [] Hk Hroom. unfold room in Hroom. constructor; simpl; try done.
  - intros k' r [[<- <-]|[_ Hk']]%lookup_insert_Some.
    + rewrite list_lookup_middle by done. eauto.
    + destruct (w_ptr0 _ _ Hk') as [b' Hb']. exists b'. by apply lookup_app_l_Some.
  - intros k1 k2 r [[<- <-]|[? H1]]%lookup_insert_Some [[<- E]|[? H2]]%lookup_insert_Some; try done.
    + destruct (w_ptr0 _ _ H2) as [? ?%lookup_lt_Some]. lia.
    + subst. destruct (w_ptr0 _ _ H1) as [? ?%lookup_lt_Some]. lia.
    + eauto.
  - rewrite map_size_insert_None by done. lia.
Qed.

Lemma view_insert l k b k' :
  wf l -> view (mkLimiter (heap l ++ [b]) (<[k := length (heap l)]> (buckets l)) (maxBuckets l) (idleTTL l)) k'
    = if decide (k = k') then Some b else view l k'.
Proof.
  intros Hwf. unfold view. simpl. rewrite lookup_insert. case_decide; simpl.
  - by rewrite list_lookup_middle.
  - destruct (buckets l !! k') as [r|] eqn:Hk'; [|done]. simpl.
    destruct (w_ptr _ Hwf _ _ Hk') as [b' Hb']. rewrite Hb'. by apply lookup_app_l_Some.
Qed.

(** The bucket for a key, once assessed: refilled and re-rated, or fresh. *)
Lemma bucketFor_assess key limit cost now l :
  wf l ->
  exists m r l1 l2 d, m ⊆ buckets l /\ (room l -> m = buckets l) /\
    bucketFor key limit now l = (r, l1) /\ assess_at r cost now l1 = (d, l2) /\
    wf l2 /\ buckets l2 = <[key := r]> m /\ (buckets l ⊆ <[key := r]> (buckets l)) /\
    maxBuckets l2 = maxBuckets l /\
    d = decide_cost (prepare limit now (view l key)) cost /\
    view l2 key = Some (prepare limit now (view l key)) /\
    (forall k, k <> key -> view l2 k = view (with_buckets l m) k).
Proof.
  intros Hwf. unfold bucketFor. destruct (buckets l !! key) as [r|] eqn:Hk.
  - destruct (w_ptr _ Hwf _ _ Hk) as [b Hb].
    assert (view l key = Some b) as Hv by (unfold view; by rewrite Hk).
    set (rr := rerate _ _).
    assert (heap (upd r rr l) !! r = Some (rr b)) as E by (cbn [heap upd]; by rewrite list_lookup_alter_eq, Hb).
    exists (buckets l), r, (upd r rr l), (upd r (refill now) (upd r rr l)), (decide_cost (refill now (rr b)) cost).
    assert (wf (upd r (refill now) (upd r rr l))) as Hwf2 by auto using rl_wf_upd.
    unfold assess_at. rewrite E, Hv. split_and!; try done.
    + simpl. by rewrite insert_id.
    + by rewrite insert_id.
    + rewrite (view_upd_same r) by done. rewrite (view_upd_same r) by done. by rewrite Hv.
    + intros k Hne. rewrite (view_upd_other r _ _ key), (view_upd_other r _ _ key); auto using rl_wf_upd.
  - destruct (evict_spec now l Hwf) as (m & Hm & -> & Hroom & Hsame). simpl.
    assert (wf (with_buckets l m)) as Hwfm by (by apply wf_sub).
    assert (view l key = None) as Hv by (unfold view; by rewrite Hk).
    assert (m !! key = None) as Hmk.
    { destruct (m !! key) eqn:E; [|done]. pose proof (lookup_weaken _ _ _ _ E Hm). congruence. }
    pose proof (wf_insert (with_buckets l m) key (fresh limit now) Hwfm Hmk Hroom) as Hwf1. simpl in Hwf1.
    pose proof (view_insert (with_buckets l m) key (fresh limit now)) as Hvi. simpl in Hvi.
    set (l1 := mkLimiter _ _ _ _) in *.
    assert (heap l1 !! length (heap l) = Some (fresh limit now)) as E by (simpl; by rewrite list_lookup_middle).
    exists m, (length (heap l)), l1, (upd (length (heap l)) (refill now) l1),
      (decide_cost (refill now (fresh limit now)) cost). unfold assess_at. rewrite E, Hv.
    assert (buckets l1 !! key = Some (length (heap l))) as Hk1 by apply lookup_insert_eq.
    split_and!; try done.
    + auto using rl_wf_upd.
    + by apply insert_subseteq.
    + rewrite (view_upd_same _ _ _ _ Hk1), Hvi by done. by rewrite decide_True.
    + intros k Hne. rewrite (view_upd_other _ _ _ _ _ Hwf1 Hk1 Hne), Hvi by done. by rewrite decide_False.
Qed.

(** ** AllowAll as one decision

    [pv] is the buckets before the call, by key. *)

Definition active (reqs : list Request) : list Request := filter (fun r => skipped r = false) reqs.

Definition before_charge (pv : string -> option bucket) (now : Z) (req : Request) : bucket :=
  prepare (Limit_of req) now (pv (Key req)).

Definition verdict (pv : string -> option bucket) (now cost : Z) (req : Request) : decision :=
  decide_cost (before_charge pv now req) cost.

Definition longest_wait (pv : string -> option bucket) (now cost : Z) (reqs : list Request) : Z :=
  foldr (fun req w => let d := verdict pv now cost req in
                      if allowed d then w else Z.max (retryAfter d) w) 0 reqs.

Lemma decideAll_spec pv cost now reqs : forall l,
  wf l -> Z.of_nat (size (buckets l) + length (active reqs)) <= maxBuckets l ->
  NoDup (Key <$> active reqs) ->
  (forall req, req ∈ active reqs -> view l (Key req) = pv (Key req)) ->
  exists ds l',
    decideAll reqs cost now l =
      ((forallb (fun req => allowed (verdict pv now cost req)) (active reqs),
        longest_wait pv now cost (active reqs), ds), l') /\
    wf l' /\ maxBuckets l' = maxBuckets l /\
    Forall2 (fun req rd => buckets l' !! Key req = Some rd.1 /\ rd.2 = verdict pv now cost req)
      (active reqs) ds /\
    (forall k r, buckets l !! k = Some r -> buckets l' !! k = Some r) /\
    (forall req, req ∈ active reqs -> view l' (Key req) = Some (before_charge pv now req)) /\
    (forall k, k ∉ Key <$> active reqs -> view l' k = view l k).
Proof.
  induction reqs as [|req reqs IH]; intros l Hwf Hsz Hnd Hpv.
  { exists [], l. split_and!; try done. intros ? ?%not_elem_of_nil. done. }
  unfold active in *. rewrite filter_cons in *. simpl. destruct (skipped req) eqn:Hs;
    [rewrite decide_False in * by done; by apply IH|].
  rewrite decide_True in * by done. rewrite fmap_cons, NoDup_cons in Hnd. destruct Hnd as [Hnot Hnd]. simpl in Hsz.
  destruct (bucketFor_assess (Key req) (Limit_of req) cost now l Hwf)
    as (m & r & l1 & l2 & d & Hm & Hroom & -> & Ea & Hwf2 & Hb2 & Hsub & Hmax2 & Hd & Hv2 & Ho2).
  rewrite Ea. rewrite Hroom in Hb2, Ho2 by (unfold room; lia). clear m Hm Hroom.
  assert (Hpv0 : view l (Key req) = pv (Key req)) by (apply Hpv; by left).
  destruct (IH l2 Hwf2) as (ds & l' & -> & Hwf' & Hmax' & Hds & Hk' & Hin' & Hout'); [|done| |].
  { rewrite Hb2, Hmax2. pose proof (map_size_insert_bound (buckets l) (Key req) r). lia. }
  { intros req' Hin. rewrite Ho2; [apply Hpv; by right|]. intros E. apply Hnot. rewrite <- E.
    by apply list_elem_of_fmap_2. }
  rewrite Hpv0 in Hd, Hv2. subst d.
  exists ((r, verdict pv now cost req) :: ds), l'. split_and!; try done; try congruence.
  - constructor; [|done]. split; [|done]. apply Hk'. rewrite Hb2. apply lookup_insert_eq.
  - intros k r' Hk. apply Hk'. rewrite Hb2. by eapply lookup_weaken.
  - intros req' [->|Hin]%elem_of_cons; [|by apply Hin']. rewrite Hout' by done. done.
  - intros k Hk. rewrite fmap_cons, not_elem_of_cons in Hk. destruct Hk. rewrite Hout' by done. by apply Ho2.
Qed.

Lemma applyAll_spec (V : Request -> decision) reqs ds : forall l,
  wf l -> NoDup (Key <$> reqs) ->
  Forall2 (fun req rd => buckets l !! Key req = Some rd.1 /\ rd.2 = V req) reqs ds ->
  (forall req, req ∈ reqs -> view (applyAll ds l) (Key req) = apply (V req) <$> view l (Key req)) /\
  (forall k, k ∉ Key <$> reqs -> view (applyAll ds l) k = view l k).
Proof.
  revert ds. induction reqs as [|req reqs IH]; intros ds l Hwf Hnd HF.
  { apply Forall2_nil_inv_l in HF as ->. split; [by intros ? ?%not_elem_of_nil|done]. }
  apply Forall2_cons_inv_l in HF as ([r d] & ds' & [Hk Hd] & HF & ->). simpl in Hk, Hd. subst d.
  rewrite fmap_cons, NoDup_cons in Hnd. destruct Hnd as [Hnot Hnd]. simpl.
  destruct (IH ds' (upd r (apply (V req)) l)) as [Hin Hout]; [by apply rl_wf_upd|done|done|].
  split.
  - intros req' [->|Hr]%elem_of_cons.
    + rewrite Hout by done. by apply view_upd_same.
    + rewrite Hin by done. rewrite (view_upd_other r _ _ (Key req)); [done|done|done|].
      intros E. apply Hnot. rewrite <- E. by apply list_elem_of_fmap_2.
  - intros k [Hne Hkn]%not_elem_of_cons.
    rewrite Hout by done. by apply (view_upd_other r _ _ (Key req)).
Qed.

Lemma AllowAll_spec reqs cost now l :
  wf l -> Z.of_nat (size (buckets l) + length (active reqs)) <= maxBuckets l ->
  NoDup (Key <$> active reqs) ->
  let c := norm_cost cost in
  let ok := forallb (fun req => allowed (verdict (view l) now c req)) (active reqs) in
  exists l',
    AllowAll reqs cost now l =
      ((ok, if ok then 0 else longest_wait (view l) now c (active reqs)), l') /\
    (forall req, req ∈ active reqs ->
       view l' (Key req) =
         let b := before_charge (view l) now req in
         Some (if ok then apply (verdict (view l) now c req) b else b)) /\
    (forall k, k ∉ Key <$> active reqs -> view l' k = view l k).
Proof.
  intros Hwf Hsz Hnd c ok. unfold AllowAll. fold c.
  destruct (decideAll_spec (view l) c now reqs l Hwf Hsz Hnd) as
    (ds & l1 & -> & Hwf1 & _ & Hds & _ & Hin & Hout); [done|].
  fold ok. destruct ok; simpl; [|eauto].
  destruct (applyAll_spec (verdict (view l) now c) (active reqs) ds l1 Hwf1 Hnd Hds) as [Hin2 Hout2].
  eexists. split; [done|]. split.
  - intros req Hr. by rewrite Hin2, Hin.
  - intros k Hk. by rewrite Hout2, Hout.
Qed.

(** [AllowAll] is one decision.  It admits exactly when every limited
    bucket would admit the cost by itself, and then each of them pays;
    otherwise none of them is charged - each is left as re-rated and refilled
    for the time that passed - and the caller is told the longest wait of the
    buckets that refused.  No other bucket changes either way. *)
Theorem AllowAll_all_or_nothing reqs cost now l :
  wf l -> Z.of_nat (size (buckets l) + length (active reqs)) <= maxBuckets l ->
  NoDup (Key <$> active reqs) ->
  let c := norm_cost cost in
  let ok := forallb (fun req => allowed (verdict (view l) now c req)) (active reqs) in
  exists l',
    AllowAll reqs cost now l =
      ((ok, if ok then 0 else longest_wait (view l) now c (active reqs)), l') /\
    (forall req, req ∈ active reqs ->
       view l' (Key req) =
         let b := before_charge (view l) now req in
         Some (if ok then apply (verdict (view l) now c req) b else b)) /\
    (forall k, k ∉ Key <$> active reqs -> view l' k = view l k).
Proof. apply AllowAll_spec. Qed.

(** ** The invariant along every trace *)

Inductive op : Type :=
| OAllow (tenantID : string) (limit : Limit) (cost now : Z)
| OAllowAll (reqs : list Request) (cost now : Z)
| OReserveAll (reqs : list Request) (cost now : Z)
| OCancel (res : Reservation)
| OForget (tenantID : string).

Definition step (l : Limiter) (o : op) : Limiter :=
  match o with
  | OAllow t lim c n => (Allow t lim c n l).2
  | OAllowAll reqs c n => (AllowAll reqs c n l).2
  | OReserveAll reqs c n => (ReserveAll reqs c n l).2
  | OCancel res => (Cancel res l).2
  | OForget t => Forget t l
  end.

(** The bound of the map is fixed at construction. *)
Lemma max_bucketFor key lim now l : maxBuckets (bucketFor key lim now l).2 = maxBuckets l.
Proof. unfold bucketFor, evictIfNeeded. cbv zeta. by repeat case_match. Qed.

Lemma max_assess r c now l : maxBuckets (assess_at r c now l).2 = maxBuckets l.
Proof. unfold assess_at. by case_match. Qed.

Lemma max_decideAll reqs c now : forall l, maxBuckets (decideAll reqs c now l).2 = maxBuckets l.
Proof.
  induction reqs as [|req reqs IH]; intros l; simpl; [done|]. case_match; [done|].
  pose proof (max_bucketFor (Key req) (Limit_of req) now l) as H1. destruct (bucketFor _ _ _ _) as [r l1].
  pose proof (max_assess r c now l1) as H2. destruct (assess_at _ _ _ _) as [d l2].
  specialize (IH l2). destruct (decideAll _ _ _ _) as [[[ok w] ds] l3]. simpl in *. congruence.
Qed.

Lemma max_foldl {A} (f : Limiter -> A -> Limiter) xs :
  (forall l x, maxBuckets (f l x) = maxBuckets l) -> forall l, maxBuckets (foldl f l xs) = maxBuckets l.
Proof. intros Hf. induction xs as [|x xs IH]; intros l; simpl; [done|]. by rewrite IH. Qed.

Lemma max_reserveLoop reqs c now : forall res l, maxBuckets (reserveLoop reqs c now res l).2 = maxBuckets l.
Proof.
  induction reqs as [|req reqs IH]; intros res l; simpl; [done|]. case_match; [done|].
  pose proof (max_bucketFor (Key req) (Limit_of req) now l) as H1. destruct (bucketFor _ _ _ _) as [r l1].
  simpl in H1. case_match; [|by rewrite IH]. destruct (reserve_bucket _ _) as [[b' g] w]. by rewrite IH.
Qed.

Lemma max_step l o : maxBuckets (step l o) = maxBuckets l.
Proof.
  destruct o as [t lim c n|reqs c n|reqs c n|res|t]; simpl; try done.
  - unfold Allow. case_match; [done|]. pose proof (max_bucketFor t lim n l). destruct (bucketFor _ _ _ _) as [r l1].
    pose proof (max_assess r (norm_cost c) n l1). destruct (assess_at _ _ _ _) as [d l2]. simpl in *. congruence.
  - unfold AllowAll. pose proof (max_decideAll reqs (norm_cost c) n l).
    destruct (decideAll _ _ _ _) as [[[ok w] ds] l1]. destruct ok; simpl in *; [|done].
    unfold applyAll. by rewrite max_foldl.
  - apply max_reserveLoop.
  - apply max_foldl. intros. by case_match.
Qed.

Context `{!NumLaws F}.

Lemma minFloat_l a b : fleb (minFloat a b) a = true.
Proof. unfold minFloat. case_match; [apply fleb_refl|by apply fltb_false]. Qed.

Lemma minFloat_r a b : fleb (minFloat a b) b = true.
Proof. unfold minFloat. case_match; [by apply fltb_true|apply fleb_refl]. Qed.

Lemma full_refill now b : full_at_most b -> full_at_most (refill now b).
Proof. intros [H0 H1]. unfold refill. cbv zeta. case_match; split; simpl; auto using minFloat_l. Qed.

Lemma capacity_nonneg lim : 0 < PerMinute lim -> fleb (of_Z 0) (capacity lim) = true.
Proof. intros. unfold capacity. case_match; b2p; apply of_Z_mono; lia. Qed.

Lemma full_rerate lim ps b :
  0 < PerMinute lim -> full_at_most b -> full_at_most (rerate ps (capacity lim) b).
Proof.
  intros Hp [H0 H1]. unfold rerate. case_match; [|by split].
  split; simpl; auto using minFloat_r, capacity_nonneg.
Qed.

Lemma full_prepare lim now o :
  0 < PerMinute lim -> (forall b, o = Some b -> full_at_most b) -> full_at_most (prepare lim now o).
Proof.
  intros Hp Ho. apply full_refill. destruct o; [by apply full_rerate; auto|].
  split; simpl; auto using capacity_nonneg, fleb_refl.
Qed.

Lemma full_apply c b b' : 0 <= c -> full_at_most b -> full_at_most (apply (decide_cost b' c) b).
Proof.
  intros Hc [H0 H1]. unfold apply, decide_cost. repeat case_match; simplify_eq/=; split; simpl; auto.
  eapply fleb_trans; [|exact H1]. apply fsub_le, of_Z_mono. lia.
Qed.

Lemma inv_bucketFor_assess key lim cost now l :
  0 < PerMinute lim -> inv l ->
  exists r l1 l2 d, bucketFor key lim now l = (r, l1) /\ assess_at r cost now l1 = (d, l2) /\
    inv l2 /\ exists b, d = decide_cost b cost.
Proof.
  intros Hp [Hwf Hb].
  destruct (bucketFor_assess key lim cost now l Hwf)
    as (m & r & l1 & l2 & d & Hm & _ & E1 & E2 & Hwf2 & Hb2 & _ & Hmax2 & Hd & Hv2 & Ho2).
  exists r, l1, l2, d. split_and!; [done|done| |eauto]. split; [done|].
  intros k b. destruct (decide (k = key)) as [->|Hne].
  - rewrite Hv2. intros [= <-]. apply full_prepare; eauto.
  - rewrite Ho2 by done. apply (inv_sub l m (conj Hwf Hb) Hm).
Qed.

Lemma skipped_pos req : skipped req = false -> 0 < PerMinute (Limit_of req).
Proof. unfold skipped, Unlimited. intros. b2p. lia. Qed.

Lemma inv_decideAll reqs cost now : forall l, inv l ->
  let '((_, _, ds), l') := decideAll reqs cost now l in
  inv l' /\ Forall (fun rd : nat * decision => exists b, rd.2 = decide_cost b cost) ds.
Proof.
  induction reqs as [|req reqs IH]; intros l Hl; simpl; [by split|].
  destruct (skipped req) eqn:Hs; [by apply IH|].
  destruct (inv_bucketFor_assess (Key req) (Limit_of req) cost now l (skipped_pos _ Hs) Hl)
    as (r & l1 & l2 & d & -> & -> & Hl2 & Hd).
  specialize (IH l2 Hl2). destruct (decideAll reqs cost now l2) as [[[ok w] ds] l3].
  destruct IH. split; [done|]. by constructor.
Qed.

Lemma inv_applyAll c ds : 0 <= c -> forall l, inv l ->
  Forall (fun rd : nat * decision => exists b, rd.2 = decide_cost b c) ds -> inv (applyAll ds l).
Proof.
  intros Hc. induction ds as [|[r d] ds IH]; intros l Hl HF; [done|].
  apply Forall_cons in HF as [[b Hd] HF]. simpl in Hd. subst d. apply IH; [|done]. apply inv_upd; [done|].
  intros. by apply full_apply.
Qed.

Lemma norm_cost_pos c : 1 <= norm_cost c.
Proof. unfold norm_cost. case_match; b2p; lia. Qed.

Lemma full_reserve c b : 0 <= c -> full_at_most b -> full_at_most (reserve_bucket c b).1.1.
Proof.
  intros Hc [H0 H1]. unfold reserve_bucket. case_match; split; simpl; auto.
  eapply fleb_trans; [|exact H1]. apply fsub_le, of_Z_mono. lia.
Qed.

Lemma inv_reserveLoop reqs c now : 0 <= c -> forall res l, inv l -> inv (reserveLoop reqs c now res l).2.
Proof.
  intros Hc. induction reqs as [|req reqs IH]; intros res l Hl; [done|]. simpl.
  destruct (skipped req) eqn:Hs; [by apply IH|].
  destruct (inv_bucketFor_assess (Key req) (Limit_of req) c now l (skipped_pos _ Hs) Hl)
    as (r & l1 & l2 & d & -> & E & Hl2 & Hd).
  unfold assess_at in E. destruct (heap l1 !! r) as [b|] eqn:Hr; injection E as <- <-; [|by apply IH].
  destruct (reserve_bucket c (refill now b)) as [[b' give] w] eqn:Er. apply IH.
  replace (upd r (fun _ => b') l1) with (upd r (fun x => (reserve_bucket c x).1.1) (upd r (refill now) l1)).
  - apply inv_upd; [done|]. intros. by apply full_reserve.
  - unfold upd. simpl. f_equal.
    apply list_eq. intros j. rewrite !list_lookup_alter. case_decide; [|done]. subst j.
    rewrite decide_True, Hr by done. simpl. by rewrite Er.
Qed.

Lemma inv_step l o : inv l -> inv (step l o).
Proof.
  intros Hl. destruct o as [t lim c n|reqs c n|reqs c n|res|t]; simpl.
  - unfold Allow. destruct (Unlimited lim) eqn:Hu; [done|]. unfold Unlimited in Hu. b2p.
    destruct (inv_bucketFor_assess t lim (norm_cost c) n l ltac:(lia) Hl) as (r & l1 & l2 & d & -> & -> & Hl2 & b & ->).
    simpl. apply inv_upd; [done|]. intros. apply full_apply; [|done]. pose proof (norm_cost_pos c). lia.
  - unfold AllowAll. pose proof (inv_decideAll reqs (norm_cost c) n l Hl) as Hd.
    destruct (decideAll reqs (norm_cost c) n l) as [[[ok w] ds] l1]. destruct Hd as [Hl1 HF].
    destruct ok; simpl; [|done]. eapply inv_applyAll; [|done|exact HF]. pose proof (norm_cost_pos c). lia.
  - apply inv_reserveLoop; [|done]. pose proof (norm_cost_pos c). lia.
  - generalize dependent l. induction (rheld res) as [|h hs IH]; intros l Hl; [done|]. simpl. apply IH.
    case_match; [|done]. apply inv_upd; [done|]. intros b [Hb0 Hb1]. split; simpl; auto using minFloat_l.
  - apply inv_sub; [done|]. apply delete_subseteq.
Qed.

Lemma inv_New : inv New.
Proof. split; [|by intros k b]. by constructor. Qed.

(** Whatever mix of [Allow], [AllowAll], [ReserveAll], [Cancel] and
    [Forget] a gateway makes, and in whatever order Go walks its maps, the
    limiter never tracks more than [defaultMaxBuckets] buckets and no bucket
    ever holds more tokens than its capacity: a cancelled reservation or a
    changed limit cannot buy a burst. *)
Theorem limiter_invariant os :
  let l := foldl step New os in
  Z.of_nat (Tracked l) <= defaultMaxBuckets /\
  forall k b, view l k = Some b -> fleb (tokens b) (bcapacity b) = true.
Proof.
  assert (forall l, inv l -> maxBuckets l = defaultMaxBuckets ->
    inv (foldl step l os) /\ maxBuckets (foldl step l os) = defaultMaxBuckets) as Hgen.
  { induction os as [|o os IH]; intros l Hl Hm; [done|]. simpl. apply IH; [by apply inv_step|].
    by rewrite max_step. }
  destruct (Hgen New inv_New eq_refl) as [[Hwf Hb] Hm]. split.
  - unfold Tracked. rewrite <- Hm. apply Hwf.
  - intros k b Hv. by apply (Hb k).
Qed.

End ops.
Arguments bucket F : clear implicits.
Arguments Limiter F : clear implicits.
Arguments op F : clear implicits.

(** ** Exact arithmetic satisfies the laws *)

Lemma Qle_bool_neg a b : Qle_bool a b = false -> (b < a)%Q.
Proof. intros E. apply Qnot_le_lt. intros H%Qle_bool_iff. congruence. Qed.

#[export] Instance Q_laws : NumLaws Q.
Proof.
  constructor; cbn [of_Z fadd fsub fmul fdiv fltb fleb Q_num]; change (inject_Z 0) with 0%Q;
    intros *; rewrite ?negb_true_iff, ?negb_false_iff, ?Qle_bool_iff; try (intros; lra).
  - intros E. apply Qle_bool_neg in E. lra.
  - intros. unfold inject_Z, Qle. simpl. lia.
  - nra.
  - intros Ha Hn. apply Qle_shift_div_l; [unfold inject_Z, Qlt; simpl; lia|]. lra.
Qed.

(** ** The rate bound, in exact arithmetic *)

Section rate.
#[local] Open Scope Q_scope.
Variable order : gmap string nat -> list (string * nat).
Hypothesis order_perm : forall m, order m ≡ₚ map_to_list m.
Variables (key : string) (lim : Limit).
Hypothesis limited : Unlimited lim = false.

Definition secs (ns : Z) : Q := ns # 1000000000.
Definition rate : Q := fdiv (of_Z (PerMinute lim)) (of_Z 60).

(** The total cost a list of calls [(cost, now)] on the key was admitted,
    leaving out the oversized ones, which empty the bucket instead. *)
Fixpoint admitted_cost (calls : list (Z * Z)) (l : Limiter Q) : Q :=
  match calls with
  | [] => 0
  | (c, n) :: calls =>
      let '((ok, _), l') := Allow order key lim c n l in
      (if ok && Qle_bool (inject_Z (norm_cost c)) (capacity lim) then inject_Z (norm_cost c) else 0)
      + admitted_cost calls l'
  end.

(** Calls in the order of a clock that does not go back, the last at [te]. *)
Fixpoint in_order (t : Z) (calls : list (Z * Z)) (te : Z) : Prop :=
  match calls with
  | [] => (t <= te)%Z
  | (_, n) :: calls => (t <= n)%Z /\ in_order n calls te
  end.

Lemma secs_le a b : (a <= b)%Z -> secs a <= secs b.
Proof. unfold secs, Qle. simpl. lia. Qed.

Lemma secs_split a b c : secs (a - b) + secs (b - c) == secs (a - c).
Proof. unfold secs, Qeq. simpl. lia. Qed.

Lemma secs_nonneg a : (0 <= a)%Z -> 0 <= secs a.
Proof. unfold secs, Qle. simpl. lia. Qed.

Lemma Seconds_secs d : Seconds (F := Q) d == secs d.
Proof.
  unfold Seconds, secs, Second. cbn [fadd of_Z fdiv Q_num].
  pose proof (Z.quot_rem' d 1000000000) as E.
  set (q := Z.quot d 1000000000) in *. set (r := Z.rem d 1000000000) in *.
  unfold inject_Z, Qdiv, Qinv, Qeq, Qplus, Qmult. simpl. lia.
Qed.

Lemma rate_nonneg : 0 <= rate.
Proof.
  unfold Unlimited in limited. b2p. unfold rate. cbn [fdiv of_Z Q_num].
  apply Qle_shift_div_l; [reflexivity|]. unfold inject_Z, Qle. simpl. lia.
Qed.

Lemma cap_nonneg : 0 <= capacity (F := Q) lim.
Proof.
  unfold Unlimited in limited. b2p.
  apply Qle_bool_iff, (capacity_nonneg (F := Q) (H := Q_num)). lia.
Qed.

(** A bucket at this limit's rate, in credit, refilled at [t]. *)
Definition at_rate (t : Z) (b : bucket Q) : Prop :=
  perSec b = rate /\ bcapacity b = capacity lim /\ 0 <= tokens b /\ refilled b = t.

Lemma minFloat_Q (a b : Q) : minFloat a b <= a /\ minFloat a b <= b /\ (0 <= a -> 0 <= b -> 0 <= minFloat a b).
Proof.
  unfold minFloat. cbn [fltb Q_num]. destruct (Qle_bool b a) eqn:E; simpl.
  - apply Qle_bool_iff in E. lra.
  - apply Qle_bool_neg in E. lra.
Qed.

(** A refill earns at most the elapsed time at the rate. *)
Lemma refill_earns b t n :
  at_rate t b -> (t <= n)%Z ->
  at_rate n (refill n b) /\ tokens (refill n b) <= tokens b + secs (n - t) * rate.
Proof.
  intros (Hr & Hc & H0 & Ht) Hn. unfold refill. cbv zeta. rewrite Ht.
  pose proof rate_nonneg as Hrate. pose proof cap_nonneg as Hcap.
  assert (0 <= secs (n - t) * rate) as Hearn by (apply Qmult_le_0_compat; [apply secs_nonneg; lia|done]).
  set (e := Seconds (time_sub n t)). assert (0 <= e <= secs (n - t)) as [He0 He].
  { subst e. rewrite Seconds_secs. unfold time_sub. split.
    - apply secs_nonneg, sat64_nonneg. lia.
    - apply secs_le. unfold sat64, minInt64. lia. }
  cbn [fltb of_Z Q_num fadd fmul]. change (inject_Z 0) with 0. destruct (Qle_bool e 0) eqn:E; simpl.
  - apply Qle_bool_iff in E. split; [|lra].
    assert (t = n) as <-; [|done]. subst e. rewrite Seconds_secs in E. unfold secs, Qle in E. simpl in E.
    unfold time_sub, sat64, minInt64, maxInt64 in E. lia.
  - assert (e * perSec b <= secs (n - t) * rate) as Hle by (rewrite Hr; apply Qmult_le_compat_r; done).
    assert (0 <= e * perSec b) as Hge by (rewrite Hr; by apply Qmult_le_0_compat).
    destruct (minFloat_Q (bcapacity b) (tokens b + e * perSec b)) as (? & ? & Hpos).
    split; [|lra]. split_and!; try done. simpl. rewrite Hc in *. apply Hpos; lra.
Qed.

Lemma capacity_eqb : feqb rate rate = true /\ feqb (capacity (F := Q) lim) (capacity lim) = true.
Proof. split; apply Qeq_bool_iff; reflexivity. Qed.

(** One call: what it was admitted for and what it left add up to no more
    than what was there and what was earned. *)
Lemma Allow_step c n l b t :
  wf l -> view l key = Some b \/ (view l key = None /\ b = fresh lim n) ->
  at_rate t b -> (t <= n)%Z ->
  exists ok w l' b', Allow order key lim c n l = ((ok, w), l') /\ wf l' /\
    view l' key = Some b' /\ at_rate n b' /\
    (if ok && Qle_bool (inject_Z (norm_cost c)) (capacity lim) then inject_Z (norm_cost c) else 0)
      + tokens b' <= tokens b + secs (n - t) * rate.
Proof.
  intros Hwf Hv Hb Hn. unfold Allow. rewrite limited.
  destruct (bucketFor_assess order order_perm key lim (norm_cost c) n l Hwf)
    as (m & r & l1 & l2 & d & _ & _ & -> & -> & Hwf2 & Hb2 & _ & _ & Hd & Hv2 & _).
  assert (rerate rate (capacity lim) b = b) as Er.
  { unfold rerate. destruct Hb as (-> & -> & _). by destruct capacity_eqb as [-> ->]. }
  assert (prepare lim n (view l key) = refill n b) as Ep.
  { unfold prepare. fold rate. destruct Hv as [->|[-> ->]]; [by rewrite Er|done]. }
  rewrite Ep in Hd, Hv2. destruct (refill_earns b t n Hb Hn) as [(Hr & Hc & H0 & Ht) Hle].
  remember (refill n b) as b1 eqn:Eb1. clear Eb1 Ep.
  assert (buckets l2 !! key = Some r) as Hk by (rewrite Hb2; apply lookup_insert_eq).
  exists (allowed d), (retryAfter d), (upd r (apply d) l2), (apply d b1). split_and!; try done.
  - by apply rl_wf_upd.
  - by rewrite (view_upd_same r _ _ _ Hk), Hv2.
  - subst d. unfold decide_cost. cbn [fltb fleb fsub of_Z Q_num]. rewrite Hc.
    destruct (Qle_bool (inject_Z (norm_cost c)) (capacity lim)); simpl; [|by split_and!].
    destruct (Qle_bool (inject_Z (norm_cost c)) (tokens b1)) eqn:Et; [|exact (conj Hr (conj Hc (conj H0 Ht)))].
    apply Qle_bool_iff in Et. unfold apply. simpl. split_and!; try done. simpl. lra.
  - subst d. unfold decide_cost. cbn [fltb fleb fsub of_Z Q_num]. rewrite Hc.
    destruct (Qle_bool (inject_Z (norm_cost c)) (capacity lim)) eqn:Ec; simpl.
    + destruct (Qle_bool (inject_Z (norm_cost c)) (tokens b1)) eqn:Et; unfold apply; simpl; [|lra].
      lra.
    + unfold apply. simpl. change (inject_Z 0) with 0. lra.
Qed.

Lemma admitted_from b t calls te : forall l,
  wf l -> view l key = Some b -> at_rate t b -> in_order t calls te ->
  admitted_cost calls l <= tokens b + secs (te - t) * rate.
Proof.
  revert b t. induction calls as [|[c n] calls IH]; intros b t l Hwf Hv Hb Ho; simpl in Ho.
  - simpl. destruct Hb as (_ & _ & H0 & _).
    assert (0 <= secs (te - t) * rate); [|lra].
    apply Qmult_le_0_compat; [apply secs_nonneg; lia|apply rate_nonneg].
  - destruct Ho as [Hn Ho]. destruct (Allow_step c n l b t Hwf (or_introl Hv) Hb Hn)
      as (ok & w & l' & b' & E & Hwf' & Hv' & Hb' & Hle). simpl. rewrite E.
    pose proof (IH b' n l' Hwf' Hv' Hb' Ho) as Hrest.
    pose proof (secs_split te n t) as Hs.
    assert (secs (te - t) * rate == secs (te - n) * rate + secs (n - t) * rate) as Es by (rewrite <- Hs; ring).
    lra.
Qed.

End rate.

(** The ceiling holds.  For a key with no bucket yet, calls made at
    [t0 = n1 <= n2 <= ... <= te] are admitted for a total of at most the
    burst capacity plus the configured rate times the elapsed time, however
    the costs and the times are chosen (exact arithmetic; an oversized call
    is counted by the bucket it empties). *)
Theorem token_bucket_rate order key lim l t0 c0 calls te :
  (forall m, order m ≡ₚ map_to_list m) -> Unlimited lim = false ->
  wf l -> view l key = None -> in_order t0 calls te ->
  (admitted_cost order key lim ((c0, t0) :: calls) l
     <= capacity lim + secs (te - t0) * rate lim)%Q.
Proof.
  intros Hord Hlim Hwf Hv Ho.
  assert (at_rate lim t0 (fresh lim t0)) as Hb.
  { split_and!; try done. simpl. by apply cap_nonneg. }
  destruct (Allow_step order Hord key lim Hlim c0 t0 l (fresh lim t0) t0 Hwf (or_intror (conj Hv eq_refl)) Hb ltac:(lia))
    as (ok & w & l' & b' & E & Hwf' & Hv' & Hb' & Hle). simpl. rewrite E.
  pose proof (admitted_from order Hord key lim Hlim b' t0 calls te l' Hwf' Hv' Hb' Ho) as Hrest.
  simpl in Hle. assert (secs (t0 - t0) == 0)%Q as E0 by (rewrite Z.sub_diag; reflexivity).
  rewrite E0 in Hle. lra.
Qed.

Lemma token_bucket_rate_witness :
  (admitted_cost map_to_list "t" (mkLimit 60 2)
     [(1, 0); (1, 0); (1, 0); (1, 1500000000); (1, 1600000000)]%Z (New (F := Q))
   <= capacity (mkLimit 60 2) + secs 1600000000 * rate (mkLimit 60 2))%Q.
Proof.
  apply (token_bucket_rate map_to_list "t" (mkLimit 60 2) New 0 1
    [(1, 0); (1, 0); (1, 1500000000); (1, 1600000000)] 1600000000).
  - intros m. reflexivity.
  - reflexivity.
  - apply (inv_New (F := Q)).
  - reflexivity.
  - simpl. lia.
Defined.

(** Reserving is not always a charge.  A reservation whose cost exceeds
    the bucket's capacity sets the balance to zero, so on a bucket in debt it
    raises the balance, and cancelling it does not put the debt back: the
    deliveries queued behind that debt are then told a shorter wait. *)
Theorem oversized_reservation_forgives_debt (b : bucket Q) cost :
  (tokens b < 0)%Q -> (bcapacity b < inject_Z cost)%Q ->
  let '(b', give, wait) := reserve_bucket cost b in
  tokens b' = of_Z 0 /\ wait = 0 /\ give = of_Z 0 /\
  (tokens b < tokens b')%Q.
Proof.
  intros Hd Hc. unfold reserve_bucket, maxFloat. cbn [fltb of_Z Q_num].
  assert (Qle_bool (inject_Z cost) (bcapacity b) = false) as ->.
  { apply not_true_iff_false. rewrite Qle_bool_iff. lra. }
  assert (Qle_bool (tokens b) (inject_Z 0) = true) as ->.
  { apply Qle_bool_iff. change (inject_Z 0) with 0%Q. lra. }
  by simpl.
Qed.

Lemma oversized_reservation_forgives_debt_witness :
  let b := mkBucket (-(5))%Q 3%Q 1%Q 0 0 in
  let '(b', give, wait) := reserve_bucket 4 b in
  tokens b' = of_Z 0 /\ wait = 0 /\ give = of_Z 0 /\ (tokens b < tokens b')%Q.
Proof.
  apply (oversized_reservation_forgives_debt (mkBucket (-(5))%Q 3%Q 1%Q 0 0) 4); reflexivity.
Defined.

(** *** Concrete runs

    The provider's bucket is empty and the tenant's is full. *)
Definition saturated : Limiter Q := (Allow map_to_list "p" (mkLimit 60 1) 1 0 New).2.
Definition tenant_and_provider : list Request :=
  [mkRequest "t" (mkLimit 60 5); mkRequest "p" (mkLimit 60 1)].

Lemma AllowAll_all_or_nothing_witness :
  exists l', AllowAll map_to_list tenant_and_provider 1 0 saturated = ((false, 1000000000), l') /\
    (exists b, view l' "t" = Some b /\ tokens b = of_Z 5).
Proof.
  assert (wf saturated) as Hwf.
  { apply (inv_step map_to_list (fun m => Permutation_refl _) New (OAllow "p" (mkLimit 60 1) 1 0)).
    apply inv_New. }
  destruct (AllowAll_all_or_nothing map_to_list (fun m => Permutation_refl _)
    tenant_and_provider 1 0 saturated Hwf) as (l' & E & Hin & _).
  - vm_compute. discriminate.
  - apply (bool_decide_unpack _). vm_compute. exact I.
  - exists l'. split; [rewrite E; f_equal; vm_compute; reflexivity|].
    eexists. split; [exact (Hin (mkRequest "t" (mkLimit 60 5)) ltac:(vm_compute; left))|].
    vm_compute. reflexivity.
Defined.

Lemma limiter_invariant_witness :
  Z.of_nat (Tracked (foldl (step map_to_list) (New (F := Q))
    [OAllow "p" (mkLimit 60 1) 1 0; OReserveAll tenant_and_provider 3 5])) <= defaultMaxBuckets.
Proof.
  apply (limiter_invariant map_to_list (fun m => Permutation_refl _)
    [OAllow "p" (mkLimit 60 1) 1 0; OReserveAll tenant_and_provider 3 5]).
Defined.

(** The same calls in binary64 arithmetic reach the same decisions. *)
Lemma float64_run :
  (AllowAll map_to_list tenant_and_provider 1 0
     (Allow (F := spec_float) map_to_list "p" (mkLimit 60 1) 1 0 New).2).1 = (false, 1000000000) /\
  (AllowAll map_to_list tenant_and_provider 1 1000000000
     (Allow (F := spec_float) map_to_list "p" (mkLimit 60 1) 1 0 New).2).1 = (true, 0).
Proof. vm_compute. split; reflexivity. Qed.

End RateLimit.
