(* ===== verification/GoStrings.v ===== *)
(** * Go's string functions

    The parts of the packages [strings] and [path/filepath] the program uses,
    on byte strings.  Case mapping and white space are the ASCII ones: a byte
    above 127 is neither changed nor trimmed, which is what Go does for every
    string without a non-ASCII letter or space.  The components that depend on
    these functions state their theorems on this byte model. *)
From S2P Require Import Prelude.
From Stdlib Require Import Ascii.

#[global] Arguments String.append _ _ : simpl nomatch.

Module GoStrings.
Local Open Scope string_scope.

(** Go compares strings by their bytes. *)
Definition eqb (a b : string) : bool := bool_decide (a = b).

Definition code (c : ascii) : Z := Z.of_nat (nat_of_ascii c).

Definition is_digit (c : ascii) : bool := (48 <=? code c)%Z && (code c <=? 57)%Z.
Definition is_upper (c : ascii) : bool := (65 <=? code c)%Z && (code c <=? 90)%Z.

Definition lower (c : ascii) : ascii :=
  if is_upper c then ascii_of_nat (nat_of_ascii c + 32) else c.

(** ASCII white space of [unicode.IsSpace]: tab, newline, vertical tab, form
    feed, carriage return and space. *)
Definition is_space (c : ascii) : bool :=
  ((9 <=? code c)%Z && (code c <=? 13)%Z) || (code c =? 32)%Z.

Fixpoint str_all (p : ascii -> bool) (s : string) : bool :=
  match s with
  | "" => true
  | String c r => p c && str_all p r
  end.

Definition is_lower (c : ascii) : bool := (97 <=? code c)%Z && (code c <=? 122)%Z.
Definition upper (c : ascii) : ascii := if is_lower c then ascii_of_nat (nat_of_ascii c - 32) else c.

Fixpoint ToUpper (s : string) : string :=
  match s with
  | "" => ""
  | String c r => String (upper c) (ToUpper r)
  end.

Fixpoint ToLower (s : string) : string :=
  match s with
  | "" => ""
  | String c r => String (lower c) (ToLower r)
  end.

Fixpoint TrimLeftFunc (p : ascii -> bool) (s : string) : string :=
  match s with
  | "" => ""
  | String c r => if p c then TrimLeftFunc p r else s
  end.

Fixpoint TrimRightFunc (p : ascii -> bool) (s : string) : string :=
  match s with
  | "" => ""
  | String c r =>
      match TrimRightFunc p r with
      | "" => if p c then "" else String c ""
      | r' => String c r'
      end
  end.

Definition TrimFunc (p : ascii -> bool) (s : string) : string :=
  TrimRightFunc p (TrimLeftFunc p s).
Definition TrimSpace : string -> string := TrimFunc is_space.

Definition in_cutset (cutset : string) (c : ascii) : bool :=
  bool_decide (c ∈ String.list_ascii_of_string cutset).
Definition Trim (s cutset : string) : string := TrimFunc (in_cutset cutset) s.

Definition HasPrefix (s pre : string) : bool := String.prefix pre s.
#[global] Arguments HasPrefix : simpl never.

Fixpoint HasSuffix (s suf : string) : bool :=
  eqb s suf || match s with "" => false | String _ r => HasSuffix r suf end.

Fixpoint Contains (s sub : string) : bool :=
  HasPrefix s sub || match s with "" => false | String _ r => Contains r sub end.

Fixpoint drop_str (n : nat) (s : string) : string :=
  match n, s with
  | S n', String _ r => drop_str n' r
  | _, _ => s
  end.

(** The first [n] characters of a text. *)
Fixpoint take_str (n : nat) (s : string) : string :=
  match n, s with
  | S n', String c r => String c (take_str n' r)
  | _, _ => ""
  end.

Definition TrimPrefix (s pre : string) : string :=
  if HasPrefix s pre then drop_str (String.length pre) s else s.

(** [strings.Cut] on a one-byte separator. *)
Fixpoint Cut (s : string) (sep : ascii) : option (string * string) :=
  match s with
  | "" => None
  | String c r =>
      if bool_decide (c = sep) then Some ("", r)
      else match Cut r sep with
           | Some (a, b) => Some (String c a, b)
           | None => None
           end
  end.

(** What is before and after the last [sep]: [strings.LastIndex]. *)
Fixpoint cut_last (s : string) (sep : ascii) : option (string * string) :=
  match s with
  | "" => None
  | String c r =>
      match cut_last r sep with
      | Some (a, b) => Some (String c a, b)
      | None => if bool_decide (c = sep) then Some ("", r) else None
      end
  end.

Fixpoint Split (s : string) (sep : ascii) : list string :=
  match s with
  | "" => [""]
  | String c r =>
      if bool_decide (c = sep) then "" :: Split r sep
      else match Split r sep with
           | x :: xs => String c x :: xs
           | [] => [String c ""]
           end
  end.

Definition Join (l : list string) (sep : string) : string := String.concat sep l.

Definition EqualFold (a b : string) : bool := eqb (ToLower a) (ToLower b).

(** [filepath.Ext] on a Unix path: from the last dot of the last element. *)
Fixpoint Ext (s : string) : string :=
  match s with
  | "" => ""
  | String c r =>
      match Ext r with
      | "" => if bool_decide (c = "."%char) && negb (Contains r "/") then s else ""
      | e => e
      end
  end.

(** ** Lemmas *)

Lemma eqb_true a b : eqb a b = true <-> a = b.
Proof. unfold eqb. apply bool_decide_eq_true. Qed.

Lemma eqb_false a b : eqb a b = false <-> a <> b.
Proof. apply bool_decide_eq_false. Qed.

Lemma eqb_refl a : eqb a a = true.
Proof. by apply eqb_true. Qed.

Lemma lower_lower c : lower (lower c) = lower c.
Proof. destruct c as [[] [] [] [] [] [] [] []]; reflexivity. Qed.

Lemma lower_space c : is_space (lower c) = is_space c.
Proof. destruct c as [[] [] [] [] [] [] [] []]; reflexivity. Qed.

Lemma ToLower_idem s : ToLower (ToLower s) = ToLower s.
Proof. induction s as [|c s IH]; simpl; [done|]. by rewrite lower_lower, IH. Qed.

Lemma ToLower_app a b : ToLower (a ++ b) = ToLower a ++ ToLower b.
Proof. induction a as [|c a IH]; simpl; [done|]. by rewrite IH. Qed.

Lemma ToLower_empty s : ToLower s = "" <-> s = "".
Proof. by destruct s. Qed.

Lemma TrimLeftFunc_lower p s :
  (forall c, p (lower c) = p c) -> TrimLeftFunc p (ToLower s) = ToLower (TrimLeftFunc p s).
Proof.
  intros Hp. induction s as [|c s IH]; simpl; [done|]. rewrite Hp. by destruct (p c).
Qed.

Lemma TrimRightFunc_lower p s :
  (forall c, p (lower c) = p c) -> TrimRightFunc p (ToLower s) = ToLower (TrimRightFunc p s).
Proof.
  intros Hp. induction s as [|c s IH]; simpl; [done|]. rewrite IH.
  destruct (TrimRightFunc p s); simpl; [|done]. rewrite Hp. by destruct (p c).
Qed.

Lemma TrimSpace_lower s : TrimSpace (ToLower s) = ToLower (TrimSpace s).
Proof.
  unfold TrimSpace, TrimFunc.
  by rewrite TrimLeftFunc_lower, TrimRightFunc_lower by apply lower_space.
Qed.

Lemma TrimRightFunc_idem p s : TrimRightFunc p (TrimRightFunc p s) = TrimRightFunc p s.
Proof.
  induction s as [|c s IH]; [done|]. simpl.
  destruct (TrimRightFunc p s) as [|c' s'] eqn:E; simpl.
  - destruct (p c) eqn:Hc; simpl; by rewrite ?Hc.
  - simpl in IH. by rewrite IH.
Qed.

(** The head of a right-trimmed string is the head of the original. *)
Lemma TrimRightFunc_head p s c r :
  TrimRightFunc p s = String c r -> exists r', s = String c r'.
Proof.
  destruct s as [|c' s]; simpl; [done|]. intros H.
  destruct (TrimRightFunc p s); [destruct (p c')|]; simplify_eq; eauto.
Qed.

Lemma TrimLeftFunc_head p s c r : TrimLeftFunc p s = String c r -> p c = false.
Proof.
  induction s as [|c' s IH]; simpl; [done|]. destruct (p c') eqn:Hc; [done|]. by intros [= <- _].
Qed.

Lemma TrimLeftFunc_id p s :
  (forall c r, s = String c r -> p c = false) -> TrimLeftFunc p s = s.
Proof. destruct s as [|c s]; simpl; [done|]. intros H. by rewrite (H c s eq_refl). Qed.

Lemma TrimFunc_idem p s : TrimFunc p (TrimFunc p s) = TrimFunc p s.
Proof.
  unfold TrimFunc. rewrite (TrimLeftFunc_id p (TrimRightFunc p _)).
  - apply TrimRightFunc_idem.
  - intros c r Hc. apply TrimRightFunc_head in Hc as [r' Hr'].
    by eapply TrimLeftFunc_head.
Qed.

(** Lower-casing after trimming is a normal form. *)
Lemma lower_trim_idem s :
  ToLower (TrimSpace (ToLower (TrimSpace s))) = ToLower (TrimSpace s).
Proof.
  rewrite TrimSpace_lower, ToLower_idem. unfold TrimSpace. by rewrite TrimFunc_idem.
Qed.

Lemma prefix_app a b : String.prefix a (a ++ b) = true.
Proof.
  induction a as [|c a IH]; simpl; [by destruct b|]. by destruct (ascii_dec c c).
Qed.

Lemma HasPrefix_spec s pre : HasPrefix s pre = true <-> exists r, s = pre ++ r.
Proof.
  unfold HasPrefix. revert s. induction pre as [|c pre IH]; intros s; simpl.
  - split; [intros _; by exists s|]. intros _. by destruct s.
  - destruct s as [|c' s]; [split; [done|by intros [r Hr]]|].
    simpl. destruct (ascii_dec c c') as [->|Hne].
    + rewrite IH. split; intros [r Hr]; exists r; [by subst|]. by injection Hr.
    + split; [done|]. intros [r Hr]. by injection Hr.
Qed.

Lemma string_app_assoc (a b c : string) : (a ++ b) ++ c = a ++ (b ++ c).
Proof. induction a as [|x a IH]; simpl; [done|]. by rewrite IH. Qed.

Lemma string_app_nil (a : string) : a ++ "" = a.
Proof. induction a as [|x a IH]; simpl; [done|]. by rewrite IH. Qed.

Lemma Contains_spec s sub : Contains s sub = true <-> exists a b, s = a ++ sub ++ b.
Proof.
  induction s as [|c s IH]; simpl; rewrite orb_true_iff, HasPrefix_spec.
  - split.
    + intros [[r Hr]|?]; [|done]. by exists "", r.
    + intros (a & b & H). left. destruct a; [by exists b|done].
  - rewrite IH. split.
    + intros [[r Hr]|(a & b & Hab)]; [by exists "", r|]. exists (String c a), b. by rewrite Hab.
    + intros (a & b & H). destruct a as [|x a]; [left; by exists b|right].
      simplify_eq/=. by exists a, b.
Qed.

Lemma Split_nonempty s sep : Split s sep <> [].
Proof. induction s as [|c s IH]; simpl; [done|]. repeat case_match; congruence. Qed.

Lemma Split_nosep s sep x : x ∈ Split s sep -> Contains x (String sep "") = false.
Proof.
  revert x. induction s as [|c s IH]; intros x; simpl.
  - rewrite list_elem_of_singleton. by intros ->.
  - case_bool_decide as Hc.
    + intros [->|Hx]%elem_of_cons; [done|auto].
    + assert (forall y, Contains (String c y) (String sep "") = Contains y (String sep "")) as Hy.
      { intros y. simpl. unfold HasPrefix. simpl. by destruct (ascii_dec sep c) as [->|]. }
      destruct (Split s sep) as [|y ys].
      * intros ->%list_elem_of_singleton. by rewrite Hy.
      * intros [->|Hx]%elem_of_cons; [rewrite Hy|]; apply IH; [by left|by right].
Qed.

Lemma Join_Split s sep : Join (Split s sep) (String sep "") = s.
Proof.
  unfold Join. induction s as [|c s IH]; simpl; [done|].
  pose proof (Split_nonempty s sep) as Hne.
  destruct (Split s sep) as [|y ys] eqn:E; [done|].
  case_bool_decide as Hc.
  - subst c. simpl in *. by rewrite IH.
  - simpl in *. destruct ys; simpl in *; by rewrite IH.
Qed.

(** Cutting at the first separator undoes putting one in. *)
Lemma Cut_spec s sep a b : Cut s sep = Some (a, b) -> s = a ++ String sep b.
Proof.
  revert a. induction s as [|c s IH]; intros a; cbn [Cut]; [done|]. destruct (bool_decide_reflect (c = sep)) as [->|]; [by intros [= <- <-]|].
  destruct (Cut s sep) as [[a' b']|]; [|done]. intros [= <- <-]. by rewrite (IH a').
Qed.

Lemma Cut_app sep a r :
  str_all (fun c => negb (bool_decide (c = sep))) a = true -> Cut (a ++ String sep r) sep = Some (a, r).
Proof.
  induction a as [|c a IH]; simpl; intros H.
  - by rewrite bool_decide_eq_true_2.
  - destruct (bool_decide (c = sep)); [done|]. by rewrite IH.
Qed.

Lemma sep_inj sep a b r s :
  str_all (fun c => negb (bool_decide (c = sep))) a = true ->
  str_all (fun c => negb (bool_decide (c = sep))) b = true ->
  a ++ String sep r = b ++ String sep s -> a = b /\ r = s.
Proof. intros Ha Hb E. pose proof (Cut_app _ _ r Ha) as Hc. rewrite E, Cut_app in Hc by done. by simplify_eq. Qed.

(** Splitting undoes joining when no piece holds the separator. *)
Lemma Split_head sep a r :
  str_all (fun c => negb (bool_decide (c = sep))) a = true -> Split (a ++ String sep r) sep = a :: Split r sep.
Proof.
  induction a as [|c a IH]; simpl; intros H.
  - by rewrite bool_decide_eq_true_2.
  - destruct (bool_decide (c = sep)); [done|]. by rewrite IH.
Qed.

Lemma Split_whole sep a : str_all (fun c => negb (bool_decide (c = sep))) a = true -> Split a sep = [a].
Proof.
  induction a as [|c a IH]; simpl; intros H; [done|]. destruct (bool_decide (c = sep)); [done|]. by rewrite IH.
Qed.

Lemma Split_Join sep l :
  l <> [] -> (forall a, a ∈ l -> str_all (fun c => negb (bool_decide (c = sep))) a = true) ->
  Split (Join l (String sep "")) sep = l.
Proof.
  unfold Join. induction l as [|a l IH]; intros Hne Hall; [done|]. destruct l as [|b l].
  - simpl. apply Split_whole, Hall. by left.
  - change (String.concat (String sep "") (a :: b :: l)) with (a ++ String sep (String.concat (String sep "") (b :: l))).
    rewrite Split_head by (apply Hall; by left). f_equal. apply IH; [done|]. intros x Hx. apply Hall. by right.
Qed.

Lemma str_all_app p a b : str_all p (a ++ b) = str_all p a && str_all p b.
Proof. induction a as [|c a IH]; simpl; [done|]. by rewrite IH, andb_assoc. Qed.

(** The last separator is found where it was put, if none follows it. *)
Lemma cut_last_spec s sep a b : cut_last s sep = Some (a, b) -> s = a ++ String sep b.
Proof.
  revert a. induction s as [|c s IH]; intros a; cbn [cut_last]; [done|]. destruct (cut_last s sep) as [[a' b']|].
  - intros [= <- <-]. by rewrite (IH a').
  - destruct (bool_decide_reflect (c = sep)) as [->|]; [|done]. by intros [= <- <-].
Qed.

Lemma cut_last_app a x sep :
  cut_last x sep = None -> cut_last (a ++ String sep x) sep = Some (a, x).
Proof.
  intros Hx. induction a as [|c a IH]; simpl.
  - rewrite Hx. by rewrite bool_decide_true.
  - by rewrite IH.
Qed.

(** *** Strings all of whose characters satisfy a predicate *)

Lemma str_all_weaken (p q : ascii -> bool) s :
  (forall c, p c = true -> q c = true) -> str_all p s = true -> str_all q s = true.
Proof.
  intros H. induction s as [|c s IH]; simpl; [done|]. intros Hs.
  apply andb_true_iff in Hs as [Hc Hs]. by rewrite (H c Hc), IH.
Qed.

Lemma str_all_lower p s :
  (forall c, p c = true -> lower c = c) -> str_all p s = true -> ToLower s = s.
Proof.
  intros H. induction s as [|c s IH]; simpl; [done|]. intros Hs.
  apply andb_true_iff in Hs as [Hc Hs]. by rewrite (H c Hc), IH.
Qed.

Lemma str_all_trim p s :
  (forall c, p c = true -> is_space c = false) -> str_all p s = true -> TrimSpace s = s.
Proof.
  intros H Hs.
  assert (Hr : forall t, str_all p t = true -> TrimRightFunc is_space t = t).
  { induction t as [|c t IH]; [done|]. intros Ht. simpl in *.
    apply andb_true_iff in Ht as [Hc Ht]. rewrite IH by done. rewrite (H c Hc). by destruct t. }
  unfold TrimSpace, TrimFunc. rewrite Hr; [|].
  - destruct s as [|c s]; [done|]. simpl in *. apply andb_true_iff in Hs as [Hc _]. by rewrite (H c Hc).
  - destruct s as [|c s]; [done|]. simpl in *. apply andb_true_iff in Hs as [Hc Hs]. by rewrite (H c Hc); simpl; rewrite Hc.
Qed.

Lemma str_all_not_in p s c : p c = false -> str_all p s = true -> Contains s (String c "") = false.
Proof.
  intros Hc. induction s as [|d s IH]; simpl; [done|]. intros Hs.
  apply andb_true_iff in Hs as [Hd Hs]. rewrite IH by done.
  destruct (ascii_dec c d) as [->|Hne]; [congruence|]. simpl.
  unfold HasPrefix. simpl. destruct (Ascii.ascii_dec c d); [done|]. reflexivity.
Qed.

Lemma cut_last_none p s c : p c = false -> str_all p s = true -> cut_last s c = None.
Proof.
  intros Hc. induction s as [|d s IH]; simpl; [done|]. intros Hs.
  apply andb_true_iff in Hs as [Hd Hs]. rewrite IH by done.
  rewrite bool_decide_false; [done|]. intros ->. congruence.
Qed.

Lemma Split_str_all p s sep :
  p sep = true -> (forall x, x ∈ Split s sep -> str_all p x = true) -> str_all p s = true.
Proof.
  intros Hp. induction s as [|c s IH]; simpl; [done|]. case_bool_decide as Hc; intros H.
  - subst c. rewrite Hp. simpl. apply IH. intros x Hx. apply H. by right.
  - destruct (Split s sep) as [|y ys] eqn:E; [by destruct (Split_nonempty s sep)|].
    pose proof (H (String c y) ltac:(by left)) as Hy. simpl in Hy.
    apply andb_true_iff in Hy as [Hc' Hy]. rewrite Hc'. simpl. apply IH.
    intros x Hx. apply elem_of_cons in Hx as [->|Hx]; [done|]. apply H. by right.
Qed.

(** *** Concatenation without a separator *)

Lemma concat_cons_nosep a l : String.concat "" (a :: l) = a ++ String.concat "" l.
Proof. destruct l; simpl; [by rewrite string_app_nil|done]. Qed.

Lemma concat_app_nosep l1 l2 : String.concat "" (l1 ++ l2)%list = String.concat "" l1 ++ String.concat "" l2.
Proof.
  induction l1 as [|a l1 IH]; [done|]. change ((a :: l1) ++ l2)%list with (a :: (l1 ++ l2))%list.
  by rewrite !concat_cons_nosep, IH, string_app_assoc.
Qed.

(** *** Taking and dropping *)

Lemma str_length_app a b : String.length (a ++ b) = (String.length a + String.length b)%nat.
Proof. induction a as [|c a IH]; simpl; [done|]. by rewrite IH. Qed.

Lemma take_str_app p t : take_str (String.length (p ++ t) - String.length t) (p ++ t) = p.
Proof.
  rewrite str_length_app. replace (_ + _ - _)%nat with (String.length p) by lia.
  induction p as [|c p IH]; simpl; [by destruct t|]. by rewrite IH.
Qed.

Lemma drop_str_app p t : drop_str (String.length p) (p ++ t) = t.
Proof. induction p as [|c p IH]; [by destruct t|exact IH]. Qed.

Lemma take_str_len p t : take_str (String.length p) (p ++ t) = p.
Proof. induction p as [|c p IH]; simpl; [by destruct t|]. by rewrite IH. Qed.

Lemma TrimPrefix_app p s : TrimPrefix (p ++ s) p = s.
Proof.
  unfold TrimPrefix, HasPrefix. rewrite prefix_app. induction p as [|c p IH]; [by destruct s|exact IH].
Qed.

End GoStrings.
