(* ===== verification/Encoding.v ===== *)
(** * Text encodings of the Go standard library

    The parts of [encoding/base64], [encoding/hex], [strconv] and [fmt] that
    the gateway's tokens, signatures and stored secrets go through, and
    pkg/db/paging.go, which is built on nothing else.  A byte is a character
    and a byte slice a string. *)
From S2P Require Import Prelude GoStrings.
From Stdlib Require Import Ascii.

Module Encoding.
Import GoStrings.
Local Open Scope string_scope.
Local Open Scope Z_scope.

Definition chr (z : Z) : ascii := ascii_of_nat (Z.to_nat z).
Definition str1 (z : Z) : string := String (chr z) "".

(** ** base64 *)

(** The two alphabets differ in their last two letters. *)
Inductive alphabet := StdAlphabet | URLAlphabet.

Definition sixth (al : alphabet) (z : Z) : ascii :=
  if z <? 26 then chr (65 + z)
  else if z <? 52 then chr (97 + (z - 26))
  else if z <? 62 then chr (48 + (z - 52))
  else match al with
       | StdAlphabet => if z =? 62 then "+"%char else "/"%char
       | URLAlphabet => if z =? 62 then "-"%char else "_"%char
       end.

Definition unsixth (al : alphabet) (c : ascii) : option Z :=
  let k := code c in
  if (65 <=? k) && (k <=? 90) then Some (k - 65)
  else if (97 <=? k) && (k <=? 122) then Some (k - 71)
  else if (48 <=? k) && (k <=? 57) then Some (k + 4)
  else match al with
       | StdAlphabet => if k =? 43 then Some 62 else if k =? 47 then Some 63 else None
       | URLAlphabet => if k =? 45 then Some 62 else if k =? 95 then Some 63 else None
       end.

Definition padding (pad : bool) (s : string) : string := if pad then s else "".

(** [EncodeToString]: three bytes make four letters, what is left over two or
    three, filled up when the encoding pads. *)
Fixpoint b64_encode (al : alphabet) (pad : bool) (s : string) : string :=
  match s with
  | String a (String b (String c rest)) =>
      let '(x, y, z) := (code a, code b, code c) in
      String (sixth al (x / 4)) (String (sixth al (x mod 4 * 16 + y / 16))
        (String (sixth al (y mod 16 * 4 + z / 64)) (String (sixth al (z mod 64))
          (b64_encode al pad rest))))
  | String a (String b "") =>
      let '(x, y) := (code a, code b) in
      String (sixth al (x / 4)) (String (sixth al (x mod 4 * 16 + y / 16))
        (String (sixth al (y mod 16 * 4)) (padding pad "=")))
  | String a "" =>
      String (sixth al (code a / 4)) (String (sixth al (code a mod 4 * 16)) (padding pad "=="))
  | "" => ""
  end.

Definition byte1 (x y : Z) : ascii := chr (x * 4 + y / 16).
Definition byte2 (y z : Z) : ascii := chr (y mod 16 * 16 + z / 4).
Definition byte3 (z w : Z) : ascii := chr (z mod 4 * 64 + w).

(** The decoder's loop, line breaks already dropped.  Bits left over in the
    last letter are ignored: neither encoding in use is strict. *)
Fixpoint b64_quanta (al : alphabet) (pad : bool) (s : string) : option string :=
  match s with
  | "" => Some ""
  | String a (String b (String c (String d rest))) =>
      match unsixth al a, unsixth al b with
      | Some x, Some y =>
          if pad && eqb (String c (String d rest)) "==" then Some (String (byte1 x y) "")
          else
            match unsixth al c with
            | None => None
            | Some z =>
                if pad && eqb (String d rest) "=" then Some (String (byte1 x y) (String (byte2 y z) ""))
                else
                  match unsixth al d, b64_quanta al pad rest with
                  | Some w, Some t => Some (String (byte1 x y) (String (byte2 y z) (String (byte3 z w) t)))
                  | _, _ => None
                  end
            end
      | _, _ => None
      end
  | String a (String b (String c "")) =>
      if pad then None
      else
        match unsixth al a, unsixth al b, unsixth al c with
        | Some x, Some y, Some z => Some (String (byte1 x y) (String (byte2 y z) ""))
        | _, _, _ => None
        end
  | String a (String b "") =>
      if pad then None
      else
        match unsixth al a, unsixth al b with
        | Some x, Some y => Some (String (byte1 x y) "")
        | _, _ => None
        end
  | String _ "" => None
  end.

Definition line_break (c : ascii) : bool := (code c =? 10) || (code c =? 13).

Fixpoint drop_breaks (s : string) : string :=
  match s with
  | "" => ""
  | String c r => if line_break c then drop_breaks r else String c (drop_breaks r)
  end.

(** [DecodeString]; [None] is a CorruptInputError. *)
Definition b64_decode (al : alphabet) (pad : bool) (s : string) : option string :=
  b64_quanta al pad (drop_breaks s).

(** [base64.StdEncoding], [RawStdEncoding] and [RawURLEncoding]. *)
Abbreviation StdEncode := (b64_encode StdAlphabet true).
Abbreviation StdDecode := (b64_decode StdAlphabet true).
Abbreviation RawStdEncode := (b64_encode StdAlphabet false).
Abbreviation RawStdDecode := (b64_decode StdAlphabet false).
Abbreviation RawURLEncode := (b64_encode URLAlphabet false).
Abbreviation RawURLDecode := (b64_decode URLAlphabet false).

(** ** hex *)

Definition nibble (z : Z) : ascii := if z <? 10 then chr (48 + z) else chr (97 + (z - 10)).

Definition unnibble (c : ascii) : option Z :=
  let k := code c in
  if (48 <=? k) && (k <=? 57) then Some (k - 48)
  else if (97 <=? k) && (k <=? 102) then Some (k - 87)
  else if (65 <=? k) && (k <=? 70) then Some (k - 55)
  else None.

(** [hex.EncodeToString]. *)
Fixpoint HexEncode (s : string) : string :=
  match s with
  | "" => ""
  | String a r => String (nibble (code a / 16)) (String (nibble (code a mod 16)) (HexEncode r))
  end.

(** [hex.DecodeString]. *)
Fixpoint HexDecode (s : string) : option string :=
  match s with
  | "" => Some ""
  | String a (String b r) =>
      match unnibble a, unnibble b, HexDecode r with
      | Some x, Some y, Some t => Some (String (chr (x * 16 + y)) t)
      | _, _, _ => None
      end
  | String _ "" => None
  end.

(** ** Decimal numbers *)

Fixpoint dec_digits (fuel : nat) (z : Z) (acc : string) : string :=
  match fuel with
  | O => acc
  | S fuel =>
      let acc' := String (chr (48 + z mod 10)) acc in
      if z <? 10 then acc' else dec_digits fuel (z / 10) acc'
  end.

(** [strconv.FormatInt] in base ten, and the [%d] of [fmt].  A number has no
    more digits than bits. *)
Definition FormatUint (z : Z) : string := dec_digits (S (Z.to_nat (Z.log2 z))) z "".
Definition FormatInt (z : Z) : string :=
  if z <? 0 then String "-"%char (FormatUint (- z)) else FormatUint z.

(** The digits a text starts with, read onto [acc]. *)
Fixpoint scan_digits (acc : Z) (s : string) : Z :=
  match s with
  | "" => acc
  | String c r => if is_digit c then scan_digits (acc * 10 + (code c - 48)) r else acc
  end.

Definition starts_digit (s : string) : bool :=
  match s with "" => false | String c _ => is_digit c end.

(** [fmt.Sscanf s "%d"] into an [int]: leading (ASCII) spaces, a sign, digits;
    what follows is left unread.  A line break first, no digits, or a number past
    64 bits, is an error. *)
Definition Sscanf_d (s : string) : option Z :=
  let s := TrimLeftFunc (fun c => is_space c && negb (code c =? 10)) s in
  let '(neg, s) :=
    match s with
    | String c r => if bool_decide (c = "-"%char) then (true, r)
                    else if bool_decide (c = "+"%char) then (false, r) else (false, s)
    | "" => (false, s)
    end in
  if negb (starts_digit s) then None
  else
    let z := if neg : bool then - scan_digits 0 s else scan_digits 0 s in
    if (minInt64 <=? z) && (z <=? maxInt64) then Some z else None.

(** ** Query strings (net/url) *)

Definition is_letter (c : ascii) : bool :=
  is_upper c || ((97 <=? code c) && (code c <=? 122)).

Definition unreserved (c : ascii) : bool :=
  is_letter c || is_digit c || (code c =? 45) || (code c =? 95) || (code c =? 46) || (code c =? 126).

Definition hexdigit (z : Z) : ascii := if z <? 10 then chr (48 + z) else chr (65 + (z - 10)).

(** [url.QueryEscape]. *)
Fixpoint QueryEscape (s : string) : string :=
  match s with
  | "" => ""
  | String c r =>
      if unreserved c then String c (QueryEscape r)
      else if code c =? 32 then String "+"%char (QueryEscape r)
      else String "%"%char (String (hexdigit (code c / 16)) (String (hexdigit (code c mod 16)) (QueryEscape r)))
  end.

(** [url.QueryUnescape]; [None] is an EscapeError. *)
Fixpoint QueryUnescape (s : string) : option string :=
  match s with
  | "" => Some ""
  | String c r =>
      if bool_decide (c = "%"%char) then
        match r with
        | String a (String b r') =>
            match unnibble a, unnibble b, QueryUnescape r' with
            | Some x, Some y, Some t => Some (String (chr (x * 16 + y)) t)
            | _, _, _ => None
            end
        | _ => None
        end
      else
        match QueryUnescape r with
        | Some t => Some (String (if bool_decide (c = "+"%char) then " "%char else c) t)
        | None => None
        end
  end.

(** One [key=value] of [url.ParseQuery]; an empty or malformed one is skipped. *)
Definition query_pair (p : string) : option (string * string) :=
  if Contains p ";" || eqb p "" then None
  else
    let '(k, v) := default (p, "") (Cut p "="%char) in
    match QueryUnescape k, QueryUnescape v with
    | Some k, Some v => Some (k, v)
    | _, _ => None
    end.

Definition ParseQuery (raw : string) : list (string * string) := omap query_pair (Split raw "&"%char).

(** [Values.Get]: the first value of the key, or nothing. *)
Definition query_get (raw k : string) : string :=
  match list_find (fun p => p.1 = k) (ParseQuery raw) with
  | Some (_, (_, v)) => v
  | None => ""
  end.

(** ** Page tokens (pkg/db/paging.go) *)

Definition EncodeOffset (offset : Z) : string :=
  if offset <=? 0 then "" else StdEncode (FormatInt offset).

Definition DecodeOffset (token : string) : Z :=
  if eqb token "" then 0
  else
    match StdDecode token with
    | None => 0
    | Some b => match Sscanf_d b with Some z => z | None => 0 end
    end.

(** ** Round trips *)

Lemma code_range c : 0 <= code c < 256.
Proof. unfold code. pose proof (nat_ascii_bounded c). lia. Qed.

Lemma code_chr z : 0 <= z < 256 -> code (chr z) = z.
Proof. intros. unfold code, chr. rewrite nat_ascii_embedding; lia. Qed.

Lemma chr_code c : chr (code c) = c.
Proof. unfold code, chr. rewrite Nat2Z.id. apply ascii_nat_embedding. Qed.

Lemma sixth_range al z : 0 <= z < 64 -> unsixth al (sixth al z) = Some z.
Proof.
  intros H. assert (Hz : exists n : nat, z = Z.of_nat n /\ (n < 64)%nat) by (exists (Z.to_nat z); lia).
  destruct Hz as (n & -> & Hn). clear H. destruct al; do 64 (destruct n as [|n]; [reflexivity|]); lia.
Qed.

(** No letter of either alphabet is a line break, a dot or the padding. *)
Lemma sixth_letter al z c : 0 <= z < 64 -> unsixth al c = None -> sixth al z <> c.
Proof. intros H Hc <-. by rewrite sixth_range in Hc. Qed.

(** Induction over a byte slice three bytes at a time, as the encoder goes. *)
Lemma triples_ind (P : string -> Prop) :
  P "" -> (forall a, P (String a "")) -> (forall a b, P (String a (String b ""))) ->
  (forall a b c r, P r -> P (String a (String b (String c r)))) -> forall s, P s.
Proof.
  intros H0 H1 H2 H3. cut (forall n s, (String.length s < n)%nat -> P s); [by intros H s; eapply H; constructor|].
  induction n as [|n IH]; intros [|a [|b [|c r]]] Hn; simpl in Hn; try lia; auto.
  apply H3, IH. lia.
Qed.

Ltac six := apply sixth_range;
  repeat match goal with |- context [code ?c] => lazymatch goal with
    | H : 0 <= code c < 256 |- _ => fail | _ => pose proof (code_range c) end end;
  Z.div_mod_to_equations; lia.

Lemma drop_breaks_encode al pad s : drop_breaks (b64_encode al pad s) = b64_encode al pad s.
Proof.
  assert (Hl : forall z r, 0 <= z < 64 -> drop_breaks r = r -> drop_breaks (String (sixth al z) r) = String (sixth al z) r).
  { intros z r Hz Hr. simpl. destruct (line_break (sixth al z)) eqn:E; [|by rewrite Hr]. exfalso.
    apply sixth_range with (al := al) in Hz. unfold line_break in E. unfold unsixth in Hz.
    apply orb_true_iff in E as [E|E]; apply Z.eqb_eq in E; rewrite E in Hz; by destruct al. }
  induction s as [|a|a b|a b c r IH] using triples_ind; [done|..]; simpl b64_encode;
    pose proof (code_range a); try pose proof (code_range b); try pose proof (code_range c);
    repeat (apply Hl; [Z.div_mod_to_equations; lia|]); [by destruct pad..|done].
Qed.

Lemma byte1_eq x k : 0 <= x < 256 -> 0 <= k < 16 -> byte1 (x / 4) (x mod 4 * 16 + k) = chr x.
Proof. intros. unfold byte1. f_equal. Z.div_mod_to_equations. lia. Qed.
Lemma byte2_eq x y k :
  0 <= x < 4 -> 0 <= y < 256 -> 0 <= k < 4 -> byte2 (x * 16 + y / 16) (y mod 16 * 4 + k) = chr y.
Proof. intros. unfold byte2. f_equal. Z.div_mod_to_equations. lia. Qed.
Lemma byte3_eq y z : 0 <= y < 16 -> 0 <= z < 256 -> byte3 (y * 4 + z / 64) (z mod 64) = chr z.
Proof. intros. unfold byte3. f_equal. Z.div_mod_to_equations. lia. Qed.

Lemma not_pad al z r t : 0 <= z < 64 -> eqb (String (sixth al z) r) (String "="%char t) = false.
Proof.
  intros Hz. apply bool_decide_eq_false. intros [= E _]. revert E. apply sixth_letter; [done|by destruct al].
Qed.

(** What is encoded decodes to itself, with or without padding. *)
Lemma b64_roundtrip al pad s : b64_decode al pad (b64_encode al pad s) = Some s.
Proof.
  unfold b64_decode. rewrite drop_breaks_encode.
  induction s as [|a|a b|a b c r IH] using triples_ind; [done|..]; pose proof (code_range a) as Ha;
    try pose proof (code_range b) as Hb; try pose proof (code_range c) as Hc; simpl b64_encode.
  - assert (E : byte1 (code a / 4) (code a mod 4 * 16) = a).
    { rewrite <- (Z.add_0_r (_ * 16)), byte1_eq by lia. apply chr_code. }
    destruct pad; simpl; rewrite !sixth_range by (Z.div_mod_to_equations; lia); by rewrite ?E.
  - assert (E1 : byte1 (code a / 4) (code a mod 4 * 16 + code b / 16) = a).
    { rewrite byte1_eq by (Z.div_mod_to_equations; lia). apply chr_code. }
    assert (E2 : byte2 (code a mod 4 * 16 + code b / 16) (code b mod 16 * 4) = b).
    { rewrite <- (Z.add_0_r (code b mod 16 * 4)), byte2_eq by (Z.div_mod_to_equations; lia). apply chr_code. }
    destruct pad; cbn [b64_quanta padding]; rewrite !sixth_range by (Z.div_mod_to_equations; lia);
      rewrite ?not_pad by (Z.div_mod_to_equations; lia); simpl; by rewrite E1, E2.
  - cbn [b64_quanta]. rewrite !sixth_range, !not_pad by (Z.div_mod_to_equations; lia).
    rewrite !andb_false_r, IH.
    rewrite byte1_eq, byte2_eq, byte3_eq by (Z.div_mod_to_equations; lia). by rewrite !chr_code.
Qed.

Lemma HexDecode_HexEncode s : HexDecode (HexEncode s) = Some s.
Proof.
  assert (Hn : forall z, 0 <= z < 16 -> unnibble (nibble z) = Some z).
  { intros z Hz. assert (E : exists n : nat, z = Z.of_nat n /\ (n < 16)%nat) by (exists (Z.to_nat z); lia).
    destruct E as (n & -> & E). clear Hz. do 16 (destruct n as [|n]; [reflexivity|]). lia. }
  induction s as [|a r IH]; [done|]. simpl. pose proof (code_range a).
  rewrite !Hn, IH by (Z.div_mod_to_equations; lia). do 2 f_equal.
  rewrite <- (chr_code a) at 3. f_equal. Z.div_mod_to_equations. lia.
Qed.

(** Hex digits only: no colon. *)
Definition is_hex (c : ascii) : bool := bool_decide (unnibble c <> None).

Lemma HexEncode_hex s : str_all is_hex (HexEncode s) = true.
Proof.
  assert (Hn : forall z, 0 <= z < 16 -> is_hex (nibble z) = true).
  { intros z Hz. assert (E : exists n : nat, z = Z.of_nat n /\ (n < 16)%nat) by (exists (Z.to_nat z); lia).
    destruct E as (n & -> & E). clear Hz. do 16 (destruct n as [|n]; [reflexivity|]). lia. }
  induction s as [|a r IH]; [done|]. cbn [HexEncode str_all]. pose proof (code_range a).
  by rewrite !Hn, IH by (Z.div_mod_to_equations; lia).
Qed.

(** *** Numbers *)

Lemma digit_chr z : 0 <= z < 10 -> is_digit (chr (48 + z)) = true /\ code (chr (48 + z)) - 48 = z.
Proof. intros. unfold is_digit. rewrite code_chr by lia. lia. Qed.

Lemma dec_digits_scan fuel : forall z acc, 0 <= z < 2 ^ Z.of_nat fuel -> (0 < fuel)%nat ->
  scan_digits 0 (dec_digits fuel z acc) = scan_digits z acc.
Proof.
  induction fuel as [|fuel IH]; intros z acc Hz Hf; [lia|]. cbn [dec_digits].
  destruct (digit_chr (z mod 10)) as [Hd Hc]; [Z.div_mod_to_equations; lia|].
  assert (E : scan_digits (z / 10) (String (chr (48 + z mod 10)) acc) = scan_digits z acc).
  { simpl. rewrite Hd, Hc. f_equal. Z.div_mod_to_equations. lia. }
  destruct (Z.ltb_spec z 10) as [Hs|Hs].
  - rewrite <- E. f_equal. Z.div_mod_to_equations. lia.
  - rewrite <- E. destruct fuel as [|fuel]; [simpl in Hz; lia|].
    apply IH; [|lia]. rewrite Nat2Z.inj_succ, Z.pow_succ_r in Hz by lia. Z.div_mod_to_equations. lia.
Qed.

Lemma dec_digits_all fuel : forall z acc, 0 <= z -> str_all is_digit acc = true ->
  str_all is_digit (dec_digits fuel z acc) = true.
Proof.
  induction fuel as [|fuel IH]; intros z acc Hz Ha; [done|]. cbn [dec_digits].
  assert (E : str_all is_digit (String (chr (48 + z mod 10)) acc) = true).
  { cbn [str_all]. rewrite Ha. destruct (digit_chr (z mod 10)) as [-> _]; [Z.div_mod_to_equations; lia|done]. }
  destruct (z <? 10); [done|]. apply IH; [Z.div_mod_to_equations; lia|done].
Qed.

Lemma FormatUint_digits z : 0 <= z -> str_all is_digit (FormatUint z) = true.
Proof. intros. by apply dec_digits_all. Qed.

Lemma FormatUint_scan z : 0 <= z -> scan_digits 0 (FormatUint z) = z.
Proof.
  intros Hz. unfold FormatUint. rewrite dec_digits_scan; [done| |lia].
  rewrite Nat2Z.inj_succ, Z2Nat.id by apply Z.log2_nonneg.
  destruct (Z.eq_dec z 0) as [->|Hn]; [by simpl|]. pose proof (Z.log2_spec z). lia.
Qed.

Lemma dec_digits_cons fuel : forall z acc, exists c r, dec_digits (S fuel) z acc = String c r.
Proof.
  induction fuel as [|fuel IH]; intros z acc; cbn [dec_digits]; destruct (z <? 10); eauto.
Qed.

Lemma FormatUint_starts z : 0 <= z -> starts_digit (FormatUint z) = true.
Proof.
  intros Hz. pose proof (FormatUint_digits z Hz) as H. unfold FormatUint in *.
  destruct (dec_digits_cons (Z.to_nat (Z.log2 z)) z "") as (c & r & E). rewrite E in *. simpl in *.
  by destruct (is_digit c).
Qed.

Lemma FormatInt_inj x y : FormatInt x = FormatInt y -> x = y.
Proof.
  assert (Hm : forall z t, 0 <= z -> FormatUint z <> String "-"%char t).
  { intros z t Hz E. pose proof (FormatUint_starts z Hz) as H. by rewrite E in H. }
  unfold FormatInt. destruct (Z.ltb_spec x 0), (Z.ltb_spec y 0); intros E.
  - injection E as E. apply (f_equal (scan_digits 0)) in E. rewrite !FormatUint_scan in E by lia. lia.
  - symmetry in E. by apply Hm in E.
  - by apply Hm in E.
  - apply (f_equal (scan_digits 0)) in E. by rewrite !FormatUint_scan in E by lia.
Qed.

Lemma Sscanf_FormatInt z : 0 <= z <= maxInt64 -> Sscanf_d (FormatInt z) = Some z.
Proof.
  intros Hz. unfold FormatInt. destruct (Z.ltb_spec z 0); [lia|].
  pose proof (FormatUint_starts z ltac:(lia)) as Hs. pose proof (FormatUint_scan z ltac:(lia)) as Hn.
  unfold Sscanf_d. destruct (FormatUint z) as [|c r]; [done|]. simpl in Hs.
  assert (Hc : 48 <= code c <= 57) by (unfold is_digit in Hs; lia).
  assert (Hsp : is_space c = false).
  { unfold is_space. lia. }
  cbn [TrimLeftFunc]. rewrite Hsp. simpl.
  rewrite !bool_decide_eq_false_2 by (intros ->; vm_compute in Hc; by destruct Hc).
  cbn [starts_digit]. rewrite Hs. cbn [negb]. simpl scan_digits in *. rewrite Hn.
  unfold minInt64. destruct (Z.leb_spec (- 2 ^ 63) z), (Z.leb_spec z maxInt64); simpl; try done; lia.
Qed.

(** A page token decodes to the offset it was made from, so a client that walks
    a list by its tokens resumes exactly where the last page ended. *)
Lemma page_token_roundtrip offset : 0 <= offset <= maxInt64 -> DecodeOffset (EncodeOffset offset) = offset.
Proof.
  intros Ho. unfold EncodeOffset, DecodeOffset. destruct (Z.leb_spec offset 0); [simpl; lia|].
  rewrite b64_roundtrip, Sscanf_FormatInt by lia.
  destruct (eqb (StdEncode (FormatInt offset)) "") eqn:E; [|done]. apply eqb_true in E.
  pose proof (b64_roundtrip StdAlphabet true (FormatInt offset)) as H'. rewrite E in H'. injection H' as H'.
  pose proof (Sscanf_FormatInt offset ltac:(lia)) as H''. by rewrite <- H' in H''.
Qed.

(** *** Query strings *)

Lemma hexdigit_ok z : 0 <= z < 16 -> unnibble (hexdigit z) = Some z.
Proof.
  intros H. assert (E : exists n : nat, z = Z.of_nat n /\ (n < 16)%nat) by (exists (Z.to_nat z); lia).
  destruct E as (n & -> & E). clear H. do 16 (destruct n as [|n]; [reflexivity|]). lia.
Qed.

Lemma unreserved_plain c : unreserved c = true -> c <> "%"%char /\ c <> "+"%char.
Proof. intros H. split; intros ->; by vm_compute in H. Qed.

Lemma QueryUnescape_plain s : str_all unreserved s = true -> QueryUnescape s = Some s.
Proof.
  induction s as [|c s IH]; cbn [str_all QueryUnescape]; [done|]. intros [Hc Hs]%andb_true_iff.
  destruct (unreserved_plain c Hc). by rewrite !bool_decide_eq_false_2, IH.
Qed.

Lemma QueryUnescape_QueryEscape s : QueryUnescape (QueryEscape s) = Some s.
Proof.
  induction s as [|c s IH]; [done|]. cbn [QueryEscape]. destruct (unreserved c) eqn:Hu.
  - destruct (unreserved_plain c Hu). cbn [QueryUnescape]. by rewrite !bool_decide_eq_false_2, IH.
  - destruct (Z.eqb_spec (code c) 32) as [Hc|Hc].
    + cbn [QueryUnescape]. rewrite bool_decide_eq_false_2, IH, bool_decide_eq_true_2 by done. do 2 f_equal.
      rewrite <- (chr_code c), Hc. reflexivity.
    + cbn [QueryUnescape]. rewrite bool_decide_eq_true_2 by done. pose proof (code_range c).
      rewrite !hexdigit_ok, IH by (Z.div_mod_to_equations; lia). do 2 f_equal.
      rewrite <- (chr_code c) at 3. f_equal. Z.div_mod_to_equations. lia.
Qed.

(** What an escaped value can hold: nothing that structures a query. *)
Definition escaped (c : ascii) : bool := unreserved c || bool_decide (c = "%"%char) || bool_decide (c = "+"%char).

Lemma hexdigit_escaped z : 0 <= z < 16 -> escaped (hexdigit z) = true.
Proof.
  intros H. assert (E : exists n : nat, z = Z.of_nat n /\ (n < 16)%nat) by (exists (Z.to_nat z); lia).
  destruct E as (n & -> & E). clear H. do 16 (destruct n as [|n]; [reflexivity|]). lia.
Qed.

Lemma QueryEscape_escaped s : str_all escaped (QueryEscape s) = true.
Proof.
  induction s as [|c s IH]; [done|]. cbn [QueryEscape]. destruct (unreserved c) eqn:Hu.
  - cbn [str_all]. unfold escaped at 1. by rewrite Hu, IH.
  - pose proof (code_range c). destruct (code c =? 32); cbn [str_all]; rewrite ?IH; [done|].
    by rewrite !hexdigit_escaped by (Z.div_mod_to_equations; lia).
Qed.

Lemma unreserved_escaped s : str_all unreserved s = true -> str_all escaped s = true.
Proof. apply str_all_weaken. intros c Hc. unfold escaped. by rewrite Hc. Qed.

Lemma str_all_ne p s c : p c = false -> str_all p s = true -> str_all (fun d => negb (bool_decide (d = c))) s = true.
Proof.
  intros Hc. apply str_all_weaken. intros d Hd. rewrite bool_decide_eq_false_2; [done|]. by intros ->; congruence.
Qed.

Lemma query_pair_built k v x :
  str_all unreserved k = true -> k <> "" -> str_all escaped v = true -> QueryUnescape v = Some x ->
  query_pair (k ++ String "="%char v) = Some (k, x).
Proof.
  intros Hk Hne Hv Hx. unfold query_pair.
  rewrite (str_all_not_in (fun c => escaped c || bool_decide (c = "="%char)) _ ";"%char);
    [|by vm_compute|rewrite str_all_app; cbn [str_all]; apply andb_true_iff; split; [|apply andb_true_iff; split; [done|]];
      (eapply str_all_weaken; [|by first [exact Hv | apply unreserved_escaped, Hk]]; intros c Hc; by rewrite Hc)].
  destruct k as [|c k]; [done|]. cbn [orb]. destruct (eqb _ "") eqn:E; [by apply eqb_true in E|].
  rewrite Cut_app by (by apply (str_all_ne unreserved)). simpl default.
  pose proof (QueryUnescape_plain _ Hk) as Hp. cbn [fst snd] in *. rewrite Hp. by rewrite Hx.
Qed.

(** Letters of either base64 alphabet in URL form need no escaping. *)
Lemma sixth_unreserved z : 0 <= z < 64 -> unreserved (sixth URLAlphabet z) = true.
Proof.
  intros H. assert (E : exists n : nat, z = Z.of_nat n /\ (n < 64)%nat) by (exists (Z.to_nat z); lia).
  destruct E as (n & -> & E). clear H. do 64 (destruct n as [|n]; [reflexivity|]). lia.
Qed.

(** Letters, digits, minus and underscore: no dot, no slash. *)
Definition url64 (c : ascii) : bool := bool_decide (unsixth URLAlphabet c <> None).

Lemma RawURLEncode_letters s : str_all url64 (RawURLEncode s) = true.
Proof.
  assert (Hl : forall z, 0 <= z < 64 -> url64 (sixth URLAlphabet z) = true).
  { intros z Hz. unfold url64. rewrite sixth_range by done. done. }
  induction s as [|a|a b|a b c r IH] using triples_ind; [done|..]; cbn [b64_encode str_all padding];
    pose proof (code_range a); try pose proof (code_range b); try pose proof (code_range c);
    rewrite !Hl by (Z.div_mod_to_equations; lia); [done..|exact IH].
Qed.

Lemma url64_unreserved c : url64 c = true -> unreserved c = true.
Proof. destruct c as [[] [] [] [] [] [] [] []]; vm_compute; done. Qed.
End Encoding.
