(* ===== verification/KVStore.v ===== *)
(** * An ordered key-value store

    The embedded store the event, message and inbound stores are kept in
    (github.com/cockroachdb/pebble) is not part of the sources: it is an
    interface here -- what a read, a committed batch and a bounded iterator
    return -- with the laws its documentation states, and one instance, a finite
    map, that shows the laws can hold.  The file also holds the lemmas on
    bytewise string order that its keys rely on. *)
From S2P Require Import Prelude GoStrings.
From Stdlib Require Import Ascii.

Module KVStore.
Import GoStrings.
Local Open Scope string_scope.

(** ** Bytewise order *)

Definition slt (a b : string) : Prop := String.ltb a b = true.
#[export] Instance slt_dec : RelDecision slt.
Proof. intros a b. unfold slt. apply _. Defined.

Lemma compare_refl a : String.compare a a = Eq.
Proof. pose proof (String.compare_antisym a a) as H. by destruct (String.compare a a). Qed.

Lemma slt_le a b : slt a b <-> String.le a b /\ a <> b.
Proof.
  unfold slt, String.le, String.leb, String.ltb. pose proof (String.compare_eq_iff a b) as He.
  destruct (String.compare a b) eqn:E; split; try done.
  - by intros [_ Hn]; destruct Hn; apply He.
  - intros _. split; [done|]. intros <-. rewrite compare_refl in E. done.
  - by intros [? _].
Qed.

#[export] Instance slt_trans : Transitive slt.
Proof.
  intros a b c [Hab Hn]%slt_le [Hbc Hm]%slt_le. apply slt_le. split; [by transitivity b|].
  intros <-. apply Hn. by apply (anti_symm String.le).
Qed.

Lemma slt_irrefl a : ~ slt a a.
Proof. intros [_ ?]%slt_le. done. Qed.

Lemma le_slt a b : String.le a b <-> slt a b \/ a = b.
Proof.
  rewrite slt_le. split.
  - intros H. destruct (decide (a = b)); [by right|left; done].
  - intros [[? _]| ->]; done.
Qed.

Lemma le_not_slt a b : String.le a b <-> ~ slt b a.
Proof.
  split.
  - intros H [Hb Hn]%slt_le. apply Hn. by apply (anti_symm String.le).
  - intros H. destruct (total String.le a b) as [|Hb]; [done|]. destruct (decide (a = b)) as [->|]; [done|].
    destruct H. apply slt_le. done.
Qed.

Lemma compare_cons c d a b :
  String.compare (String c a) (String d b) = match Ascii.compare c d with Eq => String.compare a b | x => x end.
Proof. done. Qed.

Lemma ascii_compare_refl c : Ascii.compare c c = Eq.
Proof. pose proof (Ascii.compare_antisym c c) as H. by destruct (Ascii.compare c c). Qed.

Lemma compare_app p a b : String.compare (p ++ a) (p ++ b) = String.compare a b.
Proof. induction p as [|c p IH]; [done|]. cbn [String.append]. by rewrite compare_cons, ascii_compare_refl. Qed.

Lemma slt_app p a b : slt (p ++ a) (p ++ b) <-> slt a b.
Proof. unfold slt, String.ltb. by rewrite compare_app. Qed.

Lemma le_app p a b : String.le (p ++ a) (p ++ b) <-> String.le a b.
Proof. rewrite !le_not_slt. by rewrite slt_app. Qed.

Lemma le_nil a : String.le "" a.
Proof. by destruct a. Qed.

(** A key between two keys that share a prefix has it too. *)
Lemma between_prefix p : forall k a b, String.le (p ++ a) k -> slt k (p ++ b) -> exists r, k = p ++ r.
Proof.
  induction p as [|c p IH]; intros k a b Ha Hb; [by exists k|].
  destruct k as [|d k]; [done|]. cbn [String.append] in *. unfold String.le, String.leb in Ha. unfold slt, String.ltb in Hb.
  rewrite compare_cons in Ha, Hb. rewrite (Ascii.compare_antisym d c) in Hb.
  destruct (Ascii.compare c d) eqn:E; simpl in *; [|done|done].
  apply Ascii.compare_eq_iff in E as <-. destruct (IH k a b) as [r ->]; [done|done|]. by exists r.
Qed.

(** The byte 0xFF, after which nothing printable sorts. *)
Definition xFF : string := String (ascii_of_N 255) "".

(** [p ++ r] is below [p ++ "\xff"] as long as [r] does not start with that byte. *)
Lemma below_xFF p r : String.prefix xFF r = false -> slt (p ++ r) (p ++ xFF).
Proof.
  intros Hr. apply slt_app. destruct r as [|c r]; [done|]. unfold slt, String.ltb, xFF.
  rewrite compare_cons. destruct (decide (c = ascii_of_N 255)) as [->|Hc]; [by destruct r|].
  unfold Ascii.compare.
  assert (Hlt : (N_of_ascii c < 255)%N).
  { pose proof (N_ascii_bounded c) as Hb. destruct (decide (N_of_ascii c = 255%N)) as [E|]; [|lia].
    destruct Hc. by rewrite <- E, ascii_N_embedding. }
  change (N_of_ascii (ascii_of_N 255)) with 255%N. by apply N.compare_lt_iff in Hlt as ->.
Qed.

(** ** The interface *)

(** What a batch holds. *)
Inductive kvop :=
| KSet (k v : string)
| KDelete (k : string)
| KMerge (k v : string).

#[export] Instance kvop_eq_dec : EqDecision kvop.
Proof. solve_decision. Defined.

Definition op_key (o : kvop) : string := match o with KSet k _ | KDelete k | KMerge k _ => k end.

Class KV (DB : Type) := {
  kv_get : DB -> string -> option string;
  kv_commit : list kvop -> DB -> DB;
  kv_iter : DB -> string -> string -> list (string * string)   (* from the lower bound up to the upper *)
}.

(** What one operation does to the value of its key; [merge] is the merge
    operator the store was opened with. *)
Definition kv_effect (merge : option string -> string -> string) (k : string) (cur : option string) (o : kvop) : option string :=
  if bool_decide (op_key o = k) then
    match o with
    | KSet _ v => Some v
    | KDelete _ => None
    | KMerge _ v => Some (merge cur v)
    end
  else cur.

Definition effects (merge : option string -> string -> string) (k : string) (b : list kvop) (cur : option string) : option string :=
  foldl (kv_effect merge k) cur b.

(** The laws: a batch is applied whole and in order; an iterator holds the
    pairs within its bounds, in key order. *)
Class KVLaws (DB : Type) `{!KV DB} (merge : option string -> string -> string) := {
  kv_get_commit : forall b (d : DB) k, kv_get (kv_commit b d) k = effects merge k b (kv_get d k);
  kv_iter_spec : forall (d : DB) lo hi k v,
    (k, v) ∈ kv_iter d lo hi <-> kv_get d k = Some v /\ String.le lo k /\ slt k hi;
  kv_iter_sorted : forall (d : DB) lo hi, StronglySorted slt (kv_iter d lo hi).*1
}.

Section Laws.
Context {DB : Type} `{!KV DB} (merge : option string -> string -> string) `{!KVLaws DB merge}.

Lemma effects_app k b b' cur : effects merge k (b ++ b') cur = effects merge k b' (effects merge k b cur).
Proof. apply foldl_app. Qed.

Lemma effects_none k b cur : Forall (fun o => op_key o <> k) b -> effects merge k b cur = cur.
Proof.
  intros Hb. revert cur. induction Hb as [|o b Ho _ IH]; intros cur; [done|].
  unfold effects in *. cbn [foldl]. unfold kv_effect at 2. by rewrite bool_decide_eq_false_2.
Qed.

Lemma effects_cons k o b cur : effects merge k (o :: b) cur = effects merge k b (kv_effect merge k cur o).
Proof. done. Qed.

Lemma effect_ne k o cur : op_key o <> k -> kv_effect merge k cur o = cur.
Proof. intros H. unfold kv_effect. by rewrite bool_decide_eq_false_2. Qed.

Lemma effect_set k v cur : kv_effect merge k cur (KSet k v) = Some v.
Proof. unfold kv_effect. by rewrite bool_decide_eq_true_2. Qed.

Lemma effect_delete k cur : kv_effect merge k cur (KDelete k) = None.
Proof. unfold kv_effect. by rewrite bool_decide_eq_true_2. Qed.

(** An iterator visits a key once. *)
Lemma kv_iter_NoDup (d : DB) lo hi : NoDup (kv_iter d lo hi).*1.
Proof.
  pose proof (kv_iter_sorted d lo hi) as Hs. induction Hs as [|k ks Hs IH Hall]; [constructor|].
  apply NoDup_cons. split; [|done]. intros Hin. rewrite Forall_forall in Hall. by apply (slt_irrefl k), Hall.
Qed.

(** Two stores that hold the same look the same to an iterator. *)
Lemma sorted_unique (l l' : list (string * string)) :
  StronglySorted slt l.*1 -> StronglySorted slt l'.*1 -> (forall x, x ∈ l <-> x ∈ l') -> l = l'.
Proof.
  revert l'. induction l as [|[k v] l IH]; intros l' Hs Hs' Heq.
  { destruct l' as [|x l']; [done|]. assert (Hx : x ∈ []) by (apply Heq; by left). by apply elem_of_nil in Hx. }
  destruct l' as [|[k' v'] l'].
  { assert (Hx : (k, v) ∈ []) by (apply Heq; by left). by apply elem_of_nil in Hx. }
  cbn in Hs, Hs'. apply StronglySorted_inv in Hs as [Hs Hall]. apply StronglySorted_inv in Hs' as [Hs' Hall'].
  rewrite Forall_forall in Hall, Hall'.
  assert (Hin : forall (m : list (string * string)) x, x ∈ m -> x.1 ∈ m.*1) by (intros m x Hx; by apply list_elem_of_fmap_2).
  assert (Hkk : (k, v) = (k', v')).
  { assert (H1 : (k, v) ∈ (k', v') :: l') by (apply Heq; by left). apply elem_of_cons in H1 as [?|H1]; [done|].
    assert (H2 : (k', v') ∈ (k, v) :: l) by (apply Heq; by left). apply elem_of_cons in H2 as [?|H2]; [done|].
    apply Hin in H1, H2. simpl in *. destruct (slt_irrefl k). transitivity k'; [by apply Hall|by apply Hall']. }
  injection Hkk as <- <-. f_equal. apply IH; [done|done|]. intros x. specialize (Heq x). rewrite !elem_of_cons in Heq.
  split; intros Hx.
  - destruct (proj1 Heq) as [->|?]; [by right| |done]. destruct (slt_irrefl k). apply Hall. by apply Hin in Hx.
  - destruct (proj2 Heq) as [->|?]; [by right| |done]. destruct (slt_irrefl k). apply Hall'. by apply Hin in Hx.
Qed.
End Laws.

(** ** A finite map is one *)

Definition pair_le (a b : string * string) : Prop := String.le a.1 b.1.
#[export] Instance pair_le_dec : RelDecision pair_le.
Proof. intros a b. unfold pair_le. apply _. Defined.
#[local] Instance pair_le_total : Total pair_le.
Proof. intros a b. apply (total String.le). Qed.
#[local] Instance pair_le_trans : Transitive pair_le.
Proof. intros a b c H1 H2. unfold pair_le in *. by transitivity (b.1). Qed.

Section FiniteMap.
Context (merge : option string -> string -> string).

Definition map_effect (m : gmap string string) (o : kvop) : gmap string string :=
  partial_alter (fun cur => kv_effect merge (op_key o) cur o) (op_key o) m.

#[export] Instance map_kv : KV (gmap string string) := {
  kv_get m k := m !! k;
  kv_commit b m := foldl map_effect m b;
  kv_iter m lo hi :=
    merge_sort pair_le (filter (fun kv => String.leb lo kv.1 && String.ltb kv.1 hi = true) (map_to_list m))
}.

#[export] Instance map_kv_laws : KVLaws (gmap string string) merge.
Proof.
  split.
  - intros b m k. cbn [kv_get kv_commit map_kv]. revert m. induction b as [|o b IH]; intros m; [done|]. cbn [foldl].
    rewrite IH. unfold effects. cbn [foldl]. f_equal. unfold map_effect.
    destruct (decide (op_key o = k)) as [<-|Hne]; [by rewrite lookup_partial_alter_eq|].
    rewrite lookup_partial_alter_ne by done. by rewrite effect_ne.
  - intros m lo hi k v. cbn [kv_get kv_iter map_kv]. rewrite merge_sort_Permutation, list_elem_of_filter, elem_of_map_to_list.
    simpl. rewrite andb_true_iff. unfold slt, String.le. rewrite Is_true_true. tauto.
  - intros m lo hi. cbn [kv_iter map_kv].
    set (l := filter _ _). assert (Hnd : NoDup (merge_sort pair_le l).*1).
    { rewrite merge_sort_Permutation. apply (NoDup_fst_sub m); [apply NoDup_filter, NoDup_map_to_list|].
      intros k v Hx. apply list_elem_of_filter in Hx as [_ Hx]. by apply elem_of_map_to_list. }
    assert (Hs : StronglySorted pair_le (merge_sort pair_le l)) by apply (StronglySorted_merge_sort _).
    induction Hs as [|x xs Hs IH Hall]; [constructor|]. cbn in Hnd |- *. apply NoDup_cons in Hnd as [Hx Hnd].
    constructor; [by apply IH|]. apply Forall_fmap. rewrite Forall_forall in Hall |- *. intros y Hy. simpl.
    apply slt_le. split; [by apply Hall|]. intros E. apply Hx. rewrite E. by apply list_elem_of_fmap_2.
Qed.
End FiniteMap.

End KVStore.
