(* ===== verification/Calendar.v ===== *)
(** * Calendar dates

    What the sources use of Go's [time] package beyond arithmetic: the year,
    month, day, hour and minute of an instant in UTC, and [Format] with the
    layouts the counters are named by (2006-01-02, 2006-01-02 15,
    2006-01-02 15:04).  The point of the file is that such names sort as the
    days, hours and minutes they name ([formatDay_compare] and the like). *)
From S2P Require Import Prelude GoStrings Encoding KVStore.
From Stdlib Require Import Ascii.

Module Calendar.
Import GoStrings Encoding KVStore.
Local Open Scope string_scope.
Local Open Scope Z_scope.

(** ** Zero-padded numbers *)

Fixpoint zeros (n : nat) : string := match n with O => "" | S n => String "0"%char (zeros n) end.

Definition pad (w : nat) (z : Z) : string :=
  zeros (w - String.length (FormatUint z)) ++ FormatUint z.

(** ** Dates *)

(** Days before January 1st once [y] years have passed since year 1. *)
Definition daysBeforeYear (y : Z) : Z := 365 * y + y / 4 - y / 100 + y / 400.

(** The whole years in [d] days: a guess, off by one at most. *)
Definition yearsIn (d : Z) : Z :=
  let g := d * 400 / 146097 in
  if daysBeforeYear (g + 1) <=? d then g + 1 else if d <? daysBeforeYear g then g - 1 else g.

Definition isLeap (year : Z) : bool :=
  (year mod 4 =? 0) && (negb (year mod 100 =? 0) || (year mod 400 =? 0)).

Definition daysBefore : list Z := [0; 31; 59; 90; 120; 151; 181; 212; 243; 273; 304; 334].

(** Days before the month that follows [m] months of the year. *)
Definition daysBeforeMonth (leap : bool) (m : Z) : Z :=
  nth (Z.to_nat m) daysBefore 0 + (if leap && (2 <=? m) then 1 else 0).

(** The whole months in [yd] days of a year, the last that has begun. *)
Fixpoint monthsIn (leap : bool) (yd : Z) (n : nat) : Z :=
  match n with
  | O => 0
  | S n => if daysBeforeMonth leap (Z.of_nat (S n)) <=? yd then Z.of_nat (S n) else monthsIn leap yd n
  end.

Definition dayOf (t : Z) : Z := t / Day.
Definition Year (t : Z) : Z := yearsIn (dayOf t) + 1.
Definition YearDay (t : Z) : Z := dayOf t - daysBeforeYear (Year t - 1).
Definition Month (t : Z) : Z := monthsIn (isLeap (Year t)) (YearDay t) 11 + 1.
Definition MonthDay (t : Z) : Z := YearDay t - daysBeforeMonth (isLeap (Year t)) (Month t - 1) + 1.
Definition HourOf (t : Z) : Z := t / Hour mod 24.
Definition MinuteOf (t : Z) : Z := t / Minute mod 60.

(** ** Layouts *)

Definition formatDay (t : Z) : string := pad 4 (Year t) ++ "-" ++ pad 2 (Month t) ++ "-" ++ pad 2 (MonthDay t).
Definition formatHour (t : Z) : string := formatDay t ++ " " ++ pad 2 (HourOf t).
Definition formatMinute (t : Z) : string := formatHour t ++ ":" ++ pad 2 (MinuteOf t).

Example leap_day : formatMinute (unixEpoch + 1709210096 * Second) = "2024-02-29 12:34".
Proof. vm_compute. reflexivity. Qed.
Example new_year : formatMinute (unixEpoch + 1735689599 * Second) = "2024-12-31 23:59".
Proof. vm_compute. reflexivity. Qed.
Example epoch : formatDay unixEpoch = "1970-01-01" /\ formatDay 0 = "0001-01-01".
Proof. vm_compute. done. Qed.

(** ** Digits sort as numbers *)

Lemma is_digit_range c : is_digit c = true -> 48 <= code c <= 57.
Proof. unfold is_digit. lia. Qed.

Lemma scan_acc a : forall b x y, String.length a = String.length b -> str_all is_digit a = true -> str_all is_digit b = true ->
  x < y -> scan_digits x a < scan_digits y b.
Proof.
  induction a as [|c a IH]; intros [|d b] x y Hl Ha Hb Hxy; try done. cbn [str_all scan_digits] in *. injection Hl as Hl.
  apply andb_true_iff in Ha as [Hc Ha]. apply andb_true_iff in Hb as [Hd Hb]. rewrite Hc, Hd.
  apply is_digit_range in Hc, Hd. apply IH; [done..|lia].
Qed.

Lemma code_compare c d : Ascii.compare c d = Z.compare (code c) (code d).
Proof. unfold Ascii.compare, code, nat_of_ascii. by rewrite !N_nat_Z, N2Z.inj_compare. Qed.

Lemma digits_compare a : forall b x, String.length a = String.length b -> str_all is_digit a = true -> str_all is_digit b = true ->
  String.compare a b = Z.compare (scan_digits x a) (scan_digits x b).
Proof.
  induction a as [|c a IH]; intros [|d b] x Hl Ha Hb; try done; [simpl; by rewrite Z.compare_refl|].
  injection Hl as Hl. rewrite compare_cons, code_compare. cbn [str_all scan_digits] in *.
  apply andb_true_iff in Ha as [Hc Ha]. apply andb_true_iff in Hb as [Hd Hb]. rewrite Hc, Hd.
  destruct (Z.compare_spec (code c) (code d)) as [E|Hlt|Hlt]; symmetry.
  - rewrite E. symmetry. by apply IH.
  - apply Z.compare_lt_iff, scan_acc; [done..|lia].
  - apply Z.compare_gt_iff, scan_acc; [done..|lia].
Qed.

Lemma zeros_digits n : str_all is_digit (zeros n) = true.
Proof. induction n as [|n IH]; [done|]. cbn [zeros str_all]. by rewrite IH. Qed.

Lemma zeros_length n : String.length (zeros n) = n.
Proof. induction n as [|n IH]; [done|]. simpl. by rewrite IH. Qed.

Lemma scan_zeros n s : scan_digits 0 (zeros n ++ s) = scan_digits 0 s.
Proof. induction n as [|n IH]; [done|]. cbn [zeros]. simpl. exact IH. Qed.

Lemma dec_digits_length fuel : forall w z acc, 0 <= z < 10 ^ Z.of_nat w -> (0 < w)%nat ->
  (String.length (dec_digits fuel z acc) <= w + String.length acc)%nat.
Proof.
  induction fuel as [|fuel IH]; intros w z acc Hz Hw; [simpl; lia|]. cbn [dec_digits].
  destruct (Z.ltb_spec z 10) as [|Hge]; [simpl; lia|]. destruct w as [|[|w]]; [lia|simpl in Hz; lia|].
  etransitivity; [apply (IH (S w)); [|lia]|simpl; lia].
  replace (Z.of_nat (S (S w))) with (Z.of_nat (S w) + 1) in Hz by lia. rewrite Z.pow_add_r in Hz by lia.
  split; [apply Z.div_pos; lia|]. apply Z.div_lt_upper_bound; lia.
Qed.

Lemma pad_length w z : (0 < w)%nat -> 0 <= z < 10 ^ Z.of_nat w -> String.length (pad w z) = w.
Proof.
  intros Hw Hz. unfold pad. rewrite str_length_app, zeros_length.
  pose proof (dec_digits_length (S (Z.to_nat (Z.log2 z))) w z "" Hz Hw) as H.
  change (dec_digits _ z "") with (FormatUint z) in H. change (String.length "") with 0%nat in H. lia.
Qed.

Lemma pad_digits w z : 0 <= z -> str_all is_digit (pad w z) = true.
Proof. intros Hz. unfold pad. by rewrite str_all_app, zeros_digits, FormatUint_digits. Qed.

Lemma pad_scan w z : 0 <= z -> scan_digits 0 (pad w z) = z.
Proof. intros Hz. unfold pad. by rewrite scan_zeros, FormatUint_scan. Qed.

Lemma pad_compare w x y : (0 < w)%nat -> 0 <= x < 10 ^ Z.of_nat w -> 0 <= y < 10 ^ Z.of_nat w ->
  String.compare (pad w x) (pad w y) = Z.compare x y.
Proof.
  intros Hw Hx Hy. rewrite (digits_compare _ _ 0), !pad_scan by (rewrite ?pad_length, ?pad_digits; lia || done). done.
Qed.

Lemma pad_inj w x y : 0 <= x -> 0 <= y -> pad w x = pad w y -> x = y.
Proof. intros Hx Hy E. rewrite <- (pad_scan w x), <- (pad_scan w y) by done. by rewrite E. Qed.

(** Texts of equal length decide before what follows them does. *)
Lemma compare_app_len a : forall b r s, String.length a = String.length b ->
  String.compare (a ++ r) (b ++ s) = match String.compare a b with Eq => String.compare r s | c => c end.
Proof.
  induction a as [|c a IH]; intros [|d b] r s Hl; try done. injection Hl as Hl. cbn [String.append].
  rewrite !compare_cons. destruct (Ascii.compare c d); [by apply IH|done|done].
Qed.

(** ** Dates sort as days *)

Lemma daysBeforeYear_mono x y : x <= y -> daysBeforeYear x <= daysBeforeYear y.
Proof. intros H. unfold daysBeforeYear. Z.div_mod_to_equations. lia. Qed.

Lemma daysBeforeYear_near y :
  146097 * y - 800 <= 400 * daysBeforeYear y <= 146097 * y + 400.
Proof. unfold daysBeforeYear. Z.div_mod_to_equations. lia. Qed.

Lemma yearsIn_spec d : daysBeforeYear (yearsIn d) <= d < daysBeforeYear (yearsIn d + 1).
Proof.
  unfold yearsIn. set (g := d * 400 / 146097).
  assert (Hg : 146097 * g <= 400 * d < 146097 * g + 146097) by (unfold g; Z.div_mod_to_equations; lia).
  pose proof (daysBeforeYear_near (g - 1)). pose proof (daysBeforeYear_near (g + 1 + 1)).
  destruct (Z.leb_spec (daysBeforeYear (g + 1)) d); [lia|]. destruct (Z.ltb_spec d (daysBeforeYear g)); [|lia].
  replace (g - 1 + 1) with g by lia. lia.
Qed.

Lemma yearsIn_mono d e : d <= e -> yearsIn d <= yearsIn e.
Proof.
  intros H. pose proof (yearsIn_spec d). pose proof (yearsIn_spec e).
  destruct (Z_le_gt_dec (yearsIn d) (yearsIn e)) as [|Hgt]; [done|].
  pose proof (daysBeforeYear_mono (yearsIn e + 1) (yearsIn d)). lia.
Qed.

Lemma monthsIn_range leap yd n : 0 <= monthsIn leap yd n <= Z.of_nat n.
Proof. induction n as [|n IH]; cbn [monthsIn]; [lia|]. destruct (_ <=? _); lia. Qed.

Lemma monthsIn_spec leap yd n : 0 <= yd ->
  daysBeforeMonth leap (monthsIn leap yd n) <= yd /\
  forall m, monthsIn leap yd n < m <= Z.of_nat n -> yd < daysBeforeMonth leap m.
Proof.
  intros Hy. induction n as [|n [IH1 IH2]]; cbn [monthsIn].
  { split; [|lia]. change (daysBeforeMonth leap 0) with (0 + (if leap && false then 1 else 0)). by rewrite andb_false_r. }
  destruct (Z.leb_spec (daysBeforeMonth leap (Z.of_nat (S n))) yd) as [Hle|Hgt]; [split; [done|lia]|].
  split; [done|]. intros m Hm. destruct (decide (m = Z.of_nat (S n))) as [->|]; [done|]. apply IH2. lia.
Qed.

Lemma monthsIn_mono leap y z : 0 <= y <= z -> monthsIn leap y 11 <= monthsIn leap z 11.
Proof.
  intros H. destruct (monthsIn_spec leap y 11) as [H1 _]; [lia|]. destruct (monthsIn_spec leap z 11) as [_ H2]; [lia|].
  destruct (Z_le_gt_dec (monthsIn leap y 11) (monthsIn leap z 11)) as [|Hgt]; [done|].
  pose proof (monthsIn_range leap y 11). specialize (H2 (monthsIn leap y 11) ltac:(lia)). lia.
Qed.

(** The instants before the year 10000. *)
Definition datable (t : Z) : Prop := 0 <= t < daysBeforeYear 9999 * Day.

Lemma Year_range t : datable t -> 1 <= Year t <= 9999.
Proof.
  unfold datable, Year, dayOf. intros [H0 H1]. pose proof (yearsIn_spec (t / Day)) as Hs.
  assert (Hd : 0 <= t / Day < daysBeforeYear 9999).
  { split; [apply Z.div_pos; [lia|done]|apply Z.div_lt_upper_bound; [done|lia]]. }
  split.
  - destruct (Z_lt_le_dec (yearsIn (t / Day)) 0); [|lia]. pose proof (daysBeforeYear_mono (yearsIn (t / Day) + 1) 0 ltac:(lia)).
    change (daysBeforeYear 0) with 0 in *. lia.
  - destruct (Z_le_gt_dec 9999 (yearsIn (t / Day))); [|lia]. pose proof (daysBeforeYear_mono 9999 (yearsIn (t / Day)) ltac:(lia)). lia.
Qed.

Lemma YearDay_range t : 0 <= YearDay t <= 365.
Proof.
  unfold YearDay, Year. replace (yearsIn (dayOf t) + 1 - 1) with (yearsIn (dayOf t)) by lia.
  pose proof (yearsIn_spec (dayOf t)) as H. set (y := yearsIn (dayOf t)) in *.
  assert (daysBeforeYear (y + 1) <= daysBeforeYear y + 366) by (unfold daysBeforeYear; Z.div_mod_to_equations; lia). lia.
Qed.

Lemma Month_range t : 1 <= Month t <= 12.
Proof. unfold Month. pose proof (monthsIn_range (isLeap (Year t)) (YearDay t) 11). lia. Qed.

Lemma month_length leap m : 0 <= m <= 10 -> daysBeforeMonth leap (m + 1) <= daysBeforeMonth leap m + 31.
Proof.
  intros Hm. assert (Hf : forallb (fun m => daysBeforeMonth leap (Z.of_nat m + 1) <=? daysBeforeMonth leap (Z.of_nat m) + 31) (seq 0 11) = true)
    by (by destruct leap; vm_compute).
  rewrite forallb_forall in Hf. specialize (Hf (Z.to_nat m)). rewrite Z2Nat.id in Hf by lia. apply Z.leb_le, Hf, in_seq. lia.
Qed.

Lemma MonthDay_range t : 1 <= MonthDay t < 100.
Proof.
  unfold MonthDay. pose proof (YearDay_range t) as Hy. set (leap := isLeap (Year t)) in *. unfold Month. fold leap.
  replace (monthsIn leap (YearDay t) 11 + 1 - 1) with (monthsIn leap (YearDay t) 11) by lia.
  destruct (monthsIn_spec leap (YearDay t) 11) as [H1 H2]; [lia|]. pose proof (monthsIn_range leap (YearDay t) 11) as Hr.
  set (m := monthsIn leap (YearDay t) 11) in *. split; [lia|].
  destruct (decide (m = 11)) as [E|Hne].
  - rewrite E in *. assert (334 <= daysBeforeMonth leap 11) by (by destruct leap; vm_compute). lia.
  - specialize (H2 (m + 1) ltac:(lia)). pose proof (month_length leap m ltac:(lia)). lia.
Qed.

Lemma pad2_compare x y : 0 <= x < 100 -> 0 <= y < 100 -> String.compare (pad 2 x) (pad 2 y) = Z.compare x y.
Proof. intros. by apply pad_compare; [lia|..]. Qed.

Lemma pad2_length x : 0 <= x < 100 -> String.length (pad 2 x) = 2%nat.
Proof. intros. apply pad_length; [lia|done]. Qed.

(** One field decides, or else what follows. *)
Definition lex (c d : comparison) : comparison := match c with Eq => d | x => x end.

Lemma day_lex t u : Z.compare (dayOf t) (dayOf u) =
  lex (Z.compare (Year t) (Year u)) (lex (Z.compare (Month t) (Month u)) (Z.compare (MonthDay t) (MonthDay u))).
Proof.
  assert (Hlt : forall t u, dayOf t < dayOf u ->
    Year t < Year u \/ Year t = Year u /\ (Month t < Month u \/ Month t = Month u /\ MonthDay t < MonthDay u)).
  { clear. intros t u H. pose proof (yearsIn_mono (dayOf t) (dayOf u)) as Hy.
    assert (Hyear : Year t < Year u \/ Year t = Year u) by (unfold Year; lia). destruct Hyear as [|Hyear]; [by left|right].
    split; [done|]. assert (Hyd : YearDay t < YearDay u) by (unfold YearDay; rewrite Hyear; lia).
    pose proof (YearDay_range t). pose proof (monthsIn_mono (isLeap (Year u)) (YearDay t) (YearDay u)) as Hm.
    assert (Hmonth : Month t < Month u \/ Month t = Month u) by (unfold Month; rewrite Hyear; lia).
    destruct Hmonth as [|Hmonth]; [by left|right]. split; [done|]. unfold MonthDay. rewrite Hyear, Hmonth. lia. }
  destruct (Z.compare_spec (dayOf t) (dayOf u)) as [E|H|H].
  - assert (Ey : Year t = Year u) by (unfold Year; by rewrite E).
    assert (Ed : YearDay t = YearDay u) by (unfold YearDay; by rewrite E, Ey).
    assert (Em : Month t = Month u) by (unfold Month; by rewrite Ey, Ed).
    assert (EM : MonthDay t = MonthDay u) by (unfold MonthDay; by rewrite Ey, Ed, Em).
    by rewrite Ey, Em, EM, !Z.compare_refl.
  - destruct (Hlt t u H) as [Hc|[-> [Hc|[-> Hc]]]]; apply Z.compare_lt_iff in Hc; rewrite ?Z.compare_refl, Hc; done.
  - destruct (Hlt u t H) as [Hc|[-> [Hc|[-> Hc]]]]; apply Z.compare_gt_iff in Hc; rewrite ?Z.compare_refl, Hc; done.
Qed.

Lemma formatDay_compare t u : datable t -> datable u ->
  String.compare (formatDay t) (formatDay u) = Z.compare (dayOf t) (dayOf u).
Proof.
  intros Ht Hu. pose proof (Year_range t Ht). pose proof (Year_range u Hu).
  pose proof (Month_range t). pose proof (Month_range u). pose proof (MonthDay_range t). pose proof (MonthDay_range u).
  unfold formatDay. rewrite day_lex.
  rewrite compare_app_len by (rewrite !pad_length; [done|lia..]). rewrite pad_compare by lia. unfold lex.
  destruct (Z.compare (Year t) (Year u)); [|done|done]. rewrite compare_app.
  rewrite compare_app_len by (rewrite !pad2_length; [done|lia..]). rewrite pad2_compare by lia.
  destruct (Z.compare (Month t) (Month u)); [|done|done]. rewrite compare_app. by apply pad2_compare; lia.
Qed.

Lemma formatDay_length t : datable t -> String.length (formatDay t) = 10%nat.
Proof.
  intros Ht. pose proof (Year_range t Ht). pose proof (Month_range t). pose proof (MonthDay_range t).
  unfold formatDay. rewrite !str_length_app, (pad_length 4) by lia. by rewrite !pad2_length by lia.
Qed.

Lemma nested_lex t u (n : Z) (unit : Z) : 0 < n -> 0 < unit ->
  Z.compare (t / unit) (u / unit) = lex (Z.compare (t / (n * unit)) (u / (n * unit))) (Z.compare (t / unit mod n) (u / unit mod n)).
Proof.
  intros Hn Hu. rewrite (Z.mul_comm n). rewrite <- !Z.div_div by lia. set (x := t / unit). set (y := u / unit).
  pose proof (Z.div_mod x n). pose proof (Z.div_mod y n). pose proof (Z.mod_pos_bound x n Hn). pose proof (Z.mod_pos_bound y n Hn).
  unfold lex. destruct (Z.compare_spec (x / n) (y / n)) as [E|H'|H'].
  - destruct (Z.compare_spec (x mod n) (y mod n)); [apply Z.compare_eq_iff; nia|apply Z.compare_lt_iff; nia|apply Z.compare_gt_iff; nia].
  - apply Z.compare_lt_iff. nia.
  - apply Z.compare_gt_iff. nia.
Qed.

Lemma formatHour_compare t u : datable t -> datable u ->
  String.compare (formatHour t) (formatHour u) = Z.compare (t / Hour) (u / Hour).
Proof.
  intros Ht Hu. unfold formatHour. rewrite compare_app_len by (by rewrite !formatDay_length). rewrite formatDay_compare by done.
  rewrite (nested_lex t u 24 Hour) by done. unfold dayOf, Day, lex. destruct (Z.compare (t / _) _); [|done|done].
  rewrite compare_app. unfold HourOf. apply pad2_compare; pose proof (Z.mod_pos_bound (t / Hour) 24); pose proof (Z.mod_pos_bound (u / Hour) 24); lia.
Qed.

Lemma HourOf_range t : 0 <= HourOf t < 100.
Proof. unfold HourOf. pose proof (Z.mod_pos_bound (t / Hour) 24). lia. Qed.
Lemma MinuteOf_range t : 0 <= MinuteOf t < 100.
Proof. unfold MinuteOf. pose proof (Z.mod_pos_bound (t / Minute) 60). lia. Qed.

Lemma formatHour_length t : datable t -> String.length (formatHour t) = 13%nat.
Proof. intros Ht. unfold formatHour. by rewrite !str_length_app, formatDay_length, pad2_length by (done || apply HourOf_range). Qed.

Lemma formatMinute_compare t u : datable t -> datable u ->
  String.compare (formatMinute t) (formatMinute u) = Z.compare (t / Minute) (u / Minute).
Proof.
  intros Ht Hu. unfold formatMinute. rewrite compare_app_len by (by rewrite !formatHour_length). rewrite formatHour_compare by done.
  rewrite (nested_lex t u 60 Minute) by done. unfold Hour, lex. destruct (Z.compare (t / _) _); [|done|done].
  rewrite compare_app. apply pad2_compare; apply MinuteOf_range.
Qed.

Lemma formatMinute_length t : datable t -> String.length (formatMinute t) = 16%nat.
Proof. intros Ht. unfold formatMinute. by rewrite !str_length_app, formatHour_length, pad2_length by (done || apply MinuteOf_range). Qed.

End Calendar.
