(* ===== verification/Timestamps.v ===== *)
(** * Instants as text

    What the shared event store's page tokens use of Go's [time] package: the
    RFC 3339 layout with nanoseconds, in UTC, and [time.Parse] with it.  An
    instant is read back as it was written ([parse_format]), and its text has no
    separator of the tokens in it. *)
From S2P Require Import Prelude GoStrings Encoding KVStore Calendar.
From Stdlib Require Import Ascii.

Module Timestamps.
Import GoStrings Encoding KVStore Calendar.
Local Open Scope string_scope.
Local Open Scope Z_scope.

(** ** Writing *)

Definition SecondOf (t : Z) : Z := t / Second mod 60.
Definition Nanosecond (t : Z) : Z := t mod Second.

Definition is_zero (c : ascii) : bool := bool_decide (c = "0"%char).

(** [.999999999]: no trailing zero, and no point when nothing follows it. *)
Definition fraction (n : Z) : string := if n =? 0 then "" else "." ++ TrimRightFunc is_zero (pad 9 n).

Definition formatRFC3339Nano (t : Z) : string :=
  formatDay t ++ "T" ++ pad 2 (HourOf t) ++ ":" ++ pad 2 (MinuteOf t) ++ ":" ++ pad 2 (SecondOf t) ++ fraction (Nanosecond t) ++ "Z".

(** ** Reading *)

(** [w] digits, and what follows them. *)
Definition digits (w : nat) (lo hi : Z) (s : string) : option (Z * string) :=
  let d := take_str w s in
  if (String.length d =? w)%nat && str_all is_digit d then
    let x := scan_digits 0 d in
    if (lo <=? x) && (x <=? hi) then Some (x, drop_str w s) else None
  else None.

Definition lit (c : ascii) (s : string) : option string :=
  match s with String d r => if bool_decide (c = d) then Some r else None | "" => None end.

(** The digits a text starts with, and the rest. *)
Fixpoint span_digits (s : string) : string * string :=
  match s with
  | String c r => if is_digit c then let '(d, r') := span_digits r in (String c d, r') else ("", s)
  | "" => ("", "")
  end.

Definition daysIn (month year : Z) : Z :=
  if month =? 12 then 31 else daysBeforeMonth (isLeap year) month - daysBeforeMonth (isLeap year) (month - 1).

(** [time.Date] in UTC. *)
Definition Date (year month day hour min sec nsec : Z) : Z :=
  (daysBeforeYear (year - 1) + daysBeforeMonth (isLeap year) (month - 1) + (day - 1)) * Day
    + hour * Hour + min * Minute + sec * Second + nsec.

(** The first nine digits of a fraction count. *)
Definition readFraction (s : string) : Z * string :=
  match s with
  | String c r =>
      if bool_decide (c = "."%char) && starts_digit r then
        let '(d, rest) := span_digits r in
        let d9 := take_str 9 d in
        (scan_digits 0 d9 * 10 ^ Z.of_nat (9 - String.length d9), rest)
      else (0, s)
  | "" => (0, s)
  end.

(** [Z], or a distance from UTC, and nothing after it. *)
Definition readZone (s : string) : option Z :=
  if eqb s "Z" then Some 0
  else
    match s with
    | String c r =>
        let sign := if bool_decide (c = "+"%char) then Some 1 else if bool_decide (c = "-"%char) then Some (-1) else None in
        sign ≫= fun sg => digits 2 0 23 r ≫= fun '(hr, r) => lit ":" r ≫= fun r => digits 2 0 59 r ≫= fun '(mm, r) =>
        if eqb r "" then Some (sg * ((hr * 60 + mm) * 60 * Second)) else None
    | "" => None
    end.

(** [parseRFC3339], the strict reading [time.Parse] tries first. *)
Definition parseRFC3339 (s : string) : option Z :=
  digits 4 0 9999 s ≫= fun '(year, s) => lit "-" s ≫= fun s =>
  digits 2 1 12 s ≫= fun '(month, s) => lit "-" s ≫= fun s =>
  digits 2 1 (daysIn month year) s ≫= fun '(day, s) => lit "T" s ≫= fun s =>
  digits 2 0 23 s ≫= fun '(hour, s) => lit ":" s ≫= fun s =>
  digits 2 0 59 s ≫= fun '(min, s) => lit ":" s ≫= fun s =>
  digits 2 0 59 s ≫= fun '(sec, s) =>
  let '(nsec, s) := readFraction s in
  readZone s ≫= fun off => Some (Date year month day hour min sec nsec - off).

(** [time.Parse(time.RFC3339Nano, s)]; [lenient] is the general parser it falls
    back on, which also reads a few texts the layout does not write. *)
Definition ParseRFC3339Nano (lenient : string -> option Z) (s : string) : option Z :=
  match parseRFC3339 s with Some t => Some t | None => lenient s end.

Example written_instant : formatRFC3339Nano (unixEpoch + 1709210096 * Second + 250000000) = "2024-02-29T12:34:56.25Z".
Proof. vm_compute. reflexivity. Qed.
Example read_instant : parseRFC3339 "2024-02-29T14:04:56.25+01:30" = Some (unixEpoch + 1709210096 * Second + 250000000).
Proof. vm_compute. reflexivity. Qed.
Example no_such_day : parseRFC3339 "2023-02-29T12:34:56Z" = None.
Proof. vm_compute. reflexivity. Qed.

(** ** What is written is read *)

Lemma digits_pad w lo hi z r : (0 < w)%nat -> 0 <= z < 10 ^ Z.of_nat w -> lo <= z <= hi -> digits w lo hi (pad w z ++ r) = Some (z, r).
Proof.
  intros Hw Hz Hb. unfold digits. pose proof (pad_length w z Hw Hz) as Hl.
  replace (take_str w (pad w z ++ r)) with (pad w z) by (rewrite <- Hl at 2; by rewrite take_str_len).
  replace (drop_str w (pad w z ++ r)) with r by (rewrite <- Hl at 1; by rewrite drop_str_app).
  rewrite Hl, Nat.eqb_refl, pad_digits, pad_scan by lia. cbn [andb].
  rewrite (proj2 (Z.leb_le lo z)), (proj2 (Z.leb_le z hi)) by lia. done.
Qed.

Lemma digits_2 lo hi z r : 0 <= z < 100 -> lo <= z <= hi -> digits 2 lo hi (pad 2 z ++ r) = Some (z, r).
Proof. intros. by apply digits_pad; [lia|..]. Qed.

Lemma lit_cons c r : lit c (String c r) = Some r.
Proof. unfold lit. by rewrite bool_decide_eq_true_2. Qed.

Lemma trimmed_zeros s : exists k, s = TrimRightFunc is_zero s ++ zeros k.
Proof.
  induction s as [|c s [k IH]]; [by exists 0%nat|]. cbn [TrimRightFunc]. destruct (TrimRightFunc is_zero s) as [|d r].
  - destruct (is_zero c) eqn:Ec; [|exists k; by rewrite IH]. apply bool_decide_eq_true in Ec as ->. exists (S k). by rewrite IH.
  - exists k. rewrite IH. done.
Qed.

Lemma scan_app_zeros d : forall x k, str_all is_digit d = true -> scan_digits x (d ++ zeros k) = scan_digits x d * 10 ^ Z.of_nat k.
Proof.
  induction d as [|c d IH]; intros x k Hd; cbn [String.append scan_digits str_all] in *.
  - revert x. induction k as [|k IH]; intros x; cbn [zeros scan_digits]; [lia|]. change (is_digit "0") with true. cbn iota.
    rewrite IH. change (code "0" - 48) with 0. rewrite Nat2Z.inj_succ, Z.pow_succ_r by lia. lia.
  - apply andb_true_iff in Hd as [Hc Hd]. rewrite Hc. by apply IH.
Qed.

Lemma span_digits_app d c r : str_all is_digit d = true -> is_digit c = false -> span_digits (d ++ String c r) = (d, String c r).
Proof.
  induction d as [|e d IH]; intros Hd Hc; cbn [String.append span_digits str_all] in *; [by rewrite Hc|].
  apply andb_true_iff in Hd as [He Hd]. by rewrite He, IH.
Qed.

Lemma take_str_short m : forall s, (String.length s <= m)%nat -> take_str m s = s.
Proof. induction m as [|m IH]; intros [|c s] H; cbn [take_str String.length] in *; [done|lia|done|]. f_equal. apply IH. lia. Qed.

Lemma readFraction_fraction n : 0 <= n < Second -> readFraction (fraction n ++ "Z") = (n, "Z").
Proof.
  intros Hn. unfold fraction. destruct (Z.eqb_spec n 0) as [->|Hz]; [done|].
  destruct (trimmed_zeros (pad 9 n)) as [k Hk]. set (d := TrimRightFunc is_zero (pad 9 n)) in *.
  pose proof (pad_length 9 n ltac:(lia) ltac:(unfold Second in Hn; lia)) as Hl. pose proof (pad_digits 9 n ltac:(lia)) as Hd.
  pose proof (pad_scan 9 n ltac:(lia)) as Hs. rewrite Hk in Hl, Hd, Hs. rewrite str_all_app in Hd. apply andb_true_iff in Hd as [Hd _].
  rewrite str_length_app, zeros_length in Hl. rewrite scan_app_zeros in Hs by done.
  destruct d as [|c d']; [cbn [scan_digits] in Hs; lia|]. set (d := String c d') in *. rewrite string_app_assoc. cbn [String.append readFraction].
  change (bool_decide ("."%char = "."%char)) with true. assert (Hst : starts_digit (d ++ "Z") = true).
  { cbn [d String.append starts_digit]. cbn [d str_all] in Hd. by apply andb_true_iff in Hd as [? _]. }
  cbn [andb]. change ((d ++ "Z")) with (d ++ String "Z" "") in *. rewrite Hst, span_digits_app by done. cbn iota.
  rewrite (take_str_short 9 d) by lia. replace (9 - String.length d)%nat with k by lia. by rewrite Hs.
Qed.

Lemma MonthDay_daysIn t : MonthDay t <= daysIn (Month t) (Year t).
Proof.
  unfold MonthDay, daysIn, Month. pose proof (YearDay_range t) as Hy. set (leap := isLeap (Year t)) in *.
  destruct (monthsIn_spec leap (YearDay t) 11) as [H1 H2]; [lia|]. pose proof (monthsIn_range leap (YearDay t) 11) as Hr.
  set (m := monthsIn leap (YearDay t) 11) in *. replace (m + 1 - 1) with m by lia. destruct (Z.eqb_spec (m + 1) 12) as [E|Hne].
  - replace m with 11 in * by lia. unfold YearDay, Year in *. replace (yearsIn (dayOf t) + 1 - 1) with (yearsIn (dayOf t)) in * by lia.
    pose proof (yearsIn_spec (dayOf t)) as Hs. set (y := yearsIn (dayOf t)) in *.
    assert (daysBeforeYear (y + 1) = daysBeforeYear y + 365 + (if leap then 1 else 0)).
    { unfold leap, isLeap, daysBeforeYear. destruct (Z.eqb_spec ((y + 1) mod 4) 0), (Z.eqb_spec ((y + 1) mod 100) 0), (Z.eqb_spec ((y + 1) mod 400) 0);
        cbn [andb orb negb]; Z.div_mod_to_equations; lia. }
    assert (daysBeforeMonth leap 11 = 334 + (if leap then 1 else 0)) by (by destruct leap). lia.
  - specialize (H2 (m + 1) ltac:(lia)). lia.
Qed.

Lemma clock_parts t : t = dayOf t * Day + HourOf t * Hour + MinuteOf t * Minute + SecondOf t * Second + Nanosecond t.
Proof.
  unfold dayOf, HourOf, MinuteOf, SecondOf, Nanosecond. change Day with 86400000000000. change Hour with 3600000000000.
  change Minute with 60000000000. change Second with 1000000000. Z.div_mod_to_equations. lia.
Qed.

(** An instant is read back as it was written. *)
Lemma parse_format lenient t : datable t -> ParseRFC3339Nano lenient (formatRFC3339Nano t) = Some t.
Proof.
  intros Ht. unfold ParseRFC3339Nano, parseRFC3339, formatRFC3339Nano, formatDay.
  pose proof (Year_range t Ht). pose proof (Month_range t). pose proof (MonthDay_range t). pose proof (MonthDay_daysIn t).
  assert (0 <= HourOf t <= 23) by (unfold HourOf; pose proof (Z.mod_pos_bound (t / Hour) 24); lia).
  assert (0 <= MinuteOf t <= 59) by (unfold MinuteOf; pose proof (Z.mod_pos_bound (t / Minute) 60); lia).
  assert (0 <= SecondOf t <= 59) by (unfold SecondOf; pose proof (Z.mod_pos_bound (t / Second) 60); lia).
  assert (0 <= Nanosecond t < Second) by (apply Z.mod_pos_bound; done).
  rewrite !string_app_assoc, digits_pad by (try done; cbn; lia). cbn [mbind option_bind String.append].
  rewrite lit_cons. cbn [mbind option_bind]. rewrite digits_2 by lia. cbn [mbind option_bind].
  rewrite lit_cons. cbn [mbind option_bind]. rewrite digits_2 by lia. cbn [mbind option_bind].
  rewrite lit_cons. cbn [mbind option_bind]. rewrite digits_2 by lia. cbn [mbind option_bind].
  rewrite lit_cons. cbn [mbind option_bind]. rewrite digits_2 by lia. cbn [mbind option_bind].
  rewrite lit_cons. cbn [mbind option_bind]. rewrite digits_2 by lia. cbn [mbind option_bind].
  rewrite readFraction_fraction by done. change (readZone "Z") with (Some 0). cbn [mbind option_bind]. f_equal.
  pose proof (clock_parts t). unfold Date, MonthDay, YearDay. lia.
Qed.

Definition not_bar (c : ascii) : bool := negb (bool_decide (c = "|"%char)).

Lemma digit_not_bar c : is_digit c = true -> not_bar c = true.
Proof. intros H. unfold not_bar. apply negb_true_iff, bool_decide_eq_false. by intros ->. Qed.

Lemma pad_no_bar w z : 0 <= z -> str_all not_bar (pad w z) = true.
Proof. intros H. eapply str_all_weaken; [|by apply (pad_digits w)]. apply digit_not_bar. Qed.

Lemma format_no_bar t : datable t -> str_all not_bar (formatRFC3339Nano t) = true.
Proof.
  intros Ht. pose proof (Year_range t Ht). pose proof (Month_range t). pose proof (MonthDay_range t).
  pose proof (HourOf_range t). pose proof (MinuteOf_range t).
  assert (0 <= SecondOf t) by (apply Z.mod_pos_bound; done). assert (0 <= Nanosecond t) by (apply Z.mod_pos_bound; done).
  unfold formatRFC3339Nano, formatDay. rewrite !str_all_app, !pad_no_bar by lia.
  assert (Hf : str_all not_bar (fraction (Nanosecond t)) = true).
  { unfold fraction. destruct (_ =? 0); [done|]. rewrite str_all_app. cbn [str_all andb]. destruct (trimmed_zeros (pad 9 (Nanosecond t))) as [k Hk].
    pose proof (pad_no_bar 9 (Nanosecond t) ltac:(lia)) as Hp. rewrite Hk, str_all_app in Hp. by apply andb_true_iff in Hp as [? _]. }
  by rewrite Hf.
Qed.

End Timestamps.
