(* ===== verification/NetAddr.v ===== *)
(** * Network addresses

    What the sources use of Go's [net] and [net/netip]: whether [net.ParseIP]
    reads a text as an address, and [net.JoinHostPort]. *)
From S2P Require Import Prelude GoStrings Encoding.
From Stdlib Require Import Ascii.

Module NetAddr.
Import GoStrings Encoding.
Local Open Scope string_scope.
Local Open Scope Z_scope.

(** One field of a dotted address: digits, no leading zero, at most 255. *)
Definition isOctet (s : string) : bool :=
  negb (eqb s "") && str_all is_digit s && (eqb s "0" || negb (HasPrefix s "0")) && (scan_digits 0 s <=? 255).

(** [parseIPv4Fields]. *)
Definition isIPv4 (s : string) : bool :=
  let fields := Split s "."%char in (length fields =? 4)%nat && forallb isOctet fields.

Definition is_hexit (c : ascii) : bool := bool_decide (is_Some (unnibble (lower c))).

(** The hexadecimal digits a group starts with, and what follows. *)
Fixpoint hexits (s : string) : nat * string :=
  match s with
  | "" => (O, "")
  | String c r => if is_hexit c then let '(n, rest) := hexits r in (S n, rest) else (O, s)
  end.

(** The loop of [parseIPv6]: [i] groups are read so far, [ellipsis] says whether
    "::" was met; the groups in the end, whether it was, and the text left. *)
Fixpoint groups (fuel : nat) (i : nat) (ellipsis : bool) (s : string) : option (nat * bool * string) :=
  match fuel with
  | O => Some (i, ellipsis, s)
  | S fuel =>
      let '(n, rest) := hexits s in
      if (n =? 0)%nat || (4 <? n)%nat then None
      else
        match rest with
        | "" => Some (S i, ellipsis, "")
        | String c more =>
            if bool_decide (c = "."%char) then
              if (negb ellipsis && negb (i =? 6)%nat) || (6 <? i)%nat || negb (isIPv4 s) then None
              else Some (S (S i), ellipsis, "")
            else if negb (bool_decide (c = ":"%char)) then None
            else
              match more with
              | "" => None
              | String d after =>
                  if bool_decide (d = ":"%char) then
                    if ellipsis then None
                    else match after with "" => Some (S i, true, "") | _ => groups fuel (S i) true after end
                  else groups fuel (S i) ellipsis more
              end
        end
  end.

Definition isIPv6 (s : string) : bool :=
  match (if HasPrefix s "::" then
           match TrimPrefix s "::" with "" => Some (O, true, "") | rest => groups 8 O true rest end
         else groups 8 O false s) with
  | Some (i, ellipsis, rest) => eqb rest "" && (if (i <? 8)%nat then ellipsis else negb ellipsis)
  | None => false
  end.

(** [net.ParseIP(s) != nil]: the first of '.', ':' and '%' decides, and an address
    with a zone is refused. *)
Fixpoint firstMark (s : string) : option ascii :=
  match s with
  | "" => None
  | String c r => if in_cutset ".:%" c then Some c else firstMark r
  end.

Definition ParseIP (s : string) : bool :=
  match firstMark s with
  | Some c => if bool_decide (c = "."%char) then isIPv4 s else if bool_decide (c = ":"%char) then negb (Contains s "%") && isIPv6 s else false
  | None => false
  end.

Definition JoinHostPort (host port : string) : string :=
  if Contains host ":" || Contains host "%" then "[" ++ host ++ "]:" ++ port else host ++ ":" ++ port.

Example addresses : ParseIP <$> ["192.0.2.1"; "2001:db8::1"; "::"; "::ffff:192.0.2.1"; "1:2:3:4:5:6:7:8"; "fe80::"] = replicate 6 true.
Proof. vm_compute. reflexivity. Qed.

Example not_addresses :
  ParseIP <$> ["192.0.2"; "192.0.02.1"; "192.0.2.256"; "1::2::3"; "1:2:3:4:5:6:7"; "1:2:3:4:5:6:7::8"; "fe80::1%eth0"; "12345::"; ":1"; "mail:993"; "mail.example.com"] =
  replicate 11 false.
Proof. vm_compute. reflexivity. Qed.

End NetAddr.
