(* ===== verification/Duration.v ===== *)
(** * Go's [time.ParseDuration]

    An optional sign and a sequence of numbers with units, with the overflow
    checks of the standard library.  A fraction is scaled exactly and rounded down; Go
    scales it in floating point, which can differ in the last nanosecond. *)
From S2P Require Import Prelude GoStrings.
From Stdlib Require Import Ascii.

Module Duration.
Import GoStrings.
Local Open Scope Z_scope.

Definition Nanosecond : Z := 1.
Definition Microsecond : Z := 1000.
Definition Millisecond : Z := 1000000.

Definition unit_of (u : string) : option Z :=
  if eqb u "ns" then Some Nanosecond
  else if eqb u "us" || eqb u "µs" || eqb u "μs" then Some Microsecond
  else if eqb u "ms" then Some Millisecond
  else if eqb u "s" then Some Second
  else if eqb u "m" then Some Minute
  else if eqb u "h" then Some Hour
  else None.

Definition digit (c : ascii) : Z := code c - 48.

(** [leadingInt]: the number a text starts with and the rest, [None] on
    overflow of 2^63. *)
Fixpoint leadingInt (x : Z) (s : string) : option (Z * string) :=
  match s with
  | String c r =>
      if is_digit c then
        if 2 ^ 63 / 10 <? x then None
        else let x' := x * 10 + digit c in
             if 2 ^ 63 <? x' then None else leadingInt x' r
      else Some (x, s)
  | EmptyString => Some (x, s)
  end.

(** [leadingFraction]: digits past what fits are read and ignored. *)
Fixpoint leadingFraction (x scale : Z) (overflow : bool) (s : string) : Z * Z * string :=
  match s with
  | String c r =>
      if is_digit c then
        if overflow || ((2 ^ 63 - 1) / 10 <? x) then leadingFraction x scale true r
        else let y := x * 10 + digit c in
             if 2 ^ 63 <? y then leadingFraction x scale true r
             else leadingFraction y (scale * 10) false r
      else (x, scale, s)
  | EmptyString => (x, scale, s)
  end.

(** The unit: bytes up to the next digit or dot. *)
Fixpoint spanUnit (s : string) : string * string :=
  match s with
  | String c r =>
      if is_digit c || bool_decide (c = "."%char) then (EmptyString, s)
      else let '(u, t) := spanUnit r in (String c u, t)
  | EmptyString => (EmptyString, EmptyString)
  end.

(** One [number unit] item: its nanoseconds and the rest. *)
Definition item (s : string) : option (Z * string) :=
  match leadingInt 0 s with
  | None => None
  | Some (v, s1) =>
      let pre := negb (Nat.eqb (String.length s) (String.length s1)) in
      let '(f, scale, post, s2) :=
        match s1 with
        | String "." r =>
            let '(f, scale, r') := leadingFraction 0 1 false r in
            (f, scale, negb (Nat.eqb (String.length r) (String.length r')), r')
        | _ => (0, 1, false, s1)
        end in
      if negb pre && negb post then None
      else
        let '(u, s3) := spanUnit s2 in
        match unit_of u with
        | None => None
        | Some unit =>
            if 2 ^ 63 / unit <? v then None
            else
              let v' := v * unit + f * unit / scale in
              if 2 ^ 63 <? v' then None else Some (v', s3)
        end
  end.

(** The loop; every item consumes at least one byte, so the length of the text
    is enough fuel. *)
Fixpoint items (fuel : nat) (d : Z) (s : string) : option Z :=
  match s, fuel with
  | EmptyString, _ => Some d
  | _, O => None
  | _, S n =>
      match item s with
      | None => None
      | Some (v, r) => if 2 ^ 63 <? d + v then None else items n (d + v) r
      end
  end.

Definition ParseDuration (s : string) : option Z :=
  let '(neg, s1) :=
    match s with
    | String "-" r => (true, r)
    | String "+" r => (false, r)
    | _ => (false, s)
    end in
  if eqb s1 "0" then Some 0
  else if eqb s1 "" then None
  else
    match items (String.length s1) 0 s1 with
    | None => None
    | Some d => if neg then Some (- d) else if 2 ^ 63 - 1 <? d then None else Some d
    end.

Example parse_durations :
  map ParseDuration ["5m"; "1h30m"; "-2.5s"; "0"; "h"; "1"; "9223372036854775808ns"; ""]%string
  = [Some (5 * Minute); Some (90 * Minute); Some (- 2500000000); Some 0; None; None; None; None].
Proof. vm_compute. reflexivity. Qed.

End Duration.
