(* ===== verification/Classify.v ===== *)
(** * Classifying delivery errors and domains

    Models [pkg/emailutil/bounce.go] (what a delivery error says about a
    recipient) and [pkg/emailutil/domain.go].  The program's regular
    expressions are fixed, so each is a matcher of its own, written for
    exactly that expression on bytes. *)
From S2P Require Import Prelude GoStrings.
From Stdlib Require Import Ascii.

Module Classify.
Import GoStrings.
Local Open Scope string_scope.

(** [panmailv1.EmailEventType]. *)
Inductive EmailEventType :=
| UNSPECIFIED | SENT | DELIVERED | OPENED | CLICKED | BOUNCED | HARD_BOUNCE
| SOFT_BOUNCE | SPAM_REPORT | UNSUBSCRIBED | DROPPED | REJECTED | PENDING
| DEFERRED | COMPLAINED.

#[export] Instance EmailEventType_eq_dec : EqDecision EmailEventType.
Proof. solve_decision. Defined.

Record Classification := mkClass {
  Type_ : EmailEventType;
  RecipientAtFault : bool;
  Retryable : bool
}.

(** ** Patterns *)

Definition recipientHardBounceCodes : list string :=
  ["5.1.1"; "5.1.2"; "5.1.3"; "5.1.6"; "5.1.10"].

Definition recipientHardBouncePatterns : list string :=
  ["user unknown"; "no such user"; "no such recipient";
   "mailbox not found"; "mailbox unavailable"; "invalid recipient";
   "recipient address rejected"; "address rejected"; "account disabled";
   "user doesn't exist"; "user does not exist"; "unknown recipient";
   "recipient not found"; "does not exist"].

Definition complaintPatterns : list string :=
  ["feedback loop"; "spam complaint"; "abuse complaint"; "complained";
   "marked as spam"; "reported as spam"].

Definition contentRejectionPatterns : list string :=
  ["spam"; "unacceptable content"; "policy violation"; "content rejected";
   "message rejected"; "virus"; "malware"; "phishing"].

Definition unsubscribePatterns : list string := ["unsubscribed"; "opted out"].

Definition transientPatterns : list string :=
  ["mailbox full"; "quota exceeded"; "storage full"; "over quota";
   "connection timed out"; "connection refused"; "connection reset";
   "i/o timeout"; "no route to host"; "network is unreachable";
   "server busy"; "try again later"; "greylist"; "greylisted";
   "rate limit"; "too many messages"; "too many connections";
   "temporary failure"; "temporarily deferred"; "deferred";
   "context deadline exceeded"; "eof"].

Definition infrastructureCodes : list string := ["5.7.0"; "5.7.8"; "5.7.9"].

Definition infrastructurePatterns : list string :=
  ["authentication failed"; "authentication credentials"; "auth failed";
   "invalid credentials"; "username and password not accepted";
   "relay access denied"; "relaying denied"; "relay denied";
   "not authorized to send"; "sender address rejected";
   "blacklisted"; "blocklisted";
   "certificate"; "x509"; "tls"; "ssl";
   "unable to look up host"; "no such host"; "dns";
   "connection closed by remote host"].

Definition containsAny (s : string) (patterns : list string) : bool :=
  existsb (Contains s) patterns.

(** ** The regular expressions *)

(** [[^\d.]]: what may stand on either side of a status code. *)
Definition code_sep (c : ascii) : bool := negb (is_digit c || bool_decide (c = "."%char)).

Definition sep_or_end (s : string) : bool :=
  match s with "" => true | String c _ => code_sep c end.

(** Does [p] match at some position that starts the text or follows a byte
    satisfying [before]?  [ok] says whether this position does. *)
Fixpoint scan_from (before : ascii -> bool) (p : string -> bool) (ok : bool) (s : string) : bool :=
  (ok && p s) ||
  match s with
  | "" => false
  | String c r => scan_from before p (before c) r
  end.

(** [enhancedCodePattern(codes...)].MatchString: any of [codes], whole. *)
Definition enhancedCodeMatch (codes : list string) (s : string) : bool :=
  scan_from code_sep
    (fun t => existsb (fun c => HasPrefix t c && sep_or_end (drop_str (String.length c) t)) codes)
    true s.

(** The digits a text starts with: how many, and what follows. *)
Fixpoint span_digits (s : string) : nat * string :=
  match s with
  | String c r => if is_digit c then let '(n, t) := span_digits r in (S n, t) else (0, s)
  | "" => (0, "")
  end.

Definition one_to_three (n : nat) : bool := (1 <=? n)%nat && (n <=? 3)%nat.

(** [transientCodes]: "4." digits{1,3} "." digits{1,3}, whole. *)
Definition transientAt (s : string) : bool :=
  HasPrefix s "4." &&
  let '(n1, t1) := span_digits (drop_str 2 s) in
  one_to_three n1 && HasPrefix t1 "." &&
  let '(n2, t2) := span_digits (drop_str 1 t1) in
  one_to_three n2 && sep_or_end t2.

Definition transientCodes (s : string) : bool := scan_from code_sep transientAt true s.

(** [\s] of Go's regular expressions. *)
Definition re_space (c : ascii) : bool :=
  bool_decide (code c ∈ [9; 10; 12; 13; 32]%Z).

(** [replyCode] at a position: [[2-5]\d\d] then a space, a hyphen or the end. *)
Definition replyCodeAt (s : string) : bool :=
  match s with
  | String a (String b (String c r)) =>
      (50 <=? code a)%Z && (code a <=? 53)%Z && is_digit b && is_digit c &&
      match r with
      | "" => true
      | String d _ => bool_decide (d = " "%char) || bool_decide (d = "-"%char)
      end
  | _ => false
  end.

Definition before_reply (c : ascii) : bool := re_space c || bool_decide (c = ":"%char).

(** [replyCode.FindStringSubmatchIndex]: the text from the first reply code on. *)
Fixpoint find_reply (ok : bool) (s : string) : option string :=
  if ok && replyCodeAt s then Some s
  else match s with
       | "" => None
       | String c r => find_reply (before_reply c) r
       end.

Definition take_str (n : nat) (s : string) : string := String.substring 0 n s.

(** The class of [emailAddress]: no space, bracket, quote, comma, semicolon or
    colon. *)
Definition addr_char (c : ascii) : bool :=
  negb (re_space c ||
        bool_decide (c ∈ ["<"; ">"; "("; ")"; "["; "]"; "034"; "'"; ","; ";"; ":"]%char)).

(** A run contains a match of [X+@X+] exactly when it has an at sign that is
    neither its first nor its last byte; the match then runs from its first
    byte to its last. *)
Fixpoint at_before_last (s : string) : bool :=
  match s with
  | String c (String _ _ as r) => bool_decide (c = "@"%char) || at_before_last r
  | _ => false
  end.

Definition is_address (run : string) : bool :=
  match run with "" => false | String _ r => at_before_last r end.

Definition flush (run : string) : string := if is_address run then "" else run.

(** [emailAddress.ReplaceAllString(s, "")]: every maximal run of [addr_char]
    that is an address goes; [run] is the part of the current one already
    read. *)
Fixpoint remove_from (run s : string) : string :=
  match s with
  | "" => flush run
  | String c r =>
      if addr_char c then remove_from (run ++ String c "") r
      else flush run ++ String c (remove_from "" r)
  end.

Definition remove_addresses (s : string) : string := remove_from "" s.

(** ** ClassifyError *)

Definition ClassifyError (errStr : string) : Classification :=
  if eqb errStr "" then mkClass UNSPECIFIED false false
  else
    let text := remove_addresses (ToLower errStr) in
    if containsAny text infrastructurePatterns || enhancedCodeMatch infrastructureCodes text
    then mkClass REJECTED false true
    else
      let '(reply, rcode) :=
        match find_reply true text with
        | Some t => (t, take_str 3 t)
        | None => (text, "")
        end in
      if HasPrefix rcode "4" || transientCodes reply || containsAny reply transientPatterns
      then mkClass SOFT_BOUNCE false true
      else if containsAny reply unsubscribePatterns then mkClass UNSUBSCRIBED true false
      else if containsAny reply complaintPatterns then mkClass SPAM_REPORT true false
      else if containsAny reply contentRejectionPatterns then mkClass REJECTED false false
      else if enhancedCodeMatch recipientHardBounceCodes reply
              || containsAny reply recipientHardBouncePatterns
      then mkClass HARD_BOUNCE true false
      else mkClass BOUNCED false true.

(** ** GetRootDomain *)

Definition last_two (l : list string) : list string := drop (length l - 2) l.

Definition GetRootDomain (input : string) : string :=
  let domain := match cut_last input "@" with Some (_, d) => d | None => input end in
  let parts := Split domain "." in
  if (length parts <=? 2)%nat then ToLower domain
  else ToLower (Join (last_two parts) ".").

Example classify_tests :
  map (fun s => let c := ClassifyError s in (Type_ c, RecipientAtFault c, Retryable c))
    ["550 5.1.1 The email account that you tried to reach does not exist.";
     "452 4.2.2 The email account that you tried to reach is over quota.";
     "554 5.7.1 Message rejected due to spam content.";
     "550 5.7.1 Recipient complained: message marked as spam via feedback loop";
     "User has unsubscribed from your list.";
     "Delivery failed for unknown reasons.";
     "535 5.7.8 Error: authentication failed";
     "dial tcp 185.1.1.20:587: connect: no answer";
     "smtp rcpt to <complaints@dnsimple.com>: 550 5.1.1 no mailbox here"]
  = [(HARD_BOUNCE, true, false); (SOFT_BOUNCE, false, true); (REJECTED, false, false);
     (SPAM_REPORT, true, false); (UNSUBSCRIBED, true, false); (BOUNCED, false, true);
     (REJECTED, false, true); (BOUNCED, false, true); (HARD_BOUNCE, true, false)].
Proof. vm_compute. reflexivity. Qed.

(** ** Addresses do not decide *)

Lemma addr_char_lower c : addr_char (lower c) = addr_char c.
Proof. destruct c as [[] [] [] [] [] [] [] []]; reflexivity. Qed.

Lemma lower_at c : bool_decide (lower c = "@"%char) = bool_decide (c = "@"%char).
Proof. destruct c as [[] [] [] [] [] [] [] []]; reflexivity. Qed.

Lemma at_before_last_lower s : at_before_last (ToLower s) = at_before_last s.
Proof.
  induction s as [|c s IH]; [done|]. destruct s as [|c' s]; [done|].
  change (bool_decide (lower c = "@"%char) || at_before_last (ToLower (String c' s))
          = bool_decide (c = "@"%char) || at_before_last (String c' s)).
  by rewrite lower_at, IH.
Qed.

Lemma is_address_lower s : is_address (ToLower s) = is_address s.
Proof. destruct s as [|c s]; [done|]. apply at_before_last_lower. Qed.

Lemma str_all_addr_lower s : str_all addr_char (ToLower s) = str_all addr_char s.
Proof. induction s as [|c s IH]; simpl; [done|]. by rewrite addr_char_lower, IH. Qed.

Lemma remove_from_run run a t :
  str_all addr_char a = true -> remove_from run (a ++ t) = remove_from (run ++ a) t.
Proof.
  revert run. induction a as [|c a IH]; intros run Ha; simpl in *.
  - by rewrite string_app_nil.
  - b2p. rewrite H, IH by done. by rewrite string_app_assoc.
Qed.

Lemma remove_from_sep run pre l t :
  addr_char l = false ->
  remove_from run (pre ++ String l t) = remove_from run pre ++ String l (remove_from "" t).
Proof.
  intros Hl. revert run. induction pre as [|c pre IH]; intros run; simpl.
  - by rewrite Hl.
  - destruct (addr_char c); rewrite IH; [done|]. by rewrite string_app_assoc.
Qed.

(** An address as an error names one: a run of address bytes with an at sign
    strictly inside. *)
Definition address (a : string) : bool := str_all addr_char a && is_address a.

Lemma remove_address pre l a r post :
  addr_char l = false -> addr_char r = false -> address a = true ->
  remove_addresses (ToLower (pre ++ String l (a ++ String r post))) =
  remove_addresses (ToLower pre) ++ String (lower l) (String (lower r) (remove_addresses (ToLower post))).
Proof.
  intros Hl Hr Ha. unfold address in Ha. b2p. unfold remove_addresses.
  rewrite ToLower_app. simpl. rewrite ToLower_app. simpl.
  rewrite remove_from_sep by (by rewrite addr_char_lower).
  do 2 f_equal. rewrite remove_from_run by (by rewrite str_all_addr_lower). simpl.
  rewrite addr_char_lower, Hr. unfold flush. by rewrite is_address_lower, H0.
Qed.

Lemma app_String_nonempty pre l t : eqb (pre ++ String l t) "" = false.
Proof. by destruct pre. Qed.

(** Who was being mailed never decides the verdict.  Whatever address a
    delivery error names, set off by any non-address bytes as in "rcpt to
    <addr>:", replacing it by any other address gives the same
    classification. *)
Theorem address_never_decides pre l a b r post :
  addr_char l = false -> addr_char r = false -> address a = true -> address b = true ->
  ClassifyError (pre ++ String l (a ++ String r post)) =
  ClassifyError (pre ++ String l (b ++ String r post)).
Proof.
  intros Hl Hr Ha Hb. unfold ClassifyError.
  rewrite !app_String_nonempty, (remove_address pre l a r post), (remove_address pre l b r post)
    by done. done.
Qed.

Lemma address_never_decides_witness :
  ClassifyError "smtp rcpt to <complaints@dnsimple.com>: 550 5.1.1 no mailbox here" =
  ClassifyError "smtp rcpt to <a@b>: 550 5.1.1 no mailbox here".
Proof.
  apply (address_never_decides "smtp rcpt to " "<" "complaints@dnsimple.com" "a@b" ">"
           ": 550 5.1.1 no mailbox here"); vm_compute; reflexivity.
Defined.

(** Blame is never a guess.  An error blames the recipient only when it is
    not a fault of the gateway's own (authentication, TLS, DNS, relaying), its
    reply code is not 4xx and nothing in the reply says the condition is
    temporary; such an error is never retried, and every error that carries a
    4xx reply code or infrastructure wording is retried. *)
Theorem blame_is_earned s :
  let text := remove_addresses (ToLower s) in
  let infra := containsAny text infrastructurePatterns || enhancedCodeMatch infrastructureCodes text in
  let temporary := exists t, find_reply true text = Some t /\ HasPrefix t "4" = true in
  (RecipientAtFault (ClassifyError s) = true ->
     Retryable (ClassifyError s) = false /\ infra = false /\ ~ temporary /\
     (Type_ (ClassifyError s) = UNSUBSCRIBED \/ Type_ (ClassifyError s) = SPAM_REPORT \/
      Type_ (ClassifyError s) = HARD_BOUNCE)) /\
  (s <> "" -> infra = true \/ temporary -> Retryable (ClassifyError s) = true).
Proof.
  intros text infra temporary.
  assert (forall t, HasPrefix t "4" = true -> HasPrefix (take_str 3 t) "4" = true) as H4.
  { intros t (r & ->)%HasPrefix_spec. by destruct r as [|? [|? r]]. }
  unfold ClassifyError. fold text infra.
  destruct (eqb s "") eqn:He; simpl.
  { split; [done|]. intros Hne. by apply eqb_true in He. }
  destruct infra eqn:Hi; simpl; [done|].
  destruct (find_reply true text) as [t|] eqn:Hf.
  - destruct (HasPrefix t "4") eqn:Ht.
    + rewrite (H4 t Ht). simpl. done.
    + assert (~ temporary) as Hnt by (intros (t' & Ht' & ?); congruence).
      repeat (case_match; simpl); split; try done; intros; try tauto; naive_solver.
  - assert (~ temporary) as Hnt by (intros (t' & Ht' & ?); congruence).
    repeat (case_match; simpl); split; try done; intros; try tauto; naive_solver.
Qed.

(** The third classification that blames the recipient. *)
Example spam_reply_at_fault :
  ClassifyError "550 5.7.1 Recipient complained" = mkClass SPAM_REPORT true false.
Proof. vm_compute. reflexivity. Qed.

End Classify.
