(* ===== verification/Outbox.v ===== *)
(** * The outbox: queued messages, claims, leases and idempotency keys

    Models [internal/email/repositories/entities] (outbox.go, idempotency.go),
    the store [internal/email/repositories/stores/postgres/outbox_store.go]
    with the SQL statements it embeds, and the held-message releaser
    [internal/email/usecases/release_held.go].

    The two tables are finite maps.  Each SQL statement is one atomic
    transformation of the database; a Go method runs its statements through
    [exec] (in the prelude), which threads the ways a database call fails.  The concurrent
    behaviour of several gateways on one database is a list of statements in
    the order they commit ([op], [run]). *)
From S2P Require Import Prelude.

Module Outbox.
Local Open Scope Z_scope.

(** ** Data *)

(** [entities.OutboxStatus]. *)
Inductive OutboxStatus :=
| Pending
| Deferred
| Failed
| Sending
| Held.

#[export] Instance OutboxStatus_eq_dec : EqDecision OutboxStatus.
Proof. solve_decision. Defined.

(** [entities.OutboxEmail]: a worker's copy of a row. *)
Record OutboxEmail := mkOutboxEmail {
  ID : string;
  TenantID : string;
  Request : string;
  Status : OutboxStatus;
  RetryCount : Z;
  NextRetryAt : Z;
  LastError : string;
  CreatedAt : Z;
  UpdatedAt : Z;
  ClaimToken : string
}.

(** [entities.IdempotencyKey]. *)
Record IdempotencyKey := mkIdempotencyKey {
  K_TenantID : string;
  K_Key : string;
  K_RequestHash : string;
  K_MessageID : string;
  K_CreatedAt : Z
}.

(** A row of the table [outbox], keyed by its id; [None] is SQL NULL. *)
Record Row := mkRow {
  tenant_id : string;
  request : string;
  status : OutboxStatus;
  retry_count : Z;
  next_retry_at : Z;
  last_error : string;
  created_at : Z;
  updated_at : Z;
  claim_token : option string;
  claimed_until : option Z
}.

Record DB := mkDB {
  outbox : gmap string Row;
  send_idempotency_keys : gmap (string * string) IdempotencyKey
}.

Definition set_outbox (m : gmap string Row) (s : DB) : DB :=
  mkDB m (send_idempotency_keys s).
Definition set_keys (m : gmap (string * string) IdempotencyKey) (s : DB) : DB :=
  mkDB (outbox s) m.

(** The row [create_outbox.sql] inserts: it names no claim columns. *)
Definition row_of (e : OutboxEmail) : Row :=
  {| tenant_id := TenantID e; request := Request e; status := Status e;
     retry_count := RetryCount e; next_retry_at := NextRetryAt e;
     last_error := LastError e; created_at := CreatedAt e;
     updated_at := UpdatedAt e; claim_token := None; claimed_until := None |}.

(** The copy a SELECT of the row's columns is scanned into. *)
Definition scan_row (id token : string) (r : Row) : OutboxEmail :=
  {| ID := id; TenantID := tenant_id r; Request := request r;
     Status := status r; RetryCount := retry_count r;
     NextRetryAt := next_retry_at r; LastError := last_error r;
     CreatedAt := created_at r; UpdatedAt := updated_at r;
     ClaimToken := token |}.

(** ** Statements *)

Definition errDuplicate : string := "duplicate key value violates unique constraint".
Definition ErrIdempotencyKeyTaken : string := "idempotency key already in use".

(** [create_outbox.sql]; the primary key refuses a second row of one id. *)
Definition insert_outbox (e : OutboxEmail) (s : DB) : result string (DB * unit) :=
  match outbox s !! ID e with
  | Some _ => Err errDuplicate
  | None => Ok (set_outbox (<[ID e := row_of e]> (outbox s)) s, tt)
  end.

(** The WHERE clause of [claim_pending_outbox.sql]. *)
Definition claimable (now : Z) (r : Row) : bool :=
  (next_retry_at r <=? now) &&
  match status r with
  | Pending | Deferred => true
  | Sending =>
      match claimed_until r with
      | None => true
      | Some u => u <? now
      end
  | Failed | Held => false
  end.

Definition by_created (a b : string * Row) : Prop :=
  created_at a.2 <= created_at b.2.
#[export] Instance by_created_dec : RelDecision by_created.
Proof. intros a b. unfold by_created. apply _. Defined.

(** The inner SELECT.  [locked] are the rows other transactions hold, which
    [FOR UPDATE SKIP LOCKED] passes over; on SQLite it is empty. *)
Definition due_rows (locked : gset string) (now : Z) (s : DB) : list (string * Row) :=
  merge_sort by_created
    (filter (fun kv => claimable now kv.2 = true /\ kv.1 ∉ locked)
       (map_to_list (outbox s))).

Definition select_due (locked : gset string) (now : Z) (limit : nat) (s : DB) : list string :=
  (take limit (due_rows locked now s)).*1.

Definition claim_row (token : string) (until now : Z) (r : Row) : Row :=
  {| tenant_id := tenant_id r; request := request r; status := Sending;
     retry_count := retry_count r; next_retry_at := next_retry_at r;
     last_error := last_error r; created_at := created_at r;
     updated_at := now; claim_token := Some token; claimed_until := Some until |}.

Definition update_where (p : string -> Row -> bool) (f : Row -> Row) (m : gmap string Row) :
    gmap string Row :=
  map_imap (fun id r => Some (if p id r then f r else r)) m.

Definition delete_where (p : string -> Row -> bool) (m : gmap string Row) : gmap string Row :=
  map_imap (fun id r => if p id r then None else Some r) m.

(** [claim_pending_outbox.sql] / [claim_pending_outbox_pg.sql]: one UPDATE,
    with the number of rows it affected. *)
Definition claim_stmt (locked : gset string) (token : string) (until now : Z)
    (limit : nat) (s : DB) : DB * Z :=
  let ids := select_due locked now limit s in
  (set_outbox (update_where (fun id _ => bool_decide (id ∈ ids)) (claim_row token until now)
                 (outbox s)) s,
   Z.of_nat (length ids)).

(** [list_claimed_outbox.sql]. *)
Definition list_claimed (token : string) (s : DB) : list OutboxEmail :=
  (fun kv => scan_row kv.1 token kv.2) <$>
    (merge_sort by_created
       (filter (fun kv => claim_token kv.2 = Some token) (map_to_list (outbox s)))).

(** [renew_outbox_claim.sql]. *)
Definition renew_matches (id token : string) (id' : string) (r : Row) : bool :=
  bool_decide (id' = id) && bool_decide (claim_token r = Some token)
  && bool_decide (status r = Sending).

Definition renew_row (until : Z) (r : Row) : Row :=
  {| tenant_id := tenant_id r; request := request r; status := status r;
     retry_count := retry_count r; next_retry_at := next_retry_at r;
     last_error := last_error r; created_at := created_at r;
     updated_at := updated_at r; claim_token := claim_token r;
     claimed_until := Some until |}.

Definition renew_stmt (id token : string) (until : Z) (s : DB) : DB * Z :=
  (set_outbox (update_where (renew_matches id token) (renew_row until) (outbox s)) s,
   match outbox s !! id with
   | Some r => if renew_matches id token id r then 1 else 0
   | None => 0
   end).

(** [update_outbox.sql]: settling a row clears its claim. *)
Definition update_row (e : OutboxEmail) (r : Row) : Row :=
  {| tenant_id := tenant_id r; request := request r; status := Status e;
     retry_count := RetryCount e; next_retry_at := NextRetryAt e;
     last_error := LastError e; created_at := created_at r;
     updated_at := UpdatedAt e; claim_token := None; claimed_until := None |}.

Definition update_stmt (e : OutboxEmail) (s : DB) : DB :=
  set_outbox (alter (update_row e) (ID e) (outbox s)) s.

(** [delete_outbox.sql]. *)
Definition delete_stmt (id : string) (s : DB) : DB :=
  set_outbox (delete id (outbox s)) s.

(** [count_pending_outbox.sql]. *)
Definition undelivered (r : Row) : bool :=
  match status r with
  | Pending | Deferred | Sending => true
  | Failed | Held => false
  end.

Definition count_pending (tenant : string) (s : DB) : Z :=
  Z.of_nat (size (filter (fun kv => tenant_id kv.2 = tenant /\ undelivered kv.2 = true) (outbox s))).

(** [prune_terminal_outbox.sql]. *)
Definition terminal_before (cutoff : Z) (r : Row) : bool :=
  bool_decide (status r = Failed) && (updated_at r <? cutoff).

Definition prune_terminal_stmt (cutoff : Z) (s : DB) : DB :=
  set_outbox (delete_where (fun _ => terminal_before cutoff) (outbox s)) s.

(** [prune_held_outbox.sql]; [review_pending id] is the EXISTS subquery on the
    review table, which belongs to the filter component. *)
Definition held_before (review_pending : string -> bool) (cutoff : Z) (id : string) (r : Row) : bool :=
  bool_decide (status r = Held) && (created_at r <? cutoff) && negb (review_pending id).

Definition prune_held_stmt (review_pending : string -> bool) (cutoff : Z) (s : DB) : DB :=
  set_outbox (delete_where (held_before review_pending cutoff) (outbox s)) s.

(** [outbox_stats.sql]. *)
Definition stats_stmt (s : DB) : Z * option Z :=
  let rows := filter (fun r => undelivered r = true) (map snd (map_to_list (outbox s))) in
  (Z.of_nat (length rows),
   match map created_at rows with
   | [] => None
   | t :: ts => Some (foldr Z.min t ts)
   end).

(** [delete_expired_send_idempotency_key.sql]. *)
Definition delete_expired_key (tenant key : string) (liveSince : Z) (s : DB) : DB :=
  match send_idempotency_keys s !! (tenant, key) with
  | Some k => if K_CreatedAt k <? liveSince
              then set_keys (delete (tenant, key) (send_idempotency_keys s)) s else s
  | None => s
  end.

(** [create_send_idempotency_key.sql], with the rows affected. *)
Definition insert_key (k : IdempotencyKey) (s : DB) : DB * Z :=
  match send_idempotency_keys s !! (K_TenantID k, K_Key k) with
  | Some _ => (s, 0)
  | None => (set_keys (<[(K_TenantID k, K_Key k) := k]> (send_idempotency_keys s)) s, 1)
  end.

(** [get_send_idempotency_key.sql]. *)
Definition select_key (tenant key : string) (liveSince : Z) (s : DB) : option IdempotencyKey :=
  match send_idempotency_keys s !! (tenant, key) with
  | Some k => if liveSince <=? K_CreatedAt k then Some k else None
  | None => None
  end.

(** [prune_send_idempotency_keys.sql]. *)
Definition prune_keys_stmt (cutoff : Z) (s : DB) : DB :=
  set_keys (filter (fun kv => cutoff <= K_CreatedAt kv.2) (send_idempotency_keys s)) s.

(** ** The store's methods *)

Definition Create (f : fault) (e : OutboxEmail) : DB -> DB * result string unit :=
  exec f (insert_outbox e).

(** The statements of [CreateWithIdempotencyKey]'s transaction; an error rolls
    all of them back. *)
Definition create_with_key_tx (e : OutboxEmail) (k : IdempotencyKey) (liveSince : Z) (s : DB) :
    result string (DB * unit) :=
  let s1 := delete_expired_key (K_TenantID k) (K_Key k) liveSince s in
  let '(s2, inserted) := insert_key k s1 in
  if inserted =? 0 then Err ErrIdempotencyKeyTaken else insert_outbox e s2.

Definition CreateWithIdempotencyKey (f : fault) (e : OutboxEmail) (k : IdempotencyKey)
    (liveSince : Z) : DB -> DB * result string unit :=
  exec f (create_with_key_tx e k liveSince).

Definition GetIdempotencyKey (f : fault) (tenant key : string) (liveSince : Z) (s : DB) :
    result string (option IdempotencyKey) :=
  snd (exec f (fun s => Ok (s, select_key tenant key liveSince s)) s).

Definition PruneIdempotencyKeys (f : fault) (olderThan : Z) (s : DB) : DB * result string Z :=
  exec f (fun s => Ok (prune_keys_stmt olderThan s,
    Z.of_nat (size (send_idempotency_keys s))
    - Z.of_nat (size (send_idempotency_keys (prune_keys_stmt olderThan s))))) s.

Definition GetByID (f : fault) (id : string) (s : DB) : result string (option OutboxEmail) :=
  snd (exec f (fun s => Ok (s, scan_row id "" <$> (outbox s !! id))) s).

(** [ClaimPending]: the UPDATE, then the SELECT of exactly what it won.  What
    other processes commit between the two is [mid]. *)
Definition ClaimPending (f1 f2 : fault) (mid : DB -> DB) (locked : gset string)
    (limit : nat) (leaseFor : Z) (now : Z) (token : string) (s : DB) :
    DB * result string (list OutboxEmail) :=
  match exec f1 (fun s => Ok (claim_stmt locked token (time_add now leaseFor) now limit s)) s with
  | (s1, Err e) => (s1, Err e)
  | (s1, Ok affected) =>
      if affected =? 0 then (s1, Ok [])
      else exec f2 (fun s => Ok (s, list_claimed token s)) (mid s1)
  end.

Definition RenewClaim (f : fault) (id claimToken : string) (until : Z) (s : DB) :
    DB * result string bool :=
  match exec f (fun s => Ok (renew_stmt id claimToken until s)) s with
  | (s', Ok affected) => (s', Ok (affected =? 1))
  | (s', Err e) => (s', Err e)
  end.

Definition Update (f : fault) (e : OutboxEmail) : DB -> DB * result string unit :=
  exec f (fun s => Ok (update_stmt e s, tt)).

Definition Delete (f : fault) (id : string) : DB -> DB * result string unit :=
  exec f (fun s => Ok (delete_stmt id s, tt)).

Definition CountPending (f : fault) (tenant : string) (s : DB) : result string Z :=
  snd (exec f (fun s => Ok (s, count_pending tenant s)) s).

Definition removed (before after : DB) : Z :=
  Z.of_nat (size (outbox before)) - Z.of_nat (size (outbox after)).

Definition PruneTerminal (f : fault) (olderThan : Z) : DB -> DB * result string Z :=
  exec f (fun s => Ok (prune_terminal_stmt olderThan s, removed s (prune_terminal_stmt olderThan s))).

Definition PruneHeld (f : fault) (review_pending : string -> bool) (olderThan : Z) :
    DB -> DB * result string Z :=
  exec f (fun s => Ok (prune_held_stmt review_pending olderThan s,
                       removed s (prune_held_stmt review_pending olderThan s))).

(** [Stats]; an empty queue has no oldest row, reported as the zero time. *)
Definition Stats (f : fault) (s : DB) : result string (Z * Z) :=
  match snd (exec f (fun s => Ok (s, stats_stmt s)) s) with
  | Ok (n, oldest) => Ok (n, default 0 oldest)
  | Err e => Err e
  end.

(** ** Releasing and discarding held mail (release_held.go) *)

Definition errGone (id : string) : string :=
  ("held message " +:+ id +:+ " is no longer in the outbox")%string.
Definition errForeign (id : string) : string :=
  ("held message " +:+ id +:+ " does not belong to this tenant")%string.

Definition with_status (st : OutboxStatus) (next updated : Z) (e : OutboxEmail) : OutboxEmail :=
  {| ID := ID e; TenantID := TenantID e; Request := Request e; Status := st;
     RetryCount := RetryCount e; NextRetryAt := next; LastError := LastError e;
     CreatedAt := CreatedAt e; UpdatedAt := updated; ClaimToken := ClaimToken e |}.

(** [ReleaseHeld]: the read, the write and what other processes commit between
    them ([mid]).  The flag says whether the worker is triggered. *)
Definition ReleaseHeld (f1 f2 : fault) (mid : DB -> DB) (now now' : Z) (tenant id : string) (s : DB) :
    DB * bool * result string unit :=
  match GetByID f1 id s with
  | Err e => (s, false, Err ("reading the held message: " +:+ e)%string)
  | Ok None => (s, false, Err (errGone id))
  | Ok (Some email) =>
      if negb (bool_decide (TenantID email = tenant)) then (s, false, Err (errForeign id))
      else if negb (bool_decide (Status email = Held)) then (s, false, Ok tt)
      else
        match Update f2 (with_status Pending now now' email) (mid s) with
        | (s', Err e) => (s', false, Err ("releasing the held message: " +:+ e)%string)
        | (s', Ok _) => (s', true, Ok tt)
        end
  end.

Definition DiscardHeld (f1 f2 : fault) (mid : DB -> DB) (tenant id : string) (s : DB) :
    DB * result string unit :=
  match GetByID f1 id s with
  | Err e => (s, Err ("reading the held message: " +:+ e)%string)
  | Ok None => (s, Ok tt)
  | Ok (Some email) =>
      if negb (bool_decide (TenantID email = tenant)) then (s, Err (errForeign id))
      else if negb (bool_decide (Status email = Held)) then (s, Ok tt)
      else Delete f2 id (mid s)
  end.

(** ** Interleavings

    Several gateways on one database: a list of statements in commit order. *)
Inductive op :=
| OCreate (e : OutboxEmail)
| OCreateKey (e : OutboxEmail) (k : IdempotencyKey) (liveSince : Z)
| OClaim (locked : gset string) (token : string) (until now : Z) (limit : nat)
| ORenew (id token : string) (until : Z)
| OUpdate (e : OutboxEmail)
| ODelete (id : string)
| OPruneTerminal (cutoff : Z)
| OPruneHeld (review_pending : string -> bool) (cutoff : Z)
| OPruneKeys (cutoff : Z).

Definition commit {A} (s : DB) (r : result string (DB * A)) : DB :=
  match r with Ok (s', _) => s' | Err _ => s end.

Definition step (o : op) (s : DB) : DB :=
  match o with
  | OCreate e => commit s (insert_outbox e s)
  | OCreateKey e k live => commit s (create_with_key_tx e k live s)
  | OClaim locked token until now limit => fst (claim_stmt locked token until now limit s)
  | ORenew id token until => fst (renew_stmt id token until s)
  | OUpdate e => update_stmt e s
  | ODelete id => delete_stmt id s
  | OPruneTerminal c => prune_terminal_stmt c s
  | OPruneHeld rp c => prune_held_stmt rp c s
  | OPruneKeys c => prune_keys_stmt c s
  end.

Definition run (tr : list op) (s : DB) : DB := fold_left (fun s o => step o s) tr s.

(** The ids a claim takes. *)
Definition claimed_ids (o : op) (s : DB) : list string :=
  match o with
  | OClaim locked _ _ now limit => select_due locked now limit s
  | _ => []
  end.

(** ** Lemmas: statements row by row *)

Lemma update_where_lookup p f m id :
  update_where p f m !! id = (fun r => if p id r then f r else r) <$> m !! id.
Proof. unfold update_where. rewrite map_lookup_imap. by destruct (m !! id). Qed.

Lemma delete_where_lookup p m id :
  delete_where p m !! id = m !! id ≫= fun r => if p id r then None else Some r.
Proof. unfold delete_where. by rewrite map_lookup_imap. Qed.

Lemma elem_of_due locked now s id r :
  (id, r) ∈ due_rows locked now s <->
  outbox s !! id = Some r /\ claimable now r = true /\ id ∉ locked.
Proof.
  unfold due_rows. rewrite merge_sort_Permutation, list_elem_of_filter, elem_of_map_to_list.
  simpl. tauto.
Qed.

Lemma select_due_claimable locked now limit s id :
  id ∈ select_due locked now limit s ->
  exists r, outbox s !! id = Some r /\ claimable now r = true /\ id ∉ locked.
Proof.
  unfold select_due. intros Hin.
  apply list_elem_of_fmap in Hin as [[id' r] [Heq Hin]]. simpl in Heq. subst id'.
  apply elem_of_take in Hin as (i & Hi & _).
  exists r. by apply elem_of_due, (list_elem_of_lookup_2 _ i).
Qed.

Lemma due_rows_sorted locked now s : Sorted by_created (due_rows locked now s).
Proof. apply Sorted_merge_sort. intros a b. unfold by_created. lia. Qed.

Lemma due_rows_strongly_sorted locked now s :
  StronglySorted by_created (due_rows locked now s).
Proof.
  apply Sorted_StronglySorted; [|apply due_rows_sorted].
  intros a b c. unfold by_created. lia.
Qed.

(** What is before a cut of a sorted list is ordered before what is after. *)
(** A row's fate under one statement. *)
Lemma claim_stmt_lookup locked token until now limit s id :
  outbox (claim_stmt locked token until now limit s).1 !! id =
  (fun r => if bool_decide (id ∈ select_due locked now limit s)
            then claim_row token until now r else r) <$> outbox s !! id.
Proof. simpl. by rewrite update_where_lookup. Qed.

Lemma insert_outbox_lookup e s id r :
  outbox s !! id = Some r -> outbox (commit s (insert_outbox e s)) !! id = Some r.
Proof.
  intros Hr. unfold insert_outbox. destruct (outbox s !! ID e) eqn:E; simpl; [done|].
  rewrite lookup_insert_ne; [done|]. congruence.
Qed.

Lemma create_with_key_outbox e k live s :
  outbox (commit s (create_with_key_tx e k live s)) = outbox s \/
  (outbox s !! ID e = None /\
   outbox (commit s (create_with_key_tx e k live s)) = <[ID e := row_of e]> (outbox s)).
Proof.
  unfold create_with_key_tx, insert_key, insert_outbox, delete_expired_key.
  go_cases; try (by left); right; simpl; done.
Qed.

Lemma create_with_key_lookup e k live s id r :
  outbox s !! id = Some r -> outbox (commit s (create_with_key_tx e k live s)) !! id = Some r.
Proof.
  intros Hr. destruct (create_with_key_outbox e k live s) as [-> | [Hn ->]]; [done|].
  rewrite lookup_insert_ne; [done|]. congruence.
Qed.

(** The statements that settle the row [id]: a worker's Update or Delete. *)
Definition settles (id : string) (o : op) : bool :=
  match o with
  | OUpdate e => bool_decide (ID e = id)
  | ODelete id' => bool_decide (id' = id)
  | _ => false
  end.


(** ** Claims and leases *)

(** The row [id] is claimed under [token] with a lease to [u]. *)
Definition leased (id token : string) (u : Z) (s : DB) : Prop :=
  exists r, outbox s !! id = Some r /\ status r = Sending /\
            claim_token r = Some token /\ claimed_until r = Some u.

(** Statements that leave a lease to [u] alone: they do not settle the row,
    they claim at a time no later than [u], and the holder's own renewals do
    not shorten it. *)
Definition respects (id token : string) (u : Z) (o : op) : Prop :=
  match o with
  | OClaim _ _ _ now _ => now <= u
  | ORenew id' token' until => id' = id -> token' = token -> u <= until
  | _ => settles id o = false
  end.

Lemma leased_not_selected id token u s locked now limit :
  leased id token u s -> now <= u -> id ∉ select_due locked now limit s.
Proof.
  intros (r & Hr & Hs & _ & Hu) Hnow Hin.
  apply select_due_claimable in Hin as (r' & Hr' & Hc & _).
  assert (r' = r) as -> by congruence.
  unfold claimable in Hc. rewrite Hs, Hu in Hc. b2p. lia.
Qed.

Lemma leased_step id token u v s o :
  u <= v -> leased id token v s -> respects id token u o ->
  exists u', u <= u' /\ leased id token u' (step o s).
Proof.
  intros Huv Hl Hresp. pose proof Hl as (r & Hr & Hs & Ht & Hu).
  assert (Hkeep : forall s', outbox s' !! id = Some r -> exists u', u <= u' /\ leased id token u' s').
  { intros s' H'. exists v. split; [lia|]. by exists r. }
  destruct o as [e|e k live|locked tok until now limit|id' tok until|e|id'|c|rp c|c]; simpl in Hresp.
  - by apply Hkeep, insert_outbox_lookup.
  - by apply Hkeep, create_with_key_lookup.
  - apply Hkeep. unfold step. rewrite claim_stmt_lookup, Hr. simpl.
    rewrite bool_decide_false; [done|]. eapply leased_not_selected; [done|lia].
  - simpl step. destruct (renew_matches id' tok id r) eqn:Hm.
    + unfold renew_matches in Hm. b2p. repeat case_bool_decide; try done. subst id'.
      assert (tok = token) as -> by congruence.
      exists until. split; [auto|]. exists (renew_row until r). simpl.
      rewrite update_where_lookup, Hr. simpl. unfold renew_matches.
      rewrite !bool_decide_true by done. done.
    + apply Hkeep. simpl. rewrite update_where_lookup, Hr. simpl. by rewrite Hm.
  - apply Hkeep. simpl. case_bool_decide; [done|]. by rewrite lookup_alter_ne.
  - apply Hkeep. simpl. case_bool_decide; [done|]. by rewrite lookup_delete_ne.
  - apply Hkeep. simpl. rewrite delete_where_lookup, Hr. simpl.
    unfold terminal_before. by rewrite Hs.
  - apply Hkeep. simpl. rewrite delete_where_lookup, Hr. simpl.
    unfold held_before. by rewrite Hs.
  - by apply Hkeep.
Qed.

Lemma leased_run id token u v tr s :
  u <= v -> leased id token v s -> Forall (respects id token u) tr ->
  exists u', u <= u' /\ leased id token u' (run tr s).
Proof.
  revert s v. induction tr as [|o tr IH]; intros s v Huv Hl Htr; simpl.
  { by exists v. }
  apply Forall_cons in Htr as [Ho Htr].
  destruct (leased_step _ _ _ _ _ _ Huv Hl Ho) as (v1 & Hv1 & Hl1).
  by apply (IH _ v1).
Qed.

#[export] Instance respects_dec id token u o : Decision (respects id token u o).
Proof. destruct o; simpl; apply _. Defined.

Lemma renew_true_leased f id token until s s' :
  RenewClaim f id token until s = (s', Ok true) -> leased id token until s'.
Proof.
  unfold RenewClaim, exec, renew_stmt. intros H. destruct f; simplify_eq/=.
  destruct (outbox s !! id) as [r|] eqn:Hr; [|done].
  destruct (renew_matches id token id r) eqn:Hm; [|done].
  exists (renew_row until r). simpl. rewrite update_where_lookup, Hr. simpl. rewrite Hm.
  unfold renew_matches in Hm. b2p. repeat case_bool_decide; done.
Qed.

(** C2: once a worker has confirmed its claim on a message (RenewClaim answered
    true, with a lease to [untilA]), another worker can confirm a claim of its
    own on the same message only after the first one's claim is over: in
    between, the row was settled, or someone claimed at a time past [untilA],
    or the first worker itself renewed to an earlier deadline.  Two workers
    never send one message under overlapping leases. *)
Theorem confirmed_leases_disjoint fA fB id tokA tokB untilA untilB s sA tr sB :
  tokA <> tokB ->
  RenewClaim fA id tokA untilA s = (sA, Ok true) ->
  RenewClaim fB id tokB untilB (run tr sA) = (sB, Ok true) ->
  Exists (fun o => ~ respects id tokA untilA o) tr.
Proof.
  intros Hne HA HB. apply renew_true_leased in HA.
  apply not_Forall_Exists; [apply _|]. intros Htr.
  destruct (leased_run _ _ _ _ _ _ (Z.le_refl _) HA Htr) as (u & _ & r & Hr & _ & Ht & _).
  revert HB. unfold RenewClaim, exec, renew_stmt. intros H. destruct fB; simplify_eq/=.
  rewrite Hr in *. unfold renew_matches in *.
  rewrite (bool_decide_false (claim_token r = Some tokB)), andb_false_r in * by congruence. done.
Qed.

Lemma confirmed_leases_disjoint_witness :
  let r := mkRow "t" "{}" Sending 0 0 "" 0 0 (Some "a") (Some 10) in
  let s := mkDB {["m" := r]} ∅ in
  let sA := (RenewClaim Up "m" "a" 20 s).1 in
  let tr := [OClaim ∅ "b" 60 30 500] in
  Exists (fun o => ~ respects "m" "a" 20 o) tr.
Proof.
  intros r s sA tr.
  apply (confirmed_leases_disjoint Up Up "m" "a" "b" 20 90 s sA tr
           (RenewClaim Up "m" "b" 90 (run tr sA)).1); [discriminate|vm_compute; reflexivity|].
  vm_compute. reflexivity.
Defined.

(** ** What a claim takes *)

Definition token_fresh (token : string) (s : DB) : Prop :=
  map_Forall (fun _ r => claim_token r <> Some token) (outbox s).

Lemma due_rows_NoDup locked now s : NoDup (due_rows locked now s).
Proof.
  unfold due_rows. rewrite merge_sort_Permutation. apply NoDup_filter, NoDup_map_to_list.
Qed.

Lemma select_due_NoDup locked now limit s : NoDup (select_due locked now limit s).
Proof.
  unfold select_due. apply (NoDup_fst_sub (outbox s)).
  - eapply sublist_NoDup; [apply due_rows_NoDup|apply sublist_take].
  - intros id r Hin. apply elem_of_take in Hin as (i & Hi & _).
    eapply elem_of_due. by eapply list_elem_of_lookup_2.
Qed.

Lemma list_claimed_ID token s :
  exists l, ID <$> list_claimed token s = l.*1 /\ NoDup l.*1 /\
    forall id r, (id, r) ∈ l <-> outbox s !! id = Some r /\ claim_token r = Some token.
Proof.
  unfold list_claimed. rewrite <- list_fmap_compose.
  set (l := merge_sort _ _). exists l.
  assert (forall id r, (id, r) ∈ l <-> outbox s !! id = Some r /\ claim_token r = Some token) as Hl.
  { intros id r. unfold l. rewrite merge_sort_Permutation, list_elem_of_filter, elem_of_map_to_list.
    simpl. tauto. }
  split_and!; [done| |done].
  apply (NoDup_fst_sub (outbox s)); [|intros id r; rewrite Hl; tauto].
  unfold l. rewrite merge_sort_Permutation. apply NoDup_filter, NoDup_map_to_list.
Qed.

Lemma claimed_iff locked token until now limit s id :
  token_fresh token s ->
  id ∈ ID <$> list_claimed token (claim_stmt locked token until now limit s).1 <->
  id ∈ select_due locked now limit s.
Proof.
  intros Hfresh. destruct (list_claimed_ID token (claim_stmt locked token until now limit s).1)
    as (l & -> & _ & Hl).
  rewrite list_elem_of_fmap. split.
  - intros ([id' r] & -> & Hin). apply Hl in Hin as [Hr Ht].
    rewrite claim_stmt_lookup in Hr.
    apply fmap_Some in Hr as (r0 & Hr0 & ->). case_bool_decide; [done|].
    by specialize (Hfresh _ _ Hr0).
  - intros Hsel. destruct (select_due_claimable _ _ _ _ _ Hsel) as (r & Hr & _).
    exists (id, claim_row token until now r). split; [done|]. apply Hl.
    rewrite claim_stmt_lookup, Hr. simpl. rewrite bool_decide_true by done. done.
Qed.

Lemma claimed_perm locked token until now limit s :
  token_fresh token s ->
  ID <$> list_claimed token (claim_stmt locked token until now limit s).1
    ≡ₚ select_due locked now limit s.
Proof.
  intros Hf. apply NoDup_Permutation; [|apply select_due_NoDup|].
  - destruct (list_claimed_ID token (claim_stmt locked token until now limit s).1)
      as (l & -> & Hnd & _). done.
  - intros id. by apply claimed_iff.
Qed.

(** A due row the claim passed over is younger than a full batch. *)
Lemma unselected_younger locked now limit s id r :
  outbox s !! id = Some r -> claimable now r = true -> id ∉ locked ->
  id ∉ select_due locked now limit s ->
  length (select_due locked now limit s) = limit /\
  forall id' r', outbox s !! id' = Some r' -> id' ∈ select_due locked now limit s ->
    created_at r' <= created_at r.
Proof.
  intros Hr Hc Hl Hns.
  assert ((id, r) ∈ due_rows locked now s) as Hin by (by apply elem_of_due).
  assert ((id, r) ∈ drop limit (due_rows locked now s)) as Hd.
  { rewrite <- (take_drop limit (due_rows locked now s)), elem_of_app in Hin.
    destruct Hin as [Hin|?]; [|done]. exfalso. apply Hns. unfold select_due.
    apply list_elem_of_fmap. by exists (id, r). }
  split.
  - unfold select_due. rewrite length_fmap, length_take.
    apply list_elem_of_lookup_1 in Hd as [i Hi]. apply lookup_lt_Some in Hi.
    rewrite length_drop in Hi. lia.
  - intros id' r' Hr' Hsel. unfold select_due in Hsel.
    apply list_elem_of_fmap in Hsel as [[id'' r''] [Heq Ht]]. simpl in Heq. subst id''.
    assert (r'' = r') as ->.
    { pose proof Ht as Ht'. apply elem_of_take in Ht' as (i & Hi & _).
      apply list_elem_of_lookup_2, elem_of_due in Hi as [? _]. congruence. }
    exact (strongly_sorted_take_drop _ _ _ _ _ (due_rows_strongly_sorted locked now s) Ht Hd).
Qed.

Lemma list_claimed_leased locked token until now limit s e :
  token_fresh token s ->
  e ∈ list_claimed token (claim_stmt locked token until now limit s).1 ->
  leased (ID e) token until (claim_stmt locked token until now limit s).1 /\ ClaimToken e = token.
Proof.
  intros Hf He.
  assert (ID e ∈ select_due locked now limit s) as Hsel.
  { rewrite <- claimed_iff by done. apply list_elem_of_fmap. by exists e. }
  destruct (select_due_claimable _ _ _ _ _ Hsel) as (r & Hr & _).
  split.
  - exists (claim_row token until now r). rewrite claim_stmt_lookup, Hr. simpl.
    by rewrite bool_decide_true.
  - unfold list_claimed in He. apply list_elem_of_fmap in He as (kv & -> & _). done.
Qed.

(** A claim returns exactly the rows it marked: each is now SENDING under
    the caller's token with the full lease, none is returned twice, and any due
    row it passed over is younger than a full batch of older ones.  Rows whose
    lease lapsed are due, so a crashed worker's mail is taken up again. *)
Theorem claim_takes_oldest locked limit leaseFor now token s s' es :
  token_fresh token s ->
  ClaimPending Up Up (fun s => s) locked limit leaseFor now token s = (s', Ok es) ->
  NoDup (ID <$> es) /\
  (forall e, e ∈ es -> leased (ID e) token (now + leaseFor) s' /\ ClaimToken e = token) /\
  (forall id r, outbox s !! id = Some r -> claimable now r = true -> id ∉ locked ->
     id ∈ ID <$> es \/
     (length es = limit /\
      forall id' r', outbox s !! id' = Some r' -> id' ∈ ID <$> es -> created_at r' <= created_at r)).
Proof.
  intros Hf Hcl.
  assert (es = list_claimed token (claim_stmt locked token (time_add now leaseFor) now limit s).1 /\
          s' = (claim_stmt locked token (time_add now leaseFor) now limit s).1) as [-> ->].
  { unfold ClaimPending, exec in Hcl. destruct (claim_stmt _ _ _ _ _ _) as [s1 n] eqn:Hst.
    simpl. destruct (n =? 0) eqn:Hn; simplify_eq/=; [|done]. split; [|done]. b2p.
    pose proof (claimed_perm locked token (time_add now leaseFor) now limit s Hf) as Hp.
    rewrite Hst in Hp. simpl in Hp. unfold claim_stmt in Hst. simplify_eq/=.
    destruct (select_due locked now limit s); [|done].
    symmetry in Hp. apply Permutation_nil in Hp.
    by apply fmap_nil_inv in Hp as ->. }
  pose proof (claimed_perm locked token (time_add now leaseFor) now limit s Hf) as Hp.
  split_and!.
  - rewrite Hp. apply select_due_NoDup.
  - intros e He. by apply list_claimed_leased in He.
  - intros id r Hr Hc Hl.
    destruct (decide (id ∈ select_due locked now limit s)) as [Hin|Hnin]; [left; by rewrite Hp|right].
    destruct (unselected_younger _ _ _ _ _ _ Hr Hc Hl Hnin) as [Hlen Hold].
    split.
    + apply Permutation_length in Hp. rewrite length_fmap in Hp. lia.
    + intros id' r' Hr' Hin'. rewrite Hp in Hin'. eauto.
Qed.

Lemma claim_takes_oldest_witness :
  let row st c := mkRow "t" "{}" st 0 0 "" c 0 None None in
  let lapsed := mkRow "t" "{}" Sending 0 0 "" 1 0 (Some "dead") (Some 5) in
  let s := mkDB (<["a" := row Pending 3]> (<["b" := row Deferred 2]> (<["c" := lapsed]> ∅))) ∅ in
  let out := ClaimPending Up Up (fun s => s) ∅ 2 120 10 "tok" s in
  exists es, out.2 = Ok es /\ NoDup (ID <$> es) /\ ID <$> es = ["c"; "b"].
Proof.
  intros row lapsed s out.
  destruct out.2 as [es|e] eqn:E; [|by vm_compute in E].
  exists es. split; [done|].
  assert (out = (out.1, Ok es)) as Hout by (rewrite <- E; by destruct out).
  split.
  - assert (token_fresh "tok" s) as Hf by (apply map_Forall_to_list; repeat constructor; done).
    exact (proj1 (claim_takes_oldest ∅ 2 120 10 "tok" s _ es Hf Hout)).
  - vm_compute in E. by injection E as <-.
Defined.

(** ** Held mail *)

Lemma held_step id r s o :
  outbox s !! id = Some r -> status r = Held -> settles id o = false ->
  outbox (step o s) !! id = Some r \/
  exists rp c, o = OPruneHeld rp c /\ rp id = false /\ created_at r < c.
Proof.
  intros Hr Hh Hs.
  destruct o as [e|e k live|locked tok until now limit|id' tok until|e|id'|c|rp c|c];
    simpl in Hs; unfold step.
  - left. by apply insert_outbox_lookup.
  - left. by apply create_with_key_lookup.
  - left. rewrite claim_stmt_lookup, Hr. simpl. rewrite bool_decide_false; [done|].
    intros Hin. apply select_due_claimable in Hin as (r' & Hr' & Hc & _).
    assert (r' = r) as -> by congruence. unfold claimable in Hc. rewrite Hh in Hc. b2p. done.
  - left. simpl. rewrite update_where_lookup, Hr. simpl. unfold renew_matches. rewrite Hh.
    by rewrite (bool_decide_false (Held = Sending)), andb_false_r.
  - left. simpl. case_bool_decide; [done|]. by rewrite lookup_alter_ne.
  - left. simpl. case_bool_decide; [done|]. by rewrite lookup_delete_ne.
  - left. simpl. rewrite delete_where_lookup, Hr. simpl. unfold terminal_before. by rewrite Hh.
  - simpl. rewrite delete_where_lookup, Hr. simpl. unfold held_before. rewrite Hh. simpl.
    destruct (created_at r <? c) eqn:Hc; simpl; [|by left].
    destruct (rp id) eqn:Hrp; simpl; [by left|right]. b2p. eauto.
  - by left.
Qed.

(** A held message waits.  Whatever other processes do to the database, as
    long as nobody settles that row it is never claimed and never changes --
    unless a retention pass removed it because it was old and no review of it
    was pending any more. *)
Theorem held_waits_for_review id r s tr :
  outbox s !! id = Some r -> status r = Held ->
  Forall (fun o => settles id o = false) tr ->
  (outbox (run tr s) !! id = Some r /\
   forall tr1 o tr2, tr = tr1 ++ o :: tr2 -> id ∉ claimed_ids o (run tr1 s)) \/
  Exists (fun o => exists rp c, o = OPruneHeld rp c /\ rp id = false /\ created_at r < c) tr.
Proof.
  intros Hr Hh. revert s Hr. induction tr as [|o tr IH]; intros s Hr Htr; simpl.
  { left. split; [done|]. by intros [|]. }
  apply Forall_cons in Htr as [Ho Htr].
  destruct (held_step id r s o Hr Hh Ho) as [Hr'|(rp & c & H)]; [|right; left; eauto].
  destruct (IH _ Hr' Htr) as [[Hend Hcl]|Hex]; [left|right; by right].
  split; [done|]. intros [|o' tr1] o1 tr2 Heq; simplify_list_eq; [|by eapply Hcl].
  intros Hin. destruct o1; try (by apply not_elem_of_nil in Hin).
  simpl in Hin. apply select_due_claimable in Hin as (r0 & Hr0 & Hc & _).
  assert (r0 = r) as -> by congruence. unfold claimable in Hc. rewrite Hh in Hc. b2p. done.
Qed.

Lemma held_waits_for_review_witness :
  let r := mkRow "t" "{}" Held 0 0 "" 1 1 None None in
  let s := mkDB {["m" := r]} ∅ in
  let tr := [OClaim ∅ "a" 200 100 500; OPruneHeld (fun _ => true) 1000; OPruneTerminal 1000] in
  outbox (run tr s) !! "m" = Some r.
Proof.
  intros r s tr.
  destruct (held_waits_for_review "m" r s tr) as [[H _]|H]; [done|done|repeat constructor|done|].
  exfalso. unfold tr in H. rewrite !Exists_cons, Exists_nil in H.
  destruct H as [(?&?&?&?)|[(?&?&?&?&?)|[(?&?&?&?)|?]]]; simplify_eq/=; try done.
Defined.

Lemma ReleaseHeld_cases f1 f2 mid now now' tenant id s s' woken res :
  ReleaseHeld f1 f2 mid now now' tenant id s = (s', woken, res) ->
  (s' = s /\ woken = false) \/
  (exists r, outbox s !! id = Some r /\ tenant_id r = tenant /\ status r = Held /\
     (s' = mid s \/
      s' = update_stmt (with_status Pending now now' (scan_row id "" r)) (mid s)) /\
     (res = Ok tt -> woken = true /\
        s' = update_stmt (with_status Pending now now' (scan_row id "" r)) (mid s))).
Proof.
  unfold ReleaseHeld, GetByID, exec. intros H.
  destruct f1; simplify_eq/=; try (by left).
  destruct (outbox s !! id) as [r|] eqn:Hr; simplify_eq/=; [|by left].
  repeat case_bool_decide; simplify_eq/=; try (by left).
  right. exists r. split_and!; try done; destruct f2; simplify_eq/=; eauto; done.
Qed.

(** A release that succeeds on a held row leaves it pending and due. *)
Lemma ReleaseHeld_ok f1 f2 now now' tenant id s s' woken r :
  ReleaseHeld f1 f2 (fun s => s) now now' tenant id s = (s', woken, Ok tt) ->
  outbox s !! id = Some r -> status r = Held ->
  exists r', outbox s' !! id = Some r' /\ status r' = Pending /\ request r' = request r /\
    claimable now r' = true /\ woken = true.
Proof.
  intros H Hr Hh. pose proof H as H0.
  apply ReleaseHeld_cases in H as [[-> ->]|(r1 & Hr1 & Ht & Hs & _ & Hok)].
  - exfalso. unfold ReleaseHeld, GetByID, exec in H0. destruct f1; simplify_eq/=. rewrite Hr in H0. simpl in H0.
    destruct (bool_decide (tenant_id r = tenant)); [|done].
    rewrite Hh in H0. rewrite bool_decide_true in H0 by done. destruct f2; simplify_eq/=.
  - destruct (Hok eq_refl) as [-> ->]. assert (r1 = r) as -> by congruence.
    simpl. rewrite lookup_alter_eq, Hr. simpl.
    exists (update_row (with_status Pending now now' (scan_row id "" r)) r).
    split_and!; try done; unfold claimable; simpl; by rewrite ?Z.leb_refl.
Qed.

(** Releasing held mail is scoped and idempotent: on any outcome, rows of
    other messages are untouched, a message of another tenant or one that is
    not HELD is left exactly as it was, and a release that reports success on a
    held row leaves it PENDING and due at once, so the next claim can take it. *)
Theorem release_held_scoped f1 f2 now now' tenant id s s' woken res :
  ReleaseHeld f1 f2 (fun s => s) now now' tenant id s = (s', woken, res) ->
  (forall id', id' <> id -> outbox s' !! id' = outbox s !! id') /\
  (forall r, outbox s !! id = Some r -> tenant_id r <> tenant \/ status r <> Held -> s' = s) /\
  (forall r, outbox s !! id = Some r -> tenant_id r <> tenant -> f1 = Up -> res = Err (errForeign id)) /\
  (forall r, outbox s !! id = Some r -> status r = Held -> res = Ok tt ->
     exists r', outbox s' !! id = Some r' /\ status r' = Pending /\ request r' = request r /\
       claimable now r' = true /\ woken = true).
Proof.
  intros H. split_and!.
  4: { intros r Hr Hh ->. by eapply ReleaseHeld_ok. }
  all: pose proof H as H0; apply ReleaseHeld_cases in H as [[-> ->]|(r & Hr & Ht & Hs & Hor & Hok)].
  - done.
  - intros id' Hne. destruct Hor as [->| ->]; [done|]. simpl. by rewrite lookup_alter_ne.
  - done.
  - intros r' Hr' [Hne|Hne]; exfalso; congruence.
  - intros r Hr Hne ->. unfold ReleaseHeld, GetByID, exec in H0. simpl in H0. rewrite Hr in H0.
    simpl in H0. rewrite bool_decide_false in H0 by done. simpl in H0. congruence.
  - intros r' Hr' Hne. exfalso. congruence.
Qed.

Lemma release_held_scoped_witness :
  let r := mkRow "t" "{}" Held 0 0 "" 1 1 None None in
  let s := mkDB {["m" := r]} ∅ in
  exists r', outbox (ReleaseHeld Up Up (fun s => s) 7 8 "t" "m" s).1.1 !! "m" = Some r'
             /\ status r' = Pending.
Proof.
  intros r s.
  destruct (release_held_scoped Up Up 7 8 "t" "m" s
    (ReleaseHeld Up Up (fun s => s) 7 8 "t" "m" s).1.1 true (Ok tt) ltac:(vm_compute; reflexivity))
    as (_ & _ & _ & H).
  destruct (H r) as (r' & H1 & H2 & _); [done|done|done|]. by exists r'.
Defined.

(** ** Idempotency keys *)

Lemma create_with_key_cases f e k liveSince s s' res :
  CreateWithIdempotencyKey f e k liveSince s = (s', res) ->
  (s' = s /\ res <> Ok tt) \/
  (select_key (K_TenantID k) (K_Key k) liveSince s = None /\ outbox s !! ID e = None /\
   outbox s' = <[ID e := row_of e]> (outbox s) /\
   send_idempotency_keys s' = <[(K_TenantID k, K_Key k) := k]> (send_idempotency_keys s)).
Proof.
  unfold CreateWithIdempotencyKey, exec, create_with_key_tx, insert_key, delete_expired_key,
    select_key, insert_outbox. intros H.
  destruct f as [| | |]; simplify_eq/=; try (by left).
  all: destruct (send_idempotency_keys s !! (K_TenantID k, K_Key k)) as [k0|] eqn:Hk;
    [destruct (K_CreatedAt k0 <? liveSince) eqn:Hlive|]; simpl in *;
    rewrite ?lookup_delete_eq, ?Hk in H; simpl in H;
    destruct (outbox s !! ID e) eqn:He; simplify_eq/=; try (by left).
  all: right; rewrite ?insert_delete_eq; split_and!; try done; b2p.
  all: by rewrite (proj2 (Z.leb_gt _ _)).
Qed.

(** An idempotency key and its message are written together or not at all,
    whatever fails: the call either changes nothing, or adds exactly the
    message's row and the key, and only when the tenant had no live use of that
    key and no message of that id.  Success means they were written. *)
Theorem idempotency_key_atomic f e k liveSince s s' res :
  CreateWithIdempotencyKey f e k liveSince s = (s', res) ->
  (s' = s /\ res <> Ok tt) \/
  (select_key (K_TenantID k) (K_Key k) liveSince s = None /\ outbox s !! ID e = None /\
   outbox s' = <[ID e := row_of e]> (outbox s) /\
   send_idempotency_keys s' = <[(K_TenantID k, K_Key k) := k]> (send_idempotency_keys s)).
Proof. apply create_with_key_cases. Qed.

Lemma idempotency_key_atomic_witness :
  let e := mkOutboxEmail "m" "t" "{}" Pending 0 5 "" 5 5 "" in
  let k := mkIdempotencyKey "t" "key" "hash" "m" 5 in
  let s' := (CreateWithIdempotencyKey Up e k 0 (mkDB ∅ ∅)).1 in
  outbox s' = {["m" := row_of e]} /\ send_idempotency_keys s' = {[("t", "key") := k]}.
Proof.
  intros e k s'.
  assert (CreateWithIdempotencyKey Up e k 0 (mkDB ∅ ∅) = (s', Ok tt)) as Hc
    by (rewrite surjective_pairing; f_equal; vm_compute; reflexivity).
  destruct (idempotency_key_atomic Up e k 0 (mkDB ∅ ∅) s' (Ok tt) Hc)
    as [[_ []]|(_ & _ & H1 & H2)]; done.
Defined.

(** Statements that leave a key created at [c] alive: pruning and reuse look
    only further back than [c]. *)
Definition key_respects (tenant key : string) (c : Z) (o : op) : Prop :=
  match o with
  | OCreateKey _ k live => K_TenantID k = tenant -> K_Key k = key -> live <= c
  | OPruneKeys cutoff => cutoff <= c
  | _ => True
  end.

Lemma key_step tenant key k s o :
  send_idempotency_keys s !! (tenant, key) = Some k ->
  key_respects tenant key (K_CreatedAt k) o ->
  send_idempotency_keys (step o s) !! (tenant, key) = Some k.
Proof.
  intros Hk Hr. destruct o as [e|e k' live| | | | | | |cutoff]; simpl in *; try done.
  - unfold insert_outbox. by destruct (outbox s !! ID e).
  - unfold create_with_key_tx, insert_key, delete_expired_key.
    destruct (decide ((K_TenantID k', K_Key k') = (tenant, key))) as [Heq|Hne].
    + rewrite Heq, Hk. injection Heq as Ht Hkey.
      rewrite (proj2 (Z.ltb_ge _ _)) by auto. rewrite Hk. done.
    + unfold insert_outbox. go_cases; simpl;
        rewrite ?lookup_insert_ne, ?lookup_delete_ne by done; done.
  - by apply map_lookup_filter_Some.
Qed.

Lemma key_run tenant key k tr s :
  send_idempotency_keys s !! (tenant, key) = Some k ->
  Forall (key_respects tenant key (K_CreatedAt k)) tr ->
  send_idempotency_keys (run tr s) !! (tenant, key) = Some k.
Proof.
  revert s. induction tr as [|o tr IH]; intros s Hk Htr; simpl; [done|].
  apply Forall_cons in Htr as [Ho Htr]. apply IH; [|done]. by apply key_step.
Qed.

(** An accepted key stays in force for its window.  From the moment a key
    is stored, and through any interleaving of sends and prunes that look no
    further back than its creation, every later use of it by that tenant is
    refused without queueing anything, and reading it returns the message it
    was first accepted for. *)
Theorem idempotency_key_window f e k k' liveSince tr s s0 :
  CreateWithIdempotencyKey f e k liveSince s = (s0, Ok tt) ->
  Forall (key_respects (K_TenantID k) (K_Key k) (K_CreatedAt k)) tr ->
  K_TenantID k' = K_TenantID k -> K_Key k' = K_Key k ->
  forall f' e' live', live' <= K_CreatedAt k ->
  GetIdempotencyKey Up (K_TenantID k) (K_Key k) live' (run tr s0) = Ok (Some k) /\
  (CreateWithIdempotencyKey f' e' k' live' (run tr s0)).1 = run tr s0 /\
  CreateWithIdempotencyKey Up e' k' live' (run tr s0) = (run tr s0, Err ErrIdempotencyKeyTaken).
Proof.
  intros Hc Htr Ht Hk f' e' live' Hlive.
  assert (send_idempotency_keys (run tr s0) !! (K_TenantID k, K_Key k) = Some k) as Hs.
  { apply key_run; [|done].
    apply create_with_key_cases in Hc as [[_ []]|(_ & _ & _ & ->)]; [done|].
    by rewrite lookup_insert_eq. }
  assert (create_with_key_tx e' k' live' (run tr s0) = Err ErrIdempotencyKeyTaken) as Htx.
  { unfold create_with_key_tx, insert_key, delete_expired_key. rewrite Ht, Hk, Hs.
    rewrite (proj2 (Z.ltb_ge _ _)) by done. by rewrite Hs. }
  unfold GetIdempotencyKey, CreateWithIdempotencyKey, exec, select_key. simpl.
  rewrite Htx, Hs, (proj2 (Z.leb_le _ _)) by done.
  split_and!; [done| |done]. by destruct f'.
Qed.

Lemma idempotency_key_window_witness :
  let e := mkOutboxEmail "m" "t" "{}" Pending 0 5 "" 5 5 "" in
  let e' := mkOutboxEmail "m2" "t" "{}" Pending 0 9 "" 9 9 "" in
  let k := mkIdempotencyKey "t" "key" "hash" "m" 5 in
  let k' := mkIdempotencyKey "t" "key" "hash2" "m2" 9 in
  let s0 := (CreateWithIdempotencyKey Up e k 0 (mkDB ∅ ∅)).1 in
  CreateWithIdempotencyKey Up e' k' 4 (run [OPruneKeys 3] s0)
    = (run [OPruneKeys 3] s0, Err ErrIdempotencyKeyTaken).
Proof.
  intros e e' k k' s0.
  assert (CreateWithIdempotencyKey Up e k 0 (mkDB ∅ ∅) = (s0, Ok tt)) as Hc
    by (rewrite surjective_pairing; f_equal; vm_compute; reflexivity).
  eapply (idempotency_key_window Up e k k' 0 [OPruneKeys 3] (mkDB ∅ ∅) s0 Hc
            ltac:(repeat constructor; simpl; lia) eq_refl eq_refl Up e' 4 ltac:(simpl; lia)).
Defined.

(** What a committed send with a key leaves behind. *)
Lemma create_with_key_ok e k live s s' u :
  create_with_key_tx e k live s = Ok (s', u) ->
  outbox s' !! ID e = Some (row_of e) /\
  send_idempotency_keys s' !! (K_TenantID k, K_Key k) = Some k.
Proof.
  unfold create_with_key_tx, insert_key.
  destruct (send_idempotency_keys _ !! _) eqn:Ek; [done|]. simpl.
  unfold insert_outbox, set_keys, set_outbox. simpl.
  destruct (outbox _ !! ID e) eqn:Eo; [done|]. intros; simplify_eq. simpl.
  by rewrite !lookup_insert_eq.
Qed.

(** A call that reports success ran its statements and committed. *)
Lemma exec_ok {S A} f (stmt : S -> result string (S * A)) s s' a :
  exec f stmt s = (s', Ok a) -> f = Up /\ stmt s = Ok (s', a).
Proof. unfold exec. destruct f; try done; destruct (stmt s) as [[s1 a1]|]; intros; by simplify_eq. Qed.

(** One that reports an error changed nothing, unless its answer was lost. *)
Lemma exec_err {S A} f (stmt : S -> result string (S * A)) s s' e :
  exec f stmt s = (s', Err e) -> (forall x, f <> Lost x) -> s' = s.
Proof.
  unfold exec. intros H Hl. destruct f as [| | |x]; [|by simplify_eq..|by destruct (Hl x)].
  destruct (stmt s) as [[s1 a1]|]; by simplify_eq.
Qed.

End Outbox.
