(* ===== verification/Admission.v ===== *)
(** * Admission: what a send request may carry

    Models the checks a send passes before it is queued, in
    [internal/email/usecases]: recipients.go, attachments.go,
    reply_headers.go, the key check of send_idempotency.go, and
    filter_projection.go.  Parsing an address is the mail library's
    ([gsmail.ParseEmailAddress]), a parameter of the model. *)
From S2P Require Import Prelude GoStrings.
From Stdlib Require Import Ascii.

Module Admission.
Import GoStrings.
Local Open Scope Z_scope.

(** ** The request *)

Record Attachment := mkAttachment {
  Filename : string;
  ContentType : string;
  ContentId : string;
  Content : string
}.

(** The fields of [panmailv1.SendEmailRequest] the send path reads. *)
Record SendEmailRequest := mkRequest {
  From_ : string;
  To : list string;
  Cc : list string;
  Bcc : list string;
  ProviderId : string;
  Subject : string;
  TemplateId : string;
  TemplateData : string;
  BodyHtml : string;
  BodyText : string;
  Body : string;
  IsHtml : bool;
  Attachments : list (option Attachment);
  IdempotencyKey : string;
  ReplyTo : string;
  InReplyTo : string;
  References : list string;
  DispositionNotificationTo : string;
  SaveSentCopy : bool
}.

Definition strlen (s : string) : Z := Z.of_nat (String.length s).

(** ** Recipients (recipients.go) *)

Definition normal (address : string) : string := ToLower (TrimSpace address).

Fixpoint uniqueFrom (seen : gset string) (l : list string) : list string :=
  match l with
  | [] => []
  | address :: rest =>
      let a := normal address in
      if bool_decide (a = ""%string) then uniqueFrom seen rest
      else if bool_decide (a ∈ seen) then uniqueFrom seen rest
      else a :: uniqueFrom ({[a]} ∪ seen) rest
  end.

Definition uniqueRecipients (lists : list (list string)) : list string :=
  uniqueFrom ∅ (concat lists).

Inductive recipientError :=
| EmptyRecipient
| InvalidRecipient (address : string) (cause : string).

Record resolvedRecipients := mkResolved {
  addresses : list string;
  normalised : list string
}.

Section Parse.
(** [gsmail.ParseEmailAddress]: the addr-spec of an address, or why it is not
    one. *)
Context (ParseEmailAddress : string -> result string string).

Definition keyFromParsed (lowered : string) (parsed : option string) : string :=
  match parsed with
  | Some a => ToLower (TrimSpace a)
  | None => lowered
  end.

Definition suppressionKeyOf (address : string) : string :=
  keyFromParsed (ToLower (TrimSpace address))
    (match ParseEmailAddress address with Ok a => Some a | Err _ => None end).

Fixpoint resolveFrom (seen : gset string) (l : list string) :
    result recipientError (list (string * string)) :=
  match l with
  | [] => Ok []
  | address :: rest =>
      let trimmed := TrimSpace address in
      if bool_decide (trimmed = ""%string) then Err EmptyRecipient
      else
        match ParseEmailAddress address with
        | Err e => Err (InvalidRecipient address e)
        | Ok parsed =>
            let key := ToLower trimmed in
            if bool_decide (key ∈ seen) then resolveFrom seen rest
            else
              match resolveFrom ({[key]} ∪ seen) rest with
              | Ok out => Ok ((key, keyFromParsed key (Some parsed)) :: out)
              | Err e => Err e
              end
        end
  end.

Definition resolveRecipients (lists : list (list string)) :
    result recipientError resolvedRecipients :=
  match resolveFrom ∅ (concat lists) with
  | Ok out => Ok (mkResolved (map fst out) (map snd out))
  | Err e => Err e
  end.
End Parse.

(** ** Attachments (attachments.go) *)

Definition MaxAttachmentBytes : Z := Z.shiftl 25 20.
Definition MaxAttachments : Z := 100.
Definition MaxMessageIDLength : Z := 255.
Definition MaxReferences : Z := 100.
Definition maxReferencesLineBytes : Z := 900.
Definition MaxIdempotencyKeyLength : Z := 255.

(** Bytes of a header token: printable ASCII, no space, no angle bracket. *)
Definition token_char (c : ascii) : bool :=
  negb ((code c <=? 32) || (126 <? code c) ||
        bool_decide (c = "<"%char) || bool_decide (c = ">"%char)).

(** What is wrong with an identifier. *)
Inductive problem :=
| TooLong (n : Z)
| NotBracketed
| BadCharacter
| NotLeftRight.

Definition contentIDProblem (id : string) : option problem :=
  if bool_decide (id = ""%string) then None
  else if MaxMessageIDLength <? strlen id then Some (TooLong (strlen id))
  else if str_all token_char id then None
  else Some BadCharacter.

Inductive attachmentError :=
| TooManyAttachments (n : Z)
| BadContentID (filename : string) (p : problem)
| AttachmentsTooLarge.

(** The loop over the attachments; [total] is an [int], wide enough that the
    sum of lengths of one request cannot wrap. *)
Fixpoint sumAttachments (total : Z) (l : list (option Attachment)) : result attachmentError unit :=
  match l with
  | [] => Ok tt
  | None :: rest => sumAttachments total rest
  | Some a :: rest =>
      match contentIDProblem (ContentId a) with
      | Some p => Err (BadContentID (Filename a) p)
      | None =>
          let total' := total + strlen (Content a) in
          if MaxAttachmentBytes <? total' then Err AttachmentsTooLarge
          else sumAttachments total' rest
      end
  end.

Definition validateAttachments (req : SendEmailRequest) : result attachmentError unit :=
  let n := Z.of_nat (length (Attachments req)) in
  if n =? 0 then Ok tt
  else if MaxAttachments <? n then Err (TooManyAttachments n)
  else sumAttachments 0 (Attachments req).

(** ** Reply headers (reply_headers.go) *)

(** [s] without its first and last byte, when it has at least two. *)
Definition inner (s : string) : string := String.substring 1 (String.length s - 2) s.

Fixpoint last_char (s : string) : option ascii :=
  match s with
  | EmptyString => None
  | String c EmptyString => Some c
  | String _ r => last_char r
  end.

(** [strings.IndexByte(s, '@')] is positive and not the last byte. *)
Definition has_inner_at (s : string) : bool :=
  match Cut s "@" with
  | Some (a, b) => negb (bool_decide (a = ""%string)) && negb (bool_decide (b = ""%string))
  | None => false
  end.

Definition messageIDProblem (id : string) : option problem :=
  if MaxMessageIDLength <? strlen id then Some (TooLong (strlen id))
  else if (strlen id <? 5) || negb (HasPrefix id "<")
          || negb (bool_decide (last_char id = Some ">"%char))
  then Some NotBracketed
  else if negb (str_all token_char (inner id)) then Some BadCharacter
  else if negb (has_inner_at (inner id)) then Some NotLeftRight
  else None.

Inductive replyHeaderError :=
| BadReplyTo (cause : string)
| BadDispositionNotificationTo (cause : string)
| BadInReplyTo (p : problem)
| TooManyReferences (n : Z)
| BadReferences (p : problem).

Fixpoint first_problem (ids : list string) : option problem :=
  match ids with
  | [] => None
  | id :: rest =>
      match messageIDProblem id with
      | Some p => Some p
      | None => first_problem rest
      end
  end.

Definition validateReplyHeaders (ParseEmailAddress : string -> result string string)
    (req : SendEmailRequest) : result replyHeaderError unit :=
  let address (s : string) (e : string -> replyHeaderError) : result replyHeaderError unit :=
    if bool_decide (s = ""%string) then Ok tt
    else match ParseEmailAddress s with Ok _ => Ok tt | Err c => Err (e c) end in
  (let? _ := address (ReplyTo req) BadReplyTo in
   let? _ := address (DispositionNotificationTo req) BadDispositionNotificationTo in
   let? _ := if bool_decide (InReplyTo req = ""%string) then Ok tt
             else match messageIDProblem (InReplyTo req) with
                  | Some p => Err (BadInReplyTo p)
                  | None => Ok tt
                  end in
   let n := Z.of_nat (length (References req)) in
   if MaxReferences <? n then Err (TooManyReferences n)
   else match first_problem (References req) with
        | Some p => Err (BadReferences p)
        | None => Ok tt
        end)%go.

(** The loop of [referencesLine]: [rev] are the identifiers before [start], the
    nearest first, and [kept] those from [start] on. *)
Fixpoint keepRecent (size : Z) (rev kept : list string) : list string :=
  match rev with
  | [] => kept
  | id :: rest =>
      if size + 1 + strlen id <=? maxReferencesLineBytes
      then keepRecent (size + 1 + strlen id) rest (id :: kept)
      else kept
  end.

Definition referencesLine (ids : list string) : string :=
  match ids with
  | [] => ""%string
  | first :: rest =>
      let line := Join ids " " in
      if strlen line <=? maxReferencesLineBytes then line
      else Join (first :: keepRecent (strlen first) (reverse rest) []) " "
  end.

Definition headerInReplyTo : string := "In-Reply-To".
Definition headerReferences : string := "References".
Definition headerDispositionNotificationTo : string := "Disposition-Notification-To".

Definition set_header (name value : string) (h : gmap string string) : gmap string string :=
  if bool_decide (value = ""%string) then h else <[name := value]> h.

(** [applyReplyHeaders]: the Reply-To and the headers of an outgoing copy. *)
Definition applyReplyHeaders (req : SendEmailRequest) (headers : gmap string string) :
    string * gmap string string :=
  (ReplyTo req,
   set_header headerDispositionNotificationTo (DispositionNotificationTo req)
     (set_header headerReferences (referencesLine (References req))
        (set_header headerInReplyTo (InReplyTo req) headers))).

(** ** Idempotency keys (send_idempotency.go) *)

Definition IdempotencyKeyWindow : Z := 24 * Hour.

Inductive keyError :=
| KeyTooLong (n : Z)
| KeyNotPrintable.

Definition printable (c : ascii) : bool := (32 <=? code c) && (code c <=? 126).

Definition ValidateIdempotencyKey (key : string) : result keyError unit :=
  if MaxIdempotencyKeyLength <? strlen key then Err (KeyTooLong (strlen key))
  else if str_all printable key then Ok tt
  else Err KeyNotPrintable.

(** ** Projections for the filter (filter_projection.go) *)

Definition approximateSize (subject html text : string) (l : list (option Attachment)) : Z :=
  foldl (fun size a =>
           match a with
           | Some a => size + strlen (Content a) * 4 / 3 + strlen (Filename a)
           | None => size
           end)
    (strlen subject + strlen html + strlen text) l.

(** ** Recipients: admission and delivery see the same audience *)

Lemma normal_empty a : normal a = ""%string <-> TrimSpace a = ""%string.
Proof. apply ToLower_empty. Qed.

Lemma normal_idem a : normal (normal a) = normal a.
Proof. apply lower_trim_idem. Qed.

Lemma uniqueFrom_spec seen l :
  NoDup (uniqueFrom seen l) /\
  forall x, x ∈ uniqueFrom seen l <-> (x ∉ seen) /\ x <> ""%string /\ x ∈ (normal <$> l).
Proof.
  revert seen. induction l as [|a l IH]; intros seen; simpl.
  - split; [constructor|]. intros x. split; [intros H; by apply not_elem_of_nil in H|].
    intros (_ & _ & H). by apply not_elem_of_nil in H.
  - case_bool_decide as He; [|case_bool_decide as Hs].
    + destruct (IH seen) as [Hnd Hin]. split; [done|]. intros x. rewrite Hin, elem_of_cons.
      intuition congruence.
    + destruct (IH seen) as [Hnd Hin]. split; [done|]. intros x. rewrite Hin, elem_of_cons.
      intuition congruence.
    + destruct (IH ({[normal a]} ∪ seen)) as [Hnd Hin]. split.
      * constructor; [|done]. rewrite Hin. intros (H & _). apply H.
        by apply elem_of_union_l, elem_of_singleton_2.
      * intros x. rewrite !elem_of_cons, Hin.
        destruct (decide (x = normal a)) as [->|Hx]; [tauto|].
        rewrite not_elem_of_union, elem_of_singleton. tauto.
Qed.

Section ParseLemmas.
Context (parse : string -> result string string).

Lemma resolveFrom_addresses seen l out :
  resolveFrom parse seen l = Ok out -> map fst out = uniqueFrom seen l.
Proof.
  revert seen out. induction l as [|a l IH]; intros seen out H; simpl in H |- *.
  { by simplify_eq. }
  case_bool_decide as He; [done|].
  rewrite bool_decide_false by (by rewrite normal_empty). fold (normal a) in H.
  destruct (parse a) as [p|e]; [|done].
  case_bool_decide as Hs; [by apply IH|].
  destruct (resolveFrom parse ({[normal a]} ∪ seen) l) as [out'|e] eqn:E; [|done].
  simplify_eq/=. f_equal. by apply IH.
Qed.

(** Parsing is insensitive to letter case and surrounding space: the lowered,
    trimmed form of an address the library accepts parses to the same addr-spec
    up to case. *)
Definition parse_case_insensitive : Prop :=
  forall a p, parse a = Ok p -> exists p', parse (normal a) = Ok p' /\ normal p' = normal p.

Lemma resolveFrom_keys seen l out :
  parse_case_insensitive ->
  resolveFrom parse seen l = Ok out -> map snd out = map (suppressionKeyOf parse) (map fst out).
Proof.
  intros Hp. revert seen out. induction l as [|a l IH]; intros seen out H; simpl in H.
  { by simplify_eq. }
  case_bool_decide; [done|]. fold (normal a) in H.
  destruct (parse a) as [p|e] eqn:Ea; [|done].
  case_bool_decide; [by eapply IH|].
  destruct (resolveFrom parse ({[normal a]} ∪ seen) l) as [out'|e] eqn:E; [|done].
  simplify_eq/=. f_equal; [|by eapply IH].
  unfold suppressionKeyOf. destruct (Hp a p Ea) as (p' & -> & Hn). simpl.
  fold (normal p') (normal p). by rewrite Hn.
Qed.
End ParseLemmas.

(** Admission and delivery agree on a message's audience.  When admission
    accepts the lists, the addresses it resolved are exactly the recipients the
    delivery pass computes -- every non-blank entry once, lower-cased, in order,
    no duplicates -- and the suppression keys it looked up are exactly the ones
    delivery will look up, so the two cannot disagree about who is suppressed. *)
Theorem admission_agrees_with_delivery parse lists r :
  parse_case_insensitive parse ->
  resolveRecipients parse lists = Ok r ->
  addresses r = uniqueRecipients lists /\
  normalised r = map (suppressionKeyOf parse) (uniqueRecipients lists) /\
  NoDup (addresses r) /\
  (forall x, x ∈ addresses r <-> x <> ""%string /\ x ∈ (normal <$> concat lists)).
Proof.
  intros Hp H. unfold resolveRecipients in H.
  destruct (resolveFrom parse ∅ (concat lists)) as [out|e] eqn:E; simplify_eq/=.
  pose proof (resolveFrom_addresses _ _ _ _ E) as Ha.
  pose proof (resolveFrom_keys _ _ _ _ Hp E) as Hk.
  destruct (uniqueFrom_spec ∅ (concat lists)) as [Hnd Hin].
  rewrite Ha in Hk |- *. split_and!; [done|done|done|].
  intros x. rewrite Hin. pose proof (not_elem_of_empty (C:=gset string) x). tauto.
Qed.

(** A parser that knows one display-name form, for concrete inputs. *)
Definition demo_parse (s : string) : result string string :=
  if bool_decide (normal s = "bob <bob@x.com>"%string) then Ok "bob@x.com"%string else Ok s.

Lemma demo_parse_case_insensitive : parse_case_insensitive demo_parse.
Proof.
  intros a p. unfold demo_parse. rewrite normal_idem. case_bool_decide; intros; simplify_eq.
  - eauto.
  - exists (normal p). split; [done|]. apply normal_idem.
Qed.

Lemma admission_agrees_with_delivery_witness :
  let lists := [["Bob <Bob@X.com>"; " ann@x.com"]; ["ANN@x.com"]; []]%string in
  exists r, resolveRecipients demo_parse lists = Ok r /\ addresses r = uniqueRecipients lists /\
    addresses r = ["bob <bob@x.com>"; "ann@x.com"]%string /\
    normalised r = ["bob@x.com"; "ann@x.com"]%string.
Proof.
  intros lists. eexists. split; [vm_compute; reflexivity|].
  split; [|split; reflexivity].
  apply (admission_agrees_with_delivery demo_parse lists); [apply demo_parse_case_insensitive|].
  vm_compute. reflexivity.
Defined.

(** One mailbox named with and without a display name is two recipients: the
    entries are compared as written, not by the address they parse to. *)
Example display_name_duplicate :
  exists r, resolveRecipients demo_parse [["Bob <bob@x.com>"]; ["bob@x.com"]; []]%string = Ok r /\
    addresses r = ["bob <bob@x.com>"; "bob@x.com"]%string /\
    normalised r = ["bob@x.com"; "bob@x.com"]%string.
Proof. eexists. split; [vm_compute; reflexivity|]. done. Qed.

(** ** Attachments *)

Definition content_ids_ok (l : list (option Attachment)) : Prop :=
  Forall (fun a => match a with Some a => contentIDProblem (ContentId a) = None | None => True end) l.

Fixpoint total_bytes (l : list (option Attachment)) : Z :=
  match l with
  | [] => 0
  | None :: rest => total_bytes rest
  | Some a :: rest => strlen (Content a) + total_bytes rest
  end.

Lemma total_bytes_nonneg l : 0 <= total_bytes l.
Proof. induction l as [|[a|] l IH]; simpl; unfold strlen; lia. Qed.

Lemma sumAttachments_spec t l :
  t <= MaxAttachmentBytes ->
  sumAttachments t l = Ok tt <-> content_ids_ok l /\ t + total_bytes l <= MaxAttachmentBytes.
Proof.
  unfold content_ids_ok. revert t. induction l as [|[a|] l IH]; intros t Ht; simpl.
  - split; [intros _; split; [constructor|lia]|done].
  - rewrite Forall_cons. pose proof (total_bytes_nonneg l).
    destruct (contentIDProblem (ContentId a)); [split; [done|]; intros [[? _] _]; done|].
    destruct (MaxAttachmentBytes <? t + strlen (Content a)) eqn:E; b2p.
    + split; [done|]. intros [_ ?]. lia.
    + rewrite IH by lia. rewrite Z.add_assoc. tauto.
  - rewrite Forall_cons, IH by done. tauto.
Qed.

(** A message passes the attachment check exactly when it has at most 100
    attachments, every Content-ID it names is one printable token of at most
    255 bytes, and the contents total at most 25 MiB; the early exits of the
    loop change nothing. *)
Theorem attachments_checked req :
  validateAttachments req = Ok tt <->
  Z.of_nat (length (Attachments req)) <= MaxAttachments /\
  content_ids_ok (Attachments req) /\ total_bytes (Attachments req) <= MaxAttachmentBytes.
Proof.
  unfold validateAttachments. destruct (Z.of_nat (length (Attachments req)) =? 0) eqn:E; b2p.
  - destruct (Attachments req); [|simpl in E; lia]. split; [intros _|done].
    split_and!; [done|constructor|done].
  - destruct (MaxAttachments <? _) eqn:E2; b2p.
    + split; [done|]. intros [? _]. lia.
    + rewrite sumAttachments_spec by done. simpl. tauto.
Qed.

(** ** Reply headers *)

Lemma strlen_app a b : strlen (a +:+ b) = strlen a + strlen b.
Proof. unfold strlen. induction a as [|c a IH]; simpl; lia. Qed.

Lemma Join_cons a b l sep : Join (a :: b :: l) sep = (a +:+ sep +:+ Join (b :: l) sep)%string.
Proof. done. Qed.

(** Bytes of the identifiers in a list, each with the space before it. *)
Fixpoint spaced (l : list string) : Z :=
  match l with [] => 0 | a :: r => 1 + strlen a + spaced r end.

Lemma strlen_Join a l : strlen (Join (a :: l) " ") = strlen a + spaced l.
Proof.
  revert a. induction l as [|b l IH]; intros a; simpl spaced; [simpl; lia|].
  rewrite Join_cons, !strlen_app, IH. unfold strlen at 2. simpl. lia.
Qed.

Lemma keepRecent_spec size rev kept :
  size + spaced kept <= maxReferencesLineBytes ->
  exists l, keepRecent (size + spaced kept) rev kept = reverse l ++ kept /\ l `prefix_of` rev /\
    size + spaced (keepRecent (size + spaced kept) rev kept) <= maxReferencesLineBytes.
Proof.
  revert kept. induction rev as [|id rev IH]; intros kept Hk; simpl.
  { exists []. split_and!; [done|apply prefix_nil|done]. }
  destruct (_ <=? _) eqn:E; b2p.
  - replace (size + spaced kept + 1 + strlen id) with (size + spaced (id :: kept))
      by (simpl; lia).
    destruct (IH (id :: kept)) as (l & Hl & Hp & Hs); [simpl; lia|].
    exists (id :: l). split_and!; [|by apply prefix_cons|done].
    rewrite Hl, reverse_cons, <- app_assoc. done.
  - exists []. split_and!; [done|apply prefix_nil|done].
Qed.

Lemma first_problem_Forall ids :
  first_problem ids = None <-> Forall (fun id => messageIDProblem id = None) ids.
Proof.
  induction ids as [|id ids IH]; simpl; [split; [constructor|done]|].
  rewrite Forall_cons, <- IH. destruct (messageIDProblem id); intuition congruence.
Qed.

Lemma messageID_len id : messageIDProblem id = None -> strlen id <= MaxMessageIDLength.
Proof. unfold messageIDProblem. destruct (_ <? _) eqn:E; [done|]. intros _. b2p. lia. Qed.

(** The References header always fits its line and keeps the thread.  For
    any list of valid Message-IDs the value is at most 900 bytes; it starts
    with the thread's root, ends with its most recent identifiers in order, and
    only identifiers between them are left out. *)
Theorem references_line_fits first rest :
  Forall (fun id => messageIDProblem id = None) (first :: rest) ->
  strlen (referencesLine (first :: rest)) <= maxReferencesLineBytes /\
  exists dropped kept, rest = dropped ++ kept /\
    referencesLine (first :: rest) = Join (first :: kept) " ".
Proof.
  intros Hok. apply Forall_cons in Hok as [Hf _]. apply messageID_len in Hf.
  unfold referencesLine. destruct (_ <=? _) eqn:E; b2p.
  - split; [done|]. by exists [], rest.
  - destruct (keepRecent_spec (strlen first) (reverse rest) []) as (l & Hl & [k Hk] & Hs).
    { simpl. unfold MaxMessageIDLength, maxReferencesLineBytes in *. lia. }
    simpl in Hl, Hs. rewrite Z.add_0_r in Hl, Hs. rewrite app_nil_r in Hl.
    split; [by rewrite strlen_Join|].
    exists (reverse k), (reverse l). split; [|by rewrite Hl].
    rewrite <- reverse_app, <- Hk. by rewrite reverse_involutive.
Qed.

Lemma references_line_fits_witness :
  strlen (referencesLine ["<root@x.com>"; "<a@x.com>"; "<b@x.com>"]%string) <= maxReferencesLineBytes.
Proof.
  apply (references_line_fits "<root@x.com>" ["<a@x.com>"; "<b@x.com>"]%string).
  repeat constructor.
Defined.

(** A validated identifier is one printable token: it cannot break the header
    line it is written on. *)
Lemma contentID_token id : contentIDProblem id = None -> str_all token_char id = true.
Proof.
  unfold contentIDProblem. case_bool_decide; [by subst|].
  destruct (_ <? _); [done|]. by destruct (str_all token_char id).
Qed.

End Admission.
