(* ===== verification/QueueWorker.v ===== *)
(** * The outbox worker

    Models [internal/email/usecases/queue_worker.go] and
    [queue_worker_lease.go]: one delivery pass over a claimed message, from
    confirming the lease to settling the row; the retry schedule; and the
    periodic pruning.  The send itself ([SendEmail]) is an input here -- what it
    returned -- and is modelled in its own file. *)
From S2P Require Import Prelude GoStrings Duration Cache Outbox Classify Admission.

Module QueueWorker.
Import GoStrings Outbox Classify Admission.
Local Open Scope Z_scope.

Definition outboxBatchSize : nat := 500.
Definition bookkeepingAttempts : nat := 3.
Definition retryPatternTTL : Z := Minute.
Definition prunePeriod : Z := Hour.
Definition messageLease : Z := 2 * Minute.
Definition leaseRenewEvery : Z := messageLease / 3.

Definition defaultRetryPattern : list string :=
  ["5m"; "15m"; "30m"; "1h"; "3h"; "6h"; "12h"; "24h"]%string.

(** ** What a delivery pass reports (send_recipient_failures.go) *)

Record RecipientFailure := mkFailure {
  Recipient : string;
  Cause : string;
  Class_ : Classification
}.

Record RecipientFailuresError := mkFailures {
  Failures : list RecipientFailure;
  Delivered : Z
}.

Definition newline : string := String (Ascii.ascii_of_nat 10) "".

Definition failures_Error (rf : RecipientFailuresError) : string :=
  Join (map (fun f => "failed to deliver to " +:+ Recipient f +:+ ": " +:+ Cause f)%string (Failures rf))
    newline.

Definition filter_failures (retryable : bool) (rf : RecipientFailuresError) : list RecipientFailure :=
  filter (fun f => Retryable (Class_ f) = retryable) (Failures rf).
Definition Retryables := filter_failures true.
Definition Permanents := filter_failures false.

(** An error as the worker reads it: its text, and what [errors.As] finds in
    its chain. *)
Record SendError := mkSendError {
  Text : string;
  Paced : option Z;
  PerRecipient : option RecipientFailuresError;
  Permanent : bool
}.

Inductive SendOutcome :=
| Sent
| NoResult
| SendFailed (e : SendError).

(** Calls that leave the worker: an event recorded, an address suppressed.
    Their own failures are logged and change nothing here. *)
Inductive effect :=
| RecordEvent (tenant provider id : string) (ty : EmailEventType) (recipient subject err : string)
| Suppress (tenant email reason : string).

(** The write a pass ends with. *)
Inductive settlement :=
| SettleUpdate (e : OutboxEmail)
| SettleDelete (id : string)
| SettleNothing.

(** ** The retry schedule *)

Inductive delay :=
| NoRetry
| After (d : Z)
| IndexPanic.

Definition nextRetryDelay (c : Classification) (retryCount : Z) (pattern : list string) : delay :=
  if negb (Retryable c) || (Z.of_nat (length pattern) <? retryCount) then NoRetry
  else if retryCount <? 1 then IndexPanic
  else
    match nth_error pattern (Z.to_nat (retryCount - 1)) with
    | None => IndexPanic
    | Some p =>
        match Duration.ParseDuration p with
        | Some d => After d
        | None => After (wrap64 (wrap64 (retryCount * retryCount) * Minute))
        end
    end.

Definition String_of (t : EmailEventType) : string :=
  ("EMAIL_EVENT_TYPE_" +:+
   match t with
   | UNSPECIFIED => "UNSPECIFIED" | SENT => "SENT" | DELIVERED => "DELIVERED"
   | OPENED => "OPENED" | CLICKED => "CLICKED" | BOUNCED => "BOUNCED"
   | HARD_BOUNCE => "HARD_BOUNCE" | SOFT_BOUNCE => "SOFT_BOUNCE"
   | SPAM_REPORT => "SPAM_REPORT" | UNSUBSCRIBED => "UNSUBSCRIBED"
   | DROPPED => "DROPPED" | REJECTED => "REJECTED" | PENDING => "PENDING"
   | DEFERRED => "DEFERRED" | COMPLAINED => "COMPLAINED"
   end)%string.

Definition suppression_reason (t : EmailEventType) (err : string) : string :=
  ("Automatic suppression due to " +:+ String_of t +:+ ": " +:+ err)%string.

(** ** The worker's copy of a row, as a pass changes it *)

Definition touch (retries updated : Z) (err : string) (e : OutboxEmail) : OutboxEmail :=
  {| ID := ID e; TenantID := TenantID e; Request := Request e; Status := Status e;
     RetryCount := retries; NextRetryAt := NextRetryAt e; LastError := err;
     CreatedAt := CreatedAt e; UpdatedAt := updated; ClaimToken := ClaimToken e |}.

Definition deferred (next : Z) (e : OutboxEmail) : OutboxEmail :=
  with_status Deferred next (UpdatedAt e) e.
Definition failed (e : OutboxEmail) : OutboxEmail :=
  with_status Failed (NextRetryAt e) (UpdatedAt e) e.

Definition recordForEach (e : OutboxEmail) (req : SendEmailRequest) (recipients : list string)
    (ty : EmailEventType) : list effect :=
  map (fun r => RecordEvent (TenantID e) (ProviderId req) (ID e) ty r (Subject req) (LastError e))
    recipients.

Definition suppress (e : OutboxEmail) (recipients : list string) (ty : EmailEventType) : list effect :=
  map (fun r => Suppress (TenantID e) r (suppression_reason ty (LastError e))) recipients.

Definition recordRecipientFailure (e : OutboxEmail) (req : SendEmailRequest) (f : RecipientFailure) : effect :=
  RecordEvent (TenantID e) (ProviderId req) (ID e) (Type_ (Class_ f)) (Recipient f) (Subject req) (Cause f).

(** What is settled for one permanently failed recipient. *)
Definition permanent_effects (e : OutboxEmail) (req : SendEmailRequest) (f : RecipientFailure) : list effect :=
  recordRecipientFailure e req f ::
  (if bool_decide (Type_ (Class_ f) = UNSUBSCRIBED)
   then [Suppress (TenantID e) (Recipient f) (suppression_reason UNSUBSCRIBED (Cause f))]
   else []).

Definition unfinishedRecipients (finished : result string (gset string)) (recipients : list string) : list string :=
  match finished with
  | Err _ => recipients
  | Ok fin => filter (fun r => r ∉ fin) recipients
  end.

Section Worker.
(** The cache of retry patterns, through its interface. *)
Context {C : Type} `{!TTLCache.CacheSpec C (list string)}.
Context (retryPatternSource : option (list string)).
(** [tenantUsecase.GetTenantByID]: the tenant's own pattern. *)
Context (tenantRetryPattern : string -> result string (option (list string))).

Definition globalPattern : list string :=
  match retryPatternSource with
  | Some ((_ :: _) as p) => p
  | _ => defaultRetryPattern
  end.

Definition lookupPattern (tenant : string) : list string :=
  match tenantRetryPattern tenant with
  | Ok (Some ((_ :: _) as p)) => p
  | _ => globalPattern
  end.

(** [now] is the clock the cache reads. *)
Definition getRetryPattern (now : Z) (c : C) (tenant : string) : list string * C :=
  match TTLCache.cs_get c tenant now with
  | (Some p, c') => (p, c')
  | (None, c') =>
      let p := lookupPattern tenant in
      (p, TTLCache.cs_put c' tenant p now now)
  end.

Definition reschedulePaced (now : Z) (e : OutboxEmail) (after : Z) : settlement :=
  SettleUpdate (with_status Deferred (time_add now after) now e).

(** The rest of [handleRecipientFailures], once the permanent failures are
    recorded: whether the row stays for the retryable ones. *)
Definition handleRecipientFailures (now1 now2 : Z) (c : C) (e0 : OutboxEmail)
    (req : SendEmailRequest) (rf : RecipientFailuresError) : list effect * settlement * C :=
  let e := touch (RetryCount e0) now1 (failures_Error rf) e0 in
  let effs := flat_map (permanent_effects e req) (Permanents rf) in
  match Retryables rf with
  | [] =>
      if 0 <? Delivered rf then (effs, SettleDelete (ID e), c)
      else (effs, SettleUpdate (failed e), c)
  | (first :: _) as retry =>
      let retries := if Delivered rf =? 0 then RetryCount e + 1 else RetryCount e in
      let e := touch retries (UpdatedAt e) (LastError e) e in
      let '(pattern, c') := getRetryPattern now2 c (TenantID e) in
      match nextRetryDelay (Class_ first) (Z.max retries 1) pattern with
      | After d => (effs, SettleUpdate (deferred (time_add now2 d) e), c')
      | NoRetry => (effs ++ map (recordRecipientFailure e req) retry, SettleUpdate (failed e), c')
      | IndexPanic => (effs, SettleNothing, c')
      end
  end.

(** [finished] is what [FinishedRecipients] answered. *)
Definition handleFailure (now1 now2 : Z) (finished : result string (gset string)) (c : C)
    (e0 : OutboxEmail) (req : SendEmailRequest) (err : SendError) : list effect * settlement * C :=
  match Paced err with
  | Some after => ([], reschedulePaced now1 e0 after, c)
  | None =>
  match PerRecipient err with
  | Some rf => handleRecipientFailures now1 now2 c e0 req rf
  | None =>
      let e := touch (RetryCount e0 + 1) now1 (Text err) e0 in
      let cl := ClassifyError (LastError e) in
      let cl := if Permanent err then mkClass REJECTED false false else cl in
      let recipients :=
        unfinishedRecipients finished (uniqueRecipients [To req; Cc req; Bcc req]) in
      let '(pattern, c') := getRetryPattern now2 c (TenantID e) in
      match nextRetryDelay cl (RetryCount e) pattern with
      | After d =>
          (recordForEach e req recipients DEFERRED, SettleUpdate (deferred (time_add now2 d) e), c')
      | NoRetry =>
          (recordForEach e req recipients (Type_ cl) ++
             (if bool_decide (Type_ cl = UNSUBSCRIBED) then suppress e recipients (Type_ cl) else []),
           SettleUpdate (failed e), c')
      | IndexPanic => ([], SettleNothing, c')
      end
  end
  end.

(** ** Bookkeeping: a write with its retries *)

Fixpoint bookkeep_loop {A} (n attempt : nat) (faults : nat -> fault)
    (write : fault -> DB -> DB * result string A) (s : DB) : DB :=
  match n with
  | O => s
  | S n' =>
      match write (faults attempt) s with
      | (s', Ok _) => s'
      | (s', Err _) => bookkeep_loop n' (S attempt) faults write s'
      end
  end.

Definition bookkeep {A} (faults : nat -> fault) (write : fault -> DB -> DB * result string A) (s : DB) : DB :=
  bookkeep_loop bookkeepingAttempts 0 faults write s.

Definition updateOutbox (faults : nat -> fault) (e : OutboxEmail) : DB -> DB :=
  bookkeep faults (fun f => Outbox.Update f e).
Definition deleteOutbox (faults : nat -> fault) (id : string) : DB -> DB :=
  bookkeep faults (fun f => Outbox.Delete f id).

Definition settle (faults : nat -> fault) (w : settlement) (s : DB) : DB :=
  match w with
  | SettleUpdate e => updateOutbox faults e s
  | SettleDelete id => deleteOutbox faults id s
  | SettleNothing => s
  end.

(** ** The lease (queue_worker_lease.go) *)

Context (lease : Z).

Definition renewLease (f : fault) (now : Z) (e : OutboxEmail) : DB -> DB * result string bool :=
  RenewClaim f (ID e) (ClaimToken e) (time_add now lease).

(** One tick of the renewal loop, with the statements other processes
    committed since the last one. *)
Record tick := mkTick {
  t_ops : list op;
  t_fault : fault;
  t_now : Z
}.

(** The renewal loop while the send runs.  It stops at the first renewal that
    finds the claim gone; a renewal that failed is tried again at the next
    tick. *)
Fixpoint keepLease (e : OutboxEmail) (ticks : list tick) (s : DB) : DB * bool :=
  match ticks with
  | [] => (s, false)
  | t :: rest =>
      match renewLease (t_fault t) (t_now t) e (run (t_ops t) s) with
      | (s', Ok false) => (run (flat_map t_ops rest) s', true)
      | (s', _) => keepLease e rest s'
      end
  end.

(** ** One pass *)

(** [protojson.Unmarshal]. *)
Context (Unmarshal : string -> result string SendEmailRequest).

(** What the environment answers during one pass. *)
Record Env := mkEnv {
  env_confirm : fault;                       (* the renewal that confirms the claim *)
  env_now : Z;
  env_send : SendOutcome;                    (* what SendEmail returned *)
  env_ticks : list tick;                     (* renewals while it ran *)
  env_gap : list op;                         (* others' statements before the settling write *)
  env_finished : result string (gset string);
  env_now1 : Z;
  env_now2 : Z;
  env_faults : nat -> fault                  (* the settling write's attempts *)
}.

Record Pass := mkPass {
  p_db : DB;
  p_effects : list effect;
  p_sent : bool;                             (* SendEmail was called *)
  p_settlement : settlement;
  p_cache : C
}.

Definition processEmail (env : Env) (c : C) (e : OutboxEmail) (s : DB) : Pass :=
  match renewLease (env_confirm env) (env_now env) e s with
  | (s1, Ok true) =>
      match Unmarshal (Request e) with
      | Err _ =>
          let s2 := run (env_gap env) s1 in
          mkPass (deleteOutbox (env_faults env) (ID e) s2) [] false (SettleDelete (ID e)) c
      | Ok req =>
          let '(s2, lost) := keepLease e (env_ticks env) s1 in
          if lost then mkPass s2 [] true SettleNothing c
          else
            let s3 := run (env_gap env) s2 in
            match env_send env with
            | Sent => mkPass (deleteOutbox (env_faults env) (ID e) s3) [] true (SettleDelete (ID e)) c
            | NoResult =>
                let '(effs, w, c') := handleFailure (env_now1 env) (env_now2 env) (env_finished env) c e req
                                        (mkSendError "send returned no result" None None false) in
                mkPass (settle (env_faults env) w s3) effs true w c'
            | SendFailed err =>
                let '(effs, w, c') := handleFailure (env_now1 env) (env_now2 env) (env_finished env) c e req err in
                mkPass (settle (env_faults env) w s3) effs true w c'
            end
      end
  | (s1, _) => mkPass s1 [] false SettleNothing c
  end.

(** [processPending]: claim a batch and run a pass over each message of it, in
    the order the passes are scheduled; the batch size is returned. *)
Fixpoint runPasses (envs : list Env) (es : list OutboxEmail) (c : C) (s : DB) : DB * C * list effect :=
  match envs, es with
  | env :: envs', e :: es' =>
      let p := processEmail env c e s in
      let '(s', c', effs) := runPasses envs' es' (p_cache p) (p_db p) in
      (s', c', p_effects p ++ effs)
  | _, _ => (s, c, [])
  end.

Definition processPending (f1 f2 : fault) (locked : gset string) (now : Z) (token : string)
    (envs : list Env) (c : C) (s : DB) : nat * DB * C * list effect :=
  match ClaimPending f1 f2 (fun s => s) locked outboxBatchSize lease now token s with
  | (s1, Err _) => (0%nat, s1, c, [])
  | (s1, Ok es) =>
      let '(s2, c', effs) := runPasses envs es c s1 in
      (length es, s2, c', effs)
  end.
End Worker.

(** ** Pruning *)

Record PruneState := mkPrune {
  lastPrune : Z;
  retention : Z
}.

Definition SetRetention (d : Z) (w : PruneState) : PruneState := mkPrune (lastPrune w) d.

(** [pruneIfDue]; [now] is the clock at each of its readings. *)
Definition pruneIfDue (f1 f2 : fault) (now : Z) (w : PruneState) (s : DB) : PruneState * DB :=
  if negb (time_is_zero (lastPrune w)) && (time_sub now (lastPrune w) <? prunePeriod) then (w, s)
  else
    let w' := mkPrune now (retention w) in
    let s1 := (PruneIdempotencyKeys f1 (time_add now (- IdempotencyKeyWindow)) s).1 in
    if retention w <=? 0 then (w', s1)
    else (w', (PruneTerminal f2 (time_add now (- retention w)) s1).1).

(** ** Bookkeeping writes settle *)

Definition lands (f : fault) : Prop := f = Up \/ exists e, f = Lost e.

Lemma update_row_idem e r : update_row e (update_row e r) = update_row e r.
Proof. done. Qed.

Lemma update_stmt_idem e s : update_stmt e (update_stmt e s) = update_stmt e s.
Proof.
  unfold update_stmt, set_outbox. simpl. f_equal. apply map_eq. intros id.
  destruct (decide (id = ID e)) as [->|Hne].
  - rewrite !lookup_alter_eq. by destruct (outbox s !! ID e).
  - by rewrite !lookup_alter_ne.
Qed.

Lemma delete_stmt_idem id s : delete_stmt id (delete_stmt id s) = delete_stmt id s.
Proof. unfold delete_stmt, set_outbox. simpl. by rewrite delete_delete_eq. Qed.

Section Bookkeep.
Context (stmt : DB -> DB) (Hidem : forall s, stmt (stmt s) = stmt s).

Definition write_of (f : fault) : DB -> DB * result string unit :=
  exec f (fun s => Ok (stmt s, tt)).

Lemma bookkeep_after n k faults s :
  bookkeep_loop n k faults write_of (stmt s) = stmt s.
Proof.
  revert k. induction n as [|n IH]; intros k; simpl; [done|].
  unfold write_of at 1, exec. destruct (faults k); rewrite ?Hidem; auto.
Qed.

Lemma bookkeep_lands n k faults s :
  (exists i, (k <= i < k + n)%nat /\ lands (faults i)) ->
  bookkeep_loop n k faults write_of s = stmt s.
Proof.
  revert k. induction n as [|n IH]; intros k (i & Hi & Hl); [lia|]. simpl.
  unfold write_of at 1, exec. destruct (faults k) eqn:Hk; [done| | |apply bookkeep_after].
  all: apply IH; exists i; split; [|done];
    destruct (decide (i = k)) as [->|]; [|lia];
    rewrite Hk in Hl; destruct Hl as [?|[? ?]]; done.
Qed.

Lemma bookkeep_either n k faults s :
  bookkeep_loop n k faults write_of s = s \/ bookkeep_loop n k faults write_of s = stmt s.
Proof.
  revert k. induction n as [|n IH]; intros k; simpl; [by left|].
  unfold write_of at 1 3, exec. destruct (faults k); auto.
  right. apply bookkeep_after.
Qed.
End Bookkeep.

(** The write that records an outcome survives a flaky database: if any one
    of the three attempts reaches the database -- even with its answer lost, so
    that the worker writes again -- the row ends exactly as one write leaves
    it, and if none does, the row is untouched for the lease to bring back. *)
Theorem bookkeeping_settles faults e id s :
  ((exists i, (i < bookkeepingAttempts)%nat /\ lands (faults i)) ->
     updateOutbox faults e s = update_stmt e s /\ deleteOutbox faults id s = delete_stmt id s) /\
  ((forall i, (i < bookkeepingAttempts)%nat -> ~ lands (faults i)) ->
     updateOutbox faults e s = s /\ deleteOutbox faults id s = s).
Proof.
  split.
  - intros (i & Hi & Hl). unfold updateOutbox, deleteOutbox, bookkeep. split.
    + apply (bookkeep_lands (update_stmt e) (update_stmt_idem e)). exists i. split; [lia|done].
    + apply (bookkeep_lands (delete_stmt id) (delete_stmt_idem id)). exists i. split; [lia|done].
  - intros H. unfold lands in H.
    assert (forall A (stmt : DB -> result string (DB * A)) i s', (i < bookkeepingAttempts)%nat ->
              (exec (faults i) stmt s').1 = s' /\ exists m, (exec (faults i) stmt s').2 = Err m) as Hx.
    { intros A stmt i s' Hi. specialize (H i Hi). unfold exec.
      destruct (faults i); [exfalso; tauto|eauto|eauto|exfalso; eauto]. }
    unfold updateOutbox, deleteOutbox, bookkeep, Update, Delete, bookkeepingAttempts in *. simpl.
    split; repeat (match goal with |- context [exec (faults ?i) ?st s] =>
      destruct (Hx _ st i s ltac:(lia)) as [? [? ?]]; destruct (exec (faults i) st s);
      simplify_eq/= end); done.
Qed.

Lemma settle_other_rows faults w s id :
  (forall e, w = SettleUpdate e -> ID e <> id) -> (forall i, w = SettleDelete i -> i <> id) ->
  outbox (settle faults w s) !! id = outbox s !! id.
Proof.
  intros Hu Hd. destruct w as [e|i|]; simpl; [| |done].
  - specialize (Hu e eq_refl). unfold updateOutbox, bookkeep.
    destruct (bookkeep_either (update_stmt e) (update_stmt_idem e) bookkeepingAttempts 0 faults s)
      as [E|E]; unfold write_of, Update in *; rewrite E; [done|]. simpl. by rewrite lookup_alter_ne.
  - specialize (Hd i eq_refl). unfold deleteOutbox, bookkeep.
    destruct (bookkeep_either (delete_stmt i) (delete_stmt_idem i) bookkeepingAttempts 0 faults s)
      as [E|E]; unfold write_of, Delete in *; rewrite E; [done|]. simpl. by rewrite lookup_delete_ne.
Qed.


(** ** A pass settles only its own message, and only under its own claim *)

Section Lemmas.
Context {C : Type} `{!TTLCache.CacheSpec C (list string)}.
Context (src : option (list string)) (tp : string -> result string (option (list string))).
Context (lease : Z) (Unmarshal : string -> result string SendEmailRequest).

(** The settlement names the message [id] and nothing else. *)
Definition about (id : string) (w : settlement) : Prop :=
  (forall e, w = SettleUpdate e -> ID e = id) /\ (forall i, w = SettleDelete i -> i = id).

Lemma handleFailure_about n1 n2 fin c e req err :
  about (ID e) (handleFailure src tp n1 n2 fin c e req err).1.2.
Proof.
  unfold handleFailure, handleRecipientFailures, reschedulePaced, about.
  split; intros ? Hw; go_cases; done.
Qed.

Lemma processEmail_about env c e s :
  about (ID e) (p_settlement (processEmail src tp lease Unmarshal env c e s)).
Proof.
  unfold processEmail.
  destruct (renewLease lease (env_confirm env) (env_now env) e s) as [s1 [[|]|]];
    try (split; intros; simplify_eq/=; done).
  destruct (Unmarshal (Request e)) as [req|]; [|split; intros; simplify_eq/=; done].
  destruct (keepLease lease e (env_ticks env) s1) as [s2 [|]]; [split; intros; simplify_eq/=; done|].
  destruct (env_send env) as [| |err]; [split; intros; simplify_eq/=; done| |].
  - pose proof (handleFailure_about (env_now1 env) (env_now2 env) (env_finished env) c e req
      (mkSendError "send returned no result" None None false)) as Hab.
    by destruct (handleFailure _ _ _ _ _ _ _ _ _) as [[? ?] ?].
  - pose proof (handleFailure_about (env_now1 env) (env_now2 env) (env_finished env) c e req err) as Hab.
    by destruct (handleFailure _ _ _ _ _ _ _ _ _) as [[? ?] ?].
Qed.

(** The deadline a tick's renewal leaves the lease at. *)
Definition deadline_after (t : tick) (u : Z) : Z :=
  match t_fault t with
  | Up | Lost _ => t_now t + lease
  | Down | Refused _ => u
  end.

(** While a pass runs, other processes leave its lease alone: between two
    renewals they do not settle the row and claim at no later time than the
    deadline in force. *)
Fixpoint undisturbed (e : OutboxEmail) (u : Z) (ticks : list tick) (gap : list op) : Prop :=
  match ticks with
  | [] => Forall (respects (ID e) (ClaimToken e) u) gap
  | t :: rest =>
      Forall (respects (ID e) (ClaimToken e) u) (t_ops t) /\
      undisturbed e (deadline_after t u) rest gap
  end.

(** The database a pass finds when it comes to write. *)
Definition before_settle (env : Env) (e : OutboxEmail) (s : DB) : DB :=
  run (env_gap env) (keepLease lease e (env_ticks env) (renewLease lease (env_confirm env) (env_now env) e s).1).1.

Lemma renewLease_leased f now e u s :
  leased (ID e) (ClaimToken e) u s ->
  match renewLease lease f now e s with
  | (s', Ok b) => b = true /\ leased (ID e) (ClaimToken e) (now + lease) s' /\ (f = Up)
  | (s', Err _) => leased (ID e) (ClaimToken e) (deadline_after (mkTick [] f now) u) s'
  end.
Proof.
  intros Hl. pose proof Hl as (r & Hr & Hs & Ht & Hu).
  assert (leased (ID e) (ClaimToken e) (now + lease)
            (renew_stmt (ID e) (ClaimToken e) (now + lease) s).1) as Hl'.
  { exists (renew_row (now + lease) r). simpl. rewrite update_where_lookup, Hr. simpl.
    unfold renew_matches. rewrite !bool_decide_true by done. done. }
  unfold renewLease, RenewClaim, exec, time_add, deadline_after.
  destruct f; simpl; try done. rewrite Hr. unfold renew_matches.
  rewrite !bool_decide_true by done. simpl. split_and!; done.
Qed.

Lemma keepLease_undisturbed e ticks gap u v s :
  u <= v -> leased (ID e) (ClaimToken e) v s -> undisturbed e u ticks gap ->
  (keepLease lease e ticks s).2 = false /\
  exists u', leased (ID e) (ClaimToken e) u' (run gap (keepLease lease e ticks s).1).
Proof.
  revert u v s. induction ticks as [|t ticks IH]; intros u v s Huv Hl Hund; simpl in *.
  - split; [done|]. destruct (leased_run _ _ _ _ _ _ Huv Hl Hund) as (u' & _ & ?). eauto.
  - destruct Hund as [Hops Hund].
    destruct (leased_run _ _ _ _ _ _ Huv Hl Hops) as (u1 & Hu1 & Hl1).
    pose proof (renewLease_leased (t_fault t) (t_now t) e u1 _ Hl1) as Hren.
    destruct (renewLease lease (t_fault t) (t_now t) e (run (t_ops t) s)) as [s' [b|m]].
    + destruct Hren as (-> & Hl2 & Hf).
      apply (IH (deadline_after t u) (t_now t + lease)); [|done|done].
      unfold deadline_after. rewrite Hf. lia.
    + apply (IH (deadline_after t u) (deadline_after (mkTick [] (t_fault t) (t_now t)) u1)); try done.
      unfold deadline_after. simpl. destruct (t_fault t); lia.
Qed.

Lemma processEmail_settle_eq env c e s :
  p_settlement (processEmail src tp lease Unmarshal env c e s) <> SettleNothing ->
  (renewLease lease (env_confirm env) (env_now env) e s).2 = Ok true /\
  (p_sent (processEmail src tp lease Unmarshal env c e s) = true ->
   p_db (processEmail src tp lease Unmarshal env c e s) =
   settle (env_faults env) (p_settlement (processEmail src tp lease Unmarshal env c e s))
     (before_settle env e s)).
Proof.
  unfold processEmail, before_settle.
  destruct (renewLease lease (env_confirm env) (env_now env) e s) as [s1 [[|]|]]; try done.
  destruct (Unmarshal (Request e)) as [req|]; [|done]. cbn [fst snd].
  destruct (keepLease lease e (env_ticks env) s1) as [s2 [|]]; [done|].
  destruct (env_send env);
    [|destruct (handleFailure _ _ _ _ _ _ _ _ _) as [[? ?] ?]..]; intros _; by split; [|intros _].
Qed.
End Lemmas.

(** A worker writes only what is its own.  A pass whose claim is not
    confirmed, or is found lost while the send runs, records nothing and leaves
    every row to its new owner.  A pass that settles its message changes that
    row alone -- and as long as other processes leave an unexpired lease alone,
    the row still carries this worker's claim when it writes. *)
Theorem worker_settles_own_message {C} `{!TTLCache.CacheSpec C (list string)}
    src tp lease Unmarshal env (c : C) e s :
  let p := processEmail src tp lease Unmarshal env c e s in
  let confirmed := renewLease lease (env_confirm env) (env_now env) e s in
  (confirmed.2 <> Ok true -> p = mkPass confirmed.1 [] false SettleNothing c) /\
  (forall req, confirmed.2 = Ok true -> Unmarshal (Request e) = Ok req ->
     (keepLease lease e (env_ticks env) confirmed.1).2 = true ->
     p = mkPass (keepLease lease e (env_ticks env) confirmed.1).1 [] true SettleNothing c) /\
  (p_settlement p <> SettleNothing -> p_sent p = true ->
     (forall id, id <> ID e -> outbox (p_db p) !! id = outbox (before_settle lease env e s) !! id) /\
     (undisturbed lease e (env_now env + lease) (env_ticks env) (env_gap env) ->
        exists u, leased (ID e) (ClaimToken e) u (before_settle lease env e s))).
Proof.
  intros p confirmed. split_and!.
  - intros Hne. unfold p, processEmail, confirmed in *.
    by destruct (renewLease lease (env_confirm env) (env_now env) e s) as [s1 [[|]|]].
  - intros req Hc Hu Hk. unfold p, processEmail. fold confirmed.
    unfold confirmed in *.
    destruct (renewLease lease (env_confirm env) (env_now env) e s) as [s1 r]. simpl in *. subst r.
    rewrite Hu. by destruct (keepLease lease e (env_ticks env) s1) as [s2 [|]].
  - intros Hw Hsent. pose proof (processEmail_about src tp lease Unmarshal env c e s) as [Hau Had].
    destruct (processEmail_settle_eq src tp lease Unmarshal env c e s Hw) as [Hc Hdb].
    split.
    + intros id Hne. unfold p. rewrite Hdb by done.
      apply settle_other_rows; intros x Hx; [rewrite (Hau _ Hx)|rewrite (Had _ Hx)]; done.
    + intros Hund. unfold before_settle. fold confirmed.
      assert (confirmed = (confirmed.1, Ok true)) as E by (rewrite <- Hc; apply surjective_pairing).
      unfold confirmed, renewLease in E. apply renew_true_leased in E.
      apply (keepLease_undisturbed lease e _ _ _ _ _ (Z.le_refl _) E Hund).
Qed.


(** ** Paced messages *)

(** Paced is not failed.  A message told to wait its turn keeps its retry
    count, its last error and its place in line, has no event recorded against
    anyone, and once the write lands is claimable exactly from its slot on. *)
Theorem paced_keeps_its_place {C} `{!TTLCache.CacheSpec C (list string)}
    src tp now1 now2 finished (c : C) e req err after faults s r :
  Paced err = Some after -> outbox s !! ID e = Some r ->
  retry_count r = RetryCount e -> last_error r = LastError e ->
  (exists i, (i < bookkeepingAttempts)%nat /\ lands (faults i)) ->
  let '(effs, w, c') := handleFailure src tp now1 now2 finished c e req err in
  effs = [] /\ c' = c /\
  exists r', outbox (settle faults w s) !! ID e = Some r' /\
    retry_count r' = retry_count r /\ last_error r' = last_error r /\
    created_at r' = created_at r /\
    forall now, claimable now r' = true <-> now1 + after <= now.
Proof.
  intros Hp Hr Hrc Hle (i & Hi & Hl). unfold handleFailure. rewrite Hp.
  split_and!; [done|done|]. unfold reschedulePaced, settle, updateOutbox, bookkeep.
  set (e' := with_status _ _ _ _).
  exists (update_row e' r). split_and!; try done.
  - rewrite (bookkeep_lands (update_stmt e') (update_stmt_idem e')) by (exists i; split; [lia|done]).
    simpl. by rewrite lookup_alter_eq, Hr.
  - intros now. unfold claimable. simpl. rewrite andb_true_r. apply Z.leb_le.
Qed.

(** ** Verdicts are per recipient *)

(** The effect is this failed recipient's own verdict. *)
Definition own_verdict (f : RecipientFailure) (eff : effect) : Prop :=
  match eff with
  | RecordEvent _ _ _ ty r _ err => r = Recipient f /\ ty = Type_ (Class_ f) /\ err = Cause f
  | Suppress _ r reason =>
      r = Recipient f /\ Type_ (Class_ f) = UNSUBSCRIBED /\ Retryable (Class_ f) = false /\
      reason = suppression_reason UNSUBSCRIBED (Cause f)
  end.

Lemma elem_of_Permanents rf f : f ∈ Permanents rf <-> f ∈ Failures rf /\ Retryable (Class_ f) = false.
Proof. unfold Permanents, filter_failures. rewrite list_elem_of_filter. tauto. Qed.

Lemma elem_of_Retryables rf f : f ∈ Retryables rf <-> f ∈ Failures rf /\ Retryable (Class_ f) = true.
Proof. unfold Retryables, filter_failures. rewrite list_elem_of_filter. tauto. Qed.

Lemma permanent_effects_own e req rf eff :
  eff ∈ flat_map (permanent_effects e req) (Permanents rf) ->
  exists f, f ∈ Permanents rf /\ own_verdict f eff.
Proof.
  intros Hin. apply list_elem_of_In, in_flat_map in Hin as (f & Hf & Hin).
  apply list_elem_of_In in Hf. exists f. split; [done|].
  apply elem_of_Permanents in Hf as [_ Hret].
  unfold permanent_effects in Hin. destruct Hin as [<-|Hin]; [done|].
  case_bool_decide; [|done]. destruct Hin as [<-|[]]. done.
Qed.

Lemma permanent_recorded e req rf f :
  f ∈ Permanents rf ->
  recordRecipientFailure e req f ∈ flat_map (permanent_effects e req) (Permanents rf).
Proof.
  intros Hf. apply list_elem_of_In, in_flat_map. exists f. split; [by apply list_elem_of_In|].
  left. done.
Qed.

(** What [handleRecipientFailures] returns, without its clocks and counters. *)
Lemma handleRecipientFailures_shape {C} `{!TTLCache.CacheSpec C (list string)}
    src tp now1 now2 (c : C) e0 req rf :
  exists e1 w, let '(effs, w', _) := handleRecipientFailures src tp now1 now2 c e0 req rf in
  w' = w /\ TenantID e1 = TenantID e0 /\ ID e1 = ID e0 /\
  ((w = SettleUpdate (failed e1) /\
    effs = flat_map (permanent_effects e1 req) (Permanents rf)
             ++ map (recordRecipientFailure e1 req) (Retryables rf)) \/
   ((w = SettleNothing \/ w = SettleDelete (ID e0) \/ exists t, w = SettleUpdate (deferred t e1)) /\
    (w = SettleDelete (ID e0) -> Retryables rf = []) /\
    effs = flat_map (permanent_effects e1 req) (Permanents rf))).
Proof.
  unfold handleRecipientFailures.
  destruct (Retryables rf) as [|f0 fs] eqn:Hr.
  - exists (touch (RetryCount e0) now1 (failures_Error rf) e0).
    destruct (0 <? Delivered rf); eexists; (split_and!; [reflexivity|done|done|]); [right|left].
    + split_and!; eauto.
    + split; [done|]. by rewrite app_nil_r.
  - destruct (getRetryPattern src tp now2 c _) as [pattern c'].
    set (e1 := touch _ _ _ (touch _ _ _ e0)).
    assert (flat_map (permanent_effects (touch (RetryCount e0) now1 (failures_Error rf) e0) req) (Permanents rf)
            = flat_map (permanent_effects e1 req) (Permanents rf)) as Heff by done.
    exists e1. destruct (nextRetryDelay _ _ _); eexists; (split_and!; [reflexivity|done|done|]);
      [left|right|right]; rewrite ?Heff; split_and!; try (by eauto);
      intros; simplify_eq.
Qed.

(** Each failed recipient gets its own verdict and nobody else's.  Every
    event and suppression of a partly failed pass names one failed recipient
    with that recipient's own outcome and error; every permanent failure is
    recorded; and a retryable one is recorded exactly when the message is out
    of attempts -- never while the row stays for another try. *)
Theorem verdicts_are_their_own {C} `{!TTLCache.CacheSpec C (list string)}
    src tp now1 now2 finished (c : C) e req err rf :
  Paced err = None -> PerRecipient err = Some rf -> NoDup (Recipient <$> Failures rf) ->
  let '(effs, w, _) := handleFailure src tp now1 now2 finished c e req err in
  (forall eff, eff ∈ effs -> exists f, f ∈ Failures rf /\ own_verdict f eff) /\
  (forall f, f ∈ Failures rf -> Retryable (Class_ f) = false ->
     exists eff, eff ∈ effs /\ own_verdict f eff) /\
  (forall f, f ∈ Failures rf -> Retryable (Class_ f) = true ->
     (exists eff, eff ∈ effs /\ own_verdict f eff) <->
     exists e', w = SettleUpdate e' /\ Status e' = Failed).
Proof.
  intros Hp Hrf Hnd. unfold handleFailure. rewrite Hp, Hrf.
  destruct (handleRecipientFailures_shape src tp now1 now2 c e req rf) as (e1 & w & Hshape).
  destruct (handleRecipientFailures src tp now1 now2 c e req rf) as [[effs w'] c'].
  destruct Hshape as (-> & _ & _ & Hshape).
  assert (forall f g eff, f ∈ Failures rf -> g ∈ Failures rf -> own_verdict f eff -> own_verdict g eff -> f = g) as Huniq.
  { intros f g eff Hf Hg Hof Hog. assert (Recipient f = Recipient g) as Heq.
    { destruct eff; simpl in *; intuition congruence. }
    apply list_elem_of_lookup_1 in Hf as [i Hi]. apply list_elem_of_lookup_1 in Hg as [j Hj].
    assert (i = j) as ->; [|congruence].
    eapply (NoDup_lookup _ i j (Recipient f) Hnd); rewrite list_lookup_fmap, ?Hi, ?Hj; simpl; congruence. }
  split_and!.
  - intros eff Hin. destruct Hshape as [[_ ->]|[_ [_ ->]]]; [apply elem_of_app in Hin as [Hin|Hin]|].
    2: { apply list_elem_of_In, in_map_iff in Hin as (f & <- & Hf). exists f.
         apply list_elem_of_In, elem_of_Retryables in Hf as [Hf _]. done. }
    all: apply permanent_effects_own in Hin as (f & Hf & Ho); apply elem_of_Permanents in Hf as [Hf _]; eauto.
  - intros f Hf Hret. exists (recordRecipientFailure e1 req f). split; [|done].
    assert (f ∈ Permanents rf) as Hfp by (by apply elem_of_Permanents).
    pose proof (permanent_recorded e1 req rf f Hfp) as Hin.
    destruct Hshape as [[_ ->]|[_ [_ ->]]]; [apply elem_of_app; by left|done].
  - intros f Hf Hret. split.
    + intros (eff & Hin & Ho). destruct Hshape as [[-> _]|[_ [_ ->]]]; [by eexists|].
      apply permanent_effects_own in Hin as (g & Hg & Hog).
      apply elem_of_Permanents in Hg as [Hg Hgr]. rewrite (Huniq f g eff) in Hret by done. congruence.
    + intros (e' & Hw & Hst). destruct Hshape as [[_ ->]|[Hor _]].
      * exists (recordRecipientFailure e1 req f). split; [|done]. apply elem_of_app. right.
        apply list_elem_of_In, in_map_iff. exists f. split; [done|].
        by apply list_elem_of_In, elem_of_Retryables.
      * exfalso. destruct Hor as [->|[->|[t ->]]]; simplify_eq/=.
Qed.


(** ** Message-level verdicts *)

(** A failure of the message as a whole is recorded only against recipients
    the message is not finished with, each once; a permanent refusal of the
    gateway's own fails the message at the first attempt, is recorded as
    REJECTED and suppresses nobody; and someone is suppressed only when the
    error itself says they unsubscribed. *)
Theorem message_verdict_scope {C} `{!TTLCache.CacheSpec C (list string)}
    src tp now1 now2 fin (c : C) e req err :
  Paced err = None -> PerRecipient err = None -> 0 <= RetryCount e ->
  let '(effs, w, _) := handleFailure src tp now1 now2 (Ok fin) c e req err in
  let audience := filter (fun r => r ∉ fin) (uniqueRecipients [To req; Cc req; Bcc req]) in
  let recorded ty := recordForEach (touch (RetryCount e + 1) now1 (Text err) e) req audience ty in
  ((exists e', w = SettleUpdate e' /\ Status e' = Deferred /\ effs = recorded DEFERRED /\ Permanent err = false) \/
   (exists e' ty sup, w = SettleUpdate e' /\ Status e' = Failed /\ effs = recorded ty ++ sup /\
      (Permanent err = true -> ty = REJECTED /\ sup = []) /\
      (sup <> [] -> Type_ (ClassifyError (Text err)) = UNSUBSCRIBED /\
         sup = suppress (touch (RetryCount e + 1) now1 (Text err) e) audience UNSUBSCRIBED))).
Proof.
  intros Hp Hr Hrc. unfold handleFailure. rewrite Hp, Hr. simpl.
  destruct (getRetryPattern src tp now2 c (TenantID e)) as [pattern c'].
  unfold nextRetryDelay. simpl.
  destruct (Permanent err) eqn:Hperm; simpl.
  { right. eexists _, REJECTED, []. split_and!; done. }
  destruct (negb (Retryable (ClassifyError (Text err))) || _) eqn:Hb.
  - right. eexists _, _, _. split_and!; [done|done|done|done|].
    case_bool_decide as Hu; [|done]. intros _. split; [done|]. by rewrite Hu.
  - b2p. rewrite (proj2 (Z.ltb_ge (RetryCount e + 1) 1)) by lia.
    destruct (nth_error pattern _) eqn:Hn.
    + destruct (Duration.ParseDuration _); left; eexists; split_and!; done.
    + apply nth_error_None in Hn. lia.
Qed.

(** ** The retry schedule is finite *)

Section Schedule.
Context {C : Type} `{!TTLCache.CacheSpec C (list string)}.
Context (src : option (list string)) (tp : string -> result string (option (list string))).
Context (n : Z).

(** Every schedule in use has at most [n] steps. *)
Definition schedules_bounded : Prop :=
  forall tenant, Z.of_nat (length (lookupPattern src tp tenant)) <= n.

Definition cache_bounded_by (c : C) : Prop :=
  map_Forall (fun _ v => Z.of_nat (length v.1) <= n) (TTLCache.cs_contents c).

Lemma getRetryPattern_bounded now c tenant :
  schedules_bounded -> cache_bounded_by c ->
  Z.of_nat (length (getRetryPattern src tp now c tenant).1) <= n /\
  cache_bounded_by (getRetryPattern src tp now c tenant).2.
Proof.
  intros Hs Hc. unfold getRetryPattern.
  pose proof (TTLCache.cs_get_hit c tenant now) as Hhit.
  pose proof (TTLCache.cs_get_shrinks c tenant now) as Hshr.
  destruct (TTLCache.cs_get c tenant now) as [[p|] c']; simpl in *.
  - destruct (Hhit p eq_refl) as (x & Hx & _). split; [exact (Hc _ _ Hx)|].
    intros k v Hk. apply (Hc k). by eapply lookup_weaken.
  - split; [apply Hs|]. intros k v Hk.
    eapply lookup_weaken in Hk; [|apply TTLCache.cs_put_adds].
    destruct (decide (k = tenant)) as [->|Hne].
    + rewrite lookup_insert_eq in Hk. simplify_eq/=. apply Hs.
    + rewrite lookup_insert_ne in Hk by done. apply (Hc k). by eapply lookup_weaken.
Qed.

(** How many recipients a pass delivered to. *)
Definition delivered_by (err : SendError) : Z :=
  match PerRecipient err with Some rf => Delivered rf | None => 0 end.

(** What a deferral other than pacing costs: it never lowers the count, stays
    within the schedule, and spends a step of it unless it delivered to
    somebody. *)
Lemma deferral_costs now1 now2 fin c e req err effs e' c' :
  schedules_bounded -> cache_bounded_by c -> Paced err = None -> 0 <= RetryCount e ->
  0 <= delivered_by err ->
  handleFailure src tp now1 now2 fin c e req err = (effs, SettleUpdate e', c') ->
  Status e' = Deferred ->
  cache_bounded_by c' /\ RetryCount e <= RetryCount e' <= n /\
  (delivered_by err = 0 -> RetryCount e' = RetryCount e + 1).
Proof.
  intros Hs Hc Hp Hrc Hd Hh Hst. unfold handleFailure in Hh. rewrite Hp in Hh. unfold delivered_by in *.
  pose proof (fun t => getRetryPattern_bounded now2 c t Hs Hc) as Hpat.
  destruct (PerRecipient err) as [rf|].
  - unfold handleRecipientFailures in Hh. simpl in Hh.
    destruct (Retryables rf) as [|f0 fs]; [by destruct (0 <? Delivered rf); simplify_eq/=|].
    destruct (Hpat (TenantID e)) as [Hlen Hc'].
    destruct (getRetryPattern src tp now2 c (TenantID e)) as [pattern c1]. simpl in *.
    unfold nextRetryDelay in Hh. go_cases; b2p; split_and!; try done; lia.
  - simpl in Hh. destruct (Hpat (TenantID e)) as [Hlen Hc'].
    destruct (getRetryPattern src tp now2 c (TenantID e)) as [pattern c1]. simpl in *.
    unfold nextRetryDelay in Hh.
    destruct (Permanent err); simpl in Hh; [by simplify_eq/=|].
    go_cases; b2p; split_and!; try done; lia.
Qed.

(** Pacing costs nothing. *)
Lemma pacing_is_free now1 now2 fin (c : C) e req err effs e' c' :
  Paced err <> None -> handleFailure src tp now1 now2 fin c e req err = (effs, SettleUpdate e', c') ->
  RetryCount e' = RetryCount e.
Proof. unfold handleFailure. destruct (Paced err); [|done]. by intros _ [= _ <- _]. Qed.
End Schedule.

(** ** Pruning *)

(** Housekeeping removes only what is finished with.  The sweep runs at most
    hourly; it removes an outbox row only if the message failed for good and was
    last touched before the retention (never when retention is off), and an
    idempotency key only past its 24-hour window. *)
Theorem prune_only_expired f1 f2 now w s :
  let '(w', s') := pruneIfDue f1 f2 now w s in
  (lastPrune w <> 0 -> now - lastPrune w < prunePeriod -> w' = w /\ s' = s) /\
  (forall id r, outbox s !! id = Some r -> outbox s' !! id <> Some r ->
     outbox s' !! id = None /\ status r = Failed /\ 0 < retention w /\ updated_at r < now - retention w) /\
  (forall tk k, send_idempotency_keys s !! tk = Some k -> send_idempotency_keys s' !! tk <> Some k ->
     send_idempotency_keys s' !! tk = None /\ K_CreatedAt k < now - IdempotencyKeyWindow).
Proof.
  assert (forall f cut s0, let s1 := (PruneIdempotencyKeys f cut s0).1 in outbox s1 = outbox s0 /\
    forall tk k, send_idempotency_keys s0 !! tk = Some k ->
      send_idempotency_keys s1 !! tk = Some k \/ (send_idempotency_keys s1 !! tk = None /\ K_CreatedAt k < cut)) as Hkeys.
  { intros f cut s0. unfold PruneIdempotencyKeys, exec. destruct f; simpl; (split; [done|]);
      intros tk k Hk; try (by left); rewrite map_lookup_filter, Hk; simpl;
      (case_guard; [by left|]); right; (split; [done|simpl in *; lia]). }
  assert (forall f cut s0, let s1 := (PruneTerminal f cut s0).1 in
    send_idempotency_keys s1 = send_idempotency_keys s0 /\
    forall id r, outbox s0 !! id = Some r ->
      outbox s1 !! id = Some r \/ (outbox s1 !! id = None /\ status r = Failed /\ updated_at r < cut)) as Hterm.
  { intros f cut s0. unfold PruneTerminal, exec. destruct f; simpl; (split; [done|]);
      intros id r Hr; try (by left); rewrite delete_where_lookup, Hr; simpl; unfold terminal_before;
      (case_bool_decide; [|by left]); simpl; destruct (_ <? _) eqn:E; auto; b2p; auto. }
  unfold pruneIfDue, time_is_zero, time_add.
  destruct (negb _ && _) eqn:Hdue; [split_and!; [done|congruence|congruence]|].
  assert (lastPrune w <> 0 -> now - lastPrune w < prunePeriod -> False) as Hrun.
  { intros H1 H2. rewrite (proj2 (Z.eqb_neq _ _) H1) in Hdue. simpl in Hdue. b2p.
    assert (time_sub now (lastPrune w) < prunePeriod); [|lia].
    apply time_sub_lt; [vm_compute; split; congruence|done]. }
  destruct (Hkeys f1 (now + - IdempotencyKeyWindow) s) as [Ho Hk].
  destruct (retention w <=? 0) eqn:Hret; b2p.
  - split_and!; [tauto|rewrite Ho; congruence|].
    intros tk k Htk Hne. destruct (Hk tk k Htk) as [?|[? ?]]; [done|]. split; [done|lia].
  - destruct (Hterm f2 (now + - retention w) (PruneIdempotencyKeys f1 (now + - IdempotencyKeyWindow) s).1)
      as [Hk' Hr'].
    split_and!; [tauto| |].
    + intros id r Hr Hne. rewrite <- Ho in Hr. destruct (Hr' id r Hr) as [?|(?&?&?)]; [done|].
      split_and!; try done; lia.
    + intros tk k Htk Hne. rewrite Hk' in *. destruct (Hk tk k Htk) as [?|[? ?]]; [done|]. split; [done|lia].
Qed.


(** ** Witnesses *)

#[local] Existing Instance TTLCache.ttl_cache_spec.

Module Demo.
Definition cache : TTLCache.t (list string) := TTLCache.New retryPatternTTL.
Definition tenants (_ : string) : result string (option (list string)) := Ok None.
Definition email : OutboxEmail := mkOutboxEmail "m" "t" "{}" Sending 0 0 "" 1 1 "tok".
Definition row : Row := mkRow "t" "{}" Sending 0 0 "" 1 1 (Some "tok") (Some 9).
Definition request : SendEmailRequest :=
  mkRequest "a@x.com" ["b@x.com"; "c@x.com"]%string [] [] "p" "hi" "" "" "" "b" "" false [] "" "" "" [] "" false.
Definition refused : SendError := mkSendError "dial tcp: connection refused" None None false.
Definition partial : RecipientFailuresError :=
  mkFailures [mkFailure "b@x.com" "550 user unknown" (ClassifyError "550 user unknown");
              mkFailure "c@x.com" "421 try again later" (ClassifyError "421 try again later")] 0.
End Demo.

Lemma paced_keeps_its_place_witness :
  let s := mkDB {["m" := Demo.row]} ∅ in
  let '(effs, w, c') := handleFailure None Demo.tenants 100 100 (Ok ∅) Demo.cache Demo.email Demo.request
                          (mkSendError "paced" (Some 50) None false) in
  effs = [] /\ exists r', outbox (settle (fun _ => Up) w s) !! "m"%string = Some r' /\ retry_count r' = 0.
Proof.
  intros s.
  destruct (paced_keeps_its_place None Demo.tenants 100 100 (Ok ∅) Demo.cache Demo.email Demo.request
    (mkSendError "paced" (Some 50) None false) 50 (fun _ => Up) s Demo.row) as (H1 & _ & r' & H2 & H3 & _);
    try done.
  - exists 0%nat. split; [vm_compute; lia|by left].
  - split; [done|]. by exists r'.
Defined.

Lemma verdicts_are_their_own_witness :
  let '(effs, w, _) := handleFailure None Demo.tenants 100 100 (Ok ∅) Demo.cache Demo.email Demo.request
                         (mkSendError "" None (Some Demo.partial) false) in
  forall eff, eff ∈ effs -> exists f, f ∈ Failures Demo.partial /\ own_verdict f eff.
Proof.
  pose proof (verdicts_are_their_own None Demo.tenants 100 100 (Ok ∅) Demo.cache Demo.email Demo.request
    (mkSendError "" None (Some Demo.partial) false) Demo.partial eq_refl eq_refl
    ltac:(apply (bool_decide_unpack _); vm_compute; exact I)) as H.
  destruct (handleFailure _ _ _ _ _ _ _ _ _) as [[effs w] c']. apply H.
Defined.

Lemma message_verdict_scope_witness :
  let '(_, w, _) := handleFailure None Demo.tenants 100 100 (Ok ∅) Demo.cache Demo.email Demo.request
                      (mkSendError "template not found: x" None None true) in
  exists e', w = SettleUpdate e' /\ Status e' = Failed.
Proof.
  pose proof (message_verdict_scope None Demo.tenants 100 100 ∅ Demo.cache Demo.email Demo.request
    (mkSendError "template not found: x" None None true) eq_refl eq_refl ltac:(vm_compute; congruence)) as H.
  destruct (handleFailure _ _ _ _ _ _ _ _ _) as [[effs w] c'].
  destruct H as [(e' & _ & _ & _ & Hf)|(e' & ty & sup & Hw & Hst & _)]; [done|by exists e'].
Defined.

End QueueWorker.
