(* ===== verification/Filter.v ===== *)
(** * The filter rule engine

    Models [internal/emailfilter]: message.go, condition.go, rule.go and
    attachment_text.go.  A rule is a list of conditions that must all hold, a
    list of exceptions that must all not hold, and an action; [Evaluate]
    returns the decision of the first rule that fires.  Regular expressions
    and the text extraction from attachments are parameters. *)
From S2P Require Import Prelude GoStrings Admission.
From Stdlib Require Import Ascii.

Module Filter.
Import GoStrings.
Local Open Scope Z_scope.

(** ** Data *)

Inductive Direction :=
| DirectionOutbound
| DirectionInbound
| DirectionOther (s : string).

#[export] Instance Direction_eq_dec : EqDecision Direction.
Proof. solve_decision. Defined.

Definition Direction_Valid (d : Direction) : bool :=
  match d with
  | DirectionOutbound | DirectionInbound => true
  | DirectionOther _ => false
  end.

Inductive Field :=
| FieldFrom | FieldTo | FieldCc | FieldBcc | FieldAnyRecipient
| FieldSubject | FieldBody | FieldSubjectOrBody | FieldHeader
| FieldAttachmentName | FieldAttachmentExtension | FieldAttachmentText
| FieldAttachmentCount | FieldAttachmentSize | FieldTotalAttachmentSize
| FieldMessageSize | FieldRecipientCount
| FieldHasAttachment | FieldHasExecutableAttachment
| FieldProvider | FieldSPF | FieldDKIM | FieldDMARC
| FieldOther (s : string).

#[export] Instance Field_eq_dec : EqDecision Field.
Proof. solve_decision. Defined.

Inductive Operator :=
| OpContains | OpMatches | OpEquals | OpDomainIs | OpIn
| OpGreaterOrEqual | OpIsTrue | OpExists
| OpOther (s : string).

#[export] Instance Operator_eq_dec : EqDecision Operator.
Proof. solve_decision. Defined.

Inductive fieldKind :=
| kindAddress | kindText | kindHeader | kindNumber | kindBool | kindEnum.

#[export] Instance fieldKind_eq_dec : EqDecision fieldKind.
Proof. solve_decision. Defined.

(** The map [fieldKinds]; a field that is not in it has no kind. *)
Definition fieldKinds (f : Field) : option fieldKind :=
  match f with
  | FieldFrom | FieldTo | FieldCc | FieldBcc | FieldAnyRecipient => Some kindAddress
  | FieldSubject | FieldBody | FieldSubjectOrBody
  | FieldAttachmentName | FieldAttachmentExtension | FieldAttachmentText => Some kindText
  | FieldHeader => Some kindHeader
  | FieldAttachmentCount | FieldAttachmentSize | FieldTotalAttachmentSize
  | FieldMessageSize | FieldRecipientCount => Some kindNumber
  | FieldHasAttachment | FieldHasExecutableAttachment => Some kindBool
  | FieldProvider | FieldSPF | FieldDKIM | FieldDMARC => Some kindEnum
  | FieldOther _ => None
  end.

Definition allowedOperators (k : fieldKind) (o : Operator) : bool :=
  match k, o with
  | kindAddress, (OpContains | OpMatches | OpEquals | OpDomainIs) => true
  | kindText, (OpContains | OpMatches | OpEquals | OpIn) => true
  | kindHeader, (OpContains | OpMatches | OpEquals | OpExists) => true
  | kindNumber, OpGreaterOrEqual => true
  | kindBool, OpIsTrue => true
  | kindEnum, (OpEquals | OpIn) => true
  | _, _ => false
  end.

Definition inboundOnlyFields (f : Field) : bool :=
  match f with FieldSPF | FieldDKIM | FieldDMARC => true | _ => false end.
Definition outboundOnlyFields (f : Field) : bool :=
  match f with FieldProvider => true | _ => false end.

Record Attachment := mkAttachment {
  Filename : string;
  ContentType : string;
  Size : Z;
  Data : string;
  AText : string
}.

Definition Extension (a : Attachment) : string :=
  TrimPrefix (ToLower (Ext (Filename a))) ".".

Definition executableExtensions : list string :=
  ["exe"; "com"; "bat"; "cmd"; "msi"; "scr"; "pif"; "cpl"; "jar"; "js";
   "jse"; "vbs"; "vbe"; "wsf"; "wsh"; "ps1"; "psm1"; "sh"; "bash"; "app";
   "dmg"; "pkg"; "deb"; "rpm"; "apk"; "dll"; "so"; "reg"; "lnk"; "hta";
   "chm"; "iso"; "img"; "vhd"]%string.

Definition IsExecutable (a : Attachment) : bool :=
  bool_decide (Extension a ∈ executableExtensions).

Record Message := mkMessage {
  From_ : string;
  To : list string;
  Cc : list string;
  Bcc : list string;
  Subject : string;
  HTML : string;
  Text : string;
  Headers : gmap string (list string);
  Attachments : list Attachment;
  MSize : Z;
  ProviderID : string;
  SPF : string;
  DKIM : string;
  DMARC : string
}.

Definition set_attachments (l : list Attachment) (m : Message) : Message :=
  {| From_ := From_ m; To := To m; Cc := Cc m; Bcc := Bcc m; Subject := Subject m;
     HTML := HTML m; Text := Text m; Headers := Headers m; Attachments := l;
     MSize := MSize m; ProviderID := ProviderID m; SPF := SPF m; DKIM := DKIM m;
     DMARC := DMARC m |}.

(** [Recipients]: each address once, as written; [seen] holds normal forms. *)
Fixpoint recipientsFrom (seen : gset string) (l : list string) : list string :=
  match l with
  | [] => []
  | address :: rest =>
      let key := Admission.normal address in
      if bool_decide (key = ""%string) || bool_decide (key ∈ seen) then recipientsFrom seen rest
      else address :: recipientsFrom ({[key]} ∪ seen) rest
  end.

Definition Recipients (m : Message) : list string :=
  recipientsFrom ∅ (To m ++ Cc m ++ Bcc m).

Definition Header (m : Message) (name : string) : list string :=
  default [] (Headers m !! ToLower (TrimSpace name)).

(** [NormaliseHeaders]; the list is the order the map is visited in. *)
Definition NormaliseHeaders (h : list (string * list string)) : gmap string (list string) :=
  foldl (fun out nv =>
           let key := ToLower (TrimSpace nv.1) in
           <[key := default [] (out !! key) ++ nv.2]> out) ∅ h.

Definition TotalAttachmentSize (m : Message) : Z :=
  foldl (fun total a => total + Size a) 0 (Attachments m).

Definition LargestAttachment (m : Message) : Z :=
  foldl (fun largest a => if largest <? Size a then Size a else largest) 0 (Attachments m).

Section Engine.
(** [regexp.Compile] of a pattern (with the case-insensitive flag the code puts
    in front) and [MatchString]. *)
Context {Re : Type} (Compile : string -> result string Re) (MatchString : Re -> string -> bool).

Record Condition := mkCondition {
  CField : Field;
  COperator : Operator;
  CValues : list string;
  CHeader : string;
  CNumber : Z;
  compiled : list Re
}.

Inductive Action :=
| ActionNone
| ActionHold
| ActionReject
| ActionTag
| ActionAllow
| ActionOther (s : string).

#[export] Instance Action_eq_dec : EqDecision Action.
Proof. solve_decision. Defined.

Definition Action_Valid (a : Action) : bool :=
  match a with
  | ActionHold | ActionReject | ActionTag | ActionAllow => true
  | ActionNone | ActionOther _ => false
  end.

Record Rule := mkRule {
  RID : string;
  RTenantID : string;
  Name : string;
  RDirection : Direction;
  RAction : Action;
  Priority : Z;
  Enabled : bool;
  Conditions : list Condition;
  Exceptions : list Condition;
  Tag : string
}.

(** ** Validation *)

Inductive filterError :=
| UnknownField (f : Field)
| InboundOnly (f : Field)
| OutboundOnly (f : Field)
| BadOperator (o : Operator) (f : Field)
| NeedsHeaderName
| NeedsValue (f : Field) (o : Operator)
| NegativeThreshold (f : Field)
| BadPattern (value cause : string)
| NeedsName
| BadDirection (d : Direction)
| BadAction (a : Action)
| NeedsCondition
| AtCondition (i : nat) (e : filterError)
| AtException (i : nat) (e : filterError).

Fixpoint compileAll (values : list string) : result filterError (list Re) :=
  match values with
  | [] => Ok []
  | v :: rest =>
      match Compile ("(?i)" +:+ v)%string with
      | Err e => Err (BadPattern v e)
      | Ok re =>
          match compileAll rest with
          | Ok res => Ok (re :: res)
          | Err e => Err e
          end
      end
  end.

Definition needsValues (o : Operator) : bool :=
  negb (bool_decide (o = OpIsTrue)) && negb (bool_decide (o = OpExists))
  && negb (bool_decide (o = OpGreaterOrEqual)).

Definition with_compiled (res : list Re) (c : Condition) : Condition :=
  mkCondition (CField c) (COperator c) (CValues c) (CHeader c) (CNumber c) res.

(** [Condition.Validate]: the condition with its patterns compiled, or why it is
    refused. *)
Definition ValidateCondition (direction : Direction) (c : Condition) : result filterError Condition :=
  match fieldKinds (CField c) with
  | None => Err (UnknownField (CField c))
  | Some kind =>
      if inboundOnlyFields (CField c) && negb (bool_decide (direction = DirectionInbound))
      then Err (InboundOnly (CField c))
      else if outboundOnlyFields (CField c) && negb (bool_decide (direction = DirectionOutbound))
      then Err (OutboundOnly (CField c))
      else if negb (allowedOperators kind (COperator c))
      then Err (BadOperator (COperator c) (CField c))
      else if bool_decide (CField c = FieldHeader) && bool_decide (TrimSpace (CHeader c) = ""%string)
      then Err NeedsHeaderName
      else if needsValues (COperator c) && bool_decide (length (CValues c) = 0%nat)
      then Err (NeedsValue (CField c) (COperator c))
      else if bool_decide (COperator c = OpGreaterOrEqual) && (CNumber c <? 0)
      then Err (NegativeThreshold (CField c))
      else if bool_decide (COperator c = OpMatches) then
        match compileAll (CValues c) with
        | Ok res => Ok (with_compiled res c)
        | Err e => Err e
        end
      else Ok (with_compiled [] c)
  end.

Fixpoint validateList (at_ : nat -> filterError -> filterError) (i : nat) (direction : Direction)
    (l : list Condition) : result filterError (list Condition) :=
  match l with
  | [] => Ok []
  | c :: rest =>
      match ValidateCondition direction c with
      | Err e => Err (at_ i e)
      | Ok c' =>
          match validateList at_ (S i) direction rest with
          | Ok rest' => Ok (c' :: rest')
          | Err e => Err e
          end
      end
  end.

(** [Rule.Validate]. *)
Definition Validate (r : Rule) : result filterError Rule :=
  if bool_decide (TrimSpace (Name r) = ""%string) then Err NeedsName
  else if negb (Direction_Valid (RDirection r)) then Err (BadDirection (RDirection r))
  else if negb (Action_Valid (RAction r)) then Err (BadAction (RAction r))
  else if bool_decide (length (Conditions r) = 0%nat) then Err NeedsCondition
  else
    (let? conds := validateList AtCondition 1 (RDirection r) (Conditions r) in
     let? excs := validateList AtException 1 (RDirection r) (Exceptions r) in
     Ok (mkRule (RID r) (RTenantID r) (Name r) (RDirection r) (RAction r) (Priority r)
           (Enabled r) conds excs (Tag r)))%go.

(** ** Matching *)

Definition number (c : Condition) (m : Message) : Z :=
  match CField c with
  | FieldAttachmentCount => Z.of_nat (length (Attachments m))
  | FieldAttachmentSize => LargestAttachment m
  | FieldTotalAttachmentSize => TotalAttachmentSize m
  | FieldMessageSize => MSize m
  | FieldRecipientCount => Z.of_nat (length (Recipients m))
  | _ => 0
  end.

Definition subjects (c : Condition) (m : Message) : list string :=
  match CField c with
  | FieldFrom => [From_ m]
  | FieldTo => To m
  | FieldCc => Cc m
  | FieldBcc => Bcc m
  | FieldAnyRecipient => Recipients m
  | FieldSubject => [Subject m]
  | FieldBody => [HTML m; Text m]
  | FieldSubjectOrBody => [Subject m; HTML m; Text m]
  | FieldAttachmentName => map Filename (Attachments m)
  | FieldAttachmentExtension => map Extension (Attachments m)
  | FieldAttachmentText => map AText (Attachments m)
  | FieldProvider => [ProviderID m]
  | FieldSPF => [SPF m]
  | FieldDKIM => [DKIM m]
  | FieldDMARC => [DMARC m]
  | _ => []
  end.

Definition domainMatches (address domain : string) : bool :=
  match cut_last address "@" with
  | None => false
  | Some (_, after) =>
      let host := Trim after "> " in
      eqb host domain || HasSuffix host ("." +:+ domain)
  end.

(** One wanted value against one lowered subject. *)
Definition valueMatches (o : Operator) (lowered value : string) : bool :=
  let wanted := ToLower (TrimSpace value) in
  if bool_decide (wanted = ""%string) then false
  else match o with
       | OpContains => Contains lowered wanted
       | OpEquals | OpIn => eqb lowered wanted
       | OpDomainIs => domainMatches lowered wanted
       | _ => false
       end.

Definition subjectMatches (c : Condition) (subject : string) : bool :=
  if bool_decide (subject = ""%string) then false
  else if bool_decide (COperator c = OpMatches)
  then existsb (fun re => MatchString re subject) (compiled c)
  else existsb (valueMatches (COperator c) (ToLower subject)) (CValues c).

Definition anyValueMatches (c : Condition) (l : list string) : bool :=
  existsb (subjectMatches c) l.

Definition MatchesCondition (c : Condition) (m : Message) : bool :=
  match CField c with
  | FieldHasAttachment => negb (bool_decide (length (Attachments m) = 0%nat))
  | FieldHasExecutableAttachment => existsb IsExecutable (Attachments m)
  | _ =>
      match fieldKinds (CField c) with
      | Some kindNumber => CNumber c <=? number c m
      | Some kindHeader =>
          let values := Header m (CHeader c) in
          if bool_decide (COperator c = OpExists) then negb (bool_decide (length values = 0%nat))
          else anyValueMatches c values
      | _ => anyValueMatches c (subjects c m)
      end
  end.

(** [Rule.Matches]: the conditions that carried it. *)
Definition Matches (r : Rule) (m : Message) : option (list Condition) :=
  if negb (Enabled r) then None
  else if negb (forallb (fun c => MatchesCondition c m) (Conditions r)) then None
  else if existsb (fun c => MatchesCondition c m) (Exceptions r) then None
  else Some (Conditions r).

(** ** Evaluation *)

Record Decision := mkDecision {
  DAction : Action;
  DRule : option Rule;
  DMatched : list Condition
}.

Definition noDecision : Decision := mkDecision ActionNone None [].

Definition Delivers (d : Decision) : bool :=
  match DAction d with
  | ActionNone | ActionAllow | ActionTag => true
  | _ => false
  end.

(** [sort.SliceStable] by priority: an insertion that puts a rule before the
    first one of at least its priority, applied from the last rule to the
    first, keeps the order of equal priorities. *)
Fixpoint insertRule (r : Rule) (l : list Rule) : list Rule :=
  match l with
  | [] => [r]
  | r' :: rest => if Priority r <=? Priority r' then r :: l else r' :: insertRule r rest
  end.

Definition sortStable (l : list Rule) : list Rule := foldr insertRule [] l.

Fixpoint firstDecision (l : list Rule) (m : Message) : Decision :=
  match l with
  | [] => noDecision
  | r :: rest =>
      match Matches r m with
      | None => firstDecision rest m
      | Some matched =>
          if bool_decide (RAction r = ActionAllow) then mkDecision ActionNone (Some r) matched
          else mkDecision (RAction r) (Some r) matched
      end
  end.

Definition applicable (direction : Direction) (r : Rule) : bool :=
  bool_decide (RDirection r = direction) && Enabled r.

Definition Evaluate (rules : list Rule) (direction : Direction) (m : Message) : Decision :=
  firstDecision (sortStable (List.filter (applicable direction) rules)) m.

(** ** Attachment text (attachment_text.go) *)

Definition asksText (c : Condition) : bool := bool_decide (CField c = FieldAttachmentText).

Definition needsAttachmentText (rules : list Rule) : bool :=
  existsb (fun r => existsb asksText (Conditions r) || existsb asksText (Exceptions r)) rules.

(** [attachtext.Supported] and [attachtext.Extract]: the text read, whatever the
    error with it. *)
Context (Supported : string -> string -> bool) (Extract : string -> string -> string -> string).

Definition readText (a : Attachment) : Attachment :=
  if negb (bool_decide (AText a = ""%string)) || bool_decide (Data a = ""%string)
     || negb (Supported (Filename a) (ContentType a))
  then a
  else mkAttachment (Filename a) (ContentType a) (Size a) (Data a)
         (Extract (Filename a) (ContentType a) (Data a)).

Definition readAttachmentText (m : Message) : Message :=
  if bool_decide (length (Attachments m) = 0%nat) then m
  else set_attachments (map readText (Attachments m)) m.

(** The decision part of [screener.Screen]. *)
Definition screenRules (rules : list Rule) (direction : Direction) (m : Message) : Decision :=
  match rules with
  | [] => noDecision
  | _ =>
      Evaluate rules direction (if needsAttachmentText rules then readAttachmentText m else m)
  end.
End Engine.

(** ** The first rule that fires decides *)

Section Theorems.
Context {Re : Type} (Compile : string -> result string Re) (MatchString : Re -> string -> bool).
Abbreviation Rule := (@Rule Re).
Abbreviation Matches := (Matches MatchString).

(** Rules with their positions in the list the store returned. *)
Definition lex (a b : nat * Rule) : Prop :=
  Priority a.2 < Priority b.2 \/ (Priority a.2 = Priority b.2 /\ (a.1 < b.1)%nat).

Fixpoint insertP (x : nat * Rule) (l : list (nat * Rule)) : list (nat * Rule) :=
  match l with
  | [] => [x]
  | y :: rest => if Priority x.2 <=? Priority y.2 then x :: l else y :: insertP x rest
  end.

Lemma insertP_snd x l : (insertP x l).*2 = insertRule x.2 l.*2.
Proof.
  induction l as [|y l IH]; csimpl; [done|]. destruct (_ <=? _); csimpl; [done|]. by rewrite IH.
Qed.

Lemma sortP_snd l : (foldr insertP [] l).*2 = sortStable l.*2.
Proof. unfold sortStable. induction l as [|x l IH]; csimpl; [done|]. by rewrite insertP_snd, IH. Qed.

Lemma insertP_perm x l : insertP x l ≡ₚ x :: l.
Proof.
  induction l as [|y l IH]; simpl; [done|]. destruct (_ <=? _); [done|]. by rewrite IH, Permutation_swap.
Qed.

Lemma sortP_perm l : foldr insertP [] l ≡ₚ l.
Proof. induction l as [|x l IH]; simpl; [done|]. by rewrite insertP_perm, IH. Qed.

Lemma insertP_sorted x l :
  StronglySorted lex l -> Forall (fun y => (x.1 < y.1)%nat) l -> StronglySorted lex (insertP x l).
Proof.
  intros Hs Hx. induction Hs as [|y l Hs IH Hy]; simpl; [repeat constructor|].
  apply Forall_cons in Hx as [Hxy Hx]. destruct (_ <=? _) eqn:E; b2p.
  - constructor; [by constructor|]. constructor; [unfold lex; lia|].
    rewrite Forall_forall in Hy, Hx |- *. intros z Hz. specialize (Hy z Hz). specialize (Hx z Hz).
    unfold lex in *. lia.
  - constructor; [by apply IH|]. rewrite Forall_forall in Hy |- *. intros z Hz.
    rewrite insertP_perm, elem_of_cons in Hz. destruct Hz as [->|Hz]; [unfold lex; lia|auto].
Qed.

(** Positions increase along the list. *)
Definition increasing : list (nat * Rule) -> Prop := StronglySorted (fun a b => (a.1 < b.1)%nat).

Lemma sortP_sorted l : increasing l -> StronglySorted lex (foldr insertP [] l).
Proof.
  induction 1 as [|x l Hs IH Hx]; simpl; [constructor|]. apply insertP_sorted; [done|].
  by rewrite sortP_perm.
Qed.

Definition indexed (k : nat) (l : list Rule) : list (nat * Rule) := imap (fun i r => (k + i, r)%nat) l.

Lemma indexed_cons k r l : indexed k (r :: l) = (k, r) :: indexed (S k) l.
Proof.
  unfold indexed. simpl. f_equal; [f_equal; lia|]. apply imap_ext. intros i x _. simpl. f_equal. lia.
Qed.

Lemma indexed_spec k l :
  (indexed k l).*2 = l /\ increasing (indexed k l) /\
  (forall i r, (i, r) ∈ indexed k l <-> (k <= i)%nat /\ l !! (i - k)%nat = Some r).
Proof.
  revert k. induction l as [|r l IH]; intros k.
  { split_and!; [done|constructor|]. intros i r'. split; [intros H; by apply not_elem_of_nil in H|].
    intros [_ H]. by rewrite lookup_nil in H. }
  destruct (IH (S k)) as (H1 & H2 & H3). rewrite indexed_cons. split_and!.
  - csimpl. by rewrite H1.
  - constructor; [done|]. rewrite Forall_forall. intros [i r'] Hin. apply H3 in Hin as [? _]. simpl. lia.
  - intros i r'. rewrite elem_of_cons, H3. destruct (decide (i = k)) as [->|Hne].
    + rewrite Nat.sub_diag. simpl. split; [|intuition congruence].
      intros [?|[? _]]; [by simplify_eq|lia].
    + split.
      * intros [?|[? Hl]]; [by simplify_eq|]. split; [lia|].
        replace (i - k)%nat with (S (i - S k)) by lia. done.
      * intros [? Hl]. right. split; [lia|].
        replace (i - k)%nat with (S (i - S k)) in Hl by lia. done.
Qed.

Lemma increasing_filter (q : nat * Rule -> bool) l : increasing l -> increasing (List.filter q l).
Proof.
  induction 1 as [|x l Hs IH Hx]; simpl; [constructor|]. destruct (q x); [|done].
  constructor; [done|]. rewrite Forall_forall in Hx |- *. intros y Hy.
  apply Hx. apply list_elem_of_In, filter_In in Hy as [Hy _]. by apply list_elem_of_In.
Qed.

Lemma filter_snd (q : Rule -> bool) (l : list (nat * Rule)) :
  (List.filter (fun p => q p.2) l).*2 = List.filter q l.*2.
Proof. induction l as [|x l IH]; csimpl; [done|]. destruct (q x.2); csimpl; by rewrite IH. Qed.

Definition decision_of (r : Rule) (matched : list Condition) : Decision :=
  mkDecision (if bool_decide (RAction r = ActionAllow) then ActionNone else RAction r) (Some r) matched.

Lemma firstDecision_spec l m :
  StronglySorted lex l ->
  (firstDecision MatchString l.*2 m = noDecision /\ forall p, p ∈ l -> Matches p.2 m = None) \/
  exists p matched, p ∈ l /\ Matches p.2 m = Some matched /\
    firstDecision MatchString l.*2 m = decision_of p.2 matched /\
    forall q, q ∈ l -> Matches q.2 m <> None -> q = p \/ lex p q.
Proof.
  induction 1 as [|x l Hs IH Hx]; csimpl.
  { left. split; [done|]. intros p Hp. by apply not_elem_of_nil in Hp. }
  destruct (Matches x.2 m) as [matched|] eqn:E.
  - right. exists x, matched. split_and!; [by left|done|unfold decision_of; by case_bool_decide|].
    intros q Hq _. apply elem_of_cons in Hq as [->|Hq]; [by left|right].
    rewrite Forall_forall in Hx. auto.
  - destruct IH as [[Hd Hn]|(p & matched & Hp & Hm & Hd & Hq)]; [left|right].
    + split; [done|]. intros p Hp. apply elem_of_cons in Hp as [->|Hp]; auto.
    + exists p, matched. split_and!; [by right|done|done|].
      intros q Hin Hne. apply elem_of_cons in Hin as [->|Hin]; [congruence|auto].
Qed.

(** A rule fires on a message of one direction. *)
Definition fires (direction : Direction) (m : Message) (r : Rule) : Prop :=
  applicable direction r = true /\ Matches r m <> None.

End Theorems.

(** The first rule that fires decides.  Either no rule of the message's
    direction fires and the message is delivered normally, or the decision is
    that of the one firing rule with the lowest priority -- the earliest in the
    store's order among equal priorities; an allow rule that decides delivers.
    No other rule has any say. *)
Theorem first_firing_rule_decides {Re} (MatchString : Re -> string -> bool) rules direction m :
  (Evaluate MatchString rules direction m = noDecision /\
   forall r, r ∈ rules -> ~ fires MatchString direction m r) \/
  exists i r matched, rules !! i = Some r /\ fires MatchString direction m r /\
    Matches MatchString r m = Some matched /\
    Evaluate MatchString rules direction m = decision_of r matched /\
    (RAction r = ActionAllow -> Delivers (Evaluate MatchString rules direction m) = true) /\
    forall j r', rules !! j = Some r' -> fires MatchString direction m r' ->
      Priority r < Priority r' \/ (Priority r = Priority r' /\ (i <= j)%nat).
Proof.
  destruct (indexed_spec 0 rules) as (H1 & H2 & H3).
  set (l := List.filter (fun p => applicable direction p.2) (indexed 0 rules)).
  assert (forall i r, (i, r) ∈ l <-> rules !! i = Some r /\ applicable direction r = true) as Hl.
  { intros i r. unfold l. rewrite list_elem_of_In, filter_In, <- list_elem_of_In, H3, Nat.sub_0_r.
    simpl. intuition lia. }
  assert (Evaluate MatchString rules direction m = firstDecision MatchString (foldr insertP [] l).*2 m) as ->.
  { unfold Evaluate, l. by rewrite sortP_snd, (filter_snd (applicable direction)), H1. }
  destruct (firstDecision_spec MatchString (foldr insertP [] l) m)
    as [[Hd Hn]|([i r] & matched & Hp & Hm & Hd & Hq)].
  { apply sortP_sorted. by apply increasing_filter. }
  - left. split; [done|]. intros r Hr [Ha Hf]. apply list_elem_of_lookup_1 in Hr as [i Hi].
    apply Hf, (Hn (i, r)). by rewrite sortP_perm, Hl.
  - right. rewrite sortP_perm, Hl in Hp. destruct Hp as [Hi Ha]. simpl in *.
    exists i, r, matched. unfold fires. split_and!; try done; [congruence| |].
    + rewrite Hd. unfold decision_of, Delivers. intros ->. by rewrite bool_decide_true.
    + intros j r' Hj [Ha' Hf']. destruct (Hq (j, r')) as [Heq|Hlex]; [by rewrite sortP_perm, Hl|done| |].
      * simplify_eq. right. split; [done|lia].
      * unfold lex in Hlex. simpl in Hlex. intuition lia.
Qed.


(** ** Reading attachment text only when a rule asks *)

Section LazyText.
Context {Re : Type} (MatchString : Re -> string -> bool).
Context (Supported : string -> string -> bool) (Extract : string -> string -> string -> string).
Abbreviation read := (readAttachmentText Supported Extract).

Lemma read_attachments m : Attachments (read m) = map (readText Supported Extract) (Attachments m).
Proof.
  unfold readAttachmentText. case_bool_decide as H; [|done].
  by destruct (Attachments m).
Qed.

Lemma map_readText {A} (f : Attachment -> A) l :
  (forall a, f (readText Supported Extract a) = f a) -> map f (map (readText Supported Extract) l) = map f l.
Proof. intros H. rewrite map_map. apply map_ext, H. Qed.

Lemma foldl_readText {B} (f : B -> Attachment -> B) b l :
  (forall b a, f b (readText Supported Extract a) = f b a) ->
  foldl f b (map (readText Supported Extract) l) = foldl f b l.
Proof. intros H. revert b. induction l as [|a l IH]; intros b; simpl; [done|]. by rewrite H, IH. Qed.

Lemma existsb_readText (f : Attachment -> bool) l :
  (forall a, f (readText Supported Extract a) = f a) ->
  existsb f (map (readText Supported Extract) l) = existsb f l.
Proof. intros H. induction l as [|a l IH]; simpl; [done|]. by rewrite H, IH. Qed.

Lemma readText_fields a :
  Filename (readText Supported Extract a) = Filename a /\ Size (readText Supported Extract a) = Size a.
Proof. unfold readText. by destruct (_ || _). Qed.

Lemma read_other m :
  From_ (read m) = From_ m /\ To (read m) = To m /\ Cc (read m) = Cc m /\ Bcc (read m) = Bcc m /\
  Subject (read m) = Subject m /\ HTML (read m) = HTML m /\ Text (read m) = Text m /\
  Headers (read m) = Headers m /\ MSize (read m) = MSize m /\ ProviderID (read m) = ProviderID m /\
  SPF (read m) = SPF m /\ DKIM (read m) = DKIM m /\ DMARC (read m) = DMARC m.
Proof. unfold readAttachmentText. case_bool_decide; done. Qed.

(** A condition that does not ask about text cannot tell the two messages
    apart. *)
Lemma condition_ignores_text (c : @Condition Re) m :
  asksText c = false -> MatchesCondition MatchString c (read m) = MatchesCondition MatchString c m.
Proof.
  intros Hc. unfold asksText in Hc. apply bool_decide_eq_false in Hc.
  destruct (read_other m) as (H1 & H2 & H3 & H4 & H5 & H6 & H7 & H8 & H9 & H10 & H11 & H12 & H13).
  assert (forall a, Filename (readText Supported Extract a) = Filename a) as Hf by (intros; apply readText_fields).
  assert (forall a, Size (readText Supported Extract a) = Size a) as Hs by (intros; apply readText_fields).
  assert (forall a, Extension (readText Supported Extract a) = Extension a) as He
    by (intros a; unfold Extension; by rewrite Hf).
  unfold MatchesCondition, number, subjects, Recipients, Header, LargestAttachment, TotalAttachmentSize.
  rewrite ?H1, ?H2, ?H3, ?H4, ?H5, ?H6, ?H7, ?H8, ?H9, ?H10, ?H11, ?H12, ?H13, read_attachments, length_map.
  rewrite !foldl_readText by (intros; by rewrite Hs).
  rewrite existsb_readText by (intros; unfold IsExecutable; by rewrite He).
  rewrite (map_readText Filename), (map_readText Extension) by done.
  by destruct (CField c).
Qed.

Lemma rule_ignores_text (r : @Rule Re) m :
  existsb asksText (Conditions r) || existsb asksText (Exceptions r) = false ->
  Matches MatchString r (read m) = Matches MatchString r m.
Proof.
  intros H. b2p. unfold Matches.
  assert (forall l, existsb asksText l = false ->
            map (fun c => MatchesCondition MatchString c (read m)) l
            = map (fun c : @Condition Re => MatchesCondition MatchString c m) l) as Hmap.
  { clear. induction l as [|c l IH]; simpl; [done|]. intros H. b2p.
    rewrite condition_ignores_text, IH by done. done. }
  assert (forall (f : @Condition Re -> bool) l, forallb f l = forallb id (map f l)) as Hall
    by (intros f l; induction l as [|c l IH]; simpl; [done|by rewrite IH]).
  assert (forall (f : @Condition Re -> bool) l, existsb f l = existsb id (map f l)) as Hex
    by (intros f l; induction l as [|c l IH]; simpl; [done|by rewrite IH]).
  rewrite Hall, (Hall (fun c => MatchesCondition MatchString c m)).
  rewrite (Hex (fun c => MatchesCondition MatchString c (read m))), (Hex (fun c => MatchesCondition MatchString c m)).
  by rewrite !Hmap.
Qed.

Lemma insertRule_in (r x : @Rule Re) l : In x (insertRule r l) -> x = r \/ In x l.
Proof.
  induction l as [|y l IH]; simpl; [intuition congruence|].
  destruct (_ <=? _); simpl; intuition congruence.
Qed.

Lemma sortStable_in (x : @Rule Re) l : In x (sortStable l) -> In x l.
Proof.
  induction l as [|r l IH]; simpl; [done|]. intros H. apply insertRule_in in H as [->|H]; auto.
Qed.

Lemma evaluate_ignores_text rules direction m :
  needsAttachmentText rules = false ->
  Evaluate MatchString rules direction (read m) = Evaluate MatchString rules direction m.
Proof.
  intros Hn. unfold Evaluate.
  assert (forall r, In r (sortStable (List.filter (applicable direction) rules)) ->
            existsb asksText (Conditions r) || existsb asksText (Exceptions r) = false) as Hall.
  { intros r Hr. apply sortStable_in, filter_In in Hr as [Hr _].
    destruct (existsb asksText (Conditions r) || existsb asksText (Exceptions r)) eqn:E; [|done].
    exfalso. unfold needsAttachmentText in Hn.
    assert (existsb (fun r => existsb asksText (Conditions r) || existsb asksText (Exceptions r)) rules = true);
      [|congruence]. apply existsb_exists. by exists r. }
  induction (sortStable _) as [|r l IH]; simpl; [done|].
  rewrite rule_ignores_text by (apply Hall; by left).
  destruct (Matches MatchString r m); [done|]. apply IH. intros r' Hr'. apply Hall. by right.
Qed.
End LazyText.

(** Reading attachment text only when some rule asks about it is an
    optimisation and nothing more: the decision is always the one the rules
    give on the message with the text of every readable attachment filled
    in. *)
Theorem lazy_text_is_exact {Re} (MatchString : Re -> string -> bool) Supported Extract rules direction m :
  screenRules MatchString Supported Extract rules direction m =
  Evaluate MatchString rules direction (readAttachmentText Supported Extract m).
Proof.
  unfold screenRules. destruct rules as [|r rules]; [done|].
  destruct (needsAttachmentText (r :: rules)) eqn:E; [done|].
  by rewrite evaluate_ignores_text.
Qed.

(** ** Validated rules *)

Section Validation.
Context {Re : Type} (Compile : string -> result string Re).

(** What evaluating a condition relies on. *)
Definition condition_ok (direction : Direction) (c : @Condition Re) : Prop :=
  (exists kind, fieldKinds (CField c) = Some kind /\ allowedOperators kind (COperator c) = true) /\
  (inboundOnlyFields (CField c) = true -> direction = DirectionInbound) /\
  (outboundOnlyFields (CField c) = true -> direction = DirectionOutbound) /\
  (needsValues (COperator c) = true -> CValues c <> []) /\
  (COperator c = OpMatches -> Forall2 (fun v re => Compile ("(?i)" +:+ v)%string = Ok re) (CValues c) (compiled c)).

Lemma compileAll_spec values res :
  compileAll Compile values = Ok res ->
  Forall2 (fun v re => Compile ("(?i)" +:+ v)%string = Ok re) values res.
Proof.
  revert res. induction values as [|v values IH]; intros res H; simpl in H; [simplify_eq; constructor|].
  destruct (Compile _) as [re|] eqn:E; [|done].
  destruct (compileAll Compile values) as [res'|] eqn:E2; [|done]. simplify_eq. constructor; auto.
Qed.

Lemma ValidateCondition_ok direction c c' :
  ValidateCondition Compile direction c = Ok c' ->
  condition_ok direction c' /\ CField c' = CField c /\ COperator c' = COperator c /\ CValues c' = CValues c.
Proof.
  unfold ValidateCondition. intros H.
  destruct (fieldKinds (CField c)) as [kind|] eqn:Hk; [|done].
  repeat match type of H with (if ?b then _ else _) = _ => destruct b eqn:?; [done|] end.
  assert (exists res, c' = with_compiled res c /\
            (COperator c = OpMatches -> Forall2 (fun v re => Compile ("(?i)" +:+ v)%string = Ok re) (CValues c) res))
    as (res & -> & Hre).
  { case_bool_decide as Hm; [|simplify_eq; by eexists].
    destruct (compileAll Compile (CValues c)) as [res|] eqn:E; [|done]. simplify_eq.
    eexists. split; [done|]. intros _. by apply compileAll_spec. }
  split_and!; try done. unfold condition_ok. simpl.
  split_and!; [exists kind; split; [done|]| | | |done].
  - by destruct (allowedOperators kind (COperator c)).
  - intros Hi. rewrite Hi in *. destruct (decide (direction = DirectionInbound)) as [|Hne]; [done|].
    rewrite (bool_decide_false (direction = DirectionInbound)) in * by done. done.
  - intros Ho. rewrite Ho in *. destruct (decide (direction = DirectionOutbound)) as [|Hne]; [done|].
    rewrite (bool_decide_false (direction = DirectionOutbound)) in * by done. done.
  - intros Hn Hv. rewrite Hn, Hv in *. done.
Qed.

Lemma validateList_ok at_ i direction l l' :
  validateList Compile at_ i direction l = Ok l' ->
  length l' = length l /\ Forall (condition_ok direction) l'.
Proof.
  revert i l'. induction l as [|c l IH]; intros i l' H; simpl in H; [simplify_eq; split; [done|constructor]|].
  destruct (ValidateCondition Compile direction c) as [c'|] eqn:E; [|done].
  destruct (validateList Compile at_ (S i) direction l) as [rest|] eqn:E2; [|done]. simplify_eq/=.
  destruct (IH _ _ E2) as [-> Hf]. split; [done|]. constructor; [|done].
  by apply ValidateCondition_ok in E as [? _].
Qed.
End Validation.

(** A rule that passed validation cannot misfire by construction: it has a
    name, a real direction and action and at least one condition; every
    condition and exception is on a known field its direction can answer, with
    an operator that field allows and a value where one is needed; and every
    pattern is compiled, one for one.  Validation changes nothing else. *)
Theorem validated_rule_is_sound {Re} (Compile : string -> result string Re) r r' :
  Validate Compile r = Ok r' ->
  TrimSpace (Name r') <> ""%string /\ Direction_Valid (RDirection r') = true /\
  Action_Valid (RAction r') = true /\ Conditions r' <> [] /\
  Forall (condition_ok Compile (RDirection r')) (Conditions r') /\
  Forall (condition_ok Compile (RDirection r')) (Exceptions r') /\
  (RID r', Name r', RDirection r', RAction r', Priority r', Enabled r')
  = (RID r, Name r, RDirection r, RAction r, Priority r, Enabled r).
Proof.
  unfold Validate. intros H.
  case_bool_decide; [done|]. destruct (Direction_Valid (RDirection r)) eqn:Hd; [|done].
  destruct (Action_Valid (RAction r)) eqn:Ha; [|done]. simpl in H. case_bool_decide as Hlen; [done|].
  destruct (validateList Compile AtCondition 1 _ _) as [cs|] eqn:Hc; simpl in H; [|done].
  destruct (validateList Compile AtException 1 _ _) as [es|] eqn:He; simpl in H; [|done]. simplify_eq/=.
  apply validateList_ok in Hc as [Hl1 Hc], He as [_ He]. split_and!; try done.
  intros ->. by rewrite <- Hl1 in Hlen.
Qed.

Lemma validated_rule_is_sound_witness :
  let c := mkCondition FieldSubject OpMatches ["wire"; "transfer"]%string "" 0 ([] : list string) in
  let r := mkRule "1" "t" "watch" DirectionOutbound ActionHold 1 true [c] [] "" in
  exists r', Validate (fun p => Ok p) r = Ok r' /\ Conditions r' <> [] /\
    map compiled (Conditions r') = [["(?i)wire"; "(?i)transfer"]]%string.
Proof.
  intros c r. eexists. split; [vm_compute; reflexivity|]. split; [|done].
  eapply (validated_rule_is_sound (fun p => Ok p) r). vm_compute. reflexivity.
Defined.


End Filter.
