(* ===== verification/RuleStore.v ===== *)
(** * The rule store and its cache

    Models [internal/emailfilter/stores/postgres/store.go]: the table of a
    tenant's filter rules and the cache of compiled rules the send path reads.
    The cache is filled by a read that may race with a write; a generation
    counter keeps such a read from putting back what the write invalidated.
    The operations are given as the code has them, and as the atomic steps
    their concurrent executions interleave. *)
From S2P Require Import Prelude GoStrings Cache Filter.
From Stdlib Require Import Ascii.

Module RuleStore.
Import GoStrings Filter.
Local Open Scope Z_scope.

Definition enabledRulesTTL : Z := 10 * Second.
Definition enabledRulesMaxEntries : Z := 8192.

Definition ErrNotFound : string := "emailfilter: not found".

Section Store.
Context {Re : Type} (Compile : string -> result string Re).
Abbreviation Rule := (@Rule Re).

(** The rules are stored as JSON, without their compiled patterns. *)
Definition strip (c : @Condition Re) : @Condition Re := with_compiled [] c.
Definition stored (r : Rule) : Rule :=
  mkRule (RID r) (RTenantID r) (Name r) (RDirection r) (RAction r) (Priority r) (Enabled r)
    (map strip (Conditions r)) (map strip (Exceptions r)) (Tag r).

Record ruleStore := mkStore {
  table : gmap string Rule;                (* filter_rules, by id *)
  enabled : TTLCache.t (list Rule);
  generation : Z
}.

Definition NewRuleStore (t : gmap string Rule) : ruleStore :=
  mkStore t (TTLCache.NewWithLimit enabledRulesTTL enabledRulesMaxEntries) 0.

Definition direction_string (d : Direction) : string :=
  match d with
  | DirectionOutbound => "outbound"
  | DirectionInbound => "inbound"
  | DirectionOther s => s
  end.

Definition enabledKey (tenant : string) (d : Direction) : string :=
  (tenant +:+ "|" +:+ direction_string d)%string.

Definition set_table (t : gmap string Rule) (s : ruleStore) : ruleStore :=
  mkStore t (enabled s) (generation s).

(** [invalidate]; the counter is wide enough not to come round during a read. *)
Definition invalidate (tenant : string) (s : ruleStore) : ruleStore :=
  mkStore (table s)
    (TTLCache.Delete (TTLCache.Delete (enabled s) (enabledKey tenant DirectionInbound))
       (enabledKey tenant DirectionOutbound))
    (generation s + 1).

(** ** Writes *)

Definition errDuplicate : string := "duplicate key value violates unique constraint".

Definition insertRule (r : Rule) (s : ruleStore) : result string (ruleStore * unit) :=
  match table s !! RID r with
  | Some _ => Err errDuplicate
  | None => Ok (set_table (<[RID r := stored r]> (table s)) s, tt)
  end.

(** The UPDATE and DELETE match the tenant as well as the id; both report the
    rows affected. *)
Definition updateRule (r : Rule) (s : ruleStore) : result string (ruleStore * Z) :=
  match table s !! RID r with
  | Some r0 =>
      if bool_decide (RTenantID r0 = RTenantID r)
      then Ok (set_table (<[RID r := stored r]> (table s)) s, 1) else Ok (s, 0)
  | None => Ok (s, 0)
  end.

Definition deleteRule (tenant id : string) (s : ruleStore) : result string (ruleStore * Z) :=
  match table s !! id with
  | Some r0 =>
      if bool_decide (RTenantID r0 = tenant)
      then Ok (set_table (delete id (table s)) s, 1) else Ok (s, 0)
  | None => Ok (s, 0)
  end.

(** Errors a write can return: the rule is invalid, or the database says so. *)
Inductive storeError :=
| Invalid (e : filterError)
| Database (e : string)
| NotFound
| StoredInvalid (id : string) (e : filterError).

Definition mustAffectOne (r : result string Z) : result storeError unit :=
  match r with
  | Err e => Err (Database e)
  | Ok affected => if affected =? 0 then Err NotFound else Ok tt
  end.

(** A connection that is down is found before the statement, and nothing is
    invalidated; otherwise the cache is invalidated whatever the statement
    answered. *)
Definition after_write {A} (f : fault) (tenant : string) (out : ruleStore * result string A) :
    ruleStore * result string A :=
  match f with
  | Down => out
  | _ => (invalidate tenant out.1, out.2)
  end.

Definition Create (f : fault) (r : Rule) (s : ruleStore) : ruleStore * result storeError unit :=
  match Validate Compile r with
  | Err e => (s, Err (Invalid e))
  | Ok r' =>
      let out := after_write f (RTenantID r) (exec f (insertRule r') s) in
      (out.1, match out.2 with Ok _ => Ok tt | Err e => Err (Database e) end)
  end.

Definition Update (f : fault) (r : Rule) (s : ruleStore) : ruleStore * result storeError unit :=
  match Validate Compile r with
  | Err e => (s, Err (Invalid e))
  | Ok r' =>
      let out := after_write f (RTenantID r) (exec f (updateRule r') s) in
      (out.1, mustAffectOne out.2)
  end.

Definition Delete (f : fault) (tenant id : string) (s : ruleStore) : ruleStore * result storeError unit :=
  let out := after_write f tenant (exec f (deleteRule tenant id) s) in
  (out.1, mustAffectOne out.2).

Definition Get (f : fault) (tenant id : string) (s : ruleStore) : result storeError Rule :=
  match snd (exec f (fun s => Ok (s, table s !! id)) s) with
  | Err e => Err (Database e)
  | Ok (Some r) => if bool_decide (RTenantID r = tenant) then Ok r else Err NotFound
  | Ok None => Err NotFound
  end.

(** ** The cached read *)

(** ORDER BY priority, id. *)
Definition by_priority_id (a b : Rule) : Prop :=
  Priority a < Priority b \/ (Priority a = Priority b /\ String.le (RID a) (RID b)).
#[export] Instance by_priority_id_dec : RelDecision by_priority_id.
Proof. intros a b. unfold by_priority_id. apply _. Defined.

Definition selectEnabled (tenant : string) (d : Direction) (t : gmap string Rule) : list Rule :=
  merge_sort by_priority_id
    (map_to_list
       (filter (fun kv : string * Rule => RTenantID kv.2 = tenant /\ RDirection kv.2 = d /\ Enabled kv.2 = true)
          t)).*2.

Fixpoint validateAll (l : list Rule) : result storeError (list Rule) :=
  match l with
  | [] => Ok []
  | r :: rest =>
      match Validate Compile r with
      | Err e => Err (StoredInvalid (RID r) e)
      | Ok r' =>
          match validateAll rest with
          | Ok rest' => Ok (r' :: rest')
          | Err e => Err e
          end
      end
  end.

(** The rules the table holds for a tenant and direction, compiled: what
    [Enabled] reads on a miss. *)
Definition queryEnabled (tenant : string) (d : Direction) (t : gmap string Rule) :
    result storeError (list Rule) := validateAll (selectEnabled tenant d t).

Definition runQuery (f : fault) (tenant : string) (d : Direction) (s : ruleStore) :
    result storeError (list Rule) :=
  match snd (exec f (fun s => Ok (s, queryEnabled tenant d (table s))) s) with
  | Ok r => r
  | Err e => Err (Database e)
  end.

(** The locked section that ends a miss: cache only if no write came between. *)
Definition finishRead (key : string) (gen : Z) (rules : list Rule) (now : Z) (s : ruleStore) : ruleStore :=
  if generation s =? gen
  then mkStore (table s) (TTLCache.Put (enabled s) key rules now now) (generation s)
  else s.

(** [Enabled]; [mid1] and [mid2] are what other goroutines do between reading
    the generation, the query and the final locked section. *)
Definition Enabled_ (f : fault) (mid1 mid2 : ruleStore -> ruleStore) (now now' : Z)
    (tenant : string) (d : Direction) (s : ruleStore) :
    ruleStore * result storeError (list Rule) :=
  let key := enabledKey tenant d in
  match TTLCache.Get (enabled s) key now with
  | (Some rules, c) => (mkStore (table s) c (generation s), Ok rules)
  | (None, c) =>
      let s1 := mkStore (table s) c (generation s) in
      let gen := generation s1 in
      let s2 := mid1 s1 in
      match runQuery f tenant d s2 with
      | Err e => (s2, Err e)
      | Ok rules => (finishRead key gen rules now' (mid2 s2), Ok rules)
      end
  end.

(** ** Concurrent executions

    One gateway's goroutines: each [Enabled] that misses is a reader going
    through its generation, its query and its final section; each write is a
    commit to the table and, later, the invalidation. *)
Record reader := mkReader {
  rd_tenant : string;
  rd_direction : Direction;
  rd_generation : Z;
  rd_rules : option (list Rule)
}.

Record system := mkSystem {
  store : ruleStore;
  unsettled : list string;                 (* writes committed and not yet invalidated *)
  readers : gmap nat reader
}.

Definition valid_direction (d : Direction) : Prop :=
  d = DirectionInbound \/ d = DirectionOutbound.

(** A statement on one tenant's rules leaves every other tenant's alone. *)
Definition touches_only (tenant : string) (t t' : gmap string Rule) : Prop :=
  forall id r, RTenantID r <> tenant -> t' !! id = Some r <-> t !! id = Some r.

Inductive step : system -> system -> Prop :=
| StepCommit s u rs tenant t' :
    touches_only tenant (table s) t' ->
    step (mkSystem s u rs) (mkSystem (set_table t' s) (tenant :: u) rs)
| StepInvalidate s u1 u2 rs tenant :
    step (mkSystem s (u1 ++ tenant :: u2) rs) (mkSystem (invalidate tenant s) (u1 ++ u2) rs)
| StepHit s u rs key now :
    step (mkSystem s u rs)
         (mkSystem (mkStore (table s) (TTLCache.Get (enabled s) key now).2 (generation s)) u rs)
| StepBegin s u rs i tenant d :
    valid_direction d ->
    step (mkSystem s u rs) (mkSystem s u (<[i := mkReader tenant d (generation s) None]> rs))
| StepQuery s u rs i tenant d gen old rules :
    rs !! i = Some (mkReader tenant d gen old) ->
    runQuery Up tenant d s = Ok rules ->
    step (mkSystem s u rs) (mkSystem s u (<[i := mkReader tenant d gen (Some rules)]> rs))
| StepFinish s u rs i tenant d gen rules now :
    rs !! i = Some (mkReader tenant d gen (Some rules)) ->
    step (mkSystem s u rs) (mkSystem (finishRead (enabledKey tenant d) gen rules now s) u (delete i rs)).

Definition initial (t : gmap string Rule) : system := mkSystem (NewRuleStore t) [] ∅.
Definition reachable (t : gmap string Rule) (s : system) : Prop := rtc step (initial t) s.
End Store.

(** ** The cache never undoes a write *)

Section Proofs.
Context {Re : Type} (Compile : string -> result string Re).
Abbreviation Rule := (@Rule Re).

Lemma enabledKey_inj t d t' d' :
  valid_direction d -> valid_direction d' -> enabledKey t d = enabledKey t' d' -> t = t' /\ d = d'.
Proof.
  intros Hd Hd' Heq.
  assert (forall d, valid_direction d -> cut_last (direction_string d) "|" = None) as Hcut
    by (intros d0 [->| ->]; reflexivity).
  assert (Some (t, direction_string d) = Some (t', direction_string d')) as Hs.
  { rewrite <- (cut_last_app t (direction_string d) "|") by auto.
    rewrite <- (cut_last_app t' (direction_string d') "|") by auto.
    exact (f_equal (fun k => cut_last k "|") Heq). }
  injection Hs as -> Hdir. split; [done|].
  destruct Hd as [->| ->], Hd' as [->| ->]; done.
Qed.

Lemma touches_only_select tenant tenant' d (t t' : gmap string Rule) :
  touches_only tenant t t' -> tenant' <> tenant -> selectEnabled tenant' d t' = selectEnabled tenant' d t.
Proof.
  intros Ht Hne. unfold selectEnabled. do 3 f_equal. apply map_eq. intros id.
  apply option_eq. intros r. rewrite !map_lookup_filter_Some. simpl.
  split; intros [Hr (Hten & Hd & He)]; (split; [|done]); apply (Ht id r); congruence.
Qed.

(** Every cached answer, and every answer a reader could still cache, is what
    the table holds now -- or a write to that tenant has committed and has not
    been invalidated yet. *)
Definition fresh (s : ruleStore) (u : list string) (tenant : string) (d : Direction) (rules : list Rule) : Prop :=
  queryEnabled Compile tenant d (table s) = Ok rules \/ tenant ∈ u.

Definition cache_fresh (s : ruleStore) (u : list string) : Prop :=
  forall tenant d e, valid_direction d ->
    TTLCache.entries (enabled s) !! enabledKey tenant d = Some e ->
    fresh s u tenant d (TTLCache.value e).

Definition readers_fresh (s : ruleStore) (u : list string) (rs : gmap nat reader) : Prop :=
  map_Forall (fun _ rd =>
    valid_direction (rd_direction rd) /\ rd_generation rd <= generation s /\
    (rd_generation rd = generation s -> forall rules, rd_rules rd = Some rules ->
       fresh s u (rd_tenant rd) (rd_direction rd) rules)) rs.

Definition inv (s : system) : Prop :=
  cache_fresh (store s) (unsettled s) /\ readers_fresh (store s) (unsettled s) (readers s).

Lemma fresh_commit s u tenant t' tenant' d rules :
  touches_only tenant (table s) t' -> fresh s u tenant' d rules ->
  fresh (set_table t' s) (tenant :: u) tenant' d rules.
Proof.
  intros Ht [Hq|Hin]; [|right; by right].
  destruct (decide (tenant' = tenant)) as [->|Hne]; [right; by left|left].
  unfold queryEnabled in *. simpl. by rewrite (touches_only_select tenant tenant' d (table s) t').
Qed.

Lemma invalidate_entries tenant (s : @ruleStore Re) key e :
  TTLCache.entries (enabled (invalidate tenant s)) !! key = Some e ->
  TTLCache.entries (enabled s) !! key = Some e /\
  key <> enabledKey tenant DirectionInbound /\ key <> enabledKey tenant DirectionOutbound.
Proof. simpl. rewrite !lookup_delete_Some. intros (? & ? & ?). done. Qed.

Lemma put_entry {V} (c : TTLCache.t V) k v n1 n2 key e :
  TTLCache.entries (TTLCache.Put c k v n1 n2) !! key = Some e ->
  (key = k /\ TTLCache.value e = v) \/ TTLCache.entries c !! key = Some e.
Proof.
  destruct (TTLCache.Put_entries c k v n1 n2) as (m & Hm & [->|[-> _]]).
  - rewrite lookup_insert. case_decide; [intros; simplify_eq; by left|].
    intros He. right. by eapply lookup_weaken.
  - intros He. right. by eapply lookup_weaken.
Qed.

Lemma rule_inv_step s s' : step Compile s s' -> inv s -> inv s'.
Proof.
  intros Hstep [Hc Hr]. destruct Hstep as
    [s u rs tenant t' Ht|s u1 u2 rs tenant|s u rs key now|s u rs i tenant d Hd
    |s u rs i tenant d gen old rules Hi Hq|s u rs i tenant d gen rules now Hi]; simpl in *.
  - split.
    + intros t d e Hd He. by apply fresh_commit, (Hc t d e).
    + intros i rd Hi. destruct (Hr i rd Hi) as (H1 & H2 & H3). split_and!; try done.
      intros Hg rules Hrules. by apply fresh_commit, H3.
  - split.
    + intros t d e Hd He. simpl in He. apply invalidate_entries in He as (He & Hn1 & Hn2).
      assert (t <> tenant) as Hne by (intros ->; destruct Hd as [->| ->]; done).
      destruct (Hc t d e Hd He) as [Hq|Hin]; [by left|right].
      rewrite elem_of_app, elem_of_cons in Hin. simpl. rewrite elem_of_app. tauto.
    + intros i rd Hi. destruct (Hr i rd Hi) as (H1 & H2 & H3). simpl in *.
      split_and!; [done|lia|]. intros Hg. lia.
  - split; [|done]. intros t d e Hd He. apply (Hc t d e Hd).
    eapply lookup_weaken; [exact He|apply TTLCache.Get_entries].
  - split; [done|]. intros j rd. simpl. rewrite lookup_insert. case_decide; [|apply Hr].
    intros; simplify_eq/=. split_and!; [done|lia|done].
  - split; [done|]. intros j rd. simpl. rewrite lookup_insert. case_decide; [|apply Hr].
    intros; simplify_eq/=. destruct (Hr _ _ Hi) as (H1 & H2 & _). simpl in *.
    split_and!; try done. intros _ rules' [= <-]. left.
    unfold runQuery, exec in Hq. simpl in Hq. done.
  - assert (generation (finishRead (enabledKey tenant d) gen rules now s) = generation s /\
            table (finishRead (enabledKey tenant d) gen rules now s) = table s) as [Eg Et]
      by (unfold finishRead; by destruct (_ =? _)).
    destruct (Hr i _ Hi) as (Hd & Hle & Hfresh). simpl in *. split.
    + intros t' d' e Hd' He. unfold fresh. simpl in *. rewrite Et. unfold finishRead in He.
      destruct (generation s =? gen) eqn:E; [|by apply (Hc t' d' e Hd' He)]. b2p.
      apply put_entry in He as [[Hk Hv]|He]; [|by apply (Hc t' d' e Hd' He)].
      apply enabledKey_inj in Hk as [-> ->]; [|done|done]. rewrite Hv. by apply Hfresh.
    + intros j rd Hj. simpl in Hj. apply lookup_delete_Some in Hj as [_ Hj].
      unfold fresh. simpl. rewrite Eg, Et. apply (Hr j rd Hj).
Qed.

Lemma reachable_inv t s : reachable Compile t s -> inv s.
Proof.
  intros Hr. unfold reachable in Hr. remember (initial t) as s0 eqn:E.
  assert (inv s0) as H0.
  { subst s0. split; [|apply map_Forall_empty]. intros tn d e _. simpl. by rewrite lookup_empty. }
  clear E. induction Hr as [|s1 s2 s3 Hs _ IH]; [done|]. eauto using rule_inv_step.
Qed.

(** The store's own writes are commits on one tenant. *)
Lemma writes_touch_one tenant id (r : Rule) (t : gmap string Rule) :
  (RTenantID r = tenant -> (forall r0, t !! id = Some r0 -> RTenantID r0 = tenant) ->
     touches_only tenant t (<[id := r]> t)) /\
  ((forall r0, t !! id = Some r0 -> RTenantID r0 = tenant) -> touches_only tenant t (delete id t)).
Proof.
  split.
  - intros Hr Hold id' r' Hne. rewrite lookup_insert. case_decide as Hk; [subst id'|done].
    split; [intros; by simplify_eq|]. intros H. by apply Hold in H.
  - intros Hold id' r' Hne. rewrite lookup_delete. case_decide as Hk; [subst id'|done].
    split; [done|]. intros H. by apply Hold in H.
Qed.
End Proofs.

(** The cache never undoes a write.  Along every interleaving of screening
    reads and rule edits on a gateway, once the edits to a tenant's rules have
    returned, a cached answer for that tenant is exactly the rules the table
    holds, compiled -- even for a read that started before the edit and
    finished after it. *)
Theorem rule_cache_reads_own_writes {Re} (Compile : string -> result string Re) t0 s tenant d now rules :
  reachable Compile t0 s -> valid_direction d -> tenant ∉ unsettled s ->
  (TTLCache.Get (enabled (store s)) (enabledKey tenant d) now).1 = Some rules ->
  queryEnabled Compile tenant d (table (store s)) = Ok rules.
Proof.
  intros Hr Hd Hu Hg. apply TTLCache.Get_hit in Hg as (e & He & <- & _).
  destruct (reachable_inv Compile t0 s Hr) as [Hc _].
  by destruct (Hc tenant d e Hd He) as [?|?].
Qed.

(** A reader that missed fills the cache, and the next read hits. *)
Lemma rule_cache_reads_own_writes_witness :
  let Compile := fun p : string => Ok p : result string string in
  exists s, reachable Compile ∅ s /\
    (TTLCache.Get (enabled (store s)) (enabledKey "t" DirectionOutbound) 5).1 = Some [] /\
    queryEnabled Compile "t" DirectionOutbound (table (store s)) = Ok [].
Proof.
  intros Compile.
  set (s1 := finishRead (enabledKey "t" DirectionOutbound) 0 [] 1 (NewRuleStore (Re:=string) ∅)).
  exists (mkSystem s1 [] ∅).
  assert (reachable Compile ∅ (mkSystem s1 [] ∅)) as Hr.
  { eapply rtc_l; [apply (StepBegin _ _ _ _ 0 "t" DirectionOutbound); by right|].
    eapply rtc_l.
    { eapply (StepQuery _ _ _ _ 0 "t" DirectionOutbound 0 None []); [reflexivity|vm_compute; reflexivity]. }
    eapply rtc_l.
    { eapply (StepFinish _ _ _ _ 0 "t" DirectionOutbound 0 [] 1). by rewrite lookup_insert_eq. }
    match goal with |- rtc _ ?a _ =>
      assert (a = mkSystem s1 [] ∅) as -> by (vm_compute; reflexivity) end.
    apply rtc_refl. }
  assert ((TTLCache.Get (enabled (store (mkSystem s1 [] ∅))) (enabledKey "t" DirectionOutbound) 5).1 = Some [])
    as Hg by (vm_compute; reflexivity).
  split_and!; [done|done|].
  apply (rule_cache_reads_own_writes Compile ∅ (mkSystem s1 [] ∅) "t" DirectionOutbound 5 []); try done.
  - by right.
  - apply not_elem_of_nil.
Defined.

End RuleStore.
