(* ===== verification/Quarantine.v ===== *)
(** * The quarantine: held mail, reviews, expiry and retention

    Models [internal/emailfilter]: quarantine.go, screen.go, review.go,
    expiry.go, held_event.go, and the store
    [stores/postgres/quarantine.go].  The review table and the outbox are one
    database ([QDB]); releasing and discarding a held outbound message are the
    outbox operations of [Outbox]. *)
From S2P Require Import Prelude GoStrings Filter Outbox.

Module Quarantine.
Import GoStrings Filter.
Local Open Scope Z_scope.

(** ** Data (quarantine.go) *)

Inductive RStatus :=
| StatusPending
| StatusReleased
| StatusRejected
| StatusExpired.

#[export] Instance RStatus_eq_dec : EqDecision RStatus.
Proof. solve_decision. Defined.

Definition Terminal (s : RStatus) : bool :=
  match s with
  | StatusReleased | StatusRejected | StatusExpired => true
  | StatusPending => false
  end.

Definition maxStoredSubject : nat := 512.
Definition DefaultQuarantineRetention : Z := 30 * 24 * Hour.

Section Q.
Context {Re : Type}.
Abbreviation Condition := (@Condition Re).

Record FilteredMessage := mkFiltered {
  ID : string;
  TenantID : string;
  FDirection : Direction;
  RuleID : string;
  RuleName : string;
  FAction : Action;
  FStatus : RStatus;
  MessageID : string;
  FFrom : string;
  FRecipients : list string;
  FSubject : string;
  SizeBytes : Z;
  AttachmentCount : Z;
  AttachmentNames : list string;
  Matched : list Condition;
  PayloadRef : string;
  FProviderID : string;
  ReviewedBy : string;
  ReviewedAt : option Z;
  ReviewNote : string;
  CreatedAt : Z;
  ExpiresAt : option Z
}.

Definition NewFilteredMessage (tenant : string) (d : Direction) (m : Message) (dec : @Decision Re) : FilteredMessage :=
  {| ID := ""; TenantID := tenant; FDirection := d;
     RuleID := match DRule dec with Some r => RID r | None => "" end;
     RuleName := match DRule dec with Some r => Name r | None => "" end;
     FAction := DAction dec; FStatus := StatusPending; MessageID := "";
     FFrom := From_ m; FRecipients := Recipients m;
     FSubject := String.substring 0 maxStoredSubject (Subject m);
     SizeBytes := MSize m; AttachmentCount := Z.of_nat (length (Attachments m));
     AttachmentNames := map Filename (Attachments m); Matched := DMatched dec;
     PayloadRef := ""; FProviderID := ProviderID m; ReviewedBy := ""; ReviewedAt := None;
     ReviewNote := ""; CreatedAt := 0; ExpiresAt := None |}.

Definition with_identity (id : string) (created : Z) (expires : option Z) (m : FilteredMessage) : FilteredMessage :=
  mkFiltered id (TenantID m) (FDirection m) (RuleID m) (RuleName m) (FAction m) (FStatus m) (MessageID m)
    (FFrom m) (FRecipients m) (FSubject m) (SizeBytes m) (AttachmentCount m) (AttachmentNames m) (Matched m)
    (PayloadRef m) (FProviderID m) (ReviewedBy m) (ReviewedAt m) (ReviewNote m) created expires.

Definition with_review (st : RStatus) (by_ : string) (at_ : option Z) (note : string) (m : FilteredMessage) : FilteredMessage :=
  mkFiltered (ID m) (TenantID m) (FDirection m) (RuleID m) (RuleName m) (FAction m) st (MessageID m)
    (FFrom m) (FRecipients m) (FSubject m) (SizeBytes m) (AttachmentCount m) (AttachmentNames m) (Matched m)
    (PayloadRef m) (FProviderID m) by_ at_ note (CreatedAt m) (ExpiresAt m).

(** ** Notifications (held_event.go) *)

Record HeldEvent := mkHeldEvent {
  h_record : string; h_direction : Direction; h_message : string; h_rule : string; h_rule_name : string;
  h_from : string; h_recipients : list string; h_subject : string; h_size : Z;
  h_attachments : Z; h_names : list string; h_matched : list (Field * Operator * list string * string * Z);
  h_held : Z; h_expires : option Z
}.

Record OutcomeEvent := mkOutcome {
  o_record : string; o_direction : Direction; o_message : string; o_rule : string; o_rule_name : string;
  o_from : string; o_recipients : list string; o_subject : string;
  o_held : Z; o_decided : Z; o_by : string; o_note : string
}.

Definition heldEventFor (m : FilteredMessage) : HeldEvent :=
  mkHeldEvent (ID m) (FDirection m) (MessageID m) (RuleID m) (RuleName m) (FFrom m) (FRecipients m)
    (FSubject m) (SizeBytes m) (AttachmentCount m) (AttachmentNames m)
    (map (fun c : Condition => (CField c, COperator c, CValues c, CHeader c, CNumber c)) (Matched m))
    (CreatedAt m) (ExpiresAt m).

Definition outcomeEventFor (m : FilteredMessage) (decidedAt : Z) : OutcomeEvent :=
  mkOutcome (ID m) (FDirection m) (MessageID m) (RuleID m) (RuleName m) (FFrom m) (FRecipients m)
    (FSubject m) (CreatedAt m) decidedAt (ReviewedBy m) (ReviewNote m).

Inductive notification :=
| NotifyHeld (tenant : string) (e : HeldEvent)
| NotifyReleased (tenant : string) (e : OutcomeEvent)
| NotifyRejected (tenant : string) (e : OutcomeEvent)
| NotifyExpired (tenant : string) (e : OutcomeEvent).

(** ** The review table (stores/postgres/quarantine.go) *)

Record QDB := mkQDB {
  filtered : gmap string FilteredMessage;      (* filtered_messages, by id *)
  box : Outbox.DB
}.

Definition set_filtered (m : gmap string FilteredMessage) (s : QDB) : QDB := mkQDB m (box s).
Definition set_box (b : Outbox.DB) (s : QDB) : QDB := mkQDB (filtered s) b.

Definition insertFiltered (m : FilteredMessage) (s : QDB) : result string (QDB * unit) :=
  match filtered s !! ID m with
  | Some _ => Err Outbox.errDuplicate
  | None => Ok (set_filtered (<[ID m := m]> (filtered s)) s, tt)
  end.

Definition selectFiltered (tenant id : string) (s : QDB) : option FilteredMessage :=
  match filtered s !! id with
  | Some m => if bool_decide (TenantID m = tenant) then Some m else None
  | None => None
  end.

(** [reviewFiltered]: out of PENDING, and only out of PENDING. *)
Definition reviewFiltered (tenant id : string) (st : RStatus) (by_ : string) (now : Z) (note : string) (s : QDB) : QDB * Z :=
  match filtered s !! id with
  | Some m =>
      if bool_decide (TenantID m = tenant) && bool_decide (FStatus m = StatusPending)
      then (set_filtered (<[id := with_review st by_ (Some now) note m]> (filtered s)) s, 1)
      else (s, 0)
  | None => (s, 0)
  end.

Definition due (now : Z) (m : FilteredMessage) : bool :=
  bool_decide (FStatus m = StatusPending) &&
  match ExpiresAt m with Some t => t <=? now | None => false end.

Definition by_expiry (a b : string * FilteredMessage) : Prop :=
  default 0 (ExpiresAt a.2) <= default 0 (ExpiresAt b.2).
#[export] Instance by_expiry_dec : RelDecision by_expiry.
Proof. intros a b. unfold by_expiry. apply _. Defined.

Definition selectDueForExpiry (now : Z) (limit : nat) (s : QDB) : list string :=
  (take limit (merge_sort by_expiry
     (filter (fun kv => due now kv.2 = true) (map_to_list (filtered s))))).*1.

(** The UPDATE of the sweep, guarded by the status. *)
Definition expireIds (ids : list string) (s : QDB) : QDB :=
  set_filtered
    (map_imap (fun id m =>
       Some (if bool_decide (id ∈ ids) && bool_decide (FStatus m = StatusPending)
             then with_review StatusExpired (ReviewedBy m) (ReviewedAt m) (ReviewNote m) m else m))
       (filtered s)) s.

Definition selectExpired (ids : list string) (s : QDB) : list FilteredMessage :=
  filter (fun m => FStatus m = StatusExpired) (omap (fun id => filtered s !! id) ids).

(** [pruneTerminalFiltered]. *)
Definition decided_at (m : FilteredMessage) : Z :=
  match ReviewedAt m, ExpiresAt m with
  | Some t, _ => t
  | None, Some t => t
  | None, None => CreatedAt m
  end.

Definition over (before : Z) (m : FilteredMessage) : bool :=
  (Terminal (FStatus m) || negb (bool_decide (FAction m = ActionHold))) && (decided_at m <? before).

Definition pruneFiltered (before : Z) (s : QDB) : QDB :=
  set_filtered (filter (fun kv => over before kv.2 = false) (filtered s)) s.

(** *** The store's methods *)

Inductive reviewError :=
| NotFound
| AlreadyReviewed
| NotAnOutcome
| StoreError (e : string).

Definition Create (f : fault) (m : FilteredMessage) : QDB -> QDB * result string unit :=
  exec f (insertFiltered m).

Definition Get (f : fault) (tenant id : string) (s : QDB) : result reviewError FilteredMessage :=
  match snd (exec f (fun s => Ok (s, selectFiltered tenant id s)) s) with
  | Err e => Err (StoreError e)
  | Ok None => Err NotFound
  | Ok (Some m) => Ok m
  end.

(** [Review]; [mid] is what other processes commit before the read back. *)
Definition Review (f1 f2 : fault) (mid : QDB -> QDB) (now : Z) (tenant id : string) (st : RStatus)
    (by_ note : string) (s : QDB) : QDB * result reviewError FilteredMessage :=
  if negb (Terminal st) then (s, Err NotAnOutcome)
  else
    match exec f1 (fun s => Ok (reviewFiltered tenant id st by_ now note s)) s with
    | (s1, Err e) => (s1, Err (StoreError e))
    | (s1, Ok affected) =>
        let s2 := mid s1 in
        if affected =? 0
        then (s2, match Get f2 tenant id s2 with Err e => Err e | Ok _ => Err AlreadyReviewed end)
        else (s2, Get f2 tenant id s2)
    end.

Definition maxPageSize : nat := 500.

(** [Expire]: select, guarded update, read back; [mid1], [mid2] in between. *)
Definition Expire (f1 f2 f3 : fault) (mid1 mid2 : QDB -> QDB) (now : Z) (limit : Z) (s : QDB) :
    QDB * result string (list FilteredMessage) :=
  let limit := if limit <=? 0 then maxPageSize else Z.to_nat limit in
  match exec f1 (fun s => Ok (s, selectDueForExpiry now limit s)) s with
  | (s1, Err e) => (s1, Err e)
  | (s1, Ok []) => (s1, Ok [])
  | (s1, Ok ids) =>
      match exec f2 (fun s => Ok (expireIds ids s, tt)) (mid1 s1) with
      | (s2, Err e) => (s2, Err e)
      | (s2, Ok _) => exec f3 (fun s => Ok (s, selectExpired ids s)) (mid2 s2)
      end
  end.

Definition PruneTerminal (f : fault) (before : Z) : QDB -> QDB * result string Z :=
  exec f (fun s => Ok (pruneFiltered before s,
    Z.of_nat (size (filtered s)) - Z.of_nat (size (filtered (pruneFiltered before s))))).

(** ** The screener (screen.go) *)

Definition NewScreener_retention (retention : Z) : Z :=
  if retention <=? 0 then DefaultQuarantineRetention else retention.
Definition SetRetention (d : Z) : Z := Z.max d 0.

(** [Record] completes and stores a decision and announces a hold; [notifier]
    says whether one is configured, [uuid] is the fresh id, [now] the clock. *)
Definition complete (retention now : Z) (uuid : string) (m : FilteredMessage) : FilteredMessage :=
  let created := if time_is_zero (CreatedAt m) then now else CreatedAt m in
  with_identity (if bool_decide (ID m = ""%string) then uuid else ID m) created
    (match ExpiresAt m with
     | Some t => Some t
     | None => if bool_decide (FAction m = ActionHold) && (0 <? retention)
               then Some (time_add created retention) else None
     end) m.

Definition Record_ (f : fault) (notifier : bool) (retention now : Z) (uuid : string)
    (m0 : FilteredMessage) (s : QDB) : QDB * list notification * result string FilteredMessage :=
  let m := complete retention now uuid m0 in
  match Create f m s with
  | (s', Err e) => (s', [], Err ("emailfilter: could not record the decision: " +:+ e)%string)
  | (s', Ok _) =>
      (s', if bool_decide (FAction m = ActionHold) && notifier then [NotifyHeld (TenantID m) (heldEventFor m)] else [],
       Ok m)
  end.

(** ** Reviews (review.go) *)

(** How the environment answers the calls of one review. *)
Record ReviewEnv := mkReviewEnv {
  r_now : Z;
  r_update : fault;
  r_get : fault;
  r_mid : QDB -> QDB;
  r_read : fault;                                    (* the outbox read *)
  r_write : fault;                                   (* the outbox write *)
  r_boxmid : Outbox.DB -> Outbox.DB;
  r_clock : Z
}.

(** The wiring: an outbound releaser, an inbound one, a notifier. *)
Record Wiring := mkWiring {
  outbound : bool;
  inbound : option (string -> string -> result string unit);
  notifier : bool
}.

Definition outcome (w : Wiring) (clock : Z) (m : FilteredMessage) : option OutcomeEvent :=
  if notifier w then Some (outcomeEventFor m (default clock (ReviewedAt m))) else None.

(** [deliver]: the outbox after it, and the error if the message did not go. *)
Definition deliver (w : Wiring) (env : ReviewEnv) (m : FilteredMessage) (s : QDB) : QDB * result string unit :=
  if negb (bool_decide (FAction m = ActionHold)) then (s, Ok tt)
  else if bool_decide (PayloadRef m = ""%string) then (s, Err "no payload was retained"%string)
  else
    match FDirection m with
    | DirectionOutbound =>
        if negb (outbound w) then (s, Err "outbound release is not configured"%string)
        else
          let '(b, _, res) := Outbox.ReleaseHeld (r_read env) (r_write env) (r_boxmid env)
                                (r_clock env) (r_clock env) (TenantID m) (PayloadRef m) (box s) in
          (set_box b s, res)
    | DirectionInbound =>
        match inbound w with
        | None => (s, Err "inbound release is not configured"%string)
        | Some release => (s, release (TenantID m) (PayloadRef m))
        end
    | DirectionOther d => (s, Err ("unknown direction " +:+ d)%string)
    end.

Inductive releaseResult :=
| ReviewFailed (e : reviewError)
| NotDelivered (m : FilteredMessage) (e : string)
| Done (m : FilteredMessage).

Definition Release (w : Wiring) (env : ReviewEnv) (tenant id by_ note : string) (s : QDB) :
    QDB * list notification * releaseResult :=
  match Review (r_update env) (r_get env) (r_mid env) (r_now env) tenant id StatusReleased by_ note s with
  | (s1, Err e) => (s1, [], ReviewFailed e)
  | (s1, Ok m) =>
      match deliver w env m s1 with
      | (s2, Err e) => (s2, [], NotDelivered m e)
      | (s2, Ok _) =>
          (s2, match outcome w (r_clock env) m with Some e => [NotifyReleased tenant e] | None => [] end, Done m)
      end
  end.

(** Dropping the payload of a hold whose review is over; its failure is logged. *)
Definition discard (w : Wiring) (env : ReviewEnv) (m : FilteredMessage) (s : QDB) : QDB :=
  if outbound w && bool_decide (FDirection m = DirectionOutbound) && bool_decide (FAction m = ActionHold)
     && negb (bool_decide (PayloadRef m = ""%string))
  then set_box (Outbox.DiscardHeld (r_read env) (r_write env) (r_boxmid env) (TenantID m) (PayloadRef m) (box s)).1 s
  else s.

Definition Reject (w : Wiring) (env : ReviewEnv) (tenant id by_ note : string) (s : QDB) :
    QDB * list notification * releaseResult :=
  match Review (r_update env) (r_get env) (r_mid env) (r_now env) tenant id StatusRejected by_ note s with
  | (s1, Err e) => (s1, [], ReviewFailed e)
  | (s1, Ok m) =>
      (discard w env m s1,
       match outcome w (r_clock env) m with Some e => [NotifyRejected tenant e] | None => [] end, Done m)
  end.

(** ** Expiry and retention (expiry.go) *)

Definition SweepExpire (w : Wiring) (env : ReviewEnv) (f1 f2 f3 : fault) (mid1 mid2 : QDB -> QDB)
    (now limit : Z) (s : QDB) : QDB * list notification * result string Z :=
  match Expire f1 f2 f3 mid1 mid2 now limit s with
  | (s1, Err e) => (s1, [], Err e)
  | (s1, Ok expired) =>
      let s2 := foldl (fun s m => discard w env m s) s1 expired in
      let notes :=
        if notifier w
        then map (fun m => NotifyExpired (TenantID m) (outcomeEventFor m (r_clock env)))
               (filter (fun m => TenantID m <> ""%string) expired)
        else [] in
      (s2, notes, Ok (Z.of_nat (length expired)))
  end.

(** The EXISTS of [prune_held_outbox.sql]. *)
Definition review_pending (s : QDB) (message : string) : bool :=
  bool_decide (Exists (fun kv : string * FilteredMessage => MessageID kv.2 = message /\ FStatus kv.2 = StatusPending)
                 (map_to_list (filtered s))).

(** [PruneBefore]: the records and held payloads that went, and whether either
    pass failed. *)
Definition PruneBefore (w : Wiring) (f1 f2 : fault) (before : Z) (s : QDB) : QDB * Z * bool :=
  let '(s1, r1) := PruneTerminal f1 before s in
  let n1 := match r1 with Ok n => n | Err _ => 0 end in
  if outbound w then
    let '(b, r2) := Outbox.PruneHeld f2 (review_pending s1) before (box s1) in
    let n2 := match r2 with Ok n => n | Err _ => 0 end in
    (set_box b s1, n1 + n2, is_ok r1 && is_ok r2)
  else (s1, n1, is_ok r1).
End Q.
Arguments FilteredMessage Re : clear implicits.
Arguments QDB Re : clear implicits.

(** ** A review is decided once *)

Section Proofs.
Context {Re : Type}.
Abbreviation FilteredMessage := (FilteredMessage Re).
Abbreviation QDB := (QDB Re).

(** Statements other processes commit against the review table. *)
Inductive qop :=
| QReview (tenant id : string) (st : RStatus) (by_ : string) (now : Z) (note : string)
| QExpire (ids : list string)
| QInsert (m : FilteredMessage)
| QPrune (before : Z)
| QBox (f : Outbox.DB -> Outbox.DB).

Definition qstep (s : QDB) (o : qop) : QDB :=
  match o with
  | QReview tenant id st by_ now note => (reviewFiltered tenant id st by_ now note s).1
  | QExpire ids => expireIds ids s
  | QInsert m => match insertFiltered m s with Ok (s', _) => s' | Err _ => s end
  | QPrune before => pruneFiltered before s
  | QBox f => set_box (f (box s)) s
  end.

Definition qrun (tr : list qop) (s : QDB) : QDB := foldl qstep s tr.

(** Ids are fresh: no process inserts a second record under this one. *)
Definition not_inserting (id : string) (o : qop) : Prop :=
  match o with QInsert m => ID m <> id | _ => True end.

(** The record is decided as [st], or gone. *)
Definition decided (id : string) (st : RStatus) (s : QDB) : Prop :=
  forall m, filtered s !! id = Some m -> FStatus m = st.

Lemma decided_step id st s o :
  Terminal st = true -> decided id st s -> not_inserting id o -> decided id st (qstep s o).
Proof.
  intros Ht Hd Hn m. destruct o as [tenant id' st' by_ now note|ids|m'|before|f]; simpl.
  - unfold reviewFiltered. destruct (filtered s !! id') as [m0|] eqn:E; [|apply Hd].
    destruct (_ && _) eqn:Hb; simpl; [|apply Hd]. b2p.
    destruct (decide (id' = id)) as [->|Hk]; [|rewrite lookup_insert_ne by done; apply Hd].
    exfalso. apply Hd in E. repeat case_bool_decide; try done.
    assert (st = StatusPending) as -> by congruence. done.
  - rewrite map_lookup_imap. destruct (filtered s !! id) as [m0|] eqn:E; simpl; [|done].
    apply Hd in E. intros [= <-]. rewrite E, (bool_decide_false (st = StatusPending)) by (by intros ->).
    by rewrite andb_false_r.
  - unfold insertFiltered. destruct (filtered s !! ID m'); simpl; [apply Hd|].
    rewrite lookup_insert_ne by done. apply Hd.
  - intros H. apply map_lookup_filter_Some in H as [H _]. by apply Hd.
  - apply Hd.
Qed.

Lemma decided_run id st tr s :
  Terminal st = true -> decided id st s -> Forall (not_inserting id) tr -> decided id st (qrun tr s).
Proof.
  intros Ht. revert s. induction tr as [|o tr IH]; intros s Hd Htr; simpl; [done|].
  apply Forall_cons in Htr as [Ho Htr]. apply IH; [|done]. by apply decided_step.
Qed.

(** A review that reports success decided the record itself. *)
Lemma Review_decides f1 f2 tr now tenant id st by_ note s s1 m :
  Forall (not_inserting id) tr ->
  Review f1 f2 (qrun tr) now tenant id st by_ note s = (s1, Ok m) ->
  Terminal st = true /\ decided id st s1 /\ FStatus m = st /\ f1 = Up /\
  exists m0, filtered s !! id = Some m0 /\ TenantID m0 = tenant /\ FStatus m0 = StatusPending.
Proof.
  intros Htr. unfold Review. destruct (Terminal st) eqn:Ht; simpl; [|done].
  destruct f1; simpl; try done.
  2: { destruct (reviewFiltered tenant id st by_ now note s); simpl; done. }
  destruct (reviewFiltered tenant id st by_ now note s) as [s0 n] eqn:Hrev.
  destruct (n =? 0) eqn:Hn; [intros [= _ H]; by destruct (Get f2 tenant id (qrun tr s0))|].
  intros [= <- Hget].
  unfold reviewFiltered in Hrev. destruct (filtered s !! id) as [m0|] eqn:E; [|by simplify_eq].
  destruct (_ && _) eqn:Hb; simplify_eq. b2p. repeat case_bool_decide; try done.
  assert (decided id st (qrun tr (set_filtered (<[id := with_review st by_ (Some now) note m0]> (filtered s)) s))) as Hd.
  { apply decided_run; try done. intros m1. simpl. rewrite lookup_insert_eq. by intros [= <-]. }
  split_and!; try done; [|by exists m0].
  unfold Get, exec, selectFiltered in Hget. destruct f2; simplify_eq/=.
  destruct (filtered (qrun _ _) !! id) as [m2|] eqn:E2; simplify_eq/=.
  case_bool_decide; simplify_eq/=. by apply Hd.
Qed.

Lemma Review_refused f1 f2 mid now tenant id st st' by_ note s s1 r :
  Terminal st = true -> decided id st s ->
  Review f1 f2 mid now tenant id st' by_ note s = (s1, r) -> forall m, r <> Ok m.
Proof.
  intros Ht Hd. unfold Review. destruct (Terminal st'); simpl; [|by intros [= _ <-]].
  assert ((reviewFiltered tenant id st' by_ now note s).2 = 0) as H0.
  { unfold reviewFiltered. destruct (filtered s !! id) as [m0|] eqn:E; [|done].
    apply Hd in E. rewrite E, (bool_decide_false (st = StatusPending)), andb_false_r by (by intros ->). done. }
  destruct f1; simpl; destruct (reviewFiltered tenant id st' by_ now note s) as [s0 n];
    simpl in H0; subst n; intros Heq m ->; simplify_eq/=.
  by destruct (Get f2 tenant id (mid s0)).
Qed.
End Proofs.

(** Of all the people and sweeps that reach for one held message, exactly
    one decides it.  Once a review reports success, every later review of that
    record -- release or reject, by anyone, after any interleaving of other
    statements -- is refused, and no expiry sweep announces it.  Since a release
    acts only after its review succeeds, a message is never released twice, nor
    both released and rejected. *)
Theorem review_decides_once {Re} f1 f2 now tenant id st by_ note mid tr (s s1 : QDB Re) m :
  Forall (not_inserting id) mid -> Forall (not_inserting id) tr ->
  Review f1 f2 (qrun mid) now tenant id st by_ note s = (s1, Ok m) -> st <> StatusExpired ->
  (forall f1' f2' mid' now' tenant' st' by_' note' m',
     (Review f1' f2' mid' now' tenant' id st' by_' note' (qrun tr s1)).2 <> Ok m') /\
  (forall f1' f2' f3' mid1 mid2 now' limit expired,
     Forall (not_inserting id) mid1 -> Forall (not_inserting id) mid2 ->
     (Expire f1' f2' f3' (qrun mid1) (qrun mid2) now' limit (qrun tr s1)).2 = Ok expired ->
     forall m', filtered (qrun tr s1) !! id = Some m' -> m' ∉ expired).
Proof.
  intros Hmid Htr Hrev Hst.
  apply Review_decides in Hrev as (Ht & Hd & Hm & _); [|done].
  assert (decided id st (qrun tr s1)) as Hd' by (by apply decided_run).
  split.
  - intros f1' f2' mid' now' tenant' st' by_' note' m'.
    destruct (Review f1' f2' mid' now' tenant' id st' by_' note' (qrun tr s1)) as [s2 r] eqn:E.
    simpl. by eapply Review_refused.
  - intros f1' f2' f3' mid1 mid2 now' limit expired Hm1 Hm2 Hexp m' Hm' Hin.
    assert (FStatus m' = StatusExpired) as Hx; [|rewrite (Hd' _ Hm') in Hx; done].
    revert Hexp. unfold Expire, exec. destruct f1'; simpl; try done.
    destruct (selectDueForExpiry now' _ (qrun tr s1)) as [|i ids].
    { intros [= <-]. by apply not_elem_of_nil in Hin. }
    destruct f2'; simpl; try done. destruct f3'; simpl; try done.
    intros [= <-]. by apply list_elem_of_filter in Hin as [? _].
Qed.


(** Concrete records for the witnesses. *)
Module Demo.
Definition hold (status : RStatus) : FilteredMessage string :=
  mkFiltered "q" "t" DirectionOutbound "r" "rule" ActionHold status "m" "a@x" ["b@x"]%string "s" 1 0 [] []
    "m" "p" "" None "" 10 (Some 40).
Definition held_row : Outbox.Row := Outbox.mkRow "t" "{}" Outbox.Held 0 10 "" 10 10 None None.
Definition db : QDB string := mkQDB {["q" := hold StatusPending]} (Outbox.mkDB {["m" := held_row]} ∅).
Definition wired : Wiring := mkWiring true None true.
Definition env : ReviewEnv (Re:=string) := mkReviewEnv 20 Up Up (fun s => s) Up Up (fun s => s) 21.
End Demo.

Lemma review_decides_once_witness :
  let first := Review Up Up (qrun []) 20 "t" "q" StatusReleased "ann" "" Demo.db in
  let second := Review Up Up (fun s => s) 30 "t" "q" StatusRejected "bob" "" first.1 in
  exists m, first.2 = Ok m /\ second.2 = Err AlreadyReviewed /\ second.2 <> Ok m.
Proof.
  intros first second. eexists. split; [vm_compute; reflexivity|]. split; [vm_compute; reflexivity|].
  eapply (review_decides_once Up Up 20 "t" "q" StatusReleased "ann" "" [] [] Demo.db first.1);
    [constructor|constructor| |done].
  unfold first. rewrite (surjective_pairing (Review _ _ _ _ _ _ _ _ _ Demo.db)) at 1.
  f_equal; vm_compute; reflexivity.
Defined.

(** ** A release that is announced is on its way *)

Lemma deliver_filtered {Re} w env (m : FilteredMessage Re) s :
  filtered (deliver w env m s).1 = filtered s.
Proof.
  unfold deliver. repeat (case_match; simpl; try done).
Qed.

Lemma Review_box {Re} f1 f2 mid now tenant id st by_ note (s s1 : QDB Re) r :
  (forall s0, box (mid s0) = box s0) ->
  Review f1 f2 mid now tenant id st by_ note s = (s1, r) -> box s1 = box s.
Proof.
  intros Hmid. unfold Review.
  assert (box (reviewFiltered tenant id st by_ now note s).1 = box s) as Hb.
  { unfold reviewFiltered. by repeat (case_match; simpl). }
  destruct (negb (Terminal st)); [by intros [= <- _]|].
  destruct f1; simpl; destruct (reviewFiltered tenant id st by_ now note s) as [s0 n]; simpl in Hb;
    intros Heq; simplify_eq/=; try done.
  destruct (n =? 0); simplify_eq; by rewrite Hmid.
Qed.

(** Nobody is told a message was released unless it was.  A release
    announces only when its review succeeded and the message moved: a held
    outbound message's outbox row is then PENDING and due, so the next claim
    takes it.  A release that lost the race, or whose payload could not be
    moved, announces nothing and says so to the reviewer. *)
Theorem announced_release_moves {Re} w (env : ReviewEnv (Re:=Re)) tenant id by_ note s s' notes res :
  r_boxmid env = (fun b => b) -> (forall s0, box (r_mid env s0) = box s0) ->
  Release w env tenant id by_ note s = (s', notes, res) ->
  (notes <> [] -> exists m, res = Done m) /\
  (forall m r, res = Done m -> FAction m = ActionHold -> FDirection m = DirectionOutbound ->
     Outbox.outbox (box s) !! PayloadRef m = Some r -> Outbox.status r = Outbox.Held ->
     exists r', Outbox.outbox (box s') !! PayloadRef m = Some r' /\ Outbox.status r' = Outbox.Pending /\
       Outbox.claimable (r_clock env) r' = true).
Proof.
  intros Hbm Hmid. unfold Release. destruct (Review _ _ _ _ _ _ _ _ _ s) as [s1 [m|e]] eqn:Hrev.
  2: { intros [= <- <- <-]. done. }
  apply Review_box in Hrev; [|done].
  destruct (deliver w env m s1) as [s2 [[]|e]] eqn:Hdel; intros [= <- <- <-]; [|done].
  split; [eauto|]. intros m' r [= <-] Hact Hdir Hr Hheld. rewrite <- Hrev in Hr.
  revert Hdel. unfold deliver. rewrite Hact, Hdir. simpl.
  case_bool_decide; [done|]. destruct (outbound w); simpl; [|done]. rewrite Hbm.
  destruct (Outbox.ReleaseHeld _ _ _ _ _ _ _ (box s1)) as [[b' woken] res'] eqn:Hrel. intros [= <- ->].
  destruct (Outbox.ReleaseHeld_ok _ _ _ _ _ _ _ _ _ _ Hrel Hr Hheld) as (r' & H1 & H2 & _ & H3 & _).
  eauto.
Qed.

Lemma announced_release_moves_witness :
  let '(s', notes, res) := Release Demo.wired Demo.env "t" "q" "ann" "" Demo.db in
  notes <> [] /\ exists r', Outbox.outbox (box s') !! "m"%string = Some r' /\ Outbox.status r' = Outbox.Pending.
Proof.
  destruct (Release Demo.wired Demo.env "t" "q" "ann" "" Demo.db) as [[s' notes] res] eqn:E.
  pose proof (announced_release_moves Demo.wired Demo.env "t" "q" "ann" "" Demo.db s' notes res
    eq_refl (fun _ => eq_refl) E) as [_ H].
  vm_compute in E. injection E as Es' En Er. rewrite <- En. split; [done|].
  destruct (H _ Demo.held_row (eq_sym Er)) as (r' & H1 & H2 & _); try (vm_compute; reflexivity).
  exists r'. split; [exact H1|exact H2].
Defined.

(** ** Deadlines *)

Lemma selectDue_due {Re} now limit (s : QDB Re) id :
  id ∈ selectDueForExpiry now limit s -> exists m, filtered s !! id = Some m /\ due now m = true.
Proof.
  unfold selectDueForExpiry. intros Hin. apply list_elem_of_fmap in Hin as [[id' m] [Heq Hin]].
  simpl in Heq. subst id'. apply elem_of_take in Hin as (i & Hi & _).
  apply list_elem_of_lookup_2 in Hi. rewrite merge_sort_Permutation, list_elem_of_filter, elem_of_map_to_list in Hi.
  destruct Hi as [Hdue Hm]. by exists m.
Qed.

Lemma Expire_keeps {Re} f1 f2 f3 mid1 mid2 now limit (s : QDB Re) id m :
  (forall s0, filtered (mid1 s0) !! id = filtered s0 !! id) ->
  (forall s0, filtered (mid2 s0) !! id = filtered s0 !! id) ->
  filtered s !! id = Some m -> due now m = false ->
  filtered (Expire f1 f2 f3 mid1 mid2 now limit s).1 !! id = Some m.
Proof.
  intros H1 H2 Hm Hdue. unfold Expire.
  assert (forall l, id ∉ selectDueForExpiry now l s) as Hns.
  { intros l Hin. apply selectDue_due in Hin as (m' & Hm' & Hd). congruence. }
  destruct f1; simpl; try done.
  destruct (selectDueForExpiry now _ s) as [|i ids] eqn:E; [done|].
  assert (forall ids' (s0 : QDB Re), id ∉ ids' -> filtered (expireIds ids' s0) !! id = filtered s0 !! id) as Hexp.
  { intros ids' s0 Hni. simpl. rewrite map_lookup_imap. destruct (filtered s0 !! id); simpl; [|done].
    by rewrite bool_decide_false. }
  assert (id ∉ i :: ids) as Hni by (rewrite <- E; apply Hns).
  pose proof (Hexp (i :: ids) (mid1 s) Hni) as Hx. rewrite H1, Hm in Hx. unfold exec. cbv beta.
  set (sx := expireIds (i :: ids) (mid1 s)) in *. rewrite <- H1 in Hm. rewrite <- H2 in Hx.
  destruct f2; simpl; try done; [destruct f3; simpl; done|]. by rewrite H2 in Hx.
Qed.

(** A held message keeps the deadline it was given.  Recording a hold stamps
    it with the creation time plus the retention then in force -- none at all
    when retention is off -- and no other decision gets one.  From then on, no
    review changes it, and no expiry sweep before it (or at any time, when there
    is none) touches the record, whatever the retention has become since. *)
Theorem hold_keeps_its_deadline {Re} f notifier retention now uuid (m0 : FilteredMessage Re) s s' notes m :
  ID m0 = ""%string -> ExpiresAt m0 = None -> CreatedAt m0 = 0 -> now <> 0 ->
  FStatus m0 = StatusPending ->
  Record_ f notifier retention now uuid m0 s = (s', notes, Ok m) ->
  filtered s' !! uuid = Some m /\ CreatedAt m = now /\
  (ExpiresAt m = (if bool_decide (FAction m = ActionHold) && (0 <? retention)
                  then Some (now + retention) else None)) /\
  (forall f1 f2 f3 now' limit, (forall t, ExpiresAt m = Some t -> now' < t) ->
     filtered (Expire f1 f2 f3 (fun s => s) (fun s => s) now' limit s').1 !! uuid = Some m) /\
  (forall tenant id st by_ now' note m', filtered (reviewFiltered tenant id st by_ now' note s').1 !! uuid = Some m' ->
     ExpiresAt m' = ExpiresAt m).
Proof.
  intros Hid Hexp Hcr Hnow Hst. unfold Record_, Create, insertFiltered.
  set (m1 := complete retention now uuid m0).
  assert (ID m1 = uuid /\ CreatedAt m1 = now /\ FStatus m1 = StatusPending /\ FAction m1 = FAction m0 /\
          ExpiresAt m1 = (if bool_decide (FAction m1 = ActionHold) && (0 <? retention)
                          then Some (now + retention) else None)) as (Hid1 & Hcr1 & Hst1 & Ha1 & He1).
  { unfold m1, complete. simpl. rewrite Hid, Hexp, Hcr, bool_decide_true by done. split_and!; done. }
  clearbody m1. unfold exec. rewrite Hid1. destruct f, (filtered s !! uuid) eqn:E; intros Heq; try discriminate Heq.
  injection Heq as <- _ <-.
  assert (filtered (set_filtered (<[uuid := m1]> (filtered s)) s) !! uuid = Some m1) as Hin
    by (simpl; by rewrite lookup_insert_eq).
  split_and!; try done.
  - intros f1 f2 f3 now' limit Hlt. apply Expire_keeps; try done.
    unfold due. rewrite Hst1. simpl. destruct (ExpiresAt m1) as [t|] eqn:Ht; [|done].
    specialize (Hlt t eq_refl). apply Z.leb_gt. lia.
  - intros tenant id st by_ now' note m'. unfold reviewFiltered.
    simpl in *. destruct (decide (id = uuid)) as [->|Hne].
    + rewrite Hin. destruct (bool_decide (TenantID _ = tenant) && _); simpl; [|rewrite Hin; by intros [= <-]].
      rewrite lookup_insert_eq. by intros [= <-].
    + destruct (<[uuid := m1]> (filtered s) !! id); simpl; [|rewrite Hin; by intros [= <-]].
      destruct (bool_decide (TenantID _ = tenant) && _); simpl; [|rewrite Hin; by intros [= <-]].
      rewrite lookup_insert_ne, Hin by done. by intros [= <-].
Qed.

Lemma hold_keeps_its_deadline_witness :
  let m0 := with_identity "" 0 None (Demo.hold StatusPending) in
  let '(s', _, r) := Record_ Up true 30 10 "new" m0 Demo.db in
  exists m, r = Ok m /\ ExpiresAt m = Some 40.
Proof.
  intros m0. destruct (Record_ Up true 30 10 "new" m0 Demo.db) as [[s' notes] r] eqn:E.
  pose proof E as E2. vm_compute in E2. injection E2 as _ _ Er.
  eexists. split; [exact (eq_sym Er)|].
  rewrite <- Er in E.
  destruct (hold_keeps_its_deadline Up true 30 10 "new" m0 Demo.db s' notes _ eq_refl eq_refl eq_refl
    ltac:(discriminate) eq_refl E) as (_ & _ & H & _).
  exact H.
Defined.

(** ** Retention *)

(** Retention never takes mail a reviewer can still release.  Pruning with
    any cutoff keeps every pending hold's record and, for an outbound hold, the
    held outbox row that carries its payload. *)
Theorem retention_keeps_reviewable {Re} w f1 f2 before (s : QDB Re) id m :
  filtered s !! id = Some m -> FAction m = ActionHold -> FStatus m = StatusPending ->
  let s' := (PruneBefore w f1 f2 before s).1.1 in
  filtered s' !! id = Some m /\
  forall r, Outbox.outbox (box s) !! MessageID m = Some r -> Outbox.outbox (box s') !! MessageID m = Some r.
Proof.
  intros Hm Hact Hst s'.
  assert (forall f, filtered (PruneTerminal f before s).1 !! id = Some m /\ box (PruneTerminal f before s).1 = box s) as Hp.
  { intros f. unfold PruneTerminal, exec. destruct f; simpl; try done;
      (split; [|done]); apply map_lookup_filter_Some; (split; [done|]);
      simpl; unfold over; rewrite Hst, Hact; done. }
  unfold s', PruneBefore. destruct (Hp f1) as [Hk Hb].
  destruct (PruneTerminal f1 before s) as [s1 r1]. simpl in *.
  destruct (outbound w); simpl; [|by rewrite Hb].
  assert (review_pending s1 (MessageID m) = true) as Hpend.
  { unfold review_pending. apply bool_decide_eq_true, Exists_exists. exists (id, m).
    split; [by apply elem_of_map_to_list|done]. }
  unfold Outbox.PruneHeld, exec. destruct f2; simpl; rewrite ?Hb; (split; [done|]); try done;
    intros r Hr; rewrite Outbox.delete_where_lookup, Hr; simpl; unfold Outbox.held_before;
    rewrite Hpend; simpl; by rewrite andb_false_r.
Qed.

Lemma retention_keeps_reviewable_witness :
  let s' := (PruneBefore Demo.wired Up Up 1000000 Demo.db).1.1 in
  filtered s' !! "q"%string = Some (Demo.hold StatusPending) /\
  Outbox.outbox (box s') !! "m"%string = Some Demo.held_row.
Proof.
  intros s'.
  destruct (retention_keeps_reviewable Demo.wired Up Up 1000000 Demo.db "q" (Demo.hold StatusPending)) as [H1 H2];
    try reflexivity.
  split; [exact H1|]. apply (H2 Demo.held_row). reflexivity.
Defined.

(** ** Two sweeps at once *)

(** Two gateways sweeping at the same moment both announce the same expiry:
    the read back keeps rows that are EXPIRED, not the rows this sweep moved, so
    a sweep whose guarded update moved nothing still returns -- and announces --
    what the other one expired between its select and its update. *)
Theorem concurrent_sweeps_announce_twice :
  exists (s : QDB string) s1 s2 n1 n2 e1 e2,
    let other := fun s : QDB string => (Expire Up Up Up (fun s => s) (fun s => s) 50 10 s).1 in
    SweepExpire Demo.wired Demo.env Up Up Up (fun s => s) (fun s => s) 50 10 s = (s1, n1, Ok e1) /\
    SweepExpire Demo.wired Demo.env Up Up Up other (fun s => s) 50 10 s = (s2, n2, Ok e2) /\
    e1 = 1 /\ e2 = 1 /\ n1 = n2 /\
    expireIds (selectDueForExpiry 50 10 s) (other s) = other s.
Proof. exists Demo.db. do 6 eexists. vm_compute. split_and!; reflexivity. Qed.

End Quarantine.
