(* ===== verification/Suppression.v ===== *)
(** * The suppression list

    Models [internal/suppression]: the store
    (repositories/stores/postgres/store.go, with its SQL and the uniqueness of
    [(tenant_id, email)] in the schema) and the usecase
    (usecases/manage_suppressions_usecase.go).  Parsing and normalising an
    address are the mail library's ([gsmail.ParseEmailAddress],
    [gsmail.NormalizeAddress]): parameters of the model.  The paged listing for
    the dashboard is not modelled. *)
From S2P Require Import Prelude GoStrings Admission.

Module Suppression.
Import GoStrings Admission.
Local Open Scope Z_scope.

(** ** Data *)

(** [entities.Suppression]. *)
Record Suppression := mkSuppression {
  ID : string;
  TenantID : string;
  Email : string;
  Reason : string;
  CreatedAt : Z
}.

(** The table [suppressions], in insertion order. *)
Abbreviation Table := (list Suppression).

Definition maxEmailsPerLookup : nat := 500.
Definition maxRowsPerInsert : nat := 500.
Definition MaxImportEntries : Z := 10000.
Definition maxInvalidSamples : nat := 20.
Definition ErrEmptyAddress : string := "an email address is required".
Definition errDuplicate : string := "duplicate key value violates unique constraint".

(** ** The store *)

(** Two rows one of the table's keys forbids together. *)
Definition clash (a b : Suppression) : bool :=
  bool_decide (ID a = ID b) ||
  (bool_decide (TenantID a = TenantID b) && bool_decide (Email a = Email b)).

(** [create_suppression.sql]. *)
Definition insert_stmt (s : Suppression) (t : Table) : result string (Table * unit) :=
  if existsb (clash s) t then Err errDuplicate else Ok (t ++ [s], tt).

Definition Create (f : fault) (s : Suppression) : Table -> Table * result string unit :=
  exec f (insert_stmt s).

(** [create_suppressions_batch.sql]: a conflicting row is skipped. *)
Definition insert_new (acc : Table * Z) (s : Suppression) : Table * Z :=
  if existsb (clash s) acc.1 then acc else (acc.1 ++ [s], acc.2 + 1).

Definition insert_batch (sups : list Suppression) (t : Table) : Table * Z :=
  foldl insert_new (t, 0) sups.

(** [counts] tells whether the driver reports the rows affected. *)
Definition insertChunk (f : fault) (counts : bool) (sups : list Suppression) (t : Table) :
    Table * result string Z :=
  exec f (fun t => let '(t', n) := insert_batch sups t in Ok (t', if counts then n else 0)) t.

Fixpoint insertChunks (fs : nat -> fault) (counts : bool) (i : nat) (inserted : Z)
    (cs : list (list Suppression)) (t : Table) : Table * (Z * option string) :=
  match cs with
  | [] => (t, (inserted, None))
  | c :: rest =>
      match insertChunk (fs i) counts c t with
      | (t', Ok n) => insertChunks fs counts (S i) (inserted + n) rest t'
      | (t', Err e) => (t', (inserted, Some e))
      end
  end.

(** [CreateMany] returns its count beside its error. *)
Definition CreateMany (fs : nat -> fault) (counts : bool) (sups : list Suppression) (t : Table) :
    Table * (Z * option string) :=
  insertChunks fs counts 0 0 (chunks maxRowsPerInsert sups) t.

(** [delete_suppression.sql]. *)
Definition Delete (f : fault) (tenant email : string) (t : Table) : Table * result string unit :=
  exec f (fun t => Ok (filter (fun s => ~ (TenantID s = tenant /\ Email s = email)) t, tt)) t.

(** [get_suppression_by_email.sql]. *)
Definition select_email (tenant email : string) (t : Table) : option Suppression :=
  head (filter (fun s => TenantID s = tenant /\ Email s = email) t).

Definition GetByEmail (f : fault) (tenant email : string) (t : Table) : result string (option Suppression) :=
  snd (exec f (fun t => Ok (t, select_email tenant email t)) t).

(** [list_suppressions_by_emails.sql]. *)
Definition select_emails (tenant : string) (emails : list string) (t : Table) : list Suppression :=
  filter (fun s => TenantID s = tenant /\ Email s ∈ emails) t.

Definition appendSuppressed (f : fault) (tenant : string) (emails : list string)
    (into : gmap string Suppression) (t : Table) : result string (gmap string Suppression) :=
  match snd (exec f (fun t => Ok (t, select_emails tenant emails t)) t) with
  | Ok rows => Ok (foldl (fun m s => <[normal (Email s) := s]> m) into rows)
  | Err e => Err e
  end.

Fixpoint appendChunks (fs : nat -> fault) (i : nat) (tenant : string) (cs : list (list string))
    (found : gmap string Suppression) (t : Table) : result string (gmap string Suppression) :=
  match cs with
  | [] => Ok found
  | c :: rest =>
      match appendSuppressed (fs i) tenant c found t with
      | Ok found' => appendChunks fs (S i) tenant rest found' t
      | Err e => Err e
      end
  end.

Definition GetByEmails (fs : nat -> fault) (tenant : string) (emails : list string) (t : Table) :
    result string (gmap string Suppression) :=
  match emails, fs 0%nat with
  | [], _ => Ok ∅
  | _, Down => Err errNotConnected
  | _, _ => appendChunks fs 0 tenant (chunks maxEmailsPerLookup (uniqueFrom ∅ emails)) ∅ t
  end.

(** ** The usecase *)

(** [panmailv1.SuppressionEntry]; a list may hold nil ones. *)
Record Entry := mkEntry {
  E_Email : string;
  E_Reason : string
}.

Record ImportResult := mkImport {
  Imported : Z;
  AlreadySuppressed : Z;
  Invalid : Z;
  InvalidSamples : list string
}.

(** What the loop of [Import] has collected. *)
Record Draft := mkDraft {
  d_invalid : Z;
  d_samples : list string;
  d_already : Z;
  d_seen : gset string;
  d_sups : list Suppression
}.

Section Usecase.
Context (ParseEmailAddress : string -> result string string).
Context (NormalizeAddress : string -> string).

Definition suppressionKey (email : string) : string :=
  if bool_decide (TrimSpace email = ""%string) then ""%string else NormalizeAddress email.

(** [uuid] and [now] are the id and the time the code draws. *)
Definition Add (f : fault) (uuid : string) (now : Z) (tenant email reason : string) (t : Table) :
    Table * result string Suppression :=
  let key := suppressionKey email in
  if bool_decide (key = ""%string) then (t, Err ErrEmptyAddress)
  else
    let s := mkSuppression uuid tenant key reason now in
    match Create f s t with
    | (t', Ok _) => (t', Ok s)
    | (t', Err e) => (t', Err e)
    end.

Definition Remove (f : fault) (tenant email : string) (t : Table) : Table * result string unit :=
  let key := suppressionKey email in
  if bool_decide (key = ""%string) then (t, Err ErrEmptyAddress) else Delete f tenant key t.

Definition Check_ (f : fault) (tenant email : string) (t : Table) : result string (option string) :=
  let key := suppressionKey email in
  if bool_decide (key = ""%string) then Ok None
  else
    match GetByEmail f tenant key t with
    | Ok (Some s) => Ok (Some (Reason s))
    | Ok None => Ok None
    | Err e => Err e
    end.

Definition defaultReason (reason : string) : string :=
  let r := TrimSpace reason in
  if bool_decide (r = ""%string) then "Imported from a suppression list"%string else r.

Definition invalid (d : Draft) : Draft :=
  mkDraft (d_invalid d + 1) (d_samples d) (d_already d) (d_seen d) (d_sups d).

(** One turn of the loop of [Import]; [uuids n] is the [n]-th id drawn. *)
Definition importEntry (uuids : nat -> string) (now : Z) (tenant : string)
    (d : Draft) (entry : option Entry) : Draft :=
  match entry with
  | None => invalid d
  | Some e =>
      if bool_decide (TrimSpace (E_Email e) = ""%string) then invalid d
      else
        match ParseEmailAddress (E_Email e) with
        | Err _ =>
            mkDraft (d_invalid d + 1)
              (if (length (d_samples d) <? maxInvalidSamples)%nat
               then d_samples d ++ [E_Email e] else d_samples d)
              (d_already d) (d_seen d) (d_sups d)
        | Ok parsed =>
            let email := suppressionKey parsed in
            if bool_decide (email = ""%string) then invalid d
            else if bool_decide (email ∈ d_seen d) then
              mkDraft (d_invalid d) (d_samples d) (d_already d + 1) (d_seen d) (d_sups d)
            else
              mkDraft (d_invalid d) (d_samples d) (d_already d) ({[email]} ∪ d_seen d)
                (d_sups d ++ [mkSuppression (uuids (length (d_sups d))) tenant email
                                (defaultReason (E_Reason e)) now])
        end
  end.

Definition importAll (uuids : nat -> string) (now : Z) (tenant : string) (entries : list (option Entry)) : Draft :=
  foldl (importEntry uuids now tenant) (mkDraft 0 [] 0 ∅ []) entries.

Definition errTooMany : string := "too many entries".

Definition Import (fs : nat -> fault) (counts : bool) (uuids : nat -> string) (now : Z)
    (tenant : string) (entries : list (option Entry)) (t : Table) :
    Table * (ImportResult * option string) :=
  if MaxImportEntries <? Z.of_nat (length entries)
  then (t, (mkImport 0 0 0 [], Some errTooMany))
  else
    let d := importAll uuids now tenant entries in
    match CreateMany fs counts (d_sups d) t with
    | (t', (_, Some e)) => (t', (mkImport 0 (d_already d) (d_invalid d) (d_samples d), Some e))
    | (t', (inserted, None)) =>
        (t', (mkImport inserted (d_already d + (Z.of_nat (length (d_sups d)) - inserted))
                (d_invalid d) (d_samples d), None))
    end.
End Usecase.

(** ** Lookups read the table *)

Definition add_row (m : gmap string Suppression) (s : Suppression) : gmap string Suppression :=
  <[normal (Email s) := s]> m.

Lemma add_rows_sound rows : forall m k s,
  foldl add_row m rows !! k = Some s ->
  (s ∈ rows /\ normal (Email s) = k) \/ m !! k = Some s.
Proof.
  induction rows as [|r rows IH]; intros m k s H; simpl in H; [by right|].
  apply IH in H as [[Hs Hk]|H]; [left; split; [by right|done]|].
  unfold add_row in H. apply lookup_insert_Some in H as [[<- <-]|[_ H]]; [|by right].
  left. split; [by left|done].
Qed.

Lemma add_rows_complete rows : forall m k,
  is_Some (m !! k) \/ (exists s, s ∈ rows /\ normal (Email s) = k) ->
  is_Some (foldl add_row m rows !! k).
Proof.
  induction rows as [|r rows IH]; intros m k H; simpl.
  - destruct H as [H|(s & Hs & _)]; [done|by apply not_elem_of_nil in Hs].
  - apply IH. unfold add_row.
    destruct (decide (normal (Email r) = k)) as [<-|Hne]; [left; rewrite lookup_insert_eq; eauto|].
    destruct H as [H|(s & Hs & Hk)]; [left; by rewrite lookup_insert_ne|].
    apply elem_of_cons in Hs as [->|Hs]; [done|]. right. eauto.
Qed.

Lemma appendChunks_up tenant t cs : forall fs i found,
  (forall n, fs n = Up) ->
  appendChunks fs i tenant cs found t =
  Ok (foldl add_row found (flat_map (fun c => select_emails tenant c t) cs)).
Proof.
  induction cs as [|c cs IH]; intros fs i found Hf; simpl; [done|].
  unfold appendSuppressed. rewrite Hf. simpl. rewrite IH by done. by rewrite foldl_app.
Qed.

Lemma chunks_select tenant t n (l : list string) s :
  (0 < n)%nat ->
  s ∈ flat_map (fun c => select_emails tenant c t) (chunks n l) <->
  s ∈ t /\ TenantID s = tenant /\ Email s ∈ l.
Proof.
  intros Hn. rewrite <- (concat_chunks n l Hn) at 2. generalize (chunks n l). intros cs.
  induction cs as [|c cs IH]; simpl.
  - split; [intros H; by apply not_elem_of_nil in H|intros (_ & _ & H); by apply not_elem_of_nil in H].
  - rewrite !elem_of_app, IH. unfold select_emails. rewrite list_elem_of_filter. tauto.
Qed.

Lemma appendChunks_ok tenant t cs : forall fs i found m,
  appendChunks fs i tenant cs found t = Ok m ->
  m = foldl add_row found (flat_map (fun c => select_emails tenant c t) cs).
Proof.
  induction cs as [|c cs IH]; intros fs i found m H; simpl in *; [by simplify_eq|].
  unfold appendSuppressed in H. destruct (fs i); simpl in H; try done.
  apply IH in H. by rewrite foldl_app.
Qed.

(** What a lookup answers: each row of the tenant whose address is one of the
    keys asked for. *)
Lemma GetByEmails_ok fs tenant emails t m :
  GetByEmails fs tenant emails t = Ok m ->
  (forall k s, m !! k = Some s -> s ∈ t /\ TenantID s = tenant /\ Email s = k /\ k ∈ (normal <$> emails)) /\
  (forall s, s ∈ t -> TenantID s = tenant -> Email s <> ""%string -> Email s ∈ (normal <$> emails) ->
     is_Some (m !! Email s)).
Proof.
  intros H. destruct (uniqueFrom_spec ∅ emails) as [_ Hu].
  assert (Hm : m = foldl add_row ∅ (flat_map (fun c => select_emails tenant c t)
                             (chunks maxEmailsPerLookup (uniqueFrom ∅ emails)))).
  { unfold GetByEmails in H. destruct emails as [|e emails]; [by simplify_eq|].
    destruct (fs 0%nat); try done; by eapply appendChunks_ok. }
  subst m. clear H.
  assert (Hn : forall x, x ∈ (normal <$> emails) -> normal x = x).
  { intros x Hx. apply list_elem_of_fmap in Hx as (y & -> & _). apply normal_idem. }
  split.
  - intros k s H. apply add_rows_sound in H as [[H Hk]|H]; [|by rewrite lookup_empty in H].
    apply chunks_select in H as (Ht & Htn & He); [|unfold maxEmailsPerLookup; lia].
    apply Hu in He as (_ & _ & He). rewrite (Hn _ He) in Hk. subst k. done.
  - intros s Ht Htn Hne He. apply add_rows_complete. right. exists s. split; [|by apply Hn].
    apply chunks_select; [unfold maxEmailsPerLookup; lia|].
    split_and!; [done|done|]. apply Hu. split_and!; [apply not_elem_of_empty|done|done].
Qed.

(** A lookup whose statements all run does answer. *)
Lemma GetByEmails_up fs tenant emails t :
  (forall n, fs n = Up) ->
  exists m, GetByEmails fs tenant emails t = Ok m /\
    (forall k s, m !! k = Some s -> s ∈ t /\ TenantID s = tenant /\ Email s = k /\ k ∈ (normal <$> emails)) /\
    (forall s, s ∈ t -> TenantID s = tenant -> Email s <> ""%string -> Email s ∈ (normal <$> emails) ->
       is_Some (m !! Email s)).
Proof.
  intros Hf.
  assert (Hm : exists m, GetByEmails fs tenant emails t = Ok m).
  { unfold GetByEmails. rewrite Hf. destruct emails as [|e emails]; [by eexists|].
    eexists. by apply appendChunks_up. }
  destruct Hm as [m Hm]. exists m. split; [done|]. by eapply GetByEmails_ok.
Qed.

(** A lookup depends on the tenant's own rows only. *)
Lemma select_emails_own tenant c t :
  select_emails tenant c t = select_emails tenant c (filter (fun s => TenantID s = tenant) t).
Proof.
  unfold select_emails. rewrite list_filter_filter. apply list_filter_iff. tauto.
Qed.

Lemma GetByEmails_own fs tenant emails t t' :
  filter (fun s => TenantID s = tenant) t = filter (fun s => TenantID s = tenant) t' ->
  GetByEmails fs tenant emails t = GetByEmails fs tenant emails t'.
Proof.
  intros H. unfold GetByEmails.
  generalize (chunks maxEmailsPerLookup (uniqueFrom ∅ emails)) as cs.
  intros cs. destruct emails as [|e emails]; [done|].
  assert (Hcs : forall i found, appendChunks fs i tenant cs found t = appendChunks fs i tenant cs found t').
  { induction cs as [|c cs IH]; intros i found; simpl; [done|].
    assert (Ha : appendSuppressed (fs i) tenant c found t = appendSuppressed (fs i) tenant c found t').
    { unfold appendSuppressed. destruct (fs i); simpl; try done.
      by rewrite (select_emails_own tenant c t), (select_emails_own tenant c t'), H. }
    rewrite Ha. destruct (appendSuppressed (fs i) tenant c found t'); done. }
  by rewrite Hcs.
Qed.

(** ** One mailbox, one key *)

(** What [gsmail.NormalizeAddress] documents: the bare, lower-cased addr-spec
    of an address that is not blank. *)
Definition normalizes (parse : string -> result string string) (norm : string -> string) : Prop :=
  forall a, TrimSpace a <> ""%string -> norm a = suppressionKeyOf parse a.

Lemma suppressionKeyOf_normal parse a : normal (suppressionKeyOf parse a) = suppressionKeyOf parse a.
Proof. unfold suppressionKeyOf, keyFromParsed. destruct (parse a); apply normal_idem. Qed.

Lemma suppressionKey_of parse norm a :
  normalizes parse norm -> TrimSpace a <> ""%string ->
  suppressionKey norm a = suppressionKeyOf parse a.
Proof. intros Hn Ha. unfold suppressionKey. rewrite bool_decide_eq_false_2 by done. by apply Hn. Qed.

Lemma clash_in s t :
  existsb (clash s) t = true <->
  exists r, r ∈ t /\ (ID s = ID r \/ (TenantID s = TenantID r /\ Email s = Email r)).
Proof.
  rewrite existsb_exists. unfold clash. split; intros (r & Hin & H).
  - exists r. split; [by apply list_elem_of_In|]. b2p.
    destruct H as [H|H]; [left; by apply bool_decide_eq_true in H|right]. b2p.
    rewrite !bool_decide_eq_true in *. done.
  - exists r. split; [by apply list_elem_of_In|]. apply orb_true_iff.
    rewrite andb_true_iff, !bool_decide_eq_true. done.
Qed.

Lemma Add_covers norm uuid now tenant email reason t :
  suppressionKey norm email <> ""%string -> (forall s, s ∈ t -> ID s <> uuid) ->
  exists s, s ∈ (Add norm Up uuid now tenant email reason t).1 /\
    TenantID s = tenant /\ Email s = suppressionKey norm email.
Proof.
  intros Hk Hf. unfold Add. rewrite bool_decide_eq_false_2 by done.
  unfold Create, insert_stmt. simpl.
  destruct (existsb _ t) eqn:E; simpl.
  - apply clash_in in E as (r & Hr & [H|[H1 H2]]); simpl in *; [by destruct (Hf r Hr)|].
    by exists r.
  - eexists. split; [apply elem_of_app; right; by apply list_elem_of_singleton|done].
Qed.

Lemma Add_others norm f uuid now tenant email reason t other :
  other <> tenant ->
  filter (fun s => TenantID s = other) (Add norm f uuid now tenant email reason t).1 =
  filter (fun s => TenantID s = other) t.
Proof.
  intros Ho. unfold Add, Create, insert_stmt. case_bool_decide; [done|].
  destruct f; simpl; try done; destruct (existsb _ t); simpl; try done;
    by rewrite filter_app, filter_cons_False, filter_nil, app_nil_r.
Qed.

(** One mailbox is one entry of the list, however it is spelled.  After
    [Add] of an address -- also when it reports the row already exists -- a
    lookup of any spelling of that mailbox finds a row of the tenant, every
    other tenant's lookups answer as before, and [Remove] of any spelling lifts
    it. *)
Theorem suppression_covers_every_spelling parse norm uuid now tenant email reason t b keys fs :
  normalizes parse norm ->
  TrimSpace email <> ""%string -> TrimSpace b <> ""%string ->
  suppressionKeyOf parse email <> ""%string ->
  (forall s, s ∈ t -> ID s <> uuid) ->
  (forall n, fs n = Up) ->
  suppressionKeyOf parse b = suppressionKeyOf parse email ->
  suppressionKeyOf parse b ∈ keys ->
  let t' := (Add norm Up uuid now tenant email reason t).1 in
  let k := suppressionKeyOf parse b in
  (exists m s, GetByEmails fs tenant keys t' = Ok m /\ m !! k = Some s /\ TenantID s = tenant) /\
  (forall other fs' keys', other <> tenant ->
     GetByEmails fs' other keys' t' = GetByEmails fs' other keys' t) /\
  (exists m, GetByEmails fs tenant keys (Remove norm Up tenant b t').1 = Ok m /\ m !! k = None).
Proof.
  intros Hn He Hb Hk Hid Hf Hbe Hin t' k.
  assert (Hkk : k ∈ (normal <$> keys)).
  { apply list_elem_of_fmap. exists k. split; [symmetry; apply suppressionKeyOf_normal|done]. }
  split_and!.
  - destruct (GetByEmails_up fs tenant keys t' Hf) as (m & Hm & Hsound & Hcomp).
    destruct (Add_covers norm uuid now tenant email reason t) as (s & Hs & Ht & Hsk);
      [by rewrite (suppressionKey_of parse)|done|].
    rewrite (suppressionKey_of parse) in Hsk by done.
    assert (Hsk' : Email s = k) by (unfold k; congruence).
    destruct (Hcomp s Hs Ht) as [s' Hs']; [congruence|congruence|].
    rewrite Hsk' in Hs'. exists m, s'. split_and!; [done|done|]. by apply Hsound in Hs' as (_ & ? & _).
  - intros other fs' keys' Ho. apply GetByEmails_own. by apply Add_others.
  - unfold Remove. rewrite (suppressionKey_of parse) by done.
    rewrite bool_decide_eq_false_2 by congruence. simpl.
    edestruct (GetByEmails_up fs tenant keys) as (m & Hm & Hsound & _); [done|].
    exists m. split; [exact Hm|]. destruct (m !! k) as [s|] eqn:E; [|done].
    apply Hsound in E as (Hs & Ht & Hsk & _).
    apply list_elem_of_filter in Hs as [Hs _]. by destruct Hs.
Qed.

Definition demo_norm (s : string) : string := suppressionKeyOf demo_parse s.

Lemma suppression_covers_every_spelling_witness :
  exists m s,
    GetByEmails (fun _ => Up) "t1" ["bob@x.com"]%string
      (Add demo_norm Up "id1" 5 "t1" "Bob <Bob@X.com>" "bounced" []).1 = Ok m /\
    m !! "bob@x.com"%string = Some s /\ TenantID s = "t1"%string.
Proof.
  apply (suppression_covers_every_spelling demo_parse demo_norm "id1" 5 "t1" "Bob <Bob@X.com>"
           "bounced" [] " BOB@x.com " ["bob@x.com"]%string (fun _ => Up)); try done.
  - intros s Hs. by apply not_elem_of_nil in Hs.
  - vm_compute. by left.
Defined.

(** ** Importing a list *)

Lemma insert_batch_spec sups : forall t n,
  let '(t', n') := foldl insert_new (t, n) sups in
  (exists added, t' = t ++ added /\ (forall r, r ∈ added -> r ∈ sups) /\ n' = n + Z.of_nat (length added)) /\
  (forall s, s ∈ sups -> exists r, r ∈ t' /\ (ID s = ID r \/ (TenantID s = TenantID r /\ Email s = Email r))).
Proof.
  induction sups as [|s sups IH]; intros t n; simpl.
  - split; [exists []; rewrite app_nil_r; split_and!; [done| |simpl; lia]|];
      intros r Hr; by apply not_elem_of_nil in Hr.
  - unfold insert_new at 2. simpl. destruct (existsb (clash s) t) eqn:E.
    + specialize (IH t n). destruct (foldl insert_new (t, n) sups) as [t' n'].
      destruct IH as [(added & -> & Hin & ->) Hc]. split.
      * exists added. split_and!; [done| |done]. intros r Hr. right. by apply Hin.
      * intros x Hx. apply elem_of_cons in Hx as [->|Hx]; [|by apply Hc].
        apply clash_in in E as (r & Hr & H). exists r. split; [apply elem_of_app; by left|done].
    + specialize (IH (t ++ [s]) (n + 1)). destruct (foldl insert_new (t ++ [s], n + 1) sups) as [t' n'].
      destruct IH as [(added & -> & Hin & ->) Hc]. split.
      * exists (s :: added). rewrite <- app_assoc. split_and!; [done| |simpl; lia].
        intros r Hr. apply elem_of_cons in Hr as [->|Hr]; [by left|right; by apply Hin].
      * intros x Hx. apply elem_of_cons in Hx as [->|Hx]; [|by apply Hc].
        exists s. split; [|by left]. apply elem_of_app; left. apply elem_of_app; right.
        by apply list_elem_of_singleton.
Qed.

(** Chunks that all succeeded are one batch. *)
Lemma insertChunks_ok fs counts cs : forall i n t t' n',
  insertChunks fs counts i n cs t = (t', (n', None)) ->
  t' = (insert_batch (concat cs) t).1 /\
  n' = n + (if counts then (insert_batch (concat cs) t).2 else 0).
Proof.
  unfold insert_batch.
  assert (Hshift : forall sups t n, foldl insert_new (t, n) sups =
            ((foldl insert_new (t, 0) sups).1, n + (foldl insert_new (t, 0) sups).2)).
  { induction sups as [|s sups IH]; intros t n; simpl; [f_equal; lia|].
    unfold insert_new at 2 4 6. simpl. destruct (existsb (clash s) t); [apply IH|].
    rewrite IH. rewrite (IH _ (0 + 1)). simpl. f_equal. lia. }
  induction cs as [|c cs IH]; intros i n t t' n' H; simpl in H.
  { simplify_eq. simpl. destruct counts; split; lia || done. }
  unfold insertChunk, insert_batch in H. simpl. rewrite foldl_app.
  destruct (foldl insert_new (t, 0) c) as [t1 n1] eqn:E.
  destruct (fs i); simpl in H; rewrite ?E in H; simplify_eq.
  apply IH in H as [-> ->]. rewrite (Hshift _ t1 n1). destruct counts; simpl; split; done || lia.
Qed.

(** What the loop of [Import] has when it is done with its entries. *)
Record drafted (parse : string -> result string string) (norm : string -> string) (uuids : nat -> string) (tenant : string)
    (entries : list (option Entry)) (d : Draft) : Prop := {
  dr_count : d_invalid d + d_already d + Z.of_nat (length (d_sups d)) = Z.of_nat (length entries);
  dr_ids : ID <$> d_sups d = uuids <$> seq 0 (length (d_sups d));
  dr_tenant : forall s, s ∈ d_sups d -> TenantID s = tenant;
  dr_seen : forall k, k ∈ d_seen d -> k ∈ (Email <$> d_sups d);
  dr_read : forall e p, Some e ∈ entries -> TrimSpace (E_Email e) <> ""%string -> parse (E_Email e) = Ok p ->
    suppressionKey norm p <> ""%string -> suppressionKey norm p ∈ d_seen d
}.

Lemma importEntry_drafted parse norm uuids now tenant entries d x :
  drafted parse norm uuids tenant entries d ->
  drafted parse norm uuids tenant (entries ++ [x]) (importEntry parse norm uuids now tenant d x).
Proof.
  intros [Hc Hi Ht Hs Hr].
  assert (Hold : forall P : Prop, forall e, Some e ∈ entries ++ [x] ->
            (Some e ∈ entries -> P) -> (x = Some e -> P) -> P).
  { intros P e He H1 H2. apply elem_of_app in He as [He|He]; [by apply H1|].
    apply list_elem_of_singleton in He. by apply H2. }
  unfold importEntry, invalid.
  destruct x as [e|]; [case_bool_decide as Hb; [|destruct (parse (E_Email e)) as [p|err] eqn:Ep;
    [case_bool_decide as Hk; [|case_bool_decide as Hin]|]]|]; constructor; simpl;
    rewrite ?length_app; simpl; try done; try lia;
    try (intros e' p' He' Hb' Hp' Hk'; apply (Hold _ e' He'); [by intros; eapply Hr|];
         intros Hx; try injection Hx as <-; try rewrite Ep in Hp'; try injection Hp' as <-; done).
  - rewrite fmap_app, Hi, Nat.add_1_r, seq_S, fmap_app. done.
  - intros s Hin'. apply elem_of_app in Hin' as [?|Hin']; [by apply Ht|].
    apply list_elem_of_singleton in Hin'. by subst.
  - intros k Hk'. rewrite fmap_app. apply elem_of_app. apply elem_of_union in Hk' as [Hk'|Hk'].
    + right. apply elem_of_singleton in Hk'. subst. by left.
    + left. by apply Hs.
  - intros e' p' He' Hb' Hp' Hk'. apply elem_of_union. apply (Hold _ e' He'); [right; by eapply Hr|].
    intros Hx. injection Hx as <-. rewrite Ep in Hp'. injection Hp' as <-. left.
    by apply elem_of_singleton.
Qed.

Lemma importAll_drafted parse norm uuids now tenant entries :
  drafted parse norm uuids tenant entries (importAll parse norm uuids now tenant entries).
Proof.
  unfold importAll. induction entries as [|x entries IH] using rev_ind.
  - constructor; simpl; try done; intros * Hin;
      by apply not_elem_of_nil in Hin || apply not_elem_of_empty in Hin.
  - rewrite foldl_snoc. by apply importEntry_drafted.
Qed.

(** An import accounts for every entry and loses none it can read.  When it
    reports no error, its three counts sum to the entries submitted; the rows
    already on the list are kept as they were; the count of imported rows is how
    much the list grew; and every readable entry's mailbox is on the tenant's
    list afterwards, whether it was new, repeated or already there.  Batching
    and the error of any batch are included: an error is reported, never
    counted. *)
Theorem import_loses_nothing parse norm fs uuids now tenant entries t t' r :
  (forall i j, uuids i = uuids j -> i = j) ->
  (forall s i, s ∈ t -> ID s <> uuids i) ->
  Import parse norm fs true uuids now tenant entries t = (t', (r, None)) ->
  Imported r + AlreadySuppressed r + Invalid r = Z.of_nat (length entries) /\
  (exists added, t' = t ++ added /\ Imported r = Z.of_nat (length added)) /\
  (forall e p, Some e ∈ entries -> TrimSpace (E_Email e) <> ""%string -> parse (E_Email e) = Ok p ->
     suppressionKey norm p <> ""%string ->
     exists s, s ∈ t' /\ TenantID s = tenant /\ Email s = suppressionKey norm p).
Proof.
  intros Hinj Hfresh H. unfold Import in H. case_match; [done|].
  destruct (importAll_drafted parse norm uuids now tenant entries) as [Hc Hi Ht Hs Hr].
  set (d := importAll parse norm uuids now tenant entries) in *. clearbody d.
  destruct (CreateMany fs true (d_sups d) t) as [t1 [ins [err|]]] eqn:E; simplify_eq/=.
  unfold CreateMany in E. apply insertChunks_ok in E as [-> ->].
  rewrite concat_chunks by (unfold maxRowsPerInsert; lia). unfold insert_batch.
  pose proof (insert_batch_spec (d_sups d) t 0) as Hb.
  destruct (foldl insert_new (t, 0) (d_sups d)) as [t2 n2]. simpl.
  destruct Hb as [(added & -> & Hadd & ->) Hcov]. split_and!; [lia|exists added; split; [done|lia]|].
  intros e p He Hbl Hp Hk. pose proof (Hs _ (Hr e p He Hbl Hp Hk)) as Hkey.
  apply list_elem_of_fmap in Hkey as (s & Hks & Hsin).
  destruct (Hcov s Hsin) as (r & Hrin & [Hid|[H1 H2]]).
  - assert (Hnd : NoDup (ID <$> d_sups d)).
    { rewrite Hi. apply NoDup_fmap_2; [exact Hinj|apply NoDup_seq]. }
    apply list_elem_of_lookup_1 in Hsin as [i Hsi].
    assert (Hsu : ID s = uuids i).
    { assert (Hl : (ID <$> d_sups d) !! i = Some (ID s)) by by rewrite list_lookup_fmap, Hsi.
      rewrite Hi, list_lookup_fmap in Hl. apply fmap_Some in Hl as (j & Hj & ->).
      apply lookup_seq in Hj as [-> _]. done. }
    apply elem_of_app in Hrin as [Hrin|Hrin]; [by destruct (Hfresh r i Hrin); congruence|].
    pose proof (Hadd r Hrin) as Hr2. apply list_elem_of_lookup_1 in Hr2 as [j Hj].
    assert (i = j) as <-.
    { eapply NoDup_lookup; [exact Hnd| |]; rewrite list_lookup_fmap; [by rewrite Hsi|].
      rewrite Hj. simpl. by rewrite Hid. }
    assert (r = s) as -> by congruence.
    exists s. split_and!; [apply elem_of_app; by right| |done]. apply Ht. by eapply list_elem_of_lookup_2.
  - exists r. split_and!; [done| |congruence]. rewrite <- H1. by apply Ht.
Qed.

Fixpoint demo_uuid (n : nat) : string :=
  match n with O => "i" | S n => "x" +:+ demo_uuid n end%string.

Lemma demo_uuid_inj i j : demo_uuid i = demo_uuid j -> i = j.
Proof.
  revert j. induction i as [|i IH]; intros [|j] H; simpl in H; try done.
  injection H as H. f_equal. by apply IH.
Qed.

Definition demo_import : list (option Entry) :=
  [Some (mkEntry "Bob <Bob@X.com>" ""); None; Some (mkEntry "bob@x.com" "again"); Some (mkEntry "ann@x.com" "old")].

Lemma import_loses_nothing_witness :
  exists t' r,
    Import demo_parse demo_norm (fun _ => Up) true demo_uuid 9 "t1" demo_import
      [mkSuppression "z" "t1" "ann@x.com" "bounced" 1] = (t', (r, None)) /\
    Imported r + AlreadySuppressed r + Invalid r = 4 /\
    (Imported r, AlreadySuppressed r, Invalid r) = (1, 2, 1).
Proof.
  eexists _, _. split; [vm_compute; reflexivity|]. split; [|reflexivity].
  eapply (import_loses_nothing demo_parse demo_norm (fun _ => Up) demo_uuid 9 "t1" demo_import
            [mkSuppression "z" "t1" "ann@x.com" "bounced" 1]).
  - apply demo_uuid_inj.
  - intros s i Hs. apply list_elem_of_singleton in Hs as ->. by destruct i.
  - vm_compute. reflexivity.
Defined.

End Suppression.
