(* ===== verification/Senders.v ===== *)
(** * Which From addresses a provider may send as

    Models [internal/email_provider/senders/senders.go]: the allow-list an
    operator writes ([Normalize]), the list as stored and read back
    ([Canonical]), and how an address is matched against it.  Parsing an address
    is the mail library's, a parameter; the two regular expressions are written
    out as predicates on the labels of a domain and the characters of a local
    part. *)
From S2P Require Import Prelude GoStrings.
From Stdlib Require Import Ascii.

Module Senders.
Import GoStrings.
Local Open Scope string_scope.

Definition wildcard : string := "*".
Definition at_ : ascii := "@".

(** ** The patterns *)

Definition is_lower (c : ascii) : bool := ((97 <=? code c) && (code c <=? 122))%Z.
Definition alnum (c : ascii) : bool := is_lower c || is_digit c.
Definition label_char (c : ascii) : bool := alnum c || bool_decide (c = "-"%char).

Fixpoint last_char (s : string) : option ascii :=
  match s with
  | "" => None
  | String c "" => Some c
  | String _ r => last_char r
  end.

Definition ends_alnum (s : string) : bool :=
  match last_char s with Some c => alnum c | None => false end.

(** [[a-z0-9](?:[a-z0-9-]{0,61}[a-z0-9])?]. *)
Definition label (s : string) : bool :=
  match s with
  | "" => false
  | String c _ => alnum c && str_all label_char s && ends_alnum s && (String.length s <=? 63)%nat
  end.

(** [[a-z][a-z0-9-]{0,61}[a-z0-9]]. *)
Definition top_label (s : string) : bool :=
  match s with
  | "" => false
  | String c _ =>
      is_lower c && str_all label_char s && ends_alnum s &&
      (2 <=? String.length s)%nat && (String.length s <=? 63)%nat
  end.

(** [domainPattern]: one label or more, then the top one, dots between. *)
Definition domainPattern (s : string) : bool :=
  match reverse (Split s "."%char) with
  | top :: ((_ :: _) as rest) => top_label top && forallb label rest
  | _ => false
  end.

Definition local_char (c : ascii) : bool :=
  alnum c || in_cutset ".!#$%&'+/=?^_`{|}~-" c.

(** [localPattern]. *)
Definition localPattern (s : string) : bool :=
  str_all local_char s && (1 <=? String.length s)%nat && (String.length s <=? 64)%nat.

(** ** Matches *)

Inductive Match :=
| RefusedMatch
| Unrestricted
| ByDomain
| ByAddress.

#[export] Instance Match_eq_dec : EqDecision Match.
Proof. solve_decision. Defined.

Definition Allowed (m : Match) : bool := negb (bool_decide (m = RefusedMatch)).

Record InvalidEntryError := mkInvalid {
  Entry : string;
  Reason : string
}.

(** [Domain]: what follows the last "@", or the whole string. *)
Definition Domain (s : string) : string :=
  match cut_last s at_ with Some (_, d) => d | None => s end.

(** One turn of the loop of [Canonical]; a blank entry is skipped. *)
Definition canonicalEntry (raw : string) : option string :=
  let s := ToLower (TrimSpace raw) in
  if eqb s "" then None
  else if negb (Contains s "@") then Some (wildcard ++ "@" ++ Trim s ".")
  else Some s.

Fixpoint canonicalFrom (seen : gset string) (stored : list string) : list string :=
  match stored with
  | [] => []
  | raw :: rest =>
      match canonicalEntry raw with
      | None => canonicalFrom seen rest
      | Some s =>
          if bool_decide (s ∈ seen) then canonicalFrom seen rest
          else s :: canonicalFrom ({[s]} ∪ seen) rest
      end
  end.

Definition Canonical (stored : list string) : list string := canonicalFrom ∅ stored.

Fixpoint matchLoop (address domainEntry : string) (m : Match) (l : list string) : Match :=
  match l with
  | [] => m
  | e :: rest =>
      if eqb e address then ByAddress
      else if eqb e domainEntry then matchLoop address domainEntry ByDomain rest
      else matchLoop address domainEntry m rest
  end.

Definition MatchAddress (entries : list string) (address : string) : Match :=
  match entries with
  | [] => Unrestricted
  | _ =>
      let address := ToLower address in
      matchLoop address (wildcard ++ "@" ++ Domain address) RefusedMatch (Canonical entries)
  end.

Fixpoint domainsFrom (seen : gset string) (l : list string) : list string :=
  match l with
  | [] => []
  | e :: rest =>
      let d := Domain e in
      if bool_decide (d ∈ seen) then domainsFrom seen rest
      else d :: domainsFrom ({[d]} ∪ seen) rest
  end.

Definition Domains (entries : list string) : list string := domainsFrom ∅ (Canonical entries).

Section Parse.
(** [gsmail.ParseEmailAddress], to the addr-spec. *)
Context (ParseEmailAddress : string -> result string string).

(** The switch of [normalizeEntry]: the entry with a wildcard written out. *)
Definition expandEntry (s : string) : result string string :=
  if eqb s wildcard || eqb s "*@" || eqb s "*@*" then
    Err "a lone wildcard would admit every address; leave the list empty instead"
  else if HasPrefix s "@" then Ok (wildcard ++ s)
  else if negb (Contains s "@") then
    if Contains s wildcard then Err "wildcards are only supported as *@domain"
    else Ok (wildcard ++ "@" ++ s)
  else Ok s.

(** What follows it: the two halves, checked. *)
Definition checkEntry (s : string) : result string string :=
  match cut_last s at_ with
  | None => Err "use name@domain for one address or *@domain for a whole domain"
  | Some (local, domain) =>
      if eqb local "" || eqb domain "" then
        Err "use name@domain for one address or *@domain for a whole domain"
      else if (negb (eqb local wildcard) && Contains local wildcard) || Contains domain wildcard then
        Err "wildcards are only supported as *@domain"
      else if negb (domainPattern domain) then Err "not a valid domain"
      else if negb (eqb local wildcard) && negb (localPattern local) then Err "not a valid email address"
      else Ok (local ++ "@" ++ domain)
  end.

Definition bareEntry (raw : string) : string :=
  let s := ToLower (TrimSpace raw) in
  if Contains s "<" then
    match ParseEmailAddress s with Ok a => ToLower a | Err _ => s end
  else s.

Definition normalizeEntry (raw : string) : result InvalidEntryError string :=
  if eqb (ToLower (TrimSpace raw)) "" then Ok ""
  else
    match rbind (expandEntry (bareEntry raw)) checkEntry with
    | Ok e => Ok e
    | Err reason => Err (mkInvalid (TrimSpace raw) reason)
    end.

Fixpoint normalizeFrom (seen : gset string) (entries : list string) :
    result InvalidEntryError (list string) :=
  match entries with
  | [] => Ok []
  | raw :: rest =>
      match normalizeEntry raw with
      | Err e => Err e
      | Ok entry =>
          if eqb entry "" || bool_decide (entry ∈ seen) then normalizeFrom seen rest
          else
            match normalizeFrom ({[entry]} ∪ seen) rest with
            | Ok out => Ok (entry :: out)
            | Err e => Err e
            end
      end
  end.

Definition Normalize (entries : list string) : result InvalidEntryError (list string) :=
  normalizeFrom ∅ entries.

(** [Address]: the lower-cased address of a From value. *)
Definition Address (from : string) : result string string :=
  let addr := TrimSpace from in
  let addr := match ParseEmailAddress addr with Ok a => a | Err _ => addr end in
  match cut_last addr at_ with
  | Some (l, d) =>
      if eqb l "" || eqb d "" then Err ("invalid from address: " ++ from) else Ok (ToLower addr)
  | None => Err ("invalid from address: " ++ from)
  end.
End Parse.

(** ** An accepted entry is read back as written *)

Definition domain_char (c : ascii) : bool := label_char c || bool_decide (c = "."%char).
Definition entry_char (c : ascii) : bool :=
  local_char c || bool_decide (c = "*"%char) || bool_decide (c = at_).

Ltac each_char c := destruct c as [[] [] [] [] [] [] [] []]; vm_compute; congruence.

Lemma entry_char_lower c : entry_char c = true -> lower c = c.
Proof. each_char c. Qed.
Lemma entry_char_space c : entry_char c = true -> is_space c = false.
Proof. each_char c. Qed.
Lemma domain_entry_char c : domain_char c = true -> entry_char c = true.
Proof. each_char c. Qed.
Lemma local_entry_char c : local_char c = true -> entry_char c = true.
Proof. unfold entry_char. by intros ->. Qed.

Lemma domainPattern_chars s : domainPattern s = true -> str_all domain_char s = true /\ s <> "".
Proof.
  unfold domainPattern. intros H. split; [|intros ->; by vm_compute in H].
  apply (Split_str_all _ s "."%char); [done|]. intros x Hx.
  assert (Hl : str_all label_char x = true -> str_all domain_char x = true).
  { apply str_all_weaken. unfold domain_char. by intros c ->. }
  apply elem_of_reverse in Hx.
  destruct (reverse (Split s "."%char)) as [|top [|r rest]]; [done|done|].
  apply andb_true_iff in H as [Ht Hr]. apply elem_of_cons in Hx as [->|Hx].
  - destruct top as [|c top]; [done|]. unfold top_label in Ht. b2p. by apply Hl.
  - rewrite forallb_forall in Hr. apply list_elem_of_In, Hr in Hx.
    destruct x as [|c x]; [done|]. unfold label in Hx. b2p. by apply Hl.
Qed.

Definition valid_entry (e : string) : Prop :=
  exists local domain, e = local ++ "@" ++ domain /\ domainPattern domain = true /\
    (local = wildcard \/ localPattern local = true).

Lemma checkEntry_valid s e : checkEntry s = Ok e -> valid_entry e.
Proof.
  unfold checkEntry. destruct (cut_last s at_) as [[local domain]|]; [|done].
  destruct (eqb local "" || eqb domain ""); [done|].
  destruct (_ || Contains domain wildcard); [done|].
  destruct (domainPattern domain) eqn:Hd; [|done]. simpl.
  destruct (eqb local wildcard) eqn:Hw; simpl.
  - intros ?. simplify_eq. apply eqb_true in Hw. exists local, domain. auto.
  - destruct (localPattern local) eqn:Hl; [|done]. simpl. intros ?. simplify_eq. exists local, domain. auto.
Qed.

Lemma normalizeEntry_valid parse raw e :
  normalizeEntry parse raw = Ok e -> e = "" \/ valid_entry e.
Proof.
  unfold normalizeEntry. destruct (eqb _ ""); [intros; simplify_eq; by left|].
  destruct (expandEntry _) as [x|]; simpl; [|done].
  destruct (checkEntry x) eqn:E; [|done]. intros; simplify_eq. right. by eapply checkEntry_valid.
Qed.

(** The parts of a valid entry. *)
Lemma valid_parts e : valid_entry e ->
  str_all entry_char e = true /\
  exists c local domain, e = String c local ++ "@" ++ domain /\ c <> at_ /\
    cut_last e at_ = Some (String c local, domain) /\
    domainPattern domain = true /\ str_all domain_char domain = true /\ domain <> "" /\
    (String c local = wildcard \/
     localPattern (String c local) = true /\ str_all local_char (String c local) = true).
Proof.
  intros (local & domain & -> & Hd & Hl). destruct (domainPattern_chars _ Hd) as [Hdc Hne].
  assert (Hlc : str_all entry_char local = true).
  { destruct Hl as [->|Hl]; [done|]. unfold localPattern in Hl. b2p.
    eapply str_all_weaken; [apply local_entry_char|done]. }
  split.
  { rewrite !str_all_app, Hlc. simpl. eapply str_all_weaken; [apply domain_entry_char|done]. }
  assert (Hcut : cut_last (local ++ "@" ++ domain) at_ = Some (local, domain)).
  { apply (cut_last_app local domain at_). by eapply (cut_last_none domain_char). }
  destruct local as [|c local].
  { destruct Hl as [?|Hl]; [done|]. by vm_compute in Hl. }
  exists c, local, domain. split_and!; try done.
  - destruct Hl as [Hl|Hl].
    + unfold wildcard in Hl. injection Hl as -> _. done.
    + intros ->. unfold localPattern in Hl. b2p. simpl in *. done.
  - destruct Hl as [Hl|Hl]; [by left|right]. split; [done|]. unfold localPattern in Hl. by b2p.
Qed.

Lemma canonical_valid e : valid_entry e -> canonicalEntry e = Some e.
Proof.
  intros Hv. destruct (valid_parts e Hv) as (Hc & c & local & domain & -> & Hat & Hcut & _).
  unfold canonicalEntry.
  rewrite (str_all_trim entry_char _ entry_char_space Hc), (str_all_lower entry_char _ entry_char_lower Hc).
  rewrite (proj2 (Contains_spec _ "@")); [done|]. by exists (String c local), domain.
Qed.

Lemma expand_valid e : valid_entry e -> expandEntry e = Ok e.
Proof.
  intros Hv. destruct (valid_parts e Hv) as (Hc & c & local & domain & He & Hat & Hcut & Hd & Hdc & Hne & Hl).
  assert (Hno : forall x, (x = wildcard \/ x = "*@" \/ x = "*@*") -> eqb e x = false).
  { intros x Hx. unfold eqb. apply bool_decide_eq_false. intros ->.
    destruct Hx as [->|[->| ->]]; vm_compute in Hcut; simplify_eq; by vm_compute in Hdc. }
  unfold expandEntry. rewrite !Hno by tauto. simpl.
  assert (Hp : HasPrefix e "@" = false).
  { destruct (HasPrefix e "@") eqn:E; [|done]. apply HasPrefix_spec in E as [r E].
    rewrite He in E. simpl in E. injection E as Ec _. by destruct Hat. }
  rewrite Hp. rewrite (proj2 (Contains_spec _ "@")); [done|].
  exists (String c local), domain. done.
Qed.

Lemma check_valid e : valid_entry e -> checkEntry e = Ok e.
Proof.
  intros Hv. destruct (valid_parts e Hv) as (Hc & c & local & domain & He & Hat & Hcut & Hd & Hdc & Hne & Hl).
  unfold checkEntry. rewrite Hcut. change (eqb (String c local) "") with false. rewrite orb_false_l.
  rewrite (proj2 (bool_decide_eq_false (domain = "")) Hne : eqb domain "" = false).
  rewrite (str_all_not_in domain_char domain "*"%char eq_refl Hdc : Contains domain wildcard = false), Hd.
  change (negb true) with false. cbv iota.
  destruct Hl as [Hl|[Hl Hlc]].
  - rewrite Hl, eqb_refl. simpl. by rewrite He, Hl.
  - rewrite (str_all_not_in local_char _ "*"%char eq_refl Hlc : Contains _ wildcard = false), Hl.
    destruct (eqb (String c local) wildcard); simpl; by rewrite He.
Qed.

Lemma normalize_valid parse e : valid_entry e -> normalizeEntry parse e = Ok e.
Proof.
  intros Hv. pose proof (valid_parts e Hv) as (Hc & c & local & domain & He & _ & _ & _ & Hdc & _ & Hl).
  unfold normalizeEntry, bareEntry.
  rewrite (str_all_trim entry_char _ entry_char_space Hc), (str_all_lower entry_char _ entry_char_lower Hc).
  rewrite (str_all_not_in entry_char e "<"%char eq_refl Hc), (expand_valid e Hv). simpl.
  rewrite (check_valid e Hv). by subst e.
Qed.

(** ** Lists *)

Lemma normalizeFrom_spec parse entries : forall seen out,
  normalizeFrom parse seen entries = Ok out ->
  NoDup out /\ (forall e, e ∈ out -> (e ∉ seen) /\ valid_entry e) /\
  (forall raw, raw ∈ entries -> exists e, normalizeEntry parse raw = Ok e /\ (e = "" \/ e ∈ seen \/ e ∈ out)).
Proof.
  induction entries as [|raw entries IH]; intros seen out H; simpl in H.
  { simplify_eq. split_and!; [constructor|intros e He; by apply not_elem_of_nil in He|].
    intros raw Hr. by apply not_elem_of_nil in Hr. }
  destruct (normalizeEntry parse raw) as [entry|] eqn:En; [|done].
  destruct (eqb entry "" || bool_decide (entry ∈ seen)) eqn:Es.
  - destruct (IH _ _ H) as (Hnd & Hout & Hall). split_and!; [done|done|].
    intros r Hr. apply elem_of_cons in Hr as [->|Hr]; [|by apply Hall].
    exists entry. split; [done|]. b2p. rewrite eqb_true, bool_decide_eq_true in Es. tauto.
  - destruct (normalizeFrom parse ({[entry]} ∪ seen) entries) as [out'|] eqn:E; [|done]. simplify_eq.
    destruct (IH _ _ E) as (Hnd & Hout & Hall). b2p.
    assert (Hne : entry <> "") by (intros ->; by rewrite eqb_refl in *).
    assert (Hns : entry ∉ seen) by by eapply bool_decide_eq_false_1.
    split_and!.
    + constructor; [|done]. intros He. apply Hout in He as [He _]. apply He.
      apply elem_of_union_l. by apply elem_of_singleton.
    + intros e He. apply elem_of_cons in He as [->|He].
      * split; [done|]. by destruct (normalizeEntry_valid _ _ _ En).
      * destruct (Hout e He) as [Hu Hv]. split; [|done]. intros ?. apply Hu. by apply elem_of_union_r.
    + intros r Hr. apply elem_of_cons in Hr as [->|Hr].
      * exists entry. split; [done|]. right. right. by left.
      * destruct (Hall r Hr) as (e & He & Hd). exists e. split; [done|].
        rewrite elem_of_union, elem_of_singleton in Hd. rewrite elem_of_cons. tauto.
Qed.

Lemma canonicalFrom_fixed l : forall seen,
  NoDup l -> (forall e, e ∈ l -> (e ∉ seen) /\ valid_entry e) -> canonicalFrom seen l = l.
Proof.
  induction l as [|e l IH]; intros seen Hnd Hl; simpl; [done|].
  apply NoDup_cons in Hnd as [Hne Hnd]. destruct (Hl e ltac:(by left)) as [Hs Hv].
  rewrite (canonical_valid e Hv). rewrite bool_decide_eq_false_2 by done. f_equal.
  apply IH; [done|]. intros x Hx. destruct (Hl x ltac:(by right)) as [Hxs Hxv]. split; [|done].
  rewrite elem_of_union, elem_of_singleton. intros [->|?]; done.
Qed.

Lemma normalizeFrom_fixed parse l : forall seen,
  NoDup l -> (forall e, e ∈ l -> (e ∉ seen) /\ valid_entry e) -> normalizeFrom parse seen l = Ok l.
Proof.
  induction l as [|e l IH]; intros seen Hnd Hl; simpl; [done|].
  apply NoDup_cons in Hnd as [Hne Hnd]. destruct (Hl e ltac:(by left)) as [Hs Hv].
  rewrite (normalize_valid parse e Hv). rewrite bool_decide_eq_false_2 by done.
  rewrite orb_false_r. destruct (eqb e "") eqn:He.
  { apply eqb_true in He as ->. destruct (valid_parts _ Hv) as (_ & c & x & d & Hx & _). done. }
  rewrite IH; [done|done|]. intros x Hx. destruct (Hl x ltac:(by right)) as [Hxs Hxv]. split; [|done].
  rewrite elem_of_union, elem_of_singleton. intros [->|?]; done.
Qed.

Lemma matchLoop_spec a d l : forall m,
  matchLoop a d m l =
  if bool_decide (a ∈ l) then ByAddress else if bool_decide (d ∈ l) then ByDomain else m.
Proof.
  induction l as [|e l IH]; intros m; simpl.
  { done. }
  destruct (eqb e a) eqn:Ea.
  { apply eqb_true in Ea as ->. by rewrite bool_decide_eq_true_2 by by left. }
  assert (Hea : e <> a) by (intros ->; by rewrite eqb_refl in Ea).
  rewrite (bool_decide_ext (a ∈ e :: l) (a ∈ l)) by (rewrite elem_of_cons; intuition congruence).
  destruct (eqb e d) eqn:Ed.
  - apply eqb_true in Ed as ->. rewrite IH, (bool_decide_eq_true_2 (d ∈ d :: l)) by by left.
    repeat case_bool_decide; done.
  - assert (Hed : e <> d) by (intros ->; by rewrite eqb_refl in Ed).
    rewrite (bool_decide_ext (d ∈ e :: l) (d ∈ l)) by (rewrite elem_of_cons; intuition congruence).
    apply IH.
Qed.

(** An allow-list means what the operator wrote.  A list the gate accepts
    holds every entry given that is not blank, without repeats; it is stored and
    read back unchanged ([Canonical] and a second [Normalize] are the identity
    on it); and an address is admitted by name exactly when it is in the list,
    by domain exactly when its own domain's wildcard is -- never by a parent
    domain -- and is refused otherwise.  Only the empty list admits everyone,
    whatever is stored: a list of entries that no longer make sense refuses
    rather than opens. *)
Theorem allow_list_means_what_it_says parse entries out address :
  Normalize parse entries = Ok out ->
  NoDup out /\ Canonical out = out /\ Normalize parse out = Ok out /\
  (forall raw, raw ∈ entries -> exists e, normalizeEntry parse raw = Ok e /\ (e = "" \/ e ∈ out)) /\
  (forall stored a, MatchAddress stored a = Unrestricted <-> stored = []) /\
  MatchAddress out address =
    match out with
    | [] => Unrestricted
    | _ => if bool_decide (ToLower address ∈ out) then ByAddress
           else if bool_decide ("*@" ++ Domain (ToLower address) ∈ out) then ByDomain
           else RefusedMatch
    end.
Proof.
  intros H. destruct (normalizeFrom_spec _ _ _ _ H) as (Hnd & Hout & Hall).
  assert (Hc : Canonical out = out) by by apply canonicalFrom_fixed.
  split_and!; [done|done|by apply normalizeFrom_fixed| | |].
  - intros raw Hr. destruct (Hall raw Hr) as (e & He & [?|[Hs|?]]); [by eauto| |by eauto].
    by apply not_elem_of_empty in Hs.
  - intros stored a. destruct stored as [|x stored]; [done|]. unfold MatchAddress.
    rewrite matchLoop_spec. repeat case_bool_decide; done.
  - unfold MatchAddress. destruct out as [|x out]; [done|]. by rewrite Hc, matchLoop_spec.
Qed.

Lemma allow_list_means_what_it_says_witness :
  MatchAddress ["billing@acme.com"; "*@acme.org"] "Ops@Acme.ORG" = ByDomain /\
  MatchAddress ["billing@acme.com"; "*@acme.org"] "ops@mail.acme.org" = RefusedMatch.
Proof.
  destruct (allow_list_means_what_it_says (fun s => Ok s) [" Billing@Acme.com "; "acme.org"; ""]
              ["billing@acme.com"; "*@acme.org"] "Ops@Acme.ORG" eq_refl) as (_ & _ & _ & _ & _ & H).
  split; [rewrite H; vm_compute; reflexivity|].
  destruct (allow_list_means_what_it_says (fun s => Ok s) [" Billing@Acme.com "; "acme.org"; ""]
              ["billing@acme.com"; "*@acme.org"] "ops@mail.acme.org" eq_refl) as (_ & _ & _ & _ & _ & H').
  rewrite H'. vm_compute. reflexivity.
Defined.

End Senders.
