(* ===== verification/SendRate.v ===== *)
(** * Ceilings on admission and on delivery

    Models [internal/email/usecases/send_rate_limit.go]: what a send costs, the
    tenant's ceiling and its cache, the backlog check, the charge at admission
    and the pace at delivery, over the limiter of [RateLimit] and the outbox
    count of [Outbox].  [EmailProvider] is the entity of
    [internal/email_provider/repositories/entities]. *)
From S2P Require Import Prelude GoStrings Cache RateLimit Outbox.
From Stdlib Require Import Ascii.

Module SendRate.
Import GoStrings.
Local Open Scope Z_scope.

(** ** Providers *)

(** [panmailv1.ProviderType]. *)
Inductive ProviderType :=
| TYPE_UNSPECIFIED | SMTP | IMAP | POP3 | SENDGRID | SES | POSTMARK | MAILGUN.

#[export] Instance ProviderType_eq_dec : EqDecision ProviderType.
Proof. solve_decision. Defined.

(** The fields of [EmailProvider] the send path reads. *)
Record EmailProvider := mkProvider {
  ID : string;
  Name : string;
  Type_ : ProviderType;
  AllowedSenders : list string;
  SendRatePerMinute : Z;
  SendBurst : Z
}.

(** A provider that only receives, which the send path skips. *)
Definition receiver (p : EmailProvider) : bool :=
  bool_decide (Type_ p = IMAP) || bool_decide (Type_ p = POP3).

Definition firstSender (providers : list EmailProvider) : option EmailProvider :=
  head (filter (fun p => receiver p = false) providers).

(** ** Costs, keys and ceilings *)

Definition sendLimitTTL : Z := 30 * Second.
Definition backlogMinutes : Z := 60.
Definition backlogCountTTL : Z := 5 * Second.
Definition maxPaceWait : Z := 5 * Second.

Definition recipientCount (to cc bcc : list string) : Z :=
  let n := Z.of_nat (length to + length cc + length bcc) in
  if n =? 0 then 1 else n.

Definition providerBucketKey (tenant provider : string) : string :=
  (tenant +:+ "|provider|" +:+ provider)%string.

Definition egressBucketKey (tenant provider : string) : string :=
  if bool_decide (provider = ""%string) then (tenant +:+ "|egress")%string
  else (tenant +:+ "|egress|provider|" +:+ provider)%string.

Definition providerSendLimit (p : option EmailProvider) : Limit :=
  match p with
  | None => mkLimit 0 0
  | Some p => mkLimit (SendRatePerMinute p) (SendBurst p)
  end.

(** A send refused for capacity. *)
Inductive rateError :=
| RateLimited (tenant : string) (retryAfter : Z)
| BacklogFull (tenant : string) (pending ceiling : Z).

Section Rates.
Context {F : Type} `{Num F}.
Context (order : gmap string nat -> list (string * nat)).
(** The caches, through their interface: ceilings and backlog counts. *)
Context {CL : Type} `{!TTLCache.CacheSpec CL Limit}.
Context {CB : Type} `{!TTLCache.CacheSpec CB Z}.
(** [GetTenantByID]: the tenant's rate and burst. *)
Context (GetTenantByID : string -> result string (option (Z * Z))).

(** The limiter, the ceilings and the counts a gateway holds; [None] is a
    collaborator that was not configured. *)
Record Rates := mkRates {
  limiter : option (RateLimit.Limiter F);
  sendLimits : option CL;
  backlogCounts : option CB
}.

Definition SendLimitFor (now : Z) (tenant : string) (c : CL) : result string Limit * CL :=
  match TTLCache.cs_get c tenant now with
  | (Some limit, c') => (Ok limit, c')
  | (None, c') =>
      match GetTenantByID tenant with
      | Err e => (Err e, c')
      | Ok None => (Ok (mkLimit 0 0), c')
      | Ok (Some (rate, burst)) =>
          let limit := mkLimit rate burst in
          (Ok limit, TTLCache.cs_put c' tenant limit now now)
      end
  end.

(** [f] is how the count goes if it is read. *)
Definition checkBacklog (f : fault) (now : Z) (tenant : string) (limit : Limit) (db : Outbox.DB) (r : Rates) :
    option rateError * Rates :=
  if Unlimited limit then (None, r)
  else
    let ceiling := wrap64 (PerMinute limit * backlogMinutes) in
    let verdict pending := if ceiling <=? pending then Some (BacklogFull tenant pending ceiling) else None in
    match backlogCounts r with
    | None =>
        match Outbox.CountPending f tenant db with
        | Err _ => (None, r)
        | Ok n => (verdict n, r)
        end
    | Some cb =>
        match TTLCache.cs_get cb tenant now with
        | (Some n, cb') => (verdict n, mkRates (limiter r) (sendLimits r) (Some cb'))
        | (None, cb') =>
            match Outbox.CountPending f tenant db with
            | Err _ => (None, mkRates (limiter r) (sendLimits r) (Some cb'))
            | Ok n =>
                (verdict n, mkRates (limiter r) (sendLimits r) (Some (TTLCache.cs_put cb' tenant n now now)))
            end
        end
    end.

Definition admissionRequests (tenant : string) (limit : Limit) (provider : option EmailProvider) : list Request :=
  mkRequest tenant limit ::
  match provider with
  | Some p => if negb (Unlimited (providerSendLimit provider))
              then [mkRequest (providerBucketKey tenant (ID p)) (providerSendLimit provider)] else []
  | None => []
  end.

Definition checkSendRate (f : fault) (now : Z) (tenant : string) (provider : option EmailProvider)
    (cost : Z) (db : Outbox.DB) (r : Rates) : option rateError * Rates :=
  match limiter r, sendLimits r with
  | Some l, Some cl =>
      match SendLimitFor now tenant cl with
      | (Err _, cl') => (None, mkRates (Some l) (Some cl') (backlogCounts r))
      | (Ok limit, cl') =>
          let r := mkRates (Some l) (Some cl') (backlogCounts r) in
          if Unlimited limit && Unlimited (providerSendLimit provider) then (None, r)
          else
            match (if Unlimited limit then (None, r) else checkBacklog f now tenant limit db r) with
            | (Some e, r') => (Some e, r')
            | (None, r') =>
                match RateLimit.AllowAll order (admissionRequests tenant limit provider) cost now l with
                | ((true, _), l') => (None, mkRates (Some l') (sendLimits r') (backlogCounts r'))
                | ((false, wait), l') =>
                    (Some (RateLimited tenant wait), mkRates (Some l') (sendLimits r') (backlogCounts r'))
                end
            end
      end
  | _, _ => (None, r)
  end.

(** [paceDelivery]: [Some wait] is a [DeliveryPacedError] with its RetryAfter.
    [interrupted] tells whether the context ended before the timer. *)
Definition paceDelivery (interrupted : bool) (now : Z) (tenant : string) (provider : option EmailProvider)
    (pending : Z) (r : Rates) : option Z * Rates :=
  match limiter r with
  | None => (None, r)
  | Some l =>
      if pending <=? 0 then (None, r)
      else
        let '(tenantReq, cl) :=
          match sendLimits r with
          | None => ([], None)
          | Some cl =>
              match SendLimitFor now tenant cl with
              | (Ok limit, cl') => ([mkRequest (egressBucketKey tenant "") limit], Some cl')
              | (Err _, cl') => ([], Some cl')
              end
          end in
        let reqs := tenantReq ++
          match provider with
          | Some p => [mkRequest (egressBucketKey tenant (ID p)) (providerSendLimit provider)]
          | None => []
          end in
        let '(res, l1) := RateLimit.ReserveAll order reqs pending now l in
        let wait := RateLimit.Delay res in
        let l2 := if (wait =? 0) || ((wait <=? maxPaceWait) && negb interrupted) then l1
                  else (RateLimit.Cancel res l1).2 in
        (if (wait =? 0) || ((wait <=? maxPaceWait) && negb interrupted) then None else Some wait,
         mkRates (Some l2) cl (backlogCounts r))
  end.
End Rates.

(** ** The meters are separate *)

(** The buckets the send path charges: at admission and at delivery, the
    tenant's and a provider's. *)
Inductive meter :=
| AdmitTenant (tenant : string)
| AdmitProvider (tenant provider : string)
| EgressTenant (tenant : string)
| EgressProvider (tenant provider : string).

Definition meter_key (m : meter) : string :=
  match m with
  | AdmitTenant t => t
  | AdmitProvider t p => providerBucketKey t p
  | EgressTenant t => egressBucketKey t ""
  | EgressProvider t p => egressBucketKey t p
  end.

Definition meter_tenant (m : meter) : string :=
  match m with AdmitTenant t | AdmitProvider t _ | EgressTenant t | EgressProvider t _ => t end.

(** Ids as the code issues them: a tenant's has no separator in it, and a
    provider's is not empty. *)
Definition meter_ok (m : meter) : Prop :=
  Contains (meter_tenant m) "|" = false /\
  match m with AdmitProvider _ p | EgressProvider _ p => p <> ""%string | _ => True end.

Definition no_bar (s : string) : Prop := Contains s "|" = false.

Lemma bar_none a b r : no_bar a -> a <> (b +:+ String "|"%char r)%string.
Proof.
  unfold no_bar. intros Ha ->. cut (Contains (b +:+ String "|"%char r) "|" = true); [congruence|].
  apply Contains_spec. by exists b, r.
Qed.

Lemma bar_split a b r s :
  no_bar a -> no_bar b -> (a +:+ String "|"%char r)%string = (b +:+ String "|"%char s)%string -> a = b /\ r = s.
Proof.
  unfold no_bar. revert b. induction a as [|c a IH]; intros [|d b] Ha Hb H; simpl in H.
  - injection H as ->. done.
  - injection H as <- H. by destruct (bar_none _ "" b Hb).
  - injection H as -> H. by destruct (bar_none _ "" a Ha).
  - injection H as <- H. simpl in Ha, Hb. b2p. destruct (IH b) as [-> ->]; done.
Qed.

(** No two meters share a bucket, within a tenant or across tenants. *)
Lemma meter_key_inj m1 m2 : meter_ok m1 -> meter_ok m2 -> meter_key m1 = meter_key m2 -> m1 = m2.
Proof.
  intros [H1 P1] [H2 P2] H.
  assert (He : forall t p, p <> ""%string -> egressBucketKey t p = (t +:+ String "|"%char ("egress|provider|" +:+ p))%string).
  { intros t p Hp. unfold egressBucketKey. by rewrite bool_decide_eq_false_2. }
  destruct m1 as [t1|t1 p1|t1|t1 p1], m2 as [t2|t2 p2|t2|t2 p2]; simpl in *;
    try change (egressBucketKey t1 "") with (t1 +:+ String "|"%char "egress")%string in H;
    try change (egressBucketKey t2 "") with (t2 +:+ String "|"%char "egress")%string in H;
    rewrite ?He in H by done; unfold providerBucketKey in H;
    try (by destruct (bar_none _ _ _ H1 H)); try (symmetry in H; by destruct (bar_none _ _ _ H2 H));
    try (apply bar_split in H as [-> H]; [|done|done]; simpl in H); simplify_eq; done.
Qed.

Section RatesLemmas.
Context {F : Type} `{Num F}.
Context (order : gmap string nat -> list (string * nat)).
Context (order_perm : forall m, order m ≡ₚ map_to_list m).
Context {CL : Type} `{!TTLCache.CacheSpec CL Limit}.
Context {CB : Type} `{!TTLCache.CacheSpec CB Z}.
Context (GetTenantByID : string -> result string (option (Z * Z))).

Lemma checkBacklog_limiter f now tenant limit db (r : Rates (F := F) (CL := CL) (CB := CB)) :
  limiter (checkBacklog f now tenant limit db r).2 = limiter r.
Proof. unfold checkBacklog. repeat (case_match; try done). Qed.

(** Admission charges only its own meters.  Whatever it decides -- admitted,
    over the rate, backlog full, limits unreadable -- every bucket other than the
    tenant's and this provider's admission buckets is as it was: the delivery
    meters of the same tenant, and every meter of every other tenant. *)
Theorem admission_charges_its_own_meters f now tenant provider cost db l cl cb m :
  RateLimit.wf l -> Z.of_nat (size (RateLimit.buckets l) + 2) <= RateLimit.maxBuckets l ->
  meter_ok (AdmitProvider tenant (ID provider)) -> meter_ok m ->
  m <> AdmitTenant tenant -> m <> AdmitProvider tenant (ID provider) ->
  exists l',
    limiter (checkSendRate order GetTenantByID f now tenant (Some provider) cost db
               (mkRates (Some l) (Some cl) cb)).2 = Some l' /\
    RateLimit.view l' (meter_key m) = RateLimit.view l (meter_key m).
Proof.
  intros Hwf Hsz Hp Hm Ht Hne. unfold checkSendRate. simpl.
  destruct (SendLimitFor GetTenantByID now tenant cl) as [[limit|e] cl']; [|by eauto].
  case_match; [by eauto|].
  destruct (if Unlimited limit then _ else _) as [o r2] eqn:E.
  assert (Hl : limiter r2 = Some l).
  { destruct (Unlimited limit); [by simplify_eq|].
    change r2 with (o, r2).2. rewrite <- E. by rewrite checkBacklog_limiter. }
  destruct o as [e|]; [by eauto|].
  set (reqs := admissionRequests tenant limit (Some provider)).
  assert (Hkeys : forall k, k ∈ Key <$> RateLimit.active reqs -> k = tenant \/ k = providerBucketKey tenant (ID provider)).
  { intros k Hk. apply list_elem_of_fmap in Hk as (q & -> & Hq). unfold RateLimit.active in Hq.
    apply list_elem_of_filter in Hq as [_ Hq]. unfold reqs, admissionRequests in Hq.
    apply elem_of_cons in Hq as [->|Hq]; [by left|]. case_match; [|by apply not_elem_of_nil in Hq].
    apply list_elem_of_singleton in Hq as ->. by right. }
  destruct (RateLimit.AllowAll_spec order order_perm reqs cost now l) as (l' & -> & _ & Hout); [done| | |].
  - assert (Hlen : (length (RateLimit.active reqs) <= 2)%nat); [|lia].
    etransitivity; [apply length_filter|]. unfold reqs, admissionRequests. simpl.
    destruct (negb _); simpl; lia.
  - assert (Hnd : NoDup (Key <$> reqs)).
    { unfold reqs, admissionRequests. destruct (negb _); [|apply NoDup_singleton].
      apply NoDup_cons. split; [|apply NoDup_singleton]. intros Hin.
      apply list_elem_of_singleton in Hin. destruct Hp as [Hp _]. by destruct (bar_none _ _ _ Hp Hin). }
    eapply sublist_NoDup; [exact Hnd|]. unfold RateLimit.active. apply fmap_sublist, sublist_filter.
  - exists l'. split; [by destruct (forallb _ _)|]. apply Hout. intros Hk. apply Hkeys in Hk as [Hk|Hk].
    + apply Ht. apply meter_key_inj; [done| |done]. by destruct Hp.
    + apply Hne. by apply meter_key_inj.
Qed.
End RatesLemmas.

(** Two tenants behind one limiter: the delivery meter of one and the admission
    meter of the other are untouched by an admission. *)
Definition demo_provider : EmailProvider := mkProvider "p1" "main" SMTP [] 60 1.
Definition demo_tenants (t : string) : result string (option (Z * Z)) := Ok (Some (60, 5)).
Definition demo_limiter : RateLimit.Limiter QArith_base.Q :=
  RateLimit.step map_to_list RateLimit.New (RateLimit.OAllow (egressBucketKey "t1" "p1") (mkLimit 60 1) 1 0).

#[local] Existing Instance TTLCache.ttl_cache_spec.
#[local] Existing Instance RateLimit.Q_laws.

Lemma demo_limiter_wf : RateLimit.wf demo_limiter.
Proof.
  unfold demo_limiter.
  refine (proj1 (RateLimit.inv_step map_to_list _ _ _ RateLimit.inv_New)). intros m. apply Permutation_refl.
Qed.

Lemma admission_charges_its_own_meters_witness :
  let m := EgressProvider "t1" "p1" in
  exists l',
    limiter (checkSendRate map_to_list demo_tenants Up 0 "t1" (Some demo_provider) 3
               (Outbox.mkDB ∅ ∅)
               (mkRates (Some demo_limiter) (Some (TTLCache.New sendLimitTTL))
                  (Some (TTLCache.New backlogCountTTL)))).2 = Some l' /\
    RateLimit.view l' (meter_key m) = RateLimit.view demo_limiter (meter_key m).
Proof.
  refine (admission_charges_its_own_meters map_to_list (fun m => Permutation_refl _) demo_tenants Up 0 "t1"
           demo_provider 3 (Outbox.mkDB ∅ ∅) demo_limiter (TTLCache.New sendLimitTTL)
           (Some (TTLCache.New backlogCountTTL)) (EgressProvider "t1" "p1") demo_limiter_wf _ _ _ _ _);
    [by vm_compute|done|done|done|done].
Defined.

End SendRate.
