(* ===== verification/Events.v ===== *)
(** * Recording an event

    Models [RecordEvent] and its helpers in
    [internal/event/usecases/process_event_usecase.go]: the recipient and type
    an event is recorded under, the fields recovered from the stored message,
    and what a recorded event sets off -- the provider backfill, the webhook,
    the automatic suppression.  The event store's answers are inputs. *)
From S2P Require Import Prelude GoStrings Classify Admission.

Module Events.
Import GoStrings Classify.
Local Open Scope Z_scope.

(** ** Data (repositories/entities/event.go) *)

Record EmailEvent := mkEvent {
  ID : string;
  TenantID : string;
  ProviderID : string;
  ProviderName : string;
  MessageID : string;
  Type_ : EmailEventType;
  Recipient : string;
  Subject : string;
  Timestamp : Z;
  ErrorMessage : string
}.

Record EmailMessage := mkEmailMessage {
  M_ID : string;
  M_TenantID : string;
  M_ProviderID : string;
  M_From : string;
  M_To : list string;
  M_Cc : list string;
  M_Bcc : list string;
  M_Subject : string;
  M_BodyHTML : string;
  M_BodyText : string;
  M_Attachments : list (option Admission.Attachment);
  M_CreatedAt : Z
}.

(** [panmailv1.WebhookTriggerEvent], those an event maps to. *)
Inductive WebhookTriggerEvent :=
| TRIGGER_UNSPECIFIED | MAIL_SENT | MAIL_DELIVERED | MAIL_OPENED | MAIL_CLICKED | MAIL_BOUNCED | MAIL_REJECTED.

#[export] Instance WebhookTriggerEvent_eq_dec : EqDecision WebhookTriggerEvent.
Proof. solve_decision. Defined.

Definition mapToWebhookTrigger (t : EmailEventType) : WebhookTriggerEvent :=
  match t with
  | SENT => MAIL_SENT
  | DELIVERED => MAIL_DELIVERED
  | OPENED => MAIL_OPENED
  | CLICKED => MAIL_CLICKED
  | BOUNCED | HARD_BOUNCE | SOFT_BOUNCE => MAIL_BOUNCED
  | REJECTED | DROPPED => MAIL_REJECTED
  | _ => TRIGGER_UNSPECIFIED
  end.

(** What recording an event does to the rest of the system, in order. *)
Inductive effect :=
| CountSent
| Wrote (e : EmailEvent)
| BackfillProvider (tenant message provider : string)
| RewriteMessage (m : EmailMessage)
| Webhook (tenant : string) (t : WebhookTriggerEvent) (e : EmailEvent)
| AddSuppression (tenant email reason : string).

(** ** The environment *)

(** What one call is answered: the id and time it draws, the store's reads and
    whether its write is taken, and which collaborators are configured. *)
Record Env := mkEnv {
  en_uuid : string;
  en_now : Z;
  en_internal : string -> bool;                       (* uuid.Parse accepts the id *)
  en_message : string -> option EmailMessage;         (* GetMessage; an error reads as none *)
  en_latest : string -> option EmailMessage;          (* GetLatestMessageForRecipient *)
  en_provider : string -> option string;              (* providerRepo.GetByID: the name *)
  en_write : EmailEvent -> option string;             (* Write's error *)
  en_backfiller : bool;                               (* the store can set the field alone *)
  en_webhooks : bool;
  en_suppressor : bool
}.

(** The cached names of providers ([providerNames], a [sync.Map]). *)
Definition getProviderName (env : Env) (tenant provider : string) (names : gmap string string) :
    string * gmap string string :=
  if bool_decide (provider = ""%string) then (""%string, names)
  else
    let key := (tenant +:+ ":" +:+ provider)%string in
    match names !! key with
    | Some n => (n, names)
    | None =>
        match en_provider env provider with
        | Some n => (n, <[key := n]> names)
        | None => (""%string, names)
        end
    end.

(** The type an event is recorded as: a generic bounce is classified by its
    error text. *)
Definition recordedType (ty : EmailEventType) (err : string) : EmailEventType :=
  if bool_decide (ty = BOUNCED) && negb (bool_decide (err = ""%string)) then
    let c := Classify.Type_ (ClassifyError err) in
    if bool_decide (c = UNSPECIFIED) then ty else c
  else ty.

(** The only recipient of a stored message, as it was written there. *)
Definition soleRecipient (m : EmailMessage) : string :=
  if bool_decide ((length (M_To m) + length (M_Cc m) + length (M_Bcc m))%nat = 1%nat) then
    match M_To m, M_Cc m, M_Bcc m with
    | [r], _, _ => r
    | _, [r], _ => r
    | _, _, [r] => r
    | _, _, _ => ""%string
    end
  else ""%string.

Record Fields := mkFields {
  f_provider : string;
  f_message : string;
  f_recipient : string;
  f_subject : string;
  f_stored : option EmailMessage;
  f_looked : bool
}.

(** The fields of the event, with what is missing recovered from the stored
    message.  [recipient] is already lower-cased and trimmed. *)
Definition recoverFields (env : Env) (provider message recipient subject : string) : Fields :=
  if negb (bool_decide (message = ""%string)) &&
     (bool_decide (provider = ""%string) || bool_decide (recipient = ""%string) ||
      bool_decide (subject = ""%string) || negb (en_internal env message))
  then
    let found := en_message env message in
    let latest :=
      match found with
      | None => if negb (bool_decide (recipient = ""%string)) && negb (en_internal env message)
                then en_latest env recipient else None
      | Some _ => None
      end in
    let message' := match latest with Some m => M_ID m | None => message end in
    match (match found with Some m => Some m | None => latest end) with
    | None => mkFields provider message' recipient subject None true
    | Some m =>
        mkFields (if bool_decide (provider = ""%string) then M_ProviderID m else provider)
          message'
          (if bool_decide (recipient = ""%string) then soleRecipient m else recipient)
          (if bool_decide (subject = ""%string) then M_Subject m else subject)
          (Some m) true
    end
  else mkFields provider message recipient subject None false.

Definition with_provider (p : string) (m : EmailMessage) : EmailMessage :=
  mkEmailMessage (M_ID m) (M_TenantID m) p (M_From m) (M_To m) (M_Cc m) (M_Bcc m) (M_Subject m)
    (M_BodyHTML m) (M_BodyText m) (M_Attachments m) (M_CreatedAt m).

Definition backfillProvider (env : Env) (tenant message provider : string)
    (stored : option EmailMessage) (looked : bool) : list effect :=
  match stored with
  | Some m =>
      if negb (bool_decide (M_ProviderID m = ""%string)) then []
      else if en_backfiller env then [BackfillProvider tenant message provider]
      else [RewriteMessage (with_provider provider m)]
  | None =>
      if looked then []
      else if en_backfiller env then [BackfillProvider tenant message provider]
      else
        match en_message env message with
        | Some m => if bool_decide (M_ProviderID m = ""%string)
                    then [RewriteMessage (with_provider provider m)] else []
        | None => []
        end
  end.

Definition hardBounceReason : string := "Automatic suppression after a hard bounce".
Definition complaintReason : string := "Automatic suppression after a spam complaint".

Definition with_cause (reason err : string) : string :=
  if bool_decide (err = ""%string) then reason else (reason +:+ ": " +:+ err)%string.

Definition suppressForEvent (env : Env) (tenant : string) (ty : EmailEventType) (recipient err : string) :
    list effect :=
  if negb (en_suppressor env) || bool_decide (recipient = ""%string) || bool_decide (tenant = ""%string) then []
  else
    match ty with
    | HARD_BOUNCE => [AddSuppression tenant recipient (with_cause hardBounceReason err)]
    | SPAM_REPORT => [AddSuppression tenant recipient (with_cause complaintReason err)]
    | _ => []
    end.

(** [RecordEvent]: its error, its effects and the cached names. *)
Definition RecordEvent (env : Env) (tenant provider message : string) (ty : EmailEventType)
    (recipient subject err : string) (names : gmap string string) :
    option string * list effect * gmap string string :=
  let ty := recordedType ty err in
  let f := recoverFields env provider message (ToLower (TrimSpace recipient)) subject in
  let '(name, names') := getProviderName env tenant (f_provider f) names in
  let e := mkEvent (en_uuid env) tenant (f_provider f) name (f_message f) ty (f_recipient f) (f_subject f)
             (en_now env) err in
  let counted := if bool_decide (ty = SENT) then [CountSent] else [] in
  match en_write env e with
  | Some werr => (Some werr, counted, names')
  | None =>
      (None,
       counted ++ Wrote e ::
       (if bool_decide (ty = DELIVERED) && negb (bool_decide (f_provider f = ""%string)) &&
           negb (bool_decide (f_message f = ""%string))
        then backfillProvider env tenant (f_message f) (f_provider f) (f_stored f) (f_looked f) else []) ++
       (if en_webhooks env && negb (bool_decide (mapToWebhookTrigger ty = TRIGGER_UNSPECIFIED))
        then [Webhook tenant (mapToWebhookTrigger ty) e] else []) ++
       suppressForEvent env tenant ty (f_recipient f) err,
       names')
  end.

(** ** What a recorded event is recorded under *)

Lemma recover_recipient env provider message recipient subject :
  recipient <> ""%string -> f_recipient (recoverFields env provider message recipient subject) = recipient.
Proof.
  intros Hr. unfold recoverFields. destruct (_ && _); [|done].
  destruct (match en_message env message with Some m => Some m | None => _ end); [|done]. simpl.
  by rewrite bool_decide_eq_false_2.
Qed.

Lemma recover_provider env provider message recipient subject :
  provider <> ""%string -> f_provider (recoverFields env provider message recipient subject) = provider.
Proof.
  intros Hr. unfold recoverFields. destruct (_ && _); [|done].
  destruct (match en_message env message with Some m => Some m | None => _ end); [|done]. simpl.
  by rewrite bool_decide_eq_false_2.
Qed.

(** The addresses a call put on the suppression list. *)
Definition suppressions (effs : list effect) : list (string * string * string) :=
  omap (fun x => match x with AddSuppression t e r => Some (t, e, r) | _ => None end) effs.

Lemma backfill_no_suppressions env t m p s l : suppressions (backfillProvider env t m p s l) = [].
Proof. unfold backfillProvider. repeat case_match; done. Qed.

Lemma suppressions_app a b : suppressions (a ++ b) = suppressions a ++ suppressions b.
Proof. apply omap_app. Qed.

(** The recipient an event is recorded under. *)
Definition recorded (effs : list effect) : list EmailEvent :=
  omap (fun x => match x with Wrote e => Some e | _ => None end) effs.

(** A suppression is made only by a recorded event that ends the address: a hard
    bounce or a complaint, as reported or as its error text is classified, and
    for the recipient the event names. *)
Lemma RecordEvent_suppressions env tenant provider message ty recipient subject err names o effs names' :
  RecordEvent env tenant provider message ty recipient subject err names = (o, effs, names') ->
  suppressions effs =
    match o with
    | Some _ => []
    | None =>
        suppressions (suppressForEvent env tenant (recordedType ty err)
          (f_recipient (recoverFields env provider message (ToLower (TrimSpace recipient)) subject)) err)
    end.
Proof.
  unfold RecordEvent. destruct (getProviderName _ _ _ _) as [name nm].
  case_match; intros; simplify_eq; [by case_match|].
  rewrite !suppressions_app. simpl.
  assert (H1 : forall b : bool, suppressions (if b then [CountSent] else []) = []) by by intros [].
  rewrite H1. simpl. rewrite !suppressions_app.
  assert (H2 : forall (b : bool) (l : list effect), suppressions l = [] -> suppressions (if b then l else []) = []) by by intros [].
  rewrite !H2; [done|done|apply backfill_no_suppressions].
Qed.

(** An address recovered from the stored message keeps the case it was stored
    with, unlike every other recipient an event is recorded under. *)
Example recovered_recipient_keeps_its_case :
  let m := mkEmailMessage "m1" "t1" "p1" "a@x.com" ["Bob@X.com"]%string [] [] "hi" "" "" [] 0 in
  let env := mkEnv "e1" 5 (fun _ => true) (fun _ => Some m) (fun _ => None) (fun _ => None)
               (fun _ => None) true false false in
  Recipient <$> recorded (RecordEvent env "t1" "p1" "m1" HARD_BOUNCE "" "hi" "" ∅).1.2 = ["Bob@X.com"]%string /\
  Recipient <$> recorded (RecordEvent env "t1" "p1" "m1" HARD_BOUNCE "Bob@X.com" "hi" "" ∅).1.2 = ["bob@x.com"]%string.
Proof. split; reflexivity. Qed.

End Events.
