(* ===== verification/EventStore.v ===== *)
(** * The event store on disk

    Models internal/event/repositories/stores/pebble: the single writer and its
    batches (store.go: [worker], [enqueue], [performWrite],
    [performLatestExpiry], [performWriteMessage], [performWriteResource],
    [Close]), the reads ([GetByID], [ListByMessageID], [List], [GetMessage],
    [GetLatestMessageForRecipient]), the keys (message_keys.go), and the
    retention of events and messages (retention.go, archive.go).

    The database is the interface of [KVStore]; the encoding of events and
    messages to JSON is a parameter.  Reads of the database do not fail here; a
    commit either lands whole or is lost. *)
From S2P Require Import Prelude GoStrings Encoding KVStore Calendar Classify Events.
From Stdlib Require Import Ascii.

Module EventStore.
Import GoStrings Encoding KVStore Calendar Classify Events.
Local Open Scope string_scope.
Local Open Scope Z_scope.

(** ** Keys *)

Definition timestampWidth : nat := 19.

(** [math.MaxInt64 - at.UnixNano()], in 64 bits. *)
Definition descending (at_ : Z) : Z := wrap64 (maxInt64 - UnixNano at_).

Definition descendingTimestamp (at_ : Z) : string :=
  let desc := FormatInt (descending at_) in
  if (String.length desc <? timestampWidth)%nat then zeros (timestampWidth - String.length desc) ++ desc else desc.

(** [fmt.Sprintf("%019d", z)]: the sign counts towards the width. *)
Definition Sprintf_019d (z : Z) : string :=
  if z <? 0 then "-" ++ zeros (18 - String.length (FormatUint (- z))) ++ FormatUint (- z) else pad 19 z.

(** The name of an event's type, less [EMAIL_EVENT_TYPE_]. *)
Definition typeStr (t : EmailEventType) : string :=
  match t with
  | UNSPECIFIED => "UNSPECIFIED" | SENT => "SENT" | DELIVERED => "DELIVERED" | OPENED => "OPENED"
  | CLICKED => "CLICKED" | BOUNCED => "BOUNCED" | HARD_BOUNCE => "HARD_BOUNCE" | SOFT_BOUNCE => "SOFT_BOUNCE"
  | SPAM_REPORT => "SPAM_REPORT" | UNSUBSCRIBED => "UNSUBSCRIBED" | DROPPED => "DROPPED" | REJECTED => "REJECTED"
  | PENDING => "PENDING" | DEFERRED => "DEFERRED" | COMPLAINED => "COMPLAINED"
  end.

Definition eventKeyOf (tenant ts id : string) : string := "events:" ++ tenant ++ ":" ++ ts ++ ":" ++ id.
Definition eventKey (e : EmailEvent) : string := eventKeyOf (TenantID e) (descendingTimestamp (Timestamp e)) (ID e).
Definition eventIdKey (id : string) : string := "event_id:" ++ id.
Definition eventIdVal (e : EmailEvent) : string := TenantID e ++ ":" ++ descendingTimestamp (Timestamp e).
Definition msgEventKey (e : EmailEvent) : string :=
  "msg_events:" ++ TenantID e ++ ":" ++ MessageID e ++ ":" ++ Recipient e ++ ":" ++ descendingTimestamp (Timestamp e) ++ ":" ++ ID e.

(** A message and one of its recipients, as keys spell them. *)
Definition thread (message recipient : string) : string := message ++ ":" ++ recipient.
Definition latestTsKey (tenant th : string) : string := "latest_ts:" ++ tenant ++ ":" ++ th.
Definition latestEventKey (tenant ts th : string) : string := "latest_events:" ++ tenant ++ ":" ++ ts ++ ":" ++ th.

Definition metricKey (tenant ty : string) : string := "metrics:" ++ tenant ++ ":" ++ ty.
Definition dayKey (tenant bucket ty : string) : string := "timeseries:" ++ tenant ++ ":" ++ bucket ++ ":" ++ ty.
Definition hourKey (tenant bucket ty : string) : string := "timeseries:hour:" ++ tenant ++ ":" ++ bucket ++ ":" ++ ty.
Definition minuteKey (tenant bucket ty : string) : string := "timeseries:minute:" ++ tenant ++ ":" ++ bucket ++ ":" ++ ty.

Definition messageKey (tenant id : string) : string := "messages:" ++ tenant ++ ":" ++ id.

(** One key per distinct recipient; the order is a map's, any of them. *)
Definition recipientMessageKeys (m : EmailMessage) : list string :=
  (fun r => "recipient_messages:" ++ M_TenantID m ++ ":" ++ r ++ ":" ++ descendingTimestamp (M_CreatedAt m) ++ ":" ++ M_ID m)
    <$> elements (list_to_set (filter (fun r => r <> "") (M_To m ++ M_Cc m ++ M_Bcc m)%list) : gset string).

(** ** Counters *)

(** Eight bytes, least significant first. *)
Fixpoint le_bytes (n : nat) (z : Z) : string :=
  match n with O => "" | S n => String (chr (z mod 256)) (le_bytes n (z / 256)) end.

Fixpoint le_value (n : nat) (s : string) : Z :=
  match n, s with
  | S n, String c r => code c + 256 * le_value n r
  | _, _ => 0
  end.

Definition PutUint64 (z : Z) : string := le_bytes 8 (z mod 2 ^ 64).

Definition decodeUint64 (b : string) : Z := if (String.length b <? 8)%nat then 0 else le_value 8 b.

(** The merge operator the store is opened with ([counterValueMerger]). *)
Definition counterMerge (cur : option string) (v : string) : string :=
  match cur with
  | None => PutUint64 (decodeUint64 v)
  | Some c => PutUint64 (decodeUint64 c + decodeUint64 v)
  end.

Definition incrementCounter (key : string) : kvop := KMerge key (PutUint64 1).

(** ** Data *)

Record ResourcePoint := mkResource {
  R_Timestamp : Z;
  R_encoded : string           (* its JSON *)
}.

Record latestPointer := mkPointer {
  p_tenant : string;
  p_message : string;
  p_recipient : string;
  p_tsDesc : string
}.

Inductive storeOp :=
| WriteOp (e : EmailEvent)
| MessageOp (m : EmailMessage)
| ResourceOp (p : ResourcePoint)
| LatestExpiryOp (expired : list latestPointer).

Record ListFilter := mkFilter {
  PageSize : Z;
  PageToken : string;
  F_Recipient : string;
  F_EventType : EmailEventType;
  F_StartTime : Z;
  F_EndTime : Z;
  F_MessageID : string;
  LatestOnly : bool;
  RecipientExact : bool;
  F_Subject : string
}.

(** The JSON of events and messages ([encoding/json]). *)
Class Codec := {
  MarshalEvent : EmailEvent -> result string string;
  UnmarshalEvent : string -> result string EmailEvent;
  MarshalMessage : EmailMessage -> result string string;
  UnmarshalMessage : string -> result string EmailMessage
}.

(** What is read back is what was written. *)
Class CodecLaws (codec : Codec) := {
  event_roundtrip : forall e v, MarshalEvent e = Ok v -> UnmarshalEvent v = Ok e;
  message_roundtrip : forall m v, MarshalMessage m = Ok v -> UnmarshalMessage v = Ok m
}.

Section Store.
Context {DB : Type} `{!KV DB} {codec : Codec}.

(** ** The writer *)

(** What an event adds to a batch before the timeline is looked at. *)
Definition eventOps (e : EmailEvent) (val : string) : list kvop :=
  let ty := typeStr (Type_ e) in
  [incrementCounter (metricKey (TenantID e) ty);
   incrementCounter (dayKey (TenantID e) (formatDay (Timestamp e)) ty);
   incrementCounter (hourKey (TenantID e) (formatHour (Timestamp e)) ty);
   incrementCounter (minuteKey (TenantID e) (formatMinute (Timestamp e)) ty);
   KSet (eventKey e) val;
   KSet (eventIdKey (ID e)) (eventIdVal e)].

(** The timestamp a batch, or else the database, holds for a thread. *)
Definition latestOf (d : DB) (cache : gmap string string) (tenant th : string) : string :=
  match cache !! (tenant ++ ":" ++ th) with
  | Some ts => ts
  | None => default "" (kv_get d (latestTsKey tenant th))
  end.

Definition latestOps (d : DB) (cache : gmap string string) (e : EmailEvent) (val : string) : list kvop * gmap string string :=
  let th := thread (MessageID e) (Recipient e) in
  let ts := descendingTimestamp (Timestamp e) in
  let old := latestOf d cache (TenantID e) th in
  if eqb old "" || String.leb ts old then
    (((if eqb old "" then [] else [KDelete (latestEventKey (TenantID e) old th)]) ++
      [KSet (latestTsKey (TenantID e) th) ts; KSet (latestEventKey (TenantID e) ts th) val])%list,
     <[TenantID e ++ ":" ++ th := ts]> cache)
  else ([], cache).

Definition performWrite (d : DB) (e : EmailEvent) (batch : list kvop) (cache : gmap string string) :
    list kvop * gmap string string :=
  match MarshalEvent e with
  | Err _ => (batch, cache)
  | Ok val =>
      if eqb (MessageID e) "" then ((batch ++ eventOps e val)%list, cache)
      else
        let '(ops, cache') := latestOps d cache e val in
        ((batch ++ eventOps e val ++ KSet (msgEventKey e) val :: ops)%list, cache')
  end.

Fixpoint performLatestExpiry (d : DB) (expired : list latestPointer) (batch : list kvop) (cache : gmap string string) :
    list kvop * gmap string string :=
  match expired with
  | [] => (batch, cache)
  | p :: rest =>
      let th := thread (p_message p) (p_recipient p) in
      let key := p_tenant p ++ ":" ++ th in
      match (match cache !! key with Some c => Some c | None => kv_get d (latestTsKey (p_tenant p) th) end) with
      | None => performLatestExpiry d rest batch cache
      | Some current =>
          if eqb current (p_tsDesc p) then
            performLatestExpiry d rest
              (batch ++ [KDelete (latestEventKey (p_tenant p) (p_tsDesc p) th); KDelete (latestTsKey (p_tenant p) th)])%list
              (<[key := ""]> cache)
          else performLatestExpiry d rest batch cache
      end
  end.

Definition performWriteMessage (m : EmailMessage) (batch : list kvop) : list kvop :=
  match MarshalMessage m with
  | Err _ => batch
  | Ok val => (batch ++ KSet (messageKey (M_TenantID m) (M_ID m)) val :: ((fun k => KSet k (M_ID m)) <$> recipientMessageKeys m))%list
  end.

Definition resourceKey (t : Z) : string := "resource:" ++ Sprintf_019d (descending t).

Definition performWriteResource (p : ResourcePoint) (batch : list kvop) : list kvop :=
  (batch ++ [KSet (resourceKey (R_Timestamp p)) (R_encoded p)])%list.

(** The store: what is committed, the batch the writer fills with its cache and
    count, the operations accepted and not yet taken, and how far closing is. *)
Record Writer := mkWriter {
  w_db : DB;
  w_batch : list kvop;
  w_latest : gmap string string;
  w_count : nat;
  w_chan : list storeOp;
  w_closed : bool;
  w_done : bool
}.

Definition NewStore (d : DB) : Writer := mkWriter d [] ∅ 0 [] false false.

(** [commit]; [lands] is whether the database took the batch. *)
Definition commit (lands : bool) (w : Writer) : Writer :=
  if (w_count w =? 0)%nat then w
  else mkWriter (if lands then kv_commit (w_batch w) (w_db w) else w_db w) [] ∅ 0 (w_chan w) (w_closed w) (w_done w).

Definition staged (w : Writer) (b : list kvop * gmap string string) : Writer :=
  mkWriter (w_db w) b.1 b.2 (S (w_count w)) (w_chan w) (w_closed w) (w_done w).

Definition apply (lands : bool) (o : storeOp) (w : Writer) : Writer :=
  match o with
  | LatestExpiryOp expired => commit lands (staged w (performLatestExpiry (w_db w) expired (w_batch w) (w_latest w)))
  | _ =>
      let w' := staged w
        match o with
        | WriteOp e => performWrite (w_db w) e (w_batch w) (w_latest w)
        | MessageOp m => (performWriteMessage m (w_batch w), w_latest w)
        | ResourceOp p => (performWriteResource p (w_batch w), w_latest w)
        | LatestExpiryOp _ => (w_batch w, w_latest w)
        end in
      if (500 <=? w_count w')%nat then commit lands w' else w'
  end.

Definition chanCap : nat := Z.to_nat 20000.

(** [enqueue]: refused once closing; a full channel makes the caller wait, and a
    caller that stops waiting is told.  A caller that has given up before it calls
    may be told so while there is room, which leaves the store as it was. *)
Inductive enqueueError := ErrClosed | Cancelled.

Definition enqueue (o : storeOp) (w : Writer) : Writer * result enqueueError unit :=
  if w_closed w then (w, Err ErrClosed)
  else if (length (w_chan w) <? chanCap)%nat then
    (mkWriter (w_db w) (w_batch w) (w_latest w) (w_count w) (w_chan w ++ [o])%list (w_closed w) (w_done w), Ok tt)
  else (w, Err Cancelled).

Definition with_chan (c : list storeOp) (w : Writer) : Writer :=
  mkWriter (w_db w) (w_batch w) (w_latest w) (w_count w) c (w_closed w) (w_done w).

(** The drain before the last commit; [lands n] is how the commit during the
    n-th operation goes. *)
Fixpoint drain (lands : nat -> bool) (n : nat) (ops : list storeOp) (w : Writer) : Writer :=
  match ops with
  | [] => w
  | o :: rest => drain lands (S n) rest (apply (lands n) o w)
  end.

Definition stop (lands : nat -> bool) (w : Writer) : Writer :=
  let w' := commit (lands (length (w_chan w))) (drain lands 0 (w_chan w) (with_chan [] w)) in
  mkWriter (w_db w') (w_batch w') (w_latest w') (w_count w') [] (w_closed w') true.

(** ** Steps *)

(** What retention commits by itself: deletions outside the timeline. *)
Definition timeline_key (k : string) : bool := HasPrefix k "latest_ts:" || HasPrefix k "latest_events:".
Definition prunes (o : kvop) : Prop := exists k, o = KDelete k /\ timeline_key k = false.

(** What happens to the store: an operation offered, the writer taking one or
    its ticker firing, closing and stopping, retention's own commits, and the
    process dying -- what was not committed is lost -- and starting again. *)
Inductive label :=
| LEnqueue (o : storeOp)
| LTake (lands : bool)
| LTick (lands : bool)
| LClose
| LStop (lands : nat -> bool)
| LRetention (b : list kvop)
| LCrash.

Definition step (l : label) (w : Writer) : Writer :=
  match l with
  | LEnqueue o => (enqueue o w).1
  | LTake lands =>
      match w_chan w with
      | o :: rest => if w_done w then w else apply lands o (with_chan rest w)
      | [] => w
      end
  | LTick lands => if w_done w then w else commit lands w
  | LClose => mkWriter (w_db w) (w_batch w) (w_latest w) (w_count w) (w_chan w) true (w_done w)
  | LStop lands => if w_closed w && negb (w_done w) then stop lands w else w
  | LRetention b =>
      mkWriter (kv_commit b (w_db w)) (w_batch w) (w_latest w) (w_count w) (w_chan w) (w_closed w) (w_done w)
  | LCrash => NewStore (w_db w)
  end.

Definition run (ls : list label) (w : Writer) : Writer := foldl (fun w l => step l w) w ls.

(** The operations the store accepted along the way. *)
Fixpoint accepted (ls : list label) (w : Writer) : list storeOp :=
  match ls with
  | [] => []
  | l :: rest =>
      (match l with
       | LEnqueue o => if is_ok (enqueue o w).2 then [o] else []
       | _ => []
       end ++ accepted rest (step l w))%list
  end.

(** ** Reads *)

Definition GetByID (d : DB) (tenant id : string) : result string (option EmailEvent) :=
  match kv_get d (eventIdKey id) with
  | None => Ok None
  | Some idVal =>
      match Split idVal ":"%char with
      | [actual; ts] =>
          if negb (eqb actual tenant) then Ok None
          else
            match kv_get d (eventKeyOf tenant ts id) with
            | None => Err "pebble: not found"
            | Some val => match UnmarshalEvent val with Ok e => Ok (Some e) | Err e => Err e end
            end
      | _ => Err "invalid index value"
      end
  end.

Definition decoded (l : list (string * string)) : list EmailEvent :=
  omap (fun kv => match UnmarshalEvent kv.2 with Ok e => Some e | Err _ => None end) l.

Fixpoint takeWhile (p : string * string -> bool) (l : list (string * string)) : list (string * string) :=
  match l with [] => [] | x :: r => if p x then x :: takeWhile p r else [] end.

Definition ListByMessageID (d : DB) (tenant message : string) : list EmailEvent :=
  let prefix := "msg_events:" ++ tenant ++ ":" ++ message ++ ":" in
  decoded (takeWhile (fun kv => HasPrefix kv.1 prefix) (kv_iter d prefix (prefix ++ xFF))).

Definition GetMessage (d : DB) (tenant message : string) : result string (option EmailMessage) :=
  match kv_get d (messageKey tenant message) with
  | None => Ok None
  | Some val => match UnmarshalMessage val with Ok m => Ok (Some m) | Err e => Err e end
  end.

Definition GetLatestMessageForRecipient (d : DB) (tenant recipient : string) : result string (option EmailMessage) :=
  let prefix := "recipient_messages:" ++ tenant ++ ":" ++ recipient ++ ":" in
  match kv_iter d prefix (prefix ++ xFF) with
  | (_, message) :: _ => GetMessage d tenant message
  | [] => Ok None
  end.

(** The bounds of a listing: by message, over the timeline, or over all events;
    a start or an end narrows the last two. *)
Definition timeBounds (family tenant : string) (f : ListFilter) : string * string :=
  let prefix := family ++ tenant ++ ":" in
  (if time_is_zero (F_EndTime f) then prefix else prefix ++ Sprintf_019d (descending (F_EndTime f)) ++ ":",
   if time_is_zero (F_StartTime f) then prefix ++ xFF
   else prefix ++ Sprintf_019d (wrap64 (descending (F_StartTime f) + 1)) ++ ":").

Definition listBounds (tenant : string) (f : ListFilter) : string * string :=
  if negb (eqb (F_MessageID f) "") then
    let prefix :=
      "msg_events:" ++ tenant ++ ":" ++ F_MessageID f ++ ":" ++
      (if negb (eqb (F_Recipient f) "") && RecipientExact f then F_Recipient f ++ ":" else "") in
    (prefix, prefix ++ xFF)
  else if LatestOnly f then timeBounds "latest_events:" tenant f
  else timeBounds "events:" tenant f.

(** The tests an event passes to be listed. *)
Definition listed (f : ListFilter) (e : EmailEvent) : bool :=
  (eqb (F_Recipient f) "" ||
   (if RecipientExact f then eqb (Recipient e) (F_Recipient f)
    else Contains (ToLower (Recipient e)) (ToLower (F_Recipient f)))) &&
  (bool_decide (F_EventType f = UNSPECIFIED) || bool_decide (Type_ e = F_EventType f)) &&
  (eqb (F_Subject f) "" || Contains (ToLower (Subject e)) (ToLower (F_Subject f))).

(** [iter.SeekGE]: the first key not below the one given. *)
Fixpoint seekGE (k : string) (l : list (string * string)) : list (string * string) :=
  match l with [] => [] | x :: r => if String.ltb x.1 k then seekGE k r else l end.

(** The loop: up to [n] events that pass, and the key it stopped at. *)
Fixpoint listLoop (f : ListFilter) (n : nat) (l : list (string * string)) : list EmailEvent * string :=
  match l with
  | [] => ([], "")
  | (k, v) :: rest =>
      match n with
      | O => ([], k)
      | S n' =>
          match UnmarshalEvent v with
          | Err _ => listLoop f n rest
          | Ok e =>
              if listed f e then let '(es, token) := listLoop f n' rest in (e :: es, token)
              else listLoop f n rest
          end
      end
  end.

Definition List_ (d : DB) (tenant : string) (f : ListFilter) : list EmailEvent * string :=
  let size := if PageSize f <=? 0 then 50 else PageSize f in
  let '(lo, hi) := listBounds tenant f in
  let from := if eqb (PageToken f) "" then lo else PageToken f in
  listLoop f (Z.to_nat size) (seekGE from (kv_iter d lo hi)).

(** ** Retention (retention.go, archive.go) *)

Definition truncateBatchSize : nat := 1000.

(** An event on its way out. *)
Record expiredEvent := mkExpired {
  x_key : string;
  x_id : string;
  x_value : string
}.

(** What a pass asks of the database, in order: a batch committed, and pointers
    handed to the writer. *)
Inductive retAction :=
| RCommit (ops : list kvop)
| RExpire (ptrs : list latestPointer).

(** What a pass meets: the caller giving up at a key; what another store holds,
    when this one is its mirror; archive writes, commits and hand-overs that
    fail, by their number. *)
Record RetEnv := mkRetEnv {
  r_ctx : nat -> option string;
  r_elsewhere : option (list string -> result string (gset string));
  r_archive : nat -> option string;
  r_commit : nat -> option string;
  r_expire : nat -> option string
}.

Record RetState := mkRet {
  r_actions : list retAction;
  r_lines : list (string * string);     (* archive records, each with its tenant *)
  r_removed : Z;
  r_chunks : nat
}.

Definition deleteEventRow (rec : expiredEvent) : list kvop := [KDelete (x_key rec); KDelete (eventIdKey (x_id rec))].

Definition deleteEventIndexes (e : EmailEvent) : list kvop * option latestPointer :=
  if eqb (MessageID e) "" then ([], None)
  else ([KDelete (msgEventKey e)],
        Some (mkPointer (TenantID e) (MessageID e) (Recipient e) (descendingTimestamp (Timestamp e)))).

(** [tenantArchiveSet.write]: a line in the tenant's own file. *)
Definition archiveWrite (env : RetEnv) (tenant record : string) (lines : list (string * string)) : list (string * string) * option string :=
  match r_archive env (length lines) with
  | Some err => (lines, Some err)
  | None => ((lines ++ [(tenant, record)])%list, None)
  end.

(** One event: the deletions, the pointer it may own, and the archive so far. *)
Definition expireEvent (env : RetEnv) (rec : expiredEvent) (archive : bool) (lines : list (string * string)) :
    list (string * string) * result string (list kvop * option latestPointer) :=
  match UnmarshalEvent (x_value rec) with
  | Err _ => (lines, Ok (deleteEventRow rec, None))
  | Ok e =>
      let out := let '(ops, p) := deleteEventIndexes e in Ok ((ops ++ deleteEventRow rec)%list, p) in
      if archive then
        match MarshalEvent e with
        | Err err => (lines, Err err)
        | Ok record =>
            match archiveWrite env (TenantID e) record lines with
            | (lines', Some err) => (lines', Err err)
            | (lines', None) => (lines', out)
            end
        end
      else (lines, out)
  end.

Fixpoint expireAll (env : RetEnv) (held : gset string) (chunk : list expiredEvent) (lines : list (string * string)) :
    list (string * string) * result string (list kvop * list latestPointer) :=
  match chunk with
  | [] => (lines, Ok ([], []))
  | rec :: rest =>
      match expireEvent env rec (negb (bool_decide (x_id rec ∈ held))) lines with
      | (lines', Err err) => (lines', Err err)
      | (lines', Ok (ops, p)) =>
          match expireAll env held rest lines' with
          | (lines'', Err err) => (lines'', Err err)
          | (lines'', Ok (ops', ps)) => (lines'', Ok ((ops ++ ops')%list, (option_list p ++ ps)%list))
          end
      end
  end.

(** [expireLatest]: the pointers handed to the writer; the chunk they come from
    is the one just committed. *)
Definition expireLatest (env : RetEnv) (n : nat) (ptrs : list latestPointer) (st : RetState) : RetState * option string :=
  match ptrs with
  | [] => (st, None)
  | _ =>
      match r_expire env n with
      | Some err => (st, Some err)
      | None => (mkRet (r_actions st ++ [RExpire ptrs])%list (r_lines st) (r_removed st) (r_chunks st), None)
      end
  end.

Definition expireChunk (env : RetEnv) (chunk : list expiredEvent) (st : RetState) : RetState * option string :=
  match chunk with
  | [] => (st, None)
  | _ =>
      match (match r_elsewhere env with None => Ok ∅ | Some held => held (x_id <$> chunk) end) with
      | Err err => (st, Some err)
      | Ok held =>
          match expireAll env held chunk (r_lines st) with
          | (lines, Err err) => (mkRet (r_actions st) lines (r_removed st) (S (r_chunks st)), Some err)
          | (lines, Ok (ops, ptrs)) =>
              match r_commit env (r_chunks st) with
              | Some err => (mkRet (r_actions st) lines (r_removed st) (S (r_chunks st)), Some err)
              | None =>
                  expireLatest env (r_chunks st) ptrs
                    (mkRet (r_actions st ++ [RCommit ops])%list lines (r_removed st + Z.of_nat (length chunk)) (S (r_chunks st)))
              end
          end
      end
  end.

(** [strconv.ParseInt(s, 10, 64)] with its error dropped: nothing that is not a
    number, the nearest of what is out of range. *)
Definition ParseInt (s : string) : Z :=
  let '(neg, digits) :=
    match s with
    | String c r => if eqb (String c "") "-" then (true, r) else if eqb (String c "") "+" then (false, r) else (false, s)
    | "" => (false, s)
    end in
  if eqb digits "" || negb (str_all is_digit digits) then 0
  else sat64 (if neg : bool then - scan_digits 0 digits else scan_digits 0 digits).

(** The descending timestamp and the id a key carries. *)
Definition keyParts (k : string) : option (Z * string) :=
  match Split k ":"%char with
  | _ :: _ :: ts :: id :: _ => Some (ParseInt ts, id)
  | _ => None
  end.

Fixpoint truncateLoop (env : RetEnv) (cutoff : Z) (i : nat) (l : list (string * string)) (chunk : list expiredEvent) (st : RetState) :
    RetState * option string :=
  match l with
  | [] => expireChunk env chunk st
  | (k, v) :: rest =>
      match r_ctx env i with
      | Some err => (st, Some err)
      | None =>
          match keyParts k with
          | None => truncateLoop env cutoff (S i) rest chunk st
          | Some (ts, id) =>
              if ts <=? cutoff then truncateLoop env cutoff (S i) rest chunk st
              else
                let chunk' := (chunk ++ [mkExpired k id v])%list in
                if (length chunk' <? truncateBatchSize)%nat then truncateLoop env cutoff (S i) rest chunk' st
                else
                  match expireChunk env chunk' st with
                  | (st', Some err) => (st', Some err)
                  | (st', None) => truncateLoop env cutoff (S i) rest [] st'
                  end
          end
      end
  end.

Definition zeroCutoff : string := "retention: refusing to prune with a zero cutoff".

(** [truncateBefore] on the snapshot its iterator reads. *)
Definition truncateBefore (env : RetEnv) (before : Z) (d : DB) : RetState * option string :=
  let st := mkRet [] [] 0 0 in
  if time_is_zero before then (st, Some zeroCutoff)
  else truncateLoop env (descending before) 0 (kv_iter d "events:" "events;") [] st.

(** [TruncateBefore] archives everything; [TruncateBeforeArchivingOnly] needs to
    know what is archived elsewhere. *)
Definition TruncateBefore (env : RetEnv) (before : Z) (d : DB) : RetState * option string :=
  truncateBefore (mkRetEnv (r_ctx env) None (r_archive env) (r_commit env) (r_expire env)) before d.

Definition TruncateBeforeArchivingOnly (env : RetEnv) (before : Z) (d : DB) : RetState * option string :=
  match r_elsewhere env with
  | None => (mkRet [] [] 0 0, Some "retention: a mirror prune needs to know what is archived elsewhere")
  | Some _ => truncateBefore env before d
  end.

Definition expired (createdAt before : Z) : bool :=
  if time_is_zero createdAt then false else time_before createdAt before.

(** [TruncateMessagesBefore]: the batches committed, the count it reports. *)
Fixpoint messagesLoop (ctx : nat -> option string) (fails : nat -> option string) (before : Z) (i : nat)
    (l : list (string * string)) (batch : list kvop) (pending : nat) (removed : Z) (commits : list (list kvop)) :
    list (list kvop) * Z * option string :=
  match l with
  | [] =>
      if (pending =? 0)%nat then (commits, removed, None)
      else match fails (length commits) with
           | Some err => (commits, removed, Some err)
           | None => ((commits ++ [batch])%list, removed, None)
           end
  | (k, v) :: rest =>
      match ctx i with
      | Some err => (commits, removed, Some err)
      | None =>
          match UnmarshalMessage v with
          | Err _ => messagesLoop ctx fails before (S i) rest batch pending removed commits
          | Ok m =>
              if negb (expired (M_CreatedAt m) before) then messagesLoop ctx fails before (S i) rest batch pending removed commits
              else
                let batch' := (batch ++ KDelete k :: (KDelete <$> recipientMessageKeys m))%list in
                if (S pending <? truncateBatchSize)%nat then
                  messagesLoop ctx fails before (S i) rest batch' (S pending) (removed + 1) commits
                else
                  match fails (length commits) with
                  | Some err => (commits, removed + 1, Some err)
                  | None => messagesLoop ctx fails before (S i) rest [] 0 (removed + 1) (commits ++ [batch'])%list
                  end
          end
      end
  end.

Definition TruncateMessagesBefore (ctx fails : nat -> option string) (before : Z) (d : DB) : list (list kvop) * Z * option string :=
  if time_is_zero before then ([], 0, Some zeroCutoff)
  else messagesLoop ctx fails before 0 (kv_iter d "messages:" "messages;") [] 0 0 [].

(** What a pass leaves of a database nothing else writes to. *)
Definition after_pass (st : RetState) (d : DB) : DB :=
  foldl (fun d a => match a with
                    | RCommit ops => kv_commit ops d
                    | RExpire ptrs => kv_commit (performLatestExpiry d ptrs [] ∅).1 d
                    end) d (r_actions st).

End Store.

End EventStore.
