(* ===== verification/EventTimeline.v ===== *)
(** * The timeline of the event store

    What the single writer of [EventStore] keeps true: the timeline lists each
    message and recipient once, at the event its pointer names, whatever order
    writes, expiries, commits -- landing or lost --, retention and crashes come
    in; and what it accepted is in the database once it has been closed. *)
From S2P Require Import Prelude GoStrings Encoding KVStore Calendar Classify Events EventStore.
From Stdlib Require Import Ascii.

Module EventTimeline.
Import GoStrings Encoding KVStore Calendar Classify Events EventStore.
Local Open Scope string_scope.
Local Open Scope Z_scope.

(** ** Keys *)

Definition no_colon (s : string) : Prop := str_all (fun d => negb (bool_decide (d = ":"%char))) s = true.

Definition ts_char (c : ascii) : bool := is_digit c || bool_decide (c = "-"%char).

Lemma FormatInt_chars z : str_all ts_char (FormatInt z) = true.
Proof.
  assert (Hd : forall z, 0 <= z -> str_all ts_char (FormatUint z) = true).
  { intros y Hy. eapply str_all_weaken; [|by apply FormatUint_digits]. intros c Hc. unfold ts_char. by rewrite Hc. }
  unfold FormatInt. destruct (Z.ltb_spec z 0); [cbn [str_all]; by rewrite Hd by lia|apply Hd; lia].
Qed.

Lemma FormatUint_nonempty z : 0 <= z -> FormatUint z <> "".
Proof. intros Hz E. pose proof (FormatUint_starts z Hz) as H. by rewrite E in H. Qed.

Lemma FormatInt_nonempty z : FormatInt z <> "".
Proof. unfold FormatInt. destruct (Z.ltb_spec z 0); [done|by apply FormatUint_nonempty]. Qed.

Lemma descendingTimestamp_chars t : str_all ts_char (descendingTimestamp t) = true.
Proof.
  unfold descendingTimestamp. destruct (_ <? _)%nat; [|apply FormatInt_chars]. rewrite str_all_app, FormatInt_chars, andb_true_r.
  eapply str_all_weaken; [|apply zeros_digits]. intros c Hc. unfold ts_char. by rewrite Hc.
Qed.

Lemma descendingTimestamp_no_colon t : no_colon (descendingTimestamp t).
Proof. apply (str_all_ne ts_char); [done|apply descendingTimestamp_chars]. Qed.

Lemma descendingTimestamp_nonempty t : descendingTimestamp t <> "".
Proof.
  unfold descendingTimestamp. pose proof (FormatInt_nonempty (descending t)) as H.
  destruct (_ <? _)%nat; [|done]. destruct (zeros _); [done|done].
Qed.

Lemma latestTsKey_inj t t' th th' : no_colon t -> no_colon t' -> latestTsKey t th = latestTsKey t' th' -> t = t' /\ th = th'.
Proof. intros Ht Ht' E. unfold latestTsKey in E. simplify_eq/=. by apply (sep_inj ":"%char) in E. Qed.

Lemma latestEventKey_inj t t' ts ts' th th' : no_colon t -> no_colon t' -> no_colon ts -> no_colon ts' ->
  latestEventKey t ts th = latestEventKey t' ts' th' -> t = t' /\ ts = ts' /\ th = th'.
Proof.
  intros Ht Ht' Hs Hs' E. unfold latestEventKey in E. simplify_eq/=. apply (sep_inj ":"%char) in E as [-> E]; [|done..].
  by apply (sep_inj ":"%char) in E as [-> ->].
Qed.

Lemma colon_inj t t' th th' : no_colon t -> no_colon t' -> t ++ ":" ++ th = t' ++ ":" ++ th' -> t = t' /\ th = th'.
Proof. intros Ht Ht' E. by apply (sep_inj ":"%char) in E. Qed.

(** ** One entry per message and recipient *)

(** Seen through [V], the timeline has the entry of a thread exactly where its
    pointer says. *)
Definition one_latest (V : string -> option string) : Prop :=
  forall t th, no_colon t ->
    (forall ts, V (latestTsKey t th) = Some ts -> no_colon ts /\ ts <> "") /\
    (forall ts, no_colon ts -> (is_Some (V (latestEventKey t ts th)) <-> V (latestTsKey t th) = Some ts)).

Definition same_timeline (V V' : string -> option string) : Prop := forall k, timeline_key k = true -> V k = V' k.

Lemma timeline_ts t th : timeline_key (latestTsKey t th) = true.
Proof. unfold timeline_key, latestTsKey. by rewrite (proj2 (HasPrefix_spec _ _)) by eauto. Qed.

Lemma timeline_event t ts th : timeline_key (latestEventKey t ts th) = true.
Proof. unfold timeline_key, latestEventKey. by rewrite orb_comm, (proj2 (HasPrefix_spec _ _)) by eauto. Qed.

Lemma one_latest_same V V' : same_timeline V V' -> one_latest V -> one_latest V'.
Proof.
  intros Hs H t th Ht. destruct (H t th Ht) as [H1 H2].
  rewrite <- (Hs (latestTsKey t th)) by apply timeline_ts. split; [done|]. intros ts Hts.
  rewrite <- (Hs (latestEventKey t ts th)) by apply timeline_event. by apply H2.
Qed.

(** Moving a pointer. *)
Lemma one_latest_point V V' t0 th0 old ts0 val :
  one_latest V -> no_colon t0 -> no_colon ts0 -> ts0 <> "" -> old = default "" (V (latestTsKey t0 th0)) ->
  V' (latestTsKey t0 th0) = Some ts0 -> V' (latestEventKey t0 ts0 th0) = Some val ->
  (old <> "" -> old <> ts0 -> V' (latestEventKey t0 old th0) = None) ->
  (forall k, k <> latestTsKey t0 th0 -> k <> latestEventKey t0 ts0 th0 -> (old = "" \/ k <> latestEventKey t0 old th0) -> V' k = V k) ->
  one_latest V'.
Proof.
  intros HV Ht0 Hts0 Hne Hold Hts Hev Hdel Hrest t th Ht. destruct (HV t th Ht) as [H1 H2].
  destruct (decide (t = t0 /\ th = th0)) as [[-> ->]|Hother].
  - rewrite Hts. split; [by intros ts [= <-]|]. intros ts Hc. destruct (decide (ts = ts0)) as [->|Hn]; [by rewrite Hev|].
    split; [|by intros [= ->]]. intros [v Hv].
    destruct (decide (ts = old)) as [->|Ho].
    + destruct (decide (old = "")) as [E|E]; [|by rewrite Hdel in Hv].
      rewrite (Hrest _) in Hv; [|done| |by left]; [|intros (_ & ? & _)%latestEventKey_inj; done].
      assert (HS : V (latestTsKey t0 th0) = Some old) by (apply H2; [done|by eexists]). destruct (H1 _ HS) as [_ ?]. done.
    + rewrite (Hrest _) in Hv; [|done| |].
      * assert (HS : V (latestTsKey t0 th0) = Some ts) by (apply H2; [done|by eexists]). rewrite HS in Hold. done.
      * intros (_ & ? & _)%latestEventKey_inj; done.
      * destruct (decide (old = "")); [by left|right]. intros (_ & ? & _)%latestEventKey_inj; [done..|].
        destruct (V (latestTsKey t0 th0)) as [o|] eqn:E; [|done]. simpl in Hold. subst o. by destruct (H1 _ eq_refl).
  - assert (Hk1 : V' (latestTsKey t th) = V (latestTsKey t th)).
    { apply Hrest; [|done|by right]. intros [? ?]%latestTsKey_inj; [by destruct Hother|done|done]. }
    rewrite Hk1. split; [done|]. intros ts Hc. rewrite <- H2 by done.
    assert (Hk2 : V' (latestEventKey t ts th) = V (latestEventKey t ts th)); [|by rewrite Hk2].
    apply Hrest; [done| |].
    + intros (? & _ & ?)%latestEventKey_inj; [by destruct Hother|done..].
    + destruct (decide (old = "")); [by left|right]. intros (? & _ & ?)%latestEventKey_inj; [by destruct Hother|done..|].
      destruct (HV t0 th0 Ht0) as [H3 _]. destruct (V (latestTsKey t0 th0)) as [o|] eqn:E; [|done]. simpl in Hold. subst o.
      by destruct (H3 _ eq_refl).
Qed.

(** Dropping one. *)
Lemma one_latest_unpoint V V' t0 th0 ts0 :
  one_latest V -> no_colon t0 -> V (latestTsKey t0 th0) = Some ts0 ->
  V' (latestTsKey t0 th0) = None -> V' (latestEventKey t0 ts0 th0) = None ->
  (forall k, k <> latestTsKey t0 th0 -> k <> latestEventKey t0 ts0 th0 -> V' k = V k) ->
  one_latest V'.
Proof.
  intros HV Ht0 Hts0 Hts Hev Hrest t th Ht. destruct (HV t th Ht) as [H1 H2]. destruct (HV t0 th0 Ht0) as [H3 _].
  destruct (H3 _ Hts0) as [Hc0 _]. destruct (decide (t = t0 /\ th = th0)) as [[-> ->]|Hother].
  - rewrite Hts. split; [done|]. intros ts Hc. split; [|done]. intros [v Hv].
    destruct (decide (ts = ts0)) as [->|Hn]; [congruence|]. rewrite Hrest in Hv; [|done|intros (_ & ? & _)%latestEventKey_inj; done].
    assert (HS : V (latestTsKey t0 th0) = Some ts) by (apply H2; [done|by eexists]). congruence.
  - rewrite Hrest; [|intros [? ?]%latestTsKey_inj; [by destruct Hother|done|done]|done]. split; [done|].
    intros ts Hc. rewrite <- H2 by done.
    rewrite Hrest; [done|done|intros (? & _ & ?)%latestEventKey_inj; [by destruct Hother|done..]].
Qed.

(** ** The writer keeps it *)

Section Writer.
Context {DB : Type} `{!KV DB, !KVLaws DB counterMerge} {codec : Codec}.

(** The database as it will be once a batch has been committed. *)
Definition ahead (d : DB) (batch : list kvop) (k : string) : option string := effects counterMerge k batch (kv_get d k).

Definition view (w : Writer) : string -> option string := ahead (w_db w) (w_batch w).

(** The cache knows what the batch will make of the pointers it touched. *)
Definition cache_ok (d : DB) (batch : list kvop) (cache : gmap string string) : Prop :=
  forall t th, no_colon t ->
    match cache !! (t ++ ":" ++ th) with
    | Some ts => ahead d batch (latestTsKey t th) = (if eqb ts "" then None else Some ts)
    | None => ahead d batch (latestTsKey t th) = kv_get d (latestTsKey t th)
    end.

Definition plain (o : kvop) : Prop := timeline_key (op_key o) = false.

Lemma plain_timeline k ops cur : Forall plain ops -> timeline_key k = true -> effects counterMerge k ops cur = cur.
Proof.
  intros Hp Hk. apply effects_none. eapply Forall_impl; [exact Hp|]. intros o Ho E. unfold plain in Ho. congruence.
Qed.

Lemma ahead_app d batch ops k : ahead d (batch ++ ops) k = effects counterMerge k ops (ahead d batch k).
Proof. apply effects_app. Qed.

Lemma ahead_plain d batch ops : Forall plain ops -> same_timeline (ahead d batch) (ahead d (batch ++ ops)).
Proof. intros Hp k Hk. by rewrite ahead_app, plain_timeline. Qed.

Lemma cache_ok_plain d batch ops cache : Forall plain ops -> cache_ok d batch cache -> cache_ok d (batch ++ ops) cache.
Proof.
  intros Hp H t th Ht. specialize (H t th Ht). by rewrite <- (ahead_plain d batch ops Hp) by apply timeline_ts.
Qed.

Lemma latestOf_ahead d batch cache t th : no_colon t -> cache_ok d batch cache ->
  latestOf d cache t th = default "" (ahead d batch (latestTsKey t th)).
Proof.
  intros Ht H. specialize (H t th Ht). unfold latestOf. destruct (cache !! _) as [ts|]; rewrite H; [|done].
  destruct (eqb ts "") eqn:E; [by apply eqb_true in E|done].
Qed.

Lemma eventOps_plain e val : Forall plain (eventOps e val).
Proof. repeat constructor. Qed.

Lemma cache_ok_insert d batch batch' cache t0 th0 ts :
  no_colon t0 -> cache_ok d batch cache ->
  ahead d batch' (latestTsKey t0 th0) = (if eqb ts "" then None else Some ts) ->
  (forall t th, no_colon t -> latestTsKey t th <> latestTsKey t0 th0 -> ahead d batch' (latestTsKey t th) = ahead d batch (latestTsKey t th)) ->
  cache_ok d batch' (<[t0 ++ ":" ++ th0 := ts]> cache).
Proof.
  intros Ht0 H Hnew Hrest t th Ht. specialize (H t th Ht).
  destruct (decide (t = t0 /\ th = th0)) as [[-> ->]|Hne]; [by rewrite lookup_insert_eq|].
  rewrite lookup_insert_ne by (intros [? ?]%colon_inj; [by destruct Hne|done|done]).
  rewrite Hrest; [done|done|]. intros [? ?]%latestTsKey_inj; [by destruct Hne|done|done].
Qed.

Lemma latestOps_ok d batch cache e val ops cache' :
  no_colon (TenantID e) -> one_latest (ahead d batch) -> cache_ok d batch cache ->
  latestOps d cache e val = (ops, cache') ->
  one_latest (ahead d (batch ++ ops)) /\ cache_ok d (batch ++ ops) cache'.
Proof.
  intros Ht HV Hc. unfold latestOps. set (th := thread _ _). set (ts := descendingTimestamp _).
  rewrite (latestOf_ahead d batch cache) by done. set (old := default "" _).
  destruct (_ || _) eqn:E; [|intros [= <- <-]; by rewrite app_nil_r]. intros [<- <-]%pair_equal_spec.
  set (del := if eqb old "" then [] else _).
  pose proof (descendingTimestamp_no_colon (Timestamp e)) as Hts. fold ts in Hts.
  assert (Hne : ts <> "") by apply descendingTimestamp_nonempty.
  assert (Heff : forall k, ahead d (batch ++ del ++ [KSet (latestTsKey (TenantID e) th) ts; KSet (latestEventKey (TenantID e) ts th) val]) k =
    kv_effect counterMerge k (kv_effect counterMerge k (effects counterMerge k del (ahead d batch k)) (KSet (latestTsKey (TenantID e) th) ts))
      (KSet (latestEventKey (TenantID e) ts th) val)) by (intros k; by rewrite ahead_app, effects_app).
  assert (Hdel : forall k, (old = "" \/ k <> latestEventKey (TenantID e) old th) -> effects counterMerge k del (ahead d batch k) = ahead d batch k).
  { intros k Hk. unfold del. destruct (eqb old "") eqn:Eo; [done|]. rewrite effects_cons, effect_ne; [done|]. simpl.
    intros <-. destruct Hk as [->|]; done. }
  assert (Hother : forall k, k <> latestTsKey (TenantID e) th -> k <> latestEventKey (TenantID e) ts th ->
    (old = "" \/ k <> latestEventKey (TenantID e) old th) ->
    ahead d (batch ++ del ++ [KSet (latestTsKey (TenantID e) th) ts; KSet (latestEventKey (TenantID e) ts th) val]) k = ahead d batch k).
  { intros k H1 H2 H3. rewrite Heff, !effect_ne by (simpl; congruence). by apply Hdel. }
  assert (Htskey : ahead d (batch ++ del ++ [KSet (latestTsKey (TenantID e) th) ts; KSet (latestEventKey (TenantID e) ts th) val])
    (latestTsKey (TenantID e) th) = Some ts) by (rewrite Heff, effect_ne by done; apply effect_set).
  split.
  - eapply (one_latest_point (ahead d batch) _ (TenantID e) th old ts val);
      [done|done|done|done|done|exact Htskey| | |exact Hother].
    + rewrite Heff. apply effect_set.
    + intros Ho Hn. rewrite Heff, !effect_ne; [|done|].
      * unfold del. destruct (eqb old "") eqn:Eo; [by apply eqb_true in Eo|]. rewrite effects_cons, effect_delete. done.
      * simpl. intros (_ & ? & _)%latestEventKey_inj; [done|done|done|done|].
        destruct (HV (TenantID e) th Ht) as [H1 _]. unfold old in Ho |- *.
        destruct (ahead d batch (latestTsKey (TenantID e) th)) as [o|]; [|done]. by destruct (H1 o eq_refl).
  - eapply cache_ok_insert; [done|done| |].
    + rewrite Htskey. destruct (eqb ts "") eqn:Es; [by apply eqb_true in Es|done].
    + intros t th' Ht' Hn. apply Hother; [done|done|by right].
Qed.

Lemma performWrite_ok d e batch cache batch' cache' :
  no_colon (TenantID e) -> one_latest (ahead d batch) -> cache_ok d batch cache ->
  performWrite d e batch cache = (batch', cache') ->
  one_latest (ahead d batch') /\ cache_ok d batch' cache'.
Proof.
  intros Ht HV Hc. unfold performWrite. destruct (MarshalEvent e) as [val|]; [|intros [= <- <-]; done].
  pose proof (eventOps_plain e val) as Hp. destruct (eqb (MessageID e) "").
  { intros [<- <-]%pair_equal_spec. split; [|by apply cache_ok_plain]. eapply one_latest_same; [by apply ahead_plain|done]. }
  destruct (latestOps d cache e val) as [ops c] eqn:E. intros [<- <-]%pair_equal_spec.
  assert (Hp' : Forall plain (eventOps e val ++ [KSet (msgEventKey e) val])%list) by (apply Forall_app; split; [done|by repeat constructor]).
  replace (batch ++ eventOps e val ++ KSet (msgEventKey e) val :: ops)%list
    with ((batch ++ (eventOps e val ++ [KSet (msgEventKey e) val])) ++ ops)%list by (by rewrite <- !app_assoc).
  eapply latestOps_ok; [done| | |exact E].
  - eapply one_latest_same; [by apply ahead_plain|done].
  - by apply cache_ok_plain.
Qed.

Lemma performLatestExpiry_ok d : forall ps batch cache batch' cache',
  Forall (fun p => no_colon (p_tenant p) /\ p_tsDesc p <> "") ps -> one_latest (ahead d batch) -> cache_ok d batch cache ->
  performLatestExpiry d ps batch cache = (batch', cache') ->
  one_latest (ahead d batch') /\ cache_ok d batch' cache'.
Proof.
  induction ps as [|p rest IH]; intros batch cache batch' cache' Hp HV Hc; cbn [performLatestExpiry]; [by intros [= <- <-]|].
  apply Forall_cons in Hp as [[Hp0 Hpne] Hp]. set (th := thread _ _). set (key := p_tenant p ++ ":" ++ th).
  destruct (match cache !! key with Some c => Some c | None => _ end) as [current|] eqn:Ecur; [|by apply IH].
  destruct (eqb current (p_tsDesc p)) eqn:Et; [|by apply IH]. apply eqb_true in Et. subst current.
  set (ops := [KDelete _; KDelete _]).
  assert (Heff : forall k, ahead d (batch ++ ops) k =
    kv_effect counterMerge k (kv_effect counterMerge k (ahead d batch k) (KDelete (latestEventKey (p_tenant p) (p_tsDesc p) th)))
      (KDelete (latestTsKey (p_tenant p) th))) by (intros k; by rewrite ahead_app).
  assert (Hother : forall k, k <> latestTsKey (p_tenant p) th -> k <> latestEventKey (p_tenant p) (p_tsDesc p) th ->
    ahead d (batch ++ ops) k = ahead d batch k) by (intros k H1 H2; by rewrite Heff, !effect_ne by (simpl; congruence)).
  intros Hrun. eapply IH in Hrun; [exact Hrun|done| |].
  - pose proof (Hc (p_tenant p) th Hp0) as Hk. fold key in Hk. destruct (cache !! key) as [c|] eqn:Eck; [injection Ecur as ->|].
    + destruct (eqb (p_tsDesc p) "") eqn:Ee; [by apply eqb_true in Ee|].
      eapply one_latest_unpoint; [exact HV|exact Hp0|exact Hk| | |exact Hother].
      * rewrite Heff. apply effect_delete.
      * rewrite Heff, effect_ne by done. apply effect_delete.
    + rewrite Ecur in Hk. eapply one_latest_unpoint; [exact HV|exact Hp0|exact Hk| | |exact Hother].
      * rewrite Heff. apply effect_delete.
      * rewrite Heff, effect_ne by done. apply effect_delete.
  - unfold key. eapply cache_ok_insert; [done|exact Hc| |].
    + rewrite Heff. apply effect_delete.
    + intros t th' Ht' Hn. by apply Hother.
Qed.

Definition tidy (o : storeOp) : Prop :=
  match o with
  | WriteOp e => no_colon (TenantID e)
  | LatestExpiryOp ps => Forall (fun p => no_colon (p_tenant p) /\ p_tsDesc p <> "") ps
  | _ => True
  end.

(** Tenants' ids have no colon; retention commits deletions outside the
    timeline. *)
Definition tidy_label (l : label) : Prop :=
  match l with
  | LEnqueue o => tidy o
  | LRetention b => Forall prunes b
  | _ => True
  end.

Definition good (w : Writer) : Prop :=
  one_latest (kv_get (w_db w)) /\ one_latest (view w) /\ cache_ok (w_db w) (w_batch w) (w_latest w) /\
  Forall tidy (w_chan w) /\ (w_count w = 0%nat -> w_batch w = [] /\ w_latest w = ∅).

Lemma fresh_good d c closed dn : one_latest (kv_get d) -> Forall tidy c -> good (mkWriter d [] ∅ 0 c closed dn).
Proof.
  intros Hd Hc. split; [done|]. split; [done|]. split; [intros t th _; simpl; by rewrite lookup_empty|]. done.
Qed.

Lemma commit_good lands w : good w -> good (commit lands w).
Proof.
  intros (Hd & HV & Hc & Ht & Hz). unfold commit. destruct (w_count w =? 0)%nat; [done|].
  destruct lands; apply fresh_good; [|done|done|done].
  eapply one_latest_same; [|exact HV]. intros k _. by rewrite kv_get_commit.
Qed.

Lemma staged_good w b : good w -> one_latest (ahead (w_db w) b.1) -> cache_ok (w_db w) b.1 b.2 -> good (staged w b).
Proof. intros (Hd & _ & _ & Ht & _) HV Hc. refine (conj Hd (conj HV (conj Hc (conj Ht _)))). discriminate. Qed.

Lemma apply_good lands o w : tidy o -> good w -> good (apply lands o w).
Proof.
  intros Ho Hg. pose proof Hg as (Hd & HV & Hc & Ht & Hz).
  assert (Hs : good (staged w match o with
      | WriteOp e => performWrite (w_db w) e (w_batch w) (w_latest w)
      | MessageOp m => (performWriteMessage m (w_batch w), w_latest w)
      | ResourceOp p => (performWriteResource p (w_batch w), w_latest w)
      | LatestExpiryOp ps => performLatestExpiry (w_db w) ps (w_batch w) (w_latest w)
      end)).
  { destruct o as [e|m|p|ps].
    - destruct (performWrite _ _ _ _) as [b c] eqn:E. apply performWrite_ok in E as [? ?]; [|done..]. by apply staged_good.
    - unfold performWriteMessage. destruct (MarshalMessage m) as [val|]; [|by apply staged_good].
      assert (Hp : Forall plain (KSet (messageKey (M_TenantID m) (M_ID m)) val :: ((fun k => KSet k (M_ID m)) <$> recipientMessageKeys m))).
      { constructor; [done|]. apply Forall_fmap. unfold recipientMessageKeys. apply Forall_fmap, Forall_true. done. }
      apply staged_good; [done| |by apply cache_ok_plain]. eapply one_latest_same; [by apply ahead_plain|done].
    - unfold performWriteResource. assert (Hp : Forall plain [KSet (resourceKey (R_Timestamp p)) (R_encoded p)]) by (by repeat constructor).
      apply staged_good; [done| |by apply cache_ok_plain]. eapply one_latest_same; [by apply ahead_plain|done].
    - destruct (performLatestExpiry _ _ _ _) as [b c] eqn:E. apply performLatestExpiry_ok in E as [? ?]; [|done..]. by apply staged_good. }
  destruct o as [e|m|p|ps]; cbn [apply]; [destruct (_ <=? _)%nat..|]; by try apply commit_good.
Qed.

Lemma drain_good lands ops : forall n w, Forall tidy ops -> good w -> good (drain lands n ops w).
Proof.
  induction ops as [|o ops IH]; intros n w Hops Hg; [done|]. apply Forall_cons in Hops as [Ho Hops]. cbn [drain].
  apply IH; [done|by apply apply_good].
Qed.

Lemma with_chan_good c w : Forall tidy c -> good w -> good (with_chan c w).
Proof. intros Hc (Hd & HV & Hca & _ & Hz). exact (conj Hd (conj HV (conj Hca (conj Hc Hz)))). Qed.

Lemma step_good l w : tidy_label l -> good w -> good (step l w).
Proof.
  intros Hl Hg. pose proof Hg as (Hd & HV & Hc & Ht & Hz). destruct l as [o|lands|lands| |lands|b| ]; cbn [step].
  - unfold enqueue. destruct (w_closed w); [done|]. destruct (_ <? _)%nat; [|done].
    refine (conj Hd (conj HV (conj Hc (conj _ Hz)))). apply Forall_app. by split; [|repeat constructor].
  - destruct (w_chan w) as [|o rest] eqn:E; [done|]. destruct (w_done w); [done|].
    apply Forall_cons in Ht as [Ho Hrest]. by apply apply_good, with_chan_good.
  - destruct (w_done w); [done|by apply commit_good].
  - exact (conj Hd (conj HV (conj Hc (conj Ht Hz)))).
  - destruct (_ && _); [|done]. unfold stop.
    assert (Hw : good (commit (lands (length (w_chan w))) (drain lands 0 (w_chan w) (with_chan [] w)))).
    { by apply commit_good, drain_good, with_chan_good. }
    destruct Hw as (H1 & H2 & H3 & _ & H5). exact (conj H1 (conj H2 (conj H3 (conj (Forall_nil_2 _) H5)))).
  - assert (Hk : forall k, timeline_key k = true -> kv_get (kv_commit b (w_db w)) k = kv_get (w_db w) k).
    { intros k Hk. rewrite kv_get_commit. apply plain_timeline; [|done]. eapply Forall_impl; [exact Hl|]. intros o (key & -> & Hkey). exact Hkey. }
    split_and!; simpl; [..|done|done].
    + eapply one_latest_same; [|exact Hd]. intros k Hkk. by rewrite Hk.
    + eapply one_latest_same; [|exact HV]. intros k Hkk. unfold view, ahead. simpl. by rewrite Hk.
    + intros t th Htt. specialize (Hc t th Htt). unfold ahead in *. rewrite Hk by apply timeline_ts. done.
  - by apply fresh_good.
Qed.

Lemma run_good ls : forall w, Forall tidy_label ls -> good w -> good (run ls w).
Proof.
  induction ls as [|l ls IH]; intros w Hls Hg; [done|]. apply Forall_cons in Hls as [Hl Hls]. cbn [run foldl].
  apply IH; [done|by apply step_good].
Qed.

(** C8: the timeline lists each message and recipient once.  Whatever is
    written, expired, committed or lost, pruned, and wherever the process dies
    and starts again, the database has a timeline entry for a tenant's message
    and recipient exactly at the timestamp its pointer holds: never two, and
    none that nothing points at. *)
Theorem timeline_lists_once ls d t th ts :
  one_latest (kv_get d) -> Forall tidy_label ls -> no_colon t -> no_colon ts ->
  let d' := w_db (run ls (NewStore d)) in
  is_Some (kv_get d' (latestEventKey t ts th)) <-> kv_get d' (latestTsKey t th) = Some ts.
Proof.
  intros Hd Hls Ht Hts d'. destruct (run_good ls (NewStore d) Hls (fresh_good d [] false false Hd (Forall_nil_2 _))) as (H & _).
  by apply H.
Qed.

(** ** What was accepted is committed *)

(** Commits land, nothing is pruned or expired, and the process lives. *)
Definition smooth (l : label) : Prop :=
  match l with
  | LEnqueue (LatestExpiryOp _) | LRetention _ | LCrash => False
  | LTake lands | LTick lands => lands = true
  | LStop lands => forall n, lands n = true
  | _ => True
  end.

Lemma view_commit w k : view (commit true w) k = view w k.
Proof. unfold commit. destruct (_ =? _)%nat; [done|]. unfold view, ahead. simpl. by rewrite kv_get_commit. Qed.

(** The keys an event or a message lives under. *)
Definition row_key (k : string) : bool := HasPrefix k "events:" || HasPrefix k "event_id:" || HasPrefix k "messages:".

Lemma row_event e : row_key (eventKey e) = true.
Proof. unfold row_key, HasPrefix, eventKey, eventKeyOf. by rewrite prefix_app. Qed.
Lemma row_id id : row_key (eventIdKey id) = true.
Proof. unfold row_key, HasPrefix, eventIdKey. by rewrite prefix_app, orb_true_r. Qed.
Lemma row_message t id : row_key (messageKey t id) = true.
Proof. unfold row_key, HasPrefix, messageKey. by rewrite prefix_app, orb_true_r. Qed.
#[local] Hint Resolve row_event row_id row_message : core.

(** What an operation makes of them. *)
Definition rows (o : storeOp) (V : string -> option string) (k : string) : option string :=
  match o with
  | WriteOp e =>
      match MarshalEvent e with
      | Ok v => if bool_decide (k = eventKey e) then Some v else if bool_decide (k = eventIdKey (ID e)) then Some (eventIdVal e) else V k
      | Err _ => V k
      end
  | MessageOp m =>
      match MarshalMessage m with
      | Ok v => if bool_decide (k = messageKey (M_TenantID m) (M_ID m)) then Some v else V k
      | Err _ => V k
      end
  | _ => V k
  end.

Definition off_rows (o : kvop) : Prop := row_key (op_key o) = false.

Lemma off_rows_effects k ops cur : Forall off_rows ops -> row_key k = true -> effects counterMerge k ops cur = cur.
Proof. intros Hp Hk. apply effects_none. eapply Forall_impl; [exact Hp|]. intros o Ho E. unfold off_rows in Ho. congruence. Qed.

Lemma eventOps_rows e val k cur : row_key k = true ->
  effects counterMerge k (eventOps e val) cur =
    if bool_decide (k = eventKey e) then Some val else if bool_decide (k = eventIdKey (ID e)) then Some (eventIdVal e) else cur.
Proof.
  intros Hk. replace (eventOps e val) with (take 4 (eventOps e val) ++ [KSet (eventKey e) val; KSet (eventIdKey (ID e)) (eventIdVal e)])%list by done.
  rewrite effects_app, (off_rows_effects k (take 4 (eventOps e val))); [|unfold eventOps; cbn [take]; repeat apply Forall_cons_2; done|done].
  unfold effects. cbn [foldl]. unfold kv_effect. cbn [op_key].
  destruct (decide (k = eventKey e)) as [->|H1].
  - rewrite (bool_decide_eq_true_2 (eventKey e = eventKey e)), (bool_decide_eq_false_2 (eventIdKey _ = _)) by done. done.
  - rewrite (bool_decide_eq_false_2 (k = eventKey e)), (bool_decide_eq_false_2 (eventKey e = k)) by congruence.
    destruct (decide (k = eventIdKey (ID e))) as [->|H2]; [by rewrite !bool_decide_eq_true_2|].
    by rewrite !bool_decide_eq_false_2 by congruence.
Qed.

Lemma latestOps_off_rows (d : DB) cache e val : Forall off_rows (latestOps d cache e val).1.
Proof. unfold latestOps. destruct (_ || _); [|constructor]. simpl. destruct (eqb _ ""); by repeat constructor. Qed.

Lemma performWrite_rows d e batch cache k : row_key k = true ->
  ahead d (performWrite d e batch cache).1 k = rows (WriteOp e) (ahead d batch) k.
Proof.
  intros Hk. unfold performWrite. cbn [rows]. destruct (MarshalEvent e) as [val|]; [|done].
  destruct (eqb (MessageID e) ""); [cbn [fst]; by rewrite ahead_app, eventOps_rows|].
  pose proof (latestOps_off_rows d cache e val) as Hl. destruct (latestOps d cache e val) as [ops c]. cbn [fst] in Hl |- *.
  rewrite ahead_app, effects_app, eventOps_rows by done. rewrite off_rows_effects; [done|by constructor|done].
Qed.

Lemma performWriteMessage_rows d m batch k : row_key k = true ->
  ahead d (performWriteMessage m batch) k = rows (MessageOp m) (ahead d batch) k.
Proof.
  intros Hk. unfold performWriteMessage. cbn [rows]. destruct (MarshalMessage m) as [val|]; [|done]. rewrite ahead_app, effects_cons.
  rewrite off_rows_effects; [|apply Forall_fmap; unfold recipientMessageKeys; apply Forall_fmap, Forall_true; done|done].
  unfold kv_effect. cbn [op_key]. destruct (decide (k = messageKey (M_TenantID m) (M_ID m))) as [->|H].
  - by rewrite !bool_decide_eq_true_2.
  - by rewrite !bool_decide_eq_false_2 by congruence.
Qed.

Definition writes (o : storeOp) : Prop := match o with LatestExpiryOp _ => False | _ => True end.

Lemma apply_rows o w k : writes o -> row_key k = true -> view (apply true o w) k = rows o (view w) k.
Proof.
  intros Ho Hk. destruct o as [e|m|p|]; [..|done]; cbn [apply].
  - pose proof (performWrite_rows (w_db w) e (w_batch w) (w_latest w) k Hk) as H.
    destruct (_ <=? _)%nat; [rewrite view_commit|]; exact H.
  - pose proof (performWriteMessage_rows (w_db w) m (w_batch w) k Hk) as H.
    destruct (_ <=? _)%nat; [rewrite view_commit|]; exact H.
  - assert (H : ahead (w_db w) (performWriteResource p (w_batch w)) k = view w k).
    { unfold performWriteResource. rewrite ahead_app. apply off_rows_effects; [by repeat constructor|done]. }
    destruct (_ <=? _)%nat; [rewrite view_commit|]; exact H.
Qed.

Definition stored (V : string -> option string) (o : storeOp) : Prop :=
  match o with
  | WriteOp e => forall v, MarshalEvent e = Ok v -> V (eventKey e) = Some v /\ V (eventIdKey (ID e)) = Some (eventIdVal e)
  | MessageOp m => forall v, MarshalMessage m = Ok v -> V (messageKey (M_TenantID m) (M_ID m)) = Some v
  | _ => True
  end.

(** Operations that do not touch each other's rows. *)
Definition apart (o o' : storeOp) : Prop :=
  match o, o' with
  | WriteOp e, WriteOp e' => ID e <> ID e' /\ eventKey e <> eventKey e'
  | MessageOp m, MessageOp m' => messageKey (M_TenantID m) (M_ID m) <> messageKey (M_TenantID m') (M_ID m')
  | _, _ => True
  end.

Lemma stored_own o V V' : (forall k, row_key k = true -> V' k = rows o V k) -> stored V' o.
Proof.
  intros H. destruct o as [e|m|p|]; [..|done|done]; intros v Hv; cbn [rows] in H; rewrite Hv in H.
  - split; rewrite H by done; [by rewrite bool_decide_eq_true_2|].
    by rewrite bool_decide_eq_false_2, bool_decide_eq_true_2 by done.
  - rewrite H by done. by rewrite bool_decide_eq_true_2.
Qed.

Lemma stored_other o o' V V' : apart o o' -> (forall k, row_key k = true -> V' k = rows o' V k) -> stored V o -> stored V' o.
Proof.
  intros Ha H Hs. destruct o as [e|m|p|]; [..|done|done]; intros v Hv; specialize (Hs v Hv).
  - destruct Hs as [H1 H2]. rewrite !H by done. destruct o' as [e'|m'|p'|]; cbn [rows]; [| |done|done].
    + destruct Ha as [Hid Hkey]. destruct (MarshalEvent e'); [|done]. rewrite (bool_decide_eq_false_2 (eventKey e = eventKey e')),
        (bool_decide_eq_false_2 (eventKey e = eventIdKey _)), (bool_decide_eq_false_2 (eventIdKey _ = eventKey _)) by done.
      rewrite bool_decide_eq_false_2; [done|]. unfold eventIdKey. intros E. simplify_eq/=.
    + destruct (MarshalMessage m'); [|done]. by rewrite !bool_decide_eq_false_2 by done.
  - rewrite H by done. destruct o' as [e'|m'|p'|]; cbn [rows]; [| |done|done].
    + destruct (MarshalEvent e'); [|done]. by rewrite !bool_decide_eq_false_2 by done.
    + destruct (MarshalMessage m'); [|done]. by rewrite bool_decide_eq_false_2.
Qed.

(** Equal, or apart. *)
Definition compatible (os : list storeOp) : Prop := forall o o', o ∈ os -> o' ∈ os -> o = o' \/ apart o o'.

Lemma apply_stored o w dn : writes o -> Forall (fun o' => o' = o \/ apart o' o) dn ->
  Forall (stored (view w)) dn -> Forall (stored (view (apply true o w))) (dn ++ [o]).
Proof.
  intros Ho Hc Hs. apply Forall_app. split; [|constructor; [|constructor]].
  - rewrite Forall_forall in Hc, Hs |- *. intros o' Hin. destruct (Hc o' Hin) as [->|Ha].
    + eapply stored_own. intros k Hk. by apply apply_rows.
    + eapply stored_other; [exact Ha| |by apply Hs]. intros k Hk. by apply apply_rows.
  - eapply stored_own. intros k Hk. by apply apply_rows.
Qed.

Lemma commit_empty lands w : (w_count w = 0%nat -> w_batch w = []) -> w_batch (commit lands w) = [].
Proof. intros Hz. unfold commit. destruct (Nat.eqb_spec (w_count w) 0); [by apply Hz|done]. Qed.

Lemma commit_zero lands w : (w_count w = 0%nat -> w_batch w = []) -> w_count (commit lands w) = 0%nat -> w_batch (commit lands w) = [].
Proof. intros Hz _. by apply commit_empty. Qed.

Lemma apply_zero lands o w : (w_count w = 0%nat -> w_batch w = []) -> w_count (apply lands o w) = 0%nat -> w_batch (apply lands o w) = [].
Proof.
  intros Hz. assert (Hs : forall b, w_count (staged w b) = 0%nat -> w_batch (staged w b) = []) by done.
  destruct o; cbn [apply]; [destruct (_ <=? _)%nat..|]; by try apply commit_zero.
Qed.

Lemma accepted_cons l ls w : accepted (l :: ls) w = (accepted [l] w ++ accepted ls (step l w))%list.
Proof. cbn [accepted]. by rewrite app_nil_r. Qed.

Lemma view_same w w' : w_db w = w_db w' -> w_batch w = w_batch w' -> forall k, view w k = view w' k.
Proof. intros E1 E2 k. unfold view. by rewrite E1, E2. Qed.

(** What holds of the operations taken so far and the view they leave, when
    each operation keeps it, holds of everything accepted and the database once
    an undisturbed store has stopped. *)
Section Smooth.
Context (P : list storeOp -> (string -> option string) -> Prop).
Context (P_ext : forall dn V V', (forall k, V k = V' k) -> P dn V -> P dn V').
Context (P_step : forall w o dn, writes o -> P dn (view w) -> P (dn ++ [o]) (view (apply true o w))).

Lemma drain_smooth lands ops : (forall n, lands n = true) -> forall n w dn,
  Forall writes ops -> (w_count w = 0%nat -> w_batch w = []) -> P dn (view w) ->
  P (dn ++ ops) (view (drain lands n ops w)) /\ (w_count (drain lands n ops w) = 0%nat -> w_batch (drain lands n ops w) = []).
Proof.
  intros Hl. induction ops as [|o ops IH]; intros n w dn Hw Hz Hs; [by rewrite app_nil_r|].
  apply Forall_cons in Hw as [Ho Hw]. cbn [drain]. rewrite Hl. rewrite cons_middle, app_assoc. apply IH; [done|by apply apply_zero|by apply P_step].
Qed.

(** Everything accepted is taken and in the batch or the database, or still
    waiting; nothing waits once the store has stopped. *)
Definition underway (acc : list storeOp) (w : Writer) : Prop :=
  exists dn, acc = (dn ++ w_chan w)%list /\ P dn (view w) /\ Forall writes acc /\
    (w_count w = 0%nat -> w_batch w = []) /\
    (w_done w = true -> w_chan w = [] /\ w_batch w = [] /\ w_closed w = true).

Lemma apply_control o w : w_chan (apply true o w) = w_chan w /\ w_done (apply true o w) = w_done w /\ w_closed (apply true o w) = w_closed w.
Proof. destruct o; cbn [apply]; unfold commit; repeat case_match; done. Qed.

Lemma drain_closed lands ops : (forall n, lands n = true) -> forall n w, w_closed (drain lands n ops w) = w_closed w.
Proof.
  intros Hl. induction ops as [|o ops IH]; intros n w; [done|]. cbn [drain]. rewrite IH, Hl. apply apply_control.
Qed.

Lemma step_underway l acc w : smooth l -> underway acc w -> underway (acc ++ accepted [l] w) (step l w).
Proof.
  intros Hl Hu. pose proof Hu as (dn & -> & Hs & Hw & Hz & Hd).
  destruct l as [o|lands|lands| |lands|b|]; [| | | | |done|done]; cbn [accepted step app] in *; rewrite app_nil_r.
  - unfold enqueue in *. destruct (w_closed w) eqn:Ec; [cbn [fst snd is_ok] in *; by rewrite app_nil_r|].
    destruct (_ <? _)%nat; [|cbn [fst snd is_ok] in *; by rewrite app_nil_r]. cbn [fst snd is_ok] in *. exists dn. cbn [w_chan w_count w_batch w_done w_closed].
    rewrite app_assoc. split_and!; [done|done| |done|].
    + apply Forall_app. split; [done|]. constructor; [|done]. by destruct o.
    + intros Hdn. by destruct (Hd Hdn) as (_ & _ & ?).
  - destruct (w_chan w) as [|o rest] eqn:E; [done|]. destruct (w_done w) eqn:Edn; [done|]. simpl in Hl. subst lands.
    exists (dn ++ [o])%list. destruct (apply_control o (with_chan rest w)) as (Ech & Edone & _). rewrite Ech, Edone, <- app_assoc.
    apply Forall_app in Hw as Hw'. destruct Hw' as [_ Hw']. apply Forall_cons in Hw' as [Ho _].
    split_and!; [done| |done|by apply apply_zero|simpl; congruence]. by apply P_step.
  - simpl in Hl. subst lands. destruct (w_done w) eqn:Edn; [done|].
    exists dn. assert (Ech : w_chan (commit true w) = w_chan w /\ w_done (commit true w) = w_done w) by (unfold commit; by case_match).
    destruct Ech as [-> ->]. split_and!; [done| |done|by apply commit_zero|congruence].
    eapply P_ext; [|exact Hs]. intros k. by rewrite view_commit.
  - exists dn. split_and!; try done. intros Hdn. destruct (Hd Hdn) as (? & ? & _). done.
  - destruct (_ && _) eqn:E; [|done]. unfold stop.
    destruct (drain_smooth lands (w_chan w) Hl 0 (with_chan [] w) dn) as [H1 H2]; [by apply Forall_app in Hw as [_ ?]|done|done|].
    pose proof (drain_closed lands (w_chan w) Hl 0 (with_chan [] w)) as Hcl.
    set (w' := drain lands 0 (w_chan w) (with_chan [] w)) in *. rewrite Hl. exists (dn ++ w_chan w)%list. cbn [w_chan w_count w_batch w_done w_closed].
    rewrite app_nil_r. pose proof (commit_empty true w' H2) as Hb. split_and!; [done| |done|done|].
    + eapply P_ext; [|exact H1]. intros k. rewrite <- (view_commit w'). by apply view_same.
    + intros _. split_and!; [done|done|]. apply andb_true_iff in E as [E _]. unfold commit. case_match; cbn [w_closed]; rewrite Hcl; exact E.
Qed.

Lemma run_underway ls : forall acc w, Forall smooth ls -> underway acc w -> underway (acc ++ accepted ls w) (run ls w).
Proof.
  induction ls as [|l ls IH]; intros acc w Hls Hu; [cbn; by rewrite app_nil_r|]. apply Forall_cons in Hls as [Hl Hls].
  rewrite accepted_cons, app_assoc. change (run (l :: ls) w) with (run ls (step l w)). apply IH; [done|]. by apply step_underway.
Qed.

Lemma closed_run ls d : P [] (kv_get d) -> Forall smooth ls -> w_done (run ls (NewStore d)) = true ->
  P (accepted ls (NewStore d)) (kv_get (w_db (run ls (NewStore d)))).
Proof.
  intros H0 Hls Hdone. destruct (run_underway ls [] (NewStore d) Hls) as (dn & E & Hs & _ & _ & Hd); [exists []; by split_and!|].
  destruct (Hd Hdone) as (Hch & Hb & _). rewrite Hch, app_nil_r in E. simpl in E. subst dn.
  eapply P_ext; [|exact Hs]. intros k. unfold view, ahead. by rewrite Hb.
Qed.
End Smooth.

(** C9: what was accepted is in the database once the store has closed.  A
    store whose commits land and that nothing is pruned from has, when its
    writer has stopped, committed every event and message it ever accepted --
    those still waiting when it was told to stop included: reading one back by
    its id gives it, to its own tenant and to no other. *)
Theorem closed_store_has_what_it_accepted `{!CodecLaws codec} ls d w :
  Forall smooth ls -> compatible (accepted ls (NewStore d)) -> run ls (NewStore d) = w -> w_done w = true ->
  (forall e v, WriteOp e ∈ accepted ls (NewStore d) -> MarshalEvent e = Ok v -> no_colon (TenantID e) ->
     forall tenant, GetByID (w_db w) tenant (ID e) = Ok (if eqb (TenantID e) tenant then Some e else None)) /\
  (forall m v, MessageOp m ∈ accepted ls (NewStore d) -> MarshalMessage m = Ok v ->
     GetMessage (w_db w) (M_TenantID m) (M_ID m) = Ok (Some m)).
Proof.
  intros Hls Hc <- Hdone. set (w := run ls (NewStore d)) in *.
  assert (Hs : compatible (accepted ls (NewStore d)) -> Forall (stored (kv_get (w_db w))) (accepted ls (NewStore d))).
  { apply (closed_run (fun dn V => compatible dn -> Forall (stored V) dn)); [| |done|done|done].
    - intros dn V V' HV H Hdn. eapply Forall_impl; [by apply H|]. intros o Ho. destruct o; [..|done|done]; intros v Hv; rewrite <- ?HV; by apply Ho.
    - intros w' o dn Ho H Hdn. apply apply_stored; [done| |apply H; intros o1 o2 H1 H2; apply Hdn; apply elem_of_app; by left].
      apply Forall_forall. intros o' Ho'. apply Hdn; rewrite elem_of_app, ?list_elem_of_singleton; auto. }
  specialize (Hs Hc). rewrite Forall_forall in Hs.
  split.
  - intros e v Hin Hm Ht tenant. destruct (Hs _ Hin v Hm) as [H1 H2]. unfold GetByID. rewrite H2.
    unfold eventIdVal. change (?a ++ ":" ++ ?b) with (a ++ String ":" b).
    rewrite Split_head by done. rewrite Split_whole by apply descendingTimestamp_no_colon.
    destruct (eqb (TenantID e) tenant) eqn:Et; cbn [negb]; [|done]. apply eqb_true in Et. subst tenant.
    change (eventKeyOf _ _ _) with (eventKey e). rewrite H1. by rewrite (event_roundtrip e v Hm).
  - intros m v Hin Hm. specialize (Hs _ Hin v Hm). simpl in Hs. unfold GetMessage. rewrite Hs. by rewrite (message_roundtrip m v Hm).
Qed.

End Writer.
End EventTimeline.
