(* ===== verification/EventListing.v ===== *)
(** * Listing events

    What [List] of the event store returns: reading it page by page ends and gives
    the tenant's events of the period asked for that pass the filter, newest
    first ([listing_is_exact]) -- except that a period starting at 1970-01-01 is
    empty ([listing_since_1970_is_empty]). *)
From S2P Require Import Prelude GoStrings Encoding KVStore Calendar Classify Events EventStore EventTimeline.
From Stdlib Require Import Ascii.

Module EventListing.
Import GoStrings Encoding KVStore Calendar Classify Events EventStore EventTimeline.
Local Open Scope string_scope.
Local Open Scope Z_scope.

(** ** Pages *)

Section Pages.
Context {DB : Type} `{!KV DB, !KVLaws DB counterMerge} {codec : Codec}.

Definition with_token (token : string) (f : ListFilter) : ListFilter :=
  mkFilter (PageSize f) token (F_Recipient f) (F_EventType f) (F_StartTime f) (F_EndTime f) (F_MessageID f) (LatestOnly f)
    (RecipientExact f) (F_Subject f).

(** A client that asks for the next page until there is none: the pages, or [None]
    when [n] requests did not get there. *)
Fixpoint walk (n : nat) (d : DB) (tenant : string) (f : ListFilter) (token : string) : option (list (list EmailEvent)) :=
  match n with
  | O => None
  | S n =>
      let '(es, next) := List_ d tenant (with_token token f) in
      if eqb next "" then Some [es] else (fun rest => es :: rest) <$> walk n d tenant f next
  end.

Definition pageSize (f : ListFilter) : nat := Z.to_nat (if PageSize f <=? 0 then 50 else PageSize f).

(** Everything within the bounds that passes. *)
Definition listing (d : DB) (tenant : string) (f : ListFilter) : list EmailEvent :=
  filter (fun e => listed f e = true) (decoded (kv_iter d (listBounds tenant f).1 (listBounds tenant f).2)).

Lemma decoded_app l l' : decoded (l ++ l') = (decoded l ++ decoded l')%list.
Proof. apply omap_app. Qed.

Lemma listLoop_spec f : forall l n, (0 < n)%nat ->
  exists l1 l2, l = (l1 ++ l2)%list /\ (listLoop f n l).1 = filter (fun e => listed f e = true) (decoded l1) /\
    ((l2 = [] /\ (listLoop f n l).2 = "") \/ exists k v r, l2 = (k, v) :: r /\ (listLoop f n l).2 = k /\ l1 <> []).
Proof.
  induction l as [|[k v] l IH]; intros n Hn; [by exists [], []; split_and!; [..|left]|].
  destruct n as [|n]; [lia|]. cbn [listLoop].
  assert (Hone : forall e, UnmarshalEvent v = Ok e -> decoded [(k, v)] = [e]) by (intros e He; unfold decoded; simpl; by rewrite He).
  assert (Hskip : UnmarshalEvent v = UnmarshalEvent v -> filter (fun e => listed f e = true) (decoded [(k, v)]) = [] ->
    exists l1 l2, (k, v) :: l = (l1 ++ l2)%list /\ (listLoop f (S n) l).1 = filter (fun e => listed f e = true) (decoded l1) /\
    ((l2 = [] /\ (listLoop f (S n) l).2 = "") \/ exists k' v' r, l2 = (k', v') :: r /\ (listLoop f (S n) l).2 = k' /\ l1 <> [])).
  { intros _ Hf. destruct (IH (S n) Hn) as (l1 & l2 & -> & H1 & H2). exists ((k, v) :: l1), l2. split; [done|].
    split; [|destruct H2 as [?|(k' & v' & r & -> & -> & _)]; [by left|right; by exists k', v', r]].
    rewrite H1. change ((k, v) :: l1) with ([(k, v)] ++ l1)%list. by rewrite decoded_app, filter_app, Hf. }
  destruct (UnmarshalEvent v) as [e|err] eqn:E; [|apply Hskip; [done|unfold decoded; simpl; by rewrite E]].
  destruct (listed f e) eqn:El; [|apply Hskip; [done|rewrite (Hone e) by done; by rewrite filter_cons, decide_False by congruence]].
  destruct (decide (n = 0%nat)) as [->|Hn0].
  - exists [(k, v)], l. split; [done|]. rewrite (Hone e) by done. rewrite filter_cons, decide_True by done.
    destruct l as [|[k' v'] l]; simpl; [by split; [|left]|]. split; [done|]. right. by exists k', v', l.
  - destruct (IH n ltac:(lia)) as (l1 & l2 & -> & H1 & H2). destruct (listLoop f n (l1 ++ l2)) as [es tok]. simpl in H1, H2 |- *.
    exists ((k, v) :: l1), l2. split; [done|]. split; [|destruct H2 as [?|(k' & v' & r & -> & -> & _)]; [by left|right; by exists k', v', r]].
    change ((k, v) :: l1) with ([(k, v)] ++ l1)%list. rewrite decoded_app, filter_app, (Hone e) by done.
    by rewrite filter_cons, decide_True, H1.
Qed.

Lemma listLoop_length f : forall l n, (length (listLoop f n l).1 <= n)%nat.
Proof.
  induction l as [|[k v] l IH]; intros n; cbn [listLoop]; [cbn; lia|]. destruct n as [|n]; [cbn; lia|].
  destruct (UnmarshalEvent v) as [e|]; [|apply IH]. destruct (listed f e); [|apply IH]. pose proof (IH n) as H.
  destruct (listLoop f n l) as [es token]. cbn in *. lia.
Qed.

(** Seeking to the key a page stopped at resumes there. *)
Lemma seekGE_at l1 k v l2 : StronglySorted slt ((l1 ++ (k, v) :: l2)%list).*1 -> seekGE k (l1 ++ (k, v) :: l2)%list = (k, v) :: l2.
Proof.
  induction l1 as [|[k1 v1] l1 IH]; cbn; intros Hs.
  - destruct (String.ltb k k) eqn:E; [by destruct (slt_irrefl k)|done].
  - apply StronglySorted_inv in Hs as [Hs Hall]. rewrite Forall_forall in Hall.
    assert (Hk : slt k1 k) by (apply Hall; rewrite fmap_app; apply elem_of_app; right; by left).
    unfold slt in Hk. rewrite Hk. by apply IH.
Qed.

Lemma seekGE_low lo l : (forall x, x ∈ l -> String.le lo x.1) -> seekGE lo l = l.
Proof.
  intros H. destruct l as [|x l]; [done|]. simpl. destruct (String.ltb x.1 lo) eqn:E; [|done].
  destruct (proj1 (le_not_slt lo x.1)); [apply H; by left|done].
Qed.

Lemma listBounds_nonempty tenant f : (listBounds tenant f).1 <> "".
Proof. unfold listBounds, timeBounds. repeat case_match; done. Qed.

Lemma walk_from f d tenant : forall n l1 l2 token,
  kv_iter d (listBounds tenant f).1 (listBounds tenant f).2 = (l1 ++ l2)%list -> (length l2 < n)%nat ->
  (token = "" /\ l1 = [] \/ exists v r, l2 = (token, v) :: r) ->
  exists pages, walk n d tenant f token = Some pages /\ Forall (fun es => (length es <= pageSize f)%nat) pages /\
    concat pages = filter (fun e => listed f e = true) (decoded l2).
Proof.
  induction n as [|n IH]; intros l1 l2 token Hit Hn Htok; [lia|]. cbn [walk]. unfold List_.
  change (listBounds tenant (with_token token f)) with (listBounds tenant f). change (PageSize (with_token token f)) with (PageSize f).
  change (PageToken (with_token token f)) with token.
  pose proof (kv_iter_sorted d (listBounds tenant f).1 (listBounds tenant f).2) as Hs.
  assert (Hlow : forall x, x ∈ kv_iter d (listBounds tenant f).1 (listBounds tenant f).2 -> String.le (listBounds tenant f).1 x.1).
  { intros [k v] Hx. by apply kv_iter_spec in Hx as (_ & ? & _). }
  pose proof (listBounds_nonempty tenant f) as Hlo. destruct (listBounds tenant f) as [lo hi] eqn:Eb. cbn [fst snd] in *.
  fold (pageSize f).
  assert (Hsize : (0 < pageSize f)%nat) by (unfold pageSize; destruct (Z.leb_spec (PageSize f) 0); lia).
  assert (Hseek : seekGE (if eqb token "" then lo else token) (kv_iter d lo hi) = l2).
  { destruct Htok as [[-> ->]|(v & r & ->)]; [cbn [app] in Hit; rewrite Hit in Hlow |- *; by apply seekGE_low|].
    assert (Ht : eqb token "" = false).
    { destruct (eqb token "") eqn:E; [|done]. apply eqb_true in E. subst token.
      assert (Hle : String.le lo "") by (apply (Hlow ("", v)); rewrite Hit; apply elem_of_app; right; by left).
      apply le_slt in Hle as [Hlt| ->]; [|done]. by destruct lo. }
    rewrite Ht, Hit. apply seekGE_at. by rewrite <- Hit. }
  rewrite Hseek.
  assert (Hloop : forall l m, listLoop (with_token token f) m l = listLoop f m l).
  { induction l as [|[k v] l IHl]; intros m; [done|]. cbn [listLoop]. destruct m as [|m]; [done|].
    change (listed (with_token token f)) with (listed f). by rewrite !IHl. }
  rewrite Hloop. pose proof (listLoop_length f l2 (pageSize f)) as Hlen. destruct (listLoop_spec f l2 (pageSize f) Hsize) as (m1 & m2 & -> & H1 & H2).
  destruct (listLoop f (pageSize f) (m1 ++ m2)) as [es next]. cbn [fst snd] in H1, H2, Hlen. rewrite decoded_app, filter_app, <- H1.
  destruct H2 as [[-> ->]|(k & v & r & -> & -> & Hm1)]; [exists [es]; split; [done|split; [by repeat constructor|by cbn]]|].
  assert (Hk : eqb k "" = false).
  { destruct (eqb k "") eqn:E; [|done]. apply eqb_true in E. subst k.
    assert (Hle : String.le lo "") by (apply (Hlow ("", v)); rewrite Hit, !elem_of_app; right; right; by left).
    apply le_slt in Hle as [Hlt| ->]; [|done]. by destruct lo. }
  rewrite Hk. destruct (IH (l1 ++ m1)%list ((k, v) :: r) k) as (pages & -> & Hall & Hpages); [by rewrite <- app_assoc| |right; by exists v, r|].
  { rewrite length_app in Hn. destruct m1; [done|]. simpl in *. lia. }
  exists (es :: pages). split; [done|]. split; [by constructor|]. cbn [concat]. by rewrite Hpages.
Qed.

(** Pages make the listing.  Asking for the next page until there is none, at
    any page size, ends, and gives everything the listing holds, in its order,
    in pages no longer than asked for: nothing is missed or repeated where a page
    ends, whatever rows a filter skips. *)
Theorem pages_make_the_listing n d tenant f :
  (length (kv_iter d (listBounds tenant f).1 (listBounds tenant f).2) < n)%nat ->
  exists pages, walk n d tenant f "" = Some pages /\ Forall (fun es => (length es <= pageSize f)%nat) pages /\ concat pages = listing d tenant f.
Proof. intros Hn. eapply (walk_from f d tenant n []); [done|done|by left]. Qed.

End Pages.

(** ** Timestamps sort newest first *)

(** From 1970 to 2262, where nanoseconds fit 64 bits. *)
Definition in_era (t : Z) : Prop := unixEpoch <= t <= unixEpoch + maxInt64.

Lemma descending_era t : in_era t -> descending t = maxInt64 - (t - unixEpoch).
Proof.
  unfold in_era, descending, UnixNano. intros H. rewrite (wrap64_id (t - unixEpoch)) by (unfold minInt64; lia).
  apply wrap64_id. unfold minInt64. lia.
Qed.

Lemma maxInt64_width : maxInt64 + 1 < 10 ^ Z.of_nat 19.
Proof. done. Qed.

Lemma descendingTimestamp_pad t : in_era t -> descendingTimestamp t = pad 19 (descending t).
Proof.
  intros H. pose proof (descending_era t H) as E. unfold in_era in H. unfold descendingTimestamp, FormatInt, pad, timestampWidth.
  destruct (Z.ltb_spec (descending t) 0); [lia|]. destruct (Nat.ltb_spec (String.length (FormatUint (descending t))) 19) as [|Hge]; [done|].
  by replace (19 - String.length (FormatUint (descending t)))%nat with 0%nat by lia.
Qed.

Lemma Sprintf_pad z : 0 <= z -> Sprintf_019d z = pad 19 z.
Proof. intros H. unfold Sprintf_019d. by destruct (Z.ltb_spec z 0); [lia|]. Qed.

Definition fits (z : Z) : Prop := 0 <= z < 10 ^ Z.of_nat 19.

Lemma fits_era t : in_era t -> fits (descending t).
Proof. intros H. unfold fits. rewrite descending_era by done. unfold in_era in H. pose proof maxInt64_width. lia. Qed.

Lemma pad_slt x y a b : fits x -> fits y -> slt (pad 19 x ++ a) (pad 19 y ++ b) <-> x < y \/ x = y /\ slt a b.
Proof.
  intros Hx Hy. unfold slt, String.ltb. rewrite compare_app_len by (rewrite !pad_length; [done|lia|done|lia|done]).
  rewrite pad_compare by (done || lia). destruct (Z.compare_spec x y) as [->|Hlt|Hgt]; split; try done.
  - by right.
  - by intros [?|[_ ?]]; [lia|].
  - by left.
  - intros [?|[? _]]; lia.
Qed.

Lemma slt_nil a : ~ slt a "".
Proof. by destruct a. Qed.

Lemma in_lower p x y suf : fits x -> fits y -> String.le (p ++ pad 19 y ++ ":") (p ++ pad 19 x ++ ":" ++ suf) <-> y <= x.
Proof.
  intros Hx Hy. rewrite le_app, le_not_slt, pad_slt by done. change (":" ++ suf) with (String ":" "" ++ suf).
  split; [intros H; destruct (Z_lt_le_dec x y); [|done]; destruct H; by left|]. intros H [?|[_ Hs]]; [lia|].
  replace (String ":" "") with (String ":" "" ++ "") in Hs at 2 by done. apply slt_app, slt_nil in Hs. done.
Qed.

Lemma in_upper p x y suf : fits x -> fits y -> slt (p ++ pad 19 x ++ ":" ++ suf) (p ++ pad 19 y ++ ":") <-> x < y.
Proof.
  intros Hx Hy. rewrite slt_app, pad_slt by done. split; [|by left]. intros [?|[_ Hs]]; [done|].
  change (":" ++ suf) with (String ":" "" ++ suf) in Hs. replace (":") with (String ":" "" ++ "") in Hs at 2 by done.
  by apply slt_app, slt_nil in Hs.
Qed.

Lemma pad_head x suf : fits x -> exists c r, pad 19 x ++ suf = String c r /\ is_digit c = true.
Proof.
  intros Hx. pose proof (pad_digits 19 x ltac:(unfold fits in Hx; lia)) as Hd. pose proof (pad_length 19 x ltac:(lia) Hx) as Hl.
  destruct (pad 19 x) as [|c r]; [done|]. cbn [str_all] in Hd. apply andb_true_iff in Hd as [Hc _]. exists c, (r ++ suf). done.
Qed.

Lemma in_family p x suf : fits x -> String.le p (p ++ pad 19 x ++ suf) /\ slt (p ++ pad 19 x ++ suf) (p ++ xFF).
Proof.
  intros Hx. destruct (pad_head x suf Hx) as (c & r & -> & Hc). split.
  - replace p with (p ++ "") at 1 by apply string_app_nil. apply le_app, le_nil.
  - apply below_xFF. unfold xFF. cbn [String.prefix]. destruct (ascii_dec _ _) as [<-|]; [done|done].
Qed.

(** ** Rows *)

Section Rows.
Context {DB : Type} `{!KV DB, !KVLaws DB counterMerge} {codec : Codec} `{!CodecLaws codec}.

(** An event the store can order: recorded in the era, under a tenant whose id
    has no colon. *)
Definition orderly (e : EmailEvent) : Prop := in_era (Timestamp e) /\ no_colon (TenantID e).

(** The row a listing reads an event from: on the timeline, or in the log. *)
Definition family (latest : bool) : string := if latest then "latest_events:" else "events:".
Definition suffix (latest : bool) (e : EmailEvent) : string :=
  if latest then thread (MessageID e) (Recipient e) else ID e.
Definition rowOf (latest : bool) (e : EmailEvent) : string :=
  family latest ++ TenantID e ++ ":" ++ descendingTimestamp (Timestamp e) ++ ":" ++ suffix latest e.

Definition genuine_pair (k v : string) : Prop :=
  forall latest, HasPrefix k (family latest) = true -> exists e, orderly e /\ k = rowOf latest e /\ MarshalEvent e = Ok v.

Definition genuine (V : string -> option string) : Prop := forall k v, V k = Some v -> genuine_pair k v.

Definition genuine_op (o : kvop) : Prop :=
  match o with
  | KSet k v => genuine_pair k v
  | KDelete _ => True
  | KMerge k _ => forall latest, HasPrefix k (family latest) = false
  end.

Lemma genuine_effects ops : forall V, Forall genuine_op ops -> genuine V -> genuine (fun k => effects counterMerge k ops (V k)).
Proof.
  induction ops as [|o ops IH]; intros V Ho HV; [done|]. apply Forall_cons in Ho as [Ho Hops].
  apply (IH (fun k => kv_effect counterMerge k (V k) o)); [done|]. intros k v. unfold kv_effect. case_bool_decide as Hk; [|apply HV].
  destruct o as [k' v'|k'|k' v']; simpl in Hk, Ho; subst k'; [by intros [= <-]|done|]. intros _ latest. by rewrite Ho.
Qed.

Lemma off_family k v : HasPrefix k "latest_events:" = false -> HasPrefix k "events:" = false -> genuine_pair k v.
Proof. intros H1 H2 [|]; unfold family; [by rewrite H1|by rewrite H2]. Qed.

Lemma performWrite_genuine (d : DB) e batch cache : orderly e -> Forall genuine_op batch -> Forall genuine_op (performWrite d e batch cache).1.
Proof.
  intros He Hb. unfold performWrite. destruct (MarshalEvent e) as [val|] eqn:Em; [|done].
  assert (Hops : Forall genuine_op (eventOps e val)).
  { repeat apply Forall_cons_2; [intros [|]; done..| | |done].
    - intros [|] Hp; [done|]. exists e. done.
    - by apply off_family. }
  destruct (eqb (MessageID e) ""); [by apply Forall_app|].
  assert (Hl : Forall genuine_op (latestOps d cache e val).1).
  { unfold latestOps. destruct (_ || _); [|constructor]. apply Forall_app. split; [destruct (eqb _ ""); by repeat constructor|].
    repeat apply Forall_cons_2; [by apply off_family| |done]. intros [|] Hp; [|done]. exists e. done. }
  destruct (latestOps d cache e val) as [ops c]. cbn [fst] in *. rewrite !Forall_app. split; [done|]. split; [done|].
  constructor; [by apply off_family|done].
Qed.

Lemma performLatestExpiry_genuine (d : DB) : forall ps batch cache, Forall genuine_op batch -> Forall genuine_op (performLatestExpiry d ps batch cache).1.
Proof.
  induction ps as [|p ps IH]; intros batch cache Hb; [done|]. cbn [performLatestExpiry].
  destruct (match cache !! _ with Some c => Some c | None => _ end); [|by apply IH]. destruct (eqb _ _); [|by apply IH].
  apply IH, Forall_app. split; [done|by repeat constructor].
Qed.

Definition orderly_op (o : storeOp) : Prop := match o with WriteOp e => orderly e | _ => True end.
Definition orderly_label (l : label) : Prop :=
  match l with
  | LEnqueue o => orderly_op o
  | LRetention b => Forall (fun o => exists k, o = KDelete k) b
  | _ => True
  end.

Definition sound (w : Writer) : Prop :=
  genuine (kv_get (w_db w)) /\ Forall genuine_op (w_batch w) /\ Forall orderly_op (w_chan w).

Lemma commit_sound lands w : sound w -> sound (commit lands w).
Proof.
  intros (Hd & Hb & Hc). unfold commit. destruct (_ =? _)%nat; [done|]. split; [|done]. simpl. destruct lands; [|done].
  intros k v. rewrite kv_get_commit. apply (genuine_effects (w_batch w) (kv_get (w_db w)) Hb Hd).
Qed.

Lemma apply_sound lands o w : orderly_op o -> sound w -> sound (apply lands o w).
Proof.
  intros Ho Hs. pose proof Hs as (Hd & Hb & Hc).
  assert (Hst : forall b, Forall genuine_op b.1 -> sound (staged w b)) by (intros b Hb'; split; [done|split; done]).
  destruct o as [e|m|p|ps]; cbn [apply].
  - pose proof (performWrite_genuine (w_db w) e (w_batch w) (w_latest w) Ho Hb) as H.
    destruct (_ <=? _)%nat; [apply commit_sound|]; by apply Hst.
  - assert (H : Forall genuine_op (performWriteMessage m (w_batch w))).
    { unfold performWriteMessage. destruct (MarshalMessage m); [|done]. apply Forall_app. split; [done|].
      constructor; [by apply off_family|]. apply Forall_fmap. unfold recipientMessageKeys. apply Forall_fmap, Forall_true. intros r. by apply off_family. }
    destruct (_ <=? _)%nat; [apply commit_sound|]; by apply Hst.
  - assert (H : Forall genuine_op (performWriteResource p (w_batch w))).
    { apply Forall_app. split; [done|]. constructor; [by apply off_family|done]. }
    destruct (_ <=? _)%nat; [apply commit_sound|]; by apply Hst.
  - apply commit_sound, Hst. by apply performLatestExpiry_genuine.
Qed.

Lemma drain_sound lands ops : forall n w, Forall orderly_op ops -> sound w -> sound (drain lands n ops w).
Proof.
  induction ops as [|o ops IH]; intros n w Ho Hs; [done|]. apply Forall_cons in Ho as [Ho Hops]. cbn [drain]. apply IH; [done|by apply apply_sound].
Qed.

Lemma step_sound l w : orderly_label l -> sound w -> sound (step l w).
Proof.
  intros Hl Hs. pose proof Hs as (Hd & Hb & Hc). destruct l as [o|lands|lands| |lands|b|]; cbn [step].
  - unfold enqueue. destruct (w_closed w); [done|]. destruct (_ <? _)%nat; [|done]. split; [done|]. split; [done|].
    apply Forall_app. split; [done|by repeat constructor].
  - destruct (w_chan w) as [|o rest] eqn:E; [done|]. destruct (w_done w); [done|]. apply Forall_cons in Hc as [Ho Hrest].
    apply apply_sound; [done|]. split; [done|split; done].
  - destruct (w_done w); [done|by apply commit_sound].
  - done.
  - destruct (_ && _); [|done]. unfold stop.
    assert (H : sound (commit (lands (length (w_chan w))) (drain lands 0 (w_chan w) (with_chan [] w)))).
    { apply commit_sound, drain_sound; [done|]. split; [done|split; done]. }
    destruct H as (H1 & H2 & _). split; [done|split; done].
  - split; [|split; done]. simpl. intros k v. rewrite kv_get_commit.
    refine (genuine_effects b (kv_get (w_db w)) _ Hd k v). eapply Forall_impl; [exact Hl|]. by intros o (k' & ->).
  - split; [done|split; done].
Qed.

Lemma run_sound ls : forall w, Forall orderly_label ls -> sound w -> sound (run ls w).
Proof.
  induction ls as [|l ls IH]; intros w Hls Hs; [done|]. apply Forall_cons in Hls as [Hl Hls]. cbn [run foldl]. apply IH; [done|by apply step_sound].
Qed.

(** ** The listing *)

Definition in_period (f : ListFilter) (t : Z) : Prop :=
  (F_StartTime f <> 0 -> F_StartTime f <= t) /\ (F_EndTime f <> 0 -> t <= F_EndTime f).

(** A period the keys can express: it starts after 1970-01-01 and neither end
    is past 2262. *)
Definition expressible (f : ListFilter) : Prop :=
  (F_StartTime f <> 0 -> unixEpoch < F_StartTime f /\ in_era (F_StartTime f)) /\ (F_EndTime f <> 0 -> in_era (F_EndTime f)).

Lemma rowOf_bounds latest tenant f e : expressible f -> orderly e -> TenantID e = tenant ->
  String.le (timeBounds (family latest) tenant f).1 (rowOf latest e) /\ slt (rowOf latest e) (timeBounds (family latest) tenant f).2 <->
  in_period f (Timestamp e).
Proof.
  intros [Hs He] [Hera _] Ht. unfold timeBounds, rowOf, in_period. rewrite Ht. pose proof (fits_era _ Hera) as Hfit.
  rewrite descendingTimestamp_pad by done. cbn [fst snd].
  replace (family latest ++ tenant ++ ":" ++ pad 19 (descending (Timestamp e)) ++ ":" ++ suffix latest e)
    with ((family latest ++ tenant ++ ":") ++ pad 19 (descending (Timestamp e)) ++ ":" ++ suffix latest e) by (by rewrite !string_app_assoc).
  set (p := family latest ++ tenant ++ ":"). destruct (in_family p (descending (Timestamp e)) (":" ++ suffix latest e) Hfit) as [Hlo Hhi].
  unfold time_is_zero.
  assert (Hup : slt (p ++ pad 19 (descending (Timestamp e)) ++ ":" ++ suffix latest e)
      (if F_StartTime f =? 0 then p ++ xFF else p ++ Sprintf_019d (wrap64 (descending (F_StartTime f) + 1)) ++ ":") <->
      (F_StartTime f <> 0 -> F_StartTime f <= Timestamp e)).
  { destruct (Z.eqb_spec (F_StartTime f) 0) as [E|Hn]; [by split|]. destruct (Hs Hn) as [Hgt Hse].
    rewrite (descending_era (F_StartTime f)) by done. unfold in_era in Hse, Hera. rewrite wrap64_id by (unfold minInt64; lia).
    rewrite Sprintf_pad by lia. rewrite in_upper; [|done|unfold fits; pose proof maxInt64_width; lia].
    rewrite descending_era by done. lia. }
  assert (Hdown : String.le (if F_EndTime f =? 0 then p else p ++ Sprintf_019d (descending (F_EndTime f)) ++ ":")
      (p ++ pad 19 (descending (Timestamp e)) ++ ":" ++ suffix latest e) <-> (F_EndTime f <> 0 -> Timestamp e <= F_EndTime f)).
  { destruct (Z.eqb_spec (F_EndTime f) 0) as [E|Hn]; [by split|]. specialize (He Hn). pose proof (fits_era _ He) as Hf.
    rewrite Sprintf_pad by (unfold fits in Hf; lia). rewrite in_lower by done. rewrite !descending_era by done. lia. }
  rewrite Hup, Hdown. tauto.
Qed.

Lemma timeBounds_prefix fam tenant f : exists a b,
  (timeBounds fam tenant f).1 = (fam ++ tenant ++ ":") ++ a /\ (timeBounds fam tenant f).2 = (fam ++ tenant ++ ":") ++ b.
Proof.
  unfold timeBounds. cbn [fst snd]. destruct (time_is_zero (F_EndTime f)), (time_is_zero (F_StartTime f));
    first [exists ""; eexists; split; [by rewrite string_app_nil|done] | eexists; eexists; split; done].
Qed.

(** What an iterator over a family finds. *)
Lemma found latest tenant f (d : DB) k v : genuine (kv_get d) -> no_colon tenant ->
  (k, v) ∈ kv_iter d (timeBounds (family latest) tenant f).1 (timeBounds (family latest) tenant f).2 ->
  exists e, orderly e /\ TenantID e = tenant /\ k = rowOf latest e /\ UnmarshalEvent v = Ok e /\ kv_get d k = Some v.
Proof.
  intros Hg Ht (Hk & Hlo & Hhi)%kv_iter_spec. destruct (timeBounds_prefix (family latest) tenant f) as (a & b & Ha & Hb).
  rewrite Ha in Hlo. rewrite Hb in Hhi. destruct (between_prefix _ _ _ _ Hlo Hhi) as [r Hr].
  assert (Hpre : HasPrefix k (family latest) = true) by (rewrite Hr, string_app_assoc; apply prefix_app).
  destruct (Hg k v Hk latest Hpre) as (e & He & Hrow & Hm). exists e. split; [done|]. split; [|split; [done|split; [by eapply event_roundtrip|done]]].
  rewrite Hrow in Hr. unfold rowOf in Hr. rewrite string_app_assoc in Hr.
  assert (E : TenantID e ++ ":" ++ descendingTimestamp (Timestamp e) ++ ":" ++ suffix latest e = tenant ++ ":" ++ r).
  { apply (inj (String.append (family latest))) in Hr. rewrite Hr. by rewrite string_app_assoc. }
  destruct He as [_ Hc]. by apply (sep_inj ":"%char) in E as [-> _].
Qed.

Lemma rowOf_newest latest a b : orderly a -> orderly b -> TenantID a = TenantID b -> slt (rowOf latest a) (rowOf latest b) ->
  Timestamp b <= Timestamp a.
Proof.
  intros [Ha _] [Hb _] Ht. unfold rowOf. rewrite Ht. rewrite slt_app, slt_app, slt_app, !descendingTimestamp_pad by done.
  rewrite pad_slt by (by apply fits_era). rewrite !descending_era by done. lia.
Qed.

Lemma sorted_filter {A} (R : A -> A -> Prop) (P : A -> Prop) `{!forall x, Decision (P x)} (l : list A) :
  StronglySorted R l -> StronglySorted R (filter P l).
Proof.
  induction 1 as [|x l Hs IH Hall]; [constructor|]. rewrite filter_cons. destruct (decide (P x)); [|done].
  constructor; [done|]. rewrite Forall_forall in Hall |- *. intros y [_ Hy]%list_elem_of_filter. by apply Hall.
Qed.

Lemma decoded_rows latest tenant (l : list (string * string)) :
  (forall k v, (k, v) ∈ l -> exists e, orderly e /\ TenantID e = tenant /\ k = rowOf latest e /\ UnmarshalEvent v = Ok e) ->
  rowOf latest <$> decoded l = l.*1 /\ Forall (fun e => orderly e /\ TenantID e = tenant) (decoded l).
Proof.
  induction l as [|[k v] l IH]; intros H; [done|]. destruct (H k v) as (e & He & Ht & -> & Hu); [by left|].
  destruct IH as [IH1 IH2]; [intros; apply H; by right|]. assert (E : decoded ((rowOf latest e, v) :: l) = e :: decoded l) by (unfold decoded; simpl; by rewrite Hu).
  rewrite E, !fmap_cons, IH1. split; [done|by constructor].
Qed.

(** The listing itself: the rows of the period that pass. *)
Lemma listing_exact ls d tenant f d' :
  (forall k, kv_get d k = None) -> Forall orderly_label ls -> no_colon tenant -> expressible f -> F_MessageID f = "" ->
  d' = w_db (run ls (NewStore d)) ->
  (forall e, e ∈ listing d' tenant f <->
     TenantID e = tenant /\ in_period f (Timestamp e) /\ listed f e = true /\
     exists v, kv_get d' (rowOf (LatestOnly f) e) = Some v /\ UnmarshalEvent v = Ok e) /\
  StronglySorted (fun a b => Timestamp b <= Timestamp a) (listing d' tenant f) /\ NoDup (listing d' tenant f).
Proof.
  intros Hd Hls Ht Hex Hmsg Ed. destruct (run_sound ls (NewStore d) Hls) as (Hg & _ & _).
  { split; [|split; constructor]. intros k v. simpl. by rewrite Hd. }
  rewrite <- Ed in Hg. unfold listing.
  assert (Eb : listBounds tenant f = timeBounds (family (LatestOnly f)) tenant f).
  { unfold listBounds. rewrite Hmsg. simpl. by destruct (LatestOnly f). }
  rewrite Eb. set (latest := LatestOnly f). set (it := kv_iter d' _ _).
  assert (Hit : forall k v, (k, v) ∈ it -> exists e, orderly e /\ TenantID e = tenant /\ k = rowOf latest e /\ UnmarshalEvent v = Ok e /\ kv_get d' k = Some v).
  { intros k v Hk. by apply (found latest tenant f). }
  destruct (decoded_rows latest tenant it) as [Hrows Hall]; [intros k v Hk; destruct (Hit k v Hk) as (e & ? & ? & ? & ? & _); eauto 6|].
  assert (Hsort : StronglySorted (fun a b => slt (rowOf latest a) (rowOf latest b)) (decoded it)).
  { pose proof (kv_iter_sorted d' (timeBounds (family latest) tenant f).1 (timeBounds (family latest) tenant f).2) as Hs. fold it in Hs.
    rewrite <- Hrows in Hs. clear - Hs. induction (decoded it) as [|e l IH]; [constructor|]. cbn in Hs. apply StronglySorted_inv in Hs as [Hs Ha].
    constructor; [by apply IH|]. rewrite Forall_fmap in Ha. exact Ha. }
  split; [|split].
  - intros e. rewrite list_elem_of_filter. unfold decoded. rewrite list_elem_of_omap. split.
    + intros (Hl & [k v] & Hk & Hdec). simpl in Hdec. destruct (Hit k v Hk) as (e' & He & Hte & -> & Hu & Hget).
      rewrite Hu in Hdec. injection Hdec as ->. split; [done|]. split; [|split; [done|by exists v]].
      apply (rowOf_bounds latest tenant f e Hex He Hte). by apply kv_iter_spec in Hk as (_ & ? & ?).
    + intros (Hte & Hp & Hl & v & Hget & Hu). split; [done|]. exists (rowOf latest e, v). split; [|by simpl; rewrite Hu].
      destruct (Hg _ _ Hget latest) as (e' & He & Hrow & Hm); [apply prefix_app|]. apply event_roundtrip in Hm. rewrite Hm in Hu. injection Hu as ->.
      apply kv_iter_spec. split; [done|]. by apply rowOf_bounds.
  - apply sorted_filter. clear - Hsort Hall. induction Hsort as [|e l Hs IH Ha]; [constructor|]. apply Forall_cons in Hall as [[He Hte] Hall].
    constructor; [by apply IH|]. rewrite Forall_forall in Ha, Hall |- *. intros b Hb. destruct (Hall b Hb) as [Ho Htb].
    eapply (rowOf_newest latest); [done|done|congruence|by apply Ha].
  - apply NoDup_filter. clear - Hsort. induction Hsort as [|e l Hs IH Ha]; [constructor|]. apply NoDup_cons. split; [|done].
    intros Hin. rewrite Forall_forall in Ha. by apply (slt_irrefl (rowOf latest e)), Ha.
Qed.


(** C10: a listing is exact.  Over a store that began empty, with events of 1970
    to 2262 under tenants whose ids have no colon, and a period that starts after
    1970-01-01: a client that asks [List] for the log or the timeline page by page
    until there is no next page gets there, in at most one request more than there
    are rows; no page is longer than asked for; and together the pages hold
    exactly the stored events of the tenant that fall in the period -- both ends
    included -- and pass the filter, newest first and each once. *)
Theorem listing_is_exact ls d tenant f n :
  (forall k, kv_get d k = None) -> Forall orderly_label ls -> no_colon tenant -> expressible f -> F_MessageID f = "" ->
  let d' := w_db (run ls (NewStore d)) in
  (length (kv_iter d' (listBounds tenant f).1 (listBounds tenant f).2) < n)%nat ->
  exists pages, walk n d' tenant f "" = Some pages /\ Forall (fun es => (length es <= pageSize f)%nat) pages /\
    (forall e, e ∈ concat pages <->
       TenantID e = tenant /\ in_period f (Timestamp e) /\ listed f e = true /\
       exists v, kv_get d' (rowOf (LatestOnly f) e) = Some v /\ UnmarshalEvent v = Ok e) /\
    StronglySorted (fun a b => Timestamp b <= Timestamp a) (concat pages) /\ NoDup (concat pages).
Proof.
  intros Hd Hls Ht Hex Hmsg d' Hn. destruct (walk_from f d' tenant n [] _ "" eq_refl Hn ltac:(by left)) as (pages & Hw & Hall & Hc).
  exists pages. split; [done|]. split; [done|]. change (concat pages = listing d' tenant f) in Hc. rewrite Hc. by apply (listing_exact ls d).
Qed.

Lemma epoch_bound : Sprintf_019d (wrap64 (descending unixEpoch + 1)) = "-9223372036854775808".
Proof. vm_compute. reflexivity. Qed.

(** Nothing is listed since 1970-01-01.  A listing whose start is the Unix
    epoch itself -- an empty protobuf timestamp -- is empty, whatever the store
    holds: the key it ends at is computed as [MaxInt64 + 1], which wraps. *)
Theorem listing_since_1970_is_empty ls d tenant f n :
  (forall k, kv_get d k = None) -> Forall orderly_label ls -> no_colon tenant -> F_MessageID f = "" -> F_StartTime f = unixEpoch ->
  walk (S n) (w_db (run ls (NewStore d))) tenant f "" = Some [[]].
Proof.
  intros Hd Hls Ht Hmsg Hst. set (d' := w_db _). destruct (run_sound ls (NewStore d) Hls) as (Hg & _ & _).
  { split; [|split; constructor]. intros k v. simpl. by rewrite Hd. }
  fold d' in Hg.
  assert (Eb : listBounds tenant f = timeBounds (family (LatestOnly f)) tenant f).
  { unfold listBounds. rewrite Hmsg. simpl. by destruct (LatestOnly f). }
  assert (Hnil : kv_iter d' (listBounds tenant f).1 (listBounds tenant f).2 = []).
  { rewrite Eb. destruct (kv_iter _ _ _) as [|[k v] l] eqn:Ek; [done|exfalso].
    assert (Hin : (k, v) ∈ kv_iter d' (timeBounds (family (LatestOnly f)) tenant f).1 (timeBounds (family (LatestOnly f)) tenant f).2) by (rewrite Ek; by left).
    destruct (found (LatestOnly f) tenant f d' k v Hg Ht Hin) as (e & [Hera _] & Hte & -> & _ & _). apply kv_iter_spec in Hin as (_ & _ & Hhi).
    unfold timeBounds in Hhi. rewrite Hst in Hhi. cbn [snd] in Hhi. unfold rowOf in Hhi. rewrite Hte in Hhi.
    change (time_is_zero unixEpoch) with false in Hhi. cbn iota in Hhi. rewrite !string_app_assoc in Hhi. rewrite 3!slt_app in Hhi.
    rewrite descendingTimestamp_pad in Hhi by done.
    destruct (pad_head (descending (Timestamp e)) (":" ++ suffix (LatestOnly f) e) (fits_era _ Hera)) as (c & r & E & Hc). rewrite E in Hhi.
    rewrite epoch_bound in Hhi.
    unfold slt, String.ltb in Hhi. cbn [String.append] in Hhi. rewrite compare_cons, code_compare in Hhi. apply is_digit_range in Hc.
    change (code "-"%char) with 45 in Hhi. destruct (Z.compare_spec (code c) 45); [lia|lia|done]. }
  cbn [walk]. unfold List_.
  change (listBounds tenant (with_token "" f)) with (listBounds tenant f). destruct (listBounds tenant f) as [lo hi]. cbn [fst snd] in Hnil. rewrite Hnil.
  by destruct (eqb _ "").
Qed.

End Rows.
End EventListing.
