(* ===== verification/EventRetention.v ===== *)
(** * Retention of events and messages

    What the passes of [EventStore] that expire rows keep true: nothing leaves
    the log that is not in the archive first -- or held elsewhere, or unreadable
    --, whatever fails on the way; a pass that nothing disturbs removes exactly
    what is older than its cutoff; a message takes its index entries with it;
    and a process that dies between the two halves of a pass strands an entry
    on the timeline. *)
From S2P Require Import Prelude GoStrings Encoding KVStore Calendar Classify Events EventStore EventTimeline EventListing.
From Stdlib Require Import Ascii.

Module EventRetention.
Import GoStrings Encoding KVStore Calendar Classify Events EventStore EventTimeline EventListing.
Local Open Scope string_scope.
Local Open Scope Z_scope.

Section Retention.
Context {DB : Type} `{!KV DB, !KVLaws DB counterMerge} {codec : Codec}.

(** ** The archive comes first *)

(** Another store was asked about an id and said it has it. *)
Definition held_elsewhere (env : RetEnv) (id : string) : Prop :=
  exists ask ids held, r_elsewhere env = Some ask /\ ask ids = Ok held /\ id ∈ held.

(** What a row needs to be deleted, given the archive. *)
Definition justified (env : RetEnv) (rows : list (string * string)) (cutoff : Z) (lines : list (string * string)) (k : string) : Prop :=
  exists v ts id, (k, v) ∈ rows /\ keyParts k = Some (ts, id) /\ cutoff < ts /\
    forall e, UnmarshalEvent v = Ok e -> held_elsewhere env id \/ exists rec, MarshalEvent e = Ok rec /\ (TenantID e, rec) ∈ lines.

Definition deleted (st : RetState) (k : string) : Prop := exists ops, RCommit ops ∈ r_actions st /\ KDelete k ∈ ops.

Lemma justified_more env rows cutoff lines more k : justified env rows cutoff lines k -> justified env rows cutoff (lines ++ more) k.
Proof.
  intros (v & ts & id & H1 & H2 & H3 & H4). exists v, ts, id. split_and!; [done..|]. intros e He.
  destruct (H4 e He) as [?|(rec & ? & ?)]; [by left|right]. exists rec. split; [done|]. apply elem_of_app. by left.
Qed.

Lemma expireEvent_lines env rec a lines lines' r : expireEvent env rec a lines = (lines', r) -> exists more, lines' = (lines ++ more)%list.
Proof.
  unfold expireEvent, archiveWrite. intros H. repeat case_match; simplify_eq; try (exists []; by rewrite app_nil_r). by eexists.
Qed.

Lemma expireAll_lines env held : forall chunk lines lines' r, expireAll env held chunk lines = (lines', r) ->
  exists more, lines' = (lines ++ more)%list.
Proof.
  induction chunk as [|rec rest IH]; intros lines lines' r; cbn [expireAll]; [intros [= <- <-]; exists []; by rewrite app_nil_r|].
  destruct (expireEvent _ _ _ _) as [l1 [[ops p]|err]] eqn:E1; apply expireEvent_lines in E1 as [m1 ->]; [|intros [= <- <-]; by exists m1].
  destruct (expireAll env held rest _) as [l2 [[ops' ps]|err]] eqn:E2; apply IH in E2 as [m2 ->]; intros [= <- <-];
    exists (m1 ++ m2)%list; by rewrite app_assoc.
Qed.

(** A record to be expired came from a row past the cutoff. *)
Definition drawn (rows : list (string * string)) (cutoff : Z) (rec : expiredEvent) : Prop :=
  (x_key rec, x_value rec) ∈ rows /\ exists ts, keyParts (x_key rec) = Some (ts, x_id rec) /\ cutoff < ts.

(** What expiring an event deletes. *)
Lemma expireEvent_ops env rec a lines lines' ops p : expireEvent env rec a lines = (lines', Ok (ops, p)) ->
  forall o, o ∈ ops -> o = KDelete (x_key rec) \/ o = KDelete (eventIdKey (x_id rec)) \/
    exists e, UnmarshalEvent (x_value rec) = Ok e /\ o = KDelete (msgEventKey e).
Proof.
  unfold expireEvent, archiveWrite. destruct (UnmarshalEvent (x_value rec)) as [e|]; intros He o Ho.
  - assert (Hops : ops = ((deleteEventIndexes e).1 ++ deleteEventRow rec)%list).
    { destruct (deleteEventIndexes e) as [ops' q]. destruct a; [|by injection He]. destruct (MarshalEvent e); [|done].
      destruct (r_archive _ _); [done|]. by injection He. }
    rewrite Hops in Ho. unfold deleteEventIndexes, deleteEventRow in Ho. destruct (eqb (MessageID e) ""); cbn [fst app] in Ho;
      rewrite !elem_of_cons in Ho; repeat destruct Ho as [->|Ho]; eauto; by apply elem_of_nil in Ho.
  - injection He as _ <- _. unfold deleteEventRow in Ho. rewrite !elem_of_cons in Ho. destruct Ho as [->|[->|Ho]]; eauto. by apply elem_of_nil in Ho.
Qed.

Lemma expireEvent_justified env rows cutoff rec held ids a lines lines' ops p :
  drawn rows cutoff rec ->
  (match r_elsewhere env with None => held = ∅ | Some ask => ask ids = Ok held end) -> a = negb (bool_decide (x_id rec ∈ held)) ->
  expireEvent env rec a lines = (lines', Ok (ops, p)) ->
  forall k, KDelete k ∈ ops -> HasPrefix k "events:" = true -> justified env rows cutoff lines' k.
Proof.
  intros [Hrow (ts & Hk & Hts)] Hheld Ha He k Hin Hpre.
  assert (Hkey : k = x_key rec).
  { destruct (expireEvent_ops _ _ _ _ _ _ _ He _ Hin) as [H|[H|(e & _ & H)]]; by simplify_eq. }
  subst k. exists (x_value rec), ts, (x_id rec). split_and!; [done..|]. intros e Hu. unfold expireEvent, archiveWrite in He. rewrite Hu in He.
  destruct a eqn:Ea.
  - right. destruct (MarshalEvent e) as [record|]; [|done]. destruct (r_archive env (length lines)); [done|].
    destruct (deleteEventIndexes e) as [o q]. injection He as <- _ _. exists record. split; [done|]. apply elem_of_app. right. by left.
  - left. symmetry in Ha. apply negb_false_iff, bool_decide_eq_true in Ha. destruct (r_elsewhere env) as [ask|] eqn:Ee; [|by subst held].
    by exists ask, ids, held.
Qed.

Lemma expireAll_justified env rows cutoff held ids : (match r_elsewhere env with None => held = ∅ | Some ask => ask ids = Ok held end) ->
  forall chunk lines lines' ops ps, Forall (drawn rows cutoff) chunk -> expireAll env held chunk lines = (lines', Ok (ops, ps)) ->
  forall k, KDelete k ∈ ops -> HasPrefix k "events:" = true -> justified env rows cutoff lines' k.
Proof.
  intros Hheld. induction chunk as [|rec rest IH]; intros lines lines' ops ps Hd; cbn [expireAll];
    [intros [= <- <- <-] k Hin; by apply elem_of_nil in Hin|].
  apply Forall_cons in Hd as [Hrec Hd]. destruct (expireEvent _ _ _ _) as [l1 [[o1 p]|err]] eqn:E1; [|done].
  destruct (expireAll env held rest l1) as [l2 [[o2 ps2]|err]] eqn:E2; [|done]. intros [= <- <- <-] k Hin Hpre.
  pose proof (expireAll_lines _ _ _ _ _ _ E2) as [more ->]. apply elem_of_app in Hin as [Hin|Hin].
  - apply justified_more. by eapply expireEvent_justified.
  - by eapply IH.
Qed.

(** Every deletion so far is justified by the archive so far. *)
Definition accounted (env : RetEnv) (rows : list (string * string)) (cutoff : Z) (st : RetState) : Prop :=
  forall k, deleted st k -> HasPrefix k "events:" = true -> justified env rows cutoff (r_lines st) k.

Lemma expireChunk_accounted env rows cutoff chunk st st' err :
  Forall (drawn rows cutoff) chunk -> accounted env rows cutoff st -> expireChunk env chunk st = (st', err) -> accounted env rows cutoff st'.
Proof.
  intros Hd Hacc. unfold expireChunk, expireLatest. destruct chunk as [|rec rest]; [by intros [= <- <-]|]. set (chunk := rec :: rest) in *.
  destruct (match r_elsewhere env with None => Ok ∅ | Some held => held (x_id <$> chunk) end) as [held|e] eqn:Eh; [|by intros [= <- <-]].
  assert (Hheld : match r_elsewhere env with None => held = ∅ | Some ask => ask (x_id <$> chunk) = Ok held end)
    by (destruct (r_elsewhere env); [done|congruence]).
  destruct (expireAll env held chunk (r_lines st)) as [lines [[ops ps]|e]] eqn:E;
    pose proof (expireAll_lines _ _ _ _ _ _ E) as [more Hl].
  2:{ intros [= <- <-] k Hdel Hp. simpl. rewrite Hl. apply justified_more. by apply Hacc. }
  destruct (r_commit env (r_chunks st)) as [e|].
  { intros [= <- <-] k Hdel Hp. simpl. rewrite Hl. apply justified_more. by apply Hacc. }
  assert (Hnew : forall rest', (forall o, RCommit o ∉ rest') -> forall n r,
    accounted env rows cutoff (mkRet (r_actions st ++ [RCommit ops] ++ rest') lines r n)).
  { intros rest' Hr n r k (o & Hin & Hk) Hp. cbn [r_actions r_lines] in Hin |- *. rewrite !elem_of_app, list_elem_of_singleton in Hin.
    destruct Hin as [Hin|[[= ->]|Hin]]; [|by eapply expireAll_justified|by destruct (Hr o)].
    rewrite Hl. apply justified_more. apply Hacc; [by exists o|done]. }
  destruct ps as [|p ps]; [intros [= <- <-]; apply (Hnew []); intros o ?%elem_of_nil; done|].
  destruct (r_expire env (r_chunks st)); intros [= <- <-]; [apply (Hnew []); intros o ?%elem_of_nil; done|].
  simpl. rewrite <- app_assoc. apply (Hnew [RExpire (p :: ps)]). intros o. by rewrite list_elem_of_singleton.
Qed.

Lemma truncateLoop_accounted env rows cutoff : forall l i chunk st st' err,
  (forall x, x ∈ l -> x ∈ rows) -> Forall (drawn rows cutoff) chunk -> accounted env rows cutoff st ->
  truncateLoop env cutoff i l chunk st = (st', err) -> accounted env rows cutoff st'.
Proof.
  induction l as [|[k v] l IH]; intros i chunk st st' err Hsub Hd Hacc; cbn [truncateLoop]; [by eapply expireChunk_accounted|].
  assert (Hsub' : forall x, x ∈ l -> x ∈ rows) by (intros; apply Hsub; by right).
  destruct (r_ctx env i); [by intros [= <- <-]|]. destruct (keyParts k) as [[ts id]|] eqn:Ek; [|by eapply IH].
  destruct (Z.leb_spec ts cutoff); [by eapply IH|].
  assert (Hd' : Forall (drawn rows cutoff) (chunk ++ [mkExpired k id v])).
  { apply Forall_app. split; [done|]. constructor; [|done]. split; [apply Hsub; by left|]. by exists ts. }
  destruct (_ <? _)%nat; [by eapply IH|]. destruct (expireChunk env _ st) as [st1 [e|]] eqn:E; pose proof (expireChunk_accounted _ _ _ _ _ _ _ Hd' Hacc E);
    [by intros [= <- <-]|by eapply IH].
Qed.

Lemma truncate_accounted env before (d : DB) st err :
  truncateBefore env before d = (st, err) -> accounted env (kv_iter d "events:" "events;") (descending before) st.
Proof.
  unfold truncateBefore. destruct (time_is_zero before).
  - intros [= <- <-] k (ops & Hin & _). by apply elem_of_nil in Hin.
  - intros H. eapply truncateLoop_accounted; [|..|exact H]; [done|done|]. intros k' (ops & Hin & _). by apply elem_of_nil in Hin.
Qed.

(** Nothing leaves the log unarchived.  Whatever a pass meets -- a caller
    that gives up, an archive, a commit or a hand-over that fails -- a row of the
    log it has deleted was past the cutoff, and if it could be read then its
    event is in its tenant's archive, or the store this one mirrors said it
    holds it. *)
Theorem archived_before_deleted env before (d : DB) st err k :
  truncateBefore env before d = (st, err) -> deleted st k -> HasPrefix k "events:" = true ->
  justified env (kv_iter d "events:" "events;") (descending before) (r_lines st) k.
Proof. intros H Hdel Hp. by apply (truncate_accounted env before d st err H). Qed.

(** ** An undisturbed pass *)

Definition undisturbed (env : RetEnv) : Prop :=
  (forall n, r_ctx env n = None) /\ (forall n, r_archive env n = None) /\ (forall n, r_commit env n = None) /\ (forall n, r_expire env n = None) /\
  match r_elsewhere env with None => True | Some ask => forall ids, is_ok (ask ids) = true end.

(** A value the codec reads and writes back. *)
Definition readable (v : string) : Prop := exists e rec, UnmarshalEvent v = Ok e /\ MarshalEvent e = Ok rec.

Lemma expireAll_total env held : undisturbed env -> forall chunk lines, Forall (fun rec => readable (x_value rec)) chunk ->
  exists lines' ops ps, expireAll env held chunk lines = (lines', Ok (ops, ps)) /\ forall rec, rec ∈ chunk -> KDelete (x_key rec) ∈ ops.
Proof.
  intros (_ & Har & _). induction chunk as [|rec rest IH]; intros lines Hr; [exists lines, [], []; split; [done|by intros ? ?%elem_of_nil]|].
  apply Forall_cons in Hr as [(e & record & Hu & Hm) Hr]. cbn [expireAll].
  assert (H1 : exists lines1, expireEvent env rec (negb (bool_decide (x_id rec ∈ held))) lines =
    (lines1, Ok (((deleteEventIndexes e).1 ++ deleteEventRow rec)%list, (deleteEventIndexes e).2))).
  { unfold expireEvent, archiveWrite. rewrite Hu, Hm, Har. destruct (deleteEventIndexes e) as [ops q]. destruct (negb _); by eexists. }
  destruct H1 as [lines1 ->]. destruct (IH lines1 Hr) as (lines' & ops & ps & -> & Hin). eexists _, _, _. split; [done|].
  intros r [->|Hr']%elem_of_cons; apply elem_of_app; [left; apply elem_of_app; right; by left|right; by apply Hin].
Qed.

Lemma expireChunk_total env chunk st : undisturbed env -> Forall (fun rec => readable (x_value rec)) chunk ->
  exists st', expireChunk env chunk st = (st', None) /\ (forall rec, rec ∈ chunk -> deleted st' (x_key rec)) /\
    (forall a, a ∈ r_actions st -> a ∈ r_actions st') /\ r_removed st' = r_removed st + Z.of_nat (length chunk).
Proof.
  intros Hu Hr. destruct chunk as [|rec rest].
  { exists st. split; [done|]. split; [by intros ? ?%elem_of_nil|]. split; [done|]. simpl. lia. }
  set (chunk := rec :: rest) in *. unfold expireChunk, expireLatest. fold chunk. pose proof Hu as (_ & _ & Hc & He & Hel).
  assert (Hheld : exists held, (match r_elsewhere env with None => Ok ∅ | Some held => held (x_id <$> chunk) end) = Ok held :> result string _).
  { destruct (r_elsewhere env) as [ask|]; [|by eexists]. specialize (Hel (x_id <$> chunk)). destruct (ask _); [by eexists|done]. }
  destruct Hheld as [held ->]. destruct (expireAll_total env held Hu chunk (r_lines st) Hr) as (lines & ops & ps & -> & Hin).
  rewrite Hc, He. set (acts := (r_actions st ++ [RCommit ops])%list).
  assert (Hd : forall st', r_actions st' = acts \/ (exists q, r_actions st' = (acts ++ [RExpire q])%list) ->
    (forall rec, rec ∈ chunk -> deleted st' (x_key rec)) /\ (forall a, a ∈ r_actions st -> a ∈ r_actions st')).
  { intros st' Hst. assert (Hsub : forall a, a ∈ acts -> a ∈ r_actions st').
    { intros a Ha. destruct Hst as [->|[q ->]]; [done|]. apply elem_of_app. by left. }
    split; [intros r Hr'; exists ops; split; [apply Hsub, elem_of_app; right; by left|by apply Hin]|].
    intros a Ha. apply Hsub, elem_of_app. by left. }
  destruct ps as [|p ps]; eexists; (split; [done|]); [destruct (Hd (mkRet acts lines (r_removed st + Z.of_nat (length chunk)) (S (r_chunks st)))); [by left|done]|].
  destruct (Hd (mkRet (acts ++ [RExpire (p :: ps)]) lines (r_removed st + Z.of_nat (length chunk)) (S (r_chunks st)))); [right; by eexists|done].
Qed.

Definition past (cutoff : Z) (kv : string * string) : bool :=
  match keyParts kv.1 with Some (ts, _) => cutoff <? ts | None => false end.

Lemma truncateLoop_total env cutoff : undisturbed env -> forall l i chunk st,
  Forall (fun rec => readable (x_value rec)) chunk -> Forall (fun kv => readable kv.2) l ->
  exists st', truncateLoop env cutoff i l chunk st = (st', None) /\ (forall rec, rec ∈ chunk -> deleted st' (x_key rec)) /\
    (forall kv, kv ∈ l -> past cutoff kv = true -> deleted st' kv.1) /\ (forall a, a ∈ r_actions st -> a ∈ r_actions st') /\
    r_removed st' = r_removed st + Z.of_nat (length chunk) + Z.of_nat (length (filter (fun kv => past cutoff kv = true) l)).
Proof.
  intros Hu. pose proof Hu as (Hctx & _). induction l as [|[k v] l IH]; intros i chunk st Hc Hl; cbn [truncateLoop].
  { destruct (expireChunk_total env chunk st Hu Hc) as (st' & H1 & H2 & H3 & H4). exists st'. split_and!; [done|done|by intros ? ?%elem_of_nil|done|].
    rewrite H4. simpl. lia. }
  apply Forall_cons in Hl as [Hv Hl]. rewrite Hctx.
  assert (Hskip : past cutoff (k, v) = false -> exists st', truncateLoop env cutoff (S i) l chunk st = (st', None) /\
    (forall rec, rec ∈ chunk -> deleted st' (x_key rec)) /\ (forall kv, kv ∈ (k, v) :: l -> past cutoff kv = true -> deleted st' kv.1) /\
    (forall a, a ∈ r_actions st -> a ∈ r_actions st') /\
    r_removed st' = r_removed st + Z.of_nat (length chunk) + Z.of_nat (length (filter (fun kv => past cutoff kv = true) ((k, v) :: l)))).
  { intros Hp. destruct (IH (S i) chunk st Hc Hl) as (st' & H1 & H2 & H3 & H4 & H5). exists st'. split_and!; [done|done| |done|].
    - intros kv [->|Hkv]%elem_of_cons Hpast; [congruence|by apply H3].
    - by rewrite filter_cons, decide_False by congruence. }
  destruct (keyParts k) as [[ts id]|] eqn:Ek; [|apply Hskip; unfold past; simpl; by rewrite Ek].
  destruct (Z.leb_spec ts cutoff) as [Hle|Hgt]; [apply Hskip; unfold past; simpl; rewrite Ek; lia|]. clear Hskip.
  assert (Hpast : past cutoff (k, v) = true) by (unfold past; simpl; rewrite Ek; lia).
  assert (Hc' : Forall (fun rec => readable (x_value rec)) (chunk ++ [mkExpired k id v])) by (apply Forall_app; split; [done|by repeat constructor]).
  assert (Hlen : Z.of_nat (length (chunk ++ [mkExpired k id v])) = Z.of_nat (length chunk) + 1) by (rewrite length_app; simpl; lia).
  assert (Hcount : Z.of_nat (length (filter (fun kv => past cutoff kv = true) ((k, v) :: l))) =
    1 + Z.of_nat (length (filter (fun kv => past cutoff kv = true) l))) by (rewrite filter_cons, decide_True by done; simpl; lia).
  assert (Hlast : mkExpired k id v ∈ (chunk ++ [mkExpired k id v])%list) by (apply elem_of_app; right; by left).
  assert (Hin : forall rec, rec ∈ chunk -> rec ∈ (chunk ++ [mkExpired k id v])%list) by (intros; apply elem_of_app; by left).
  destruct (_ <? _)%nat.
  - destruct (IH (S i) (chunk ++ [mkExpired k id v])%list st Hc' Hl) as (st' & H1 & H2 & H3 & H4 & H5). exists st'. split_and!; [done|auto| |done|lia].
    intros kv [->|Hkv]%elem_of_cons Hp; [by apply (H2 (mkExpired k id v))|by apply H3].
  - destruct (expireChunk_total env (chunk ++ [mkExpired k id v]) st Hu Hc') as (st1 & -> & E2 & E3 & E4).
    destruct (IH (S i) [] st1 (Forall_nil_2 _) Hl) as (st' & H1 & H2 & H3 & H4 & H5). exists st'.
    assert (Hmore : forall k', deleted st1 k' -> deleted st' k') by (intros k' (ops & Ho & Hk'); exists ops; split; [by apply H4|done]).
    split_and!; [done|auto| |auto|simpl in H5; lia].
    intros kv [->|Hkv]%elem_of_cons Hp; [by apply Hmore, (E2 (mkExpired k id v))|by apply H3].
Qed.

(** ** What a pass leaves *)

Definition only_deletes (st : RetState) : Prop := forall ops, RCommit ops ∈ r_actions st -> Forall (fun o => exists k, o = KDelete k) ops.

Lemma expireAll_deletes env held : forall chunk lines lines' ops ps, expireAll env held chunk lines = (lines', Ok (ops, ps)) ->
  Forall (fun o => exists k, o = KDelete k) ops.
Proof.
  induction chunk as [|rec rest IH]; intros lines lines' ops ps; cbn [expireAll]; [by intros [= _ <- _]|].
  destruct (expireEvent _ _ _ _) as [l1 [[o1 p]|err]] eqn:E1; [|done].
  destruct (expireAll env held rest l1) as [l2 [[o2 ps2]|err]] eqn:E2; [|done]. intros [= _ <- _]. apply Forall_app. split; [|by eapply IH].
  apply Forall_forall. intros o Ho. destruct (expireEvent_ops _ _ _ _ _ _ _ E1 o Ho) as [->|[->|(e & _ & ->)]]; eauto.
Qed.

Lemma expireChunk_deletes env chunk st st' err : only_deletes st -> expireChunk env chunk st = (st', err) -> only_deletes st'.
Proof.
  intros Hst. unfold expireChunk, expireLatest. destruct chunk as [|rec rest]; [by intros [= <- <-]|].
  destruct (match r_elsewhere env with None => Ok ∅ | Some held => held _ end) as [held|e]; [|by intros [= <- <-]].
  destruct (expireAll _ _ _ _) as [lines [[ops ps]|e]] eqn:E; [|by intros [= <- <-]]. apply expireAll_deletes in E.
  destruct (r_commit _ _); [by intros [= <- <-]|].
  assert (Hnew : forall rest', (forall o, RCommit o ∉ rest') -> forall n r ls, only_deletes (mkRet (r_actions st ++ [RCommit ops] ++ rest') ls r n)).
  { intros rest' Hr n r ls o. cbn [r_actions]. rewrite !elem_of_app, list_elem_of_singleton. intros [Ho|[[= ->]|Ho]]; [by apply Hst|done|by destruct (Hr o)]. }
  destruct ps as [|p ps]; [intros [= <- <-]; apply (Hnew []); intros o ?%elem_of_nil; done|].
  destruct (r_expire _ _); intros [= <- <-]; [apply (Hnew []); intros o ?%elem_of_nil; done|].
  simpl. rewrite <- app_assoc. apply (Hnew [RExpire (p :: ps)]). intros o. by rewrite list_elem_of_singleton.
Qed.

Lemma truncateLoop_deletes env cutoff : forall l i chunk st st' err, only_deletes st -> truncateLoop env cutoff i l chunk st = (st', err) -> only_deletes st'.
Proof.
  induction l as [|[k v] l IH]; intros i chunk st st' err Hst; cbn [truncateLoop]; [by eapply expireChunk_deletes|].
  destruct (r_ctx env i); [by intros [= <- <-]|]. destruct (keyParts k) as [[ts id]|]; [|by eapply IH]. destruct (_ <=? _); [by eapply IH|].
  destruct (_ <? _)%nat; [by eapply IH|]. destruct (expireChunk _ _ _) as [st1 [e|]] eqn:E; apply expireChunk_deletes in E; [by intros [= <- <-]|done|by eapply IH|done].
Qed.

Lemma deletes_effects k ops cur : Forall (fun o => exists k', o = KDelete k') ops ->
  (KDelete k ∈ ops -> effects counterMerge k ops cur = None) /\ (KDelete k ∉ ops -> effects counterMerge k ops cur = cur).
Proof.
  intros Hd. split.
  - revert cur. induction Hd as [|o ops [k' ->] Hd IH]; intros cur; [by intros ?%elem_of_nil|]. rewrite effects_cons.
    destruct (decide (KDelete k ∈ ops)) as [Hin|Hn]; [intros _; by apply IH|]. intros [[= ->]|?]%elem_of_cons; [|done]. rewrite effect_delete.
    clear - Hd. induction Hd as [|o ops [k2 ->] Hd IH]; [done|]. rewrite effects_cons. unfold kv_effect. simpl. case_bool_decide; exact IH.
  - intros Hn. apply effects_none. rewrite Forall_forall in Hd |- *. intros o Ho E. destruct (Hd o Ho) as [k' ->]. simpl in E. by subst k'.
Qed.

Lemma performLatestExpiry_timeline (d : DB) : forall ps batch cache, Forall (fun o => timeline_key (op_key o) = true) batch ->
  Forall (fun o => timeline_key (op_key o) = true) (performLatestExpiry d ps batch cache).1.
Proof.
  induction ps as [|p ps IH]; intros batch cache Hb; [done|]. cbn [performLatestExpiry].
  destruct (match cache !! _ with Some c => Some c | None => _ end); [|by apply IH]. destruct (eqb _ _); [|by apply IH].
  apply IH, Forall_app. split; [done|]. repeat constructor; [apply timeline_event|apply timeline_ts].
Qed.

Lemma after_pass_get st (d : DB) k : only_deletes st -> timeline_key k = false ->
  (deleted st k -> kv_get (after_pass st d) k = None) /\ (~ deleted st k -> kv_get (after_pass st d) k = kv_get d k).
Proof.
  unfold only_deletes, deleted, after_pass. intros Hst Hk. revert d. induction (r_actions st) as [|a acts IH]; intros d.
  { split; [by intros (? & ?%elem_of_nil & _)|done]. }
  assert (Hacts : forall ops, RCommit ops ∈ acts -> Forall (fun o => exists k, o = KDelete k) ops) by (intros; apply Hst; by right).
  specialize (IH Hacts). cbn [foldl]. destruct a as [ops|ps].
  - destruct (deletes_effects k ops (kv_get d k) (Hst ops ltac:(by left))) as [Hyes Hno]. destruct (IH (kv_commit ops d)) as [IH1 IH2]. split.
    + intros (o & [[= <-]|Ho]%elem_of_cons & Hin); [|by apply IH1; exists o].
      destruct (decide (Exists (fun a => match a with RCommit o => bool_decide (KDelete k ∈ o) | RExpire _ => false end = true) acts)) as [He|Hn].
      * apply IH1. apply Exists_exists in He as ([o2|] & Ho & Hko); [|done]. apply bool_decide_eq_true in Hko. by exists o2.
      * rewrite IH2; [rewrite kv_get_commit; by apply Hyes|]. intros (o2 & Ho & Hko). apply Hn, Exists_exists. exists (RCommit o2). by rewrite bool_decide_eq_true_2.
    + intros Hn. rewrite IH2; [rewrite kv_get_commit; apply Hno; intros Hin; apply Hn; exists ops; split; [by left|done]|].
      intros (o & Ho & Hko). apply Hn. exists o. split; [by right|done].
  - assert (Hsame : kv_get (kv_commit (performLatestExpiry d ps [] ∅).1 d) k = kv_get d k).
    { rewrite kv_get_commit. apply effects_none. eapply Forall_impl; [by apply performLatestExpiry_timeline|]. intros o Ho E. simpl in Ho. congruence. }
    destruct (IH (kv_commit (performLatestExpiry d ps [] ∅).1 d)) as [IH1 IH2]. split.
    + intros (o & [?|Ho]%elem_of_cons & Hin); [done|]. apply IH1. by exists o.
    + intros Hn. rewrite IH2, Hsame; [done|]. intros (o & Ho & Hko). apply Hn. exists o. split; [by right|done].
Qed.

Lemma ParseInt_pad x : 0 <= x <= maxInt64 -> ParseInt (pad 19 x) = x.
Proof.
  intros Hx. pose proof (pad_digits 19 x ltac:(lia)) as Hd. pose proof (pad_scan 19 x ltac:(lia)) as Hs.
  destruct (pad_head x "") as (c & r & E & Hc); [unfold fits; pose proof maxInt64_width; lia|]. rewrite string_app_nil in E.
  unfold ParseInt. rewrite E in *. destruct (eqb (String c "") "-") eqn:E1; [apply eqb_true in E1; by injection E1 as ->|].
  destruct (eqb (String c "") "+") eqn:E2; [apply eqb_true in E2; by injection E2 as ->|].
  rewrite Hd. change (eqb (String c r) "") with false. cbn [orb negb]. rewrite Hs. unfold sat64, minInt64. lia.
Qed.

Lemma keyParts_row e : orderly e -> exists id, keyParts (eventKey e) = Some (descending (Timestamp e), id) /\ (no_colon (ID e) -> id = ID e).
Proof.
  intros [Hera Ht]. unfold keyParts, eventKey, eventKeyOf. pose proof (descendingTimestamp_no_colon (Timestamp e)) as Hts.
  assert (E : "events:" ++ TenantID e ++ ":" ++ descendingTimestamp (Timestamp e) ++ ":" ++ ID e =
    "events" ++ String ":" (TenantID e ++ String ":" (descendingTimestamp (Timestamp e) ++ String ":" (ID e)))) by done.
  rewrite E, !Split_head by done. destruct (Split (ID e) ":"%char) as [|id ids] eqn:Es; [by apply Split_nonempty in Es|].
  exists id. rewrite descendingTimestamp_pad by done. rewrite ParseInt_pad.
  - split; [done|]. intros Hid. rewrite Split_whole in Es by done. by injection Es.
  - rewrite descending_era by done. unfold in_era in Hera. lia.
Qed.

(** The rows of the log are events under their own keys. *)
Lemma log_rows (d : DB) k v : genuine (kv_get d) -> (k, v) ∈ kv_iter d "events:" "events;" -> exists e, orderly e /\ k = eventKey e /\ MarshalEvent e = Ok v.
Proof.
  intros Hg. intros (Hk & Hlo & Hhi)%kv_iter_spec. destruct (Hg k v Hk false) as (e & He & -> & Hm); [|by exists e].
    destruct (between_prefix "events" k ":" ";" Hlo Hhi) as [r ->]. unfold family.
    assert (Hr : exists r', r = String ":" r').
    { change "events:" with ("events" ++ ":") in Hlo. rewrite le_app in Hlo. change "events;" with ("events" ++ ";") in Hhi. rewrite slt_app in Hhi. destruct r as [|c r]; [done|]. exists r. f_equal.
      apply le_not_slt in Hlo. unfold slt, String.ltb in Hlo, Hhi. rewrite compare_cons in Hlo, Hhi. rewrite code_compare in Hlo, Hhi.
      change (code ":"%char) with 58 in Hlo. change (code ";"%char) with 59 in Hhi.
      destruct (Z.compare_spec (code c) 58) as [Ec|Hlt|Hgt]; [|done|destruct (Z.compare_spec (code c) 59) as [Ec|?|?]; [by destruct r|lia|done]].
      rewrite <- (chr_code c), Ec. done. }
    destruct Hr as [r' ->]. apply (prefix_app "events:" r').
Qed.

(** What a pass nothing disturbs does to a store that began empty. *)
Lemma expiry_exact `{!CodecLaws codec} ls d0 env before d :
  (forall k, kv_get d0 k = None) -> Forall orderly_label ls -> d = w_db (run ls (NewStore d0)) -> in_era before -> undisturbed env ->
  exists st, truncateBefore env before d = (st, None) /\
    (forall e v, kv_get d (eventKey e) = Some v -> UnmarshalEvent v = Ok e ->
       kv_get (after_pass st d) (eventKey e) = (if Timestamp e <? before then None else Some v) /\
       (Timestamp e < before -> no_colon (ID e) -> held_elsewhere env (ID e) \/ exists rec, MarshalEvent e = Ok rec /\ (TenantID e, rec) ∈ r_lines st)) /\
    r_removed st = Z.of_nat (length (filter (fun kv => past (descending before) kv = true) (kv_iter d "events:" "events;"))).
Proof.
  intros Hd0 Hls -> Hbe Hu. set (d := w_db _). destruct (run_sound ls (NewStore d0) Hls) as (Hg & _ & _).
  { split; [|split; constructor]. intros k v. simpl. by rewrite Hd0. }
  fold d in Hg. set (rows := kv_iter d "events:" "events;").
  assert (Hrows : forall k v, (k, v) ∈ rows -> exists e, orderly e /\ k = eventKey e /\ MarshalEvent e = Ok v) by (intros; by apply (log_rows d)).
  assert (Hread : Forall (fun kv => readable kv.2) rows).
  { apply Forall_forall. intros [k v] Hk. destruct (Hrows k v Hk) as (e & _ & _ & Hm). exists e, v. split; [by apply event_roundtrip|done]. }
  unfold truncateBefore. replace (time_is_zero before) with false.
  2:{ symmetry. apply Z.eqb_neq. unfold in_era in Hbe. unfold unixEpoch, Second in *. lia. }
  set (st0 := mkRet [] [] 0 0).
  assert (Hacc : accounted env rows (descending before) st0) by (intros k (ops & Hin & _); by apply elem_of_nil in Hin).
  assert (Hdel : only_deletes st0) by (intros ops Hin; by apply elem_of_nil in Hin).
  fold rows. destruct (truncateLoop_total env (descending before) Hu rows 0 [] st0 (Forall_nil_2 _) Hread) as (st & Hrun & _ & Hall & _ & Hn).
  exists st. split; [done|]. split; [|simpl in Hn; lia].
  pose proof (truncateLoop_accounted env rows (descending before) rows 0 [] st0 st None (fun x H => H) (Forall_nil_2 _) Hacc Hrun) as Hjust.
  pose proof (truncateLoop_deletes _ _ _ _ _ _ _ _ Hdel Hrun) as Hdels.
  intros e v Hget Hue.
  assert (Hpre : HasPrefix (eventKey e) "events:" = true) by apply prefix_app.
  destruct (Hg _ _ Hget false Hpre) as (e' & He & Hkey & Hm). apply event_roundtrip in Hm as Hm'. rewrite Hue in Hm'. injection Hm' as <-.
  destruct (keyParts_row e He) as (id & Hparts & Hid). destruct He as [Hera Ht].
  assert (Hpast : past (descending before) (eventKey e, v) = true <-> Timestamp e < before).
  { unfold past. simpl. rewrite Hparts, Z.ltb_lt, !descending_era by done. lia. }
  assert (Hin : (eventKey e, v) ∈ rows).
  { apply kv_iter_spec. split; [done|]. unfold eventKey, eventKeyOf. split.
    - change "events:" with ("events:" ++ "") at 1. apply le_app, le_nil.
    - change ("events:" ++ ?x) with ("events" ++ (":" ++ x)). change "events;" with ("events" ++ ";"). by apply slt_app. }
  destruct (after_pass_get st d (eventKey e) Hdels eq_refl) as [Hgone Hkept].
  destruct (Z.ltb_spec (Timestamp e) before) as [Hlt|Hge].
  - pose proof (Hall _ Hin (proj2 Hpast Hlt)) as Hd. split; [by apply Hgone|]. intros _ Hnc.
    destruct (Hjust _ Hd Hpre) as (v' & ts & id' & Hin' & Hparts' & _ & Harch). cbn [fst] in Hparts'. rewrite Hparts in Hparts'. injection Hparts' as _ <-. apply kv_iter_spec in Hin' as (Hget' & _).
    cbn [fst] in Hget'. rewrite Hget in Hget'. injection Hget' as <-. rewrite (Hid Hnc) in Harch. by apply Harch.
  - split; [|lia]. rewrite Hkept; [done|]. intros Hd. destruct (Hjust _ Hd Hpre) as (v' & ts & id' & _ & Hparts' & Hts & _).
    rewrite Hparts in Hparts'. injection Hparts' as <- _. rewrite !descending_era in Hts by done. lia.
Qed.

(** ** Whose lines the archive has *)

(** The store this one mirrors was asked about the row, and does not have it. *)
Definition unheld (env : RetEnv) (id : string) : Prop :=
  match r_elsewhere env with
  | None => True
  | Some ask => exists ids held, ask ids = Ok held /\ id ∈ ids /\ id ∉ held
  end.

Definition ownLine (env : RetEnv) (rows : list (string * string)) (cutoff : Z) (l : string * string) : Prop :=
  exists rec e, drawn rows cutoff rec /\ UnmarshalEvent (x_value rec) = Ok e /\ MarshalEvent e = Ok l.2 /\ l.1 = TenantID e /\ unheld env (x_id rec).

Lemma expireAll_own env rows cutoff held ids : (match r_elsewhere env with None => held = ∅ | Some ask => ask ids = Ok held end) ->
  forall chunk lines lines' r, Forall (drawn rows cutoff) chunk -> (forall x, x ∈ x_id <$> chunk -> x ∈ ids) -> Forall (ownLine env rows cutoff) lines ->
  expireAll env held chunk lines = (lines', r) -> Forall (ownLine env rows cutoff) lines'.
Proof.
  intros Hheld. induction chunk as [|rec rest IH]; intros lines lines' r Hd Hids Hl; cbn [expireAll]; [by intros [= <- <-]|].
  apply Forall_cons in Hd as [Hrec Hd].
  assert (Hone : forall l1 r1, expireEvent env rec (negb (bool_decide (x_id rec ∈ held))) lines = (l1, r1) -> Forall (ownLine env rows cutoff) l1).
  { unfold expireEvent, archiveWrite. intros l1 r1. destruct (UnmarshalEvent (x_value rec)) as [e|] eqn:Eu; [|by intros [= <- <-]].
    destruct (negb (bool_decide (x_id rec ∈ held))) eqn:Eh; [|by intros [= <- <-]]. apply negb_true_iff, bool_decide_eq_false in Eh.
    destruct (MarshalEvent e) as [record|] eqn:Em; [|by intros [= <- <-]]. destruct (r_archive env (length lines)); intros [= <- <-]; [done|].
    apply Forall_app. split; [done|]. constructor; [|done]. exists rec, e. split_and!; [done..|]. unfold unheld. destruct (r_elsewhere env) as [ask|]; [|done].
    exists ids, held. split_and!; [done|apply Hids; by left|done]. }
  destruct (expireEvent _ _ _ _) as [l1 [[o p]|err]]; specialize (Hone _ _ eq_refl); [|by intros [= <- <-]].
  destruct (expireAll env held rest l1) as [l2 r2] eqn:E2.
  assert (Hl2 : Forall (ownLine env rows cutoff) l2) by (eapply IH; [done|intros x Hx; apply Hids; by right|exact Hone|exact E2]).
  destruct r2 as [[o2 p2]|]; by intros [= <- <-].
Qed.

Lemma expireChunk_own env rows cutoff chunk st st' err : Forall (drawn rows cutoff) chunk -> Forall (ownLine env rows cutoff) (r_lines st) ->
  expireChunk env chunk st = (st', err) -> Forall (ownLine env rows cutoff) (r_lines st').
Proof.
  intros Hd Hl. unfold expireChunk, expireLatest. destruct chunk as [|rec rest]; [by intros [= <- <-]|]. set (chunk := rec :: rest) in *.
  destruct (match r_elsewhere env with None => Ok ∅ | Some held => held (x_id <$> chunk) end) as [held|e] eqn:Eh; [|by intros [= <- <-]].
  assert (Hheld : match r_elsewhere env with None => held = ∅ | Some ask => ask (x_id <$> chunk) = Ok held end)
    by (destruct (r_elsewhere env); [done|congruence]).
  destruct (expireAll env held chunk (r_lines st)) as [lines r] eqn:E. eapply expireAll_own in E; [|exact Hheld|done|done|done].
  destruct r as [[ops ps]|e]; [|by intros [= <- <-]]. destruct (r_commit env (r_chunks st)); [by intros [= <- <-]|].
  destruct ps as [|p ps]; [by intros [= <- <-]|]. destruct (r_expire env (r_chunks st)); by intros [= <- <-].
Qed.

Lemma truncateLoop_own env rows cutoff : forall l i chunk st st' err, (forall x, x ∈ l -> x ∈ rows) -> Forall (drawn rows cutoff) chunk ->
  Forall (ownLine env rows cutoff) (r_lines st) -> truncateLoop env cutoff i l chunk st = (st', err) -> Forall (ownLine env rows cutoff) (r_lines st').
Proof.
  induction l as [|[k v] l IH]; intros i chunk st st' err Hsub Hd Hl; cbn [truncateLoop]; [by eapply expireChunk_own|].
  assert (Hsub' : forall x, x ∈ l -> x ∈ rows) by (intros; apply Hsub; by right).
  destruct (r_ctx env i); [by intros [= <- <-]|]. destruct (keyParts k) as [[ts id]|] eqn:Ek; [|by eapply IH].
  destruct (Z.leb_spec ts cutoff); [by eapply IH|].
  assert (Hd' : Forall (drawn rows cutoff) (chunk ++ [mkExpired k id v])).
  { apply Forall_app. split; [done|]. constructor; [|done]. split; [apply Hsub; by left|]. by exists ts. }
  destruct (_ <? _)%nat; [by eapply IH|]. destruct (expireChunk env _ st) as [st1 [e|]] eqn:E; pose proof (expireChunk_own _ _ _ _ _ _ _ Hd' Hl E);
    [by intros [= <- <-]|by eapply IH].
Qed.

(** Every line a pass writes is of a row past the cutoff that is not held
    elsewhere. *)
Lemma truncate_own env before (d : DB) st err : truncateBefore env before d = (st, err) ->
  Forall (ownLine env (kv_iter d "events:" "events;") (descending before)) (r_lines st).
Proof.
  unfold truncateBefore. destruct (time_is_zero before); [by intros [= <- <-]|]. intros H. eapply truncateLoop_own; [| | |exact H]; done.
Qed.

(** Retention expires exactly.  A pass over a store that began empty, when
    nothing gives up or fails and the other store can be asked, removes every
    event recorded before the cutoff and no other, reports how many rows it
    removed, and has archived each event it removed or was told it is held
    elsewhere. *)
Theorem retention_expires_exactly `{!CodecLaws codec} ls d0 env before d :
  (forall k, kv_get d0 k = None) -> Forall orderly_label ls -> d = w_db (run ls (NewStore d0)) -> in_era before -> undisturbed env ->
  exists st, truncateBefore env before d = (st, None) /\
    (forall e v, kv_get d (eventKey e) = Some v -> UnmarshalEvent v = Ok e ->
       kv_get (after_pass st d) (eventKey e) = (if Timestamp e <? before then None else Some v) /\
       (Timestamp e < before -> no_colon (ID e) -> held_elsewhere env (ID e) \/ exists rec, MarshalEvent e = Ok rec /\ (TenantID e, rec) ∈ r_lines st)) /\
    r_removed st = Z.of_nat (length (filter (fun kv => past (descending before) kv = true) (kv_iter d "events:" "events;"))).
Proof. apply expiry_exact. Qed.

(** ** Messages *)

(** A batch that deletes anything of an expired message deletes all of it. *)
Definition whole (before : Z) (rows : list (string * string)) (b : list kvop) : Prop :=
  forall o, o ∈ b -> exists k v m, (k, v) ∈ rows /\ UnmarshalMessage v = Ok m /\ expired (M_CreatedAt m) before = true /\
    o ∈ KDelete k :: (KDelete <$> recipientMessageKeys m) /\
    forall i, i ∈ k :: recipientMessageKeys m -> KDelete i ∈ b.

Lemma whole_add before rows b k v m :
  whole before rows b -> (k, v) ∈ rows -> UnmarshalMessage v = Ok m -> expired (M_CreatedAt m) before = true ->
  whole before rows (b ++ KDelete k :: (KDelete <$> recipientMessageKeys m)).
Proof.
  intros Hb Hin Hu He o. rewrite elem_of_app. intros [Ho|Ho].
  - destruct (Hb o Ho) as (k' & v' & m' & H1 & H2 & H3 & H4 & H5). exists k', v', m'. split_and!; [done..|]. intros i Hi. apply elem_of_app. left. by apply H5.
  - exists k, v, m. split_and!; [done..|]. intros i Hi. apply elem_of_app. right. change (KDelete k :: (KDelete <$> recipientMessageKeys m)) with (KDelete <$> k :: recipientMessageKeys m).
    by apply list_elem_of_fmap_2.
Qed.

Lemma messagesLoop_spec ctx fails before rows : forall l i batch pending removed commits commits' n err,
  (forall x, x ∈ l -> x ∈ rows) -> whole before rows batch -> Forall (whole before rows) commits -> (pending = 0%nat -> batch = []) ->
  messagesLoop ctx fails before i l batch pending removed commits = (commits', n, err) ->
  Forall (whole before rows) commits' /\ (forall b, b ∈ commits -> b ∈ commits') /\
  (err = None -> (forall o, o ∈ batch -> exists b, b ∈ commits' /\ o ∈ b) /\
     forall k v m, (k, v) ∈ l -> UnmarshalMessage v = Ok m -> expired (M_CreatedAt m) before = true -> exists b, b ∈ commits' /\ KDelete k ∈ b).
Proof.
  induction l as [|[k v] l IH]; intros i batch pending removed commits commits' n err Hsub Hb Hc Hz; cbn [messagesLoop].
  { destruct (Nat.eqb_spec pending 0) as [Hp|Hp].
    - intros [= <- <- <-]. rewrite (Hz Hp). split_and!; [done|done|]. intros _. split; [by intros ? ?%elem_of_nil|by intros ??? ?%elem_of_nil].
    - destruct (fails (length commits)); intros [= <- <- <-]; split_and!; [done|done|done| | |].
      + apply Forall_app. by split; [|repeat constructor].
      + intros b Hin. apply elem_of_app. by left.
      + intros _. split; [|by intros ??? ?%elem_of_nil]. intros o Ho. exists batch. split; [apply elem_of_app; right; by left|done]. }
  assert (Hsub' : forall x, x ∈ l -> x ∈ rows) by (intros; apply Hsub; by right).
  destruct (ctx i); [by intros [= <- <- <-]|].
  assert (Hskip : (forall m, UnmarshalMessage v = Ok m -> expired (M_CreatedAt m) before = false) ->
    messagesLoop ctx fails before (S i) l batch pending removed commits = (commits', n, err) ->
    Forall (whole before rows) commits' /\ (forall b, b ∈ commits -> b ∈ commits') /\
    (err = None -> (forall o, o ∈ batch -> exists b, b ∈ commits' /\ o ∈ b) /\
      forall k' v' m, (k', v') ∈ (k, v) :: l -> UnmarshalMessage v' = Ok m -> expired (M_CreatedAt m) before = true -> exists b, b ∈ commits' /\ KDelete k' ∈ b)).
  { intros Hn Hrun. destruct (IH _ _ _ _ _ _ _ _ Hsub' Hb Hc Hz Hrun) as (H1 & H2 & H3). split_and!; [done|done|]. intros He. destruct (H3 He) as [H4 H5].
    split; [done|]. intros k' v' m [[= -> ->]|Hin]%elem_of_cons Hu Hx; [|by eapply H5]. by rewrite (Hn m Hu) in Hx. }
  destruct (UnmarshalMessage v) as [m|] eqn:Eu; [|by apply Hskip].
  destruct (expired (M_CreatedAt m) before) eqn:Ex; cbn [negb]; [|apply Hskip; by intros m' [= <-]]. clear Hskip.
  set (batch' := (batch ++ KDelete k :: (KDelete <$> recipientMessageKeys m))%list).
  assert (Hb' : whole before rows batch') by (eapply whole_add; [done|apply Hsub; by left|done|done]).
  assert (Hk : KDelete k ∈ batch') by (apply elem_of_app; right; by left).
  assert (Hold : forall o, o ∈ batch -> o ∈ batch') by (intros o Ho; apply elem_of_app; by left).
  assert (Hgo : forall i' pend rem cs, messagesLoop ctx fails before i' l (if (pend =? 0)%nat then [] else batch') pend rem cs = (commits', n, err) ->
    Forall (whole before rows) cs -> (pend = 0%nat -> batch' ∈ cs) -> (forall b, b ∈ commits -> b ∈ cs) ->
    Forall (whole before rows) commits' /\ (forall b, b ∈ commits -> b ∈ commits') /\
    (err = None -> (forall o, o ∈ batch -> exists b, b ∈ commits' /\ o ∈ b) /\
      forall k' v' m, (k', v') ∈ (k, v) :: l -> UnmarshalMessage v' = Ok m -> expired (M_CreatedAt m) before = true -> exists b, b ∈ commits' /\ KDelete k' ∈ b)).
  { intros i' pend rem cs Hrun Hcs Hin Hmore.
    assert (Hw : whole before rows (if (pend =? 0)%nat then [] else batch')) by (destruct (_ =? _)%nat; [by intros o ?%elem_of_nil|done]).
    destruct (IH _ _ _ _ _ _ _ _ Hsub' Hw Hcs (ltac:(intros ->; done)) Hrun) as (H1 & H2 & H3). split_and!; [done|auto|]. intros He. destruct (H3 He) as [H4 H5].
    assert (Hall : forall o, o ∈ batch' -> exists b, b ∈ commits' /\ o ∈ b).
    { intros o Ho. destruct (Nat.eqb_spec pend 0) as [Hp|Hp]; [|by apply H4]. exists batch'. split; [by apply H2, Hin|done]. }
    split; [auto|]. intros k' v' m' [[= -> ->]|Hk']%elem_of_cons Hu Hx; [by apply Hall|by eapply H5]. }
  destruct (_ <? _)%nat.
  - intros Hrun. by apply (Hgo (S i) (S pending) (removed + 1) commits).
  - destruct (fails (length commits)); [by intros [= <- <- <-]|]. intros Hrun. apply (Hgo (S i) 0%nat (removed + 1) (commits ++ [batch'])%list); [done| | |].
    + apply Forall_app. by split; [|repeat constructor].
    + intros _. apply elem_of_app. right. by left.
    + intros b Hin. apply elem_of_app. by left.
Qed.

(** A message takes its index with it.  Whatever a pass over stored
    messages meets, a batch it committed that deletes a message, or an index
    entry of one, deletes the message and every index entry of it together, and
    only of messages that are stamped and older than the cutoff; a pass that
    reports no error deleted every such message. *)
Theorem message_takes_its_index ctx fails before (d : DB) commits n err :
  TruncateMessagesBefore ctx fails before d = (commits, n, err) ->
  Forall (whole before (kv_iter d "messages:" "messages;")) commits /\
  (err = None -> forall k v m, (k, v) ∈ kv_iter d "messages:" "messages;" -> UnmarshalMessage v = Ok m ->
     expired (M_CreatedAt m) before = true -> exists b, b ∈ commits /\ KDelete k ∈ b).
Proof.
  unfold TruncateMessagesBefore. destruct (time_is_zero before); [by intros [= <- <- <-]|]. intros H.
  apply (messagesLoop_spec ctx fails before (kv_iter d "messages:" "messages;")) in H as (H1 & _ & H2);
    [|done|by intros o ?%elem_of_nil|done|done].
  split; [done|]. intros He. by apply H2.
Qed.

End Retention.
End EventRetention.
