(* ===== verification/EventCounters.v ===== *)
(** * The event store's counters

    Models pebble/timeseries.go and the metrics reads of pebble/store.go: every
    event bumps a counter of its day, hour and minute, and a total over a range
    is read from the coarsest counters that tile it.  The theorems: the tiling
    takes at most five runs of buckets, and it counts exactly the events of the
    range's minutes. *)
From S2P Require Import Prelude GoStrings Encoding KVStore Calendar Classify Events EventStore EventTimeline.
From Stdlib Require Import Ascii.

Module EventCounters.
Import GoStrings Encoding KVStore Calendar Classify Events EventStore EventTimeline.
Local Open Scope string_scope.
Local Open Scope Z_scope.

(** ** Families *)

Inductive counterFamily := dayCounters | hourCounters | minuteCounters.
#[export] Instance counterFamily_eq_dec : EqDecision counterFamily.
Proof. solve_decision. Defined.

Definition fprefix (f : counterFamily) : string :=
  match f with dayCounters => "timeseries:" | hourCounters => "timeseries:hour:" | minuteCounters => "timeseries:minute:" end.
Definition flayout (f : counterFamily) (t : Z) : string :=
  match f with dayCounters => formatDay t | hourCounters => formatHour t | minuteCounters => formatMinute t end.
Definition fstep (f : counterFamily) : Z :=
  match f with dayCounters => Day | hourCounters => Hour | minuteCounters => Minute end.

Definition fkey (f : counterFamily) (tenant bucket ty : string) : string := fprefix f ++ tenant ++ ":" ++ bucket ++ ":" ++ ty.

Abbreviation Metrics := (gmap string Z).

Section Counters.
Context {DB : Type} `{!KV DB} {codec : Codec}.

(** [int64] of a counter, added to what a type has. *)
Definition bump (res : Metrics) (ty : string) (n : Z) : Metrics := <[ty := wrap64 (default 0 (res !! ty) + wrap64 n)]> res.

Definition sumCounters (d : DB) (f : counterFamily) (tenant : string) (from through : Z) (res : Metrics) : Metrics :=
  let base := fprefix f ++ tenant ++ ":" in
  foldl (fun res kv =>
           match cut_last kv.1 ":"%char with
           | None => res
           | Some (_, ty) => bump res ty (decodeUint64 kv.2)
           end)
    res (kv_iter d (base ++ flayout f from) (base ++ flayout f through ++ xFF)).

Definition truncateMinute (t : Z) : Z := t - t mod Minute.

(** One run of the loop: its family, and the last bucket it reads. *)
Definition span (cur last : Z) : counterFamily * Z :=
  let remaining := time_add (time_sub last cur) Minute in
  let '(f, boundary) :=
    if (HourOf cur =? 0) && (MinuteOf cur =? 0) && (Day <=? remaining) then (dayCounters, None)
    else if (MinuteOf cur =? 0) && (Hour <=? remaining) then (hourCounters, Some ((dayOf cur + 1) * Day))
    else (minuteCounters, Some ((cur / Hour) * Hour + Hour)) in
  let n := remaining / fstep f in
  let n := match boundary with None => n | Some b => Z.min n (time_sub b cur / fstep f) end in
  (f, time_add cur ((n - 1) * fstep f)).

(** The loop; [None] is a loop that has not ended. *)
Fixpoint rangeLoop (fuel : nat) (d : DB) (tenant : string) (cur last : Z) (res : Metrics) : option Metrics :=
  if last <? cur then Some res
  else
    match fuel with
    | O => None
    | S fuel =>
        let '(f, through) := span cur last in
        rangeLoop fuel d tenant (time_add through (fstep f)) last (sumCounters d f tenant cur through res)
    end.

(** Five runs are enough: see [five_runs_tile_any_range]. *)
Definition rangeCounters (d : DB) (tenant : string) (start end_ : Z) : option Metrics :=
  rangeLoop 5 d tenant (truncateMinute start) (truncateMinute end_) ∅.

(** ** Reads *)

(** The bounds of the log within a period. *)
Definition logBounds (tenant : string) (start end_ : Z) : string * string :=
  let prefix := "events:" ++ tenant ++ ":" in
  (if time_is_zero end_ then prefix else prefix ++ Sprintf_019d (descending end_) ++ ":",
   if time_is_zero start then prefix ++ xFF else prefix ++ Sprintf_019d (wrap64 (descending start + 1)) ++ ":").

Definition logEvents (d : DB) (tenant : string) (start end_ : Z) : list EmailEvent :=
  decoded (kv_iter d (logBounds tenant start end_).1 (logBounds tenant start end_).2).

Definition countTypes (es : list EmailEvent) : Metrics :=
  foldl (fun res e => <[typeStr (Type_ e) := default 0 (res !! typeStr (Type_ e)) + 1]> res) ∅ es.

Inductive granularity := GMinute | GHour | GDay | GOther.

Definition gfamily (g : granularity) : option counterFamily :=
  match g with GMinute => Some minuteCounters | GHour => Some hourCounters | GDay => Some dayCounters | GOther => None end.

(** The bucket and the type a counter's key names. *)
Definition splitBucket (f : counterFamily) (k : string) : option (string * string) :=
  match f, Split k ":"%char with
  | dayCounters, _ :: _ :: b :: ty :: _ => Some (b, ty)
  | hourCounters, _ :: _ :: _ :: b :: ty :: _ => Some (b, ty)
  | minuteCounters, _ :: _ :: _ :: b1 :: b2 :: ty :: _ => Some (b1 ++ ":" ++ b2, ty)
  | _, _ => None
  end.

Definition setIn (res : gmap string Metrics) (bucket ty : string) (n : Z) : gmap string Metrics :=
  <[bucket := <[ty := n]> (default ∅ (res !! bucket))]> res.

Definition seriesOf (d : DB) (f : counterFamily) (tenant : string) (start end_ : Z) : gmap string Metrics :=
  let base := fprefix f ++ tenant ++ ":" in
  let lo := if time_is_zero start then base else base ++ flayout f start in
  let hi := if time_is_zero end_ then base ++ xFF else base ++ flayout f end_ ++ xFF in
  foldl (fun res kv =>
           match splitBucket f kv.1 with
           | None => res
           | Some (b, ty) => setIn res b ty (wrap64 (decodeUint64 kv.2))
           end) ∅ (kv_iter d lo hi).

(** How the fallback over the log spells a bucket. *)
Definition logBucket (g : granularity) (t : Z) : string :=
  match g with
  | GMinute => formatMinute t
  | GHour => formatHour t ++ ":00"
  | GDay | GOther => formatDay t
  end.

Definition logSeries (d : DB) (tenant : string) (start end_ : Z) (g : granularity) : gmap string Metrics :=
  foldl (fun res e =>
           let b := logBucket g (Timestamp e) in let ty := typeStr (Type_ e) in
           setIn res b ty (default 0 (default ∅ (res !! b) !! ty) + 1)) ∅ (logEvents d tenant start end_).

Definition GetTimeSeriesMetrics (d : DB) (tenant : string) (start end_ : Z) (g : granularity) : gmap string Metrics :=
  match gfamily g with
  | Some f =>
      let res := seriesOf d f tenant start end_ in
      if bool_decide (res = ∅) then logSeries d tenant start end_ g else res
  | None => logSeries d tenant start end_ g
  end.

(** The counters kept for all time. *)
Definition allTime (d : DB) (tenant : string) : Metrics :=
  let prefix := "metrics:" ++ tenant ++ ":" in
  foldl (fun res kv =>
           let parts := Split kv.1 ":"%char in
           if (length parts <? 3)%nat then res
           else <[default "" (list.last parts) := wrap64 (decodeUint64 kv.2)]> res)
    ∅ (kv_iter d prefix (prefix ++ xFF)).

Definition sumSeries (ts : gmap string Metrics) : Metrics :=
  map_fold (fun _ m acc => map_fold (fun ty n acc => bump acc ty n) acc m) ∅ ts.

Definition GetMetrics (d : DB) (tenant : string) (start end_ : Z) : Metrics :=
  if time_is_zero start && time_is_zero end_ then allTime d tenant
  else if negb (time_is_zero start) && negb (time_is_zero end_) then
    if time_before end_ start then ∅
    else
      let res := default ∅ (rangeCounters d tenant start end_) in
      if bool_decide (res = ∅) then countTypes (logEvents d tenant start end_) else res
  else
    let ts := GetTimeSeriesMetrics d tenant start end_ GMinute in
    if bool_decide (ts = ∅) then countTypes (logEvents d tenant start end_) else sumSeries ts.

(** ** Five runs *)

(** A range given in minutes since year 1. *)
Definition inRange (c l : Z) : Prop := 0 <= c /\ (l - c) * Minute + Hour <= maxInt64 /\ l * Minute < daysBeforeYear 9999 * Day.

(** How many minutes a bucket of a family has. *)
Definition width (f : counterFamily) : Z := match f with dayCounters => 1440 | hourCounters => 60 | minuteCounters => 1 end.

Lemma fstep_width f : fstep f = width f * Minute.
Proof. by destruct f. Qed.

(** The run that starts at minute [c]: its family and its number of buckets. *)
Definition run_of (c l : Z) : counterFamily * Z :=
  let rem := l - c + 1 in
  if (c mod 1440 =? 0) && (1440 <=? rem) then (dayCounters, rem / 1440)
  else if (c mod 60 =? 0) && (60 <=? rem) then (hourCounters, Z.min (rem / 60) (((c / 1440 + 1) * 1440 - c) / 60))
  else (minuteCounters, Z.min rem (c / 60 * 60 + 60 - c)).

Lemma div_scale a b k : 0 < b -> 0 < k -> a * k / (b * k) = a / b.
Proof. intros. by rewrite Z.div_mul_cancel_r by lia. Qed.

Lemma time_sub_small a b : minInt64 <= a - b <= maxInt64 -> time_sub a b = a - b.
Proof. unfold time_sub, sat64. lia. Qed.

Lemma span_run c l : inRange c l -> c <= l ->
  span (c * Minute) (l * Minute) = (let '(f, n) := run_of c l in (f, (c + (n - 1) * width f) * Minute)).
Proof.
  intros (Hc & Hl & _) Hcl. unfold span, run_of.
  assert (Hpos : 0 < Minute) by done. assert (Hrem : time_add (time_sub (l * Minute) (c * Minute)) Minute = (l - c + 1) * Minute).
  { rewrite time_sub_small; [unfold time_add; lia|]. unfold Hour, Minute, Second, minInt64, maxInt64 in *. lia. }
  rewrite Hrem. set (rem := l - c + 1).
  assert (Hh : HourOf (c * Minute) = c / 60 mod 24) by (unfold HourOf, Hour; by rewrite div_scale).
  assert (Hm : MinuteOf (c * Minute) = c mod 60) by (unfold MinuteOf; by rewrite Z.div_mul by lia).
  assert (Hd : dayOf (c * Minute) = c / 1440) by (unfold dayOf, Day, Hour; rewrite Z.mul_assoc, div_scale by done; done).
  assert (Hday : (Day <=? rem * Minute) = (1440 <=? rem)) by (unfold Day, Hour, Minute, Second; destruct (Z.leb_spec 1440 rem); [apply Z.leb_le|apply Z.leb_gt]; lia).
  assert (Hhour : (Hour <=? rem * Minute) = (60 <=? rem)) by (unfold Hour, Minute, Second; destruct (Z.leb_spec 60 rem); [apply Z.leb_le|apply Z.leb_gt]; lia).
  assert (Hzero : (c / 60 mod 24 =? 0) && (c mod 60 =? 0) = (c mod 1440 =? 0)) by (clear; Z.div_mod_to_equations; lia).
  rewrite Hh, Hm, Hd, Hday, Hhour, Hzero.
  destruct ((c mod 1440 =? 0) && (1440 <=? rem)).
  - cbn [fstep width]. f_equal. unfold time_add. replace Day with (1440 * Minute) by done. rewrite div_scale by done. lia.
  - destruct ((c mod 60 =? 0) && (60 <=? rem)) eqn:E2.
    + cbn [fstep width]. f_equal. unfold time_add.
      assert (Hb : time_sub ((c / 1440 + 1) * Day) (c * Minute) = ((c / 1440 + 1) * 1440 - c) * Minute).
      { replace Day with (1440 * Minute) by done. rewrite time_sub_small; [lia|]. unfold minInt64, maxInt64, Minute, Second in *.
        pose proof (Z.mod_pos_bound c 1440). pose proof (Z.div_mod c 1440). lia. }
      rewrite Hb. unfold Hour. rewrite !div_scale by done. lia.
    + cbn [fstep width]. f_equal. unfold time_add.
      assert (Hb : time_sub (c * Minute / Hour * Hour + Hour) (c * Minute) = (c / 60 * 60 + 60 - c) * Minute).
      { unfold Hour. rewrite div_scale by done. rewrite time_sub_small; [lia|]. unfold minInt64, maxInt64, Minute, Second in *.
        pose proof (Z.mod_pos_bound c 60). pose proof (Z.div_mod c 60). lia. }
      rewrite Hb. rewrite !Z.div_mul by lia. lia.
Qed.

(** How many runs are left at minute [c]. *)
Definition runs_left (c l : Z) : nat :=
  let rem := l - c + 1 in
  if rem <=? 0 then 0
  else if (c mod 60 =? 0) && (rem <? 60) then 1
  else if (c mod 1440 =? 0) && (rem <? 1440) then 2
  else if c mod 1440 =? 0 then 3
  else if c mod 60 =? 0 then 4
  else 5.

Lemma runs_left_most c l :
  (runs_left c l <= 5)%nat /\ (l - c + 1 <= 0 -> runs_left c l = 0%nat) /\ (c mod 60 = 0 -> l - c + 1 < 60 -> (runs_left c l <= 1)%nat) /\
  (c mod 1440 = 0 -> l - c + 1 < 1440 -> (runs_left c l <= 2)%nat) /\ (c mod 1440 = 0 -> (runs_left c l <= 3)%nat) /\ (c mod 60 = 0 -> (runs_left c l <= 4)%nat).
Proof.
  unfold runs_left. assert (c mod 1440 = 0 -> c mod 60 = 0) by (Z.div_mod_to_equations; lia).
  destruct (Z.leb_spec (l - c + 1) 0), (Z.eqb_spec (c mod 60) 0), (Z.ltb_spec (l - c + 1) 60), (Z.eqb_spec (c mod 1440) 0), (Z.ltb_spec (l - c + 1) 1440);
    cbn [andb]; split_and!; lia.
Qed.

Lemma runs_left_least c l : 1 <= l - c + 1 ->
  (1 <= runs_left c l)%nat /\ (60 <= l - c + 1 -> (2 <= runs_left c l)%nat) /\ (1440 <= l - c + 1 -> (3 <= runs_left c l)%nat) /\
  (c mod 1440 <> 0 -> 60 <= l - c + 1 -> (4 <= runs_left c l)%nat) /\ (c mod 60 <> 0 -> (5 <= runs_left c l)%nat).
Proof.
  intros Hr. unfold runs_left. assert (c mod 1440 = 0 -> c mod 60 = 0) by (Z.div_mod_to_equations; lia).
  destruct (Z.leb_spec (l - c + 1) 0), (Z.eqb_spec (c mod 60) 0), (Z.ltb_spec (l - c + 1) 60), (Z.eqb_spec (c mod 1440) 0), (Z.ltb_spec (l - c + 1) 1440);
    cbn [andb]; split_and!; lia.
Qed.

(** What a run is for. *)
Definition run_ok (c l n w : Z) : Prop :=
  1 <= n /\ c mod w = 0 /\ c + n * w <= l + 1 /\ (runs_left (c + n * w) l < runs_left c l)%nat.

Lemma run_days c l : c mod 1440 = 0 -> 1440 <= l - c + 1 -> run_ok c l ((l - c + 1) / 1440) 1440.
Proof.
  intros Hd Hr. set (q := (l - c + 1) / 1440).
  assert (Hq : 1 <= q /\ q * 1440 <= l - c + 1 < q * 1440 + 1440) by (unfold q; Z.div_mod_to_equations; lia).
  destruct (runs_left_least c l) as (_ & _ & L & _); [lia|]. destruct (runs_left_most (c + q * 1440) l) as (_ & _ & _ & M & _).
  assert ((c + q * 1440) mod 1440 = 0) by (rewrite Z.mod_add; lia). split_and!; [lia|done|lia|]. specialize (L Hr). lia.
Qed.

Lemma run_hours c l : 0 <= c -> c mod 60 = 0 -> 60 <= l - c + 1 -> ~ (c mod 1440 = 0 /\ 1440 <= l - c + 1) ->
  run_ok c l (Z.min ((l - c + 1) / 60) (((c / 1440 + 1) * 1440 - c) / 60)) 60.
Proof.
  intros Hc Hh Hr Hnd. set (q := (l - c + 1) / 60). set (b := ((c / 1440 + 1) * 1440 - c) / 60).
  assert (Hq : 1 <= q /\ q * 60 <= l - c + 1 < q * 60 + 60) by (unfold q; clear - Hr; Z.div_mod_to_equations; lia).
  assert (Hb : c + b * 60 = (c / 1440 + 1) * 1440 /\ 1 <= b /\ (c mod 1440 = 0 -> b = 24)) by (unfold b; clear - Hh Hc; Z.div_mod_to_equations; lia).
  destruct (runs_left_least c l) as (_ & L2 & _ & L4 & _); [lia|]. specialize (L2 Hr).
  destruct (Z.min_spec q b) as [[Hlt ->]|[Hge ->]]; unfold run_ok.
  - destruct (runs_left_most (c + q * 60) l) as (_ & _ & M & _).
    assert ((c + q * 60) mod 60 = 0) by (rewrite Z.mod_add; lia). split_and!; [lia|done|lia|lia].
  - destruct (runs_left_most (c + b * 60) l) as (_ & _ & _ & _ & M & _).
    assert (Hm : (c + b * 60) mod 1440 = 0) by (rewrite (proj1 Hb); apply Z.mod_mul; lia). split_and!; [lia|done|lia|].
    specialize (M Hm). assert (Hd : c mod 1440 <> 0) by lia. specialize (L4 Hd Hr). lia.
Qed.

Lemma run_minutes c l : 0 <= c -> c <= l -> ~ (c mod 60 = 0 /\ 60 <= l - c + 1) -> run_ok c l (Z.min (l - c + 1) (c / 60 * 60 + 60 - c)) 1.
Proof.
  intros Hc Hcl Hn. set (h := c / 60 * 60 + 60 - c).
  assert (Hh : 1 <= h <= 60 /\ (c + h) mod 60 = 0 /\ (c mod 60 = 0 -> h = 60)) by (unfold h; clear; Z.div_mod_to_equations; lia).
  destruct (runs_left_least c l) as (L1 & _ & _ & _ & L5); [lia|].
  destruct (Z.min_spec (l - c + 1) h) as [[Hlt ->]|[Hge ->]]; unfold run_ok; rewrite Z.mul_1_r.
  - destruct (runs_left_most (c + (l - c + 1)) l) as (_ & M & _). specialize (M ltac:(lia)). split_and!; [lia|apply Z.mod_1_r|lia|lia].
  - destruct (runs_left_most (c + h) l) as (_ & M0 & _ & _ & _ & M4). split_and!; [lia|apply Z.mod_1_r|lia|].
    destruct (decide (c mod 60 = 0)) as [E|E]; [specialize (M0 ltac:(lia)); lia|]. specialize (L5 E). specialize (M4 ltac:(lia)). lia.
Qed.

Lemma run_of_spec c l : 0 <= c <= l -> let '(f, n) := run_of c l in run_ok c l n (width f).
Proof.
  intros Hc. unfold run_of. assert (Hdh : c mod 1440 = 0 -> c mod 60 = 0) by (clear; Z.div_mod_to_equations; lia).
  destruct ((c mod 1440 =? 0) && (1440 <=? l - c + 1)) eqn:E1; [apply run_days; lia|].
  destruct ((c mod 60 =? 0) && (60 <=? l - c + 1)) eqn:E2; [apply run_hours; lia|apply run_minutes; lia].
Qed.

Lemma run_in_range c l : inRange c l -> c <= l -> let '(f, n) := run_of c l in inRange (c + n * width f) l.
Proof.
  intros (Hc & Hl & Hy) Hcl. pose proof (run_of_spec c l ltac:(lia)) as H. destruct (run_of c l) as [f n]. destruct H as (Hn & _ & Hle & _).
  assert (1 <= width f) by (by destruct f). split_and!; [nia| |done]. unfold Minute, Second in *. nia.
Qed.

Lemma rangeLoop_total (d : DB) tenant l : forall fuel c res, inRange c l -> (runs_left c l <= fuel)%nat ->
  is_Some (rangeLoop fuel d tenant (c * Minute) (l * Minute) res).
Proof.
  induction fuel as [|fuel IH]; intros c res Hr Hf; cbn [rangeLoop]; (destruct (Z.ltb_spec (l * Minute) (c * Minute)) as [Hlt|Hge]; [by eexists|]);
    (assert (Hcl : c <= l) by (unfold Minute, Second in *; lia)).
  - destruct (runs_left_least c l ltac:(lia)) as [? _]. lia.
  - rewrite (span_run c l) by done. pose proof (run_in_range c l Hr Hcl) as Hr'. pose proof (run_of_spec c l ltac:(destruct Hr; lia)) as H.
    destruct (run_of c l) as [f n]. destruct H as (_ & _ & _ & Hlt).
    replace (time_add ((c + (n - 1) * width f) * Minute) (fstep f)) with ((c + n * width f) * Minute) by (unfold time_add; rewrite fstep_width; lia).
    apply IH; [done|lia].
Qed.

Lemma truncateMinute_eq t : truncateMinute t = t / Minute * Minute.
Proof. unfold truncateMinute. pose proof (Z.div_mod t Minute). assert (0 < Minute) by done. lia. Qed.

(** Five runs tile any range.  However long the range, its counters are
    read in at most five runs of days, hours and minutes, and the loop over them
    ends. *)
Theorem five_runs_tile_any_range d tenant start end_ :
  inRange (start / Minute) (end_ / Minute) -> is_Some (rangeCounters d tenant start end_).
Proof.
  intros H. unfold rangeCounters. rewrite !truncateMinute_eq. apply rangeLoop_total; [done|].
  apply (runs_left_most (start / Minute) (end_ / Minute)).
Qed.

End Counters.

(** ** Eight bytes *)

Lemma le_roundtrip n : forall z, 0 <= z < 256 ^ Z.of_nat n -> le_value n (le_bytes n z) = z.
Proof.
  induction n as [|n IH]; intros z Hz; [simpl in *; lia|]. cbn [le_bytes le_value]. rewrite code_chr by (apply Z.mod_pos_bound; lia).
  rewrite Nat2Z.inj_succ, Z.pow_succ_r in Hz by lia. rewrite IH; [pose proof (Z.div_mod z 256); lia|].
  split; [apply Z.div_pos; lia|apply Z.div_lt_upper_bound; lia].
Qed.

Lemma le_value_nonneg n : forall s, 0 <= le_value n s.
Proof. induction n as [|n IH]; intros [|c s]; cbn [le_value]; try lia. specialize (IH s). pose proof (code_range c). lia. Qed.

Lemma le_length n z : String.length (le_bytes n z) = n.
Proof. revert z. induction n as [|n IH]; intros z; [done|]. cbn [le_bytes]. simpl. by rewrite IH. Qed.

Lemma decode_put z : decodeUint64 (PutUint64 z) = z mod 2 ^ 64.
Proof.
  unfold decodeUint64, PutUint64. rewrite le_length. cbn [Nat.ltb Nat.leb]. apply le_roundtrip.
  change (256 ^ Z.of_nat 8) with (2 ^ 64). apply Z.mod_pos_bound. lia.
Qed.

Lemma put_mod z : PutUint64 (z mod 2 ^ 64) = PutUint64 z.
Proof. unfold PutUint64. by rewrite Z.mod_mod by lia. Qed.

(** A counter bumped [n] times. *)
Definition tally (n : nat) : option string := match n with O => None | S _ => Some (PutUint64 (Z.of_nat n)) end.

Lemma tally_merge n : Some (counterMerge (tally n) (PutUint64 1)) = tally (S n).
Proof.
  destruct n as [|n]; cbn [tally counterMerge]; rewrite ?decode_put; [done|]. cbn [tally].
  change (1 mod 2 ^ 64) with 1. rewrite <- put_mod, Z.add_mod_idemp_l, put_mod by lia. do 2 f_equal. lia.
Qed.

(** ** Tallies *)

Definition occurs (k : string) (ks : list string) : nat := length (filter (fun x => x = k) ks).

Lemma occurs_app k a b : occurs k (a ++ b) = (occurs k a + occurs k b)%nat.
Proof. unfold occurs. by rewrite filter_app, length_app. Qed.

Definition counterKeys (e : EmailEvent) : list string :=
  (fun f => fkey f (TenantID e) (flayout f (Timestamp e)) (typeStr (Type_ e))) <$> [dayCounters; hourCounters; minuteCounters].

Definition tallied (V : string -> option string) (es : list EmailEvent) : Prop :=
  forall k, HasPrefix k "timeseries:" = true -> V k = tally (occurs k (es ≫= counterKeys)).

Section Tallies.
Context {DB : Type} `{!KV DB, !KVLaws DB counterMerge} {codec : Codec}.

Definition off_series (o : kvop) : Prop := HasPrefix (op_key o) "timeseries:" = false.

Lemma off_series_effects k ops cur : Forall off_series ops -> HasPrefix k "timeseries:" = true -> effects counterMerge k ops cur = cur.
Proof. intros Hp Hk. apply effects_none. eapply Forall_impl; [exact Hp|]. intros o Ho E. unfold off_series in Ho. congruence. Qed.

Lemma increments_tally k ks : forall n, effects counterMerge k (incrementCounter <$> ks) (tally n) = tally (n + occurs k ks)%nat.
Proof.
  induction ks as [|x ks IH]; intros n; [cbn; by rewrite Nat.add_0_r|]. rewrite fmap_cons, effects_cons. unfold occurs. rewrite filter_cons.
  unfold kv_effect, incrementCounter at 1. cbn [op_key]. destruct (decide (x = k)) as [->|Hne].
  - rewrite bool_decide_eq_true_2 by done. cbn [incrementCounter]. rewrite tally_merge, IH. f_equal. unfold occurs. cbn [length]. lia.
  - rewrite bool_decide_eq_false_2 by done. apply IH.
Qed.

Lemma eventOps_tally e val k n : HasPrefix k "timeseries:" = true ->
  effects counterMerge k (eventOps e val) (tally n) = tally (n + occurs k (counterKeys e))%nat.
Proof.
  intros Hk. rewrite <- increments_tally.
  replace (eventOps e val) with ([incrementCounter (metricKey (TenantID e) (typeStr (Type_ e)))] ++ (incrementCounter <$> counterKeys e) ++
    [KSet (eventKey e) val; KSet (eventIdKey (ID e)) (eventIdVal e)])%list by done.
  rewrite !effects_app, (off_series_effects k [_]) by (done || by repeat constructor).
  apply off_series_effects; [by repeat constructor|done].
Qed.

(** The events among operations that could be encoded. *)
Definition written (os : list storeOp) : list EmailEvent :=
  omap (fun o => match o with WriteOp e => if is_ok (MarshalEvent e) then Some e else None | _ => None end) os.

Lemma written_app a b : written (a ++ b) = (written a ++ written b)%list.
Proof. apply omap_app. Qed.

Lemma tallied_add V V' es e : tallied V es -> (forall k, HasPrefix k "timeseries:" = true -> forall n, V k = tally n -> V' k = tally (n + occurs k (counterKeys e))%nat) ->
  tallied V' (es ++ [e]).
Proof.
  intros H Hs k Hk. rewrite (Hs k Hk _ (H k Hk)). rewrite bind_app, occurs_app. cbn [mbind list_bind]. by rewrite app_nil_r.
Qed.

Lemma latestOps_off_series (d : DB) cache e val : Forall off_series (latestOps d cache e val).1.
Proof. unfold latestOps. destruct (_ || _); [|constructor]. simpl. destruct (eqb _ ""); by repeat constructor. Qed.

Lemma apply_tallied w o dn : writes o -> tallied (view w) (written dn) -> tallied (view (apply true o w)) (written (dn ++ [o])).
Proof.
  intros Ho Ht. rewrite written_app.
  assert (Hsame : forall b, (forall k, HasPrefix k "timeseries:" = true -> ahead (w_db w) b k = view w k) -> written [o] = [] ->
    tallied (ahead (w_db w) b) (written dn ++ written [o])) by (intros b Hb ->; rewrite app_nil_r; intros k Hk; rewrite Hb by done; by apply Ht).
  assert (Hcommit : forall b c, tallied (ahead (w_db w) b) (written dn ++ written [o]) ->
    tallied (view (if (500 <=? w_count (staged w (b, c)))%nat then commit true (staged w (b, c)) else staged w (b, c))) (written dn ++ written [o])).
  { intros b c H. destruct (_ <=? _)%nat; [|exact H]. intros k Hk. rewrite view_commit. by apply H. }
  destruct o as [e|m|p|]; [..|done]; cbn [apply].
  - unfold performWrite. destruct (MarshalEvent e) as [val|] eqn:Em; [|apply Hcommit, Hsame; [done|unfold written; simpl; by rewrite Em]].
    assert (Hw : written [WriteOp e] = [e]) by (unfold written; simpl; by rewrite Em). rewrite Hw in *.
    destruct (eqb (MessageID e) "").
    + apply Hcommit. eapply tallied_add; [exact Ht|]. intros k Hk n Hn. rewrite ahead_app. change (ahead (w_db w) (w_batch w) k) with (view w k).
      rewrite Hn. by apply eventOps_tally.
    + pose proof (latestOps_off_series (w_db w) (w_latest w) e val) as Hl. destruct (latestOps (w_db w) (w_latest w) e val) as [ops c]. cbn [fst] in Hl.
      apply Hcommit. eapply tallied_add; [exact Ht|]. intros k Hk n Hn. rewrite ahead_app. change (ahead (w_db w) (w_batch w) k) with (view w k).
      rewrite Hn, effects_app, eventOps_tally by done. apply off_series_effects; [by constructor|done].
  - apply Hcommit, Hsame; [|done]. intros k Hk. unfold performWriteMessage. destruct (MarshalMessage m); [|done]. rewrite ahead_app.
    apply off_series_effects; [|done]. constructor; [done|]. apply Forall_fmap. unfold recipientMessageKeys. apply Forall_fmap, Forall_true. done.
  - apply Hcommit, Hsame; [|done]. intros k Hk. unfold performWriteResource. rewrite ahead_app. apply off_series_effects; [by repeat constructor|done].
Qed.

Lemma closed_tallied ls d : (forall k, kv_get d k = None) -> Forall smooth ls -> w_done (run ls (NewStore d)) = true ->
  tallied (kv_get (w_db (run ls (NewStore d)))) (written (accepted ls (NewStore d))).
Proof.
  intros Hd. apply (closed_run (fun dn V => tallied V (written dn))).
  - intros dn V V' HV H k Hk. rewrite <- HV. by apply H.
  - intros w o dn. apply apply_tallied.
  - intros k _. by rewrite Hd.
Qed.

(** ** What a run of buckets counts *)

(** A tenant whose counters cannot be taken for another family's. *)
Definition plain_tenant (t : string) : Prop := no_colon t /\ t <> "hour" /\ t <> "minute".
Definition countable (e : EmailEvent) : Prop := datable (Timestamp e) /\ plain_tenant (TenantID e).

Definition ekey (f : counterFamily) (e : EmailEvent) : string := fkey f (TenantID e) (flayout f (Timestamp e)) (typeStr (Type_ e)).

Lemma flayout_compare f t u : datable t -> datable u -> String.compare (flayout f t) (flayout f u) = Z.compare (t / fstep f) (u / fstep f).
Proof. destruct f; [apply formatDay_compare|apply formatHour_compare|apply formatMinute_compare]. Qed.

Lemma flayout_length f t u : datable t -> datable u -> String.length (flayout f t) = String.length (flayout f u).
Proof. intros. destruct f; cbn [flayout]; [by rewrite !formatDay_length|by rewrite !formatHour_length|by rewrite !formatMinute_length]. Qed.

Lemma typeStr_no_colon t : cut_last (typeStr t) ":"%char = None.
Proof. by destruct t. Qed.

Lemma cut_fkey f t b ty : cut_last (fkey f t b (typeStr ty)) ":"%char = Some (fprefix f ++ t ++ ":" ++ b, typeStr ty).
Proof.
  unfold fkey. replace (fprefix f ++ t ++ ":" ++ b ++ ":" ++ typeStr ty) with ((fprefix f ++ t ++ ":" ++ b) ++ String ":" (typeStr ty))
    by (by rewrite !string_app_assoc). apply cut_last_app, typeStr_no_colon.
Qed.

Lemma fkey_family f f' t t' r r' : plain_tenant t -> plain_tenant t' ->
  fprefix f ++ t ++ ":" ++ r = fprefix f' ++ t' ++ ":" ++ r' -> f = f' /\ t = t' /\ r = r'.
Proof.
  intros (Hc & Hh & Hm) (Hc' & Hh' & Hm').
  assert (Hday : forall t0 r0 x y, no_colon t0 -> t0 <> x -> no_colon x -> "timeseries:" ++ t0 ++ ":" ++ r0 <> "timeseries:" ++ x ++ ":" ++ y).
  { intros t0 r0 x y H0 Hne Hx E. apply (inj (String.append "timeseries:")), (sep_inj ":"%char) in E as [? _]; [done|done|done]. }
  assert (Hsep : forall p, p ++ t ++ ":" ++ r = p ++ t' ++ ":" ++ r' -> t = t' /\ r = r').
  { intros p E. apply (inj (String.append p)), (sep_inj ":"%char) in E; done. }
  destruct f, f'; cbn [fprefix]; intros E; try (by apply Hsep in E as [-> ->]); exfalso.
  - exact (Hday t r "hour" (t' ++ ":" ++ r') Hc Hh eq_refl E).
  - exact (Hday t r "minute" (t' ++ ":" ++ r') Hc Hm eq_refl E).
  - exact (Hday t' r' "hour" (t ++ ":" ++ r) Hc' Hh' eq_refl (eq_sym E)).
  - apply (Hday "hour" (t ++ ":" ++ r) "minute" (t' ++ ":" ++ r')); [done|done|done|exact E].
  - exact (Hday t' r' "minute" (t ++ ":" ++ r) Hc' Hm' eq_refl (eq_sym E)).
  - apply (Hday "minute" (t ++ ":" ++ r) "hour" (t' ++ ":" ++ r')); [done|done|done|exact E].
Qed.

(** A family's own keys are the only ones that can equal one of them. *)
Lemma occurs_family f es k : Forall countable es -> (exists t r, plain_tenant t /\ k = fprefix f ++ t ++ ":" ++ r) ->
  occurs k (es ≫= counterKeys) = length (filter (fun e => ekey f e = k) es).
Proof.
  intros Hes (t & r & Ht & ->). induction Hes as [|e es [_ He] _ IH]; [done|].
  change ((e :: es) ≫= counterKeys) with (counterKeys e ++ (es ≫= counterKeys))%list. rewrite occurs_app, IH.
  rewrite filter_cons. assert (H1 : occurs (fprefix f ++ t ++ ":" ++ r) (counterKeys e) =
    (if decide (ekey f e = fprefix f ++ t ++ ":" ++ r) then 1 else 0)%nat); [|rewrite H1; by destruct (decide _)].
  assert (Hne : forall f', f' <> f -> ekey f' e <> fprefix f ++ t ++ ":" ++ r).
  { intros f' Hf E. unfold ekey, fkey in E. apply fkey_family in E as [? _]; [done|done|done]. }
  unfold counterKeys, occurs. cbn [fmap list_fmap]. rewrite !filter_cons, filter_nil.
  change (fkey ?g (TenantID e) (flayout ?g (Timestamp e)) (typeStr (Type_ e))) with (ekey g e).
  destruct f; rewrite ?(decide_False (P := ekey dayCounters e = _)), ?(decide_False (P := ekey hourCounters e = _)), ?(decide_False (P := ekey minuteCounters e = _))
    by (by apply Hne); by destruct (decide _).
Qed.

Lemma bucket_bounds f tenant e from through : datable (Timestamp e) -> datable from -> datable through -> TenantID e = tenant ->
  String.le ((fprefix f ++ tenant ++ ":") ++ flayout f from) (ekey f e) /\ slt (ekey f e) ((fprefix f ++ tenant ++ ":") ++ flayout f through ++ xFF) <->
  from / fstep f <= Timestamp e / fstep f <= through / fstep f.
Proof.
  intros He Hf Ht <-. unfold ekey, fkey. set (p := fprefix f ++ TenantID e ++ ":").
  replace (fprefix f ++ TenantID e ++ ":" ++ flayout f (Timestamp e) ++ ":" ++ typeStr (Type_ e)) with
    (p ++ flayout f (Timestamp e) ++ ":" ++ typeStr (Type_ e)) by (unfold p; by rewrite !string_app_assoc).
  rewrite le_app, slt_app, le_not_slt. unfold slt, String.ltb.
  rewrite compare_app_len by (by apply flayout_length). rewrite flayout_compare by done.
  replace (flayout f from) with (flayout f from ++ "") by apply string_app_nil.
  rewrite compare_app_len by (by apply flayout_length). rewrite flayout_compare by done.
  change (":" ++ typeStr (Type_ e)) with (String ":" (typeStr (Type_ e))).
  change (String.compare (String ":" (typeStr (Type_ e))) xFF) with Lt. change (String.compare (String ":" (typeStr (Type_ e))) "") with Gt.
  destruct (Z.compare_spec (Timestamp e / fstep f) (from / fstep f)), (Z.compare_spec (Timestamp e / fstep f) (through / fstep f)); split; try done; try lia.
  all: intros [? ?]; done || lia.
Qed.

(** Over distinct keys, the events that have one of them. *)
Lemma sum_occurs (g : EmailEvent -> string) es ks : NoDup ks ->
  foldr (fun k acc => (length (filter (fun e => g e = k) es) + acc)%nat) 0%nat ks = length (filter (fun e => g e ∈ ks) es).
Proof.
  induction 1 as [|k ks Hk Hnd IH]; cbn [foldr].
  - induction es as [|e es IH]; [done|]. rewrite filter_cons, decide_False; [done|]. by intros ?%elem_of_nil.
  - rewrite IH. clear IH. induction es as [|e es IH]; [done|]. rewrite !filter_cons.
    destruct (decide (g e = k)) as [<-|Hne]; [rewrite (decide_False (P := g e ∈ ks)), (decide_True (P := g e ∈ g e :: ks)) by (done || by left); cbn [length]; lia|].
    destruct (decide (g e ∈ ks)) as [Hin|Hn]; [rewrite decide_True by (by right); cbn [length]; lia|].
    rewrite decide_False by (by intros [?|?]%elem_of_cons). lia.
Qed.

Lemma bump_total res ty n ty' : 0 <= n -> 0 <= default 0 (res !! ty) -> default 0 (res !! ty) + n <= maxInt64 ->
  default 0 (bump res ty n !! ty') = default 0 (res !! ty') + (if decide (ty = ty') then n else 0).
Proof.
  intros Hn Hr Hb. unfold bump. destruct (decide (ty = ty')) as [<-|Hne]; [|rewrite lookup_insert_ne by done; lia].
  rewrite lookup_insert_eq. cbn [default]. rewrite (wrap64_id n) by (unfold minInt64; lia). apply wrap64_id. unfold minInt64. lia.
Qed.

(** The fold over counters whose sum fits adds them up by type. *)
Lemma fold_bump (l : list (string * string)) : forall res,
  (forall k v, (k, v) ∈ l -> exists p ty, cut_last k ":"%char = Some (p, ty)) -> (forall v, 0 <= decodeUint64 v) ->
  (forall ty, 0 <= default 0 (res !! ty)) ->
  (forall ty, default 0 (res !! ty) + foldr (fun kv acc => decodeUint64 kv.2 + acc) 0 l <= maxInt64) ->
  forall ty, default 0 (foldl (fun res kv => match cut_last kv.1 ":"%char with None => res | Some (_, ty) => bump res ty (decodeUint64 kv.2) end) res l !! ty) =
    default 0 (res !! ty) + foldr (fun kv acc => decodeUint64 kv.2 + acc) 0 (filter (fun kv => snd <$> cut_last kv.1 ":"%char = Some ty) l).
Proof.
  induction l as [|[k v] l IH]; intros res Hcut Hpos Hres Hsum ty; [simpl; lia|]. cbn [foldl fst snd]. destruct (Hcut k v ltac:(by left)) as (p & ty0 & Hk).
  rewrite Hk. assert (Hl : 0 <= foldr (fun kv acc => decodeUint64 kv.2 + acc) 0 l) by (clear - Hpos; induction l as [|x l IH]; simpl; [lia|specialize (Hpos x.2); lia]).
  assert (Hb : forall ty', default 0 (bump res ty0 (decodeUint64 v) !! ty') = default 0 (res !! ty') + (if decide (ty0 = ty') then decodeUint64 v else 0)).
  { intros ty'. apply bump_total; [done|done|]. specialize (Hsum ty0). simpl in Hsum. lia. }
  rewrite IH; [|intros; eapply Hcut; by right|done| |].
  - rewrite Hb, filter_cons. cbn [fst]. rewrite Hk. cbn [fmap option_fmap option_map snd].
    destruct (decide (ty0 = ty)) as [->|Hne]; [rewrite decide_True by done; cbn [foldr snd]; lia|].
    rewrite decide_False by congruence. lia.
  - intros ty'. rewrite Hb. specialize (Hres ty'). specialize (Hpos v). destruct (decide _); lia.
  - intros ty'. rewrite Hb. specialize (Hsum ty'). specialize (Hpos v). simpl in Hsum. destruct (decide _); lia.
Qed.

(** The events of a tenant whose bucket lies in a run. *)
Definition inRun (f : counterFamily) (tenant : string) (from through : Z) (e : EmailEvent) : Prop :=
  TenantID e = tenant /\ from / fstep f <= Timestamp e / fstep f <= through / fstep f.
#[local] Instance inRun_dec f tenant from through e : Decision (inRun f tenant from through e) := _.

Definition runKeys (d : DB) (f : counterFamily) (tenant : string) (from through : Z) : list (string * string) :=
  let base := fprefix f ++ tenant ++ ":" in kv_iter d (base ++ flayout f from) (base ++ flayout f through ++ xFF).

Lemma fprefix_series f r : HasPrefix (fprefix f ++ r) "timeseries:" = true.
Proof. unfold HasPrefix. destruct f; [apply prefix_app|apply (prefix_app "timeseries:" ("hour:" ++ _))|apply (prefix_app "timeseries:" ("minute:" ++ _))]. Qed.

(** A counter in reach belongs to its family and holds its events' number. *)
Lemma runKeys_count d es f tenant from through k v : tallied (kv_get d) es -> Forall countable es -> plain_tenant tenant -> Z.of_nat (length es) <= maxInt64 ->
  (k, v) ∈ runKeys d f tenant from through ->
  decodeUint64 v = Z.of_nat (length (filter (fun e => ekey f e = k) es)) /\ exists e, e ∈ es /\ ekey f e = k /\ TenantID e = tenant.
Proof.
  intros Ht Hes Hp Hlen. unfold runKeys. intros (Hv & Hlo & Hhi)%kv_iter_spec. destruct (between_prefix _ _ _ _ Hlo Hhi) as [r ->].
  assert (Hr : exists t r', plain_tenant t /\ (fprefix f ++ tenant ++ ":") ++ r = fprefix f ++ t ++ ":" ++ r') by (exists tenant, r; by rewrite !string_app_assoc).
  assert (Hpre : HasPrefix ((fprefix f ++ tenant ++ ":") ++ r) "timeseries:" = true).
  { rewrite string_app_assoc. apply fprefix_series. }
  rewrite (Ht _ Hpre), (occurs_family f) in Hv by done. revert Hv.
  set (n := length _). assert (Hn : (n <= length es)%nat) by apply length_filter. intros Hv.
  destruct n as [|n'] eqn:En; [done|]. injection Hv as <-. split.
  - rewrite decode_put. apply Z.mod_small. unfold maxInt64 in Hlen. lia.
  - destruct (filter (fun e => ekey f e = (fprefix f ++ tenant ++ ":") ++ r) es) as [|e l] eqn:E; [done|].
    assert (Hin : e ∈ filter (fun e => ekey f e = (fprefix f ++ tenant ++ ":") ++ r) es) by (rewrite E; by left).
    apply list_elem_of_filter in Hin as [He Hin]. exists e. split_and!; [done|done|].
    destruct (proj1 (Forall_forall _ _) Hes e Hin) as [_ Hpe]. unfold ekey, fkey in He. rewrite !string_app_assoc in He.
    by apply fkey_family in He as (_ & ? & _).
Qed.

Definition countIf (P : EmailEvent -> Prop) `{!forall e, Decision (P e)} (es : list EmailEvent) : Z := Z.of_nat (length (filter P es)).

Lemma countIf_iff (P Q : EmailEvent -> Prop) `{!forall e, Decision (P e), !forall e, Decision (Q e)} es :
  (forall e, e ∈ es -> P e <-> Q e) -> countIf P es = countIf Q es.
Proof.
  intros HPQ. unfold countIf. f_equal. induction es as [|e es IH]; [done|]. rewrite !filter_cons.
  assert (He : P e <-> Q e) by (apply HPQ; by left). rewrite (decide_ext _ _ _ _ He).
  specialize (IH (fun e' Hin => HPQ e' (list_elem_of_further _ _ _ Hin))). destruct (decide (Q e)); cbn [length]; lia.
Qed.

(** The sum of a run's counters of some keys. *)
Lemma runKeys_sum d es f tenant from through (P : string * string -> Prop) `{!forall kv, Decision (P kv)} :
  tallied (kv_get d) es -> Forall countable es -> plain_tenant tenant -> Z.of_nat (length es) <= maxInt64 ->
  foldr (fun kv acc => decodeUint64 kv.2 + acc) 0 (filter P (runKeys d f tenant from through)) =
  countIf (fun e => ekey f e ∈ (filter P (runKeys d f tenant from through)).*1) es.
Proof.
  intros Ht Hes Hp Hlen. unfold countIf. rewrite <- (sum_occurs (ekey f) es).
  2:{ apply (sublist_NoDup _ (runKeys d f tenant from through).*1); [apply (kv_iter_NoDup counterMerge)|apply fmap_sublist, sublist_filter]. }
  assert (Hv : forall kv, kv ∈ filter P (runKeys d f tenant from through) -> decodeUint64 kv.2 = Z.of_nat (length (filter (fun e => ekey f e = kv.1) es))).
  { intros [k v] [_ Hin]%list_elem_of_filter. by eapply runKeys_count. }
  induction (filter P _) as [|kv l IH]; [done|]. rewrite fmap_cons. cbn [foldr]. rewrite Hv by (by left). rewrite IH by (intros; apply Hv; by right). lia.
Qed.

Lemma filter_everything {A} (l : list A) : filter (fun _ => True) l = l.
Proof. induction l as [|x l IH]; [done|]. by rewrite filter_cons, decide_True, IH. Qed.

(** Which of a run's keys are a type's. *)
Definition ofType (ty : string) (kv : string * string) : Prop := snd <$> cut_last kv.1 ":"%char = Some ty.
#[local] Instance ofType_dec ty kv : Decision (ofType ty kv).
Proof. unfold ofType. apply _. Defined.

(** An event's counters are there. *)
Lemma ekey_stored (d : DB) es f e : tallied (kv_get d) es -> Forall countable es -> e ∈ es -> is_Some (kv_get d (ekey f e)).
Proof.
  intros Ht Hes He. destruct (proj1 (Forall_forall _ _) Hes e He) as [_ Hpe].
  assert (Hn : (1 <= occurs (ekey f e) (es ≫= counterKeys))%nat).
  { rewrite (occurs_family f) by (done || by exists (TenantID e), (flayout f (Timestamp e) ++ ":" ++ typeStr (Type_ e))).
    assert (Hin : e ∈ filter (fun x => ekey f x = ekey f e) es) by (by apply list_elem_of_filter).
    destruct (filter _ es); [by apply elem_of_nil in Hin|simpl; lia]. }
  assert (Hpre : HasPrefix (ekey f e) "timeseries:" = true) by apply fprefix_series.
  rewrite (Ht _ Hpre). destruct (occurs _ _) as [|n]; [lia|by eexists].
Qed.

Lemma ekey_in_run d es f tenant from through e : tallied (kv_get d) es -> Forall countable es -> plain_tenant tenant -> datable from -> datable through ->
  e ∈ es -> (exists v, (ekey f e, v) ∈ runKeys d f tenant from through) <-> inRun f tenant from through e.
Proof.
  intros Ht Hes Hp Hf Hth He. destruct (proj1 (Forall_forall _ _) Hes e He) as [Hd Hpe]. unfold runKeys, inRun. split.
  - intros [v (_ & Hlo & Hhi)%kv_iter_spec]. assert (Hten : TenantID e = tenant).
    { destruct (between_prefix _ _ _ _ Hlo Hhi) as [r E]. unfold ekey, fkey in E. rewrite !string_app_assoc in E. by apply fkey_family in E as (_ & ? & _). }
    split; [done|]. apply (bucket_bounds f tenant e from through); done.
  - intros [Hten Hb]. apply (bucket_bounds f tenant e from through) in Hb as [Hlo Hhi]; [|done..].
    destruct (ekey_stored d es f e Ht Hes He) as [v Hv]. exists v. by apply kv_iter_spec.
Qed.

Lemma sumCounters_spec d es f tenant from through res : tallied (kv_get d) es -> Forall countable es -> plain_tenant tenant ->
  datable from -> datable through -> (forall ty, 0 <= default 0 (res !! ty)) ->
  (forall ty, default 0 (res !! ty) + countIf (inRun f tenant from through) es <= maxInt64) -> Z.of_nat (length es) <= maxInt64 ->
  forall ty, default 0 (sumCounters d f tenant from through res !! ty) =
    default 0 (res !! ty) + countIf (fun e => inRun f tenant from through e /\ typeStr (Type_ e) = ty) es.
Proof.
  intros Ht Hes Hp Hf Hth Hres Hsum Hlen ty. unfold sumCounters. fold (runKeys d f tenant from through).
  assert (Hall : foldr (fun kv acc => decodeUint64 kv.2 + acc) 0 (runKeys d f tenant from through) = countIf (inRun f tenant from through) es).
  { assert (E : runKeys d f tenant from through = filter (fun _ => True) (runKeys d f tenant from through)) by (symmetry; apply filter_everything).
    rewrite E, (runKeys_sum d es) by done. apply countIf_iff. intros e He. rewrite <- E, <- (ekey_in_run d es) by done.
    rewrite list_elem_of_fmap. split; [intros [[k v] [-> Hkv]]; by exists v|intros [v Hv]; by exists (ekey f e, v)]. }
  rewrite fold_bump.
  - f_equal. etransitivity; [apply (runKeys_sum d es f tenant from through (ofType ty)); done|]. apply countIf_iff. intros e He.
    rewrite <- (ekey_in_run d es) by done. rewrite list_elem_of_fmap. unfold ofType.
    assert (Hc : snd <$> cut_last (ekey f e) ":"%char = Some (typeStr (Type_ e))) by (unfold ekey; by rewrite cut_fkey).
    split.
    + intros [[k v] [E [Hk Hkv]%list_elem_of_filter]]. cbn [fst] in *. subst k. rewrite Hc in Hk. split; [by exists v|by injection Hk].
    + intros [[v Hv] <-]. exists (ekey f e, v). split; [done|]. by apply list_elem_of_filter.
  - intros k v Hkv. destruct (runKeys_count d es _ _ _ _ _ _ Ht Hes Hp Hlen Hkv) as [_ (e & _ & <- & _)]. eexists _, _. apply cut_fkey.
  - intros v. unfold decodeUint64. destruct (_ <? _)%nat; [done|]. apply le_value_nonneg.
  - done.
  - intros ty'. rewrite Hall. apply Hsum.
Qed.

(** ** What a range counts *)

Lemma countIf_split (R P Q : EmailEvent -> Prop) `{!forall e, Decision (R e), !forall e, Decision (P e), !forall e, Decision (Q e)} es :
  (forall e, e ∈ es -> R e <-> P e \/ Q e) -> (forall e, P e -> Q e -> False) -> countIf R es = countIf P es + countIf Q es.
Proof.
  intros HR Hdis. unfold countIf. induction es as [|e es IH]; [done|]. rewrite !filter_cons.
  assert (He : R e <-> P e \/ Q e) by (apply HR; by left). specialize (IH (fun e' Hin => HR e' (list_elem_of_further _ _ _ Hin))). specialize (Hdis e).
  destruct (decide (R e)), (decide (P e)), (decide (Q e)); cbn [length]; tauto || lia.
Qed.

Lemma countIf_range (P : EmailEvent -> Prop) `{!forall e, Decision (P e)} es : 0 <= countIf P es <= Z.of_nat (length es).
Proof. unfold countIf. pose proof (length_filter P es). lia. Qed.

Lemma countIf_le (P Q : EmailEvent -> Prop) `{!forall e, Decision (P e), !forall e, Decision (Q e)} es : (forall e, P e -> Q e) -> countIf P es <= countIf Q es.
Proof.
  intros HPQ. unfold countIf. induction es as [|e es IH]; [done|]. rewrite !filter_cons. specialize (HPQ e).
  destruct (decide (P e)), (decide (Q e)); cbn [length]; tauto || lia.
Qed.

(** The tenant's events of the minutes from [a] up to [b]. *)
Definition inMinutes (tenant : string) (a b : Z) (e : EmailEvent) : Prop := TenantID e = tenant /\ a <= Timestamp e / Minute < b.
Definition inMinutesOf (tenant : string) (a b : Z) (ty : string) (e : EmailEvent) : Prop := inMinutes tenant a b e /\ typeStr (Type_ e) = ty.
#[global] Instance inMinutes_dec tenant a b e : Decision (inMinutes tenant a b e) := _.
#[global] Instance inMinutesOf_dec tenant a b ty e : Decision (inMinutesOf tenant a b ty e) := _.

Lemma inRun_minutes f tenant c n e : c mod width f = 0 ->
  inRun f tenant (c * Minute) ((c + (n - 1) * width f) * Minute) e <-> inMinutes tenant c (c + n * width f) e.
Proof.
  intros Hc. unfold inRun, inMinutes. rewrite fstep_width, !(Z.mul_comm (width f) Minute), <- !Z.div_div, !Z.div_mul by (done || by destruct f).
  rewrite Z.div_add by (by destruct f). set (m := Timestamp e / Minute). assert (0 < width f) by (by destruct f).
  assert (Hdiv : c = c / width f * width f) by (pose proof (Z.div_mod c (width f)); lia).
  pose proof (Z.div_mod m (width f)). pose proof (Z.mod_pos_bound m (width f)). split; (intros [? ?]; split; [done|nia]).
Qed.

Lemma inRange_datable c l m : inRange c l -> c <= m <= l -> datable (m * Minute).
Proof. intros (Hc & _ & Hl) Hm. unfold datable. unfold Minute, Second in *. lia. Qed.

Lemma rangeLoop_counts d es tenant l c0 : tallied (kv_get d) es -> Forall countable es -> plain_tenant tenant -> Z.of_nat (length es) <= maxInt64 ->
  forall fuel c res m, inRange c l -> c0 <= c <= l + 1 ->
  (forall ty, default 0 (res !! ty) = countIf (inMinutesOf tenant c0 c ty) es) ->
  rangeLoop fuel d tenant (c * Minute) (l * Minute) res = Some m ->
  forall ty, default 0 (m !! ty) = countIf (inMinutesOf tenant c0 (l + 1) ty) es.
Proof.
  intros Ht Hes Hp Hlen fuel. induction fuel as [|fuel IH]; intros c res m Hr Hc Hres Hrun ty; cbn [rangeLoop] in Hrun;
    (destruct (Z.ltb_spec (l * Minute) (c * Minute)) as [Hlt|Hge];
      [injection Hrun as <-; rewrite Hres; replace (l + 1) with c by (unfold Minute, Second in *; lia); done|]); [done|].
  assert (Hcl : c <= l) by (unfold Minute, Second in *; lia). rewrite (span_run c l) in Hrun by done.
  pose proof (run_in_range c l Hr Hcl) as Hr'. pose proof (run_of_spec c l ltac:(destruct Hr; lia)) as Hok.
  destruct (run_of c l) as [f n]. destruct Hok as (Hn & Hmod & Hle & _). assert (Hw : 1 <= width f) by (by destruct f).
  replace (time_add ((c + (n - 1) * width f) * Minute) (fstep f)) with ((c + n * width f) * Minute) in Hrun by (unfold time_add; rewrite fstep_width; lia).
  assert (Hsplit : forall P `{!forall e : EmailEvent, Decision (P e)},
    countIf (fun e => inMinutes tenant c0 (c + n * width f) e /\ P e) es =
    countIf (fun e => inMinutes tenant c0 c e /\ P e) es + countIf (fun e => inRun f tenant (c * Minute) ((c + (n - 1) * width f) * Minute) e /\ P e) es).
  { intros P HP. assert (Hb : c <= c + n * width f) by nia. apply countIf_split; intros e; [intros _|]; rewrite inRun_minutes by done; unfold inMinutes;
      revert Hb; generalize (c + n * width f); intros b Hb; [destruct (Z.lt_ge_cases (Timestamp e / Minute) c)|]; intuition lia. }
  eapply (IH (c + n * width f)); [done|nia| |exact Hrun]. intros ty'. rewrite (sumCounters_spec d es); [|done|done|done|..|done].
  - rewrite Hres. symmetry. exact (Hsplit (fun e => typeStr (Type_ e) = ty') _).
  - apply (inRange_datable c l); [done|lia].
  - apply (inRange_datable c l); [done|nia].
  - intros ty''. rewrite Hres. apply countIf_range.
  - intros ty''. rewrite Hres. specialize (Hsplit (fun _ => True) _). cbn beta in Hsplit.
    pose proof (countIf_range (fun e => inMinutes tenant c0 (c + n * width f) e /\ True) es).
    assert (countIf (inMinutesOf tenant c0 c ty'') es <= countIf (fun e => inMinutes tenant c0 c e /\ True) es) by (apply countIf_le; intros e [? _]; done).
    rewrite (countIf_iff (inRun _ _ _ _) (fun e => inRun f tenant (c * Minute) ((c + (n - 1) * width f) * Minute) e /\ True)) by tauto. lia.
Qed.

Lemma range_counts d es tenant start end_ : tallied (kv_get d) es -> Forall countable es -> plain_tenant tenant -> Z.of_nat (length es) <= maxInt64 ->
  inRange (start / Minute) (end_ / Minute) -> start <= end_ ->
  exists m, rangeCounters d tenant start end_ = Some m /\
    forall ty, default 0 (m !! ty) = countIf (inMinutesOf tenant (start / Minute) (end_ / Minute + 1) ty) es.
Proof.
  intros Ht Hes Hp Hlen Hr Hle. unfold rangeCounters. rewrite !truncateMinute_eq.
  destruct (rangeLoop_total d tenant (end_ / Minute) 5 (start / Minute) ∅ Hr) as [m Hm]; [apply (runs_left_most (start / Minute) (end_ / Minute))|].
  exists m. split; [done|]. eapply (rangeLoop_counts d es tenant _ (start / Minute)); [done|done|done|done|exact Hr| | |exact Hm].
  - assert (start / Minute <= end_ / Minute) by (apply Z.div_le_mono; [done|lia]). lia.
  - intros ty. rewrite lookup_empty. cbn [default]. rewrite (countIf_iff _ (fun _ => False)) by (intros e _; unfold inMinutesOf, inMinutes; split; [lia|done]).
    unfold countIf. clear. induction es as [|e es IH]; [done|].
    rewrite filter_cons, decide_False by tauto. exact IH.
Qed.

(** C34: a period's totals are its events.  Once a store has closed, the totals it
    gives a tenant for a period that holds any of its events count, type by type,
    exactly the accepted events of the tenant whose minute lies in the period:
    none is counted twice where runs of days, hours and minutes meet, and none is
    left between them. *)
Theorem period_totals_are_its_events ls d tenant start end_ es :
  (forall k, kv_get d k = None) -> Forall smooth ls -> w_done (run ls (NewStore d)) = true -> es = written (accepted ls (NewStore d)) ->
  Forall countable es -> Z.of_nat (length es) <= maxInt64 -> plain_tenant tenant ->
  inRange (start / Minute) (end_ / Minute) -> 0 < start <= end_ -> (exists e, e ∈ es /\ inMinutes tenant (start / Minute) (end_ / Minute + 1) e) ->
  forall ty, default 0 (GetMetrics (w_db (run ls (NewStore d))) tenant start end_ !! ty) =
    countIf (inMinutesOf tenant (start / Minute) (end_ / Minute + 1) ty) es.
Proof.
  intros Hd Hls Hdone -> Hes Hlen Hp Hr Hle (e & He & Hin) ty.
  destruct (range_counts (w_db (run ls (NewStore d))) _ tenant start end_ (closed_tallied ls d Hd Hls Hdone) Hes Hp Hlen Hr) as (m & Hm & Hty); [lia|].
  unfold GetMetrics, time_is_zero, time_before. rewrite Hm, (proj2 (Z.eqb_neq start 0)), (proj2 (Z.eqb_neq end_ 0)), (proj2 (Z.ltb_ge end_ start)) by lia. cbn [negb andb]. change (default ∅ (Some m)) with m.
  rewrite bool_decide_eq_false_2; [apply Hty|]. intros ->. specialize (Hty (typeStr (Type_ e))). rewrite lookup_empty in Hty. cbn [default] in Hty. unfold countIf in Hty.
  assert (Hf : e ∈ filter (inMinutesOf tenant (start / Minute) (end_ / Minute + 1) (typeStr (Type_ e))) (written (accepted ls (NewStore d)))) by (by apply list_elem_of_filter).
  destruct (filter _ _); [by apply elem_of_nil in Hf|done].
Qed.

End Tallies.
End EventCounters.
