(* ===== verification/EventSeries.v ===== *)
(** * Pruning the counters

    Models pebble/telemetry_retention.go: the passes that drop counters of
    buckets before a cutoff, seeking over what they keep.  The theorems: a pass
    drops exactly the buckets that end before the cutoff's own, and no total of a
    period that begins at or after the cutoff changes. *)
From S2P Require Import Prelude GoStrings Encoding KVStore Calendar Classify Events EventStore EventTimeline EventCounters.
From Stdlib Require Import Ascii.

Module EventSeries.
Import GoStrings Encoding KVStore Calendar Classify Events EventStore EventTimeline EventCounters.
Local Open Scope string_scope.
Local Open Scope Z_scope.

Record keyRange := mkRange {
  lower : string;
  upper : string
}.

Definition minuteSeriesRange : keyRange := mkRange (fprefix minuteCounters) "timeseries:minute;".
Definition hourSeriesRange : keyRange := mkRange (fprefix hourCounters) "timeseries:hour;".
Definition daySeriesRange : keyRange := mkRange (fprefix dayCounters) "timeseries;".

(** The length of a family's layout. *)
Definition layoutLen (f : counterFamily) : nat := match f with dayCounters => 10 | hourCounters => 13 | minuteCounters => 16 end.

Definition splitCounterKey (key : string) (f : counterFamily) : option (string * string) :=
  match cut_last key ":"%char with
  | None => None
  | Some (head, _) =>
      let start := (String.length head - layoutLen f)%nat in
      if (start <? String.length (fprefix f) + 1)%nat || negb (bool_decide (String.get (start - 1) key = Some ":"%char)) then None
      else Some (String.substring 0 start key, String.substring start (layoutLen f) key)
  end.

(** ** Batches *)

(** A prune's bookkeeping: the batches it has committed, the one it fills. *)
Record pruneBatch := mkPrune {
  p_commits : list (list kvop);
  p_batch : list kvop;
  p_pending : nat;
  p_removed : Z
}.

Definition newPruneBatch : pruneBatch := mkPrune [] [] 0 0.

(** [fails n] is the error the n-th commit of the pass meets. *)
Definition delete (fails : nat -> option string) (key : string) (p : pruneBatch) : pruneBatch * option string :=
  let p' := mkPrune (p_commits p) (p_batch p ++ [KDelete key])%list (S (p_pending p)) (p_removed p + 1) in
  if (p_pending p' <? truncateBatchSize)%nat then (p', None)
  else
    match fails (length (p_commits p)) with
    | Some err => (p', Some err)
    | None => (mkPrune (p_commits p' ++ [p_batch p'])%list [] 0 (p_removed p'), None)
    end.

(** What a pass leaves behind and reports: its commits, a count and an error. *)
Definition abandon (p : pruneBatch) (err : string) : list (list kvop) * Z * option string :=
  (p_commits p, p_removed p - Z.of_nat (p_pending p), Some err).

Definition finish (fails : nat -> option string) (p : pruneBatch) : list (list kvop) * Z * option string :=
  if (p_pending p =? 0)%nat then (p_commits p, p_removed p, None)
  else
    match fails (length (p_commits p)) with
    | Some err => (p_commits p, p_removed p - Z.of_nat (p_pending p), Some err)
    | None => ((p_commits p ++ [p_batch p])%list, p_removed p, None)
    end.

(** ** The walk *)

Definition skips (skip : list keyRange) (key : string) : option keyRange := list_find (fun r => HasPrefix key (lower r)) skip ≫= fun x => Some x.2.

(** [None] is a walk that has not ended. *)
Fixpoint pruneWalk (fuel : nat) (ctx fails : nat -> option string) (f : counterFamily) (skip : list keyRange) (cutoff : string) (i : nat)
    (l : list (string * string)) (p : pruneBatch) : option (pruneBatch * option string) :=
  match l with
  | [] => Some (p, None)
  | (key, _) :: rest =>
      match fuel with
      | O => None
      | S fuel =>
          match ctx i with
          | Some err => Some (p, Some err)
          | None =>
              match skips skip key with
              | Some other => pruneWalk fuel ctx fails f skip cutoff (S i) (seekGE (upper other) l) p
              | None =>
                  match splitCounterKey key f with
                  | None => pruneWalk fuel ctx fails f skip cutoff (S i) rest p
                  | Some (tenantPrefix, bucket) =>
                      if String.leb cutoff bucket then
                        pruneWalk fuel ctx fails f skip cutoff (S i) (seekGE (tenantPrefix ++ xFF) l) p
                      else
                        match delete fails key p with
                        | (p', Some err) => Some (p', Some err)
                        | (p', None) => pruneWalk fuel ctx fails f skip cutoff (S i) rest p'
                        end
                  end
              end
          end
      end
  end.

Section Prune.
Context {DB : Type} `{!KV DB}.

(** A step a key is enough: see [prune_drops_whole_buckets]. *)
Definition pruneCounters (ctx fails : nat -> option string) (d : DB) (f : counterFamily) (span : keyRange) (skip : list keyRange) (before : Z)
    (p : pruneBatch) : option (pruneBatch * option string) :=
  let l := kv_iter d (lower span) (upper span) in
  pruneWalk (length l) ctx fails f skip (flayout f before) 0 l p.

Definition PruneMinuteSeriesBefore (ctx fails : nat -> option string) (before : Z) (d : DB) : option (list (list kvop) * Z * option string) :=
  if time_is_zero before then Some ([], 0, Some zeroCutoff)
  else
    match pruneCounters ctx fails d minuteCounters minuteSeriesRange [] before newPruneBatch with
    | None => None
    | Some (p, Some err) => Some (abandon p err)
    | Some (p, None) => Some (finish fails p)
    end.

Definition PruneHourDaySeriesBefore (ctx1 ctx2 fails : nat -> option string) (before : Z) (d : DB) : option (list (list kvop) * Z * option string) :=
  if time_is_zero before then Some ([], 0, Some zeroCutoff)
  else
    match pruneCounters ctx1 fails d hourCounters hourSeriesRange [] before newPruneBatch with
    | None => None
    | Some (p, Some err) => Some (abandon p err)
    | Some (p, None) =>
        match pruneCounters ctx2 fails d dayCounters daySeriesRange [minuteSeriesRange; hourSeriesRange] before p with
        | None => None
        | Some (p, Some err) => Some (abandon p err)
        | Some (p, None) => Some (finish fails p)
        end
    end.

Fixpoint resourceLoop (ctx fails : nat -> option string) (i : nat) (l : list (string * string)) (p : pruneBatch) : list (list kvop) * Z * option string :=
  match l with
  | [] => finish fails p
  | (key, _) :: rest =>
      match ctx i with
      | Some err => abandon p err
      | None =>
          match delete fails key p with
          | (p', Some err) => abandon p' err
          | (p', None) => resourceLoop ctx fails (S i) rest p'
          end
      end
  end.

Definition PruneResourceHistoryBefore (ctx fails : nat -> option string) (before : Z) (d : DB) : list (list kvop) * Z * option string :=
  if time_is_zero before then ([], 0, Some zeroCutoff)
  else resourceLoop ctx fails 0 (kv_iter d ("resource:" ++ Sprintf_019d (wrap64 (descending before + 1))) "resource;") newPruneBatch.

(** The database once a pass's batches are in. *)
Definition committed (bs : list (list kvop)) (d : DB) : DB := foldl (fun d b => kv_commit b d) d bs.

End Prune.

(** ** Walking by seeks is scanning *)

Definition doomed (f : counterFamily) (skip : list keyRange) (cutoff key : string) : Prop :=
  skips skip key = None /\ exists tp b, splitCounterKey key f = Some (tp, b) /\ String.leb cutoff b = false.

#[export] Instance doomed_dec f skip cutoff key : Decision (doomed f skip cutoff key).
Proof.
  unfold doomed. apply and_dec; [apply _|]. destruct (splitCounterKey key f) as [[tp b]|]; [|right; by intros (? & ? & ? & _)].
  destruct (String.leb cutoff b) eqn:E; [right; intros (tp' & b' & [= <- <-] & ?); congruence|left; by exists tp, b].
Defined.

(** Seeking from a key never passes one that should go. *)
Definition seekable (f : counterFamily) (skip : list keyRange) (cutoff x y : string) : Prop :=
  (forall r, skips skip x = Some r -> slt x (upper r) /\ (slt y (upper r) -> ~ doomed f skip cutoff y)) /\
  (forall tp b, skips skip x = None -> splitCounterKey x f = Some (tp, b) -> String.leb cutoff b = true ->
     slt x (tp ++ xFF) /\ (slt y (tp ++ xFF) -> ~ doomed f skip cutoff y)).

Definition staged_keys (p : pruneBatch) : list kvop := (concat (p_commits p) ++ p_batch p)%list.

Definition tidy (p : pruneBatch) : Prop := p_pending p = length (p_batch p) /\ p_removed p = Z.of_nat (length (staged_keys p)).

Lemma delete_lands key p : tidy p -> exists p', delete (fun _ => None) key p = (p', None) /\ tidy p' /\ staged_keys p' = (staged_keys p ++ [KDelete key])%list.
Proof.
  intros [Hp Hr]. unfold delete, tidy, staged_keys in *. cbn [p_pending p_commits p_batch p_removed].
  destruct (_ <? _)%nat; eexists; (split; [done|]); cbn [p_pending p_commits p_batch p_removed]; rewrite ?concat_app, ?length_app in *; cbn [concat length];
    rewrite ?app_nil_r, ?length_app, <- ?app_assoc; cbn [length]; (split; [split|done]); lia.
Qed.

Lemma seekGE_shorter k x l : slt x.1 k -> (length (seekGE k (x :: l)) <= length l)%nat.
Proof.
  intros Hx. cbn [seekGE]. unfold slt in Hx. rewrite Hx. clear. induction l as [|y l IH]; [done|]. cbn [seekGE]. destruct (String.ltb y.1 k); simpl in *; lia.
Qed.

Lemma seekGE_filter (P : string -> Prop) `{!forall k, Decision (P k)} k l :
  (forall x, x ∈ l.*1 -> slt x k -> ~ P x) -> filter P (seekGE k l).*1 = filter P l.*1.
Proof.
  induction l as [|x l IH]; intros Hl; [done|]. cbn [seekGE]. destruct (String.ltb x.1 k) eqn:E; [|done].
  rewrite fmap_cons, filter_cons, decide_False by (apply Hl; [by left|done]). apply IH. intros y Hy. apply Hl. by right.
Qed.

Lemma seekGE_suffix k l : exists l1, l = (l1 ++ seekGE k l)%list.
Proof. induction l as [|x l [l1 IH]]; [by exists []|]. cbn [seekGE]. destruct (String.ltb x.1 k); [exists (x :: l1); cbn; congruence|by exists []]. Qed.

Lemma pruneWalk_scans f skip cutoff fuel : forall i l p, (length l <= fuel)%nat -> StronglySorted slt l.*1 ->
  (forall x y, x ∈ l.*1 -> y ∈ l.*1 -> String.le x y -> seekable f skip cutoff x y) -> tidy p ->
  exists p', pruneWalk fuel (fun _ => None) (fun _ => None) f skip cutoff i l p = Some (p', None) /\ tidy p' /\
    staged_keys p' = (staged_keys p ++ (KDelete <$> filter (doomed f skip cutoff) l.*1))%list.
Proof.
  induction fuel as [|fuel IH]; intros i [|[key v] rest] p Hlen Hs Hk Hp; [by exists p; rewrite app_nil_r|simpl in Hlen; lia|by exists p; rewrite app_nil_r|].
  cbn [length] in Hlen. set (l := (key, v) :: rest) in *.
  assert (Hsub : forall l1 l2, l = (l1 ++ l2)%list -> StronglySorted slt l2.*1 /\ forall x y, x ∈ l2.*1 -> y ∈ l2.*1 -> String.le x y -> seekable f skip cutoff x y).
  { intros l1 l2 E. rewrite E, fmap_app in Hs, Hk. split; [by apply StronglySorted_app_1_r in Hs|]. intros x y Hx Hy. apply Hk; apply elem_of_app; by right. }
  assert (Hle : forall y, y ∈ l.*1 -> String.le key y).
  { intros y Hy. unfold l in Hy. rewrite fmap_cons in Hy. apply elem_of_cons in Hy as [->|Hy]; [done|]. unfold l in Hs. rewrite fmap_cons in Hs.
    apply StronglySorted_inv in Hs as [_ Hall]. rewrite Forall_forall in Hall. apply le_slt. left. by apply Hall. }
  assert (Hkey : key ∈ l.*1) by (by left).
  assert (Hseek : forall k, slt key k -> (forall y, y ∈ l.*1 -> slt y k -> ~ doomed f skip cutoff y) ->
    exists p', pruneWalk fuel (fun _ => None) (fun _ => None) f skip cutoff (S i) (seekGE k l) p = Some (p', None) /\ tidy p' /\
      staged_keys p' = (staged_keys p ++ (KDelete <$> filter (doomed f skip cutoff) l.*1))%list).
  { intros k Hslt Hno. destruct (seekGE_suffix k l) as [l1 E]. destruct (Hsub _ _ E) as [Hs' Hk'].
    destruct (IH (S i) (seekGE k l) p) as (p' & Hw & Hp' & Hst); [pose proof (seekGE_shorter k (key, v) rest Hslt); unfold l; lia|done|done|done|].
    exists p'. split_and!; [done|done|]. by rewrite Hst, seekGE_filter. }
  assert (Hskip : ~ doomed f skip cutoff key -> exists p', pruneWalk fuel (fun _ => None) (fun _ => None) f skip cutoff (S i) rest p = Some (p', None) /\ tidy p' /\
      staged_keys p' = (staged_keys p ++ (KDelete <$> filter (doomed f skip cutoff) l.*1))%list).
  { intros Hnd. destruct (Hsub [(key, v)] rest eq_refl) as [Hs' Hk']. destruct (IH (S i) rest p) as (p' & Hw & Hp' & Hst); [lia|done|done|done|].
    exists p'. split_and!; [done|done|]. unfold l. by rewrite fmap_cons, filter_cons, decide_False. }
  unfold l at 1. cbn [pruneWalk]. fold l. destruct (skips skip key) as [r|] eqn:Er.
  - apply Hseek; [by apply (Hk key key)|]. intros y Hy. apply (Hk key y); [done|done|by apply Hle|done].
  - destruct (splitCounterKey key f) as [[tp b]|] eqn:Esp; [|apply Hskip; intros (_ & ? & ? & ? & _); congruence].
    destruct (String.leb cutoff b) eqn:Eb.
    + apply Hseek; [by eapply (Hk key key)|]. intros y Hy. eapply (Hk key y); [done|done|by apply Hle|done|done|done].
    + destruct (delete_lands key p Hp) as (p1 & -> & Hp1 & Hst1). destruct (Hsub [(key, v)] rest eq_refl) as [Hs' Hk'].
      destruct (IH (S i) rest p1) as (p' & Hw & Hp' & Hst); [lia|done|done|done|]. exists p'. split_and!; [done|done|]. unfold l.
      rewrite fmap_cons, filter_cons, decide_True by (split; [done|by exists tp, b]). rewrite Hst, Hst1, <- app_assoc. done.
Qed.

(** ** The counters of a store *)

Lemma get_app a c b : String.get (String.length a) (a ++ String c b) = Some c.
Proof. by induction a. Qed.

Lemma substring_app a b : String.substring 0 (String.length a) (a ++ b) = a.
Proof. induction a as [|c a IH]; [by destruct b|]. simpl. by rewrite IH. Qed.

Lemma substring_skip a b n : String.substring (String.length a) n (a ++ b) = String.substring 0 n b.
Proof. by induction a. Qed.

Lemma layout_length f t : datable t -> String.length (flayout f t) = layoutLen f.
Proof. intros. destruct f; cbn [flayout layoutLen]; [by apply formatDay_length|by apply formatHour_length|by apply formatMinute_length]. Qed.

Definition tenantPart (f : counterFamily) (e : EmailEvent) : string := fprefix f ++ TenantID e ++ ":".

Lemma ekey_parts f e : ekey f e = tenantPart f e ++ flayout f (Timestamp e) ++ ":" ++ typeStr (Type_ e).
Proof. unfold ekey, fkey, tenantPart. by rewrite !string_app_assoc. Qed.

Lemma split_ekey f e : datable (Timestamp e) -> splitCounterKey (ekey f e) f = Some (tenantPart f e, flayout f (Timestamp e)).
Proof.
  intros Hd. unfold splitCounterKey. unfold ekey at 1. rewrite cut_fkey.
  replace (fprefix f ++ TenantID e ++ ":" ++ flayout f (Timestamp e)) with ((fprefix f ++ TenantID e) ++ String ":" (flayout f (Timestamp e)))
    by (by rewrite !string_app_assoc).
  set (b := flayout f (Timestamp e)). assert (Hb : String.length b = layoutLen f) by (by apply layout_length).
  assert (Hstart : (String.length ((fprefix f ++ TenantID e) ++ String ":" b) - layoutLen f)%nat = String.length (tenantPart f e)).
  { unfold tenantPart. rewrite !str_length_app. cbn [String.length]. lia. }
  rewrite Hstart, (ekey_parts f e). fold b.
  assert (Hget : String.get (String.length (tenantPart f e) - 1) (tenantPart f e ++ b ++ ":" ++ typeStr (Type_ e)) = Some ":"%char).
  { unfold tenantPart. rewrite !string_app_assoc. replace (String.length (fprefix f ++ TenantID e ++ ":") - 1)%nat with (String.length (fprefix f ++ TenantID e)).
    - rewrite <- string_app_assoc. apply (get_app (fprefix f ++ TenantID e)).
    - rewrite !str_length_app. simpl. lia. }
  rewrite Hget, bool_decide_eq_true_2 by done.
  assert (Hlt : (String.length (tenantPart f e) <? String.length (fprefix f) + 1)%nat = false).
  { apply Nat.ltb_ge. unfold tenantPart. rewrite !str_length_app. simpl. lia. }
  rewrite Hlt. cbn [orb negb]. by rewrite substring_app, substring_skip, <- Hb, substring_app.
Qed.

Lemma leb_layout f t u : datable t -> datable u -> String.leb (flayout f t) (flayout f u) = (t / fstep f <=? u / fstep f).
Proof. intros. unfold String.leb. rewrite flayout_compare by done. unfold Z.leb. by destruct (_ ?= _). Qed.

(** The spans the families' passes walk, and what they seek over. *)
Definition spanOf (f : counterFamily) : keyRange :=
  match f with dayCounters => daySeriesRange | hourCounters => hourSeriesRange | minuteCounters => minuteSeriesRange end.
Definition skipOf (f : counterFamily) : list keyRange :=
  match f with dayCounters => [minuteSeriesRange; hourSeriesRange] | _ => [] end.

(** Between a colon and a semicolon there is only the colon. *)
Lemma colon_span p k a : String.le (p ++ ":" ++ a) k -> slt k (p ++ ";") -> exists r, k = p ++ ":" ++ r.
Proof.
  intros Hlo Hhi. destruct (between_prefix p k (":" ++ a) ";") as [r ->]; [done|done|]. rewrite le_app in Hlo. rewrite slt_app in Hhi.
  destruct r as [|c r]; [done|]. exists r. do 2 f_equal.
  cbn [String.append] in Hlo. unfold String.le, String.leb in Hlo. unfold slt, String.ltb in Hhi. rewrite compare_cons, code_compare in Hlo, Hhi.
  assert (Hc : code c = 58).
  { change (code ":") with 58 in Hlo. change (code ";") with 59 in Hhi. destruct (Z.compare_spec 58 (code c)) as [E|E|E]; [done| |done].
    destruct (Z.compare_spec (code c) 59) as [E'|E'|E']; [by destruct r|lia|done]. }
  rewrite <- (chr_code c), Hc. done.
Qed.

(** A family's key starts as its own family's do, and as days' do. *)
Lemma family_prefix f f' e : plain_tenant (TenantID e) -> HasPrefix (ekey f' e) (fprefix f) = true <-> f = dayCounters \/ f = f'.
Proof.
  intros Hp. rewrite HasPrefix_spec. split.
  - destruct Hp as (Hc & Hh & Hm). intros [r E].
    assert (Hday : forall w x y, no_colon w -> TenantID e <> w -> "timeseries:" ++ TenantID e ++ String ":" x = "timeseries:" ++ w ++ String ":" y -> False).
    { intros w x y Hw Hne Ew. by apply (inj (String.append "timeseries:")), (sep_inj ":"%char) in Ew as [? _]. }
    destruct f, f'; try (by left); try (by right); exfalso; unfold ekey, fkey in E; cbn [fprefix] in E;
      [by apply (Hday "hour" _ r) in E|by apply (Hday "minute" _ r) in E].
  - intros [->| ->]; [|by eexists]. pose proof (fprefix_series f' (TenantID e ++ ":" ++ flayout f' (Timestamp e) ++ ":" ++ typeStr (Type_ e))) as H.
    by apply HasPrefix_spec in H.
Qed.

Lemma skips_ekey f f' e : plain_tenant (TenantID e) ->
  skips (skipOf f) (ekey f' e) = match f with dayCounters => match f' with dayCounters => None | _ => Some (spanOf f') end | _ => None end.
Proof.
  intros Hp. destruct f; [|done|done]. unfold skips, skipOf. cbn [list_find].
  pose proof (family_prefix minuteCounters f' e Hp) as Hm. pose proof (family_prefix hourCounters f' e Hp) as Hh.
  destruct f'; (destruct (decide (HasPrefix _ (lower minuteSeriesRange))) as [H|H]; [apply Is_true_true, Hm in H as [?|?]|]; try done);
    (destruct (decide (HasPrefix _ (lower hourSeriesRange))) as [H'|H']; [apply Is_true_true, Hh in H' as [?|?]|]; try done); exfalso.
  - apply H', Is_true_true, Hh. by right.
  - apply H, Is_true_true, Hm. by right.
Qed.

Lemma doomed_ekey f f' e before : countable e -> datable before -> (f = dayCounters \/ f = f') ->
  doomed f (skipOf f) (flayout f before) (ekey f' e) <-> f' = f /\ Timestamp e / fstep f < before / fstep f.
Proof.
  intros [Hd Hp] Hb Hf. unfold doomed. rewrite skips_ekey by done. destruct (decide (f' = f)) as [->|Hne].
  - split.
    + intros (_ & tp & b & Hs & Hle). rewrite split_ekey in Hs by done. injection Hs as <- <-. rewrite leb_layout in Hle by done. split; [done|lia].
    + intros [_ Hlt]. split; [by destruct f|]. eexists _, _. split; [by apply split_ekey|]. rewrite leb_layout by done. lia.
  - split; [|by intros [? _]]. destruct Hf as [->|?]; [|congruence]. intros [Hs _]. by destruct f'.
Qed.

Lemma span_family f f' e : plain_tenant (TenantID e) -> String.le (lower (spanOf f)) (ekey f' e) -> slt (ekey f' e) (upper (spanOf f)) -> f = dayCounters \/ f = f'.
Proof.
  intros Hp Hlo Hhi. apply (family_prefix f f' e Hp), HasPrefix_spec. destruct f; cbn [spanOf lower upper fprefix] in *.
  - destruct (colon_span "timeseries" (ekey f' e) "") as [r ->]; [done|done|by exists r].
  - destruct (colon_span "timeseries:hour" (ekey f' e) "") as [r ->]; [done|done|by exists r].
  - destruct (colon_span "timeseries:minute" (ekey f' e) "") as [r ->]; [done|done|by exists r].
Qed.

Lemma ekey_below f e : datable (Timestamp e) -> slt (ekey f e) (tenantPart f e ++ xFF).
Proof.
  intros Hd. rewrite ekey_parts. apply below_xFF.
  assert (Hy : exists c r, flayout f (Timestamp e) = String c r /\ is_digit c = true); [|destruct Hy as (c & r & -> & Hc); simpl; case_match; [by subst c|done]].
  pose proof (Year_range _ Hd) as Hy. pose proof (pad_digits 4 (Year (Timestamp e)) ltac:(lia)) as Hdig.
  pose proof (pad_length 4 (Year (Timestamp e)) ltac:(lia) ltac:(simpl; lia)) as Hl.
  destruct f; unfold flayout, formatMinute, formatHour, formatDay; destruct (pad 4 (Year (Timestamp e))) as [|c r]; try done; cbn [str_all] in Hdig;
    apply andb_true_iff in Hdig as [Hc _]; by eexists _, _.
Qed.

Lemma series_seekable f before fx x fy y : countable x -> countable y -> datable before ->
  (f = dayCounters \/ f = fx) -> (f = dayCounters \/ f = fy) -> String.le (ekey fx x) (ekey fy y) ->
  seekable f (skipOf f) (flayout f before) (ekey fx x) (ekey fy y).
Proof.
  intros [Hdx Hpx] Hy Hb Hfx Hfy Hle. pose proof Hy as [Hdy Hpy]. split.
  - intros r Hs. rewrite skips_ekey in Hs by done. destruct f; [|done|done].
    assert (Hr : r = spanOf fx /\ fx <> dayCounters) by (destruct fx; [done|by injection Hs as <-|by injection Hs as <-]). destruct Hr as [-> Hne]. clear Hs.
    assert (Hx : exists p a, upper (spanOf fx) = p ++ ";" /\ ekey fx x = p ++ ":" ++ a /\ fprefix fx = p ++ ":").
    { destruct fx; [done|exists "timeseries:hour"|exists "timeseries:minute"]; unfold ekey, fkey; by eexists. }
    destruct Hx as (p & a & Hu & Hk & Hpre). rewrite Hu. split; [rewrite Hk; by apply slt_app|]. intros Hlt [Hno _].
    rewrite Hk in Hle. destruct (colon_span p _ a Hle Hlt) as [r E]. rewrite skips_ekey in Hno by done.
    assert (Hfam : fx = dayCounters \/ fx = fy) by (apply (family_prefix fx fy y Hpy), HasPrefix_spec; exists r; by rewrite E, Hpre, string_app_assoc).
    destruct Hfam as [?|<-]; [done|]. by destruct fx.
  - intros tp b Hs Hsp Hcut. assert (Hf : fx = f) by (rewrite skips_ekey in Hs by done; destruct Hfx as [->|?]; [by destruct fx|done]). subst fx.
    rewrite split_ekey in Hsp by done. injection Hsp as <- <-. rewrite leb_layout in Hcut by done. split; [by apply ekey_below|].
    intros Hlt Hdoom. apply doomed_ekey in Hdoom as [-> Hd]; [|done|done|done].
    assert (Hten : TenantID y = TenantID x).
    { rewrite (ekey_parts f x) in Hle. destruct (between_prefix _ _ _ _ Hle Hlt) as [r E]. unfold ekey, fkey, tenantPart in E. rewrite !string_app_assoc in E.
      by apply fkey_family in E as (_ & ? & _). }
    assert (Hord : Timestamp x / fstep f <= Timestamp y / fstep f); [|lia].
    apply le_not_slt in Hle. destruct (Z.le_gt_cases (Timestamp x / fstep f) (Timestamp y / fstep f)) as [|Hgt]; [done|]. destruct Hle.
    rewrite !ekey_parts. unfold tenantPart. rewrite Hten. apply slt_app. unfold slt, String.ltb.
    rewrite compare_app_len by (by apply flayout_length). rewrite flayout_compare by done. by rewrite (proj2 (Z.compare_lt_iff _ _)).
Qed.

(** A family's keys lie in its span. *)
Lemma ekey_span f e : String.le (lower (spanOf f)) (ekey f e) /\ slt (ekey f e) (upper (spanOf f)).
Proof.
  assert (Hs : exists p, lower (spanOf f) = p ++ ":" /\ upper (spanOf f) = p ++ ";" /\ fprefix f = p ++ ":")
    by (destruct f; [by exists "timeseries"|by exists "timeseries:hour"|by exists "timeseries:minute"]).
  destruct Hs as (p & -> & -> & Hp). unfold ekey, fkey. rewrite Hp, string_app_assoc. rewrite le_app, slt_app. split; [|done].
  replace ":" with (":" ++ "") at 1 by done. rewrite le_app. apply le_nil.
Qed.

Section Passes.
Context {DB : Type} `{!KV DB, !KVLaws DB counterMerge} {codec : Codec}.

Lemma series_key (d : DB) es k v : tallied (kv_get d) es -> kv_get d k = Some v -> HasPrefix k "timeseries:" = true -> exists f e, e ∈ es /\ k = ekey f e.
Proof.
  intros Ht Hv Hk. rewrite (Ht k Hk) in Hv. destruct (occurs k (es ≫= counterKeys)) as [|n] eqn:E; [done|].
  assert (Hin : k ∈ es ≫= counterKeys).
  { unfold occurs in E. destruct (filter (fun x => x = k) (es ≫= counterKeys)) as [|x l] eqn:El; [done|].
    assert (Hx : x ∈ filter (fun x => x = k) (es ≫= counterKeys)) by (rewrite El; by left). apply list_elem_of_filter in Hx as [-> Hx]. done. }
  apply list_elem_of_bind in Hin as (e & Hke & He). unfold counterKeys in Hke. apply list_elem_of_fmap in Hke as (f & -> & _). by exists f, e.
Qed.

(** A family's pass stages the deletion of its own buckets before the cutoff's. *)
Lemma pruneCounters_exact (d : DB) es f before p : tallied (kv_get d) es -> Forall countable es -> datable before -> tidy p ->
  exists p' ks, pruneCounters (fun _ => None) (fun _ => None) d f (spanOf f) (skipOf f) before p = Some (p', None) /\ tidy p' /\
    staged_keys p' = (staged_keys p ++ (KDelete <$> ks))%list /\
    forall k, k ∈ ks <-> exists e, e ∈ es /\ k = ekey f e /\ Timestamp e / fstep f < before / fstep f.
Proof.
  intros Ht Hes Hb Hp. set (l := kv_iter d (lower (spanOf f)) (upper (spanOf f))).
  assert (Hin : forall k, k ∈ l.*1 <-> is_Some (kv_get d k) /\ String.le (lower (spanOf f)) k /\ slt k (upper (spanOf f))).
  { intros k. rewrite list_elem_of_fmap. split; [intros [[k' v] [-> (? & ?)%kv_iter_spec]]; by split; [eexists|]|].
    intros ([v Hv] & Hr). exists (k, v). split; [done|]. by apply kv_iter_spec. }
  assert (Hkeys : forall k, k ∈ l.*1 -> exists f' e, e ∈ es /\ k = ekey f' e /\ countable e /\ (f = dayCounters \/ f = f')).
  { intros k ([v Hv] & Hlo & Hhi)%Hin. assert (Hpre : HasPrefix k "timeseries:" = true).
    { apply HasPrefix_spec. destruct f; cbn [spanOf lower upper fprefix] in *.
      - destruct (colon_span "timeseries" k "") as [r ->]; [done|done|by exists r].
      - destruct (colon_span "timeseries:hour" k "") as [r ->]; [done|done|by exists ("hour:" ++ r)].
      - destruct (colon_span "timeseries:minute" k "") as [r ->]; [done|done|by exists ("minute:" ++ r)]. }
    destruct (series_key d es k v Ht Hv Hpre) as (f' & e & He & ->). pose proof (proj1 (Forall_forall _ _) Hes e He) as Hc. exists f', e.
    split_and!; [done|done|done|]. destruct Hc as [_ Hpl]. by apply span_family in Hhi. }
  destruct (pruneWalk_scans f (skipOf f) (flayout f before) (length l) 0 l p) as (p' & Hw & Hp' & Hst); [done|apply (kv_iter_sorted d)| |done|].
  { intros x y Hx Hy Hle. destruct (Hkeys x Hx) as (fx & ex & _ & -> & Hcx & Hfx). destruct (Hkeys y Hy) as (fy & ey & _ & -> & Hcy & Hfy).
    by apply series_seekable. }
  exists p', (filter (doomed f (skipOf f) (flayout f before)) l.*1). split_and!; [done|done|done|]. intros k. rewrite list_elem_of_filter. split.
  - intros [Hd Hk]. destruct (Hkeys k Hk) as (f' & e & He & -> & Hc & Hf). apply doomed_ekey in Hd as [-> Hlt]; [|done|done|done]. by exists e.
  - intros (e & He & -> & Hlt). pose proof (proj1 (Forall_forall _ _) Hes e He) as Hc. split; [apply doomed_ekey; [done|done|by right|done]|].
    apply Hin. split; [by eapply ekey_stored|apply ekey_span].
Qed.

Lemma kv_committed (bs : list (list kvop)) : forall (d : DB) k, kv_get (committed bs d) k = effects counterMerge k (concat bs) (kv_get d k).
Proof. induction bs as [|b bs IH]; intros d k; [done|]. cbn [committed foldl concat]. fold (committed bs (kv_commit b d)). by rewrite IH, effects_app, kv_get_commit. Qed.

Lemma effects_deletes k ks : forall cur, effects counterMerge k (KDelete <$> ks) cur = if decide (k ∈ ks) then None else cur.
Proof.
  induction ks as [|x ks IH]; intros cur; [by rewrite decide_False by apply not_elem_of_nil|]. rewrite fmap_cons, effects_cons, IH.
  destruct (decide (x = k)) as [->|Hne].
  - rewrite effect_delete, (decide_True (P := k ∈ k :: ks)) by (by left). by destruct (decide _).
  - rewrite effect_ne by done. destruct (decide (k ∈ ks)) as [H|H]; [by rewrite decide_True by (by right)|]. rewrite decide_False; [done|]. by intros [?|?]%elem_of_cons.
Qed.

Lemma finish_lands p : tidy p -> exists bs n, finish (fun _ => None) p = (bs, n, None) /\ concat bs = staged_keys p /\ n = Z.of_nat (length (concat bs)).
Proof.
  intros [Hp Hr]. unfold finish. destruct (p_pending p =? 0)%nat eqn:E.
  - assert (Hb : p_batch p = []) by (destruct (p_batch p); [done|simpl in Hp; apply Nat.eqb_eq in E; lia]).
    eexists _, _. split; [done|]. unfold staged_keys in *. rewrite Hb, app_nil_r in *. done.
  - eexists _, _. split; [done|]. unfold staged_keys in *. rewrite concat_app. cbn [concat]. rewrite app_nil_r. done.
Qed.

(** The counters of some families whose buckets are before the cutoff's. *)
Definition bucketsBefore (fs : list counterFamily) (before : Z) (es : list EmailEvent) (k : string) : Prop :=
  exists f e, f ∈ fs /\ e ∈ es /\ k = ekey f e /\ Timestamp e / fstep f < before / fstep f.

(** What a pass that goes well does: its batches drop those counters and nothing
    else, and it reports how many they were. *)
Definition drops (fs : list counterFamily) (before : Z) (es : list EmailEvent) (d : DB) (r : option (list (list kvop) * Z * option string)) : Prop :=
  exists bs n, r = Some (bs, n, None) /\ n = Z.of_nat (length (concat bs)) /\
    forall k, (bucketsBefore fs before es k -> kv_get (committed bs d) k = None) /\
              (~ bucketsBefore fs before es k -> kv_get (committed bs d) k = kv_get d k).

Lemma drops_intro fs before es (d : DB) p ks : tidy p -> staged_keys p = KDelete <$> ks -> (forall k, k ∈ ks <-> bucketsBefore fs before es k) ->
  drops fs before es d (Some (finish (fun _ => None) p)).
Proof.
  intros Hp Hst Hks. destruct (finish_lands p Hp) as (bs & n & -> & Hc & Hn). exists bs, n. split_and!; [done|done|].
  intros k. rewrite kv_committed, Hc, Hst, effects_deletes, <- Hks. split; intros H; [by rewrite decide_True|by rewrite decide_False].
Qed.

Lemma minute_pass_drops (d : DB) es before : tallied (kv_get d) es -> Forall countable es -> datable before -> before <> 0 ->
  drops [minuteCounters] before es d (PruneMinuteSeriesBefore (fun _ => None) (fun _ => None) before d).
Proof.
  intros Ht Hes Hb Hz. unfold PruneMinuteSeriesBefore, time_is_zero. rewrite (proj2 (Z.eqb_neq before 0)) by done.
  destruct (pruneCounters_exact d es minuteCounters before newPruneBatch Ht Hes Hb) as (p & ks & Hw & Hp & Hst & Hks); [done|].
  cbn [spanOf skipOf] in Hw. rewrite Hw. apply (drops_intro _ _ _ _ _ ks); [done|done|]. intros k. rewrite Hks. unfold bucketsBefore. split.
  - intros (e & ? & ? & ?). exists minuteCounters, e. split; [by left|done].
  - intros (f & e & ->%list_elem_of_singleton & ? & ? & ?). by exists e.
Qed.

Lemma hour_day_pass_drops (d : DB) es before : tallied (kv_get d) es -> Forall countable es -> datable before -> before <> 0 ->
  drops [hourCounters; dayCounters] before es d (PruneHourDaySeriesBefore (fun _ => None) (fun _ => None) (fun _ => None) before d).
Proof.
  intros Ht Hes Hb Hz. unfold PruneHourDaySeriesBefore, time_is_zero. rewrite (proj2 (Z.eqb_neq before 0)) by done.
  destruct (pruneCounters_exact d es hourCounters before newPruneBatch Ht Hes Hb) as (p & ks & Hw & Hp & Hst & Hks); [done|].
  cbn [spanOf skipOf] in Hw. rewrite Hw.
  destruct (pruneCounters_exact d es dayCounters before p Ht Hes Hb Hp) as (p' & ks' & Hw' & Hp' & Hst' & Hks').
  cbn [spanOf skipOf] in Hw'. rewrite Hw'. apply (drops_intro _ _ _ _ _ (ks ++ ks')); [done|rewrite fmap_app, Hst', Hst; done|].
  intros k. rewrite elem_of_app, Hks, Hks'. unfold bucketsBefore. split.
  - intros [(e & ? & ? & ?)|(e & ? & ? & ?)]; [exists hourCounters, e|exists dayCounters, e]; (split; [|done]); [by left|right; by left].
  - intros (f & e & Hf & ? & ? & ?). apply elem_of_cons in Hf as [->|Hf]; [left; by exists e|]. apply list_elem_of_singleton in Hf as ->. right. by exists e.
Qed.

(** A prune drops whole buckets.  On a closed store, the passes over the
    counters -- which seek over the minutes and hours in a day's way, and over a
    tenant's counters once one is recent -- end, and drop exactly the counters
    whose bucket is before the one the cutoff falls in, and nothing else the
    store holds. *)
Theorem prune_drops_whole_buckets ls (d0 : DB) before es d :
  (forall k, kv_get d0 k = None) -> Forall smooth ls -> w_done (run ls (NewStore d0)) = true -> es = written (accepted ls (NewStore d0)) ->
  d = w_db (run ls (NewStore d0)) -> Forall countable es -> datable before -> before <> 0 ->
  drops [minuteCounters] before es d (PruneMinuteSeriesBefore (fun _ => None) (fun _ => None) before d) /\
  drops [hourCounters; dayCounters] before es d (PruneHourDaySeriesBefore (fun _ => None) (fun _ => None) (fun _ => None) before d).
Proof.
  intros Hd Hls Hdone -> -> Hes Hb Hz. pose proof (closed_tallied ls d0 Hd Hls Hdone) as Ht. split; [by apply minute_pass_drops|by apply hour_day_pass_drops].
Qed.

(** ** Later periods *)

Lemma sumCounters_same (d d' : DB) f tenant from through res : (forall k, String.le ((fprefix f ++ tenant ++ ":") ++ flayout f from) k ->
    slt k ((fprefix f ++ tenant ++ ":") ++ flayout f through ++ xFF) -> kv_get d' k = kv_get d k) ->
  sumCounters d' f tenant from through res = sumCounters d f tenant from through res.
Proof.
  intros Hsame. unfold sumCounters. f_equal. apply sorted_unique; [apply (kv_iter_sorted d')|apply (kv_iter_sorted d)|]. intros [k v].
  rewrite !kv_iter_spec. split; intros (Hv & Hlo & Hhi); (split_and!; [|done|done]); [rewrite <- Hsame|rewrite Hsame]; done.
Qed.

Definition allFamilies : list counterFamily := [dayCounters; hourCounters; minuteCounters].

(** A store that lost counters of buckets before the cutoff, and nothing else. *)
Definition prunedTo (before : Z) (es : list EmailEvent) (d d' : DB) : Prop := forall k, ~ bucketsBefore allFamilies before es k -> kv_get d' k = kv_get d k.

Lemma prunedTo_run before es (d d' : DB) f tenant from through res : prunedTo before es d d' -> Forall countable es -> plain_tenant tenant ->
  datable from -> datable through -> before / fstep f <= from / fstep f -> sumCounters d' f tenant from through res = sumCounters d f tenant from through res.
Proof.
  intros Hd Hes Hp Hf Ht Hle. apply sumCounters_same. intros k Hlo Hhi. apply Hd. intros (f' & e & _ & He & -> & Hlt).
  destruct (proj1 (Forall_forall _ _) Hes e He) as [Hde Hpe]. destruct (between_prefix _ _ _ _ Hlo Hhi) as [r E]. unfold ekey, fkey in E. rewrite !string_app_assoc in E.
  apply fkey_family in E as (-> & Hten & _); [|done|done].
  pose proof (proj1 (bucket_bounds f tenant e from through Hde Hf Ht Hten) (conj Hlo Hhi)). lia.
Qed.

Lemma prunedTo_range before es (d d' : DB) tenant l : prunedTo before es d d' -> Forall countable es -> plain_tenant tenant ->
  forall fuel c res, inRange c l -> before / Minute <= c ->
  rangeLoop fuel d' tenant (c * Minute) (l * Minute) res = rangeLoop fuel d tenant (c * Minute) (l * Minute) res.
Proof.
  intros Hd Hes Hp. induction fuel as [|fuel IH]; intros c res Hr Hc; cbn [rangeLoop]; (destruct (Z.ltb_spec (l * Minute) (c * Minute)) as [|Hge]; [done|]); [done|].
  assert (Hcl : c <= l) by (unfold Minute, Second in *; lia). rewrite (span_run c l) by done.
  pose proof (run_in_range c l Hr Hcl) as Hr'. pose proof (run_of_spec c l ltac:(destruct Hr; lia)) as Hok.
  destruct (run_of c l) as [f n]. destruct Hok as (Hn & _ & Hle & _). assert (Hw : 1 <= width f) by (by destruct f).
  replace (time_add ((c + (n - 1) * width f) * Minute) (fstep f)) with ((c + n * width f) * Minute) by (unfold time_add; rewrite fstep_width; lia).
  rewrite (prunedTo_run before es d d') by (done || (apply (inRange_datable c l); [done|nia]) ||
    (rewrite fstep_width, !(Z.mul_comm (width f) Minute), <- !Z.div_div, Z.div_mul by (done || lia); apply Z.div_le_mono; lia)).
  apply IH; [done|nia].
Qed.

Lemma prunedTo_log before es (d d' : DB) tenant start end_ : prunedTo before es d d' -> Forall countable es -> logEvents d' tenant start end_ = logEvents d tenant start end_.
Proof.
  intros Hd Hes. unfold logEvents. f_equal. assert (Hb : exists a b, (logBounds tenant start end_).1 = "events:" ++ a /\ (logBounds tenant start end_).2 = "events:" ++ b).
  { unfold logBounds. cbn [fst snd]. destruct (time_is_zero start), (time_is_zero end_); rewrite ?string_app_assoc; by eexists _, _. }
  destruct Hb as (a & b & Ha & Hb). rewrite Ha, Hb. apply sorted_unique; [apply (kv_iter_sorted d')|apply (kv_iter_sorted d)|]. intros [k v]. rewrite !kv_iter_spec.
  assert (Hsame : String.le ("events:" ++ a) k -> slt k ("events:" ++ b) -> kv_get d' k = kv_get d k).
  { intros Hlo Hhi. apply Hd. intros (f & e & _ & _ & -> & _). destruct (between_prefix _ _ _ _ Hlo Hhi) as [r E].
    pose proof (fprefix_series f (TenantID e ++ ":" ++ flayout f (Timestamp e) ++ ":" ++ typeStr (Type_ e))) as Hpre. fold (fkey f (TenantID e) (flayout f (Timestamp e)) (typeStr (Type_ e))) in Hpre.
    fold (ekey f e) in Hpre. rewrite E in Hpre. by apply HasPrefix_spec in Hpre as [r' ?]. }
  split; intros (Hv & Hlo & Hhi); (split_and!; [|done|done]); [rewrite <- Hsame|rewrite Hsame]; done.
Qed.

Lemma prunedTo_totals before es (d d' : DB) tenant start end_ : prunedTo before es d d' -> Forall countable es -> plain_tenant tenant ->
  before <= start -> 0 < start <= end_ -> inRange (start / Minute) (end_ / Minute) -> GetMetrics d' tenant start end_ = GetMetrics d tenant start end_.
Proof.
  intros Hd Hes Hp Hbs Hse Hr. unfold GetMetrics, time_is_zero. rewrite (proj2 (Z.eqb_neq start 0)), (proj2 (Z.eqb_neq end_ 0)) by lia. cbn [negb andb].
  unfold rangeCounters. rewrite !truncateMinute_eq, (prunedTo_range before es d d') by (done || (apply Z.div_le_mono; [done|lia])).
  by rewrite (prunedTo_log before es d d').
Qed.

Lemma drops_prunedTo fs before es (d : DB) r : drops fs before es d r -> exists bs n, r = Some (bs, n, None) /\ prunedTo before es d (committed bs d).
Proof.
  intros (bs & n & -> & _ & Hk). exists bs, n. split; [done|]. intros k Hno. apply Hk. intros (f & e & _ & Hrest). apply Hno. exists f, e. split; [|done].
  unfold allFamilies. rewrite !elem_of_cons. destruct f; tauto.
Qed.

(** Pruning keeps later totals.  After a pass over the minutes, or over the
    hours and days, every total of a period that begins at or after the cutoff
    is what it was: the counters such a period is tiled from are all kept, the
    cutoff's own hour and day included. *)
Theorem pruning_keeps_later_totals ls (d0 : DB) before es d r :
  (forall k, kv_get d0 k = None) -> Forall smooth ls -> w_done (run ls (NewStore d0)) = true -> es = written (accepted ls (NewStore d0)) ->
  d = w_db (run ls (NewStore d0)) -> Forall countable es -> datable before -> before <> 0 ->
  r = PruneMinuteSeriesBefore (fun _ => None) (fun _ => None) before d \/ r = PruneHourDaySeriesBefore (fun _ => None) (fun _ => None) (fun _ => None) before d ->
  exists bs n, r = Some (bs, n, None) /\ forall tenant start end_, plain_tenant tenant -> before <= start -> 0 < start <= end_ ->
    inRange (start / Minute) (end_ / Minute) -> GetMetrics (committed bs d) tenant start end_ = GetMetrics d tenant start end_.
Proof.
  intros Hd Hls Hdone -> -> Hes Hb Hz Hr. pose proof (closed_tallied ls d0 Hd Hls Hdone) as Ht.
  assert (Hdrop : exists fs, drops fs before (written (accepted ls (NewStore d0))) (w_db (run ls (NewStore d0))) r)
    by (destruct Hr as [->| ->]; [exists [minuteCounters]; by apply minute_pass_drops|exists [hourCounters; dayCounters]; by apply hour_day_pass_drops]).
  destruct Hdrop as [fs Hdrop]. destruct (drops_prunedTo _ _ _ _ _ Hdrop) as (bs & n & -> & Hp). exists bs, n. split; [done|].
  intros tenant start end_ Hten Hbs Hse Hrange. by apply (prunedTo_totals before (written (accepted ls (NewStore d0)))).
Qed.

End Passes.

End EventSeries.
