(* ===== verification/EventCases.v ===== *)
(** * The event store on concrete cases

    An instance of the key-value interface and of the codec, which shows that
    what [EventStore] and its clients assume of them can hold, the theorems on
    it, and the case of a process that dies halfway through a retention pass. *)
From S2P Require Import Prelude GoStrings Encoding KVStore Calendar Classify Admission Events EventStore.
From S2P Require Import EventTimeline EventListing EventRetention EventCounters EventSeries.

Module EventCases.
Import GoStrings KVStore Classify Events EventStore EventTimeline EventListing EventRetention EventCounters EventSeries.
Local Open Scope string_scope.
Local Open Scope Z_scope.

(** A database that is a finite map, and a codec that knows two events and a
    message and names them by their ids. *)
#[export] Instance EmailEvent_eq_dec : EqDecision EmailEvent.
Proof. solve_decision. Defined.
#[export] Instance Attachment_eq_dec : EqDecision Admission.Attachment.
Proof. solve_decision. Defined.
#[export] Instance EmailMessage_eq_dec : EqDecision EmailMessage.
Proof. solve_decision. Defined.

Definition sampleDB : Type := gmap string string.
#[export] Instance sampleKV : KV sampleDB := map_kv counterMerge.
#[export] Instance sampleKVLaws : KVLaws sampleDB counterMerge := map_kv_laws counterMerge.

Definition sampleEvent (id recipient : string) (t : Z) : EmailEvent :=
  mkEvent id "t1" "p1" "SMTP" "m1" DELIVERED recipient "Hello" t "".
Definition event1 : EmailEvent := sampleEvent "e1" "a@example.org" (unixEpoch + 1700000000 * Second).
Definition event2 : EmailEvent := sampleEvent "e2" "a@example.org" (unixEpoch + 1700000060 * Second).
Definition message1 : EmailMessage :=
  mkEmailMessage "m1" "t1" "p1" "me@example.com" ["a@example.org"] ["b@example.org"] [] "Hello" "<p>Hi</p>" "Hi" [] (unixEpoch + 1700000000 * Second).

#[export] Instance sampleCodec : Codec := {
  MarshalEvent e := if bool_decide (e = event1) then Ok "e1" else if bool_decide (e = event2) then Ok "e2" else Err "unsupported";
  UnmarshalEvent v := if eqb v "e1" then Ok event1 else if eqb v "e2" then Ok event2 else Err "invalid";
  MarshalMessage m := if bool_decide (m = message1) then Ok "m1" else Err "unsupported";
  UnmarshalMessage v := if eqb v "m1" then Ok message1 else Err "invalid"
}.

#[export] Instance sampleCodecLaws : CodecLaws sampleCodec.
Proof.
  split.
  - intros e v. simpl. repeat case_bool_decide; intros [= <-]; subst; done.
  - intros m v. simpl. repeat case_bool_decide; intros [= <-]; subst; done.
Qed.

(** Two events and a message are accepted; the writer takes one, and the rest
    when the store is closed. *)
Definition sampleLabels : list label :=
  [LEnqueue (WriteOp event1); LEnqueue (MessageOp message1); LTake true; LEnqueue (WriteOp event2); LClose; LStop (fun _ => true)].

Definition sampleStore : @Writer sampleDB := run sampleLabels (NewStore (∅ : sampleDB)).

Definition everything : ListFilter := mkFilter 1 "" "" UNSPECIFIED 0 0 "" false false "".

Example sample_pages : List_ (w_db sampleStore) "t1" everything =
  ([event2], "events:t1:7523372036854775807:e1").
Proof. vm_compute. reflexivity. Qed.


Lemma empty_one_latest : one_latest (kv_get (∅ : sampleDB)).
Proof. intros t th _. split; [done|]. intros ts _. split; [by intros [v ?]|done]. Qed.

Lemma timeline_lists_once_witness :
  kv_get (w_db sampleStore) (latestTsKey "t1" "m1:a@example.org") = Some (descendingTimestamp (Timestamp event2)).
Proof.
  apply (timeline_lists_once sampleLabels (∅ : sampleDB) "t1" "m1:a@example.org" (descendingTimestamp (Timestamp event2))).
  - apply empty_one_latest.
  - repeat constructor.
  - reflexivity.
  - apply descendingTimestamp_no_colon.
  - exists "e2". vm_compute. reflexivity.
Defined.

Lemma sample_accepted : accepted sampleLabels (NewStore (∅ : sampleDB)) = [WriteOp event1; MessageOp message1; WriteOp event2].
Proof. vm_compute. reflexivity. Qed.

Lemma sample_compatible : compatible (accepted sampleLabels (NewStore (∅ : sampleDB))).
Proof.
  rewrite sample_accepted. intros o o' Ho Ho'. rewrite !elem_of_cons in Ho, Ho'.
  destruct Ho as [->|[->|[->|Ho]]]; [| | |by apply elem_of_nil in Ho];
    (destruct Ho' as [->|[->|[->|Ho']]]; [| | |by apply elem_of_nil in Ho']);
    first [left; reflexivity | right; exact I | right; split; vm_compute; discriminate].
Qed.

Lemma closed_store_has_what_it_accepted_witness :
  GetByID (w_db sampleStore) "t1" "e2" = Ok (Some event2) /\ GetByID (w_db sampleStore) "t2" "e2" = Ok None.
Proof.
  destruct (closed_store_has_what_it_accepted sampleLabels (∅ : sampleDB) sampleStore) as [H _].
  - repeat constructor.
  - exact sample_compatible.
  - reflexivity.
  - vm_compute. reflexivity.
  - split.
    + apply (H event2 "e2"); [|reflexivity|reflexivity]. rewrite sample_accepted. do 2 right. left.
    + apply (H event2 "e2"); [|reflexivity|reflexivity]. rewrite sample_accepted. do 2 right. left.
Defined.

Lemma pages_make_the_listing_witness :
  exists pages, walk 3 (w_db sampleStore) "t1" everything "" = Some pages /\ concat pages = [event2; event1].
Proof.
  destruct (pages_make_the_listing 3 (w_db sampleStore) "t1" everything) as (pages & Hw & _ & Hc); [vm_compute; lia|].
  exists pages. split; [exact Hw|]. rewrite Hc. vm_compute. reflexivity.
Defined.

Lemma empty_db k : kv_get (∅ : sampleDB) k = None.
Proof. reflexivity. Qed.

Lemma sample_orderly : Forall orderly_label sampleLabels.
Proof. repeat constructor; vm_compute; discriminate. Qed.

Definition lastMinute : ListFilter := mkFilter 1 "" "" UNSPECIFIED (Timestamp event2) 0 "" false false "".

Lemma listing_is_exact_witness :
  exists pages, walk 2 (w_db sampleStore) "t1" lastMinute "" = Some pages /\ event2 ∈ concat pages /\ (event1 ∉ concat pages).
Proof.
  destruct (listing_is_exact sampleLabels (∅ : sampleDB) "t1" lastMinute 2) as (pages & Hw & _ & H & _).
  - exact empty_db.
  - exact sample_orderly.
  - reflexivity.
  - split; [|done]. intros _. vm_compute. repeat split; discriminate.
  - reflexivity.
  - vm_compute. lia.
  - exists pages. split; [exact Hw|]. clear Hw. split.
    + apply H. split; [done|]. split; [split; [intros _; vm_compute; discriminate|done]|]. split; [done|].
      exists "e2". split; vm_compute; reflexivity.
    + intros Hin. apply H in Hin as (_ & [Hp _] & _). specialize (Hp ltac:(vm_compute; discriminate)). vm_compute in Hp. by apply Hp.
Defined.

Lemma listing_since_1970_is_empty_witness :
  List_ (w_db sampleStore) "t1" everything <> ([], "") /\
  walk 5 (w_db sampleStore) "t1" (mkFilter 50 "" "" UNSPECIFIED unixEpoch 0 "" false false "") "" = Some [[]].
Proof.
  split; [vm_compute; discriminate|].
  apply (listing_since_1970_is_empty sampleLabels (∅ : sampleDB) "t1" (mkFilter 50 "" "" UNSPECIFIED unixEpoch 0 "" false false "") 4);
    [exact empty_db|exact sample_orderly|reflexivity|reflexivity|reflexivity].
Defined.

(** ** Counters *)

Lemma period_in_range : inRange (Timestamp event1 / Minute) (Timestamp event2 / Minute).
Proof. vm_compute. repeat split; discriminate. Qed.

Lemma five_runs_tile_any_range_witness : is_Some (rangeCounters (w_db sampleStore) "t1" (Timestamp event1) (Timestamp event2)).
Proof. apply (five_runs_tile_any_range (w_db sampleStore) "t1" (Timestamp event1) (Timestamp event2)). exact period_in_range. Defined.

Lemma period_totals_are_its_events_witness :
  GetMetrics (w_db sampleStore) "t1" (Timestamp event1) (Timestamp event2) !! typeStr DELIVERED = Some 2 /\
  default 0 (GetMetrics (w_db sampleStore) "t1" (Timestamp event1) (Timestamp event2) !! typeStr DELIVERED) = 2.
Proof.
  split; [vm_compute; reflexivity|].
  apply (period_totals_are_its_events sampleLabels (∅ : sampleDB) "t1" (Timestamp event1) (Timestamp event2) [event1; event2]).
  - exact empty_db.
  - repeat constructor.
  - reflexivity.
  - vm_compute. reflexivity.
  - repeat constructor; vm_compute; discriminate.
  - vm_compute. discriminate.
  - repeat constructor; discriminate.
  - exact period_in_range.
  - vm_compute. split; [reflexivity|discriminate].
  - exists event1. split; [by left|]. vm_compute. repeat split; discriminate.
Defined.

(** A pass with the second event's minute for its cutoff. *)
Lemma sample_countable : Forall countable [event1; event2].
Proof. repeat constructor; vm_compute; discriminate. Qed.

Lemma prune_drops_whole_buckets_witness :
  drops [minuteCounters] (Timestamp event2) [event1; event2] (w_db sampleStore) (PruneMinuteSeriesBefore (fun _ => None) (fun _ => None) (Timestamp event2) (w_db sampleStore)) /\
  (exists bs, PruneMinuteSeriesBefore (fun _ => None) (fun _ => None) (Timestamp event2) (w_db sampleStore) = Some (bs, 1, None)).
Proof.
  destruct (prune_drops_whole_buckets sampleLabels (∅ : sampleDB) (Timestamp event2) [event1; event2] (w_db sampleStore)) as [H _].
  - exact empty_db.
  - repeat constructor.
  - reflexivity.
  - vm_compute. reflexivity.
  - reflexivity.
  - exact sample_countable.
  - vm_compute. split; [discriminate|reflexivity].
  - discriminate.
  - split; [exact H|]. eexists. vm_compute. reflexivity.
Defined.

Lemma pruning_keeps_later_totals_witness :
  exists bs n, PruneMinuteSeriesBefore (fun _ => None) (fun _ => None) (Timestamp event2) (w_db sampleStore) = Some (bs, n, None) /\
    GetMetrics (committed bs (w_db sampleStore)) "t1" (Timestamp event2) (Timestamp event2) = GetMetrics (w_db sampleStore) "t1" (Timestamp event2) (Timestamp event2).
Proof.
  destruct (pruning_keeps_later_totals sampleLabels (∅ : sampleDB) (Timestamp event2) [event1; event2] (w_db sampleStore)
    (PruneMinuteSeriesBefore (fun _ => None) (fun _ => None) (Timestamp event2) (w_db sampleStore))) as (bs & n & Hr & Htot).
  - exact empty_db.
  - repeat constructor.
  - reflexivity.
  - vm_compute. reflexivity.
  - reflexivity.
  - exact sample_countable.
  - vm_compute. split; [discriminate|reflexivity].
  - discriminate.
  - left. reflexivity.
  - exists bs, n. split; [exact Hr|]. apply Htot.
    + repeat constructor; discriminate.
    + vm_compute. discriminate.
    + vm_compute. split; [reflexivity|discriminate].
    + vm_compute. repeat split; discriminate.
Defined.

(** ** Retention *)

Definition calm : RetEnv := mkRetEnv (fun _ => None) None (fun _ => None) (fun _ => None) (fun _ => None).

Lemma archived_before_deleted_witness :
  let pass := truncateBefore (mkRetEnv (fun _ => None) None (fun _ => None) (fun _ => None) (fun _ => Some "context canceled"))
                (Timestamp event2) (w_db sampleStore) in
  justified calm (kv_iter (w_db sampleStore) "events:" "events;") (descending (Timestamp event2)) (r_lines pass.1) (eventKey event1).
Proof.
  intros pass. destruct pass as [st err] eqn:E.
  assert (H : justified (mkRetEnv (fun _ => None) None (fun _ => None) (fun _ => None) (fun _ => Some "context canceled"))
    (kv_iter (w_db sampleStore) "events:" "events;") (descending (Timestamp event2)) (r_lines st) (eventKey event1)).
  { apply (archived_before_deleted _ _ _ _ _ _ E); [|reflexivity]. apply (f_equal fst) in E. vm_compute in E. simpl in E. subst st.
    eexists. split; [by left|]. right. by left. }
  destruct H as (v & ts & id & H1 & H2 & H3 & H4). exists v, ts, id. split_and!; [done..|]. intros e He.
  destruct (H4 e He) as [(ask & ids & held & ? & _)|?]; [done|by right].
Defined.

Lemma retention_expires_exactly_witness :
  exists st, truncateBefore calm (Timestamp event2) (w_db sampleStore) = (st, None) /\
    kv_get (after_pass st (w_db sampleStore)) (eventKey event1) = None /\
    kv_get (after_pass st (w_db sampleStore)) (eventKey event2) = Some "e2".
Proof.
  destruct (retention_expires_exactly sampleLabels (∅ : sampleDB) calm (Timestamp event2) (w_db sampleStore)) as (st & Hrun & Hrows & _).
  - exact empty_db.
  - exact sample_orderly.
  - reflexivity.
  - vm_compute. split; discriminate.
  - repeat split.
  - exists st. split; [exact Hrun|]. split.
    + apply (Hrows event1 "e1"); vm_compute; reflexivity.
    + apply (Hrows event2 "e2"); vm_compute; reflexivity.
Defined.

Lemma message_takes_its_index_witness :
  let pass := TruncateMessagesBefore (fun _ => None) (fun _ => None) (unixEpoch + 1800000000 * Second) (w_db sampleStore) in
  exists b, b ∈ pass.1.1 /\ KDelete (messageKey "t1" "m1") ∈ b /\ whole (unixEpoch + 1800000000 * Second) (kv_iter (w_db sampleStore) "messages:" "messages;") b.
Proof.
  intros pass. destruct pass as [[commits n] err] eqn:E.
  destruct (message_takes_its_index (fun _ => None) (fun _ => None) (unixEpoch + 1800000000 * Second) (w_db sampleStore) commits n err E) as [H1 H2].
  destruct (H2 ltac:(apply (f_equal snd) in E; vm_compute in E; by rewrite <- E) (messageKey "t1" "m1") "m1" message1) as (b & Hb & Hk).
  - vm_compute. left.
  - reflexivity.
  - vm_compute. reflexivity.
  - exists b. split; [exact Hb|]. split; [exact Hk|]. rewrite Forall_forall in H1. by apply H1.
Defined.

(** A pass that stops halfway strands an entry on the timeline.  When the
    process dies, or the caller gives up, after a chunk of expired events is
    committed and before the writer has dropped their timeline pointers, the
    timeline goes on listing an event the log no longer has -- and no later pass
    finds it. *)
Theorem stopped_pass_strands_the_timeline :
  let cutoff := unixEpoch + 1800000000 * Second in
  let stopped := TruncateBefore (mkRetEnv (fun _ => None) None (fun _ => None) (fun _ => None) (fun _ => Some "context canceled")) cutoff (w_db sampleStore) in
  let d1 := after_pass stopped.1 (w_db sampleStore) in
  let again := TruncateBefore calm cutoff d1 in
  let d2 := after_pass again.1 d1 in
  let timeline := mkFilter 50 "" "" UNSPECIFIED 0 0 "" true false "" in
  stopped.2 = Some "context canceled" /\ GetByID d1 "t1" "e2" = Ok None /\ List_ d1 "t1" everything = ([], "") /\
  again.2 = None /\ r_removed again.1 = 0 /\ List_ d2 "t1" timeline = ([event2], "").
Proof. vm_compute. split_and!; reflexivity. Qed.

End EventCases.
