(* ===== verification/SharedEvents.v ===== *)
(** * Events in the shared database: what is written

    Models [internal/event/repositories/stores/postgres/writer.go] and the
    encoding halves of [events.go] and [store.go] there: the batching writer --
    its queue, its loop, its flushes, its stop --, the rows an insert binds and
    what is read back from them, and the counters a flush keeps.  What the two
    engines keep of a value is a parameter, [Dialect].  The point of the file is
    that the writer's own counts say everything that can be missing from the
    table, and that the counters are those of what was written. *)
From S2P Require Import Prelude GoStrings Encoding KVStore Calendar Timestamps Classify Admission Events EventStore EventCounters.
From Stdlib Require Import Ascii.

Module SharedEvents.
Import GoStrings Encoding KVStore Calendar Timestamps Classify Events EventStore EventCounters.
Local Open Scope string_scope.
Local Open Scope Z_scope.

(** ** Rows (migrations 0012, 0014, 0015 and 0013) *)

Record EventRow := mkEventRow {
  c_tenant : string;
  c_provider : option string;
  c_provider_name : option string;
  c_message : string;
  c_type : string;
  c_recipient : string;
  c_subject : option string;
  c_timestamp : Z;
  c_metadata : option string;
  c_error : option string
}.

Record MessageRow := mkMessageRow {
  b_tenant : string;
  b_provider : option string;
  b_from : string;
  b_to : option string;
  b_cc : option string;
  b_bcc : option string;
  b_subject : option string;
  b_html : option string;
  b_text : option string;
  b_attachments : option string;
  b_created : Z
}.

(** The four tables: events and messages by id, counters by tenant and type,
    series by tenant, granularity, bucket and type. *)
Record SDB := mkSDB {
  s_events : gmap string EventRow;
  s_counters : gmap (string * string) Z;
  s_series : gmap (string * string * string * string) Z;
  s_messages : gmap string MessageRow
}.

Definition emptySDB : SDB := mkSDB ∅ ∅ ∅ ∅.

Definition set_events (m : gmap string EventRow) (d : SDB) : SDB := mkSDB m (s_counters d) (s_series d) (s_messages d).
Definition set_counters (m : gmap (string * string) Z) (d : SDB) : SDB := mkSDB (s_events d) m (s_series d) (s_messages d).
Definition set_series (m : gmap (string * string * string * string) Z) (d : SDB) : SDB := mkSDB (s_events d) (s_counters d) m (s_messages d).
Definition set_messages (m : gmap string MessageRow) (d : SDB) : SDB := mkSDB (s_events d) (s_counters d) (s_series d) m.

(** ** The engine *)

(** What differs between PostgreSQL and SQLite, and what their drivers do: what
    a UUID column keeps of a text, if it takes it; what a timestamp column keeps
    of an instant; which texts the other columns take; the order a scan meets
    rows in.  [uuidParse] is [uuid.Parse], [encodeMetadata] the JSON of an
    event's metadata, if it has any that marshals, and [lenient] the general
    parser of [time.Parse]. *)
Class Dialect := {
  isPostgres : bool;
  uuidColumn : string -> option string;
  timeColumn : Z -> Z;
  textColumn : string -> bool;
  recipientColumn : string -> bool;
  heapOrder : gmap string EventRow -> list (string * EventRow);
  uuidParse : string -> bool;
  encodeMetadata : EmailEvent -> option string;
  lenient : string -> option Z
}.

(** A value read back is taken as it is, and as [uuid.Parse] takes it; instants
    keep their order; a scan meets every row once. *)
Class DialectLaws (D : Dialect) := {
  uuid_stable : forall s u, uuidColumn s = Some u -> uuidColumn u = Some u;
  uuid_parses : forall u, uuidColumn u = Some u -> isPostgres = true -> uuidParse u = true;
  time_mono : forall t u, t <= u -> timeColumn t <= timeColumn u;
  time_stable : forall t, timeColumn (timeColumn t) = timeColumn t;
  heap_rows : forall m, heapOrder m ≡ₚ map_to_list m
}.

(** The JSON of the lists a message keeps; what does not unmarshal leaves the
    field as it was, empty.  [validText] is UTF-8, which JSON keeps as it is. *)
Class ListCodec := {
  validText : string -> bool;
  MarshalList : list string -> result string string;
  UnmarshalList : string -> list string;
  validAttachment : option Admission.Attachment -> bool;
  MarshalAttachments : list (option Admission.Attachment) -> result string string;
  UnmarshalAttachments : string -> list (option Admission.Attachment)
}.

Class ListCodecLaws (J : ListCodec) := {
  list_roundtrip : forall l, Forall (fun s => validText s = true) l -> exists v, MarshalList l = Ok v /\ v <> "" /\ UnmarshalList v = l;
  attachments_roundtrip : forall l, Forall (fun a => validAttachment a = true) l ->
    exists v, MarshalAttachments l = Ok v /\ v <> "" /\ UnmarshalAttachments v = l
}.

(** ** Types by name *)

Definition typeName (t : EmailEventType) : string := "EMAIL_EVENT_TYPE_" ++ typeStr t.

Definition allTypes : list EmailEventType :=
  [UNSPECIFIED; SENT; DELIVERED; OPENED; CLICKED; BOUNCED; HARD_BOUNCE; SOFT_BOUNCE; SPAM_REPORT; UNSUBSCRIBED;
   DROPPED; REJECTED; PENDING; DEFERRED; COMPLAINED].

(** [EmailEventType_value]: a name this build does not know is the zero type. *)
Definition typeValue (name : string) : EmailEventType :=
  match list_find (fun t => typeName t = name) allTypes with Some (_, t) => t | None => UNSPECIFIED end.

(** ** The insert *)

(** An argument of a statement. *)
Inductive arg :=
| ANull
| AText (s : string)
| ATime (t : Z).

Definition columnsPerRow : nat := 11.
Definition batchSize : nat := 500.
Definition queueDepth : nat := Z.to_nat 8192.

(** [nullableUUID], [nullableText]: no value rather than an empty one. *)
Definition nullable (v : string) : arg := if eqb v "" then ANull else AText v.

Section Engine.
Context {D : Dialect}.

Definition rowArgs (e : EmailEvent) : list arg :=
  [AText (ID e); AText (TenantID e); nullable (ProviderID e); nullable (ProviderName e);
   AText (MessageID e); AText (typeName (Type_ e)); AText (Recipient e); AText (Subject e);
   ATime (Timestamp e); match encodeMetadata e with Some j => AText j | None => ANull end; nullable (ErrorMessage e)].

(** The numbers of the placeholders, tuple by tuple, and the arguments. *)
Definition renderInsert (batch : list EmailEvent) : list (list nat) * list arg :=
  (imap (fun i _ => (fun c => i * columnsPerRow + c + 1)%nat <$> seq 0 columnsPerRow) batch, concat (rowArgs <$> batch)).

(** The database binds [$n] to the n-th argument. *)
Definition bindArgs (placeholders : list (list nat)) (args : list arg) : option (list (list arg)) :=
  mapM (mapM (fun n => match n with O => None | S k => args !! k end)) placeholders.

(** What the columns make of an argument. *)
Definition colUuid (a : arg) : option string := match a with AText s => uuidColumn s | _ => None end.
Definition colUuidNull (a : arg) : option (option string) := match a with ANull => Some None | _ => Some <$> colUuid a end.
Definition colText (a : arg) : option string := match a with AText s => if textColumn s then Some s else None | _ => None end.
Definition colTextNull (a : arg) : option (option string) := match a with ANull => Some None | _ => Some <$> colText a end.
Definition colRecipient (a : arg) : option string := colText a ≫= fun s => if recipientColumn s then Some s else None.
Definition colTime (a : arg) : option Z := match a with ATime t => Some (timeColumn t) | _ => None end.

Definition insertedRow (tuple : list arg) : option (string * EventRow) :=
  match tuple with
  | [id; tenant; provider; pname; message; ty; recipient; subject; ts; meta; err] =>
      colUuid id ≫= fun id => colUuid tenant ≫= fun tenant => colUuidNull provider ≫= fun provider =>
      colTextNull pname ≫= fun pname => colUuid message ≫= fun message => colText ty ≫= fun ty =>
      colRecipient recipient ≫= fun recipient => colTextNull subject ≫= fun subject => colTime ts ≫= fun ts =>
      colTextNull meta ≫= fun meta => colTextNull err ≫= fun err =>
      Some (id, mkEventRow tenant provider pname message ty recipient subject ts meta err)
  | _ => None
  end.

(** [ON CONFLICT (id) DO NOTHING]. *)
Definition addRow (m : gmap string EventRow) (r : string * EventRow) : gmap string EventRow :=
  match m !! r.1 with Some _ => m | None => <[r.1 := r.2]> m end.

Definition invalidInput : string := "invalid input syntax".

(** [insert_events.sql]: one value a column refuses fails the statement. *)
Definition insertEvents (placeholders : list (list nat)) (args : list arg) (d : SDB) : result string (SDB * unit) :=
  match bindArgs placeholders args ≫= mapM insertedRow with
  | None => Err invalidInput
  | Some rs => Ok (set_events (foldl addRow (s_events d) rs) d, tt)
  end.

(** ** The counters *)

(** How often each key occurs: a Go map counted up. *)
Definition tallyKeys {K} `{Countable K} (ks : list K) : gmap K Z :=
  foldl (fun m k => <[k := default 0 (m !! k) + 1]> m) ∅ ks.

Definition granularityName (f : counterFamily) : string :=
  match f with dayCounters => "day" | hourCounters => "hour" | minuteCounters => "minute" end.

Definition counterKey (e : EmailEvent) : string * string := (TenantID e, typeName (Type_ e)).
Definition seriesKeys (e : EmailEvent) : list (string * string * string * string) :=
  (fun f => (TenantID e, granularityName f, flayout f (Timestamp e), typeName (Type_ e))) <$> [dayCounters; hourCounters; minuteCounters].

(** [ON CONFLICT ... DO UPDATE SET count = count + EXCLUDED.count], on a BIGINT. *)
Definition addCount {K} `{Countable K} (k : K) (n : Z) (m : gmap K Z) : result string (gmap K Z) :=
  let c := default 0 (m !! k) + n in
  if maxInt64 <? c then Err "bigint out of range" else Ok (<[k := c]> m).

Definition upsertCounter (k : string * string) (n : Z) (d : SDB) : result string (SDB * unit) :=
  match uuidColumn k.1 with
  | None => Err invalidInput
  | Some tenant => match addCount (tenant, k.2) n (s_counters d) with Ok m => Ok (set_counters m d, tt) | Err e => Err e end
  end.

Definition upsertSeries (k : string * string * string * string) (n : Z) (d : SDB) : result string (SDB * unit) :=
  let '(tenant, g, bucket, ty) := k in
  match uuidColumn tenant with
  | None => Err invalidInput
  | Some tenant => match addCount (tenant, g, bucket, ty) n (s_series d) with Ok m => Ok (set_series m d, tt) | Err e => Err e end
  end.

(** The first that fails ends it; [fs n] is how the n-th statement goes. *)
Fixpoint upserts {K : Type} (stmt : K -> Z -> SDB -> result string (SDB * unit)) (fs : nat -> fault) (n : nat) (l : list (K * Z)) (d : SDB) : SDB :=
  match l with
  | [] => d
  | (k, c) :: rest =>
      match exec (fs n) (stmt k c) d with
      | (d', Err _) => d'
      | (d', Ok _) => upserts stmt fs (S n) rest d'
      end
  end.

(** How a flush goes: its insert, its upserts, and the orders its two maps are
    ranged over in. *)
Record FlushEnv := mkFlushEnv {
  fl_insert : fault;
  fl_counter : nat -> fault;
  fl_series : nat -> fault;
  fl_counters_order : list (string * string * Z) -> list (string * string * Z);
  fl_series_order : list (string * string * string * string * Z) -> list (string * string * string * string * Z)
}.

Definition bumpCounters (env : FlushEnv) (batch : list EmailEvent) (d : SDB) : SDB :=
  upserts upsertCounter (fl_counter env) 0 (fl_counters_order env (map_to_list (tallyKeys (counterKey <$> batch)))) d.

Definition bumpTimeseries (env : FlushEnv) (batch : list EmailEvent) (d : SDB) : SDB :=
  upserts upsertSeries (fl_series env) 0 (fl_series_order env (map_to_list (tallyKeys (batch ≫= seriesKeys)))) d.

(** ** The writer *)

Inductive Loop := NotStarted | Running | Ended.

(** The queue, the batch the loop fills, whether it was told to stop, where the
    loop is, the three counters, and the database.  [w_landed] is kept for the
    proofs: the events whose insert was confirmed, in order. *)
Record Writer := mkWriter {
  w_ch : list EmailEvent;
  w_batch : list EmailEvent;
  w_stop : bool;
  w_loop : Loop;
  w_written : Z;
  w_dropped : Z;
  w_failed : Z;
  w_landed : list EmailEvent;
  w_db : SDB
}.

Definition NewWriter (d : SDB) : Writer := mkWriter [] [] false NotStarted 0 0 0 [] d.

Definition set_ch (c : list EmailEvent) (w : Writer) : Writer :=
  mkWriter c (w_batch w) (w_stop w) (w_loop w) (w_written w) (w_dropped w) (w_failed w) (w_landed w) (w_db w).
Definition set_batch (b : list EmailEvent) (w : Writer) : Writer :=
  mkWriter (w_ch w) b (w_stop w) (w_loop w) (w_written w) (w_dropped w) (w_failed w) (w_landed w) (w_db w).
Definition set_loop (l : Loop) (w : Writer) : Writer :=
  mkWriter (w_ch w) (w_batch w) (w_stop w) l (w_written w) (w_dropped w) (w_failed w) (w_landed w) (w_db w).
Definition set_db (d : SDB) (w : Writer) : Writer :=
  mkWriter (w_ch w) (w_batch w) (w_stop w) (w_loop w) (w_written w) (w_dropped w) (w_failed w) (w_landed w) d.

(** [Write]: never waits; a full queue drops and counts. *)
Definition Write (e : option EmailEvent) (w : Writer) : Writer :=
  match e with
  | None => w
  | Some e =>
      if (length (w_ch w) <? queueDepth)%nat then set_ch (w_ch w ++ [e])%list w
      else mkWriter (w_ch w) (w_batch w) (w_stop w) (w_loop w) (w_written w) (w_dropped w + 1) (w_failed w) (w_landed w) (w_db w)
  end.

(** [flush]: one insert for the batch, and the counters when it is confirmed. *)
Definition flush (env : FlushEnv) (batch : list EmailEvent) (w : Writer) : Writer :=
  let n := Z.of_nat (length batch) in
  let '(statement, args) := renderInsert batch in
  match exec (fl_insert env) (insertEvents statement args) (w_db w) with
  | (d, Err _) => mkWriter (w_ch w) (w_batch w) (w_stop w) (w_loop w) (w_written w) (w_dropped w) (w_failed w + n) (w_landed w) d
  | (d, Ok _) =>
      mkWriter (w_ch w) (w_batch w) (w_stop w) (w_loop w) (w_written w + n) (w_dropped w) (w_failed w) (w_landed w ++ batch)%list
        (bumpTimeseries env batch (bumpCounters env batch d))
  end.

(** The loop's own [flush]: nothing for an empty batch. *)
Definition flushBatch (env : FlushEnv) (w : Writer) : Writer :=
  match w_batch w with
  | [] => w
  | batch => set_batch [] (flush env batch w)
  end.

(** An event taken onto the batch, which goes when it is full. *)
Definition takeEvent (env : FlushEnv) (e : EmailEvent) (w : Writer) : Writer :=
  let w' := set_batch (w_batch w ++ [e])%list w in
  if (batchSize <=? length (w_batch w'))%nat then flushBatch env w' else w'.

(** What is queued, taken until the queue is empty; the n-th event's flush, if it
    fills the batch, goes as [envs n] says. *)
Fixpoint drain (envs : nat -> FlushEnv) (n : nat) (es : list EmailEvent) (w : Writer) : Writer :=
  match es with
  | [] => w
  | e :: rest => drain envs (S n) rest (takeEvent (envs n) e w)
  end.

Definition drainQueue (envs : nat -> FlushEnv) (w : Writer) : Writer :=
  flushBatch (envs (length (w_ch w))) (drain envs 0 (w_ch w) (set_ch [] w)).

(** What happens to a writer: an event offered; the loop started, taking an
    event, its ticker firing, its context ending -- it drains, then ends --, or
    its being told to stop; [Stop] closing the channel and, once no loop runs,
    writing what is left.  [Stop]'s own batch is another than the loop's, which is
    empty by then. *)
Inductive label :=
| LWrite (e : option EmailEvent)
| LStart
| LTake (env : FlushEnv)
| LTick (env : FlushEnv)
| LDone (envs : nat -> FlushEnv)
| LStopped (env : FlushEnv)
| LStop
| LRemainder (envs : nat -> FlushEnv).

Definition running (w : Writer) : bool := match w_loop w with Running => true | _ => false end.

Definition step (l : label) (w : Writer) : Writer :=
  match l with
  | LWrite e => Write e w
  | LStart => match w_loop w with NotStarted => set_loop Running w | _ => w end
  | LTake env => if running w then match w_ch w with e :: rest => takeEvent env e (set_ch rest w) | [] => w end else w
  | LTick env => if running w then flushBatch env w else w
  | LDone envs => if running w then set_loop Ended (drainQueue envs w) else w
  | LStopped env => if running w && w_stop w then set_loop Ended (flushBatch env w) else w
  | LStop => mkWriter (w_ch w) (w_batch w) true (w_loop w) (w_written w) (w_dropped w) (w_failed w) (w_landed w) (w_db w)
  | LRemainder envs => if w_stop w && negb (running w) then drainQueue envs w else w
  end.

Definition run (ls : list label) (w : Writer) : Writer := foldl (fun w l => step l w) w ls.

(** What was offered, nil apart. *)
Definition offered (ls : list label) : list EmailEvent := omap (fun l => match l with LWrite e => e | _ => None end) ls.

(** [Stats]. *)
Definition Stats (w : Writer) : Z * Z * Z := (w_written w, w_dropped w, w_failed w).

(** [Stop], when the loop, if it runs, hears it next. *)
Definition Stop (envs : nat -> FlushEnv) (w : Writer) : Writer :=
  run [LStop; LStopped (envs 0%nat); LRemainder (fun n => envs (S n))] w.

End Engine.

(** ** What is read back *)

Section Scan.
Context {J : ListCodec}.

(** [scanEvent]. *)
Definition scanEvent (r : string * EventRow) : EmailEvent :=
  mkEvent r.1 (c_tenant r.2) (default "" (c_provider r.2)) (default "" (c_provider_name r.2)) (c_message r.2)
    (typeValue (c_type r.2)) (c_recipient r.2) (default "" (c_subject r.2)) (c_timestamp r.2) (default "" (c_error r.2)).

Definition encodeList (v : list string) : arg :=
  match v with [] => ANull | _ => match MarshalList v with Ok j => AText j | Err _ => ANull end end.

Definition encodeAttachments (a : list (option Admission.Attachment)) : arg :=
  match a with [] => ANull | _ => match MarshalAttachments a with Ok j => AText j | Err _ => ANull end end.

Definition decodeList (v : option string) : list string :=
  match v with Some s => if eqb s "" then [] else UnmarshalList s | None => [] end.

Definition decodeAttachments (v : option string) : list (option Admission.Attachment) :=
  match v with Some s => if eqb s "" then [] else UnmarshalAttachments s | None => [] end.

(** [scanMessage]. *)
Definition scanMessage (r : string * MessageRow) : EmailMessage :=
  mkEmailMessage r.1 (b_tenant r.2) (default "" (b_provider r.2)) (b_from r.2) (decodeList (b_to r.2)) (decodeList (b_cc r.2))
    (decodeList (b_bcc r.2)) (default "" (b_subject r.2)) (default "" (b_html r.2)) (default "" (b_text r.2))
    (decodeAttachments (b_attachments r.2)) (b_created r.2).

End Scan.

(** ** The insert binds each event's row *)

Section Writing.
Context {D : Dialect}.

(** The row an event makes, if the columns take it. *)
Definition eventRow (e : EmailEvent) : option (string * EventRow) := insertedRow (rowArgs e).

Lemma concat_rows_lookup batch : forall i c e, batch !! i = Some e -> (c < columnsPerRow)%nat ->
  concat (rowArgs <$> batch) !! (i * columnsPerRow + c)%nat = rowArgs e !! c.
Proof.
  induction batch as [|a batch IH]; intros [|i] c e He Hc; [done|done| |]; cbn [fmap list_fmap concat].
  - injection He as ->. apply lookup_app_l. done.
  - rewrite lookup_app_r by (cbn; lia). rewrite <- (IH i c e He Hc). f_equal. cbn. lia.
Qed.

Lemma renderInsert_binds batch : bindArgs (renderInsert batch).1 (renderInsert batch).2 = Some (rowArgs <$> batch).
Proof.
  unfold bindArgs, renderInsert. apply mapM_Some, Forall2_same_length_lookup. cbn [fst snd].
  split; [by rewrite length_imap, length_fmap|]. intros i x y Hx Hy. rewrite list_lookup_imap in Hx. rewrite list_lookup_fmap in Hy.
  destruct (batch !! i) as [e|] eqn:Ee; [|done]. apply (inj Some) in Hx, Hy. subst x y.
  apply mapM_Some, Forall2_same_length_lookup. split; [reflexivity|].
  intros c n a Hn Ha. rewrite list_lookup_fmap in Hn. destruct (seq 0 columnsPerRow !! c) as [c'|] eqn:Ec; [|done].
  apply lookup_seq in Ec as [-> Hc]. apply (inj Some) in Hn. subst n. rewrite Nat.add_comm. cbn [Nat.add].
  by rewrite (concat_rows_lookup batch i c e Ee Hc).
Qed.

Lemma insert_rows batch d : insertEvents (renderInsert batch).1 (renderInsert batch).2 d =
  match mapM eventRow batch with None => Err invalidInput | Some rs => Ok (set_events (foldl addRow (s_events d) rs) d, tt) end.
Proof.
  unfold insertEvents. rewrite renderInsert_binds. cbn [mbind option_bind].
  replace (mapM insertedRow (rowArgs <$> batch)) with (mapM eventRow batch); [done|].
  induction batch as [|e batch IH]; [done|]. cbn [fmap list_fmap mapM]. by rewrite IH.
Qed.

Lemma upserts_events {K} (stmt : K -> Z -> SDB -> result string (SDB * unit)) fs :
  (forall k n d d' u, stmt k n d = Ok (d', u) -> s_events d' = s_events d) ->
  forall l n d, s_events (upserts stmt fs n l d) = s_events d.
Proof.
  intros Hstmt. induction l as [|[k c] l IH]; intros n d; [done|]. cbn [upserts]. unfold exec.
  destruct (fs n); [|done|done|]; destruct (stmt k c d) as [[d' []]|] eqn:E; try done; [rewrite IH|]; by eapply Hstmt.
Qed.

Lemma bumps_events env batch d : s_events (bumpTimeseries env batch (bumpCounters env batch d)) = s_events d.
Proof.
  unfold bumpTimeseries, bumpCounters. rewrite !upserts_events; [done|..].
  - intros k n d1 d2 u. unfold upsertCounter. by repeat case_match; intros; simplify_eq.
  - intros [[[t g] b] y] n d1 d2 u. unfold upsertSeries. by repeat case_match; intros; simplify_eq.
Qed.

(** ** The counts say what is missing *)

(** What a flush does: it confirms the batch, or counts it as failed. *)
Lemma flush_cases env batch w :
  w_ch (flush env batch w) = w_ch w /\ w_stop (flush env batch w) = w_stop w /\ w_loop (flush env batch w) = w_loop w /\
  w_dropped (flush env batch w) = w_dropped w /\
  ((exists rs, mapM eventRow batch = Some rs /\ w_written (flush env batch w) = w_written w + Z.of_nat (length batch) /\
      w_failed (flush env batch w) = w_failed w /\ w_landed (flush env batch w) = (w_landed w ++ batch)%list /\
      s_events (w_db (flush env batch w)) = foldl addRow (s_events (w_db w)) rs) \/
   (w_written (flush env batch w) = w_written w /\ w_failed (flush env batch w) = w_failed w + Z.of_nat (length batch) /\
      w_landed (flush env batch w) = w_landed w /\
      (s_events (w_db (flush env batch w)) = s_events (w_db w) \/
       exists rs, mapM eventRow batch = Some rs /\ s_events (w_db (flush env batch w)) = foldl addRow (s_events (w_db w)) rs))).
Proof.
  unfold flush. rewrite (surjective_pairing (renderInsert batch)). unfold exec. rewrite insert_rows.
  destruct (fl_insert env); [|split_and!; [done..|]; right; by eauto..|].
  - destruct (mapM eventRow batch) as [rs|]; (split_and!; [done..|]); [|right; by eauto].
    left. exists rs. split_and!; [done..|]. cbn [w_db]. by rewrite bumps_events.
  - destruct (mapM eventRow batch) as [rs|]; (split_and!; [done..|]); right; eauto 10.
Qed.

(** Rows added are those of the batch, and none is replaced. *)
Lemma addRows_lookup rs : forall m id r, foldl addRow m rs !! id = Some r -> m !! id = Some r \/ (id, r) ∈ rs.
Proof.
  induction rs as [|[i x] rs IH]; intros m id r; [by left|]. cbn [foldl]. intros [H|H]%IH; [|right; by right].
  unfold addRow in H. cbn [fst snd] in H. destruct (m !! i) eqn:E; [by left|].
  apply lookup_insert_Some in H as [[-> ->]|[_ H]]; [right; by left|by left].
Qed.

Lemma addRows_keeps rs : forall m id r, m !! id = Some r -> foldl addRow m rs !! id = Some r.
Proof.
  induction rs as [|[i x] rs IH]; intros m id r H; [done|]. cbn [foldl]. apply IH. unfold addRow. cbn [fst snd].
  destruct (m !! i) eqn:E; [done|]. rewrite lookup_insert_ne; [done|]. intros ->. congruence.
Qed.

Lemma addRows_has rs : forall m x, x ∈ rs -> is_Some (foldl addRow m rs !! x.1).
Proof.
  induction rs as [|[i x] rs IH]; intros m y; [by intros ?%elem_of_nil|]. intros [->|Hy]%elem_of_cons; [|by apply IH].
  cbn [foldl]. unfold addRow at 2. cbn [fst snd]. destruct (m !! i) as [r|] eqn:E.
  - exists r. by apply addRows_keeps.
  - exists x. apply addRows_keeps. by rewrite lookup_insert_eq.
Qed.

Lemma mapM_omap {A B} (f : A -> option B) l rs : mapM f l = Some rs -> omap f l = rs /\ Forall (fun x => is_Some (f x)) l.
Proof.
  revert rs. induction l as [|x l IH]; intros rs; cbn [mapM omap list_omap]; [by intros [= <-]|].
  destruct (f x) as [y|] eqn:Ef; [|done]. cbn [mbind option_bind]. destruct (mapM f l) as [ys|]; [|done].
  intros [= <-]. destruct (IH ys eq_refl) as [<- Hf]. split; [done|]. constructor; [by eexists|done].
Qed.

(** Every event offered so far is written, dropped, failed or on its way; the
    table has no row that was not there or offered; and while nothing is dropped
    or failed, the table is the first row of each id, in the order offered. *)
Record accounted (d0 : SDB) (off : list EmailEvent) (w : Writer) : Prop := {
  acc_count : Z.of_nat (length off) = w_written w + w_dropped w + w_failed w + Z.of_nat (length (w_ch w)) + Z.of_nat (length (w_batch w));
  acc_nonneg : 0 <= w_dropped w /\ 0 <= w_failed w;
  acc_written : w_written w = Z.of_nat (length (w_landed w));
  acc_order : w_dropped w = 0 -> w_failed w = 0 ->
    off = (w_landed w ++ w_batch w ++ w_ch w)%list /\ Forall (fun e => is_Some (eventRow e)) (w_landed w) /\
    s_events (w_db w) = foldl addRow (s_events d0) (omap eventRow (w_landed w));
  acc_rows : forall id r, s_events (w_db w) !! id = Some r -> s_events d0 !! id = Some r \/ exists e, e ∈ off /\ eventRow e = Some (id, r);
  acc_from : forall e, e ∈ (w_landed w ++ w_batch w ++ w_ch w)%list -> e ∈ off
}.

Lemma flushBatch_accounted d0 off env w : accounted d0 off w -> accounted d0 off (flushBatch env w).
Proof.
  intros H. unfold flushBatch. destruct (w_batch w) as [|e b] eqn:Eb; [done|]. set (batch := e :: b) in *.
  destruct H as [Hc [Hd Hf] Hw Ho Hr Hin]. rewrite Eb in Hc, Ho, Hin.
  assert (Hnew : forall rs m, mapM eventRow batch = Some rs -> (forall id r, m !! id = Some r -> s_events d0 !! id = Some r \/ exists e, e ∈ off /\ eventRow e = Some (id, r)) ->
    forall id r, foldl addRow m rs !! id = Some r -> s_events d0 !! id = Some r \/ exists e, e ∈ off /\ eventRow e = Some (id, r)).
  { intros rs m Hrs Hm id r [H|H]%addRows_lookup; [by apply Hm|]. right. apply mapM_omap in Hrs as [<- _].
    apply list_elem_of_omap in H as (x & Hx & E). exists x. split; [|done]. apply Hin. rewrite !elem_of_app. auto. }
  destruct (flush_cases env batch w) as (E1 & E2 & E3 & E4 & [(rs & Hrs & E5 & E6 & E7 & E8)|(E5 & E6 & E7 & E8)]);
    constructor; cbn [set_batch w_ch w_batch w_stop w_loop w_written w_dropped w_failed w_landed w_db];
    rewrite ?E1, ?E4, ?E5, ?E6, ?E7.
  - rewrite Hc. cbn [length]. lia.
  - lia.
  - rewrite length_app. lia.
  - intros Hd0 Hf0. destruct (Ho Hd0 Hf0) as (Hoff & Hall & Hev). destruct (mapM_omap _ _ _ Hrs) as [Hom Hfa]. split_and!.
    + rewrite Hoff, <- app_assoc. done.
    + by apply Forall_app.
    + rewrite E8, Hev, omap_app, foldl_app, Hom. done.
  - rewrite E8. by apply Hnew.
  - intros x Hx. apply Hin. rewrite <- app_assoc in Hx. done.
  - rewrite Hc. cbn [length]. lia.
  - lia.
  - lia.
  - intros _ Hf0. unfold batch in Hf0. cbn [length] in Hf0. lia.
  - destruct E8 as [->|(rs & Hrs & ->)]; [done|by apply Hnew].
  - intros x Hx. apply Hin. apply elem_of_app in Hx as [Hx|Hx]; rewrite !elem_of_app; auto.
Qed.

Lemma takeEvent_accounted d0 off env e rest w : w_ch w = e :: rest -> accounted d0 off w -> accounted d0 off (takeEvent env e (set_ch rest w)).
Proof.
  intros Ech H. unfold takeEvent. set (w' := set_batch _ _).
  assert (Hw : accounted d0 off w').
  { destruct H as [Hc Hd Hw Ho Hr Hin]. rewrite Ech in Hc, Ho, Hin.
    constructor; cbn [w' set_batch set_ch w_ch w_batch w_stop w_loop w_written w_dropped w_failed w_landed w_db].
    - rewrite length_app. cbn [length] in *. lia.
    - done.
    - done.
    - intros Hd0 Hf0. destruct (Ho Hd0 Hf0) as (Hoff & ? & ?). split_and!; [|done|done]. by rewrite Hoff, <- app_assoc.
    - done.
    - intros x Hx. apply Hin. rewrite <- app_assoc in Hx. done. }
  destruct (_ <=? _)%nat; [by apply flushBatch_accounted|done].
Qed.

Lemma flushBatch_ch env c w : flushBatch env (set_ch c w) = set_ch c (flushBatch env w).
Proof.
  unfold flushBatch. cbn [set_ch w_batch]. destruct (w_batch w) as [|e b]; [done|]. unfold flush. cbn [set_ch w_db].
  destruct (renderInsert (e :: b)) as [st args]. by destruct (exec _ _ _) as [d [u|err]].
Qed.

Lemma takeEvent_ch env e c w : takeEvent env e (set_ch c w) = set_ch c (takeEvent env e w).
Proof.
  unfold takeEvent. change (set_batch (w_batch (set_ch c w) ++ [e])%list (set_ch c w)) with (set_ch c (set_batch (w_batch w ++ [e])%list w)).
  cbn [set_ch w_batch]. destruct (_ <=? _)%nat; [apply flushBatch_ch|done].
Qed.

Lemma drain_accounted d0 off envs : forall es n w, w_ch w = [] -> accounted d0 off (set_ch es w) ->
  accounted d0 off (drain envs n es w) /\ w_ch (drain envs n es w) = [].
Proof.
  induction es as [|e es IH]; intros n w Hch H; cbn [drain].
  - split; [|done]. replace w with (set_ch [] w); [done|]. destruct w; cbn in *; by subst.
  - apply IH.
    + replace w with (set_ch [] w) by (destruct w; cbn in *; by subst). by rewrite takeEvent_ch.
    + apply (takeEvent_accounted d0 off (envs n) e es) in H; [|done]. rewrite takeEvent_ch in H. by rewrite takeEvent_ch in H.
Qed.

Lemma flushBatch_batch env w : w_batch (flushBatch env w) = [].
Proof. unfold flushBatch. by destruct (w_batch w) eqn:E. Qed.

Lemma drainQueue_accounted d0 off envs w : accounted d0 off w ->
  accounted d0 off (drainQueue envs w) /\ w_ch (drainQueue envs w) = [] /\ w_batch (drainQueue envs w) = [].
Proof.
  intros H. unfold drainQueue. destruct (drain_accounted d0 off envs (w_ch w) 0 (set_ch [] w)) as [Ha Hch]; [done| |].
  { by destruct w. }
  set (w' := drain _ _ _ _) in *. split_and!; [by apply flushBatch_accounted| |apply flushBatch_batch].
  replace w' with (set_ch [] w') by (destruct w'; cbn in *; by subst). by rewrite flushBatch_ch.
Qed.

Lemma accounted_loop d0 off l w : accounted d0 off w -> accounted d0 off (set_loop l w).
Proof. by intros []. Qed.

(** The bounds: the queue's and the batch's; and no loop, no batch. *)
Record bounded (w : Writer) : Prop := {
  bnd_queue : (length (w_ch w) <= queueDepth)%nat;
  bnd_batch : (length (w_batch w) < batchSize)%nat;
  bnd_idle : running w = false -> w_batch w = []
}.

Lemma flushBatch_loop env w : w_loop (flushBatch env w) = w_loop w /\ w_ch (flushBatch env w) = w_ch w /\ w_stop (flushBatch env w) = w_stop w.
Proof. unfold flushBatch. destruct (w_batch w) eqn:E; [done|]. cbn [set_batch w_loop w_ch w_stop]. by destruct (flush_cases env (e :: l) w) as (-> & -> & -> & _). Qed.

Lemma takeEvent_bounded env e w : (length (w_batch w) < batchSize)%nat ->
  (length (w_batch (takeEvent env e w)) < batchSize)%nat /\ w_loop (takeEvent env e w) = w_loop w /\ w_ch (takeEvent env e w) = w_ch w.
Proof.
  intros H. unfold takeEvent. destruct (Nat.leb_spec batchSize (length (w_batch (set_batch (w_batch w ++ [e])%list w)))) as [Hf|Hf]; [|done].
  rewrite flushBatch_batch. destruct (flushBatch_loop env (set_batch (w_batch w ++ [e])%list w)) as (-> & -> & _). split; [cbn; unfold batchSize; lia|done].
Qed.

Lemma step_accounted d0 off l w : accounted d0 off w -> bounded w ->
  accounted d0 (off ++ offered [l]) (step l w) /\ bounded (step l w).
Proof.
  intros H Hb. assert (Hoff : forall w', accounted d0 off w' -> offered [l] = [] -> accounted d0 (off ++ offered [l]) w') by (intros w' Hw' ->; by rewrite app_nil_r).
  assert (Hdrained : forall w' l', accounted d0 off w' -> w_ch w' = [] -> w_batch w' = [] -> bounded (set_loop l' w')).
  { intros w' l' _ Hc Hba. constructor; cbn [set_loop w_ch w_batch]; rewrite ?Hc, ?Hba; [cbn; lia|unfold batchSize; cbn; lia|done]. }
  destruct l as [e| |env|env|envs|env| |envs]; cbn [step].
  - destruct e as [e|]; cbn [Write offered omap list_omap]; [|split; [by rewrite app_nil_r|done]].
    destruct (Nat.ltb_spec (length (w_ch w)) queueDepth) as [Hl|Hl].
    + split.
      * destruct H as [Hc Hd Hw Ho Hr Hin]. constructor; cbn [set_ch w_ch w_batch w_stop w_loop w_written w_dropped w_failed w_landed w_db].
        -- rewrite !length_app. cbn [length]. lia.
        -- done.
        -- done.
        -- intros Hd0 Hf0. destruct (Ho Hd0 Hf0) as (-> & ? & ?). split_and!; [|done|done]. by rewrite <- !app_assoc.
        -- intros id r Hlk. destruct (Hr id r Hlk) as [?|(x & ? & ?)]; [by left|right]. exists x. split; [apply elem_of_app; by left|done].
        -- intros x. rewrite !elem_of_app, list_elem_of_singleton. specialize (Hin x). rewrite !elem_of_app in Hin. tauto.
      * destruct Hb as [Hq Hba Hi]. constructor; cbn [set_ch w_ch w_batch]; [rewrite length_app; cbn [length]; lia|done|done].
    + split.
      * destruct H as [Hc Hd Hw Ho Hr Hin]. constructor; cbn [w_ch w_batch w_stop w_loop w_written w_dropped w_failed w_landed w_db].
        -- rewrite length_app. cbn [length]. lia.
        -- lia.
        -- done.
        -- lia.
        -- intros id r Hlk. destruct (Hr id r Hlk) as [?|(x & ? & ?)]; [by left|right]. exists x. split; [apply elem_of_app; by left|done].
        -- intros x Hx. apply elem_of_app. left. by apply Hin.
      * by destruct Hb.
  - destruct (w_loop w) eqn:El; (split; [apply Hoff; [try apply accounted_loop; done|done]|]); try done. destruct Hb as [Hq Hba Hi]. by constructor.
  - destruct (running w) eqn:Er; [|split; [by apply Hoff|done]]. destruct (w_ch w) as [|e rest] eqn:Ec; [split; [by apply Hoff|done]|].
    split; [apply Hoff; [by apply takeEvent_accounted|done]|]. destruct Hb as [Hq Hba Hi].
    destruct (takeEvent_bounded env e (set_ch rest w)) as (H1 & H2 & H3); [done|].
    constructor; [rewrite H3; cbn [set_ch w_ch]; rewrite Ec in Hq; cbn [length] in Hq; lia|done|]. unfold running in *. rewrite H2. cbn [set_ch w_loop]. by destruct (w_loop w).
  - destruct (running w) eqn:Er; [|split; [by apply Hoff|done]]. split; [apply Hoff; [by apply flushBatch_accounted|done]|].
    destruct (flushBatch_loop env w) as (H1 & H2 & _). destruct Hb as [Hq _ _].
    constructor; rewrite ?H2, ?flushBatch_batch; [done|unfold batchSize; cbn; lia|done].
  - destruct (running w) eqn:Er; [|split; [by apply Hoff|done]]. destruct (drainQueue_accounted d0 off envs w H) as (Ha & Hc & Hba).
    split; [apply Hoff; [by apply accounted_loop|done]|by apply Hdrained].
  - destruct (running w && w_stop w) eqn:Er; [|split; [by apply Hoff|done]].
    split; [apply Hoff; [by apply accounted_loop, flushBatch_accounted|done]|]. destruct (flushBatch_loop env w) as (H1 & H2 & _). destruct Hb as [Hq _ _].
    constructor; cbn [set_loop w_ch w_batch]; rewrite ?H2, ?flushBatch_batch; [done|unfold batchSize; cbn; lia|done].
  - split; [apply Hoff; [by destruct H|done]|by destruct Hb].
  - destruct (w_stop w && negb (running w)) eqn:Er; [|split; [by apply Hoff|done]]. destruct (drainQueue_accounted d0 off envs w H) as (Ha & Hc & Hba).
    split; [by apply Hoff|]. constructor; rewrite ?Hc, ?Hba; [cbn; lia|unfold batchSize; cbn; lia|done].
Qed.

Lemma run_accounted d0 ls : forall off w, accounted d0 off w -> bounded w -> accounted d0 (off ++ offered ls) (run ls w) /\ bounded (run ls w).
Proof.
  induction ls as [|l ls IH]; intros off w H Hb; [by rewrite app_nil_r|]. destruct (step_accounted d0 off l w H Hb) as [H1 H2].
  destruct (IH _ _ H1 H2) as [H3 H4]. split; [|done]. change (l :: ls) with ([l] ++ ls)%list. unfold offered in *. by rewrite omap_app, app_assoc.
Qed.

Lemma new_accounted d : accounted d [] (NewWriter d) /\ bounded (NewWriter d).
Proof.
  split; constructor; cbn; try done; [by intros ?? ?; left|unfold queueDepth; lia|unfold batchSize; lia].
Qed.

(** Stopping leaves nothing on its way. *)
Lemma Stop_empties d0 off envs w : accounted d0 off w -> bounded w ->
  accounted d0 off (Stop envs w) /\ w_ch (Stop envs w) = [] /\ w_batch (Stop envs w) = [].
Proof.
  intros H Hb. unfold Stop. set (ls := [LStop; LStopped (envs 0%nat)]). change ([LStop; LStopped (envs 0%nat); LRemainder (fun n => envs (S n))]) with (ls ++ [LRemainder (fun n => envs (S n))])%list.
  unfold run. rewrite foldl_app. fold (run ls w). destruct (run_accounted d0 ls off w H Hb) as [H1 H2]. rewrite app_nil_r in H1.
  assert (Hs : w_stop (run ls w) = true /\ running (run ls w) = false).
  { unfold run, ls. cbn [foldl step]. set (w1 := mkWriter _ _ true _ _ _ _ _ _). destruct (running w1) eqn:Er; cbn [w1 andb w_stop] in *; [|done].
    destruct (flushBatch_loop (envs 0%nat) w1) as (_ & _ & E). cbn [set_loop w_stop]. by rewrite E. }
  destruct Hs as [Hs Hr]. cbn [foldl step]. rewrite Hs, Hr. cbn [andb negb]. by apply drainQueue_accounted.
Qed.

(** C11: the writer's counts say what is missing.  Whatever is offered, and
    however its loop, its context and its flushes go, the queue never holds more
    than 8,192 events nor the batch 500; once [Stop] returns every event offered
    is counted as written, dropped or failed; the table gained no row that was
    not an event offered; and if nothing was dropped or failed, every event
    offered is in the table, the first of each id as it was offered. *)
Theorem losses_are_counted envs ls d :
  let w := run ls (NewWriter d) in let w' := Stop envs w in
  (length (w_ch w) <= queueDepth)%nat /\ (length (w_batch w) < batchSize)%nat /\
  Z.of_nat (length (offered ls)) = w_written w' + w_dropped w' + w_failed w' /\
  (forall id r, s_events (w_db w') !! id = Some r -> s_events d !! id = Some r \/ exists e, e ∈ offered ls /\ eventRow e = Some (id, r)) /\
  (w_dropped w' = 0 -> w_failed w' = 0 ->
     s_events (w_db w') = foldl addRow (s_events d) (omap eventRow (offered ls)) /\
     forall e, e ∈ offered ls -> exists id r, eventRow e = Some (id, r) /\ is_Some (s_events (w_db w') !! id)).
Proof.
  cbv zeta. destruct (new_accounted d) as [H0 B0]. destruct (run_accounted d ls [] _ H0 B0) as [H1 B1]. set (w := run ls (NewWriter d)) in *.
  destruct (Stop_empties d _ envs w H1 B1) as (H2 & Hc & Hb). destruct B1 as [Hq Hba _]. destruct H2 as [Hcount _ _ Ho Hr _].
  rewrite Hc, Hb in Hcount, Ho. cbn [app length] in Hcount, Ho. split_and!; [done|done|lia|exact Hr|].
  intros Hd Hf. destruct (Ho Hd Hf) as (Hoff & Hall & Hev). rewrite app_nil_r in Hoff. rewrite Hoff. split; [done|].
  intros e He. rewrite Forall_forall in Hall. destruct (Hall e He) as [[id r] E]. exists id, r. split; [done|].
  rewrite Hev. apply (addRows_has _ _ (id, r)). apply list_elem_of_omap. by exists e.
Qed.

(** One event a column refuses, and no event of its batch is written. *)
Lemma refused_fails_batch env batch e w : e ∈ batch -> eventRow e = None ->
  w_db (flush env batch w) = w_db w /\ w_failed (flush env batch w) = w_failed w + Z.of_nat (length batch) /\ w_written (flush env batch w) = w_written w.
Proof.
  intros He Hn. assert (Hm : mapM eventRow batch = None).
  { apply mapM_None. apply Exists_exists. by exists e. }
  unfold flush. rewrite (surjective_pairing (renderInsert batch)). unfold exec. rewrite insert_rows, Hm. by destruct (fl_insert env).
Qed.

(** ** What is read back is what was written *)

(** The columns keep the event as it is. *)
Definition kept (e : EmailEvent) : Prop :=
  uuidColumn (ID e) = Some (ID e) /\ uuidColumn (TenantID e) = Some (TenantID e) /\ uuidColumn (MessageID e) = Some (MessageID e) /\
  (ProviderID e <> "" -> uuidColumn (ProviderID e) = Some (ProviderID e)) /\ timeColumn (Timestamp e) = Timestamp e.

Lemma typeValue_name t : typeValue (typeName t) = t.
Proof. by destruct t; vm_compute. Qed.

Lemma colText_text v s : colText (AText v) = Some s -> s = v.
Proof. cbn [colText]. destruct (textColumn v); [by intros [= ->]|done]. Qed.

Lemma colTextNull_nullable v o : colTextNull (nullable v) = Some o -> o = if eqb v "" then None else Some v.
Proof. unfold nullable. destruct (eqb v ""); cbn [colTextNull]; [by intros [= <-]|]. by intros (s & ->%colText_text & ->)%fmap_Some. Qed.

Lemma colUuidNull_nullable v o : colUuidNull (nullable v) = Some o -> o = if eqb v "" then None else uuidColumn v.
Proof. unfold nullable. destruct (eqb v ""); cbn [colUuidNull]; [by intros [= <-]|]. by intros (s & Es & ->)%fmap_Some. Qed.

Lemma row_parts e id r : eventRow e = Some (id, r) ->
  uuidColumn (ID e) = Some id /\ uuidColumn (TenantID e) = Some (c_tenant r) /\ uuidColumn (MessageID e) = Some (c_message r) /\
  c_timestamp r = timeColumn (Timestamp e) /\ c_type r = typeName (Type_ e) /\ c_recipient r = Recipient e /\ c_subject r = Some (Subject e) /\
  c_error r = (if eqb (ErrorMessage e) "" then None else Some (ErrorMessage e)) /\
  c_provider_name r = (if eqb (ProviderName e) "" then None else Some (ProviderName e)) /\
  c_provider r = (if eqb (ProviderID e) "" then None else uuidColumn (ProviderID e)).
Proof.
  unfold eventRow, rowArgs, insertedRow. intros H.
  apply bind_Some in H as (i & Ei & H). apply bind_Some in H as (t & Et & H). apply bind_Some in H as (p & Ep & H).
  apply bind_Some in H as (pn & Epn & H). apply bind_Some in H as (m & Em & H). apply bind_Some in H as (ty & Ety & H).
  apply bind_Some in H as (rc & Erc & H). apply bind_Some in H as (sj & Esj & H). apply bind_Some in H as (ts & Ets & H).
  apply bind_Some in H as (me & _ & H). apply bind_Some in H as (er & Eer & H). injection H as <- <-.
  apply colUuidNull_nullable in Ep. apply colTextNull_nullable in Epn, Eer. apply colText_text in Ety.
  apply bind_Some in Erc as (rc' & ->%colText_text & Erc). destruct (recipientColumn (Recipient e)); [|done]. injection Erc as <-.
  unfold colTextNull in Esj. apply fmap_Some in Esj as (sj' & ->%colText_text & ->). injection Ets as <-. by split_and!.
Qed.

Lemma scan_kept e id r : kept e -> eventRow e = Some (id, r) -> scanEvent (id, r) = e.
Proof.
  intros (H1 & H2 & H3 & H4 & H5) (E1 & E2 & E3 & E4 & E5 & E6 & E7 & E8 & E9 & E10)%row_parts. unfold scanEvent. cbn [fst snd].
  rewrite H1 in E1. rewrite H2 in E2. rewrite H3 in E3. injection E1 as <-. injection E2 as <-. injection E3 as <-.
  rewrite E4, E5, E6, E7, E8, E9, E10, H5, typeValue_name. destruct e as [i t p pn m ty rc sj ts er]. cbn in *.
  assert (Hp : default "" (if eqb p "" then None else uuidColumn p) = p).
  { destruct (eqb p "") eqn:E; [by apply eqb_true in E as ->|]. apply eqb_false in E. by rewrite (H4 E). }
  rewrite Hp. destruct (eqb pn "") eqn:En, (eqb er "") eqn:Ee; cbn [default]; try apply eqb_true in En; try apply eqb_true in Ee; by subst.
Qed.

End Writing.

End SharedEvents.
