(* ===== verification/SharedCounters.v ===== *)
(** * Events in the shared database: what is counted

    Models the metrics reads of
    [internal/event/repositories/stores/postgres/events.go] -- [GetMetrics],
    [lifetimeMetrics], [GetTimeSeriesMetrics] -- over the counters the writer's
    flushes keep.  The theorem: as long as the upserts are taken, the figures are
    the counts of the events whose insert was confirmed, bucket by bucket. *)
From S2P Require Import Prelude GoStrings Encoding KVStore Calendar Timestamps Classify Admission Events EventStore EventCounters SharedEvents.
From Stdlib Require Import Ascii.

Module SharedCounters.
Import GoStrings Encoding KVStore Calendar Timestamps Classify Events EventStore EventCounters SharedEvents.
Local Open Scope string_scope.
Local Open Scope Z_scope.

Section Reads.
Context {D : Dialect}.

Definition shortType (name : string) : string := TrimPrefix name "EMAIL_EVENT_TYPE_".

Definition lifetimeMetrics (f : fault) (tenant : string) (d : SDB) : result string Metrics :=
  query f
    match uuidColumn tenant with
    | None => Err invalidInput
    | Some t =>
        Ok (list_to_map ((fun kc => (shortType kc.1.2, kc.2)) <$> filter (fun kc => kc.1.1 = t) (map_to_list (s_counters d))))
    end.

(** A bound of a window, when there is one. *)
Definition since (start : Z) (t : Z) : bool := time_is_zero start || (timeColumn start <=? t).
Definition until (end_ : Z) (t : Z) : bool := time_is_zero end_ || (t <=? timeColumn end_).

Definition GetMetrics (f : fault) (tenant : string) (start end_ : Z) (d : SDB) : result string Metrics :=
  if time_is_zero start && time_is_zero end_ then lifetimeMetrics f tenant d
  else
    query f
      match uuidColumn tenant with
      | None => Err invalidInput
      | Some t =>
          let rows := filter (fun r => c_tenant r.2 = t /\ since start (c_timestamp r.2) = true /\ until end_ (c_timestamp r.2) = true)
                        (heapOrder (s_events d)) in
          Ok (list_to_map ((fun kc => (shortType kc.1, kc.2)) <$> map_to_list (tallyKeys ((fun r => c_type r.2) <$> rows))))
      end.

Definition timeseriesFamily (granularity : string) : counterFamily :=
  if eqb granularity "minute" then minuteCounters else if eqb granularity "hour" then hourCounters else dayCounters.

(** Whether a bucket is within the bounds, as text. *)
Definition bucketWithin (f : counterFamily) (start end_ : Z) (bucket : string) : bool :=
  (time_is_zero start || String.leb (flayout f start) bucket) && (time_is_zero end_ || String.leb bucket (flayout f end_)).

Definition GetTimeSeriesMetrics (f : fault) (tenant : string) (start end_ : Z) (granularity : string) (d : SDB) : result string (gmap string Metrics) :=
  let fam := timeseriesFamily granularity in
  query f
    match uuidColumn tenant with
    | None => Err invalidInput
    | Some t =>
        let rows := filter (fun kc => kc.1.1.1.1 = t /\ kc.1.1.1.2 = granularityName fam /\ bucketWithin fam start end_ kc.1.1.2 = true)
                      (map_to_list (s_series d)) in
        Ok (foldl (fun out kc => setIn out kc.1.1.2 (shortType kc.1.2) kc.2) ∅ rows)
    end.

(** ** Upserts add up *)

(** What a counter shows: nothing before it counts anything. *)
Definition cell (n : Z) : option Z := if n =? 0 then None else Some n.

Lemma cell_add n c : 0 <= n -> 0 < c -> Some (default 0 (cell n) + c) = cell (n + c).
Proof. intros. unfold cell. destruct (Z.eqb_spec n 0), (Z.eqb_spec (n + c) 0); cbn; try lia; by f_equal; lia. Qed.

Section Upserts.
Context {K : Type} `{Countable K} (canon : K -> option K) (get : SDB -> gmap K Z) (set : gmap K Z -> SDB -> SDB) (get_set : forall m d, get (set m d) = m).

Definition upsert (k : K) (n : Z) (d : SDB) : result string (SDB * unit) :=
  match canon k with
  | None => Err invalidInput
  | Some k' => match addCount k' n (get d) with Ok m => Ok (set m d, tt) | Err e => Err e end
  end.

(** What a list of counts adds to a key. *)
Fixpoint weight (k' : K) (l : list (K * Z)) : Z :=
  match l with [] => 0 | (k, c) :: rest => (if decide (canon k = Some k') then c else 0) + weight k' rest end.

Lemma weight_perm k' l l' : l ≡ₚ l' -> weight k' l = weight k' l'.
Proof. induction 1 as [|[k c] l l' _ IH|[k c] [j b] l|]; cbn [weight]; lia. Qed.

Lemma weight_nonneg k' l : Forall (fun kc => 0 < kc.2) l -> 0 <= weight k' l.
Proof. induction 1 as [|[k c] l Hc _ IH]; cbn [weight]; [lia|]. cbn in Hc. destruct (decide _); lia. Qed.

Lemma upserts_add fs l : (forall n, fs n = Up) -> Forall (fun kc => is_Some (canon kc.1) /\ 0 < kc.2) l ->
  forall n d (N : K -> Z), (forall k', 0 <= N k') -> (forall k', get d !! k' = cell (N k')) -> (forall k', N k' + weight k' l <= maxInt64) ->
  forall k', get (upserts upsert fs n l d) !! k' = cell (N k' + weight k' l).
Proof.
  intros Hfs. induction 1 as [|[k c] l [[j Hj] Hc] Hl IH]; intros n d N HN Hd Hmax k'; cbn [upserts weight]; [by rewrite Z.add_0_r|].
  cbn [fst snd] in Hj, Hc. rewrite Hfs. unfold exec, upsert at 1. rewrite Hj. unfold addCount.
  assert (Hnn : forall k', 0 <= weight k' l) by (intros; apply weight_nonneg; eapply Forall_impl; [exact Hl|]; by intros ? [? ?]).
  assert (Hj' : default 0 (get d !! j) = N j) by (rewrite Hd; unfold cell; destruct (Z.eqb_spec (N j) 0); cbn; lia).
  pose proof (Hmax j) as Hm. cbn [weight] in Hm. destruct (decide (canon k = Some j)) as [_|Hn]; [|congruence]. specialize (Hnn j) as Hnnj.
  rewrite Hj', (proj2 (Z.ltb_ge maxInt64 (N j + c))) by lia.
  set (N' := fun x => N x + if decide (canon k = Some x) then c else 0).
  rewrite (IH (S n) _ N').
  - unfold N'. rewrite Hj. f_equal. lia.
  - intros x. unfold N'. specialize (HN x). destruct (decide _); lia.
  - intros x. rewrite get_set. unfold N'. destruct (decide (canon k = Some x)) as [E|E].
    + assert (x = j) as -> by congruence. rewrite lookup_insert_eq, <- (cell_add (N j) c) by (try apply HN; lia). by rewrite <- Hd, Hj'.
    + rewrite lookup_insert_ne by congruence. by rewrite Hd, Z.add_0_r.
  - intros x. unfold N'. specialize (Hmax x). cbn [weight] in Hmax. lia.
Qed.

(** How many keys of a list stand for a key. *)
Definition among (k' : K) (ks : list K) : Z := Z.of_nat (length (filter (fun k => canon k = Some k') ks)).

Lemma tallyKeys_snoc (ks : list K) k : tallyKeys (ks ++ [k]) = <[k := default 0 (tallyKeys ks !! k) + 1]> (tallyKeys ks).
Proof. unfold tallyKeys. by rewrite foldl_app. Qed.

Lemma tallyKeys_positive (ks : list K) : map_Forall (fun _ c => 0 < c) (tallyKeys ks).
Proof.
  induction ks as [|k ks IH] using rev_ind; [apply map_Forall_empty|]. rewrite tallyKeys_snoc. apply map_Forall_insert_2; [|done].
  destruct (tallyKeys ks !! k) eqn:E; cbn; [|lia]. specialize (IH _ _ E). cbn in IH. lia.
Qed.

Lemma tallyKeys_weight k' (ks : list K) : weight k' (map_to_list (tallyKeys ks)) = among k' ks.
Proof.
  induction ks as [|k ks IH] using rev_ind; [done|]. rewrite tallyKeys_snoc. set (m := tallyKeys ks) in *.
  assert (Hnew : among k' (ks ++ [k]) = among k' ks + if decide (canon k = Some k') then 1 else 0).
  { unfold among. rewrite filter_app, length_app, filter_cons. destruct (decide _); cbn; lia. }
  rewrite Hnew, <- IH. destruct (m !! k) as [c|] eqn:Ek; cbn [default].
  - rewrite <- insert_delete_eq. rewrite (weight_perm _ _ _ (map_to_list_insert _ _ _ (lookup_delete_eq _ _))). cbn [weight].
    rewrite <- (weight_perm k' _ _ (map_to_list_delete m k c Ek)). cbn [weight]. unfold id; destruct (decide _); lia.
  - rewrite (weight_perm _ _ _ (map_to_list_insert _ _ _ Ek)). cbn [weight]. destruct (decide _); lia.
Qed.

Lemma tallyKeys_elem (ks : list K) k c : (k, c) ∈ map_to_list (tallyKeys ks) -> k ∈ ks /\ 0 < c.
Proof.
  intros E%elem_of_map_to_list. split; [|by apply (tallyKeys_positive ks k c)]. revert c E. induction ks as [|x ks IH] using rev_ind; [done|].
  intros c. rewrite tallyKeys_snoc, elem_of_app. intros [[-> _]|[_ E]]%lookup_insert_Some; [right; by left|left; by eapply IH].
Qed.

(** All the upserts of a batch, in any order. *)
Lemma upserts_tally fs order ks : (forall n, fs n = Up) -> (forall l, order l ≡ₚ l) -> Forall (fun k => is_Some (canon k)) ks ->
  forall n d (N : K -> Z), (forall k', 0 <= N k') -> (forall k', get d !! k' = cell (N k')) -> (forall k', N k' + among k' ks <= maxInt64) ->
  forall k', get (upserts upsert fs n (order (map_to_list (tallyKeys ks))) d) !! k' = cell (N k' + among k' ks).
Proof.
  intros Hfs Ho Hks n d N HN Hd Hmax k'. set (l := order (map_to_list (tallyKeys ks))).
  assert (Hw : forall x, weight x l = among x ks) by (intros x; unfold l; rewrite (weight_perm _ _ _ (Ho _)); apply tallyKeys_weight).
  rewrite <- Hw. apply upserts_add; [done| |done|done|intros; by rewrite Hw].
  apply Forall_forall. intros [k c] Hin. unfold l in Hin. rewrite Ho in Hin. apply tallyKeys_elem in Hin as [Hk Hc]. split; [|done].
  rewrite Forall_forall in Hks. by apply Hks.
Qed.

End Upserts.

(** ** The figures are those of what landed *)

Definition canonCounter (k : string * string) : option (string * string) := (fun t => (t, k.2)) <$> uuidColumn k.1.
Definition canonSeries (k : string * string * string * string) : option (string * string * string * string) :=
  (fun t => (t, k.1.1.2, k.1.2, k.2)) <$> uuidColumn k.1.1.1.

Lemma upsertCounter_upsert k n d : upsertCounter k n d = upsert canonCounter s_counters set_counters k n d.
Proof. unfold upsertCounter, upsert, canonCounter. by destruct (uuidColumn k.1). Qed.

Lemma upsertSeries_upsert k n d : upsertSeries k n d = upsert canonSeries s_series set_series k n d.
Proof. destruct k as [[[t g] b] y]. unfold upsertSeries, upsert, canonSeries. cbn [fst snd]. by destruct (uuidColumn t). Qed.

Lemma upserts_ext {K} (s1 s2 : K -> Z -> SDB -> result string (SDB * unit)) fs : (forall k n d, s1 k n d = s2 k n d) ->
  forall l n d, upserts s1 fs n l d = upserts s2 fs n l d.
Proof.
  intros He. assert (Hx : forall f k c d, exec f (s1 k c) d = exec f (s2 k c) d) by (intros [] ???; unfold exec; by rewrite ?He).
  induction l as [|[k c] l IH]; intros n d; [done|]. cbn [upserts]. rewrite Hx. by destruct (exec _ _ _) as [d' []].
Qed.

Lemma upserts_frame {K A} (proj : SDB -> A) (stmt : K -> Z -> SDB -> result string (SDB * unit)) fs :
  (forall k n d d' u, stmt k n d = Ok (d', u) -> proj d' = proj d) -> forall l n d, proj (upserts stmt fs n l d) = proj d.
Proof.
  intros Hstmt. induction l as [|[k c] l IH]; intros n d; [done|]. cbn [upserts]. unfold exec.
  destruct (fs n); [|done|done|]; destruct (stmt k c d) as [[d' []]|] eqn:E; try done; [rewrite IH|]; by eapply Hstmt.
Qed.

(** Flushes whose upserts are all taken. *)
Definition counting (env : FlushEnv) : Prop :=
  (forall n, fl_counter env n = Up) /\ (forall n, fl_series env n = Up) /\
  (forall l, fl_counters_order env l ≡ₚ l) /\ (forall l, fl_series_order env l ≡ₚ l).

Definition counting_label (l : label) : Prop :=
  match l with
  | LTake env | LTick env | LStopped env => counting env
  | LDone envs | LRemainder envs => forall n, counting (envs n)
  | LWrite _ | LStart | LStop => True
  end.

(** The counters are those of a list of events. *)
Definition counted (d : SDB) (es : list EmailEvent) : Prop :=
  (forall k, s_counters d !! k = cell (among canonCounter k (counterKey <$> es))) /\
  (forall k, s_series d !! k = cell (among canonSeries k (es ≫= seriesKeys))).

Lemma among_app {K} `{EqDecision K} (canon : K -> option K) k a b : among canon k (a ++ b) = among canon k a + among canon k b.
Proof. unfold among. rewrite filter_app, length_app. lia. Qed.

Lemma among_bound {K} `{EqDecision K} (canon : K -> option K) k a : 0 <= among canon k a <= Z.of_nat (length a).
Proof. unfold among. pose proof (length_filter (fun x => canon x = Some k) a). lia. Qed.

Lemma seriesKeys_length es : length (es ≫= seriesKeys) = (3 * length es)%nat.
Proof. induction es as [|e es IH]; [done|]. rewrite bind_cons, length_app, IH. cbn. lia. Qed.

Lemma bumps_counted env batch d es : counting env -> Forall (fun e => is_Some (uuidColumn (TenantID e))) batch ->
  3 * Z.of_nat (length es + length batch) <= maxInt64 -> counted d es ->
  counted (bumpTimeseries env batch (bumpCounters env batch d)) (es ++ batch).
Proof.
  intros (H1 & H2 & H3 & H4) Ht Hmax [Hc Hs]. unfold bumpTimeseries, bumpCounters.
  rewrite (upserts_ext _ _ _ upsertSeries_upsert), (upserts_ext _ _ _ upsertCounter_upsert). split; intros k.
  - rewrite (upserts_frame s_counters) by (intros ????? E; unfold upsert in E; repeat case_match; by simplify_eq).
    rewrite fmap_app, among_app. apply (upserts_tally canonCounter s_counters set_counters (fun _ _ => eq_refl) _ _ _ H1 H3) with (N := fun k => among canonCounter k (counterKey <$> es)); [| |done|].
    + apply Forall_fmap. eapply Forall_impl; [exact Ht|]. intros e [t E]. unfold canonCounter, counterKey. cbn. rewrite E. by eexists.
    + intros. apply among_bound.
    + intros k'. rewrite <- among_app, <- fmap_app. pose proof (among_bound canonCounter k' (counterKey <$> (es ++ batch)%list)) as B.
      rewrite length_fmap, length_app in B. lia.
  - rewrite bind_app, among_app. apply (upserts_tally canonSeries s_series set_series (fun _ _ => eq_refl) _ _ _ H2 H4) with (N := fun k => among canonSeries k (es ≫= seriesKeys)).
    + apply Forall_bind. eapply Forall_impl; [exact Ht|]. intros e [t E]. unfold seriesKeys. apply Forall_fmap. repeat constructor;
        unfold canonSeries; cbn; rewrite E; by eexists.
    + intros. apply among_bound.
    + intros k'. rewrite (upserts_frame s_series); [done|]. intros ????? E. unfold upsert in E. repeat case_match; by simplify_eq.
    + intros k'. rewrite <- among_app, <- bind_app. pose proof (among_bound canonSeries k' ((es ++ batch)%list ≫= seriesKeys)) as B.
      rewrite seriesKeys_length, length_app in B. lia.
Qed.

(** As long as there are few enough to count. *)
Definition tallied (w : Writer) : Prop := 3 * Z.of_nat (length (w_landed w)) <= maxInt64 -> counted (w_db w) (w_landed w).

Lemma counted_frame d d' es : s_counters d' = s_counters d -> s_series d' = s_series d -> counted d es -> counted d' es.
Proof. intros E1 E2 [H1 H2]. split; intros k; by rewrite ?E1, ?E2. Qed.

Lemma flush_tallied env batch w : counting env -> tallied w -> tallied (flush env batch w).
Proof.
  intros He Hw. unfold flush, tallied in *. rewrite (surjective_pairing (renderInsert batch)). unfold exec. rewrite insert_rows.
  destruct (fl_insert env); [|exact Hw|exact Hw|]; destruct (mapM eventRow batch) as [rs|] eqn:Em; try exact Hw;
    cbn [w_db w_landed].
  rewrite length_app. intros Hmax. apply bumps_counted; [done| |done|apply (counted_frame (w_db w)); [done|done|apply Hw; lia]].
  apply mapM_omap in Em as [_ Hall]. eapply Forall_impl; [exact Hall|]. intros e [[id r] (_ & E & _)%row_parts]. rewrite E. by eexists.
Qed.

Lemma flushBatch_tallied env w : counting env -> tallied w -> tallied (flushBatch env w).
Proof. intros He Hw. unfold flushBatch. destruct (w_batch w) as [|e b]; [done|]. by apply (flush_tallied env (e :: b) w). Qed.

Lemma takeEvent_tallied env e w : counting env -> tallied w -> tallied (takeEvent env e w).
Proof. intros He Hw. unfold takeEvent. destruct (_ <=? _)%nat; [by apply flushBatch_tallied|done]. Qed.

Lemma drain_tallied envs : (forall n, counting (envs n)) -> forall es n w, tallied w -> tallied (drain envs n es w).
Proof. intros He. induction es as [|e es IH]; intros n w Hw; [done|]. cbn [drain]. apply IH. by apply takeEvent_tallied. Qed.

Lemma drainQueue_tallied envs w : (forall n, counting (envs n)) -> tallied w -> tallied (drainQueue envs w).
Proof. intros He Hw. unfold drainQueue. apply flushBatch_tallied; [done|]. by apply drain_tallied. Qed.

Lemma run_tallied ls : forall w, Forall counting_label ls -> tallied w -> tallied (run ls w).
Proof.
  induction ls as [|l ls IH]; intros w Hls Hw; [done|]. apply Forall_cons in Hls as [Hl Hls]. apply IH; [done|].
  destruct l as [[e|]| |env|env|envs|env| |envs]; cbn [step]; try done.
  - cbn [Write]. by destruct (_ <? _)%nat.
  - by destruct (w_loop w).
  - destruct (running w); [|done]. destruct (w_ch w); [done|]. by apply takeEvent_tallied.
  - destruct (running w); [|done]. by apply flushBatch_tallied.
  - destruct (running w); [|done]. by apply (drainQueue_tallied envs w).
  - destruct (running w && w_stop w); [|done]. by apply (flushBatch_tallied env w).
  - destruct (w_stop w && negb (running w)); [|done]. by apply drainQueue_tallied.
Qed.

(** ** Reading them *)

(** The events of a tenant, of a type. *)
Definition ofTenant (t : string) (ty : EmailEventType) (e : EmailEvent) : Prop := uuidColumn (TenantID e) = Some t /\ Type_ e = ty.
#[local] Instance ofTenant_dec t ty e : Decision (ofTenant t ty e).
Proof. unfold ofTenant. apply _. Defined.

(** Those of them in a bucket within bounds. *)
Definition inBucket (f : counterFamily) (t : string) (start end_ : Z) (bucket : string) (ty : EmailEventType) (e : EmailEvent) : Prop :=
  ofTenant t ty e /\ flayout f (Timestamp e) = bucket /\
  (start <> 0 -> start / fstep f <= Timestamp e / fstep f) /\ (end_ <> 0 -> Timestamp e / fstep f <= end_ / fstep f).
#[local] Instance inBucket_dec f t start end_ bucket ty e : Decision (inBucket f t start end_ bucket ty e).
Proof. unfold inBucket. apply _. Defined.

Lemma typeName_inj t u : typeName t = typeName u -> t = u.
Proof. intros E. by rewrite <- (typeValue_name t), <- (typeValue_name u), E. Qed.

Lemma shortType_name t : shortType (typeName t) = typeStr t.
Proof. apply TrimPrefix_app. Qed.

Lemma among_counters t ty es : among canonCounter (t, typeName ty) (counterKey <$> es) = countIf (ofTenant t ty) es.
Proof.
  unfold among, countIf. f_equal. induction es as [|e es IH]; [done|]. rewrite fmap_cons, !filter_cons.
  assert (Hiff : canonCounter (counterKey e) = Some (t, typeName ty) <-> ofTenant t ty e).
  { unfold canonCounter, counterKey, ofTenant. cbn [fst snd]. rewrite fmap_Some. split.
    - intros (x & Hx & [-> E]%pair_equal_spec). split; [done|]. by apply typeName_inj.
    - intros [Hx ->]. by exists t. }
  destruct (decide (canonCounter _ = _)), (decide (ofTenant t ty e)); cbn [length]; try tauto; by rewrite IH.
Qed.

Lemma among_series f t bucket ty es :
  among canonSeries (t, granularityName f, bucket, typeName ty) (es ≫= seriesKeys) =
  countIf (fun e => ofTenant t ty e /\ flayout f (Timestamp e) = bucket) es.
Proof.
  unfold countIf. induction es as [|e es IH]; [done|]. rewrite bind_cons, among_app, IH, filter_cons.
  set (P := ofTenant t ty e /\ flayout f (Timestamp e) = bucket).
  assert (Hone : among canonSeries (t, granularityName f, bucket, typeName ty) (seriesKeys e) = if decide P then 1 else 0).
  { assert (Hiff : forall g, canonSeries (TenantID e, granularityName g, flayout g (Timestamp e), typeName (Type_ e)) = Some (t, granularityName f, bucket, typeName ty) <-> g = f /\ P).
    { intros g. unfold canonSeries, P, ofTenant. cbn [fst snd]. rewrite fmap_Some. split.
      - intros (x & Hx & [[[-> Eg]%pair_equal_spec Eb]%pair_equal_spec Et]%pair_equal_spec). apply typeName_inj in Et. assert (g = f) as -> by (by destruct g, f). done.
      - intros [-> [[Hx <-] <-]]. by exists t. }
    unfold among, seriesKeys. cbn [fmap list_fmap]. rewrite !filter_cons, filter_nil.
    rewrite (decide_ext _ _ _ _ (Hiff dayCounters)), (decide_ext _ _ _ _ (Hiff hourCounters)), (decide_ext _ _ _ _ (Hiff minuteCounters)).
    destruct f, (decide P) as [p|p]; repeat first [rewrite decide_True by done|rewrite decide_False by (by intros [? ?])]; done. }
  rewrite Hone. destruct (decide P); cbn [length]; lia.
Qed.

Lemma cell_Some n m : cell n = Some m <-> n = m /\ m <> 0.
Proof. unfold cell. destruct (Z.eqb_spec n 0); naive_solver. Qed.

(** What writing rows one by one into a nested map leaves. *)
Lemma setIn_rows (l : list (string * string * string * string * Z)) : forall out,
  NoDup ((fun kc => (kc.1.1.2, shortType kc.1.2)) <$> l) ->
  forall b y, foldl (fun out kc => setIn out kc.1.1.2 (shortType kc.1.2) kc.2) out l !! b ≫= (fun m => m !! y) =
    match list_find (fun kc => kc.1.1.2 = b /\ shortType kc.1.2 = y) l with
    | Some (_, kc) => Some kc.2
    | None => out !! b ≫= (fun m => m !! y)
    end.
Proof.
  induction l as [|kc l IH]; intros out Hnd b y; [done|]. rewrite fmap_cons in Hnd. apply NoDup_cons in Hnd as [Hni Hnd].
  cbn [foldl list_find]. rewrite IH by done. destruct (decide (kc.1.1.2 = b /\ shortType kc.1.2 = y)) as [[<- <-]|Hne].
  - destruct (list_find _ l) as [[i kc']|] eqn:E.
    + apply list_find_Some in E as (Hi & [E1 E2] & _). exfalso. apply Hni. apply list_elem_of_fmap. exists kc'. split; [by rewrite E1, E2|]. by eapply list_elem_of_lookup_2.
    + unfold setIn. rewrite lookup_insert_eq. cbn. by rewrite lookup_insert_eq.
  - destruct (list_find _ l) as [[i kc']|] eqn:E; [done|]. cbn [fmap option_fmap option_map prod_map]. unfold setIn.
    destruct (decide (kc.1.1.2 = b)) as [<-|Hb]; [|by rewrite lookup_insert_ne].
    rewrite lookup_insert_eq. cbn. rewrite lookup_insert_ne by tauto. by destruct (out !! kc.1.1.2).
Qed.

Lemma among_pos {K} `{EqDecision K} (canon : K -> option K) k ks n : cell (among canon k ks) = Some n -> exists x, x ∈ ks /\ canon x = Some k.
Proof.
  intros [E Hn]%cell_Some. unfold among in E. destruct (filter _ ks) as [|x l] eqn:El; [cbn in E; lia|].
  exists x. assert (Hx : x ∈ filter (fun k0 => canon k0 = Some k) ks) by (rewrite El; by left). apply list_elem_of_filter in Hx. tauto.
Qed.

Lemma counter_typed d es k n : counted d es -> s_counters d !! k = Some n -> exists ty, k.2 = typeName ty.
Proof.
  intros [Hc _]. rewrite Hc. intros (x & (e & -> & _)%list_elem_of_fmap & Hx)%among_pos. unfold canonCounter in Hx.
  apply fmap_Some in Hx as (t & _ & ->). by exists (Type_ e).
Qed.

Lemma series_typed d es k n : counted d es -> s_series d !! k = Some n ->
  exists e f, e ∈ es /\ k.1.1.2 = granularityName f /\ k.1.2 = flayout f (Timestamp e) /\ k.2 = typeName (Type_ e).
Proof.
  intros [_ Hs]. rewrite Hs. intros (x & Hin & Hx)%among_pos. apply list_elem_of_bind in Hin as (e & Hin & He).
  apply list_elem_of_fmap in Hin as (f & -> & _). apply fmap_Some in Hx as (t & _ & ->). by exists e, f.
Qed.

Lemma lifetime_figures d es tenant t : counted d es -> uuidColumn tenant = Some t ->
  exists m, lifetimeMetrics Up tenant d = Ok m /\ forall ty, m !! typeStr ty = cell (countIf (ofTenant t ty) es).
Proof.
  intros Hc Ht. unfold lifetimeMetrics, query. rewrite Ht. set (rows := filter _ _). eexists. split; [done|]. intros ty. rewrite <- among_counters.
  assert (Hrow : forall n, ((t, typeName ty), n) ∈ rows <-> cell (among canonCounter (t, typeName ty) (counterKey <$> es)) = Some n).
  { intros n. destruct Hc as [Hc _]. rewrite <- Hc. unfold rows. rewrite list_elem_of_filter, elem_of_map_to_list. naive_solver. }
  assert (Hall : forall k n, (k, n) ∈ rows -> exists y, k = (t, typeName y)).
  { intros k n [Hk Hin]%list_elem_of_filter. apply elem_of_map_to_list in Hin. destruct (counter_typed d es k n Hc Hin) as [y Hy].
    exists y. destruct k. cbn in *. by subst. }
  assert (Hnd : NoDup ((fun kc : string * string * Z => (shortType kc.1.2, kc.2)) <$> rows).*1).
  { rewrite <- list_fmap_compose. apply NoDup_fmap_2_strong; [|apply NoDup_filter, NoDup_map_to_list].
    intros [k n] [k' n'] Hk Hk'. destruct (Hall _ _ Hk) as [y ->], (Hall _ _ Hk') as [y' ->]. cbn [fst snd compose]. rewrite !shortType_name. intros E.
    assert (y = y') as <- by (apply typeName_inj; unfold typeName; by rewrite E). apply list_elem_of_filter in Hk as [_ Hk], Hk' as [_ Hk'].
    apply elem_of_map_to_list in Hk, Hk'. congruence. }
  apply option_eq. intros n. rewrite <- elem_of_list_to_map, <- Hrow, list_elem_of_fmap by done. split.
  - intros ([k c] & E & Hin). destruct (Hall _ _ Hin) as [y ->]. cbn [fst snd] in E. rewrite shortType_name in E. apply pair_equal_spec in E as [E ->].
    assert (ty = y) as <- by (apply typeName_inj; unfold typeName; by rewrite E). done.
  - intros Hin. exists ((t, typeName ty), n). split; [|done]. cbn [fst snd]. by rewrite shortType_name.
Qed.

(** Text bounds are bounds on the buckets. *)
Lemma bucket_le f x y : datable x -> datable y -> String.leb (flayout f x) (flayout f y) = true <-> x / fstep f <= y / fstep f.
Proof.
  intros Hx Hy. unfold String.leb. rewrite flayout_compare by done.
  destruct (Z.compare_spec (x / fstep f) (y / fstep f)); split; intros; done || lia.
Qed.

Lemma bucketWithin_spec f start end_ t : datable t -> (start <> 0 -> datable start) -> (end_ <> 0 -> datable end_) ->
  bucketWithin f start end_ (flayout f t) = true <->
  (start <> 0 -> start / fstep f <= t / fstep f) /\ (end_ <> 0 -> t / fstep f <= end_ / fstep f).
Proof.
  intros Ht Hs He. unfold bucketWithin, time_is_zero. rewrite andb_true_iff, !orb_true_iff, !Z.eqb_eq.
  assert (Hl : (start = 0 \/ String.leb (flayout f start) (flayout f t) = true) <-> (start <> 0 -> start / fstep f <= t / fstep f)).
  { destruct (decide (start = 0)) as [E|E]; [tauto|]. rewrite bucket_le by auto. tauto. }
  assert (Hr : (end_ = 0 \/ String.leb (flayout f t) (flayout f end_) = true) <-> (end_ <> 0 -> t / fstep f <= end_ / fstep f)).
  { destruct (decide (end_ = 0)) as [E|E]; [tauto|]. rewrite bucket_le by auto. tauto. }
  by rewrite Hl, Hr.
Qed.

Lemma series_figures d es tenant t start end_ g : counted d es -> uuidColumn tenant = Some t ->
  Forall (fun e => datable (Timestamp e)) es -> (start <> 0 -> datable start) -> (end_ <> 0 -> datable end_) ->
  exists out, GetTimeSeriesMetrics Up tenant start end_ g d = Ok out /\
    forall bucket ty, out !! bucket ≫= (fun m => m !! typeStr ty) = cell (countIf (inBucket (timeseriesFamily g) t start end_ bucket ty) es).
Proof.
  intros Hc Ht Hd Hs He. unfold GetTimeSeriesMetrics, query. rewrite Ht. set (f := timeseriesFamily g). set (rows := filter _ _).
  eexists. split; [done|]. intros bucket ty.
  assert (Hall : forall kc, kc ∈ rows -> exists e, e ∈ es /\ kc.1 = (t, granularityName f, flayout f (Timestamp e), typeName (Type_ e)) /\
    s_series d !! kc.1 = Some kc.2 /\ bucketWithin f start end_ (flayout f (Timestamp e)) = true).
  { intros [k n] [(H1 & H2 & H3) Hin]%list_elem_of_filter. apply elem_of_map_to_list in Hin.
    destruct (series_typed d es k n Hc Hin) as (e & f' & Hin' & E1 & E2 & E3). exists e. destruct k as [[[kt kg] kb] ky]. cbn [fst snd] in *. subst kt kb ky.
    rewrite E1 in H2, Hin |- *. assert (f' = f) as -> by (by destruct f', f). by split_and!. }
  rewrite setIn_rows.
  2:{ apply NoDup_fmap_2_strong; [|apply NoDup_filter, NoDup_map_to_list]. intros kc kc' Hk Hk'.
      destruct (Hall _ Hk) as (e & _ & E1 & L1 & _), (Hall _ Hk') as (e' & _ & E2 & L2 & _). destruct kc as [k n], kc' as [k' n']. cbn [fst snd] in *.
      subst k k'. cbn [fst snd]. rewrite !shortType_name. intros [Eb Et]%pair_equal_spec. rewrite Eb in *.
      assert (Type_ e = Type_ e') as Ety by (apply typeName_inj; unfold typeName; by rewrite Et). rewrite Ety in *. congruence. }
  set (key := (t, granularityName f, bucket, typeName ty)).
  assert (Hin : forall e, e ∈ es -> flayout f (Timestamp e) = bucket ->
    bucketWithin f start end_ bucket = true <-> (start <> 0 -> start / fstep f <= Timestamp e / fstep f) /\ (end_ <> 0 -> Timestamp e / fstep f <= end_ / fstep f)).
  { intros e Hin <-. rewrite Forall_forall in Hd. apply bucketWithin_spec; auto. }
  assert (Hwithin : bucketWithin f start end_ bucket = true -> s_series d !! key = cell (countIf (inBucket f t start end_ bucket ty) es)).
  { intros Hw. destruct Hc as [_ Hc]. rewrite Hc. unfold key. rewrite among_series. f_equal. apply countIf_iff. intros e He'. unfold inBucket.
    specialize (Hin e He'). split; [by intros [? ?]; split_and!; try apply Hin|by intros (? & ? & _)]. }
  destruct (list_find _ rows) as [[i kc]|] eqn:El.
  - apply list_find_Some in El as (Hi & [Eb Et] & _). apply list_elem_of_lookup_2 in Hi. destruct (Hall kc Hi) as (e & _ & E & L & Hw).
    destruct kc as [k n]. cbn [fst snd] in *. subst k. cbn [fst snd] in *. rewrite Eb in *. rewrite <- Hwithin, <- L by done. unfold key. do 2 f_equal.
    rewrite shortType_name in Et. unfold typeName. by rewrite Et.
  - rewrite lookup_empty. cbn [mbind option_bind]. symmetry. destruct (cell (countIf _ es)) as [n|] eqn:Ec; [|done]. exfalso.
    pose proof Ec as [Hn Hnz]%cell_Some. unfold countIf in Hn. destruct (filter (inBucket f t start end_ bucket ty) es) as [|e l] eqn:Ef; [cbn in Hn; lia|].
    assert (He' : e ∈ filter (inBucket f t start end_ bucket ty) es) by (rewrite Ef; by left). apply list_elem_of_filter in He' as [(_ & Eb & Hbnd) He'].
    apply (Hin e He' Eb) in Hbnd. apply list_find_None in El. rewrite Forall_forall in El. apply (El (key, n)).
    + unfold rows. apply list_elem_of_filter. split; [done|]. by apply elem_of_map_to_list, Hwithin.
    + unfold key. cbn [fst snd]. split; [done|]. apply shortType_name.
Qed.

(** C14: the figures are those of what landed.  Starting from empty tables, and
    as long as the upserts are taken -- whatever the order a batch's counters are
    written in, whatever the inserts do -- the headline figures and the buckets of
    a chart are the numbers of events whose insert was confirmed: of the tenant,
    by type, and for a chart those whose bucket lies between the bounds'
    buckets. *)
Theorem figures_are_what_landed ls tenant t start end_ g :
  Forall counting_label ls -> uuidColumn tenant = Some t -> (start <> 0 -> datable start) -> (end_ <> 0 -> datable end_) ->
  let w := run ls (NewWriter emptySDB) in
  3 * Z.of_nat (length (w_landed w)) <= maxInt64 -> Forall (fun e => datable (Timestamp e)) (w_landed w) ->
  (exists m, GetMetrics Up tenant 0 0 (w_db w) = Ok m /\
     forall ty, m !! typeStr ty = cell (countIf (fun e => uuidColumn (TenantID e) = Some t /\ Type_ e = ty) (w_landed w))) /\
  exists out, GetTimeSeriesMetrics Up tenant start end_ g (w_db w) = Ok out /\
    forall bucket ty, out !! bucket ≫= (fun m => m !! typeStr ty) = cell (countIf (inBucket (timeseriesFamily g) t start end_ bucket ty) (w_landed w)).
Proof.
  intros Hls Ht Hs He w Hmax Hd. assert (Hc : counted (w_db w) (w_landed w)) by (apply run_tallied; [done|by intros _; split; intros k|done]).
  split; [by apply (lifetime_figures (w_db w) (w_landed w) tenant t)|by apply series_figures].
Qed.

End Reads.
End SharedCounters.
