(* ===== verification/SharedReads.v ===== *)
(** * Events in the shared database: what is read

    Models the listing and the lookups of
    [internal/event/repositories/stores/postgres/events.go] and the stored
    messages of [store.go] there.  The theorem: the pages of a listing, followed
    by their tokens, are the matching rows newest first, each once. *)
From S2P Require Import Prelude GoStrings Encoding KVStore Calendar Timestamps Classify Admission Events EventStore EventCounters SharedEvents SharedCounters.
From Stdlib Require Import Ascii.

Module SharedReads.
Import GoStrings Encoding KVStore Calendar Timestamps Classify Events EventStore EventCounters SharedEvents SharedCounters.
Local Open Scope string_scope.
Local Open Scope Z_scope.

(** ** LIKE *)

Definition same_letter (c d : ascii) : bool := bool_decide (GoStrings.lower c = GoStrings.lower d).

(** [LIKE] on SQLite and [ILIKE] on PostgreSQL, where a backslash escapes: any
    text for [%], one character for [_], else the letter in either case. *)
Fixpoint like (escapes : bool) (p : string) : string -> bool :=
  match p with
  | "" => fun s => eqb s ""
  | String c p' =>
      if bool_decide (c = "%"%char) then
        (fix any (s : string) : bool := like escapes p' s || match s with "" => false | String _ r => any r end)
      else if bool_decide (c = "_"%char) then fun s => match s with "" => false | String _ r => like escapes p' r end
      else if escapes && bool_decide (c = "\"%char) then
        match p' with
        | "" => fun _ => false
        | String e p'' => fun s => match s with "" => false | String d r => same_letter e d && like escapes p'' r end
        end
      else fun s => match s with "" => false | String d r => same_letter c d && like escapes p' r end
  end.

(** Letters that stand for themselves. *)
Definition ordinary (c : ascii) : bool := negb (bool_decide (c = "%"%char) || bool_decide (c = "_"%char) || bool_decide (c = "\"%char)).

Lemma like_any esc p s : like esc (String "%" p) s = like esc p s || match s with "" => false | String _ r => like esc (String "%" p) r end.
Proof. by destruct s. Qed.

Lemma like_everything esc s : like esc "%" s = true.
Proof. induction s as [|c s IH]; [done|]. rewrite like_any, IH. apply orb_true_r. Qed.

Lemma like_prefix esc x : forall s, str_all ordinary x = true -> like esc (x ++ "%") s = HasPrefix (ToLower s) (ToLower x).
Proof.
  induction x as [|c x IH]; intros s Hx; [rewrite like_everything; by destruct s|]. cbn [str_all] in Hx. apply andb_true_iff in Hx as [Hc Hx].
  unfold ordinary in Hc. apply negb_true_iff in Hc. apply orb_false_iff in Hc as [Hc H3]. apply orb_false_iff in Hc as [H1 H2].
  cbn [String.append like]. rewrite H1, H2, H3, andb_false_r. destruct s as [|d s]; [done|]. cbn [ToLower]. unfold HasPrefix in *. cbn [String.prefix].
  rewrite IH by done. unfold same_letter. destruct (ascii_dec (GoStrings.lower c) (GoStrings.lower d)) as [E|E]; [by rewrite bool_decide_eq_true_2|by rewrite bool_decide_eq_false_2].
Qed.

(** A pattern of ordinary letters finds what the local store's test finds. *)
Lemma like_contains esc x s : str_all ordinary x = true -> like esc ("%" ++ x ++ "%") s = Contains (ToLower s) (ToLower x).
Proof.
  intros Hx. change ("%" ++ x ++ "%") with (String "%" (x ++ "%")). induction s as [|c s IH]; rewrite like_any, like_prefix by done; [done|].
  by rewrite IH.
Qed.

(** ** Page tokens *)

Definition malformedToken : string := "malformed page token".

Definition encodePageToken (ts : Z) (id : string) : string := formatRFC3339Nano ts ++ "|" ++ id.

Section Reads.
Context {D : Dialect} {J : ListCodec}.

Definition decodePageToken (token : string) : result string (Z * string) :=
  match Cut token "|"%char with
  | None => Err malformedToken
  | Some (at_, id) =>
      match ParseRFC3339Nano lenient at_ with
      | None => Err malformedToken
      | Some ts => Ok (ts, id)
      end
  end.

(** ** Listing *)

Abbreviation Row := (string * EventRow)%type.

(** [(timestamp, id)], compared as SQL compares rows. *)
Definition rowLt (a b : Z * string) : bool := (a.1 <? b.1) || ((a.1 =? b.1) && String.ltb a.2 b.2).
Definition sortKey (r : Row) : Z * string := (c_timestamp r.2, r.1).

(** [ORDER BY timestamp DESC, id DESC]. *)
Definition newer (a b : Row) : Prop := rowLt (sortKey a) (sortKey b) = false.
#[export] Instance newer_dec a b : Decision (newer a b).
Proof. unfold newer. apply _. Defined.

Definition contains (needle : string) (s : option string) : bool :=
  match s with None => false | Some s => like isPostgres ("%" ++ needle ++ "%") s end.

(** The clauses of a filter, on the UUIDs its tenant and message stand for. *)
Definition listWhere (tenant message : string) (f : ListFilter) (r : Row) : bool :=
  eqb (c_tenant r.2) tenant &&
  (eqb (F_MessageID f) "" || eqb (c_message r.2) message) &&
  (eqb (F_Recipient f) "" || (if RecipientExact f then eqb (c_recipient r.2) (F_Recipient f) else contains (F_Recipient f) (Some (c_recipient r.2)))) &&
  (bool_decide (F_EventType f = UNSPECIFIED) || eqb (c_type r.2) (typeName (F_EventType f))) &&
  (eqb (F_Subject f) "" || contains (F_Subject f) (c_subject r.2)) &&
  since (F_StartTime f) (c_timestamp r.2) && until (F_EndTime f) (c_timestamp r.2).

Definition beforeToken (tok : option (Z * string)) (r : Row) : bool :=
  match tok with None => true | Some k => rowLt (sortKey r) k end.

(** [ROW_NUMBER() OVER (PARTITION BY message_id, recipient ...) = 1], over the
    rows the clauses leave. *)
Definition sameThread (a b : Row) : bool := eqb (c_message a.2) (c_message b.2) && eqb (c_recipient a.2) (c_recipient b.2).
Definition ranked (l : list Row) : list Row :=
  filter (fun r => forallb (fun r' => negb (sameThread r r' && rowLt (sortKey r) (sortKey r'))) l = true) l.

Definition selectEvents (tenant message : string) (f : ListFilter) (tok : option (Z * string)) (d : SDB) : list Row :=
  let l := filter (fun r => listWhere tenant message f r && beforeToken tok r = true) (heapOrder (s_events d)) in
  merge_sort newer (if LatestOnly f then ranked l else l).

Definition pageSizeOf (f : ListFilter) : nat :=
  Z.to_nat (if (PageSize f <=? 0) || (500 <? PageSize f) then 50 else PageSize f).

(** The arguments as the columns read them: a UUID or a text a column cannot hold
    fails the query on PostgreSQL. *)
Definition listArgs (tenant : string) (f : ListFilter) (tok : option (Z * string)) : option (string * string * option (Z * string)) :=
  uuidColumn tenant ≫= fun t =>
  (if eqb (F_MessageID f) "" then Some "" else uuidColumn (F_MessageID f)) ≫= fun m =>
  (if textColumn (F_Recipient f) && textColumn (F_Subject f) then Some tt else None) ≫= fun _ =>
  (match tok with None => Some None | Some (ts, id) => (fun i => Some (timeColumn ts, i)) <$> uuidColumn id end) ≫= fun k =>
  Some (t, m, k).

Definition List_ (fl : fault) (tenant : string) (f : ListFilter) (d : SDB) : result string (list EmailEvent * string) :=
  match fl with
  | Down => Err errNotConnected
  | _ =>
      match (if eqb (PageToken f) "" then Ok None else match decodePageToken (PageToken f) with Ok k => Ok (Some k) | Err e => Err e end) with
      | Err e => Err e
      | Ok tok =>
          query fl
            match listArgs tenant f tok with
            | None => Err invalidInput
            | Some (t, m, k) =>
                let size := pageSizeOf f in
                let events := scanEvent <$> take (S size) (selectEvents t m f k d) in
                match drop size events, last (take size events) with
                | _ :: _, Some e => Ok (take size events, encodePageToken (Timestamp e) (ID e))
                | _, _ => Ok (events, "")
                end
            end
      end
  end.

(** ** Lookups *)

Definition GetByID (fl : fault) (tenant id : string) (d : SDB) : result string (option EmailEvent) :=
  query fl
    match uuidColumn tenant, uuidColumn id with
    | Some t, Some i =>
        Ok (match s_events d !! i with
            | Some r => if eqb (c_tenant r) t then Some (scanEvent (i, r)) else None
            | None => None
            end)
    | _, _ => Err invalidInput
    end.

Definition ListByMessageID (fl : fault) (tenant message : string) (d : SDB) : result string (list EmailEvent) :=
  query fl
    match uuidColumn tenant, uuidColumn message with
    | Some t, Some m =>
        Ok (scanEvent <$> reverse (merge_sort newer (filter (fun r => c_tenant r.2 = t /\ c_message r.2 = m) (heapOrder (s_events d)))))
    | _, _ => Err invalidInput
    end.

(** ** Stored messages *)

Definition messageRequired : string := "message is required".

Definition messageRow (m : EmailMessage) : option (string * MessageRow) :=
  colUuid (AText (M_ID m)) ≫= fun id => colUuid (AText (M_TenantID m)) ≫= fun tenant =>
  colUuidNull (nullable (M_ProviderID m)) ≫= fun provider => colRecipient (AText (M_From m)) ≫= fun from =>
  colTextNull (encodeList (M_To m)) ≫= fun to_ => colTextNull (encodeList (M_Cc m)) ≫= fun cc => colTextNull (encodeList (M_Bcc m)) ≫= fun bcc =>
  colTextNull (nullable (M_Subject m)) ≫= fun subject => colTextNull (nullable (M_BodyHTML m)) ≫= fun html =>
  colTextNull (nullable (M_BodyText m)) ≫= fun text => colTextNull (encodeAttachments (M_Attachments m)) ≫= fun atts =>
  Some (id, mkMessageRow tenant provider from to_ cc bcc subject html text atts (timeColumn (M_CreatedAt m))).

Definition with_b_provider (p : option string) (r : MessageRow) : MessageRow :=
  mkMessageRow (b_tenant r) p (b_from r) (b_to r) (b_cc r) (b_bcc r) (b_subject r) (b_html r) (b_text r) (b_attachments r) (b_created r).

(** [ON CONFLICT (id) DO UPDATE SET provider_id = COALESCE(...)]. *)
Definition upsertMessage (m : EmailMessage) (d : SDB) : result string (SDB * unit) :=
  match messageRow m with
  | None => Err invalidInput
  | Some (id, r) =>
      let r' := match s_messages d !! id with
                | None => r
                | Some old => with_b_provider (match b_provider r with Some p => Some p | None => b_provider old end) old
                end in
      Ok (set_messages (<[id := r']> (s_messages d)) d, tt)
  end.

(** [WriteMessage], its database half. *)
Definition WriteMessage (fl : fault) (m : option EmailMessage) (d : SDB) : SDB * result string unit :=
  match fl, m with
  | Down, _ => (d, Err errNotConnected)
  | _, None => (d, Err messageRequired)
  | _, Some m => exec fl (upsertMessage m) d
  end.

Definition messageOf (t id : string) (d : SDB) : option EmailMessage :=
  match s_messages d !! id with
  | Some r => if eqb (b_tenant r) t then Some (scanMessage (id, r)) else None
  | None => None
  end.

Definition GetMessage (fl : fault) (tenant id : string) (d : SDB) : result string (option EmailMessage) :=
  query fl
    match uuidColumn tenant, uuidColumn id with
    | Some t, Some i => Ok (messageOf t i d)
    | _, _ => Err invalidInput
    end.

(** The message of the recipient's newest event; which of several at one instant
    is the scan's choice. *)
Definition later (a b : Row) : Prop := c_timestamp b.2 <= c_timestamp a.2.
#[export] Instance later_dec a b : Decision (later a b).
Proof. unfold later. apply _. Defined.

Definition GetLatestMessageForRecipient (fl : fault) (tenant recipient : string) (d : SDB) : result string (option EmailMessage) :=
  query fl
    match uuidColumn tenant with
    | Some t =>
        if textColumn recipient then
          Ok (match merge_sort later (filter (fun r => c_tenant r.2 = t /\ c_recipient r.2 = recipient) (heapOrder (s_events d))) with
              | r :: _ => messageOf t (c_message r.2) d
              | [] => None
              end)
        else Err invalidInput
    | None => Err invalidInput
    end.

(** [BackfillMessageProvider], its database half. *)
Definition backfillMessage (tenant id provider : string) (d : SDB) : result string (SDB * unit) :=
  match uuidColumn tenant, uuidColumn id, colUuidNull (nullable provider) with
  | Some t, Some i, Some p =>
      match s_messages d !! i with
      | Some r => if eqb (b_tenant r) t && bool_decide (b_provider r = None)
                  then Ok (set_messages (<[i := with_b_provider p r]> (s_messages d)) d, tt) else Ok (d, tt)
      | None => Ok (d, tt)
      end
  | _, _, _ => Err invalidInput
  end.

Definition BackfillMessageProvider (fl : fault) (tenant id provider : string) (d : SDB) : SDB * result string unit :=
  exec fl (backfillMessage tenant id provider) d.

(** ** Following the tokens *)

Definition with_token (token : string) (f : ListFilter) : ListFilter :=
  mkFilter (PageSize f) token (F_Recipient f) (F_EventType f) (F_StartTime f) (F_EndTime f) (F_MessageID f) (LatestOnly f) (RecipientExact f) (F_Subject f).

(** Pages until there is no token, [n] of them at most. *)
Fixpoint pages (n : nat) (tenant : string) (f : ListFilter) (d : SDB) : option (list EmailEvent) :=
  match n with
  | O => None
  | S n =>
      match List_ Up tenant f d with
      | Err _ => None
      | Ok (es, token) => if eqb token "" then Some es else (fun rest => es ++ rest)%list <$> pages n tenant (with_token token f) d
      end
  end.

(** ** The order of the listing *)

Lemma rowLt_spec a b : rowLt a b = true <-> a.1 < b.1 \/ a.1 = b.1 /\ slt a.2 b.2.
Proof. unfold rowLt, slt. rewrite orb_true_iff, andb_true_iff, Z.ltb_lt, Z.eqb_eq. done. Qed.

Lemma rowLt_irrefl a : rowLt a a = false.
Proof. apply not_true_iff_false. rewrite rowLt_spec. intros [?|[_ ?%slt_irrefl]]; [lia|done]. Qed.

Lemma rowLt_trans a b c : rowLt a b = true -> rowLt b c = true -> rowLt a c = true.
Proof. rewrite !rowLt_spec. intros [?|[? ?]] [?|[? ?]]; [left; lia|left; lia|left; lia|right; split; [lia|by etrans]]. Qed.

Lemma rowLt_total a b : rowLt a b = true \/ a = b \/ rowLt b a = true.
Proof.
  rewrite !rowLt_spec. destruct a as [x i], b as [y j]. cbn [fst snd]. destruct (Z.lt_trichotomy x y) as [?|[->|?]]; [by left; left| |by right; right; left].
  destruct (decide (slt i j)); [by left; right|]. destruct (decide (slt j i)); [by right; right; right|]. right. left. f_equal.
  apply le_not_slt, le_slt in n as [?|?]; [done|done].
Qed.

#[local] Instance newer_trans : Transitive newer.
Proof.
  intros a b c Hab Hbc. unfold newer in *. apply not_true_iff_false. intros Hac.
  destruct (rowLt_total (sortKey b) (sortKey a)) as [H|[E|H]]; [|rewrite E in Hbc; congruence|congruence].
  rewrite (rowLt_trans _ _ _ H Hac) in Hbc. done.
Qed.

#[local] Instance newer_total : Total newer.
Proof.
  intros a b. unfold newer. destruct (rowLt (sortKey a) (sortKey b)) eqn:E; [right|by left]. apply not_true_iff_false. intros H.
  pose proof (rowLt_trans _ _ _ E H) as Ha. by rewrite rowLt_irrefl in Ha.
Qed.

Section Pages.
Context `{!DialectLaws D} (d : SDB) (t m : string) (f : ListFilter) (plain : LatestOnly f = false).

Abbreviation sel tok := (selectEvents t m f tok d).

Lemma sel_elem tok (r : Row) : r ∈ sel tok <-> s_events d !! r.1 = Some r.2 /\ listWhere t m f r = true /\ beforeToken tok r = true.
Proof.
  unfold selectEvents. rewrite plain, merge_sort_Permutation, list_elem_of_filter, heap_rows. destruct r as [i r].
  rewrite elem_of_map_to_list, andb_true_iff. cbn [fst snd]. tauto.
Qed.

Lemma sel_NoDup tok : NoDup (sel tok).
Proof. unfold selectEvents. rewrite plain, merge_sort_Permutation. apply NoDup_filter. rewrite heap_rows. apply NoDup_map_to_list. Qed.

Lemma sel_sorted tok : StronglySorted newer (sel tok).
Proof. unfold selectEvents. rewrite plain. apply StronglySorted_merge_sort; apply _. Qed.

(** A row's key is its own. *)
Lemma sel_key tok tok' (a b : Row) : a ∈ sel tok -> b ∈ sel tok' -> sortKey a = sortKey b -> a = b.
Proof.
  intros (Ha & _)%sel_elem (Hb & _)%sel_elem E. destruct a as [i a], b as [j b]. unfold sortKey in E. cbn [fst snd] in *. injection E as _ ->. congruence.
Qed.

(** After a row's token come the rows after it. *)
Lemma sel_after tok pre x post : sel tok = (pre ++ x :: post)%list -> sel (Some (sortKey x)) = post.
Proof.
  intros E. pose proof (sel_NoDup tok) as Hnd. pose proof (sel_sorted tok) as Hs. rewrite E in Hnd, Hs.
  assert (Hx : x ∈ sel tok) by (rewrite E; apply elem_of_app; right; by left). pose proof Hx as (_ & _ & Hxt)%sel_elem.
  apply NoDup_app in Hnd as (_ & Hpre & Hnd). apply NoDup_cons in Hnd as [Hxp Hndp].
  apply StronglySorted_app in Hs as (Hcross & _ & Hs). apply StronglySorted_inv in Hs as [Hsp Hxs]. rewrite Forall_forall in Hxs.
  assert (Hpost : forall y, y ∈ post -> y ∈ sel tok) by (intros y Hy; rewrite E; apply elem_of_app; right; by right).
  apply (StronglySorted_unique_strong newer); [|apply sel_sorted|done|].
  - intros a b Ha Hb Hab Hba. eapply sel_key; [exact Ha|by apply (Hpost b)|]. unfold newer in *.
    destruct (rowLt_total (sortKey a) (sortKey b)) as [?|[?|?]]; congruence.
  - apply NoDup_Permutation; [apply sel_NoDup|done|]. intros y. split.
    + intros Hy. pose proof Hy as (Hr & Hw & Hlt)%sel_elem. cbn [beforeToken] in Hlt.
      assert (Hy' : y ∈ sel tok).
      { apply sel_elem. split_and!; [done|done|]. destruct tok as [k|]; [|done]. cbn [beforeToken] in *. by eapply rowLt_trans. }
      rewrite E in Hy'. apply elem_of_app in Hy' as [Hy'|Hy'].
      * specialize (Hcross y x Hy' ltac:(by left)). unfold newer in Hcross. congruence.
      * apply elem_of_cons in Hy' as [->|?]; [by rewrite rowLt_irrefl in Hlt|done].
    + intros Hy. pose proof (Hpost y Hy) as (Hr & Hw & _)%sel_elem. apply sel_elem. split_and!; [done|done|]. cbn [beforeToken].
      destruct (rowLt_total (sortKey y) (sortKey x)) as [?|[Ek|Hlt]]; [done| |].
      * assert (y = x) as -> by (eapply sel_key; [by apply (Hpost y)|exact Hx|done]). done.
      * specialize (Hxs y Hy). unfold newer in Hxs. congruence.
Qed.

(** What a token stands for. *)
Definition reads (token : string) (tok : option (Z * string)) : Prop :=
  match tok with
  | None => token = ""
  | Some (ts, id) => token <> "" /\ decodePageToken token = Ok (ts, id) /\ timeColumn ts = ts /\ uuidColumn id = Some id
  end.

(** Rows as the columns keep them. *)
Definition stored : Prop := forall id r, s_events d !! id = Some r -> uuidColumn id = Some id /\ timeColumn (c_timestamp r) = c_timestamp r /\ datable (c_timestamp r).

Lemma token_reads (r : Row) : stored -> s_events d !! r.1 = Some r.2 -> reads (encodePageToken (c_timestamp r.2) r.1) (Some (sortKey r)).
Proof.
  intros Hst Hr. destruct (Hst _ _ Hr) as (Hu & Ht & Hd). unfold reads, sortKey, encodePageToken. split; [|split_and!; [|done|done]].
  - by destruct (formatRFC3339Nano (c_timestamp r.2)).
  - unfold decodePageToken. change (formatRFC3339Nano (c_timestamp r.2) ++ "|" ++ r.1) with (formatRFC3339Nano (c_timestamp r.2) ++ String "|" r.1).
    rewrite Cut_app by (by apply format_no_bar). by rewrite parse_format.
Qed.

Lemma pageSize_positive : (0 < pageSizeOf f)%nat.
Proof. unfold pageSizeOf. destruct (Z.leb_spec (PageSize f) 0), (Z.ltb_spec 500 (PageSize f)); cbn [orb]; lia. Qed.

Lemma list_page tenant token tok rest :
  (forall k, (k = None \/ exists ts id, k = Some (ts, id) /\ timeColumn ts = ts /\ uuidColumn id = Some id) -> listArgs tenant f k = Some (t, m, k)) ->
  reads token tok -> sel tok = rest ->
  List_ Up tenant (with_token token f) d =
    (let size := pageSizeOf f in let events := scanEvent <$> take (S size) rest in
     match drop size events, last (take size events) with
     | _ :: _, Some e => Ok (take size events, encodePageToken (Timestamp e) (ID e))
     | _, _ => Ok (events, "")
     end).
Proof.
  intros Hargs Hr Hsel. unfold List_, query. cbn [with_token PageToken].
  assert (Htok : (if eqb token "" then Ok None else match decodePageToken token with Ok k => Ok (Some k) | Err e => Err e end) = Ok tok :> result string _ /\
    listArgs tenant f tok = Some (t, m, tok)).
  { destruct tok as [[ts id]|]; cbn [reads] in Hr.
    - destruct Hr as (Hne & -> & Ht & Hu). rewrite (proj2 (eqb_false token "") Hne). split; [done|]. apply Hargs. right. by exists ts, id.
    - subst token. split; [done|]. apply Hargs. by left. }
  destruct Htok as [-> Ha]. change (listArgs tenant (with_token token f) tok) with (listArgs tenant f tok). rewrite Ha.
  change (selectEvents t m (with_token token f) tok d) with (sel tok). by rewrite Hsel.
Qed.

Lemma cut_page {A} (l : list A) n : (0 < n < length l)%nat -> exists pre x post, l = (pre ++ x :: post)%list /\ length pre = (n - 1)%nat /\ post <> [].
Proof.
  intros Hn. destruct (lookup_lt_is_Some_2 l (n - 1)) as [x Hx]; [lia|]. exists (take (n - 1) l), x, (drop n l). split_and!.
  - rewrite <- (take_drop_middle l (n - 1) x Hx) at 1. by replace (S (n - 1)) with n by lia.
  - rewrite length_take. lia.
  - intros E. apply (f_equal length) in E. rewrite length_drop in E. cbn in E. lia.
Qed.

Lemma pages_all tenant : stored ->
  (forall k, (k = None \/ exists ts id, k = Some (ts, id) /\ timeColumn ts = ts /\ uuidColumn id = Some id) -> listArgs tenant f k = Some (t, m, k)) ->
  forall n token tok rest, reads token tok -> sel tok = rest -> (length rest < n)%nat ->
  pages n tenant (with_token token f) d = Some (scanEvent <$> rest).
Proof.
  intros Hst Hargs. induction n as [|n IH]; intros token tok rest Hr Hsel Hn; [lia|]. cbn [pages].
  rewrite (list_page tenant token tok rest) by done. cbv zeta. pose proof pageSize_positive as Hp. set (size := pageSizeOf f) in *.
  destruct (decide (length rest <= size)%nat) as [Hle|Hgt].
  - rewrite (take_ge rest) by lia. assert (Hd : drop size (scanEvent <$> rest) = []) by (apply drop_ge; rewrite length_fmap; lia).
    rewrite Hd. by rewrite eqb_refl.
  - destruct (cut_page rest size) as (pre & x & post & E & Hl & Hne); [lia|].
    assert (Htake : take size (scanEvent <$> take (S size) rest) = scanEvent <$> (pre ++ [x])%list).
    { rewrite <- fmap_take, take_take. replace (size `min` S size)%nat with size by lia. f_equal. rewrite E.
      replace (pre ++ x :: post)%list with ((pre ++ [x]) ++ post)%list by (by rewrite <- app_assoc). apply take_app_length'. rewrite length_app. cbn. lia. }
    destruct post as [|y post]; [done|].
    assert (Hdrop : exists z, drop size (scanEvent <$> take (S size) rest) = [z]).
    { exists (scanEvent y). rewrite <- fmap_drop, E. replace (pre ++ x :: y :: post)%list with ((pre ++ [x]) ++ y :: post)%list by (by rewrite <- app_assoc).
      rewrite skipn_firstn_comm, drop_app_length' by (rewrite length_app; cbn; lia). replace (S size - size)%nat with 1%nat by lia. done. }
    destruct Hdrop as [z ->]. rewrite Htake, fmap_app. change (scanEvent <$> [x]) with [scanEvent x]. rewrite last_snoc.
    assert (Hx : s_events d !! x.1 = Some x.2).
    { assert (Hin : x ∈ sel tok) by (rewrite Hsel, E; apply elem_of_app; right; by left). by apply sel_elem in Hin as (? & _). }
    assert (Htoken : encodePageToken (Timestamp (scanEvent x)) (ID (scanEvent x)) = encodePageToken (c_timestamp x.2) x.1) by done.
    pose proof (token_reads x Hst Hx) as Hr'. rewrite Htoken. rewrite (proj2 (eqb_false _ "")) by (by destruct Hr').
    change (with_token (encodePageToken (c_timestamp x.2) x.1) (with_token token f)) with (with_token (encodePageToken (c_timestamp x.2) x.1) f).
    rewrite (IH _ _ (y :: post) Hr').
    + cbn [fmap option_fmap option_map]. rewrite E, fmap_app. f_equal. by rewrite <- app_assoc.
    + eapply sel_after. rewrite Hsel. exact E.
    + rewrite E, length_app in Hn. cbn [length] in *. lia.
Qed.

End Pages.

(** Rows the writer made are as the columns keep them. *)
Lemma run_stored `{!DialectLaws D} ls : Forall (fun e => datable (timeColumn (Timestamp e))) (offered ls) -> stored (w_db (run ls (NewWriter emptySDB))).
Proof.
  intros Hd id r Hr. destruct (new_accounted emptySDB) as [H0 B0]. destruct (run_accounted emptySDB ls [] _ H0 B0) as [[_ _ _ _ Hrows _] _].
  destruct (Hrows id r Hr) as [He|(e & Hin & (Hi & _ & _ & Ht & _)%row_parts)]; [done|]. rewrite Ht, time_stable.
  rewrite Forall_forall in Hd. split_and!; [by eapply uuid_stable|done|by apply Hd].
Qed.

(** Both stores list the same events.  For an event the columns keep as it
    is, and a filter whose search texts are ordinary letters, the clauses of the
    shared store's query hold exactly when the event is the tenant's, is of the
    message asked for, falls within the period and passes the tests of the local
    store's listing. *)
Theorem clauses_are_the_local_tests f e i r :
  kept e -> eventRow e = Some (i, r) -> str_all ordinary (F_Recipient f) = true -> str_all ordinary (F_Subject f) = true ->
  forall tenant message, listWhere tenant message f (i, r) =
    eqb (TenantID e) tenant && (eqb (F_MessageID f) "" || eqb (MessageID e) message) && listed f e &&
    since (F_StartTime f) (Timestamp e) && until (F_EndTime f) (Timestamp e).
Proof.
  intros Hk Hrow Hr Hs tenant message. pose proof (scan_kept e i r Hk Hrow) as E. pose proof Hrow as (_ & _ & _ & _ & Ety & _ & Esj & _)%row_parts.
  unfold listWhere, listed, contains. cbn [snd]. rewrite Esj, Ety, !like_contains by done.
  assert (Htype : eqb (typeName (Type_ e)) (typeName (F_EventType f)) = bool_decide (Type_ e = F_EventType f)).
  { unfold eqb. apply bool_decide_ext. split; [apply typeName_inj|by intros ->]. }
  rewrite Htype, <- E. unfold scanEvent. cbn [fst snd TenantID MessageID Recipient Subject Timestamp]. rewrite Esj. cbn [default from_option id].
  rewrite <- !andb_assoc. done.
Qed.

(** C13: the pages tile the listing.  Over a table the writer filled, however its
    loop and its flushes went, a listing of every event -- not only the latest of
    each thread -- followed page by page through its tokens ends, and gives the
    rows its filter matches, newest first, each exactly once. *)
Theorem shared_pages_tile `{!DialectLaws D} ls tenant t m f :
  let d := w_db (run ls (NewWriter emptySDB)) in
  Forall (fun e => datable (timeColumn (Timestamp e))) (offered ls) ->
  LatestOnly f = false -> PageToken f = "" -> listArgs tenant f None = Some (t, m, None) ->
  exists rows : list Row,
    pages (S (size (s_events d))) tenant f d = Some (scanEvent <$> rows) /\
    NoDup rows /\ StronglySorted newer rows /\
    forall r : Row, r ∈ rows <-> s_events d !! r.1 = Some r.2 /\ listWhere t m f r = true.
Proof.
  intros d Hd Hplain Htok Hargs. exists (selectEvents t m f None d).
  assert (Hlen : (length (selectEvents t m f None d) <= size (s_events d))%nat).
  { unfold selectEvents. rewrite Hplain, merge_sort_Permutation, <- length_map_to_list, <- (heap_rows (s_events d)). apply length_filter. }
  split_and!.
  - assert (Hf : f = with_token "" f) by (destruct f; cbn in *; by subst). rewrite Hf at 1.
    apply (pages_all d t m f Hplain) with (tok := None); [by apply run_stored| |done|done|lia].
    intros k Hk. unfold listArgs in *. destruct (uuidColumn tenant); [|done]. cbn [mbind option_bind] in *.
    destruct (if eqb (F_MessageID f) "" then Some "" else uuidColumn (F_MessageID f)); [|done]. cbn [mbind option_bind] in *.
    destruct (textColumn _ && textColumn _); [|done]. cbn [mbind option_bind] in *. injection Hargs as -> ->.
    destruct Hk as [->|(ts & id & -> & Ht & Hu)]; [done|]. rewrite Hu. cbn. by rewrite Ht.
  - by apply sel_NoDup.
  - by apply sel_sorted.
  - intros r. rewrite sel_elem by done. cbn [beforeToken]. tauto.
Qed.

(** ** A stored message keeps its body *)

Section Messages.
Context `{!ListCodecLaws J, !DialectLaws D}.

(** A message with its ids in the form the columns keep, and addresses and
    attachments JSON keeps. *)
Definition kept_message (m : EmailMessage) : Prop :=
  uuidColumn (M_ID m) = Some (M_ID m) /\ uuidColumn (M_TenantID m) = Some (M_TenantID m) /\
  (M_ProviderID m <> "" -> uuidColumn (M_ProviderID m) = Some (M_ProviderID m)) /\
  Forall (fun s => validText s = true) (M_To m ++ M_Cc m ++ M_Bcc m)%list /\ Forall (fun a => validAttachment a = true) (M_Attachments m).

(** The message with its creation time to the precision of the column: PostgreSQL
    keeps microseconds. *)
Definition as_stored (m : EmailMessage) : EmailMessage :=
  mkEmailMessage (M_ID m) (M_TenantID m) (M_ProviderID m) (M_From m) (M_To m) (M_Cc m) (M_Bcc m) (M_Subject m) (M_BodyHTML m) (M_BodyText m) (M_Attachments m)
    (timeColumn (M_CreatedAt m)).

Lemma decode_encodeList v o : Forall (fun s => validText s = true) v -> colTextNull (encodeList v) = Some o -> decodeList o = v.
Proof.
  intros Hv. unfold encodeList. destruct v as [|x v]; [by intros [= <-]|]. destruct (list_roundtrip _ Hv) as (j & -> & Hj & Hback).
  intros (s & ->%colText_text & ->)%fmap_Some. cbn [decodeList]. by rewrite (proj2 (eqb_false j "") Hj).
Qed.

Lemma decode_encodeAttachments v o : Forall (fun a => validAttachment a = true) v -> colTextNull (encodeAttachments v) = Some o -> decodeAttachments o = v.
Proof.
  intros Hv. unfold encodeAttachments. destruct v as [|x v]; [by intros [= <-]|]. destruct (attachments_roundtrip _ Hv) as (j & -> & Hj & Hback).
  intros (s & ->%colText_text & ->)%fmap_Some. cbn [decodeAttachments]. by rewrite (proj2 (eqb_false j "") Hj).
Qed.

Lemma default_nullable v : default "" (if eqb v "" then None else Some v) = v.
Proof. destruct (eqb v "") eqn:E; [by apply eqb_true in E|done]. Qed.

Lemma scan_kept_message m id r : kept_message m -> messageRow m = Some (id, r) ->
  id = M_ID m /\ b_tenant r = M_TenantID m /\ b_provider r = (if eqb (M_ProviderID m) "" then None else Some (M_ProviderID m)) /\
  forall p, scanMessage (id, with_b_provider p r) = with_provider (default "" p) (as_stored m).
Proof.
  intros (H1 & H2 & H3 & H5 & H6). unfold messageRow. cbn [colUuid]. rewrite H1, H2. cbn [mbind option_bind]. intros H.
  apply bind_Some in H as (p & Ep & H). apply bind_Some in H as (from & Ef & H). apply bind_Some in H as (to_ & Eto & H).
  apply bind_Some in H as (cc & Ecc & H). apply bind_Some in H as (bcc & Ebcc & H). apply bind_Some in H as (sj & Esj & H).
  apply bind_Some in H as (html & Eh & H). apply bind_Some in H as (text & Et & H). apply bind_Some in H as (atts & Ea & H). injection H as <- <-.
  apply colUuidNull_nullable in Ep. apply colTextNull_nullable in Esj, Eh, Et. apply bind_Some in Ef as (f' & ->%colText_text & Ef).
  destruct (recipientColumn (M_From m)); [|done]. injection Ef as <-. apply Forall_app in H5 as [HA H5]. apply Forall_app in H5 as [HB HC].
  apply decode_encodeList in Eto, Ecc, Ebcc; [|done..]. apply decode_encodeAttachments in Ea; [|done].
  split_and!; [done|done| |].
  - cbn [b_provider]. rewrite Ep. destruct (eqb (M_ProviderID m) "") eqn:E; [done|]. by apply H3, eqb_false.
  - intros q. unfold scanMessage, with_b_provider, with_provider. cbn [fst snd b_tenant b_provider b_from b_to b_cc b_bcc b_subject b_html b_text b_attachments b_created].
    rewrite Eto, Ecc, Ebcc, Ea, Esj, Eh, Et, !default_nullable. done.
Qed.

(** What happens to stored messages, expiry apart. *)
Inductive messageOp :=
| MWrite (fl : fault) (m : option EmailMessage)
| MBackfill (fl : fault) (tenant id provider : string).

Definition messageStep (d : SDB) (o : messageOp) : SDB :=
  match o with
  | MWrite fl m => (WriteMessage fl m d).1
  | MBackfill fl tenant id provider => (BackfillMessageProvider fl tenant id provider d).1
  end.

Definition sameBody (r r' : MessageRow) : Prop := exists p, r' = with_b_provider p r /\ (b_provider r <> None -> p <> None).

Lemma sameBody_refl r : sameBody r r.
Proof. exists (b_provider r). by destruct r. Qed.

Lemma sameBody_trans a b c : sameBody a b -> sameBody b c -> sameBody a c.
Proof. intros (p & -> & H1) (q & -> & H2). exists q. split; [done|]. cbn in H2. auto. Qed.

Lemma upsertMessage_keeps m d d' u i r : upsertMessage m d = Ok (d', u) -> s_messages d !! i = Some r -> exists r', s_messages d' !! i = Some r' /\ sameBody r r'.
Proof.
  unfold upsertMessage. destruct (messageRow m) as [[id row]|]; [|done]. intros [= <- <-] Hi. cbn [set_messages s_messages].
  destruct (decide (i = id)) as [->|Hne]; [|exists r; rewrite lookup_insert_ne by done; split; [done|apply sameBody_refl]].
  rewrite Hi, lookup_insert_eq. eexists. split; [done|]. eexists. split; [done|]. by destruct (b_provider row).
Qed.

Lemma backfillMessage_keeps tenant id p d d' u i r : backfillMessage tenant id p d = Ok (d', u) -> s_messages d !! i = Some r ->
  exists r', s_messages d' !! i = Some r' /\ sameBody r r'.
Proof.
  unfold backfillMessage. intros H Hi. destruct (uuidColumn tenant), (uuidColumn id) as [k|], (colUuidNull (nullable p)) as [q|]; try done.
  destruct (s_messages d !! k) as [old|] eqn:Ek; [|injection H as <- <-; exists r; split; [done|apply sameBody_refl]].
  destruct (eqb _ _ && _) eqn:Eb; injection H as <- <-; [|exists r; split; [done|apply sameBody_refl]]. cbn [set_messages s_messages].
  destruct (decide (i = k)) as [->|Hne]; [|exists r; rewrite lookup_insert_ne by done; split; [done|apply sameBody_refl]].
  rewrite lookup_insert_eq. rewrite Hi in Ek. injection Ek as <-. eexists. split; [done|]. eexists. split; [done|].
  apply andb_true_iff in Eb as [_ Eb]. by apply bool_decide_eq_true in Eb.
Qed.

Lemma exec_keeps {A} (P : SDB -> Prop) fl (stmt : SDB -> result string (SDB * A)) d :
  (forall d' u, stmt d = Ok (d', u) -> P d') -> P d -> P (exec fl stmt d).1.
Proof. intros Hs Hd. unfold exec. destruct fl; [|done|done|]; destruct (stmt d) as [[d' u]|]; cbn [fst]; eauto. Qed.

Lemma messages_keep ops : forall d i r, s_messages d !! i = Some r -> exists r', s_messages (foldl messageStep d ops) !! i = Some r' /\ sameBody r r'.
Proof.
  induction ops as [|o ops IH]; intros d i r Hi; [exists r; split; [done|apply sameBody_refl]|]. cbn [foldl].
  assert (Hone : exists r', s_messages (messageStep d o) !! i = Some r' /\ sameBody r r').
  { destruct o as [fl [m|]|fl t id p]; cbn [messageStep].
    - assert (E : (WriteMessage fl (Some m) d).1 = (exec fl (upsertMessage m) d).1) by (by destruct fl). rewrite E.
      apply (exec_keeps (fun d' => exists r', s_messages d' !! i = Some r' /\ sameBody r r')); [intros; by eapply upsertMessage_keeps|]. exists r. split; [done|apply sameBody_refl].
    - exists r. split; [by destruct fl|apply sameBody_refl].
    - apply (exec_keeps (fun d' => exists r', s_messages d' !! i = Some r' /\ sameBody r r')); [intros; by eapply backfillMessage_keeps|]. exists r. split; [done|apply sameBody_refl]. }
  destruct Hone as (r1 & H1 & S1). destruct (IH _ _ _ H1) as (r2 & H2 & S2). exists r2. split; [done|by eapply sameBody_trans].
Qed.

(** C16: a stored message reads back.  A message written where none had its id,
    with its ids in canonical form and its addresses in UTF-8, is read back with
    every field as it was -- its creation time to the column's precision, which on
    PostgreSQL is the microsecond -- whatever is written or filled in later, under
    its id or another, by whichever tenant, with whatever failures; except that it
    may since name a provider, and never stops naming one. *)
Theorem stored_message_reads_back m d d' ops :
  kept_message m -> s_messages d !! M_ID m = None -> WriteMessage Up (Some m) d = (d', Ok tt) ->
  exists p, GetMessage Up (M_TenantID m) (M_ID m) (foldl messageStep d' ops) = Ok (Some (with_provider (default "" p) (as_stored m))) /\
    (M_ProviderID m <> "" -> p <> None).
Proof.
  intros Hk Hnew Hw. unfold WriteMessage, exec, upsertMessage in Hw. destruct (messageRow m) as [[id r]|] eqn:Er; [|done]. injection Hw as <-.
  destruct (scan_kept_message m id r Hk Er) as (-> & Ht & Hp & Hscan). rewrite Hnew.
  destruct (messages_keep ops (set_messages (<[M_ID m := r]> (s_messages d)) d) (M_ID m) r) as (r' & Hr' & q & -> & Hq); [apply lookup_insert_eq|].
  destruct Hk as (H1 & H2 & _). exists q. unfold GetMessage, query, messageOf. rewrite H1, H2, Hr'. cbn [b_tenant with_b_provider].
  rewrite Ht, eqb_refl, Hscan. split; [done|]. intros Hne. rewrite (proj2 (eqb_false _ "") Hne) in Hp. apply Hq. by rewrite Hp.
Qed.

End Messages.

End Reads.

End SharedReads.
