(* ===== verification/SharedRetention.v ===== *)
(** * Events in the shared database: what expires

    Models retention of the shared event store:
    [internal/event/repositories/stores/postgres/retention.go], the truncation of
    [events.go] there with its local mirror, and the archive writes of
    [pebble/archive.go] it asks for.  The theorems: no row is deleted before it is
    archived; a pass nobody writes beside ends; one nothing disturbs removes
    exactly the old rows and archives each once; and what the database holds is not archived a second
    time by the mirror. *)
From S2P Require Import Prelude GoStrings Encoding KVStore Calendar Timestamps Classify Admission Events EventStore EventTimeline EventListing EventRetention EventCounters SharedEvents SharedCounters.
From Stdlib Require Import Ascii.

Module SharedRetention.
Import GoStrings Encoding KVStore Calendar Timestamps Classify Events EventStore EventTimeline EventListing EventRetention EventCounters SharedEvents SharedCounters.
Local Open Scope string_scope.
Local Open Scope Z_scope.

Abbreviation Row := (string * EventRow)%type.
Abbreviation line := (string * string)%type.

Section Retention.
Context {D : Dialect} {codec : Codec}.

(** ** The archive *)

(** [ArchiveEvents]: a line for every event that has a tenant. *)
Fixpoint ArchiveEvents (env : RetEnv) (i : nat) (es : list EmailEvent) (lines : list line) : list line * option string :=
  match es with
  | [] => (lines, None)
  | e :: rest =>
      match r_ctx env i with
      | Some err => (lines, Some err)
      | None =>
          if eqb (TenantID e) "" then ArchiveEvents env (S i) rest lines
          else
            match MarshalEvent e with
            | Err err => (lines, Some err)
            | Ok record =>
                match archiveWrite env (TenantID e) record lines with
                | (lines', Some err) => (lines', Some err)
                | (lines', None) => ArchiveEvents env (S i) rest lines'
                end
            end
      end
  end.

(** ** The database's own pass *)

Definition archiveBatch : nat := Z.to_nat 5000.
Definition deleteBatch : nat := Z.to_nat 5000.

Definition old (before : Z) (r : Row) : Prop := c_timestamp r.2 < timeColumn before.

Definition earlier (a b : Row) : Prop := c_timestamp a.2 <= c_timestamp b.2.
#[local] Instance earlier_dec a b : Decision (earlier a b).
Proof. unfold earlier. apply _. Defined.
#[local] Instance old_dec before r : Decision (old before r).
Proof. unfold old. apply _. Defined.

(** [SELECT ... WHERE timestamp < $1 ORDER BY timestamp], all of it. *)
Definition oldRows (before : Z) (d : SDB) : list Row := merge_sort earlier (filter (old before) (heapOrder (s_events d))).

(** [DELETE ... WHERE id IN (...)]. *)
Definition without (ids : list string) (m : gmap string EventRow) : gmap string EventRow := filter (fun kv => kv.1 ∉ ids) m.
Definition deleteIds (ids : list string) (d : SDB) : result string (SDB * unit) := Ok (set_events (without ids (s_events d)) d, tt).

(** What a pass meets: its context, its queries and its deletes by number; the
    archive, if the local store can write one, with what each batch meets there;
    and what others do to the tables between a query and its delete. *)
Record PassEnv := mkPassEnv {
  p_ctx : nat -> option string;
  p_select : nat -> fault;
  p_archiver : option (nat -> RetEnv);
  p_between : nat -> SDB -> SDB;
  p_delete : nat -> fault
}.

(** Where a pass is: the tables, the archive lines written, the count it will
    report, and -- kept for the proofs -- the rows its deletes took away. *)
Record PassState := mkPass {
  ps_db : SDB;
  ps_lines : list line;
  ps_total : Z;
  ps_deleted : list Row
}.

Definition archiveOf (env : PassEnv) (i : nat) (batch : list Row) (lines : list line) : list line * option string :=
  match p_archiver env with
  | None => (lines, None)
  | Some a => ArchiveEvents (a i) 0 (scanEvent <$> batch) lines
  end.

(** [archiveAndDeleteEvents]; [None] is running out of fuel. *)
Fixpoint archiveAndDeleteEvents (fuel : nat) (env : PassEnv) (before : Z) (i : nat) (st : PassState) : option (PassState * option string) :=
  match fuel with
  | O => None
  | S fuel =>
      match p_ctx env i with
      | Some err => Some (st, Some err)
      | None =>
          match query (p_select env i) (Ok (take archiveBatch (oldRows before (ps_db st)))) with
          | Err err => Some (st, Some err)
          | Ok [] => Some (st, None)
          | Ok batch =>
              match archiveOf env i batch (ps_lines st) with
              | (lines, Some err) => Some (mkPass (ps_db st) lines (ps_total st) (ps_deleted st), Some err)
              | (lines, None) =>
                  let d := p_between env i (ps_db st) in
                  match exec (p_delete env i) (deleteIds batch.*1) d with
                  | (d', Err err) =>
                      let gone := match p_delete env i with Lost _ => batch | _ => [] end in
                      Some (mkPass d' lines (ps_total st) (ps_deleted st ++ gone)%list, Some err)
                  | (d', Ok _) =>
                      let st' := mkPass d' lines (ps_total st + Z.of_nat (length batch)) (ps_deleted st ++ batch)%list in
                      if (length batch <? archiveBatch)%nat then Some (st', None)
                      else archiveAndDeleteEvents fuel env before (S i) st'
                  end
              end
          end
      end
  end.

(** [DeleteEventsBefore]: rows deleted without a look at them. *)
Fixpoint DeleteEventsBefore (fuel : nat) (ctx : nat -> option string) (fs : nat -> fault) (before : Z) (i : nat) (total : Z) (d : SDB) :
    option (SDB * Z * option string) :=
  match fuel with
  | O => None
  | S fuel =>
      match ctx i with
      | Some err => Some (d, total, Some err)
      | None =>
          let ids := (take deleteBatch (filter (old before) (heapOrder (s_events d)))).*1 in
          match exec (fs i) (deleteIds ids) d with
          | (d', Err err) => Some (d', total, Some err)
          | (d', Ok _) =>
              let total := total + Z.of_nat (length ids) in
              if (length ids <? deleteBatch)%nat then Some (d', total, None)
              else DeleteEventsBefore fuel ctx fs before (S i) total d'
          end
      end
  end.

(** [DeleteMessagesBefore], [DeleteMinuteSeriesBefore] and
    [DeleteHourDaySeriesBefore]: one statement each. *)
Definition deleteMessages (before : Z) (d : SDB) : result string (SDB * Z) :=
  let kept := filter (fun kv => ~ b_created kv.2 < timeColumn before) (s_messages d) in
  Ok (set_messages kept d, Z.of_nat (size (s_messages d)) - Z.of_nat (size kept)).

Definition DeleteMessagesBefore (fl : fault) (before : Z) (d : SDB) : SDB * result string Z := exec fl (deleteMessages before) d.

Definition pastBucket (fs : list counterFamily) (before : Z) (k : string * string * string * string) : Prop :=
  Exists (fun f => k.1.1.2 = granularityName f /\ slt k.1.2 (flayout f before)) fs.
#[local] Instance pastBucket_dec fs before k : Decision (pastBucket fs before k).
Proof. unfold pastBucket. apply _. Defined.

Definition deleteSeries (fs : list counterFamily) (before : Z) (d : SDB) : result string (SDB * Z) :=
  let kept := filter (fun kv => ~ pastBucket fs before kv.1) (s_series d) in
  Ok (set_series kept d, Z.of_nat (size (s_series d)) - Z.of_nat (size kept)).

Definition DeleteMinuteSeriesBefore (fl : fault) (before : Z) (d : SDB) : SDB * result string Z := exec fl (deleteSeries [minuteCounters] before) d.
Definition DeleteHourDaySeriesBefore (fl : fault) (before : Z) (d : SDB) : SDB * result string Z := exec fl (deleteSeries [hourCounters; dayCounters] before) d.

(** ** The pass over both stores *)

(** [heldEvents]: which of the ids the table has.  An id PostgreSQL could not
    hold is answered without it. *)
Definition heldEvents (fl : fault) (d : SDB) (ids : list string) : result string (gset string) :=
  match fl with
  | Down => Err errNotConnected
  | _ =>
      let candidates := filter (fun id => isPostgres = false \/ uuidParse id = true) ids in
      match candidates with
      | [] => Ok ∅
      | _ =>
          query fl
            match mapM uuidColumn candidates with
            | None => Err invalidInput
            | Some us => Ok (list_to_set (filter (fun u => is_Some (s_events d !! u)) us))
            end
      end
  end.

Context {DB : Type} `{!KV DB}.

(** [TruncateBefore]: the local mirror first, leaving the database's events to
    it, then the database.  What the mirror does is what [EventStore] models. *)
Definition TruncateBefore (fuel : nat) (up : bool) (local : RetEnv) (held : fault) (env : PassEnv) (before : Z) (mirror : DB) (d : SDB) :
    RetState * option (PassState * option string) :=
  if negb up then (mkRet [] [] 0 0, Some (mkPass d [] 0 [], Some errNotConnected))
  else
    let '(st, err) := TruncateBeforeArchivingOnly
      (mkRetEnv (r_ctx local) (Some (heldEvents held d)) (r_archive local) (r_commit local) (r_expire local)) before mirror in
    match err with
    | Some e => (st, Some (mkPass d [] 0 [], Some ("local store: " ++ e)))
    | None => (st, archiveAndDeleteEvents fuel env before 0 (mkPass d [] 0 []))
    end.

(** ** The archive comes first *)

Lemma ArchiveEvents_lines env : forall es i lines lines' err, ArchiveEvents env i es lines = (lines', err) ->
  (exists more, lines' = (lines ++ more)%list) /\
  (err = None -> forall e, e ∈ es -> TenantID e <> "" -> exists record, MarshalEvent e = Ok record /\ (TenantID e, record) ∈ lines').
Proof.
  induction es as [|e es IH]; intros i lines lines' err; cbn [ArchiveEvents].
  { intros [= <- <-]. split; [exists []; by rewrite app_nil_r|]. intros _ e He. by apply elem_of_nil in He. }
  destruct (r_ctx env i); [intros [= <- <-]; split; [exists []; by rewrite app_nil_r|done]|]. destruct (eqb (TenantID e) "") eqn:Et.
  { intros H. destruct (IH _ _ _ _ H) as [H1 H2]. split; [done|]. intros Hn x [->|Hx]%elem_of_cons Hne; [by apply eqb_true in Et|by apply H2]. }
  destruct (MarshalEvent e) as [record|] eqn:Em; [|intros [= <- <-]; split; [exists []; by rewrite app_nil_r|done]]. unfold archiveWrite.
  destruct (r_archive env (length lines)); [intros [= <- <-]; split; [exists []; by rewrite app_nil_r|done]|].
  intros H. destruct (IH _ _ _ _ H) as [[more ->] H2]. split; [exists ([(TenantID e, record)] ++ more)%list; by rewrite app_assoc|].
  intros Hn x [->|Hx]%elem_of_cons Hne; [|by apply H2]. exists record. split; [done|]. rewrite !elem_of_app. left. right. by left.
Qed.

Lemma oldRows_elem `{!DialectLaws D} before d (r : Row) : r ∈ oldRows before d <-> s_events d !! r.1 = Some r.2 /\ old before r.
Proof.
  unfold oldRows. rewrite merge_sort_Permutation, list_elem_of_filter, heap_rows. destruct r as [i r]. rewrite elem_of_map_to_list. cbn [fst snd]. tauto.
Qed.

(** Every row deleted was old, and is in the archive if there is one and the row
    names a tenant; and a row no delete took is still there. *)
Definition recorded (env : PassEnv) (lines : list line) (r : Row) : Prop :=
  p_archiver env <> None -> c_tenant r.2 <> "" -> exists record, MarshalEvent (scanEvent r) = Ok record /\ (c_tenant r.2, record) ∈ lines.

Definition safe (env : PassEnv) (before : Z) (d0 : SDB) (st : PassState) : Prop :=
  (forall r, r ∈ ps_deleted st -> old before r /\ recorded env (ps_lines st) r) /\
  (forall id r, s_events d0 !! id = Some r -> s_events (ps_db st) !! id = Some r \/ exists r', (id, r') ∈ ps_deleted st).

Definition growing (env : PassEnv) : Prop := forall i d id r, s_events d !! id = Some r -> s_events (p_between env i d) !! id = Some r.

Lemma recorded_more env lines more r : recorded env lines r -> recorded env (lines ++ more) r.
Proof. intros H Ha Ht. destruct (H Ha Ht) as (record & ? & ?). exists record. split; [done|]. apply elem_of_app. by left. Qed.

Lemma archiveOf_lines env i batch lines lines' err : archiveOf env i batch lines = (lines', err) ->
  (exists more, lines' = (lines ++ more)%list) /\ (err = None -> forall r, r ∈ batch -> recorded env lines' r).
Proof.
  unfold archiveOf, recorded. destruct (p_archiver env) as [a|]; [|intros [= <- <-]; split; [exists []; by rewrite app_nil_r|by intros]].
  intros [H1 H2]%ArchiveEvents_lines. split; [done|]. intros Hn r Hr _ Ht. apply (H2 Hn (scanEvent r)); [by apply list_elem_of_fmap_2|done].
Qed.

Lemma without_lookup ids m id r : without ids m !! id = Some r <-> m !! id = Some r /\ id ∉ ids.
Proof. unfold without. rewrite map_lookup_filter_Some. done. Qed.

Lemma pass_safe `{!DialectLaws D} env before d0 : growing env -> forall fuel i st st' err,
  safe env before d0 st -> archiveAndDeleteEvents fuel env before i st = Some (st', err) -> safe env before d0 st'.
Proof.
  intros Hgrow. induction fuel as [|fuel IH]; intros i st st' err [Hdel Hkeep]; [done|]. cbn [archiveAndDeleteEvents].
  assert (Hs : safe env before d0 st) by (split; [exact Hdel|exact Hkeep]).
  destruct (p_ctx env i); [by intros [= <- <-]|]. destruct (query _ _) as [batch|e] eqn:Eq; [|by intros [= <- <-]].
  destruct batch as [|b0 bs]; [by intros [= <- <-]|]. set (batch := b0 :: bs) in *.
  assert (Hb : forall r, r ∈ batch -> old before r).
  { intros r Hr. unfold query in Eq. destruct (p_select env i); try done. injection Eq as Eq. rewrite <- Eq in Hr. apply elem_of_take in Hr as (n & Hn & _).
    apply list_elem_of_lookup_2 in Hn. by apply oldRows_elem in Hn as [_ ?]. }
  destruct (archiveOf env i batch (ps_lines st)) as [lines [e|]] eqn:Ea; apply archiveOf_lines in Ea as [[more ->] Harch].
  { intros [= <- <-]. split; [|done]. intros r Hr. destruct (Hdel r Hr). split; [done|by apply recorded_more]. }
  specialize (Harch eq_refl). set (d := p_between env i (ps_db st)).
  assert (Hd : forall id r, s_events d0 !! id = Some r -> s_events d !! id = Some r \/ exists r', (id, r') ∈ ps_deleted st).
  { intros id r Hr. destruct (Hkeep id r Hr) as [H|?]; [left; by apply Hgrow|by right]. }
  assert (Hold : forall gone total d', (forall r, r ∈ gone -> r ∈ batch) ->
    (forall id r, s_events d !! id = Some r -> s_events d' !! id = Some r \/ exists r', (id, r') ∈ gone) ->
    safe env before d0 (mkPass d' (ps_lines st ++ more) total (ps_deleted st ++ gone))).
  { intros gone total d' Hg Hd'. split; cbn [ps_deleted ps_lines ps_db].
    - intros r [Hr|Hr]%elem_of_app; [destruct (Hdel r Hr); split; [done|by apply recorded_more]|]. split; [by apply Hb, Hg|by apply Harch, Hg].
    - intros id r Hr. destruct (Hd id r Hr) as [H|[r' H]]; [|right; exists r'; apply elem_of_app; by left].
      destruct (Hd' id r H) as [?|[r' ?]]; [by left|right; exists r'; apply elem_of_app; by right]. }
  assert (Hgone : forall id r, s_events d !! id = Some r -> without batch.*1 (s_events d) !! id = Some r \/ exists r', (id, r') ∈ batch).
  { intros id r Hr. destruct (decide (id ∈ batch.*1)) as [Hin|Hn]; [right|left; by apply without_lookup].
    apply list_elem_of_fmap in Hin as ([j r'] & -> & Hin). by exists r'. }
  unfold exec, deleteIds. destruct (p_delete env i).
  - destruct (_ <? _)%nat; [intros [= <- <-]; by apply Hold|]. apply IH. by apply Hold.
  - intros [= <- <-]. apply Hold; [by intros r ?%elem_of_nil|by left].
  - intros [= <- <-]. apply Hold; [by intros r ?%elem_of_nil|by left].
  - intros [= <- <-]. by apply Hold.
Qed.

(** The database deletes nothing it has not archived.  Whatever the pass
    meets -- a context that ends, a query, an archive write or a delete that
    fails, a delete whose answer is lost -- and whatever is inserted meanwhile:
    the rows its deletes took away were older than the cutoff and, when there is
    an archive to write, each with a tenant is on a line of its tenant's; every
    other row is still there. *)
Theorem shared_archived_before_deleted `{!DialectLaws D} fuel env before d st err :
  growing env -> archiveAndDeleteEvents fuel env before 0 (mkPass d [] 0 []) = Some (st, err) ->
  (forall r, r ∈ ps_deleted st -> old before r /\ recorded env (ps_lines st) r) /\
  (forall id r, s_events d !! id = Some r -> s_events (ps_db st) !! id = Some r \/ exists r', (id, r') ∈ ps_deleted st).
Proof.
  intros Hg Hrun. refine (pass_safe env before d Hg fuel 0 _ _ _ _ Hrun). split; cbn; [by intros r ?%elem_of_nil|by left].
Qed.

(** ** A pass nothing disturbs *)

Section Exact.
Context `{!DialectLaws D}.

Definition archiveLine (e : EmailEvent) : option line := match MarshalEvent e with Ok record => Some (TenantID e, record) | Err _ => None end.

Lemma ArchiveEvents_all env es : (forall n, r_ctx env n = None) -> (forall n, r_archive env n = None) ->
  Forall (fun e => TenantID e <> "" /\ is_ok (MarshalEvent e) = true) es ->
  forall i lines, ArchiveEvents env i es lines = ((lines ++ omap archiveLine es)%list, None).
Proof.
  intros Hc Ha. induction 1 as [|e es [Ht Hm] _ IH]; intros i lines; cbn [ArchiveEvents omap list_omap]; [by rewrite app_nil_r|].
  rewrite Hc, (proj2 (eqb_false _ "") Ht). unfold archiveLine at 1, archiveWrite. destruct (MarshalEvent e) as [record|]; [|done].
  rewrite Ha, IH, <- app_assoc. done.
Qed.

(** Rows kept, and rows left to go, once a batch of the old ones is deleted. *)
Definition fresh (before : Z) (m : gmap string EventRow) : gmap string EventRow := filter (fun kv => ~ old before kv) m.

Lemma row_same d (a b : Row) : s_events d !! a.1 = Some a.2 -> s_events d !! b.1 = Some b.2 -> a.1 = b.1 -> a = b.
Proof. destruct a, b. cbn. intros ? ? ->. congruence. Qed.

Lemma fresh_without before d (batch : list Row) : (forall r, r ∈ batch -> s_events d !! r.1 = Some r.2 /\ old before r) ->
  fresh before (without batch.*1 (s_events d)) = fresh before (s_events d).
Proof.
  intros Hb. apply map_eq. intros id. apply option_eq. intros r. unfold fresh. rewrite !map_lookup_filter_Some, without_lookup.
  split; [tauto|]. intros [Hr Hn]. split; [|done]. split; [done|]. intros ([j r'] & E & Hin)%list_elem_of_fmap. cbn in E. subst j.
  destruct (Hb _ Hin) as [Hr' Ho]. cbn [fst snd] in Hr'. rewrite Hr in Hr'. injection Hr' as <-. done.
Qed.

Lemma old_without before d rows n (x : list Row) : rows ≡ₚ filter (old before) (map_to_list (s_events d)) -> take n rows = x ->
  filter (old before) (map_to_list (without x.*1 (s_events d))) ≡ₚ drop n rows.
Proof.
  intros Hrows Hx.
  assert (Hel : forall r, r ∈ rows <-> s_events d !! r.1 = Some r.2 /\ old before r).
  { intros [i r]. rewrite Hrows, list_elem_of_filter, elem_of_map_to_list. tauto. }
  assert (Hnd : NoDup rows) by (rewrite Hrows; apply NoDup_filter, NoDup_map_to_list).
  assert (Hsplit : rows = (x ++ drop n rows)%list) by (rewrite <- Hx; by rewrite take_drop).
  rewrite Hsplit in Hnd. apply NoDup_app in Hnd as (_ & Hdisj & Hnd).
  apply NoDup_Permutation; [apply NoDup_filter, NoDup_map_to_list|done|]. intros [i r].
  rewrite list_elem_of_filter, elem_of_map_to_list, without_lookup. split.
  - intros (Ho & Hr & Hni). assert (Hin : (i, r) ∈ rows) by (by apply Hel). rewrite Hsplit in Hin. apply elem_of_app in Hin as [Hin|?]; [|done].
    exfalso. apply Hni. apply list_elem_of_fmap. by exists (i, r).
  - intros Hin. assert (Hin' : (i, r) ∈ rows) by (rewrite Hsplit; apply elem_of_app; by right). apply Hel in Hin' as [Hr Ho]. split_and!; [done|done|].
    intros ([j r'] & E & Hj)%list_elem_of_fmap. cbn in E. subst j. apply (Hdisj (i, r')); [done|].
    assert (Hj' : (i, r') ∈ rows) by (rewrite Hsplit; apply elem_of_app; by left). apply Hel in Hj' as [Hr' _]. cbn [fst snd] in Hr, Hr'.
    rewrite Hr in Hr'. by injection Hr' as <-.
Qed.

Lemma oldRows_perm before d : oldRows before d ≡ₚ filter (old before) (map_to_list (s_events d)).
Proof. unfold oldRows. by rewrite merge_sort_Permutation, heap_rows. Qed.

Lemma heap_old before d : filter (old before) (heapOrder (s_events d)) ≡ₚ filter (old before) (map_to_list (s_events d)).
Proof. by rewrite heap_rows. Qed.

Lemma fresh_all before m : filter (old before) (map_to_list m) = [] -> fresh before m = m.
Proof.
  intros H. unfold fresh. apply map_filter_id. intros i r Hr Ho. assert (Hin : (i, r) ∈ filter (old before) (map_to_list m)).
  { apply list_elem_of_filter. split; [done|]. by apply elem_of_map_to_list. } rewrite H in Hin. by apply elem_of_nil in Hin.
Qed.

(** Nothing fails, and nobody else writes. *)
Definition calm (env : PassEnv) : Prop :=
  (forall i, p_ctx env i = None) /\ (forall i, p_select env i = Up) /\ (forall i, p_delete env i = Up) /\ (forall i d, p_between env i d = d) /\
  exists a, p_archiver env = Some a /\ forall i, (forall n, r_ctx (a i) n = None) /\ (forall n, r_archive (a i) n = None).

Definition archivable (before : Z) (m : gmap string EventRow) : Prop :=
  forall id r, m !! id = Some r -> old before (id, r) -> c_tenant r <> "" /\ is_ok (MarshalEvent (scanEvent (id, r))) = true.

Lemma omap_perm {A B} (f : A -> option B) l l' : l ≡ₚ l' -> omap f l ≡ₚ omap f l'.
Proof. by intros ->. Qed.

Lemma calm_pass env before : calm env -> forall fuel i st, archivable before (s_events (ps_db st)) ->
  (length (filter (old before) (map_to_list (s_events (ps_db st)))) < fuel)%nat ->
  exists st', archiveAndDeleteEvents fuel env before i st = Some (st', None) /\
    s_events (ps_db st') = fresh before (s_events (ps_db st)) /\
    ps_total st' = ps_total st + Z.of_nat (length (filter (old before) (map_to_list (s_events (ps_db st))))) /\
    ps_lines st' ≡ₚ (ps_lines st ++ omap archiveLine (scanEvent <$> filter (old before) (map_to_list (s_events (ps_db st)))))%list.
Proof.
  intros (Hc & Hs & Hd & Hb & a & Ha & Hav). induction fuel as [|fuel IH]; intros i st Har Hfuel; [lia|]. cbn [archiveAndDeleteEvents].
  rewrite Hc, Hs. unfold query. pose proof (oldRows_perm before (ps_db st)) as Hperm. set (rows := oldRows before (ps_db st)) in *.
  set (olds := filter (old before) (map_to_list (s_events (ps_db st)))) in *.
  destruct (take archiveBatch rows) as [|b0 bs] eqn:Et.
  { assert (Hnil : rows = []) by (destruct rows; [done|]; unfold archiveBatch in Et; destruct (Z.to_nat 5000) eqn:E; [lia|done]).
    rewrite Hnil in Hperm. symmetry in Hperm. apply Permutation_nil_r in Hperm. exists st. split; [done|]. rewrite (fresh_all before); [|done].
    unfold olds in *. rewrite Hperm. cbn [length fmap list_fmap omap list_omap]. rewrite app_nil_r. split_and!; [done|lia|done]. }
  set (batch := b0 :: bs) in *.
  assert (Hin : forall r, r ∈ batch -> s_events (ps_db st) !! r.1 = Some r.2 /\ old before r).
  { intros r Hr. rewrite <- Et in Hr. apply elem_of_take in Hr as (n & Hn & _). apply list_elem_of_lookup_2 in Hn. by apply oldRows_elem. }
  assert (Hlines : archiveOf env i batch (ps_lines st) = ((ps_lines st ++ omap archiveLine (scanEvent <$> batch))%list, None)).
  { unfold archiveOf. rewrite Ha. apply ArchiveEvents_all; [apply Hav|apply Hav|]. apply Forall_fmap, Forall_forall. intros [id r] Hr.
    destruct (Hin _ Hr) as [H1 H2]. by apply (Har id r). }
  rewrite Hlines, Hb, Hd. unfold exec, deleteIds. set (d' := set_events (without batch.*1 (s_events (ps_db st))) (ps_db st)).
  pose proof (old_without before (ps_db st) rows archiveBatch batch Hperm Et) as Hleft.
  assert (Hlen : length olds = (length batch + length (drop archiveBatch rows))%nat).
  { rewrite <- (Permutation_length Hperm), <- (take_drop archiveBatch rows), Et at 1. by rewrite length_app. }
  assert (Holds : olds ≡ₚ (batch ++ drop archiveBatch rows)%list) by (rewrite <- Hperm, <- (take_drop archiveBatch rows) at 1; by rewrite Et).
  set (st1 := mkPass d' _ _ _).
  destruct (Nat.ltb_spec (length batch) archiveBatch) as [Hshort|Hfull].
  - assert (Hdrop : drop archiveBatch rows = []).
    { apply drop_ge. apply (f_equal length) in Et. rewrite length_take in Et. lia. }
    rewrite Hdrop in *. exists st1. split; [done|]. cbn [st1 ps_db ps_lines ps_total d' s_events set_events]. split_and!.
    + rewrite <- (fresh_without before (ps_db st) batch Hin). rewrite fresh_all; [done|]. by apply Permutation_nil_r.
    + rewrite Hlen. cbn [length]. lia.
    + by rewrite Holds, app_nil_r.
  - destruct (IH (S i) st1) as (st' & Hrun & H1 & H2 & H3).
    + cbn [st1 ps_db d' s_events set_events]. intros id r [Hr _]%without_lookup. by apply Har.
    + cbn [st1 ps_db d' s_events set_events]. rewrite (Permutation_length Hleft). cbn [batch length] in Hlen. lia.
    + exists st'. split; [done|]. cbn [st1 ps_db ps_lines ps_total d' s_events set_events] in H1, H2, H3. split_and!.
      * rewrite H1. by apply fresh_without.
      * rewrite H2, (Permutation_length Hleft), Hlen. lia.
      * rewrite H3, Hleft, Holds, fmap_app, omap_app, <- !app_assoc. done.
Qed.

(** Whatever fails, a pass nobody writes beside ends within a round more than there
    are old rows. *)
Lemma pass_ends env before : (forall i d, p_between env i d = d) -> forall fuel i st,
  (length (filter (old before) (map_to_list (s_events (ps_db st)))) < fuel)%nat -> is_Some (archiveAndDeleteEvents fuel env before i st).
Proof.
  intros Hb. induction fuel as [|fuel IH]; intros i st Hfuel; [lia|]. cbn [archiveAndDeleteEvents].
  destruct (p_ctx env i); [done|]. destruct (query _ _) as [batch|e] eqn:Eq; [|done]. destruct batch as [|b0 bs]; [done|]. set (batch := b0 :: bs) in *.
  unfold query in Eq. destruct (p_select env i); try done. injection Eq as Et. pose proof (oldRows_perm before (ps_db st)) as Hperm.
  destruct (archiveOf env i batch (ps_lines st)) as [lines [e|]]; [done|]. rewrite Hb. unfold exec, deleteIds. destruct (p_delete env i); try done.
  destruct (_ <? _)%nat; [done|]. apply IH. cbn [ps_db set_events s_events].
  rewrite (Permutation_length (old_without before (ps_db st) _ archiveBatch batch Hperm Et)).
  rewrite <- (Permutation_length Hperm), <- (take_drop archiveBatch (oldRows before (ps_db st))), Et, length_app in Hfuel. cbn [batch length] in Hfuel. lia.
Qed.

(** A pass of the database is exact.  When nothing fails and nobody else
    writes, a pass over rows that can be archived ends, within a step more than
    there are rows to remove: the rows older than the cutoff are gone and no
    other, the count is theirs, and the archive gained one line for each. *)
Theorem shared_pass_is_exact env before d :
  calm env -> archivable before (s_events d) ->
  let olds := filter (old before) (map_to_list (s_events d)) in
  exists st, archiveAndDeleteEvents (S (length olds)) env before 0 (mkPass d [] 0 []) = Some (st, None) /\
    s_events (ps_db st) = filter (fun kv => ~ old before kv) (s_events d) /\
    ps_total st = Z.of_nat (length olds) /\ ps_lines st ≡ₚ omap archiveLine (scanEvent <$> olds) /\ length (ps_lines st) = length olds.
Proof.
  intros Hc Ha. cbv zeta. destruct (calm_pass env before Hc (S (length (filter (old before) (map_to_list (s_events d))))) 0 (mkPass d [] 0 []) Ha (Nat.lt_succ_diag_r _))
    as (st & Hrun & H1 & H2 & H3). exists st. cbn [ps_db ps_lines ps_total app] in *. split_and!; [done|done|lia|done|].
  rewrite (Permutation_length H3). assert (Hall : Forall (fun r => is_Some (archiveLine (scanEvent r))) (filter (old before) (map_to_list (s_events d)))).
  { apply Forall_forall. intros [id r] [Ho Hr]%list_elem_of_filter. apply elem_of_map_to_list in Hr. destruct (Ha id r Hr Ho) as [_ Hm].
    unfold archiveLine. destruct (MarshalEvent _); [by eexists|done]. }
  clear -Hall. induction Hall as [|r l [y Hy] _ IH]; [done|]. cbn [fmap list_fmap omap list_omap]. rewrite Hy. cbn [length]. by rewrite <- IH.
Qed.

(** The same of the pass that does not archive. *)
Lemma DeleteEventsBefore_exact ctx fs before : (forall i, ctx i = None) -> (forall i, fs i = Up) -> forall fuel i total d,
  (length (filter (old before) (map_to_list (s_events d))) < fuel)%nat ->
  DeleteEventsBefore fuel ctx fs before i total d =
    Some (set_events (fresh before (s_events d)) d, total + Z.of_nat (length (filter (old before) (map_to_list (s_events d)))), None).
Proof.
  intros Hc Hf. induction fuel as [|fuel IH]; intros i total d Hfuel; [lia|]. cbn [DeleteEventsBefore]. rewrite Hc, Hf. unfold exec, deleteIds.
  pose proof (heap_old before d) as Hperm. set (rows := filter (old before) (heapOrder (s_events d))) in *.
  set (olds := filter (old before) (map_to_list (s_events d))) in *. set (batch := take deleteBatch rows).
  pose proof (old_without before d rows deleteBatch batch Hperm eq_refl) as Hleft.
  assert (Hin : forall r, r ∈ batch -> s_events d !! r.1 = Some r.2 /\ old before r).
  { intros [id r] Hr. apply elem_of_take in Hr as (n & Hn & _). apply list_elem_of_lookup_2 in Hn. rewrite Hperm in Hn. unfold olds in Hn.
    apply list_elem_of_filter in Hn as [Ho Hr]. by apply elem_of_map_to_list in Hr. }
  assert (Hlen : length olds = (length batch + length (drop deleteBatch rows))%nat).
  { rewrite <- (Permutation_length Hperm), <- (take_drop deleteBatch rows) at 1. by rewrite length_app. }
  pose proof (fresh_without before d batch Hin) as Hfr. rewrite length_fmap.
  destruct (Nat.ltb_spec (length batch) deleteBatch) as [Hshort|Hfull].
  - assert (Hdrop : drop deleteBatch rows = []) by (apply drop_ge; unfold batch in Hshort; rewrite length_take in Hshort; lia).
    rewrite Hdrop in *. apply Permutation_nil_r in Hleft. rewrite (fresh_all before _ Hleft) in Hfr. rewrite Hlen, <- Hfr. cbn [length]. by rewrite Nat.add_0_r.
  - rewrite IH; cbn [set_events s_events].
    + rewrite Hfr, (Permutation_length Hleft), Hlen. rewrite Nat2Z.inj_add, Z.add_assoc. done.
    + rewrite (Permutation_length Hleft). unfold deleteBatch in Hfull. lia.
Qed.

(** ** Both stores, one archive *)

(** Ids as the columns keep them. *)
Definition canonical_ids (d : SDB) : Prop := forall id, is_Some (s_events d !! id) -> uuidColumn id = Some id.

Lemma heldEvents_spec fl d ids held : canonical_ids d -> heldEvents fl d ids = Ok held ->
  (forall id, id ∈ ids -> is_Some (s_events d !! id) -> id ∈ held) /\ forall id, id ∈ held -> is_Some (s_events d !! id).
Proof.
  intros Hcan H. unfold heldEvents in H. set (cs := filter _ ids) in *.
  assert (Hin : forall id, id ∈ ids -> is_Some (s_events d !! id) -> id ∈ cs).
  { intros id Hid Hs. apply list_elem_of_filter. split; [|done]. destruct isPostgres eqn:Ep; [right|by left]. by apply uuid_parses; [apply Hcan|]. }
  assert (Hcs : (cs = [] /\ held = ∅) \/ (exists us, mapM uuidColumn cs = Some us /\ held = list_to_set (filter (fun u => is_Some (s_events d !! u)) us))).
  { destruct fl; try done; destruct cs as [|c cs']; try (left; split; [done|by injection H as <-]); cbn [query] in H; try done.
    right. destruct (mapM uuidColumn (c :: cs')) as [us|]; [|done]. injection H as <-. by exists us. }
  destruct Hcs as [[E ->]|(us & Hus & ->)].
  - split; [|by intros id ?%elem_of_empty]. intros id Hid Hs. specialize (Hin id Hid Hs). rewrite E in Hin. by apply elem_of_nil in Hin.
  - split.
    + intros id Hid Hs. apply elem_of_list_to_set, list_elem_of_filter. split; [done|]. pose proof (Hin id Hid Hs) as Hc.
      apply mapM_omap in Hus as [<- _]. apply list_elem_of_omap. exists id. split; [done|by apply Hcan].
    + intros id. rewrite elem_of_list_to_set, list_elem_of_filter. by intros [? _].
Qed.

(** Whose lines the database's pass writes. *)
Definition tableLine (before : Z) (d : SDB) (l : line) : Prop :=
  exists r : Row, s_events d !! r.1 = Some r.2 /\ old before r /\ MarshalEvent (scanEvent r) = Ok l.2 /\ l.1 = c_tenant r.2.

Lemma ArchiveEvents_own env (P : line -> Prop) : forall es i lines lines' err,
  (forall e record, e ∈ es -> MarshalEvent e = Ok record -> P (TenantID e, record)) -> Forall P lines ->
  ArchiveEvents env i es lines = (lines', err) -> Forall P lines'.
Proof.
  induction es as [|e es IH]; intros i lines lines' err Hes Hl; cbn [ArchiveEvents]; [by intros [= <- <-]|].
  assert (Hes' : forall x record, x ∈ es -> MarshalEvent x = Ok record -> P (TenantID x, record)) by (intros; apply Hes; [by right|done]).
  destruct (r_ctx env i); [by intros [= <- <-]|]. destruct (eqb (TenantID e) ""); [by apply IH|].
  destruct (MarshalEvent e) as [record|] eqn:Em; [|by intros [= <- <-]]. unfold archiveWrite.
  destruct (r_archive env (length lines)); [by intros [= <- <-]|]. apply IH; [done|]. apply Forall_app. split; [done|]. constructor; [|done].
  apply Hes; [by left|done].
Qed.

Lemma pass_lines env before d0 : (forall i d, p_between env i d = d) -> forall fuel i st st' err,
  (forall id r, s_events (ps_db st) !! id = Some r -> s_events d0 !! id = Some r) -> Forall (tableLine before d0) (ps_lines st) ->
  archiveAndDeleteEvents fuel env before i st = Some (st', err) -> Forall (tableLine before d0) (ps_lines st').
Proof.
  intros Hb. induction fuel as [|fuel IH]; intros i st st' err Hsub Hl; [done|]. cbn [archiveAndDeleteEvents].
  destruct (p_ctx env i); [by intros [= <- <-]|]. destruct (query _ _) as [batch|e] eqn:Eq; [|by intros [= <- <-]].
  destruct batch as [|b0 bs]; [by intros [= <- <-]|]. set (batch := b0 :: bs) in *.
  assert (Hin : forall r, r ∈ batch -> s_events d0 !! r.1 = Some r.2 /\ old before r).
  { intros r Hr. unfold query in Eq. destruct (p_select env i); try done. injection Eq as Eq. rewrite <- Eq in Hr. apply elem_of_take in Hr as (n & Hn & _).
    apply list_elem_of_lookup_2 in Hn. apply oldRows_elem in Hn as [H ?]. split; [by apply Hsub|done]. }
  destruct (archiveOf env i batch (ps_lines st)) as [lines r] eqn:Ea.
  assert (Hlines : Forall (tableLine before d0) lines).
  { unfold archiveOf in Ea. destruct (p_archiver env) as [a|]; [|by injection Ea as <- _]. eapply ArchiveEvents_own; [|exact Hl|exact Ea].
    intros e record (x & -> & Hx)%list_elem_of_fmap Hm. destruct (Hin x Hx). by exists x. }
  destruct r as [e|]; [by intros [= <- <-]|]. rewrite Hb. unfold exec, deleteIds. destruct (p_delete env i); try by intros [= <- <-].
  destruct (_ <? _)%nat; [by intros [= <- <-]|]. apply IH; [|done]. cbn [ps_db set_events s_events]. intros id x [Hx _]%without_lookup. by apply Hsub.
Qed.

(** What a pass that ended leaves. *)
Lemma pass_leaves `{!KVLaws DB counterMerge, !CodecLaws codec} ls d0 fuel up local held env before d st ps err :
  (forall k, kv_get d0 k = None) -> Forall orderly_label ls -> in_era before -> canonical_ids d -> (forall i x, p_between env i x = x) ->
  let mirror := EventStore.w_db (EventStore.run ls (EventStore.NewStore d0)) in
  TruncateBefore fuel up local held env before mirror d = (st, Some (ps, err)) ->
  (forall e v, kv_get mirror (eventKey e) = Some v -> UnmarshalEvent v = Ok e -> no_colon (ID e) -> deleted st (eventKey e) ->
     Timestamp e < before /\ (is_Some (s_events d !! ID e) \/ exists record, MarshalEvent e = Ok record /\ (TenantID e, record) ∈ r_lines st)) /\
  (forall t record, (t, record) ∈ r_lines st -> exists e, MarshalEvent e = Ok record /\ TenantID e = t /\ (no_colon (ID e) -> s_events d !! ID e = None)) /\
  (forall t record, (t, record) ∈ ps_lines ps -> exists e, MarshalEvent e = Ok record /\ TenantID e = t /\ is_Some (s_events d !! ID e)) /\
  (forall r, r ∈ ps_deleted ps -> old before r /\ recorded env (ps_lines ps) r).
Proof.
  intros Hd0 Hls Hera Hcan Hb mirror. destruct (run_sound ls (EventStore.NewStore d0) Hls) as (Hg & _ & _).
  { split; [|split; constructor]. intros k v. simpl. by rewrite Hd0. }
  fold mirror in Hg. unfold TruncateBefore. destruct up; cbn [negb].
  2:{ intros [= <- <- <-]. split_and!; [by intros e v _ _ _ (ops & ?%elem_of_nil & _)|by intros ?? ?%elem_of_nil|by intros ?? ?%elem_of_nil|by intros ? ?%elem_of_nil]. }
  unfold TruncateBeforeArchivingOnly. cbn [r_elsewhere]. set (lenv := mkRetEnv _ _ _ _ _).
  destruct (truncateBefore lenv before mirror) as [st1 err1] eqn:Etr. pose proof (truncate_own lenv before mirror st1 err1 Etr) as Hown.
  pose proof (truncate_accounted lenv before mirror st1 err1 Etr) as Hacc.
  intros Hres. assert (Hst : st1 = st) by (destruct err1; congruence). subst st1.
  assert (Hps : Forall (tableLine before d) (ps_lines ps) /\ forall r, r ∈ ps_deleted ps -> old before r /\ recorded env (ps_lines ps) r).
  { destruct err1; [injection Hres as <- <-; split; [done|by intros ? ?%elem_of_nil]|]. injection Hres as Hrun. split.
    - by apply (pass_lines env before d Hb) in Hrun.
    - apply (pass_safe env before d) in Hrun as [Hdel _]; [exact Hdel|intros i x id r; by rewrite Hb|]. split; [by intros r ?%elem_of_nil|by left]. }
  destruct Hps as [Hpl Hpd]. split_and!; [| | |exact Hpd].
  - intros e v Hget Hu Hnc Hdel. destruct (Hg _ _ Hget false) as (e' & Horder & _ & Hm); [apply prefix_app|].
    apply event_roundtrip in Hm as Hu'. rewrite Hu in Hu'. injection Hu' as <-. destruct (keyParts_row e Horder) as (id & Hparts & Hid). rewrite (Hid Hnc) in Hparts.
    destruct (Hacc _ Hdel (prefix_app _ _)) as (v' & ts & id' & Hin & Hparts' & Hts & Harch). rewrite Hparts in Hparts'. injection Hparts' as <- <-.
    apply kv_iter_spec in Hin as (Hget' & _). cbn [fst] in Hget'. rewrite Hget in Hget'. injection Hget' as <-.
    destruct Horder as [He _]. rewrite !descending_era in Hts by done. split; [lia|]. destruct (Harch e Hu) as [(ask & ids & h & Eask & Eok & Hh)|?]; [left|by right].
    injection Eask as <-. by apply (heldEvents_spec held d ids h Hcan Eok).
  - intros t record Hl. rewrite Forall_forall in Hown. destruct (Hown _ Hl) as (rec & e & [Hrow (ts & Hparts & _)] & Hu & Hm & Ht & Hun).
    exists e. split_and!; [done|done|]. intros Hnc. destruct (log_rows mirror _ _ Hg Hrow) as (e' & Horder & Hk & Hm').
    apply event_roundtrip in Hm'. rewrite Hu in Hm'. injection Hm' as <-. destruct (keyParts_row e Horder) as (id & Hparts' & Hid).
    rewrite Hk, Hparts', (Hid Hnc) in Hparts. injection Hparts as _ Ex. unfold unheld in Hun. cbn [lenv r_elsewhere] in Hun. rewrite <- Ex in Hun. destruct Hun as (ids & h & Eok & Hin & Hout).
    destruct (heldEvents_spec held d ids h Hcan Eok) as [Hall _]. destruct (s_events d !! ID e) eqn:Ee; [|done]. exfalso. apply Hout, Hall; [done|]. by rewrite Ee.
  - intros t record Hl. rewrite Forall_forall in Hpl. destruct (Hpl _ Hl) as (r & Hr & _ & Hm & Ht). exists (scanEvent r). split_and!; [done|done|].
    cbn [scanEvent ID]. by rewrite Hr.
Qed.

(** C12: an expired event is archived in one place.  A pass of the shared store
    over a mirror that began empty and over the database, while nobody else writes
    to the tables, ends -- within a round more than there are old rows -- whatever
    fails in either store.  Then an event the mirror gave up was older than the
    cutoff and is in the table or on a line the mirror wrote; no line the mirror
    wrote is of an event in the table; every line the database's half wrote is of
    one; and a row that half deleted is on one of its lines. *)
Theorem archived_in_one_place `{!KVLaws DB counterMerge, !CodecLaws codec} ls d0 fuel up local held env before d :
  (forall k, kv_get d0 k = None) -> Forall orderly_label ls -> in_era before -> canonical_ids d -> (forall i x, p_between env i x = x) ->
  (length (filter (old before) (map_to_list (s_events d))) < fuel)%nat ->
  let mirror := EventStore.w_db (EventStore.run ls (EventStore.NewStore d0)) in
  exists st ps err, TruncateBefore fuel up local held env before mirror d = (st, Some (ps, err)) /\
    (forall e v, kv_get mirror (eventKey e) = Some v -> UnmarshalEvent v = Ok e -> no_colon (ID e) -> deleted st (eventKey e) ->
       Timestamp e < before /\ (is_Some (s_events d !! ID e) \/ exists record, MarshalEvent e = Ok record /\ (TenantID e, record) ∈ r_lines st)) /\
    (forall t record, (t, record) ∈ r_lines st -> exists e, MarshalEvent e = Ok record /\ TenantID e = t /\ (no_colon (ID e) -> s_events d !! ID e = None)) /\
    (forall t record, (t, record) ∈ ps_lines ps -> exists e, MarshalEvent e = Ok record /\ TenantID e = t /\ is_Some (s_events d !! ID e)) /\
    (forall r, r ∈ ps_deleted ps -> old before r /\ recorded env (ps_lines ps) r).
Proof.
  intros Hd0 Hls Hera Hcan Hb Hfuel mirror. destruct (TruncateBefore fuel up local held env before mirror d) as [st r] eqn:E.
  assert (Hsome : is_Some r).
  { unfold TruncateBefore in E. destruct (negb up); [by injection E as _ <-|]. destruct (TruncateBeforeArchivingOnly _ _ _) as [st1 [e|]]; injection E as _ <-; [done|].
    by apply pass_ends. }
  destruct Hsome as [[ps err] ->]. exists st, ps, err. split; [done|]. by eapply (pass_leaves ls d0).
Qed.

End Exact.

End Retention.
End SharedRetention.
