(* ===== verification/DualWrite.v ===== *)
(** * Writing to two event stores

    Models [internal/event/repositories/stores/dualwrite.go] -- the wrapper that
    writes to a shadow whatever the primary takes -- over the interface of
    [repository.go] and [retention_repository.go], and the methods of
    [postgres/store.go] and [postgres/retention.go] that compose the database
    with a local store.  The interface is a record of operations on an abstract
    state, so that the theorems hold of any primary and any shadow: the wrapper
    answers as the primary alone would, and the shadow is offered exactly what
    the primary took. *)
From S2P Require Import Prelude GoStrings Encoding KVStore Calendar Timestamps Classify Admission Events EventStore EventTimeline EventListing EventRetention EventCounters SharedEvents SharedCounters SharedReads SharedRetention.
From Stdlib Require Import Ascii.

Module DualWrite.
Import GoStrings Encoding KVStore Calendar Timestamps Classify Events EventStore EventCounters SharedEvents SharedCounters SharedReads.
Local Open Scope string_scope.
Local Open Scope Z_scope.

(** ** The interface *)

(** [EventRepository], with the optional interfaces a store may also have.  [rest]
    stands for the methods the wrapper leaves to the store it embeds -- the reads,
    archives and resource samples --, [Q] for the calls and [A] for their
    answers. *)
Record EventRepository (S Q A : Type) := mkRepo {
  rp_Write : EmailEvent -> S -> S * option string;
  rp_WriteMessage : EmailMessage -> S -> S * option string;
  rp_GetMessage : string -> string -> S -> result string (option EmailMessage);
  rp_TruncateBefore : Z -> S -> S * (Z * option string);
  rp_TruncateMessagesBefore : Z -> S -> S * (Z * option string);
  rp_PruneMinuteSeriesBefore : Z -> S -> S * (Z * option string);
  rp_PruneHourDaySeriesBefore : Z -> S -> S * (Z * option string);
  rp_Backfill : option (string -> string -> string -> S -> S * option string);
  rp_Checkpoint : option (string -> S -> option string);
  rp_DiskUsage : option (S -> Z);
  rp_Close : S -> S * option string;
  rp_rest : Q -> S -> S * A
}.
Arguments rp_Write {S Q A}. Arguments rp_WriteMessage {S Q A}. Arguments rp_GetMessage {S Q A}.
Arguments rp_TruncateBefore {S Q A}. Arguments rp_TruncateMessagesBefore {S Q A}.
Arguments rp_PruneMinuteSeriesBefore {S Q A}. Arguments rp_PruneHourDaySeriesBefore {S Q A}.
Arguments rp_Backfill {S Q A}. Arguments rp_Checkpoint {S Q A}. Arguments rp_DiskUsage {S Q A}.
Arguments rp_Close {S Q A}. Arguments rp_rest {S Q A}.

(** [SharedPruner]. *)
Record SharedPruner (T : Type) := mkPruner {
  DeleteEventsBefore : Z -> T -> T * (Z * option string);
  DeleteMessagesBefore : Z -> T -> T * (Z * option string);
  DeleteMinuteSeriesBefore : Z -> T -> T * (Z * option string);
  DeleteHourDaySeriesBefore : Z -> T -> T * (Z * option string)
}.
Arguments DeleteEventsBefore {T}. Arguments DeleteMessagesBefore {T}.
Arguments DeleteMinuteSeriesBefore {T}. Arguments DeleteHourDaySeriesBefore {T}.

(** [ShadowWriter], with the interfaces it may also have. *)
Record ShadowWriter (T : Type) := mkShadow {
  sw_Write : EmailEvent -> T -> T * option string;
  sw_WriteMessage : EmailMessage -> T -> T * option string;
  sw_pruner : option (SharedPruner T);
  sw_StopWriter : option (T -> T);
  sw_Backfill : option (string -> string -> string -> T -> T * option string)
}.
Arguments sw_Write {T}. Arguments sw_WriteMessage {T}. Arguments sw_pruner {T}. Arguments sw_StopWriter {T}. Arguments sw_Backfill {T}.

(** ** The wrapper *)

Section Shadowed.
Context {S T Q A : Type} (primary : EventRepository S Q A) (shadow : ShadowWriter T).

(** A write goes to the shadow only once the primary took it; the shadow's
    outcome is logged. *)
Definition shadowedWrite (e : EmailEvent) (st : S * T) : (S * T) * option string :=
  match rp_Write primary e st.1 with
  | (s, Some err) => ((s, st.2), Some err)
  | (s, None) => ((s, (sw_Write shadow e st.2).1), None)
  end.

Definition shadowedWriteMessage (m : EmailMessage) (st : S * T) : (S * T) * option string :=
  match rp_WriteMessage primary m st.1 with
  | (s, Some err) => ((s, st.2), Some err)
  | (s, None) => ((s, (sw_WriteMessage shadow m st.2).1), None)
  end.

(** [pruneShadow]: its failure is returned. *)
Definition pruneShadow (prune : SharedPruner T -> Z -> T -> T * (Z * option string)) (before : Z) (t : T) : T * option string :=
  match sw_pruner shadow with
  | None => (t, None)
  | Some p =>
      match prune p before t with
      | (t', (_, Some err)) => (t', Some ("shadow store: " ++ err))
      | (t', (_, None)) => (t', None)
      end
  end.

(** A prune of both: the primary's count, and the first error. *)
Definition shadowedPrune (own : Z -> S -> S * (Z * option string)) (prune : SharedPruner T -> Z -> T -> T * (Z * option string))
    (before : Z) (st : S * T) : (S * T) * (Z * option string) :=
  match own before st.1 with
  | (s, (n, Some err)) => ((s, st.2), (n, Some err))
  | (s, (n, None)) => let '(t, err) := pruneShadow prune before st.2 in ((s, t), (n, err))
  end.

Definition shadowedBackfill (tenant message provider : string) (st : S * T) : (S * T) * option string :=
  match rp_Backfill primary with
  | Some b =>
      match b tenant message provider st.1 with
      | (s, Some err) => ((s, st.2), Some err)
      | (s, None) =>
          ((s, match sw_Backfill shadow with Some sb => (sb tenant message provider st.2).1 | None => st.2 end), None)
      end
  | None =>
      match rp_GetMessage primary tenant message st.1 with
      | Err err => (st, Some err)
      | Ok None => (st, None)
      | Ok (Some m) => if eqb (M_ProviderID m) "" then shadowedWriteMessage (with_provider provider m) st else (st, None)
      end
  end.

Definition cannotSnapshot : string := "the primary event store cannot snapshot itself".

(** [WithShadow]: the wrapped store has every interface the primary may lack. *)
Definition WithShadow : EventRepository (S * T) Q A :=
  mkRepo (S * T) Q A
    shadowedWrite
    shadowedWriteMessage
    (fun tenant message st => rp_GetMessage primary tenant message st.1)
    (shadowedPrune (rp_TruncateBefore primary) DeleteEventsBefore)
    (shadowedPrune (rp_TruncateMessagesBefore primary) DeleteMessagesBefore)
    (shadowedPrune (rp_PruneMinuteSeriesBefore primary) DeleteMinuteSeriesBefore)
    (shadowedPrune (rp_PruneHourDaySeriesBefore primary) DeleteHourDaySeriesBefore)
    (Some shadowedBackfill)
    (Some (fun dir st => match rp_Checkpoint primary with Some cp => cp dir st.1 | None => Some cannotSnapshot end))
    (Some (fun st => match rp_DiskUsage primary with Some sz => sz st.1 | None => 0 end))
    (fun st => let t := match sw_StopWriter shadow with Some stop => stop st.2 | None => st.2 end in
               let '(s, err) := rp_Close primary st.1 in ((s, t), err))
    (fun q st => let '(s, a) := rp_rest primary q st.1 in ((s, st.2), a)).

End Shadowed.

(** ** Calls *)

Inductive call (Q : Type) :=
| CWrite (e : EmailEvent)
| CWriteMessage (m : EmailMessage)
| CGetMessage (tenant message : string)
| CTruncateBefore (before : Z)
| CTruncateMessagesBefore (before : Z)
| CPruneMinuteSeriesBefore (before : Z)
| CPruneHourDaySeriesBefore (before : Z)
| CBackfill (tenant message provider : string)
| CCheckpoint (dir : string)
| CDiskUsage
| CClose
| CRest (q : Q).
Arguments CWrite {Q}. Arguments CWriteMessage {Q}. Arguments CGetMessage {Q}. Arguments CTruncateBefore {Q}.
Arguments CTruncateMessagesBefore {Q}. Arguments CPruneMinuteSeriesBefore {Q}. Arguments CPruneHourDaySeriesBefore {Q}.
Arguments CBackfill {Q}. Arguments CCheckpoint {Q}. Arguments CDiskUsage {Q}. Arguments CClose {Q}. Arguments CRest {Q}.

Inductive answer (A : Type) :=
| ADone (err : option string)
| ACount (n : Z) (err : option string)
| AMessage (m : result string (option EmailMessage))
| ASize (n : option Z)
| ASnapshot (err : option (option string))
| ARest (a : A).
Arguments ADone {A}. Arguments ACount {A}. Arguments AMessage {A}. Arguments ASize {A}. Arguments ASnapshot {A}. Arguments ARest {A}.

(** A caller that wants a provider filled in: with the store's own method, or by
    reading the message and writing it back. *)
Definition backfill {S Q A : Type} (r : EventRepository S Q A) (tenant message provider : string) (s : S) : S * option string :=
  match rp_Backfill r with
  | Some b => b tenant message provider s
  | None =>
      match rp_GetMessage r tenant message s with
      | Err err => (s, Some err)
      | Ok None => (s, None)
      | Ok (Some m) => if eqb (M_ProviderID m) "" then rp_WriteMessage r (with_provider provider m) s else (s, None)
      end
  end.

Definition perform {S Q A : Type} (r : EventRepository S Q A) (c : call Q) (s : S) : S * answer A :=
  match c with
  | CWrite e => let '(s', err) := rp_Write r e s in (s', ADone err)
  | CWriteMessage m => let '(s', err) := rp_WriteMessage r m s in (s', ADone err)
  | CGetMessage t m => (s, AMessage (rp_GetMessage r t m s))
  | CTruncateBefore b => let '(s', (n, err)) := rp_TruncateBefore r b s in (s', ACount n err)
  | CTruncateMessagesBefore b => let '(s', (n, err)) := rp_TruncateMessagesBefore r b s in (s', ACount n err)
  | CPruneMinuteSeriesBefore b => let '(s', (n, err)) := rp_PruneMinuteSeriesBefore r b s in (s', ACount n err)
  | CPruneHourDaySeriesBefore b => let '(s', (n, err)) := rp_PruneHourDaySeriesBefore r b s in (s', ACount n err)
  | CBackfill t m p => let '(s', err) := backfill r t m p s in (s', ADone err)
  | CCheckpoint dir => (s, ASnapshot ((fun cp => cp dir s) <$> rp_Checkpoint r))
  | CDiskUsage => (s, ASize ((fun sz => sz s) <$> rp_DiskUsage r))
  | CClose => let '(s', err) := rp_Close r s in (s', ADone err)
  | CRest q => let '(s', a) := rp_rest r q s in (s', ARest a)
  end.

Fixpoint performAll {S Q A : Type} (r : EventRepository S Q A) (cs : list (call Q)) (s : S) : S * list (answer A) :=
  match cs with
  | [] => (s, [])
  | c :: rest =>
      let '(s1, a) := perform r c s in
      let '(s2, answers) := performAll r rest s1 in (s2, a :: answers)
  end.

(** ** The wrapper does not show *)

(** Answers a caller cannot tell apart, but for a prune the shadow failed: its
    count is the primary's.  A size or a snapshot the primary cannot give is
    still refused, or zero. *)
Definition agrees {A : Type} (alone wrapped : answer A) : Prop :=
  match alone, wrapped with
  | ACount n None, ACount n' err => n' = n /\ (err = None \/ exists e, err = Some ("shadow store: " ++ e))
  | ASize None, ASize (Some n) => n = 0
  | ASnapshot None, ASnapshot (Some err) => err = Some cannotSnapshot
  | a, a' => a' = a
  end.

Section Invisible.
Context {S T Q A : Type} (primary : EventRepository S Q A) (shadow : ShadowWriter T).

Lemma shadowedPrune_fst own prune before (st : S * T) :
  (shadowedPrune shadow own prune before st).1.1 = (own before st.1).1 /\
  agrees (A := A) (ACount (own before st.1).2.1 (own before st.1).2.2)
    (ACount (shadowedPrune shadow own prune before st).2.1 (shadowedPrune shadow own prune before st).2.2).
Proof.
  unfold shadowedPrune, pruneShadow. destruct (own before st.1) as [s [n [err|]]]; cbn [fst snd agrees]; [done|].
  destruct (sw_pruner shadow) as [p|]; cbn [fst snd]; [|by split; [|split; [|left]]].
  destruct (prune p before st.2) as [t [k [err|]]]; cbn [fst snd]; (split; [done|split; [done|]]); [right; by exists err|by left].
Qed.

Lemma shadowedWriteMessage_fst m (st : S * T) :
  (shadowedWriteMessage primary shadow m st).1.1 = (rp_WriteMessage primary m st.1).1 /\ (shadowedWriteMessage primary shadow m st).2 = (rp_WriteMessage primary m st.1).2.
Proof. unfold shadowedWriteMessage. by destruct (rp_WriteMessage primary m st.1) as [s [err|]]. Qed.

Lemma perform_invisible c s t : exists t', (perform (WithShadow primary shadow) c (s, t)).1 = ((perform primary c s).1, t') /\
  agrees (perform primary c s).2 (perform (WithShadow primary shadow) c (s, t)).2.
Proof.
  assert (Hprune : forall own prune before, exists t',
    (let '(s', (n, err)) := shadowedPrune shadow own prune before (s, t) in (s', ACount (A := A) n err)).1 =
      ((let '(s', (n, err)) := own before s in (s', ACount (A := A) n err)).1, t') /\
    agrees (A := A) (let '(s', (n, err)) := own before s in (s', ACount n err)).2
      (let '(s', (n, err)) := shadowedPrune shadow own prune before (s, t) in (s', ACount n err)).2).
  { intros own prune before. destruct (shadowedPrune_fst own prune before (s, t)) as [H1 H2]. cbn [fst] in H1, H2.
    destruct (shadowedPrune shadow own prune before (s, t)) as [[s' t'] [n err]], (own before s) as [s1 [n1 err1]]. cbn [fst snd] in *. exists t'. by subst. }
  destruct c; cbn [perform WithShadow rp_Write rp_WriteMessage rp_GetMessage rp_TruncateBefore rp_TruncateMessagesBefore rp_PruneMinuteSeriesBefore
    rp_PruneHourDaySeriesBefore rp_Backfill rp_Checkpoint rp_DiskUsage rp_Close rp_rest]; try apply Hprune.
  - unfold shadowedWrite. cbn [fst snd]. destruct (rp_Write primary e s) as [s' [err|]]; by eexists.
  - destruct (shadowedWriteMessage_fst m (s, t)) as [H1 H2]. cbn [fst] in H1, H2. destruct (shadowedWriteMessage primary shadow m (s, t)) as [[s' t'] err].
    destruct (rp_WriteMessage primary m s) as [s1 err1]. cbn [fst snd] in *. exists t'. by subst.
  - by exists t.
  - change (backfill (WithShadow primary shadow) tenant message provider (s, t)) with (shadowedBackfill primary shadow tenant message provider (s, t)).
    unfold shadowedBackfill, backfill. cbn [fst snd].
    destruct (rp_Backfill primary) as [b|].
    + destruct (b tenant message provider s) as [s' [err|]]; by eexists.
    + destruct (rp_GetMessage primary tenant message s) as [[m|]|]; [|by exists t|by exists t]. destruct (eqb (M_ProviderID m) ""); [|by exists t].
      destruct (shadowedWriteMessage_fst (with_provider provider m) (s, t)) as [H1 H2]. cbn [fst] in H1, H2.
      destruct (shadowedWriteMessage primary shadow _ (s, t)) as [[s' t'] err], (rp_WriteMessage primary _ s) as [s1 err1]. cbn [fst snd] in *. exists t'. by subst.
  - exists t. split; [done|]. cbn [fmap option_fmap option_map snd fst]. by destruct (rp_Checkpoint primary).
  - exists t. split; [done|]. cbn [fmap option_fmap option_map snd fst]. by destruct (rp_DiskUsage primary).
  - cbn [fst snd]. destruct (rp_Close primary s) as [s' err]. by eexists.
  - cbn [fst snd]. destruct (rp_rest primary q s) as [s' a]. by eexists.
Qed.

(** C15: a shadow does not show.  Whatever the primary and the shadow are, and
    whatever is called, the primary behind the wrapper goes through the states it
    would go through alone, and every answer is the one it would give alone --
    but a prune that the shadow failed says so, with the primary's count, and a
    primary that cannot report its size or snapshot itself reports nothing, or
    refuses. *)
Theorem shadow_does_not_show cs : forall s t,
  (performAll (WithShadow primary shadow) cs (s, t)).1.1 = (performAll primary cs s).1 /\
  Forall2 agrees (performAll primary cs s).2 (performAll (WithShadow primary shadow) cs (s, t)).2.
Proof.
  induction cs as [|c cs IH]; intros s t; cbn [performAll]; [done|]. destruct (perform_invisible c s t) as (t' & H1 & H2).
  destruct (perform (WithShadow primary shadow) c (s, t)) as [st a]. cbn [fst snd] in H1, H2. subst st.
  destruct (perform primary c s) as [s1 a1]. cbn [fst snd] in *. destruct (IH s1 t') as [H3 H4].
  destruct (performAll (WithShadow primary shadow) cs (s1, t')) as [s2 as2], (performAll primary cs s1) as [s3 as3]. cbn [fst snd] in *. by split; [|constructor].
Qed.

End Invisible.

(** ** What the shadow is offered *)

(** A shadow that only keeps what it is given. *)
Definition recorder : ShadowWriter (list (EmailEvent + EmailMessage)) :=
  mkShadow (list (EmailEvent + EmailMessage))
    (fun e t => ((t ++ [inl e])%list, None)) (fun m t => ((t ++ [inr m])%list, None)) None None None.

Section Offered.
Context {S Q A : Type} (primary : EventRepository S Q A).

(** What the primary took, in order: the writes it did not refuse. *)
Fixpoint taken (cs : list (call Q)) (s : S) : list (EmailEvent + EmailMessage) :=
  match cs with
  | [] => []
  | c :: rest =>
      (match c with
       | CWrite e => match (rp_Write primary e s).2 with None => [inl e] | Some _ => [] end
       | CWriteMessage m => match (rp_WriteMessage primary m s).2 with None => [inr m] | Some _ => [] end
       | CBackfill t m p =>
           match rp_Backfill primary, rp_GetMessage primary t m s with
           | None, Ok (Some msg) =>
               if eqb (M_ProviderID msg) "" then
                 match (rp_WriteMessage primary (with_provider p msg) s).2 with None => [inr (with_provider p msg)] | Some _ => [] end
               else []
           | _, _ => []
           end
       | _ => []
       end ++ taken rest (perform primary c s).1)%list
  end.

(** The shadow is offered exactly what the primary took.  Whatever is
    called, the events and messages the wrapper hands to its shadow are those the
    primary accepted, in the order it accepted them, and none it refused. *)
Theorem shadow_is_offered_what_was_taken cs : forall s t,
  (performAll (WithShadow primary recorder) cs (s, t)).1.2 = (t ++ taken cs s)%list.
Proof.
  induction cs as [|c cs IH]; intros s t; cbn [performAll taken]; [by rewrite app_nil_r|].
  destruct (perform_invisible primary recorder c s t) as (t' & H1 & _).
  assert (Ht : (perform (WithShadow primary recorder) c (s, t)).1.2 = (t ++ match c with
    | CWrite e => match (rp_Write primary e s).2 with None => [inl e] | Some _ => [] end
    | CWriteMessage m => match (rp_WriteMessage primary m s).2 with None => [inr m] | Some _ => [] end
    | CBackfill t m p =>
        match rp_Backfill primary, rp_GetMessage primary t m s with
        | None, Ok (Some msg) => if eqb (M_ProviderID msg) "" then match (rp_WriteMessage primary (with_provider p msg) s).2 with None => [inr (with_provider p msg)] | Some _ => [] end else []
        | _, _ => []
        end
    | _ => []
    end)%list).
  { clear. destruct c; cbn [perform WithShadow rp_Write rp_WriteMessage rp_GetMessage rp_TruncateBefore rp_TruncateMessagesBefore rp_PruneMinuteSeriesBefore
      rp_PruneHourDaySeriesBefore rp_Backfill rp_Checkpoint rp_DiskUsage rp_Close rp_rest]; rewrite ?app_nil_r; try done.
    - unfold shadowedWrite. cbn [fst snd]. destruct (rp_Write primary e s) as [s' [err|]]; cbn [fst snd]; by rewrite ?app_nil_r.
    - unfold shadowedWriteMessage. cbn [fst snd]. destruct (rp_WriteMessage primary m s) as [s' [err|]]; cbn [fst snd]; by rewrite ?app_nil_r.
    - unfold shadowedPrune, pruneShadow. cbn [fst snd recorder sw_pruner]. by destruct (rp_TruncateBefore primary before s) as [s' [n [err|]]].
    - unfold shadowedPrune, pruneShadow. cbn [fst snd recorder sw_pruner]. by destruct (rp_TruncateMessagesBefore primary before s) as [s' [n [err|]]].
    - unfold shadowedPrune, pruneShadow. cbn [fst snd recorder sw_pruner]. by destruct (rp_PruneMinuteSeriesBefore primary before s) as [s' [n [err|]]].
    - unfold shadowedPrune, pruneShadow. cbn [fst snd recorder sw_pruner]. by destruct (rp_PruneHourDaySeriesBefore primary before s) as [s' [n [err|]]].
    - unfold backfill. cbn [WithShadow rp_Backfill]. unfold shadowedBackfill. cbn [fst snd]. destruct (rp_Backfill primary) as [b|].
      + destruct (b tenant message provider s) as [s' [err|]]; cbn [fst snd]; by rewrite ?app_nil_r.
      + destruct (rp_GetMessage primary tenant message s) as [[msg|]|]; cbn [fst snd]; rewrite ?app_nil_r; try done.
        destruct (eqb (M_ProviderID msg) ""); cbn [fst snd]; rewrite ?app_nil_r; [|done]. unfold shadowedWriteMessage. cbn [fst snd].
        destruct (rp_WriteMessage primary _ s) as [s' [err|]]; cbn [fst snd]; by rewrite ?app_nil_r.
    - cbn [fst snd recorder sw_StopWriter]. by destruct (rp_Close primary s).
    - cbn [fst snd]. by destruct (rp_rest primary q s). }
  destruct (perform (WithShadow primary recorder) c (s, t)) as [st a]. cbn [fst snd] in H1, Ht. subst st. cbn [snd] in Ht. subst t'.
  destruct (perform primary c s) as [s1 a1]. cbn [fst snd]. specialize (IH s1).
  destruct (performAll (WithShadow primary recorder) cs _) as [st2 as2] eqn:E. cbn [fst].
  match type of E with performAll _ _ (_, ?t1) = _ => specialize (IH t1) end. rewrite E in IH. cbn [fst] in IH. by rewrite IH, app_assoc.
Qed.

End Offered.

(** ** The database over a local store *)

Section SharedStore.
Context {D : Dialect} {J : ListCodec} {L Q A : Type} (local : EventRepository L Q A).

Record Store := mkStore {
  st_writer : Writer;
  st_local : L;
  st_stopPebble : bool
}.

Definition NewStore (w : Writer) (l : L) : Store := mkStore w l false.
Definition WithoutLocalWrites (st : Store) : Store := mkStore (st_writer st) (st_local st) true.
Definition NewShadow (w : Writer) (l : L) : Store := WithoutLocalWrites (NewStore w l).

Definition with_db (d : SDB) (st : Store) : Store := mkStore (set_db d (st_writer st)) (st_local st) (st_stopPebble st).

(** A local write that follows, unless it is stopped; its failure is logged. *)
Definition mirrored (f : L -> L * option string) (st : Store) : Store :=
  if st_stopPebble st then st else mkStore (st_writer st) (f (st_local st)).1 (st_stopPebble st).

Definition StoreWrite (e : EmailEvent) (st : Store) : Store * option string :=
  (mirrored (rp_Write local e) (mkStore (SharedEvents.Write (Some e) (st_writer st)) (st_local st) (st_stopPebble st)), None).

Definition StoreWriteMessage (fl : fault) (m : EmailMessage) (st : Store) : Store * option string :=
  match WriteMessage fl (Some m) (w_db (st_writer st)) with
  | (d, Err err) => (with_db d st, Some err)
  | (d, Ok _) => (mirrored (rp_WriteMessage local m) (with_db d st), None)
  end.

Definition StoreBackfill (fl : fault) (tenant message provider : string) (st : Store) : Store * option string :=
  match BackfillMessageProvider fl tenant message provider (w_db (st_writer st)) with
  | (d, Err err) => (with_db d st, Some err)
  | (d, Ok _) =>
      (match rp_Backfill local with Some b => mirrored (b tenant message provider) (with_db d st) | None => with_db d st end, None)
  end.

(** A prune of both, the local store's first; the count is the database's. *)
Definition storePrune (own : Z -> L -> L * (Z * option string)) (table : fault -> Z -> SDB -> SDB * result string Z)
    (fl : fault) (before : Z) (st : Store) : Store * (Z * option string) :=
  match own before (st_local st) with
  | (l, (_, Some err)) => (mkStore (st_writer st) l (st_stopPebble st), (0, Some ("local store: " ++ err)))
  | (l, (_, None)) =>
      let '(d, r) := table fl before (w_db (st_writer st)) in
      (mkStore (set_db d (st_writer st)) l (st_stopPebble st), match r with Ok n => (n, None) | Err err => (0, Some err) end)
  end.

Definition StoreTruncateMessagesBefore := storePrune (rp_TruncateMessagesBefore local) SharedRetention.DeleteMessagesBefore.
Definition StorePruneMinuteSeriesBefore := storePrune (rp_PruneMinuteSeriesBefore local) SharedRetention.DeleteMinuteSeriesBefore.
Definition StorePruneHourDaySeriesBefore := storePrune (rp_PruneHourDaySeriesBefore local) SharedRetention.DeleteHourDaySeriesBefore.

Definition StopWriter (envs : nat -> FlushEnv) (st : Store) : Store := mkStore (SharedEvents.Stop envs (st_writer st)) (st_local st) (st_stopPebble st).

(** [Close]: the writer, then the local store. *)
Definition StoreClose (envs : nat -> FlushEnv) (st : Store) : Store * option string :=
  let st' := StopWriter envs st in
  let '(l, err) := rp_Close local (st_local st') in (mkStore (st_writer st') l (st_stopPebble st'), err).

(** What callers write, with how the statement goes. *)
Inductive storeCall :=
| SWrite (e : EmailEvent)
| SWriteMessage (fl : fault) (m : EmailMessage)
| SBackfill (fl : fault) (tenant message provider : string).

Definition storeStep (c : storeCall) (st : Store) : Store * option string :=
  match c with
  | SWrite e => StoreWrite e st
  | SWriteMessage fl m => StoreWriteMessage fl m st
  | SBackfill fl t m p => StoreBackfill fl t m p st
  end.

Definition storeRun (cs : list storeCall) (st : Store) : Store := foldl (fun st c => (storeStep c st).1) st cs.

(** The calls the store did not refuse. *)
Fixpoint unrefused (cs : list storeCall) (st : Store) : list storeCall :=
  match cs with
  | [] => []
  | c :: rest => (match (storeStep c st).2 with None => [c] | Some _ => [] end ++ unrefused rest (storeStep c st).1)%list
  end.

(** The same calls on the local store alone. *)
Definition localStep (l : L) (c : storeCall) : L :=
  match c with
  | SWrite e => (rp_Write local e l).1
  | SWriteMessage _ m => (rp_WriteMessage local m l).1
  | SBackfill _ t m p => match rp_Backfill local with Some b => (b t m p l).1 | None => l end
  end.

Lemma storeStep_local c st : st_stopPebble (storeStep c st).1 = st_stopPebble st /\
  st_local (storeStep c st).1 = if st_stopPebble st then st_local st else foldl localStep (st_local st) (match (storeStep c st).2 with None => [c] | Some _ => [] end).
Proof.
  destruct st as [w l stop]. destruct c as [e|fl m|fl t m p]; cbn [storeStep].
  - unfold StoreWrite, mirrored. cbn [st_stopPebble fst snd]. by destruct stop.
  - unfold StoreWriteMessage, mirrored. destruct (WriteMessage _ _ _) as [d [u|err]]; cbn [with_db st_stopPebble st_local st_writer fst snd]; by destruct stop.
  - unfold StoreBackfill, mirrored. destruct (BackfillMessageProvider _ _ _ _ _) as [d [u|err]]; cbn [with_db st_stopPebble st_local st_writer fst snd foldl localStep];
      [|by destruct stop]. by destruct (rp_Backfill local), stop.
Qed.

(** Going back to the local store is a restart.  Unless local writes are
    stopped, whatever is written and however the database takes it, the local
    store is where it would be had it alone been given the calls the shared store
    did not refuse; once they are stopped, it does not change. *)
Theorem local_store_keeps_up cs st :
  st_local (storeRun cs st) = if st_stopPebble st then st_local st else foldl localStep (st_local st) (unrefused cs st).
Proof.
  revert st. induction cs as [|c cs IH]; intros st; cbn [unrefused]; [by destruct (st_stopPebble st)|].
  change (storeRun (c :: cs) st) with (storeRun cs (storeStep c st).1). rewrite IH. destruct (storeStep_local c st) as [-> ->].
  destruct (st_stopPebble st); [done|]. by rewrite foldl_app.
Qed.

(** ** The shared store as the shadow *)

(** The store with how its next statements and flushes go. *)
Record Shared := mkShared {
  sh_store : Store;
  sh_faults : nat -> fault;
  sh_flushes : nat -> FlushEnv;
  sh_calls : nat
}.

(** A call that takes the next answer. *)
Definition calling {B : Type} (f : fault -> Store -> Store * B) (t : Shared) : Shared * B :=
  let '(st, b) := f (sh_faults t (sh_calls t)) (sh_store t) in (mkShared st (sh_faults t) (sh_flushes t) (S (sh_calls t)), b).

(** A table's own prune. *)
Definition tablePrune (table : fault -> Z -> SDB -> SDB * result string Z) (before : Z) : Shared -> Shared * (Z * option string) :=
  calling (fun fl st => let '(d, r) := table fl before (w_db (st_writer st)) in (with_db d st, match r with Ok n => (n, None) | Err err => (0, Some err) end)).

(** The rows' prune; it ends within the fuel, a step more than there are rows. *)
Definition eventsPrune (before : Z) : Shared -> Shared * (Z * option string) :=
  calling (fun fl st =>
    match fl with
    | Down => (st, (0, Some errNotConnected))
    | _ =>
        match SharedRetention.DeleteEventsBefore (S (size (s_events (w_db (st_writer st))))) (fun _ => None) (fun _ => fl) before 0 0 (w_db (st_writer st)) with
        | Some (d, n, err) => (with_db d st, (n, err))
        | None => (st, (0, None))
        end
    end).

Definition asShadow : ShadowWriter Shared :=
  mkShadow Shared
    (fun e => calling (fun _ => StoreWrite e))
    (fun m => calling (fun fl => StoreWriteMessage fl m))
    (Some (mkPruner Shared eventsPrune (tablePrune SharedRetention.DeleteMessagesBefore)
             (tablePrune SharedRetention.DeleteMinuteSeriesBefore) (tablePrune SharedRetention.DeleteHourDaySeriesBefore)))
    (Some (fun t => mkShared (StopWriter (sh_flushes t) (sh_store t)) (sh_faults t) (sh_flushes t) (sh_calls t)))
    (Some (fun tenant m p => calling (fun fl => StoreBackfill fl tenant m p))).

End SharedStore.

End DualWrite.
