(* ===== verification/SharedCases.v ===== *)
(** * The shared event store on concrete cases

    An engine that keeps everything as it is, and one that refuses what is not a
    UUID and keeps microseconds, which show that what [SharedEvents] assumes of
    an engine can hold; the theorems on them; and four behaviours worth
    knowing: a listing of the latest events that repeats a thread on its second
    page, an event that takes its whole batch down with it, search texts whose
    letters are wildcards, and a duplicate that is counted. *)
From S2P Require Import Prelude GoStrings Encoding KVStore Calendar Timestamps Classify Admission Events EventStore.
From S2P Require Import EventTimeline EventListing EventRetention EventCounters EventCases.
From S2P Require Import SharedEvents SharedCounters SharedReads SharedRetention.
From Stdlib Require Import Ascii.

Module SharedCases.
Import GoStrings Encoding KVStore Calendar Timestamps Classify Events EventStore EventTimeline EventListing EventRetention EventCounters EventCases SharedEvents SharedCounters SharedReads.
Local Open Scope string_scope.
Local Open Scope Z_scope.

(** ** Engines *)

(** Columns of text, and instants as they are. *)
Definition plainEngine : Dialect := {|
  isPostgres := false;
  uuidColumn s := Some s;
  timeColumn t := t;
  textColumn _ := true;
  recipientColumn _ := true;
  heapOrder m := map_to_list m;
  uuidParse _ := true;
  encodeMetadata _ := None;
  lenient _ := None
|}.

Lemma plainEngine_laws : DialectLaws plainEngine.
Proof. by split. Qed.

(** The canonical spelling of a UUID. *)
Definition hex_field (n : nat) (s : string) : bool := (String.length s =? n)%nat && str_all (fun c => is_digit c || (is_hex c && is_lower c)) s.
Definition is_uuid (s : string) : bool :=
  match Split s "-"%char with
  | [a; b; c; d; e] => hex_field 8 a && hex_field 4 b && hex_field 4 c && hex_field 4 d && hex_field 12 e
  | _ => false
  end.

(** Columns of UUIDs and microseconds, texts without NUL, addresses of at most
    320 characters. *)
Definition strictEngine : Dialect := {|
  isPostgres := true;
  uuidColumn s := if is_uuid s then Some s else None;
  timeColumn t := t / 1000 * 1000;
  textColumn s := str_all (fun c => negb (code c =? 0)) s;
  recipientColumn s := (String.length s <=? 320)%nat;
  heapOrder m := reverse (map_to_list m);
  uuidParse := is_uuid;
  encodeMetadata _ := None;
  lenient _ := None
|}.

Lemma strictEngine_laws : DialectLaws strictEngine.
Proof.
  split; cbn.
  - intros s u. destruct (is_uuid s) eqn:E; [|done]. intros [= <-]. by rewrite E.
  - intros u. by destruct (is_uuid u).
  - intros t u H. pose proof (Z.div_le_mono t u 1000 ltac:(lia) H). lia.
  - intros t. by rewrite Z.div_mul.
  - intros m. apply reverse_Permutation.
Qed.

Definition smooth : FlushEnv := mkFlushEnv Up (fun _ => Up) (fun _ => Up) (fun l => l) (fun l => l).

(** Two events written, the second left to the stop. *)
Definition sharedLabels : list SharedEvents.label :=
  [SharedEvents.LStart; LWrite (Some event1); SharedEvents.LTake smooth; SharedEvents.LTick smooth; LWrite (Some event2)].

Section Plain.
#[local] Existing Instance plainEngine.
#[local] Existing Instance plainEngine_laws.

Definition sharedWriter : SharedEvents.Writer := SharedEvents.run sharedLabels (NewWriter emptySDB).

Lemma losses_are_counted_witness :
  let w := SharedEvents.Stop (fun _ => smooth) sharedWriter in
  Stats w = (2, 0, 0) /\ forall e, e ∈ [event1; event2] -> exists id r, eventRow e = Some (id, r) /\ is_Some (s_events (SharedEvents.w_db w) !! id).
Proof.
  intros w. split; [vm_compute; reflexivity|].
  destruct (losses_are_counted (fun _ => smooth) sharedLabels emptySDB) as (_ & _ & _ & _ & H). apply H; vm_compute; reflexivity.
Defined.

Lemma shared_landed : w_landed sharedWriter = [event1].
Proof. vm_compute. reflexivity. Qed.

Lemma events_datable : Forall (fun e => datable (Timestamp e)) [event1; event2].
Proof. repeat constructor; vm_compute; discriminate || reflexivity. Qed.

Lemma figures_are_what_landed_witness :
  exists out, SharedCounters.GetTimeSeriesMetrics Up "t1" 0 0 "hour" (SharedEvents.w_db sharedWriter) = Ok out /\
    out !! "2023-11-14 22" ≫= (fun m => m !! "DELIVERED") = Some 1.
Proof.
  destruct (figures_are_what_landed sharedLabels "t1" "t1" 0 0 "hour") as [_ (out & Hrun & Hout)].
  - repeat constructor; reflexivity.
  - reflexivity.
  - intros H. destruct (H eq_refl).
  - intros H. destruct (H eq_refl).
  - fold sharedWriter. rewrite shared_landed. discriminate.
  - fold sharedWriter. rewrite shared_landed. exact (Forall_take _ 1 _ events_datable).
  - exists out. split; [exact Hrun|]. apply (eq_trans (Hout "2023-11-14 22" DELIVERED)). fold sharedWriter. rewrite shared_landed. vm_compute. reflexivity.
Defined.

Definition sharedAll : SharedEvents.Writer := SharedEvents.run (sharedLabels ++ [SharedEvents.LTake smooth; SharedEvents.LTick smooth]) (NewWriter emptySDB).

Example shared_pages : pages 3 "t1" everything (SharedEvents.w_db sharedAll) = Some [event2; event1].
Proof. vm_compute. reflexivity. Qed.

Lemma shared_pages_tile_witness :
  exists rows, pages 3 "t1" everything (SharedEvents.w_db sharedAll) = Some (scanEvent <$> rows) /\ NoDup rows.
Proof.
  destruct (shared_pages_tile (sharedLabels ++ [SharedEvents.LTake smooth; SharedEvents.LTick smooth]) "t1" "t1" "" everything) as (rows & Hp & Hnd & _).
  - exact events_datable.
  - reflexivity.
  - reflexivity.
  - reflexivity.
  - exists rows. split; [exact Hp|exact Hnd].
Defined.

Lemma clauses_are_the_local_tests_witness :
  exists i r, eventRow event1 = Some (i, r) /\
    listWhere "t1" "" (mkFilter 10 "" "A@EXAMPLE" DELIVERED 0 0 "" false false "hell") (i, r) = true.
Proof.
  destruct (eventRow event1) as [[i r]|] eqn:E; [|discriminate E]. exists i, r. split; [reflexivity|].
  rewrite (clauses_are_the_local_tests (mkFilter 10 "" "A@EXAMPLE" DELIVERED 0 0 "" false false "hell") event1 i r); [vm_compute; reflexivity| |exact E|reflexivity|reflexivity].
  repeat split.
Defined.

(** Lists as texts that name them. *)
#[local] Instance namedLists : ListCodec := {
  validText s := eqb s "a@example.org" || eqb s "b@example.org";
  MarshalList l := Ok (String.concat "," ("list" :: l));
  UnmarshalList v := tail (Split v ","%char);
  validAttachment _ := false;
  MarshalAttachments l := Ok "none";
  UnmarshalAttachments _ := []
}.

#[local] Instance namedLists_laws : ListCodecLaws namedLists.
Proof.
  split; cbn [validText MarshalList UnmarshalList validAttachment MarshalAttachments UnmarshalAttachments namedLists].
  - intros l Hl. exists (String.concat "," ("list" :: l)). split; [done|]. split; [by destruct l|].
    change (String.concat "," ("list" :: l)) with (Join ("list" :: l) (String "," "")). rewrite Split_Join; [done|done|].
    intros x [->|Hx]%elem_of_cons; [done|]. rewrite Forall_forall in Hl. specialize (Hl x Hx). apply orb_true_iff in Hl as [->%eqb_true| ->%eqb_true]; done.
  - intros l Hl. exists "none". split; [done|]. split; [done|]. destruct l; [done|]. by apply Forall_cons in Hl as [? _].
Qed.

Lemma stored_message_reads_back_witness :
  exists p, GetMessage Up "t1" "m1" (foldl messageStep (WriteMessage Up (Some message1) emptySDB).1
    [MWrite (Lost "timeout") (Some (with_provider "" message1)); MBackfill Up "t1" "m1" "p2"]) = Ok (Some (with_provider (default "" p) (as_stored message1))) /\ p <> None.
Proof.
  destruct (WriteMessage Up (Some message1) emptySDB) as [d r] eqn:E.
  assert (Hr : r = Ok tt) by (apply (eq_trans (f_equal snd (eq_sym E))); vm_compute; reflexivity). rewrite Hr in E. cbn [fst].
  destruct (stored_message_reads_back message1 emptySDB d [MWrite (Lost "timeout") (Some (with_provider "" message1)); MBackfill Up "t1" "m1" "p2"]) as (p & H1 & H2).
  - unfold kept_message. split_and!; [reflexivity|reflexivity|intros _; reflexivity|repeat constructor|constructor].
  - reflexivity.
  - exact E.
  - exists p. split; [exact H1|]. apply H2. discriminate.
Defined.

(** ** Retention *)

Definition calmPass : SharedRetention.PassEnv :=
  SharedRetention.mkPassEnv (fun _ => None) (fun _ => Up) (Some (fun _ => calm)) (fun _ d => d) (fun _ => Up).

Lemma shared_archived_before_deleted_witness :
  exists st, SharedRetention.archiveAndDeleteEvents 2 (SharedRetention.mkPassEnv (fun _ => None) (fun _ => Up) (Some (fun _ => calm)) (fun _ d => d) (fun _ => Lost "timeout"))
      (Timestamp event2) 0 (SharedRetention.mkPass (SharedEvents.w_db sharedAll) [] 0 []) = Some (st, Some "timeout") /\
    forall r, r ∈ SharedRetention.ps_deleted st -> exists record, MarshalEvent (scanEvent r) = Ok record /\ (c_tenant r.2, record) ∈ SharedRetention.ps_lines st.
Proof.
  set (env := SharedRetention.mkPassEnv (fun _ => None) (fun _ => Up) (Some (fun _ => calm)) (fun _ d => d) (fun _ => Lost "timeout")).
  destruct (SharedRetention.archiveAndDeleteEvents 2 env (Timestamp event2) 0 (SharedRetention.mkPass (SharedEvents.w_db sharedAll) [] 0 [])) as [[st err]|] eqn:E.
  2:{ apply (f_equal (fun o => bool_decide (is_Some o))) in E. vm_compute in E. discriminate E. }
  assert (He : Some err = Some (Some "timeout")) by (refine (eq_trans (f_equal (option_map snd) (eq_sym E)) _); vm_compute; reflexivity). injection He as ->.
  assert (Ht : Some ((fun r : SharedRetention.Row => c_tenant r.2) <$> SharedRetention.ps_deleted st) = Some ["t1"])
    by (refine (eq_trans (f_equal (option_map (fun x => (fun r : SharedRetention.Row => c_tenant r.2) <$> SharedRetention.ps_deleted x.1)) (eq_sym E)) _); vm_compute; reflexivity).
  destruct (SharedRetention.shared_archived_before_deleted 2 env (Timestamp event2) (SharedEvents.w_db sharedAll) st (Some "timeout")) as [H _].
  - intros i d id r Hr. exact Hr.
  - exact E.
  - exists st. split; [reflexivity|]. intros r Hr. destruct (H r Hr) as [_ Hrec]. apply Hrec; [discriminate|].
    injection Ht as Ht. apply (list_elem_of_fmap_2 (fun r : SharedRetention.Row => c_tenant r.2)) in Hr. rewrite Ht in Hr. apply list_elem_of_singleton in Hr. rewrite Hr. discriminate.
Defined.

Lemma shared_archivable : SharedRetention.archivable (Timestamp event2) (s_events (SharedEvents.w_db sharedAll)).
Proof.
  intros id r Hr _. apply elem_of_map_to_list, list_elem_of_In in Hr.
  assert (E : forallb (fun r => negb (eqb (c_tenant r.2) "") && is_ok (MarshalEvent (scanEvent r))) (map_to_list (s_events (SharedEvents.w_db sharedAll))) = true)
    by (vm_compute; reflexivity).
  rewrite forallb_forall in E. specialize (E (id, r) Hr). apply andb_true_iff in E as [E1 E2]. split; [|exact E2]. by apply eqb_false, negb_true_iff.
Qed.

Lemma shared_pass_is_exact_witness :
  exists st, SharedRetention.archiveAndDeleteEvents 2 calmPass (Timestamp event2) 0 (SharedRetention.mkPass (SharedEvents.w_db sharedAll) [] 0 []) = Some (st, None) /\
    SharedRetention.ps_total st = 1 /\ SharedRetention.ps_lines st ≡ₚ [("t1", "e1")].
Proof.
  destruct (SharedRetention.shared_pass_is_exact calmPass (Timestamp event2) (SharedEvents.w_db sharedAll)) as (st & Hrun & _ & Hn & Hl & _).
  - repeat split. exists (fun _ => calm). repeat split.
  - exact shared_archivable.
  - exists st. split; [exact Hrun|]. split; [exact Hn|exact Hl].
Defined.

Definition afterBoth : Z := Timestamp event2 + Second.

Lemma archived_in_one_place_witness :
  exists st ps, SharedRetention.TruncateBefore 2 true calm Up calmPass afterBoth (EventStore.w_db sampleStore) (SharedEvents.w_db sharedWriter) = (st, Some (ps, None)) /\
    r_lines st = [("t1", "e2")] /\ SharedRetention.ps_lines ps = [("t1", "e1")] /\
    forall t record, (t, record) ∈ r_lines st -> exists e, MarshalEvent e = Ok record /\ (no_colon (ID e) -> s_events (SharedEvents.w_db sharedWriter) !! ID e = None).
Proof.
  destruct (SharedRetention.archived_in_one_place sampleLabels (∅ : sampleDB) 2 true calm Up calmPass afterBoth (SharedEvents.w_db sharedWriter)) as (st & ps & err & E & _ & H & _).
  - exact empty_db.
  - exact sample_orderly.
  - vm_compute. split; discriminate.
  - intros id _. reflexivity.
  - reflexivity.
  - apply Nat.ltb_lt. vm_compute. reflexivity.
  - change (EventStore.w_db (EventStore.run sampleLabels (EventStore.NewStore (∅ : sampleDB)))) with (EventStore.w_db sampleStore) in E.
    assert (He : Some err = Some None) by (refine (eq_trans (f_equal (fun o => option_map snd (snd o)) (eq_sym E)) _); vm_compute; reflexivity). injection He as ->.
    exists st, ps. split; [exact E|]. split; [refine (eq_trans (f_equal (fun o => r_lines (fst o)) (eq_sym E)) _); vm_compute; reflexivity|]. split.
    + assert (Hl : Some (SharedRetention.ps_lines ps) = Some [("t1", "e1")])
        by (refine (eq_trans (f_equal (fun o => option_map (fun x => SharedRetention.ps_lines (fst x)) (snd o)) (eq_sym E)) _); vm_compute; reflexivity).
      by injection Hl.
    + intros t record Hl. destruct (H t record Hl) as (e & H1 & _ & H3). exists e. split; [exact H1|exact H3].
Defined.

(** ** Behaviours worth knowing *)

Definition event0 : EmailEvent := mkEvent "e0" "t1" "p1" "SMTP" "m0" SENT "b@example.org" "Older" (unixEpoch + 1699999999 * Second) "".
Definition threeEvents : SDB :=
  SharedEvents.w_db (SharedEvents.Stop (fun _ => smooth) (SharedEvents.run [LWrite (Some event0); LWrite (Some event1); LWrite (Some event2)] (NewWriter emptySDB))).
Definition latestByOne : ListFilter := mkFilter 1 "" "" UNSPECIFIED 0 0 "" true false "".

(** Three events in two threads: the listing of each thread's latest shows the
    first thread again on its second page, by an event that is not its latest. *)
Example latest_listing_repeats_a_thread :
  pages 4 "t1" latestByOne threeEvents = Some [event2; event1; event0] /\
  thread (MessageID event1) (Recipient event1) = thread (MessageID event2) (Recipient event2).
Proof. split; vm_compute; reflexivity. Qed.

(** A letter of the search text that is a wildcard: both events are listed where
    the local store lists one. *)
Example search_text_is_a_pattern :
  like false ("%" ++ "first_last" ++ "%") "firstxlast@example.org" = true /\ Contains "firstxlast@example.org" "first_last" = false.
Proof. split; vm_compute; reflexivity. Qed.

(** The same event twice is one row and two on the counters. *)
Example duplicate_is_counted :
  let d := SharedEvents.w_db (SharedEvents.Stop (fun _ => smooth) (SharedEvents.run [LWrite (Some event1); LWrite (Some event1)] (NewWriter emptySDB))) in
  size (s_events d) = 1%nat /\ SharedCounters.GetMetrics Up "t1" 0 0 d = Ok {["DELIVERED" := 2]}.
Proof. split; vm_compute; reflexivity. Qed.

End Plain.

(** ** An event the columns refuse *)

Definition uuid1 : string := "00000000-0000-4000-8000-000000000001".
Definition uuid2 : string := "00000000-0000-4000-8000-000000000002".
Definition goodEvent : EmailEvent := mkEvent uuid1 uuid1 "" "" uuid1 DELIVERED "a@example.org" "Hello" (unixEpoch + 1700000000 * Second) "".
(** A bounce whose message id is the provider's own. *)
Definition foreignEvent : EmailEvent := mkEvent uuid2 uuid1 "" "" "010001-ses-message-id" BOUNCED "b@example.org" "Hello" (unixEpoch + 1700000000 * Second) "".

Example foreign_event_loses_its_batch :
  let w := SharedEvents.Stop (D := strictEngine) (fun _ => smooth)
             (SharedEvents.run (D := strictEngine) [LWrite (Some goodEvent); LWrite (Some foreignEvent)] (NewWriter emptySDB)) in
  Stats w = (0, 0, 2) /\ s_events (SharedEvents.w_db w) = ∅.
Proof. split; vm_compute; reflexivity. Qed.

Example good_event_alone_is_written :
  Stats (SharedEvents.Stop (D := strictEngine) (fun _ => smooth) (SharedEvents.run (D := strictEngine) [LWrite (Some goodEvent)] (NewWriter emptySDB))) = (1, 0, 0).
Proof. vm_compute. reflexivity. Qed.

End SharedCases.
