(* ===== verification/Tracking.v ===== *)
(** * Signed links: open and click tracking, one-click unsubscribe, bounce references

    Models pkg/tracking (signer.go, links.go, bounce_ref.go), the part of
    internal/email/usecases/send_email_usecase.go that puts the links into a
    message ([injectTracking], [injectPixel], [rewriteLinks],
    [setUnsubscribeHeaders], [setBounceRef]) and the endpoints that serve them
    (internal/event/transports/http: tracking_handler.go,
    unsubscribe_handler.go).

    HMAC-SHA256, [url.Parse] and the HTML tokenizer are parameters.  A request
    is the path, the raw query and the method the HTTP server hands over. *)
From S2P Require Import Prelude GoStrings Classify Encoding Suppression Events.
From Stdlib Require Import Ascii.

Module Tracking.
Import GoStrings Encoding.
Local Open Scope string_scope.
Local Open Scope Z_scope.

(** ** Links (signer.go) *)

Record Link := mkLink {
  Kind : string;
  TenantID : string;
  MessageID : string;
  Recipient : string;
  TargetURL : string
}.

Definition SignatureParam : string := "sig".
Definition trackingKindOpen : string := "open".
Definition trackingKindClick : string := "click".
Definition trackingKindUnsubscribe : string := "unsubscribe".
Definition bounceRefKind : string := "bounce".
Definition bounceRefVersion : string := "v1.".

Inductive linkError :=
| ErrMissingSignature
| ErrBadSignature
| ErrUnsupportedURL
| ErrNoKey.

Definition nul : ascii := "000"%char.

Definition canonical (l : Link) : string :=
  Join [Kind l; TenantID l; MessageID l; Recipient l; TargetURL l] (String nul "").

Section Signing.
(** [hmac.New(sha256.New, key)] over a text, [url.Parse] as the scheme and host
    it finds, and the [href] the HTML tokenizer of golang.org/x/net reads back. *)
Context (HMAC : string -> string -> string).
Context (ParseURL : string -> option (string * string)).
Context (tokenizedHref : string -> option string).

(** A [Signer] is its key; [SetKey] installs another. *)
Definition HasKey (key : string) : bool := negb (eqb key "").

Definition mac (key : string) (l : Link) : result linkError string :=
  if eqb key "" then Err ErrNoKey else Ok (HMAC key (canonical l)).

Definition Sign (key : string) (l : Link) : string :=
  match mac key l with
  | Err _ => ""
  | Ok sum => RawURLEncode sum
  end.

Definition Verify (key : string) (l : Link) (signature : string) : option linkError :=
  if eqb signature "" then Some ErrMissingSignature
  else
    match RawURLDecode signature with
    | None => Some ErrBadSignature
    | Some provided =>
        match mac key l with
        | Err e => Some e
        | Ok sum => if eqb provided sum then None else Some ErrBadSignature
        end
    end.

Definition ValidateTarget (raw : string) : option linkError :=
  match ParseURL raw with
  | None => Some ErrUnsupportedURL
  | Some (scheme, host) =>
      if negb (eqb (ToLower scheme) "http" || eqb (ToLower scheme) "https") then Some ErrUnsupportedURL
      else if eqb host "" then Some ErrUnsupportedURL
      else None
  end.

(** ** Bounce references (bounce_ref.go) *)

Definition bounceLink (tenant message recipient : string) : Link :=
  mkLink bounceRefKind tenant message (ToLower (TrimSpace recipient)) "".

Definition BounceRef (key tenant message recipient : string) : string :=
  let sig := Sign key (bounceLink tenant message recipient) in
  if eqb sig "" then "" else bounceRefVersion ++ message ++ "." ++ sig.

Definition VerifyBounceRef (key value tenant recipient : string) : result linkError string :=
  let v := TrimSpace value in
  if negb (HasPrefix v bounceRefVersion) then Err ErrBadSignature
  else
    match cut_last (TrimPrefix v bounceRefVersion) "."%char with
    | None => Err ErrMissingSignature
    | Some (message, sig) =>
        if eqb message "" || eqb sig "" then Err ErrMissingSignature
        else
          match Verify key (bounceLink tenant message recipient) sig with
          | Some e => Err e
          | None => Ok message
          end
    end.

(** ** Links in a body (links.go) *)

(** The whitespace [\s] of a pattern. *)
Definition re_space (c : ascii) : bool :=
  (code c =? 9) || (code c =? 10) || (code c =? 12) || (code c =? 13) || (code c =? 32).

Definition is_quote (c : ascii) : bool := (code c =? 34) || (code c =? 39).

(** What precedes the first quote, and what follows it. *)
Fixpoint until_quote (s : string) : option (string * string) :=
  match s with
  | "" => None
  | String c r =>
      if is_quote c then Some ("", r)
      else match until_quote r with
           | Some (v, t) => Some (String c v, t)
           | None => None
           end
  end.

(** [HrefPattern] at the start of [s]: "href" in any case, spaces, an equals
    sign, spaces, a quote, a value of at least one character, a quote.  The
    value and what follows the match. *)
Definition match_href (s : string) : option (string * string) :=
  match s with
  | String h (String r (String e (String f rest))) =>
      if negb (eqb (ToLower (String h (String r (String e (String f ""))))) "href") then None
      else
        match TrimLeftFunc re_space rest with
        | String q rest =>
            if negb (bool_decide (q = "="%char)) then None
            else
              match TrimLeftFunc re_space rest with
              | String q rest =>
                  if negb (is_quote q) then None
                  else
                    match until_quote rest with
                    | Some (String _ _ as v, t) => Some (v, t)
                    | _ => None
                    end
              | "" => None
              end
        | "" => None
        end
  | _ => None
  end.

(** A body cut at its matches, left to right: a character outside any match, or
    a matched attribute with its text and its value. *)
Inductive piece :=
| Plain (c : ascii)
| Href (text value : string).

(** [FindAllStringSubmatchIndex]; the fuel is the body's length, enough since
    every step takes a character. *)
Fixpoint pieces_fuel (fuel : nat) (s : string) : list piece :=
  match fuel, s with
  | S fuel, String c r =>
      match match_href s with
      | Some (v, t) =>
          Href (take_str (String.length s - String.length t) s) v :: pieces_fuel fuel t
      | None => Plain c :: pieces_fuel fuel r
      end
  | _, _ => []
  end.

Definition pieces (s : string) : list piece := pieces_fuel (String.length s) s.

(** Every ampersand begins "&amp;". *)
Fixpoint onlyAmpReferences (s : string) : bool :=
  match s with
  | "" => true
  | String c r =>
      if bool_decide (c = "&"%char) then HasPrefix r "amp;" && onlyAmpReferences r
      else onlyAmpReferences r
  end.

(** [strings.ReplaceAll s "&amp;" "&"]; [skip] counts the rest of a match. *)
Fixpoint replaceAmp_from (skip : nat) (s : string) : string :=
  match s with
  | "" => ""
  | String c r =>
      match skip with
      | S k => replaceAmp_from k r
      | O => if HasPrefix s "&amp;" then String "&"%char (replaceAmp_from 4 r)
             else String c (replaceAmp_from 0 r)
      end
  end.

Definition dquote : ascii := "034"%char.

Definition unescapeViaTokenizer (raw : string) : string := default raw (tokenizedHref raw).

Definition UnescapeHrefValue (raw : string) : string :=
  if negb (Contains raw "&") then raw
  else if Contains raw (String dquote "") then raw
  else if onlyAmpReferences raw then replaceAmp_from 0 raw
  else unescapeViaTokenizer raw.

(** The destinations of a list of pieces, those seen before left out. *)
Fixpoint targets_from (seen : gset string) (l : list piece) : list string :=
  match l with
  | [] => []
  | Plain _ :: rest => targets_from seen rest
  | Href _ v :: rest =>
      let target := UnescapeHrefValue v in
      match ValidateTarget target with
      | Some _ => targets_from seen rest
      | None =>
          if bool_decide (target ∈ seen) then targets_from seen rest
          else target :: targets_from ({[target]} ∪ seen) rest
      end
  end.

Definition LinkTargets (html : string) : list string := targets_from ∅ (pieces html).

(** ** Putting the links into a message (send_email_usecase.go) *)

(** Where the last "</body>" starts: what precedes it, and it with the rest. *)
Fixpoint before_last_body (s : string) : option (string * string) :=
  match s with
  | "" => None
  | String c r =>
      match before_last_body r with
      | Some (a, b) => Some (String c a, b)
      | None => if HasPrefix s "</body>" then Some ("", s) else None
      end
  end.

Definition quoted (s : string) : string := String dquote (s ++ String dquote "").

Definition signed_path (prefix tenant message recipient : string) : string :=
  prefix ++ tenant ++ "/" ++ message ++ "/" ++ RawURLEncode recipient.

Definition injectPixel (base key html tenant message recipient : string) : string :=
  let signature := Sign key (mkLink trackingKindOpen tenant message recipient "") in
  let pixel :=
    "<img src=" ++ quoted (base ++ signed_path "/track/open/" tenant message recipient ++ "?" ++
      SignatureParam ++ "=" ++ signature) ++
    " width=" ++ quoted "1" ++ " height=" ++ quoted "1" ++ " style=" ++ quoted "display:none" ++ ">" in
  match before_last_body html with
  | Some (a, b) => a ++ pixel ++ b
  | None => html ++ pixel
  end.

(** One piece of the body as [rewriteLinks] writes it. *)
Definition rewritePiece (base key tenant message recipient : string) (p : piece) : string :=
  match p with
  | Plain c => String c ""
  | Href text v =>
      let originalURL := UnescapeHrefValue v in
      match ValidateTarget originalURL with
      | Some _ => text
      | None =>
          let signature := Sign key (mkLink trackingKindClick tenant message recipient originalURL) in
          "href=" ++ quoted (base ++ signed_path "/track/click/" tenant message recipient ++ "?url=" ++
            QueryEscape originalURL ++ "&amp;" ++ SignatureParam ++ "=" ++ signature)
      end
  end.

Definition rewriteLinks (base key html tenant message recipient : string) : string :=
  String.concat "" (map (rewritePiece base key tenant message recipient) (pieces html)).

(** A nil signer is [None]. *)
Definition injectTracking (base : string) (signer : option string) (tenant message recipient html : string) : string :=
  match signer with
  | Some key =>
      if eqb base "" || negb (HasKey key) then html
      else rewriteLinks base key (injectPixel base key html tenant message recipient) tenant message recipient
  | None => html
  end.

(** The target [setUnsubscribeHeaders] hands to [SetOneClickUnsubscribe]. *)
Definition unsubscribeURL (base : string) (signer : option string) (tenant message recipient : string) :
    result string string :=
  if eqb base "" then Err "no base URL is configured, so no unsubscribe link can be built"
  else
    match signer with
    | Some key =>
        if negb (HasKey key) then Err "no tracking signer is configured"
        else
          let signature := Sign key (mkLink trackingKindUnsubscribe tenant message recipient "") in
          Ok (base ++ signed_path "/unsubscribe/" tenant message recipient ++ "?" ++
              SignatureParam ++ "=" ++ signature)
    | None => Err "no tracking signer is configured"
    end.

(** [setBounceRef]: the header's value, if it is set. *)
Definition bounceRefFor (ParseEmailAddress : string -> result string string) (signer : option string)
    (tenant message recipient : string) : option string :=
  match signer with
  | None => None
  | Some key =>
      let address := match ParseEmailAddress recipient with Ok a => a | Err _ => recipient end in
      let ref := BounceRef key tenant message address in
      if eqb ref "" then None else Some ref
  end.

(** ** The endpoints (tracking_handler.go, unsubscribe_handler.go) *)

Record HTTPRequest := mkHTTPRequest {
  Method : string;
  Path : string;
  RawQuery : string
}.

Record trackingRequest := mkTrackingRequest {
  t_tenant : string;
  t_message : string;
  t_recipient : string;
  t_signature : string
}.

Definition parseSignedRequest (r : HTTPRequest) (prefixSegments : nat) : option trackingRequest :=
  let parts := Split (Trim (Path r) "/") "/"%char in
  match parts !! prefixSegments, parts !! (prefixSegments + 1)%nat with
  | Some tenant, Some message =>
      let sig := query_get (RawQuery r) SignatureParam in
      match parts !! (prefixSegments + 2)%nat with
      | None => Some (mkTrackingRequest tenant message "" sig)
      | Some enc =>
          match RawURLDecode enc with
          | None => None
          | Some recipient => Some (mkTrackingRequest tenant message recipient sig)
          end
      end
  | _, _ => None
  end.

Definition parseTrackingRequest (r : HTTPRequest) : option trackingRequest := parseSignedRequest r 2.

(** A call of [RecordEvent] the endpoint makes, with the clicked URL. *)
Record recorded := mkRecorded {
  rec_tenant : string;
  rec_message : string;
  rec_type : Classify.EmailEventType;
  rec_recipient : string;
  rec_url : string
}.

Inductive response :=
| Pixel
| Redirect (url : string)
| HTTPError (status : Z)
| ConfirmPage (recipient : string)
| UnsubscribedPage.

(** The bodies [SentMessages] reads back; [None] when it is not wired, and an
    error reads as no message. *)
Definition Sent : Type := option (string -> string -> option Events.EmailMessage).

Definition wasSentInThisMessage (messages : Sent) (req : trackingRequest) (target : string) : bool :=
  match messages with
  | None => false
  | Some getMessage =>
      if eqb (t_tenant req) "" || eqb (t_message req) "" then false
      else
        match getMessage (t_tenant req) (t_message req) with
        | None => false
        | Some msg => bool_decide (target ∈ LinkTargets (Events.M_BodyHTML msg))
        end
  end.

Definition HandleOpen (key : string) (r : HTTPRequest) : list recorded * response :=
  match parseTrackingRequest r with
  | None => ([], Pixel)
  | Some req =>
      match Verify key (mkLink trackingKindOpen (t_tenant req) (t_message req) (t_recipient req) "") (t_signature req) with
      | Some _ => ([], Pixel)
      | None => ([mkRecorded (t_tenant req) (t_message req) Classify.OPENED (t_recipient req) ""], Pixel)
      end
  end.

Definition HandleClick (key : string) (messages : Sent) (r : HTTPRequest) : list recorded * response :=
  match parseTrackingRequest r with
  | None => ([], HTTPError 400)
  | Some req =>
      let targetURL := query_get (RawQuery r) "url" in
      if eqb targetURL "" then ([], HTTPError 400)
      else
        let link := mkLink trackingKindClick (t_tenant req) (t_message req) (t_recipient req) targetURL in
        let genuine :=
          match Verify key link (t_signature req) with
          | None => true
          | Some _ => wasSentInThisMessage messages req targetURL
          end in
        if negb genuine then ([], HTTPError 403)
        else
          match ValidateTarget targetURL with
          | Some _ => ([], HTTPError 400)
          | None =>
              ([mkRecorded (t_tenant req) (t_message req) Classify.CLICKED (t_recipient req) targetURL],
               Redirect targetURL)
          end
  end.

(** [unsubscribe]; what [Add] answers is only logged.  [events] says whether an
    event use case is wired. *)
Definition unsubscribe (norm : string -> string) (f : fault) (uuid : string) (now : Z) (events : bool)
    (req : trackingRequest) (t : Suppression.Table) : Suppression.Table * list recorded * response :=
  if eqb (t_recipient req) "" then (t, [], HTTPError 400)
  else
    let '(t', _) :=
      Suppression.Add norm f uuid now (t_tenant req) (t_recipient req) "Unsubscribed via one-click" t in
    (t', if events then [mkRecorded (t_tenant req) (t_message req) Classify.UNSUBSCRIBED (t_recipient req) ""] else [],
     UnsubscribedPage).

Definition ServeUnsubscribe (norm : string -> string) (f : fault) (uuid : string) (now : Z) (events : bool)
    (key : string) (r : HTTPRequest) (t : Suppression.Table) : Suppression.Table * list recorded * response :=
  match parseSignedRequest r 1 with
  | None => (t, [], HTTPError 400)
  | Some req =>
      match Verify key (mkLink trackingKindUnsubscribe (t_tenant req) (t_message req) (t_recipient req) "")
              (t_signature req) with
      | Some _ => (t, [], HTTPError 403)
      | None =>
          if eqb (Method r) "POST" then unsubscribe norm f uuid now events req t
          else if eqb (Method r) "GET" || eqb (Method r) "HEAD" then (t, [], ConfirmPage (t_recipient req))
          else (t, [], HTTPError 405)
      end
  end.

(** ** What a signature binds *)

Definition no_char (c : ascii) (s : string) : Prop := str_all (fun d => negb (bool_decide (d = c))) s = true.

(** No field holds the separator: ids are UUIDs, an address has no control
    character and [url.Parse] refuses them. *)
Definition clean (l : Link) : Prop :=
  no_char nul (Kind l) /\ no_char nul (TenantID l) /\ no_char nul (MessageID l) /\
  no_char nul (Recipient l) /\ no_char nul (TargetURL l).

(** The two texts do not collide under the key. *)
Definition no_collision (key a b : string) : Prop := HMAC key a = HMAC key b -> a = b.

(** A digest has bytes (32 of them). *)
Definition has_bytes (key : string) : Prop := forall a, HMAC key a <> "".

Lemma Split_app sep a r : Split (a ++ String sep r) sep = (Split a sep ++ Split r sep)%list.
Proof.
  induction a as [|c a IH]; simpl; [by rewrite bool_decide_eq_true_2|].
  destruct (bool_decide (c = sep)); [by rewrite IH|]. rewrite IH. pose proof (Split_nonempty a sep).
  by destruct (Split a sep).
Qed.

Lemma Split_single a sep x : Split a sep = [x] -> a = x.
Proof. intros H. rewrite <- (Join_Split a sep), H. done. Qed.

Lemma canonical_Split l : Split (canonical l) nul =
  (Split (Kind l) nul ++ Split (TenantID l) nul ++ Split (MessageID l) nul ++ Split (Recipient l) nul ++
   Split (TargetURL l) nul)%list.
Proof.
  change (canonical l) with (Kind l ++ String nul (TenantID l ++ String nul (MessageID l ++ String nul
    (Recipient l ++ String nul (TargetURL l))))). by rewrite !Split_app.
Qed.

(** A clean link is the only one with its canonical text: an outsider who moves
    bytes between the fields of a signed link gets another text. *)
Lemma canonical_inj l l' : clean l -> canonical l = canonical l' -> l = l'.
Proof.
  intros (H1 & H2 & H3 & H4 & H5) E. apply (f_equal (fun s => Split s nul)) in E. rewrite !canonical_Split in E.
  rewrite (Split_whole _ _ H1), (Split_whole _ _ H2), (Split_whole _ _ H3), (Split_whole _ _ H4),
    (Split_whole _ _ H5) in E. destruct l as [k t m r u], l' as [k' t' m' r' u']. cbn [Kind TenantID MessageID Recipient TargetURL] in *.
  pose proof (Split_nonempty k' nul) as N1. pose proof (Split_nonempty t' nul) as N2.
  pose proof (Split_nonempty m' nul) as N3. pose proof (Split_nonempty r' nul) as N4.
  pose proof (Split_nonempty u' nul) as N5.
  destruct (Split k' nul) as [|a1 l1] eqn:E1; [done|]. destruct (Split t' nul) as [|a2 l2] eqn:E2; [done|].
  destruct (Split m' nul) as [|a3 l3] eqn:E3; [done|]. destruct (Split r' nul) as [|a4 l4] eqn:E4; [done|].
  destruct (Split u' nul) as [|a5 l5] eqn:E5; [done|].
  assert (length l1 = 0 /\ length l2 = 0 /\ length l3 = 0 /\ length l4 = 0 /\ length l5 = 0)%nat as (L1 & L2 & L3 & L4 & L5).
  { apply (f_equal length) in E. simpl in E. rewrite !length_app in E. simpl in E. rewrite !length_app in E. simpl in E.
    rewrite !length_app in E. simpl in E. rewrite !length_app in E. simpl in E. lia. }
  destruct l1, l2, l3, l4, l5; try done. apply Split_single in E1, E2, E3, E4, E5. by simplify_eq/=.
Qed.

Lemma Sign_key key l : key <> "" -> Sign key l = RawURLEncode (HMAC key (canonical l)).
Proof. intros Hk. unfold Sign, mac. destruct (eqb key "") eqn:E; [by apply eqb_true in E|done]. Qed.

Lemma b64_nonempty s : s <> "" -> RawURLEncode s <> "".
Proof. destruct s as [|a [|b [|c r]]]; simpl; done. Qed.

Lemma Verify_Sign key l l' : key <> "" -> has_bytes key ->
  Verify key l' (Sign key l) = None <-> HMAC key (canonical l) = HMAC key (canonical l').
Proof.
  intros Hk Hne. rewrite Sign_key by done. unfold Verify.
  destruct (eqb (RawURLEncode _) "") eqn:E; [apply eqb_true in E; by apply b64_nonempty in E|].
  rewrite b64_roundtrip. unfold mac. destruct (eqb key "") eqn:E0; [by apply eqb_true in E0|].
  destruct (eqb (HMAC key (canonical l)) (HMAC key (canonical l'))) eqn:E1.
  - apply eqb_true in E1. done.
  - split; [done|]. intros E2. rewrite E2, eqb_refl in E1. done.
Qed.

(** A signature verifies for the link it was made for and for no other. *)
Lemma Verify_Sign_iff key l l' :
  key <> "" -> has_bytes key -> clean l -> no_collision key (canonical l) (canonical l') ->
  Verify key l' (Sign key l) = None <-> l' = l.
Proof.
  intros Hk Hb Hc Hn. rewrite Verify_Sign by done. split; [|by intros ->].
  intros E. symmetry. by apply canonical_inj, Hn.
Qed.

Lemma TrimRight_keep p a b :
  b <> "" -> str_all (fun c => negb (p c)) b = true -> TrimRightFunc p (a ++ b) = a ++ b.
Proof.
  intros Hne Hb. assert (Hr : TrimRightFunc p b = b).
  { clear a Hne. induction b as [|c b IH]; [done|]. cbn [str_all] in Hb. apply andb_true_iff in Hb as [Hc Hb].
    cbn [TrimRightFunc]. rewrite (IH Hb). destruct b; [|done]. by destruct (p c). }
  induction a as [|c a IH]; [exact Hr|]. cbn [String.append TrimRightFunc]. rewrite IH.
  destruct (a ++ b) eqn:E; [|done]. by destruct a, b.
Qed.

Lemma TrimSpace_keep c a b :
  is_space c = false -> b <> "" -> str_all (fun c => negb (is_space c)) b = true ->
  TrimSpace (String c (a ++ b)) = String c (a ++ b).
Proof.
  intros Hc Hne Hb. unfold TrimSpace, TrimFunc. cbn [TrimLeftFunc]. rewrite Hc.
  change (String c (a ++ b)) with (String c a ++ b). by apply TrimRight_keep.
Qed.

Lemma url64_solid s : str_all url64 s = true -> str_all (fun c => negb (is_space c)) s = true.
Proof. apply str_all_weaken. intros c. destruct c as [[] [] [] [] [] [] [] []]; vm_compute; done. Qed.

Lemma Sign_letters key l : str_all url64 (Sign key l) = true.
Proof. unfold Sign. destruct (mac key l); [apply RawURLEncode_letters|done]. Qed.

Lemma bounce_value_trim message sig : sig <> "" -> str_all url64 sig = true ->
  TrimSpace (bounceRefVersion ++ message ++ "." ++ sig) = bounceRefVersion ++ message ++ "." ++ sig.
Proof.
  intros Hne Hs. pose proof (TrimSpace_keep "v" ("1." ++ message ++ ".") sig eq_refl Hne (url64_solid _ Hs)) as H.
  rewrite !string_app_assoc in H. exact H.
Qed.

(** A delivery report's reference names one copy.  A reference quoted back
    verifies exactly when the report came to the mailbox of the tenant that sent
    the copy and names the recipient the copy went to, in any case and spacing;
    it then yields the message it was minted for.  Neither another tenant's
    message nor another recipient of the same message can be reported with it. *)
Theorem bounce_ref_names_its_copy key tenant message recipient tenant' recipient' found :
  key <> "" -> has_bytes key -> message <> "" -> clean (bounceLink tenant message recipient) ->
  no_collision key (canonical (bounceLink tenant message recipient)) (canonical (bounceLink tenant' message recipient')) ->
  VerifyBounceRef key (BounceRef key tenant message recipient) tenant' recipient' = Ok found <->
  found = message /\ tenant' = tenant /\ ToLower (TrimSpace recipient') = ToLower (TrimSpace recipient).
Proof.
  intros Hk Hb Hm Hc Hn. unfold BounceRef.
  assert (Hs : Sign key (bounceLink tenant message recipient) <> "") by (rewrite Sign_key by done; by apply b64_nonempty).
  pose proof (Sign_letters key (bounceLink tenant message recipient)) as Hl.
  pose proof (Verify_Sign_iff key _ (bounceLink tenant' message recipient') Hk Hb Hc Hn) as Hv.
  destruct (Sign key (bounceLink tenant message recipient)) as [|c0 r0] eqn:Es; [done|]. rewrite <- Es in *.
  destruct (eqb (Sign key _) "") eqn:E; [by apply eqb_true in E|]. unfold VerifyBounceRef.
  rewrite bounce_value_trim by done. unfold HasPrefix. rewrite prefix_app, TrimPrefix_app. cbn [negb].
  change (message ++ "." ++ ?x) with (message ++ String "."%char x). rewrite cut_last_app by (by apply (cut_last_none url64)).
  destruct (eqb message "") eqn:E1; [by apply eqb_true in E1|]. rewrite E. cbn [orb].
  destruct (Verify key (bounceLink tenant' message recipient') _) as [e|] eqn:Ev.
  - split; [done|]. intros (-> & -> & Hr). assert (Some e = None); [|done]. apply Hv. unfold bounceLink. by rewrite Hr.
  - assert (E2 : bounceLink tenant' message recipient' = bounceLink tenant message recipient) by by apply Hv.
    injection E2 as -> E2. rewrite E2. split; [by intros [= <-]|by intros (-> & _ & _)].
Qed.

(** ** Reading a link back *)

Lemma TrimRight_drop p a c : p c = true -> TrimRightFunc p (a ++ String c "") = TrimRightFunc p a.
Proof.
  intros Hc. induction a as [|d a IH]; [by simpl; rewrite Hc|]. cbn [String.append TrimRightFunc]. by rewrite IH.
Qed.

Lemma slash_cut c : in_cutset "/" c = bool_decide (c = "/"%char).
Proof.
  unfold in_cutset. apply bool_decide_ext. change (String.list_ascii_of_string "/") with ["/"%char].
  apply list_elem_of_singleton.
Qed.

Lemma no_slash_solid s : no_char "/" s -> str_all (fun c => negb (in_cutset "/" c)) s = true.
Proof. apply str_all_weaken. intros c. by rewrite slash_cut. Qed.

Lemma slash_app x : "/" ++ x = String "/"%char x.
Proof. done. Qed.

(** The segments of a path of the form this server writes. *)
Lemma signed_segments c pre tenant message enc :
  c <> "/"%char -> no_char "/" tenant -> no_char "/" message -> message <> "" -> no_char "/" enc ->
  Split (Trim ("/" ++ String c pre ++ "/" ++ tenant ++ "/" ++ message ++ "/" ++ enc) "/") "/" =
  (Split (String c pre) "/" ++ [tenant; message] ++ (if eqb enc "" then [] else [enc]))%list.
Proof.
  intros Hc Ht Hm Hne He. unfold Trim, TrimFunc. cbn [String.append TrimLeftFunc]. rewrite !slash_cut.
  rewrite bool_decide_eq_true_2, bool_decide_eq_false_2 by done.
  change (String c (pre ++ String "/" (tenant ++ String "/" (message ++ String "/" enc))))
    with (String c pre ++ String "/" (tenant ++ String "/" (message ++ String "/" enc))).
  destruct (eqb enc "") eqn:E.
  - apply eqb_true in E as ->.
    replace (String c pre ++ String "/" (tenant ++ String "/" (message ++ String "/" "")))
      with (((String c pre ++ "/") ++ (tenant ++ "/") ++ message) ++ String "/"%char "")
      by (by rewrite !string_app_assoc).
    rewrite TrimRight_drop by by rewrite slash_cut. rewrite <- (string_app_assoc _ (tenant ++ "/")).
    rewrite TrimRight_keep by (try done; by apply no_slash_solid). rewrite !string_app_assoc.
    rewrite !slash_app, Split_app, Split_head by done. by rewrite (Split_whole "/" message).
  - assert (Hn : enc <> "") by (intros ->; done).
    replace (String c pre ++ String "/" (tenant ++ String "/" (message ++ String "/" enc)))
      with ((String c pre ++ "/" ++ tenant ++ "/" ++ message ++ "/") ++ enc) by (by rewrite !string_app_assoc).
    rewrite TrimRight_keep by (try done; by apply no_slash_solid). rewrite !string_app_assoc.
    rewrite !slash_app, Split_app, !Split_head by done. by rewrite (Split_whole "/" enc).
Qed.

Lemma url64_no_slash s : str_all url64 s = true -> no_char "/" s.
Proof. by apply str_all_ne. Qed.

(** What the endpoints read from a path this server wrote. *)
Lemma parse_signed c pre n m q tenant message recipient :
  c <> "/"%char -> length (Split (String c pre) "/") = n ->
  no_char "/" tenant -> no_char "/" message -> message <> "" ->
  parseSignedRequest (mkHTTPRequest m (signed_path ("/" ++ String c pre ++ "/") tenant message recipient) q) n =
  Some (mkTrackingRequest tenant message recipient (query_get q SignatureParam)).
Proof.
  intros Hc Hn Ht Hm Hne. unfold parseSignedRequest, signed_path. cbn [Path RawQuery].
  replace (("/" ++ String c pre ++ "/") ++ tenant ++ "/" ++ message ++ "/" ++ RawURLEncode recipient)
    with ("/" ++ String c pre ++ "/" ++ tenant ++ "/" ++ message ++ "/" ++ RawURLEncode recipient)
    by (by rewrite !string_app_assoc).
  rewrite signed_segments by (try done; apply url64_no_slash, RawURLEncode_letters).
  rewrite !(lookup_app_r (Split (String c pre) "/")) by lia.
  replace (n - length (Split (String c pre) "/"))%nat with 0%nat by lia.
  replace (n + 1 - length (Split (String c pre) "/"))%nat with 1%nat by lia.
  replace (n + 2 - length (Split (String c pre) "/"))%nat with 2%nat by lia. cbn [lookup app list_lookup].
  destruct (eqb (RawURLEncode recipient) "") eqn:E; simpl.
  - apply eqb_true in E. pose proof (b64_roundtrip URLAlphabet false recipient) as Hr. rewrite E in Hr. by injection Hr as <-.
  - by rewrite b64_roundtrip.
Qed.

(** What they read from a query this server wrote. *)
Lemma query_sig s : str_all url64 s = true -> query_get (SignatureParam ++ "=" ++ s) SignatureParam = s.
Proof.
  intros Hs. assert (Hu : str_all unreserved s = true) by (eapply str_all_weaken; [apply url64_unreserved|done]).
  unfold query_get, ParseQuery. change (SignatureParam ++ "=" ++ s) with ("sig" ++ String "=" s).
  rewrite Split_whole by (rewrite str_all_app; cbn [str_all]; by rewrite (str_all_ne unreserved)).
  cbn [omap list_omap]. rewrite (query_pair_built "sig" s s); [|done..|by apply unreserved_escaped|by apply QueryUnescape_plain].
  by cbn.
Qed.

Lemma query_click u s : str_all url64 s = true ->
  query_get ("url=" ++ QueryEscape u ++ "&" ++ SignatureParam ++ "=" ++ s) "url" = u /\
  query_get ("url=" ++ QueryEscape u ++ "&" ++ SignatureParam ++ "=" ++ s) SignatureParam = s.
Proof.
  intros Hs. assert (Hu : str_all unreserved s = true) by (eapply str_all_weaken; [apply url64_unreserved|done]).
  unfold query_get, ParseQuery.
  replace ("url=" ++ QueryEscape u ++ "&" ++ SignatureParam ++ "=" ++ s)
    with (("url" ++ String "=" (QueryEscape u)) ++ String "&" ("sig" ++ String "=" s)) by (by rewrite !string_app_assoc).
  rewrite Split_head by (rewrite str_all_app; cbn [str_all]; by rewrite (str_all_ne escaped) by (done || apply QueryEscape_escaped)).
  rewrite Split_whole by (rewrite str_all_app; cbn [str_all]; by rewrite (str_all_ne unreserved)).
  cbn [omap list_omap].
  rewrite (query_pair_built "url" _ u); [|done..|apply QueryEscape_escaped|apply QueryUnescape_QueryEscape].
  rewrite (query_pair_built "sig" s s); [|done..|by apply unreserved_escaped|by apply QueryUnescape_plain].
  by cbn.
Qed.

(** The query of a click link. *)
Definition click_query (u sig : string) : string := "url=" ++ QueryEscape u ++ "&" ++ SignatureParam ++ "=" ++ sig.

Definition click_request (tenant message recipient u sig : string) : HTTPRequest :=
  mkHTTPRequest "GET" (signed_path "/track/click/" tenant message recipient) (click_query u sig).

(** [url.Parse] finds no host in nothing. *)
Definition empty_has_no_host : Prop := forall scheme host, ParseURL "" = Some (scheme, host) -> host = "".

Lemma valid_nonempty u : empty_has_no_host -> ValidateTarget u = None -> eqb u "" = false.
Proof.
  intros He Hu. destruct (eqb u "") eqn:E; [|done]. apply eqb_true in E as ->. unfold ValidateTarget in Hu.
  destruct (ParseURL "") as [[scheme host]|] eqn:Ep; [|done]. rewrite (He _ _ Ep) in Hu.
  by destruct (negb _).
Qed.

(** The click endpoint on a link this server wrote, whatever key it has now. *)
Lemma HandleClick_written key' messages tenant message recipient u sig :
  no_char "/" tenant -> no_char "/" message -> message <> "" -> str_all url64 sig = true ->
  empty_has_no_host -> ValidateTarget u = None ->
  HandleClick key' messages (click_request tenant message recipient u sig) =
  if match Verify key' (mkLink trackingKindClick tenant message recipient u) sig with
     | None => true
     | Some _ => wasSentInThisMessage messages (mkTrackingRequest tenant message recipient sig) u
     end
  then ([mkRecorded tenant message Classify.CLICKED recipient u], Redirect u)
  else ([], HTTPError 403).
Proof.
  intros Ht Hm Hne Hs He Hu. unfold HandleClick, parseTrackingRequest, click_request.
  rewrite (parse_signed "t" "rack/click" 2) by done. cbn [RawQuery t_tenant t_message t_recipient t_signature].
  destruct (query_click u sig Hs) as [Eu Es]. unfold click_query. rewrite Eu, Es, (valid_nonempty u He Hu).
  destruct (match Verify _ _ _ with Some _ => _ | None => _ end); cbn [negb]; [by rewrite Hu|done].
Qed.

(** What a mail client reads in an attribute with one "&amp;" in it. *)
Lemma replaceAmp_none s r : no_char "&" s -> replaceAmp_from 0 (s ++ r) = s ++ replaceAmp_from 0 r.
Proof.
  unfold no_char. induction s as [|c s IH]; [done|]. cbn [str_all]. intros [Hc Hs]%andb_true_iff.
  cbn [String.append replaceAmp_from]. rewrite (IH Hs).
  destruct (HasPrefix (String c (s ++ r)) "&amp;") eqn:E; [|done].
  apply HasPrefix_spec in E as [t Et]. injection Et as -> _. done.
Qed.

Lemma onlyAmp_none s r : no_char "&" s -> onlyAmpReferences (s ++ r) = onlyAmpReferences r.
Proof.
  unfold no_char. induction s as [|c s IH]; [done|]. cbn [str_all]. intros [Hc Hs]%andb_true_iff.
  cbn [String.append onlyAmpReferences]. destruct (bool_decide _); [done|]. by apply IH.
Qed.

Lemma unescape_amp a b :
  no_char "&" a -> no_char "&" b -> no_char dquote a -> no_char dquote b ->
  UnescapeHrefValue (a ++ "&amp;" ++ b) = a ++ "&" ++ b.
Proof.
  intros Ha Hb Qa Qb. unfold UnescapeHrefValue.
  assert (E1 : Contains (a ++ "&amp;" ++ b) "&" = true) by (apply Contains_spec; by exists a, ("amp;" ++ b)).
  rewrite E1. cbn [negb].
  rewrite (str_all_not_in (fun d => negb (bool_decide (d = dquote)))); [|done|].
  2: { rewrite !str_all_app. unfold no_char in *. by rewrite Qa, Qb. }
  rewrite onlyAmp_none by done. rewrite replaceAmp_none by done.
  assert (Ob : onlyAmpReferences b = true) by (rewrite <- (string_app_nil b), onlyAmp_none by done; done).
  assert (Rb : replaceAmp_from 0 b = b) by (rewrite <- (string_app_nil b) at 1; rewrite replaceAmp_none by done; by rewrite string_app_nil).
  assert (O : onlyAmpReferences ("&amp;" ++ b) = true).
  { change (HasPrefix ("amp;" ++ b) "amp;" && onlyAmpReferences b = true). unfold HasPrefix. by rewrite prefix_app, Ob. }
  assert (R : replaceAmp_from 0 ("&amp;" ++ b) = "&" ++ replaceAmp_from 0 b).
  { change (replaceAmp_from 0 ("&amp;" ++ b)) with
      (if HasPrefix ("&amp;" ++ b) "&amp;" then "&" ++ replaceAmp_from 0 b else "&" ++ replaceAmp_from 0 ("amp;" ++ b)).
    unfold HasPrefix. by rewrite prefix_app. }
  by rewrite O, R, Rb.
Qed.

Lemma quiet_escaped s c : escaped c = false -> str_all escaped s = true -> no_char c s.
Proof. intros. by eapply str_all_ne. Qed.

Lemma url64_escaped s : str_all url64 s = true -> str_all escaped s = true.
Proof. intros H. apply unreserved_escaped. eapply str_all_weaken; [apply url64_unreserved|done]. Qed.

Lemma no_char_app c a b : no_char c (a ++ b) <-> no_char c a /\ no_char c b.
Proof. unfold no_char. rewrite str_all_app. apply andb_true_iff. Qed.

(** C35: a tracked link takes the reader where the author's link went.  Every
    web link of a body is replaced by an attribute; what a mail client reads
    from that attribute is the click endpoint's address with a path and a query;
    and requesting those redirects to the original destination and records one
    click, for this tenant, message and recipient.  That holds while the key
    that signed the link is in use, and also under any later key as long as the
    stored message still holds the destination. *)
Theorem tracked_link_returns base key key' messages tenant message recipient html text v :
  key <> "" -> has_bytes key -> empty_has_no_host ->
  no_char "/" tenant -> no_char "/" message -> message <> "" ->
  no_char "&" (base ++ tenant ++ message) -> no_char dquote (base ++ tenant ++ message) ->
  Href text v ∈ pieces html -> ValidateTarget (UnescapeHrefValue v) = None ->
  (key' = key \/ exists get msg, messages = Some get /\ tenant <> "" /\ get tenant message = Some msg /\
     UnescapeHrefValue v ∈ LinkTargets (Events.M_BodyHTML msg)) ->
  let u := UnescapeHrefValue v in
  exists before after attr sig,
    rewriteLinks base key html tenant message recipient = before ++ "href=" ++ quoted attr ++ after /\
    UnescapeHrefValue attr =
      base ++ signed_path "/track/click/" tenant message recipient ++ "?" ++ click_query u sig /\
    HandleClick key' messages (click_request tenant message recipient u sig) =
      ([mkRecorded tenant message Classify.CLICKED recipient u], Redirect u).
Proof.
  intros Hk Hb He Ht Hm Hne Hamp Hq Hp Hv Hk' u.
  set (sig := Sign key (mkLink trackingKindClick tenant message recipient u)).
  assert (Hs : str_all url64 sig = true) by apply Sign_letters.
  apply list_elem_of_split in Hp as (l1 & l2 & Hp).
  exists (String.concat "" (map (rewritePiece base key tenant message recipient) l1)),
    (String.concat "" (map (rewritePiece base key tenant message recipient) l2)),
    ((base ++ signed_path "/track/click/" tenant message recipient ++ "?url=" ++ QueryEscape u) ++
     "&amp;" ++ SignatureParam ++ "=" ++ sig), sig.
  split_and!.
  - unfold rewriteLinks. rewrite Hp, map_app, concat_app_nosep. cbn [map]. rewrite concat_cons_nosep.
    f_equal. cbn [rewritePiece]. rewrite Hv. fold u. fold sig. unfold quoted. by rewrite !string_app_assoc.
  - rewrite !no_char_app in Hamp, Hq. destruct Hamp as (? & ? & ?), Hq as (? & ? & ?).
    assert (P : forall c, escaped c = false -> no_char c (SignatureParam ++ "=") -> no_char c "/track/click//?url=" ->
      no_char c base -> no_char c tenant -> no_char c message ->
      no_char c (base ++ signed_path "/track/click/" tenant message recipient ++ "?url=" ++ QueryEscape u) /\
      no_char c (SignatureParam ++ "=" ++ sig)).
    { intros c Hc Hc1 Hc2 ? ? ?. pose proof (quiet_escaped _ c Hc (QueryEscape_escaped u)).
      pose proof (quiet_escaped _ c Hc (url64_escaped _ Hs)).
      pose proof (quiet_escaped _ c Hc (url64_escaped _ (RawURLEncode_letters recipient))).
      change "/track/click//?url=" with ("/track/click/" ++ "/" ++ "?url=") in Hc2.
      unfold signed_path. rewrite !no_char_app in *. tauto. }
    destruct (P "&"%char) as [? ?]; try done. destruct (P dquote) as [? ?]; try done.
    rewrite unescape_amp by done. unfold click_query. by rewrite !string_app_assoc.
  - rewrite HandleClick_written by done. destruct Hk' as [->|(get & msg & -> & Htn & Hg & Hl)].
    + assert (E : Verify key (mkLink trackingKindClick tenant message recipient u) sig = None)
        by (by apply Verify_Sign). by rewrite E.
    + destruct (Verify _ _ _); [|done]. unfold wasSentInThisMessage. cbn [t_tenant t_message].
      destruct (eqb tenant "") eqn:E1; [by apply eqb_true in E1|].
      destruct (eqb message "") eqn:E2; [by apply eqb_true in E2|]. simpl. rewrite Hg.
      by rewrite bool_decide_eq_true_2.
Qed.

(** The links a click, an open or an unsubscribe request stands for. *)
Definition presented (kind : string) (req : trackingRequest) (target : string) : Link :=
  mkLink kind (t_tenant req) (t_message req) (t_recipient req) target.

(** [minted] are the links signed with the key; what an outsider can put in a
    request is one of their signatures. *)
Definition held_signature (key : string) (minted : list Link) (l : Link) (sig : string) : Prop :=
  exists l0, l0 ∈ minted /\ sig = Sign key l0 /\ clean l0 /\ no_collision key (canonical l0) (canonical l).

Lemma held_verifies key minted l sig :
  key <> "" -> has_bytes key -> held_signature key minted l sig -> Verify key l sig = None -> l ∈ minted.
Proof. intros Hk Hb (l0 & Hin & -> & Hc & Hn) Hv. by apply Verify_Sign_iff in Hv as ->. Qed.

(** The click endpoint is no open redirect.  Whatever is requested with the
    signatures of minted links, a redirect goes to an http or https address
    which this server signed into exactly this tenant's, message's and
    recipient's link, or which the stored message of that tenant and id holds;
    and it records one click, for what the request names. *)
Theorem redirects_only_where_sent key minted messages r effs u :
  key <> "" -> has_bytes key ->
  (forall req, parseTrackingRequest r = Some req ->
     held_signature key minted (presented trackingKindClick req (query_get (RawQuery r) "url")) (t_signature req)) ->
  HandleClick key messages r = (effs, Redirect u) ->
  ValidateTarget u = None /\
  exists req, parseTrackingRequest r = Some req /\
    effs = [mkRecorded (t_tenant req) (t_message req) Classify.CLICKED (t_recipient req) u] /\
    (presented trackingKindClick req u ∈ minted \/
     exists get msg, messages = Some get /\ get (t_tenant req) (t_message req) = Some msg /\
       u ∈ LinkTargets (Events.M_BodyHTML msg)).
Proof.
  intros Hk Hb Hheld. unfold HandleClick. destruct (parseTrackingRequest r) as [req|] eqn:Ep; [|done].
  specialize (Hheld req eq_refl). set (t := query_get (RawQuery r) "url") in *.
  destruct (eqb t ""); [done|]. fold (presented trackingKindClick req t).
  destruct (Verify key (presented trackingKindClick req t) (t_signature req)) eqn:Ev.
  - destruct (wasSentInThisMessage messages req t) eqn:Ew; [|done]. cbn [negb].
    destruct (ValidateTarget t) eqn:Et; [done|]. intros [= <- <-]. split; [done|]. exists req. split_and!; [done..|right].
    unfold wasSentInThisMessage in Ew. destruct messages as [get|]; [|done]. destruct (_ || _); [done|].
    destruct (get _ _) as [msg|] eqn:Eg; [|done]. apply bool_decide_eq_true in Ew. eauto 10.
  - cbn [negb]. destruct (ValidateTarget t) eqn:Et; [done|]. intros [= <- <-]. split; [done|]. exists req.
    split_and!; [done..|left]. by eapply held_verifies.
Qed.

(** An unsigned click is recorded for anyone.  While a message is stored,
    a click request for a destination in it is followed and recorded whatever
    its signature, under whichever recipient the request writes in its path. *)
Theorem unsigned_click_names_anyone key get tenant message msg u anyone sig :
  no_char "/" tenant -> no_char "/" message -> message <> "" -> tenant <> "" -> str_all url64 sig = true ->
  empty_has_no_host -> ValidateTarget u = None ->
  get tenant message = Some msg -> u ∈ LinkTargets (Events.M_BodyHTML msg) ->
  HandleClick key (Some get) (click_request tenant message anyone u sig) =
  ([mkRecorded tenant message Classify.CLICKED anyone u], Redirect u).
Proof.
  intros Ht Hm Hne Htn Hs He Hv Hg Hu. rewrite HandleClick_written by done.
  destruct (Verify _ _ _); [|done]. unfold wasSentInThisMessage. cbn [t_tenant t_message].
  destruct (eqb tenant "") eqn:E1; [by apply eqb_true in E1|].
  destruct (eqb message "") eqn:E2; [by apply eqb_true in E2|]. simpl. by rewrite Hg, bool_decide_eq_true_2.
Qed.

Definition unsubscribe_request (method tenant message recipient sig : string) : HTTPRequest :=
  mkHTTPRequest method (signed_path "/unsubscribe/" tenant message recipient) (SignatureParam ++ "=" ++ sig).

(** One-click unsubscribe acts for its own link and only when it is posted.
    A request changes the list, or records anything, only if it is a POST with
    the signature of a link minted for that tenant, message and recipient, and
    then the list changes as adding that recipient does.  The link this server
    writes into a message does suppress its recipient when it is posted, and
    fetching it changes nothing. *)
Theorem unsubscribe_acts_for_its_link norm f uuid now events key minted r t t' effs resp
    tenant message recipient signer base url :
  key <> "" -> has_bytes key ->
  (forall req, parseSignedRequest r 1 = Some req ->
     held_signature key minted (presented trackingKindUnsubscribe req "") (t_signature req)) ->
  ServeUnsubscribe norm f uuid now events key r t = (t', effs, resp) ->
  ((t', effs) = (t, []) \/
   Method r = "POST" /\ exists req, parseSignedRequest r 1 = Some req /\ t_recipient req <> "" /\
     presented trackingKindUnsubscribe req "" ∈ minted /\
     t' = (Suppression.Add norm f uuid now (t_tenant req) (t_recipient req) "Unsubscribed via one-click" t).1) /\
  (no_char "/" tenant -> no_char "/" message -> message <> "" -> recipient <> "" -> signer = Some key ->
   unsubscribeURL base signer tenant message recipient = Ok url ->
   exists sig, url = base ++ signed_path "/unsubscribe/" tenant message recipient ++ "?" ++ SignatureParam ++ "=" ++ sig /\
     (forall t, ServeUnsubscribe norm f uuid now events key (unsubscribe_request "GET" tenant message recipient sig) t =
        (t, [], ConfirmPage recipient)) /\
     (forall t, (ServeUnsubscribe norm f uuid now events key
         (unsubscribe_request "POST" tenant message recipient sig) t).1.1 =
        (Suppression.Add norm f uuid now tenant recipient "Unsubscribed via one-click" t).1)).
Proof.
  intros Hk Hb Hheld Hs. split.
  - unfold ServeUnsubscribe in Hs. destruct (parseSignedRequest r 1) as [req|] eqn:Ep; [|injection Hs as <- <- <-; by left].
    specialize (Hheld req eq_refl). fold (presented trackingKindUnsubscribe req "") in Hs.
    destruct (Verify key _ _) eqn:Ev; [injection Hs as <- <- <-; by left|].
    destruct (eqb (Method r) "POST") eqn:Em.
    + apply eqb_true in Em. unfold unsubscribe in Hs.
      destruct (eqb (t_recipient req) "") eqn:Er; [injection Hs as <- <- <-; by left|].
      destruct (Suppression.Add _ _ _ _ _ _ _ _) as [t1 o] eqn:Ea. injection Hs as <- <- <-. right. split; [done|].
      exists req. rewrite Ea. split_and!; [done| |by eapply held_verifies|done]. intros E. by rewrite E in Er.
    + destruct (_ || _); injection Hs as <- <- <-; by left.
  - intros Ht Hm Hne Hr -> Hu. unfold unsubscribeURL in Hu. destruct (eqb base ""); [done|].
    destruct (HasKey key); [|done]. injection Hu as <-.
    set (sig := Sign key (mkLink trackingKindUnsubscribe tenant message recipient "")). exists sig. split; [done|].
    assert (Hv : Verify key (mkLink trackingKindUnsubscribe tenant message recipient "") sig = None) by by apply Verify_Sign.
    assert (Hq : query_get (SignatureParam ++ "=" ++ sig) SignatureParam = sig) by apply query_sig, Sign_letters.
    split; intros t0; unfold ServeUnsubscribe, unsubscribe_request;
      rewrite (parse_signed "u" "nsubscribe" 1) by done; cbn [t_tenant t_message t_recipient t_signature Method];
      rewrite Hq, Hv; [done|]. simpl. unfold unsubscribe. cbn [t_tenant t_message t_recipient].
    destruct (eqb recipient "") eqn:E; [by apply eqb_true in E|]. by destruct (Suppression.Add _ _ _ _ _ _ _ _).
Qed.

(** ** The body keeps the rest *)

Definition piece_text (p : piece) : string := match p with Plain c => String c "" | Href text _ => text end.

(** [t] is what is left of [s] after at least [n] characters. *)
Definition left_after (n : nat) (s t : string) : Prop := exists p, s = p ++ t /\ (n <= String.length p)%nat.

Lemma left_trans n m s t u : left_after n s t -> left_after m t u -> left_after (n + m) s u.
Proof.
  intros (p & -> & Hp) (q & -> & Hq). exists (p ++ q). rewrite string_app_assoc. split; [done|].
  rewrite str_length_app. lia.
Qed.

Lemma TrimLeft_left p s : left_after 0 s (TrimLeftFunc p s).
Proof.
  induction s as [|c s IH]; [by exists ""; split; [|simpl; lia]|]. cbn [TrimLeftFunc]. destruct (p c).
  - destruct IH as (q & E & _). exists (String c q). rewrite E at 1. split; [done|lia].
  - exists "". split; [done|lia].
Qed.

Lemma until_quote_left s v t : until_quote s = Some (v, t) -> left_after 0 s t.
Proof.
  revert v. induction s as [|c s IH]; intros v; [done|]. cbn [until_quote]. destruct (is_quote c).
  - intros [= <- <-]. exists (String c ""). split; [done|lia].
  - destruct (until_quote s) as [[v' t']|]; [|done]. intros [= <- <-]. destruct (IH v' eq_refl) as (q & -> & _).
    exists (String c q). split; [done|lia].
Qed.

Lemma match_href_left s v t : match_href s = Some (v, t) -> left_after 1 s t.
Proof.
  unfold match_href. destruct s as [|h [|r [|e [|f rest]]]]; try done. destruct (negb _); [done|].
  pose proof (TrimLeft_left re_space rest) as H1. destruct (TrimLeftFunc re_space rest) as [|q1 r1]; [done|].
  destruct (negb _); [done|]. pose proof (TrimLeft_left re_space r1) as H2.
  destruct (TrimLeftFunc re_space r1) as [|q2 r2]; [done|]. destruct (negb _); [done|].
  destruct (until_quote r2) as [[[|c0 v0] t0]|] eqn:E; try done. intros [= <- <-]. apply until_quote_left in E.
  assert (S : forall c x, left_after 0 (String c x) x) by (intros c x; exists (String c ""); split; [done|simpl; lia]).
  assert (S1 : left_after 1 (String h (String r (String e (String f rest)))) rest).
  { exists (String h (String r (String e (String f "")))). split; [done|simpl; lia]. }
  pose proof (left_trans _ _ _ _ _ S1 (left_trans _ _ _ _ _ H1 (left_trans _ _ _ _ _ (S q1 r1)
    (left_trans _ _ _ _ _ H2 (left_trans _ _ _ _ _ (S q2 r2) E))))) as (p & Ep & Hp).
  exists p. split; [done|lia].
Qed.

Lemma pieces_fuel_text fuel : forall s, (String.length s <= fuel)%nat ->
  String.concat "" (map piece_text (pieces_fuel fuel s)) = s.
Proof.
  induction fuel as [|fuel IH]; intros [|c r] Hf; try done; [simpl in Hf; lia|]. cbn [pieces_fuel].
  destruct (match_href (String c r)) as [[v t]|] eqn:E; cbn [map]; rewrite concat_cons_nosep.
  - apply match_href_left in E as (p & Ep & Hp). rewrite Ep. cbn [piece_text].
    rewrite take_str_app, IH; [done|]. apply (f_equal String.length) in Ep. rewrite str_length_app in Ep. simpl in *. lia.
  - rewrite IH by (simpl in Hf; lia). done.
Qed.

(** The pieces are the body. *)
Lemma pieces_text s : String.concat "" (map piece_text (pieces s)) = s.
Proof. by apply pieces_fuel_text. Qed.

(** What the endpoint recognises is what the send path signs. *)
Lemma targets_from_spec l : forall seen u,
  u ∈ targets_from seen l <->
  (u ∉ seen) /\ exists text v, Href text v ∈ l /\ u = UnescapeHrefValue v /\ ValidateTarget u = None.
Proof.
  induction l as [|[c|text v] l IH]; intros seen u; cbn [targets_from].
  - split; [by intros ?%elem_of_nil|]. intros (_ & ? & ? & ?%elem_of_nil & _). done.
  - rewrite IH. apply and_iff_compat_l. split; intros (t0 & v0 & Hin & ?); exists t0, v0; (split; [|done]).
    + by right.
    + by apply elem_of_cons in Hin as [?|Hin].
  - assert (Hskip : (ValidateTarget (UnescapeHrefValue v) <> None \/ UnescapeHrefValue v ∈ seen) ->
      u ∈ targets_from seen l <-> (u ∉ seen) /\ exists text0 v0, Href text0 v0 ∈ Href text v :: l /\
        u = UnescapeHrefValue v0 /\ ValidateTarget u = None).
    { intros Hv. rewrite IH. split; intros (Hu & t0 & v0 & Hin & Ev & Hval); (split; [done|]); exists t0, v0; (split; [|done]).
      - by right.
      - apply elem_of_cons in Hin as [[= -> ->]|Hin]; [|done]. subst u. by destruct Hv. }
    destruct (ValidateTarget (UnescapeHrefValue v)) eqn:E; [by apply Hskip; left|].
    case_bool_decide as Hs; [by apply Hskip; right|]. clear Hskip.
    rewrite elem_of_cons, IH, not_elem_of_union, not_elem_of_singleton. split.
    + intros [->|([_ Hu] & t0 & v0 & Hin & ?)]; [split; [done|]; exists text, v; split; [by left|done]|].
      split; [done|]. exists t0, v0. split; [by right|done].
    + intros (Hu & t0 & v0 & Hin & Ev & Hval). destruct (decide (u = UnescapeHrefValue v)) as [?|Hne]; [by left|right].
      split; [done|]. exists t0, v0. split; [|done]. apply elem_of_cons in Hin as [[= -> ->]|Hin]; [done|done].
Qed.

(** A body with no web link is sent as it is. *)
Lemma rewrite_untouched base key html tenant message recipient :
  LinkTargets html = [] -> rewriteLinks base key html tenant message recipient = html.
Proof.
  intros Hl. unfold rewriteLinks. rewrite <- (pieces_text html) at 2. f_equal. apply map_ext_in. intros p Hp.
  destruct p as [c|text v]; [done|]. cbn [rewritePiece piece_text].
  destruct (ValidateTarget (UnescapeHrefValue v)) eqn:E; [done|]. exfalso.
  assert (Hu : UnescapeHrefValue v ∈ LinkTargets html).
  { apply targets_from_spec. split; [set_solver|]. exists text, v. split; [by apply list_elem_of_In|done]. }
  rewrite Hl in Hu. by apply elem_of_nil in Hu.
Qed.
End Signing.

(** ** A concrete mail *)

(** A code that is the key and the text, and a parser that takes what follows
    "://" for the host. *)
Definition demo_hmac (key text : string) : string := key ++ text.
Definition demo_parse (u : string) : option (string * string) :=
  match Cut u ":"%char with
  | Some (scheme, rest) => Some (scheme, if HasPrefix rest "//" then drop_str 2 rest else "")
  | None => Some ("", "")
  end.
Definition demo_href (raw : string) : option string := None.

Definition demo_body : string :=
  "<p><a HREF=" ++ quoted "https://shop.example/?a=1&amp;copy=2" ++ ">Shop</a> <a href='mailto:x@y.z'>us</a></body>".
Definition demo_text : string := "HREF=" ++ quoted "https://shop.example/?a=1&amp;copy=2".
Definition demo_value : string := "https://shop.example/?a=1&amp;copy=2".
Definition demo_url : string := "https://shop.example/?a=1&copy=2".

Lemma demo_bytes key : key <> "" -> has_bytes demo_hmac key.
Proof. intros Hk a. unfold demo_hmac. by destruct key. Qed.

Lemma demo_no_collision key a b : no_collision demo_hmac key a b.
Proof. unfold no_collision, demo_hmac. induction key as [|c key IH]; [done|]. simpl. by intros [= H%IH]. Qed.

(** A minted link vouches for its own signature. *)
Lemma demo_held key l sig : sig = Sign demo_hmac key l -> clean l -> held_signature demo_hmac key [l] l sig.
Proof. intros -> Hc. exists l. split; [by left|]. split; [done|]. split; [done|]. apply demo_no_collision. Qed.

Lemma demo_no_host : empty_has_no_host demo_parse.
Proof. intros scheme host [= _ <-]. done. Qed.

Definition demo_message : Events.EmailMessage :=
  Events.mkEmailMessage "m1" "t1" "" "a@b.c" ["bob@d.e"] [] [] "Hi" demo_body "" [] 0.
Definition demo_get (tenant message : string) : option Events.EmailMessage :=
  if eqb tenant "t1" && eqb message "m1" then Some demo_message else None.

(** Signed with one key, followed under another. *)
Lemma tracked_link_returns_witness :
  Href demo_text demo_value ∈ pieces demo_body /\
  exists sig, HandleClick demo_hmac demo_parse demo_href "new-key" (Some demo_get)
    (click_request "t1" "m1" "bob@d.e" demo_url sig) =
    ([mkRecorded "t1" "m1" Classify.CLICKED "bob@d.e" demo_url], Redirect demo_url).
Proof.
  assert (Hin : Href demo_text demo_value ∈ pieces demo_body).
  { apply list_elem_of_lookup. exists 6%nat. vm_compute. reflexivity. }
  split; [exact Hin|].
  destruct (tracked_link_returns demo_hmac demo_parse demo_href "https://mail.example" "old-key" "new-key"
    (Some demo_get) "t1" "m1" "bob@d.e" demo_body demo_text demo_value) as (before & after & attr & sig & _ & _ & H);
    [done|by apply demo_bytes|exact demo_no_host|done|done|done|done|done|exact Hin|vm_compute; reflexivity| |].
  - right. exists demo_get, demo_message. split_and!; [done|done|reflexivity|].
    apply list_elem_of_lookup. exists 0%nat. vm_compute. reflexivity.
  - exists sig. exact H.
Defined.

Definition demo_link : Link := mkLink trackingKindClick "t1" "m1" "bob@d.e" demo_url.
Definition demo_click : HTTPRequest := click_request "t1" "m1" "bob@d.e" demo_url (Sign demo_hmac "k" demo_link).

Lemma redirects_only_where_sent_witness :
  HandleClick demo_hmac demo_parse demo_href "k" None demo_click =
    ([mkRecorded "t1" "m1" Classify.CLICKED "bob@d.e" demo_url], Redirect demo_url) /\
  ValidateTarget demo_parse demo_url = None.
Proof.
  assert (H : HandleClick demo_hmac demo_parse demo_href "k" None demo_click =
    ([mkRecorded "t1" "m1" Classify.CLICKED "bob@d.e" demo_url], Redirect demo_url)) by (vm_compute; reflexivity).
  split; [exact H|].
  refine (proj1 (redirects_only_where_sent demo_hmac demo_parse demo_href "k" [demo_link] None demo_click _ demo_url
    _ (demo_bytes "k" _) _ H)); [done|done|].
  intros req Hreq. vm_compute in Hreq. injection Hreq as <-.
  apply demo_held; [vm_compute; reflexivity|repeat split].
Defined.

Lemma unsigned_click_names_anyone_witness :
  HandleClick demo_hmac demo_parse demo_href "k" (Some demo_get)
    (click_request "t1" "m1" "somebody.else@d.e" demo_url "AAAA") =
  ([mkRecorded "t1" "m1" Classify.CLICKED "somebody.else@d.e" demo_url], Redirect demo_url).
Proof.
  refine (unsigned_click_names_anyone demo_hmac demo_parse demo_href "k" demo_get "t1" "m1" demo_message demo_url
    "somebody.else@d.e" "AAAA" _ _ _ _ _ demo_no_host _ _ _); try done.
  apply list_elem_of_lookup. exists 0%nat. vm_compute. reflexivity.
Defined.

Lemma bounce_ref_names_its_copy_witness :
  VerifyBounceRef demo_hmac "k" (BounceRef demo_hmac "k" "t1" "m.1" "Bob@d.e") "t1" " bob@D.e" = Ok "m.1" /\
  VerifyBounceRef demo_hmac "k" (BounceRef demo_hmac "k" "t1" "m.1" "Bob@d.e") "t2" "bob@d.e" = Err ErrBadSignature.
Proof.
  split; [|vm_compute; reflexivity].
  apply (bounce_ref_names_its_copy demo_hmac "k" "t1" "m.1" "Bob@d.e" "t1" " bob@D.e" "m.1");
    [done|by apply demo_bytes|done|done|apply demo_no_collision|vm_compute; done].
Defined.

Definition demo_unsub : Link := mkLink trackingKindUnsubscribe "t1" "m1" "bob@d.e" "".
Definition demo_post : HTTPRequest :=
  unsubscribe_request "POST" "t1" "m1" "bob@d.e" (Sign demo_hmac "k" demo_unsub).
Definition demo_added : Suppression.Table :=
  [Suppression.mkSuppression "s1" "t1" "bob@d.e" "Unsubscribed via one-click" 7].

Lemma unsubscribe_acts_for_its_link_witness :
  ServeUnsubscribe demo_hmac (fun a => a) Up "s1" 7 true "k" demo_post [] =
    (demo_added, [mkRecorded "t1" "m1" Classify.UNSUBSCRIBED "bob@d.e" ""], UnsubscribedPage) /\
  (demo_added, [mkRecorded "t1" "m1" Classify.UNSUBSCRIBED "bob@d.e" ""]) <> ([], []).
Proof.
  assert (H : ServeUnsubscribe demo_hmac (fun a => a) Up "s1" 7 true "k" demo_post [] =
    (demo_added, [mkRecorded "t1" "m1" Classify.UNSUBSCRIBED "bob@d.e" ""], UnsubscribedPage)) by (vm_compute; reflexivity).
  split; [exact H|].
  destruct (unsubscribe_acts_for_its_link demo_hmac (fun a => a) Up "s1" 7 true "k" [demo_unsub] demo_post [] _ _ _
    "t1" "m1" "bob@d.e" (Some "k") "https://mail.example" "" ltac:(done) (demo_bytes "k" ltac:(done))
    ltac:(intros req Hreq; vm_compute in Hreq; injection Hreq as <-;
      apply demo_held; [vm_compute; reflexivity|repeat split]) H) as [_ _].
  done.
Defined.

End Tracking.
