(* ===== verification/InboundStore.v ===== *)
(** * Received mail

    Models internal/inbound/repositories: the pebble store that keeps received
    mail with an index by id and its retention pass, and the receipts that tell a
    provider's retry from a new message, as statements of the SQL store.  The
    key-value store is the interface of [KVStore]; JSON is a codec with a round
    trip. *)
From S2P Require Import Prelude GoStrings Encoding KVStore Calendar Classify Events EventStore EventTimeline.

From Stdlib Require Import Ascii.

Module InboundStore.
Import GoStrings Encoding KVStore Calendar EventStore EventTimeline.
Local Open Scope string_scope.
Local Open Scope Z_scope.

Record InboundEmail := mkInbound {
  I_ID : string;
  I_TenantID : string;
  I_From : string;
  I_To : list string;
  I_Subject : string;
  I_BodyHTML : string;
  I_BodyText : string;
  I_Timestamp : Z;
  I_Headers : gmap string string
}.

#[export] Instance InboundEmail_eq_dec : EqDecision InboundEmail.
Proof. solve_decision. Defined.

Class InboundCodec := {
  MarshalInbound : InboundEmail -> result string string;
  UnmarshalInbound : string -> result string InboundEmail
}.

Class InboundCodecLaws (codec : InboundCodec) := {
  inbound_roundtrip : forall e v, MarshalInbound e = Ok v -> UnmarshalInbound v = Ok e
}.

(** ** The mail store (pebble/store.go) *)

Definition inboundKeyOf (tenant ts id : string) : string := "inbound:" ++ tenant ++ ":" ++ ts ++ ":" ++ id.
Definition inboundStamp (e : InboundEmail) : string := Sprintf_019d (descending (I_Timestamp e)).
Definition inboundKey (e : InboundEmail) : string := inboundKeyOf (I_TenantID e) (inboundStamp e) (I_ID e).
Definition inboundIdx (tenant id : string) : string := "inbound_idx:" ++ tenant ++ ":" ++ id.

Section Mail.
Context {DB : Type} `{!KV DB} {codec : InboundCodec}.

Record Mailbox := mkMailbox {
  mb_db : DB;
  mb_closed : bool
}.

Definition inboundOps (e : InboundEmail) : result string (list kvop) :=
  match MarshalInbound e with
  | Err err => Err err
  | Ok val => Ok [KSet (inboundKey e) val; KSet (inboundIdx (I_TenantID e) (I_ID e)) (inboundStamp e)]
  end.

Definition ErrInboundClosed : string := "inbound store is closed".

(** [Write]; [f] is how the commit goes. *)
Definition Write (f : fault) (e : InboundEmail) (s : Mailbox) : Mailbox * option string :=
  if mb_closed s then (s, Some ErrInboundClosed)
  else
    match inboundOps e with
    | Err err => (s, Some err)
    | Ok ops =>
        match exec f (fun d => Ok (kv_commit ops d, tt)) (mb_db s) with
        | (d, Ok _) => (mkMailbox d false, None)
        | (d, Err err) => (mkMailbox d false, Some err)
        end
    end.

Definition defaultPageSize : Z := 50.
Definition maxPageSize : Z := 500.

(** The page loop: up to [n] messages that can be read, and the key it stopped
    at. *)
Fixpoint pageLoop (n : nat) (l : list (string * string)) : list InboundEmail * string :=
  match l with
  | [] => ([], "")
  | (k, v) :: rest =>
      match n with
      | O => ([], k)
      | S n' =>
          match UnmarshalInbound v with
          | Err _ => pageLoop n rest
          | Ok e => let '(es, token) := pageLoop n' rest in (e :: es, token)
          end
      end
  end.

Definition ListInbound (tenant : string) (pageSize : Z) (token : string) (s : Mailbox) : list InboundEmail * string :=
  let size := if pageSize <=? 0 then defaultPageSize else pageSize in
  let size := if maxPageSize <? size then maxPageSize else size in
  let prefix := "inbound:" ++ tenant ++ ":" in
  pageLoop (Z.to_nat size)
    (seekGE (if eqb token "" then prefix else token) (kv_iter (mb_db s) prefix ("inbound:" ++ tenant ++ ";"))).

Definition GetInbound (tenant id : string) (s : Mailbox) : result string (option InboundEmail) :=
  match kv_get (mb_db s) (inboundIdx tenant id) with
  | None => Ok None
  | Some ts =>
      match kv_get (mb_db s) (inboundKeyOf tenant ts id) with
      | None => Err "pebble: not found"
      | Some val => match UnmarshalInbound val with Ok e => Ok (Some e) | Err e => Err e end
      end
  end.

Definition CountInbound (tenant : string) (start end_ : Z) (s : Mailbox) : Z :=
  let prefix := "inbound:" ++ tenant ++ ":" in
  let lo := if time_is_zero end_ then prefix else prefix ++ Sprintf_019d (descending end_) ++ ":" in
  let hi := if time_is_zero start then "inbound:" ++ tenant ++ ";" else prefix ++ Sprintf_019d (wrap64 (descending start + 1)) ++ ":" in
  Z.of_nat (length (kv_iter (mb_db s) lo hi)).

Definition CloseMailbox (s : Mailbox) : Mailbox := mkMailbox (mb_db s) true.

(** ** Its retention (pebble/retention.go) *)

Definition inboundBatchSize : nat := 500.

Fixpoint inboundLoop (ctx fails : nat -> option string) (cutoff : Z) (i : nat) (l : list (string * string)) (batch : list kvop) (pending : nat)
    (removed : Z) (commits : list (list kvop)) : list (list kvop) * Z * option string :=
  match l with
  | [] =>
      if (pending =? 0)%nat then (commits, removed, None)
      else match fails (length commits) with
           | Some err => (commits, removed, Some err)
           | None => ((commits ++ [batch])%list, removed, None)
           end
  | (k, v) :: rest =>
      match ctx i with
      | Some err => (commits, removed, Some err)
      | None =>
          let skip := inboundLoop ctx fails cutoff (S i) rest batch pending removed commits in
          match keyParts k with
          | None => skip
          | Some (ts, _) =>
              if ts <=? cutoff then skip
              else
                match UnmarshalInbound v with
                | Err _ => skip
                | Ok e =>
                    let batch' := (batch ++ [KDelete k; KDelete (inboundIdx (I_TenantID e) (I_ID e))])%list in
                    if (S pending <? inboundBatchSize)%nat then
                      inboundLoop ctx fails cutoff (S i) rest batch' (S pending) (removed + 1) commits
                    else
                      match fails (length commits) with
                      | Some err => (commits, removed + 1, Some err)
                      | None => inboundLoop ctx fails cutoff (S i) rest [] 0 (removed + 1) (commits ++ [batch'])%list
                      end
                end
          end
      end
  end.

Definition TruncateInbound (ctx fails : nat -> option string) (before : Z) (s : Mailbox) : list (list kvop) * Z * option string :=
  if time_is_zero before then ([], 0, Some zeroCutoff)
  else inboundLoop ctx fails (descending before) 0 (kv_iter (mb_db s) "inbound:" "inbound;") [] 0 0 [].

Definition afterInbound (commits : list (list kvop)) (s : Mailbox) : Mailbox :=
  mkMailbox (foldl (fun d b => kv_commit b d) (mb_db s) commits) (mb_closed s).

End Mail.

Arguments Mailbox DB : clear implicits.

(** ** Receipts (postgres/receipt_store.go) *)

Inductive ReceiptState := PROCESSING | DONE.
#[export] Instance ReceiptState_eq_dec : EqDecision ReceiptState.
Proof. solve_decision. Defined.

Record Receipt := mkReceipt {
  r_state : ReceiptState;
  r_token : string;
  r_claimed_at : Z;
  r_created_at : Z
}.

(** A receipt's key: tenant, provider and the message's digest. *)
Abbreviation ReceiptKey := (string * string * string)%type.
Abbreviation Receipts := (gmap ReceiptKey Receipt).

(** The statements; the number is the rows they touched. *)
Definition insert_receipt (k : ReceiptKey) (token : string) (now : Z) (t : Receipts) : Receipts * Z :=
  match t !! k with
  | Some _ => (t, 0)
  | None => (<[k := mkReceipt PROCESSING token now now]> t, 1)
  end.

Definition take_over_receipt (k : ReceiptKey) (token : string) (now stale : Z) (t : Receipts) : Receipts * Z :=
  match t !! k with
  | Some r =>
      if bool_decide (r_state r = PROCESSING) && (r_claimed_at r <? stale)
      then (<[k := mkReceipt PROCESSING token now (r_created_at r)]> t, 1) else (t, 0)
  | None => (t, 0)
  end.

Definition complete_receipt (k : ReceiptKey) (token : string) (t : Receipts) : Receipts :=
  match t !! k with
  | Some r =>
      if bool_decide (r_token r = token) && bool_decide (r_state r = PROCESSING)
      then <[k := mkReceipt DONE (r_token r) (r_claimed_at r) (r_created_at r)]> t else t
  | None => t
  end.

Definition release_receipt (k : ReceiptKey) (token : string) (t : Receipts) : Receipts :=
  match t !! k with
  | Some r => if bool_decide (r_token r = token) && bool_decide (r_state r = PROCESSING) then delete k t else t
  | None => t
  end.

Definition prune_receipts (before : Z) (t : Receipts) : Receipts := filter (fun kr => before <= r_created_at kr.2) t.

Inductive ClaimResult := ClaimAcquired | ClaimDuplicate | ClaimInFlight.

(** One round of [Claim]: what happens between its statements is any change the
    other posts make to the table.  [None] asks for another round. *)
Record Round := mkRound {
  rd_now : Z;                     (* seconds *)
  rd_token : string;
  rd_insert : fault;
  rd_mid1 : Receipts -> Receipts;
  rd_takeover : fault;
  rd_mid2 : Receipts -> Receipts;
  rd_read : fault
}.

Definition claimRound (k : ReceiptKey) (lease : Z) (r : Round) (t : Receipts) : Receipts * option (result string (ClaimResult * string)) :=
  match exec (rd_insert r) (fun t => Ok (insert_receipt k (rd_token r) (rd_now r) t)) t with
  | (t, Err e) => (t, Some (Err e))
  | (t, Ok n) =>
      if n =? 1 then (t, Some (Ok (ClaimAcquired, rd_token r)))
      else
        match exec (rd_takeover r) (fun t => Ok (take_over_receipt k (rd_token r) (rd_now r) (rd_now r - lease) t)) (rd_mid1 r t) with
        | (t, Err e) => (t, Some (Err e))
        | (t, Ok n) =>
            if n =? 1 then (t, Some (Ok (ClaimAcquired, rd_token r)))
            else
              match exec (rd_read r) (fun t => Ok (t, r_state <$> t !! k)) (rd_mid2 r t) with
              | (t, Err e) => (t, Some (Err e))
              | (t, Ok None) => (t, None)
              | (t, Ok (Some DONE)) => (t, Some (Ok (ClaimDuplicate, "")))
              | (t, Ok (Some PROCESSING)) => (t, Some (Ok (ClaimInFlight, "")))
              end
        end
  end.

(** [Claim] with a lease in whole seconds. *)
Definition Claim (k : ReceiptKey) (lease : Z) (r1 : Round) (mid : Receipts -> Receipts) (r2 : Round) (t : Receipts) :
    Receipts * result string (ClaimResult * string) :=
  match claimRound k lease r1 t with
  | (t, Some res) => (t, res)
  | (t, None) =>
      match claimRound k lease r2 (mid t) with
      | (t, Some res) => (t, res)
      | (t, None) => (t, Ok (ClaimInFlight, ""))
      end
  end.

(** What posts and pruning do to the table, one statement at a time. *)
Inductive receiptOp :=
| RInsert (k : ReceiptKey) (token : string) (now : Z)
| RTakeOver (k : ReceiptKey) (token : string) (now : Z)
| RComplete (k : ReceiptKey) (token : string)
| RRelease (k : ReceiptKey) (token : string)
| RPrune (before : Z).

Definition claimLease : Z := 300.

Definition receiptStep (t : Receipts) (o : receiptOp) : Receipts :=
  match o with
  | RInsert k token now => (insert_receipt k token now t).1
  | RTakeOver k token now => (take_over_receipt k token now (now - claimLease) t).1
  | RComplete k token => complete_receipt k token t
  | RRelease k token => release_receipt k token t
  | RPrune before => prune_receipts before t
  end.

Definition receiptRun (ops : list receiptOp) (t : Receipts) : Receipts := foldl receiptStep t ops.

(** ** What is stored stays readable *)

Section Readable.
Context {DB : Type} (merge : option string -> string -> string) `{!KV DB, !KVLaws DB merge} {codec : InboundCodec} {laws : InboundCodecLaws codec}.

(** Every index entry leads to a message that can be read. *)
Definition readable (s : Mailbox DB) : Prop := forall tenant id ts, no_colon tenant ->
  kv_get (mb_db s) (inboundIdx tenant id) = Some ts -> exists v e, kv_get (mb_db s) (inboundKeyOf tenant ts id) = Some v /\ UnmarshalInbound v = Ok e.

Lemma idx_not_key t i t' ts' i' : inboundIdx t i <> inboundKeyOf t' ts' i'.
Proof. done. Qed.

Lemma inboundIdx_inj t t' i i' : no_colon t -> no_colon t' -> inboundIdx t i = inboundIdx t' i' -> t = t' /\ i = i'.
Proof. intros Ht Ht' E. unfold inboundIdx in E. by apply (inj (String.append "inbound_idx:")), (sep_inj ":"%char) in E. Qed.

(** What [Write] leaves under every key. *)
Lemma write_gets f e (s s' : Mailbox DB) err : Write f e s = (s', err) -> mb_db s' = mb_db s /\ err <> None \/
  exists val, MarshalInbound e = Ok val /\ mb_closed s = false /\ forall k, kv_get (mb_db s') k =
    if decide (k = inboundIdx (I_TenantID e) (I_ID e)) then Some (inboundStamp e) else if decide (k = inboundKey e) then Some val else kv_get (mb_db s) k.
Proof.
  unfold Write, inboundOps. destruct (mb_closed s) eqn:Hc; [intros [= <- <-]; by left|].
  destruct (MarshalInbound e) as [val|er]; [|intros [= <- <-]; by left].
  assert (Hset : forall k, kv_get (kv_commit [KSet (inboundKey e) val; KSet (inboundIdx (I_TenantID e) (I_ID e)) (inboundStamp e)] (mb_db s)) k =
    if decide (k = inboundIdx (I_TenantID e) (I_ID e)) then Some (inboundStamp e) else if decide (k = inboundKey e) then Some val else kv_get (mb_db s) k).
  { intros k. rewrite kv_get_commit, !effects_cons. cbn [effects foldl]. destruct (decide (k = inboundIdx _ _)) as [->|Hi].
    - by rewrite effect_set.
    - rewrite (effect_ne merge k (KSet (inboundIdx _ _) _)) by (cbn [op_key]; congruence). destruct (decide (k = inboundKey e)) as [->|Hk]; [by rewrite effect_set|]. by rewrite effect_ne by (cbn [op_key]; congruence). }
  destruct f; cbn [exec]; intros [= <- <-]; try (by left); right; exists val; (split_and!; [done|done|exact Hset]).
Qed.

Lemma write_readable f e (s s' : Mailbox DB) err : no_colon (I_TenantID e) -> Write f e s = (s', err) -> readable s -> readable s'.
Proof.
  intros He H Hr. apply write_gets in H as [[E _]|(val & Hm & _ & Hk)]; [intros t i ts; rewrite E; apply Hr|]. intros t i ts Ht. rewrite !Hk.
  destruct (decide (inboundIdx t i = _)) as [E|Hne].
  - apply inboundIdx_inj in E as [-> ->]; [|done|done]. intros [= <-]. exists val, e. split; [|by apply inbound_roundtrip].
    rewrite decide_False by (intros E; by apply eq_sym, idx_not_key in E). by rewrite decide_True.
  - rewrite decide_False by (intros E; by apply idx_not_key in E). intros Hts. destruct (Hr t i ts Ht Hts) as (v & e0 & Hv & Hu).
    rewrite decide_False by (intros E; by apply eq_sym, idx_not_key in E). destruct (decide (_ = inboundKey e)); [|by exists v, e0].
    exists val, e. split; [done|by apply inbound_roundtrip].
Qed.

(** A message that is there is found, and another write leaves it there. *)
Definition held (tenant id : string) (s : Mailbox DB) : Prop := exists e, GetInbound tenant id s = Ok (Some e).

Lemma held_iff tenant id (s : Mailbox DB) : readable s -> no_colon tenant -> held tenant id s <-> is_Some (kv_get (mb_db s) (inboundIdx tenant id)).
Proof.
  intros Hr Ht. unfold held, GetInbound. split.
  - intros [e He]. destruct (kv_get _ _); [by eexists|done].
  - intros [ts Hts]. destruct (Hr tenant id ts Ht Hts) as (v & e & Hv & Hu). rewrite Hts, Hv, Hu. by exists e.
Qed.

Lemma write_keeps f e (s s' : Mailbox DB) err tenant id : no_colon (I_TenantID e) -> Write f e s = (s', err) -> readable s -> no_colon tenant ->
  held tenant id s -> held tenant id s'.
Proof.
  intros He H Hr Ht. pose proof (write_readable _ _ _ _ _ He H Hr) as Hr'. rewrite !held_iff by done.
  apply write_gets in H as [[E _]|(val & _ & _ & Hk)]; [by rewrite E|]. rewrite Hk. by destruct (decide _); [|rewrite decide_False by (intros E; by apply idx_not_key in E)].
Qed.

(** What was stored is what is read. *)
Lemma write_held e (s s' : Mailbox DB) f : Write f e s = (s', None) -> GetInbound (I_TenantID e) (I_ID e) s' = Ok (Some e).
Proof.
  intros H. apply write_gets in H as [[_ ?]|(val & Hm & _ & Hk)]; [done|]. unfold GetInbound. rewrite Hk, decide_True by done. change (inboundKeyOf (I_TenantID e) (inboundStamp e) (I_ID e)) with (inboundKey e). rewrite Hk.
  rewrite decide_False by (intros E; by apply eq_sym, idx_not_key in E). rewrite decide_True by done. by rewrite (inbound_roundtrip _ _ Hm).
Qed.

End Readable.

(** ** Receipts tell a retry *)

(** Nothing that would end a claim of [token] made at [c], or forget it. *)
Definition spares (k : ReceiptKey) (token : string) (c created : Z) (o : receiptOp) : Prop :=
  match o with
  | RTakeOver k' _ now => k' = k -> now - claimLease <= c
  | RComplete k' token' | RRelease k' token' => k' = k -> token' <> token
  | RPrune before => before <= created
  | RInsert _ _ _ => True
  end.

Lemma prune_keeps before t (k : ReceiptKey) r : t !! k = Some r -> before <= r_created_at r -> prune_receipts before t !! k = Some r.
Proof. intros Hk Hb. apply map_lookup_filter_Some. by split. Qed.

Lemma claim_stands k token c created o t : spares k token c created o -> t !! k = Some (mkReceipt PROCESSING token c created) ->
  receiptStep t o !! k = Some (mkReceipt PROCESSING token c created).
Proof.
  intros Hs Hk. destruct o as [k' tok now|k' tok now|k' tok|k' tok|before]; cbn [receiptStep spares] in *.
  - unfold insert_receipt. destruct (t !! k') eqn:E; [done|]. cbn [fst]. destruct (decide (k' = k)) as [->|]; [congruence|by rewrite lookup_insert_ne].
  - unfold take_over_receipt. destruct (t !! k') as [r|] eqn:E; [|done]. destruct (_ && _) eqn:Et; [|done]. cbn [fst].
    destruct (decide (k' = k)) as [->|]; [|by rewrite lookup_insert_ne]. simplify_eq. cbn [r_claimed_at] in Et. specialize (Hs eq_refl). lia.
  - unfold complete_receipt. destruct (t !! k') as [r|] eqn:E; [|done]. destruct (_ && _) eqn:Et; [|done].
    destruct (decide (k' = k)) as [->|]; [|by rewrite lookup_insert_ne]. simplify_eq. cbn [r_token] in Et. specialize (Hs eq_refl).
    apply andb_true_iff in Et as [Et%bool_decide_eq_true _]. congruence.
  - unfold release_receipt. destruct (t !! k') as [r|] eqn:E; [|done]. destruct (_ && _) eqn:Et; [|done].
    destruct (decide (k' = k)) as [->|]; [|by rewrite lookup_delete_ne]. simplify_eq. cbn [r_token] in Et. specialize (Hs eq_refl).
    apply andb_true_iff in Et as [Et%bool_decide_eq_true _]. congruence.
  - by apply prune_keeps.
Qed.

Lemma done_stands k token c created o t : (forall before, o = RPrune before -> before <= created) -> t !! k = Some (mkReceipt DONE token c created) ->
  receiptStep t o !! k = Some (mkReceipt DONE token c created).
Proof.
  intros Hs Hk. destruct o as [k' tok now|k' tok now|k' tok|k' tok|before]; cbn [receiptStep].
  - unfold insert_receipt. destruct (t !! k') eqn:E; [done|]. cbn [fst]. destruct (decide (k' = k)) as [->|]; [congruence|by rewrite lookup_insert_ne].
  - unfold take_over_receipt. destruct (t !! k') as [r|] eqn:E; [|done]. destruct (_ && _) eqn:Et; [|done]. cbn [fst].
    destruct (decide (k' = k)) as [->|]; [|by rewrite lookup_insert_ne]. by simplify_eq.
  - unfold complete_receipt. destruct (t !! k') as [r|] eqn:E; [|done]. destruct (_ && _) eqn:Et; [|done].
    destruct (decide (k' = k)) as [->|]; [|by rewrite lookup_insert_ne]. simplify_eq. cbn [r_state] in Et. by rewrite andb_false_r in Et.
  - unfold release_receipt. destruct (t !! k') as [r|] eqn:E; [|done]. destruct (_ && _) eqn:Et; [|done].
    destruct (decide (k' = k)) as [->|]; [|by rewrite lookup_delete_ne]. simplify_eq. cbn [r_state] in Et. by rewrite andb_false_r in Et.
  - apply prune_keeps; [done|]. by apply Hs.
Qed.

(** What other posts do while one claims. *)
Definition others (P : receiptOp -> Prop) (f : Receipts -> Receipts) : Prop := forall t, exists ops, Forall P ops /\ f t = receiptRun ops t.

Lemma run_keeps (P : receiptOp -> Prop) k r : (forall o t, P o -> t !! k = Some r -> receiptStep t o !! k = Some r) ->
  forall f t, others P f -> t !! k = Some r -> f t !! k = Some r.
Proof.
  intros Hstep f t Hf Hk. destruct (Hf t) as (ops & Hops & ->). revert t Hk. induction Hops as [|o ops Ho _ IH]; intros t Hk; [done|].
  cbn [receiptRun foldl]. apply IH. by apply Hstep.
Qed.

(** A claim of [k] against a row that keeps its value: acquired by nobody. *)
Lemma claim_meets k r lease r1 mid r2 t t' res (P : receiptOp -> Prop) :
  (forall o t, P o -> t !! k = Some r -> receiptStep t o !! k = Some r) ->
  (forall x, x = r1 \/ x = r2 -> others P (rd_mid1 x) /\ others P (rd_mid2 x) /\ (r_state r = PROCESSING -> rd_now x - lease <= r_claimed_at r)) -> others P mid ->
  t !! k = Some r -> Claim k lease r1 mid r2 t = (t', res) ->
  t' !! k = Some r /\ (forall token, res <> Ok (ClaimAcquired, token)) /\
  (forall c token, res = Ok (c, token) -> c = match r_state r with DONE => ClaimDuplicate | PROCESSING => ClaimInFlight end).
Proof.
  intros Hstep Hrounds Hmid Hk.
  assert (Hround : forall x t t' o, x = r1 \/ x = r2 -> t !! k = Some r -> claimRound k lease x t = (t', o) -> t' !! k = Some r /\
    exists res, o = Some res /\ (forall token, res <> Ok (ClaimAcquired, token)) /\
    (forall c token, res = Ok (c, token) -> c = match r_state r with DONE => ClaimDuplicate | PROCESSING => ClaimInFlight end)).
  { clear t t' res Hk. intros x t t' o Hx Hk. destruct (Hrounds x Hx) as (Hm1 & Hm2 & Hnow). unfold claimRound.
    assert (Hins : exec (rd_insert x) (fun t0 => Ok (insert_receipt k (rd_token x) (rd_now x) t0)) t = (t, match rd_insert x with Up => Ok 0 | Down => Err errNotConnected | Refused e | Lost e => Err e end)).
    { unfold exec, insert_receipt. rewrite Hk. by destruct (rd_insert x). }
    rewrite Hins. destruct (rd_insert x); try (intros [= <- <-]; split; [done|]; eexists; by split_and!).
    cbn [Z.eqb]. pose proof (run_keeps P k r Hstep _ _ Hm1 Hk) as Hk1. set (t1 := rd_mid1 x t) in *.
    assert (Htak : exec (rd_takeover x) (fun t0 => Ok (take_over_receipt k (rd_token x) (rd_now x) (rd_now x - lease) t0)) t1 = (t1, match rd_takeover x with Up => Ok 0 | Down => Err errNotConnected | Refused e | Lost e => Err e end)).
    { unfold exec, take_over_receipt. rewrite Hk1. assert (Hno : bool_decide (r_state r = PROCESSING) && (r_claimed_at r <? rd_now x - lease) = false).
      { destruct (bool_decide_reflect (r_state r = PROCESSING)); [|done]. cbn [andb]. apply Z.ltb_ge. by apply Hnow. }
      rewrite Hno. by destruct (rd_takeover x). }
    rewrite Htak. destruct (rd_takeover x); try (intros [= <- <-]; split; [done|]; eexists; by split_and!).
    cbn [Z.eqb]. pose proof (run_keeps P k r Hstep _ _ Hm2 Hk1) as Hk2. set (t2 := rd_mid2 x t1) in *. unfold exec. rewrite Hk2.
    destruct (rd_read x); cbn [fmap option_fmap option_map]; try (intros [= <- <-]; split; [done|]; eexists; by split_and!);
      (destruct (r_state r); intros [= <- <-]; (split; [done|]); eexists; (split_and!; [done|done|])); by intros c token [= <- <-]. }
  unfold Claim. destruct (claimRound k lease r1 t) as [t1 o] eqn:E1. destruct (Hround r1 t t1 o ltac:(by left) Hk E1) as (Hk1 & res1 & -> & H1).
  intros [= <- <-]. by split.
Qed.

(** One post of a message at a time, and none once it is in.  While a post
    holds the claim of a message -- it has not settled it, and its five minutes
    are not up -- no other post of the message acquires it, however the
    statements interleave and whichever of them fail: it is told to come back.
    Once the message is committed, every later post is told it is a duplicate. *)
Theorem one_post_at_a_time k token c created t r1 mid r2 t' res st :
  t !! k = Some (mkReceipt st token c created) ->
  (forall x, x = r1 \/ x = r2 -> others (spares k token c created) (rd_mid1 x) /\ others (spares k token c created) (rd_mid2 x) /\
    (st = PROCESSING -> rd_now x - claimLease <= c)) -> others (spares k token c created) mid ->
  Claim k claimLease r1 mid r2 t = (t', res) ->
  t' !! k = Some (mkReceipt st token c created) /\ (forall tok, res <> Ok (ClaimAcquired, tok)) /\
  (forall v tok, res = Ok (v, tok) -> v = match st with DONE => ClaimDuplicate | PROCESSING => ClaimInFlight end).
Proof.
  intros Hk Hr Hm Hc. eapply (claim_meets k (mkReceipt st token c created)); [|exact Hr|exact Hm|exact Hk|exact Hc].
  intros o t0 Ho. destruct st; [by apply claim_stands|apply done_stands]. by intros before ->.
Qed.

(** A post of a new message is let in, and so is one whose predecessor gave up. *)
Theorem new_post_is_let_in (k : ReceiptKey) (token : string) (now : Z) (r2 : Round) (mid : Receipts -> Receipts) (t : Receipts) :
  (t !! k = None \/ exists tok c created, t !! k = Some (mkReceipt PROCESSING tok c created) /\ c < now - claimLease) ->
  exists t', Claim k claimLease (mkRound now token Up (fun t => t) Up (fun t => t) Up) mid r2 t = (t', Ok (ClaimAcquired, token)) /\
    exists created, t' !! k = Some (mkReceipt PROCESSING token now created).
Proof.
  intros [Hk|(tok & c & created & Hk & Hc)]; unfold Claim, claimRound; cbn [rd_insert rd_token rd_now rd_mid1 rd_takeover exec]; unfold insert_receipt; rewrite Hk.
  - eexists. split; [done|]. exists now. by rewrite lookup_insert_eq.
  - cbn [Z.eqb]. unfold take_over_receipt. rewrite Hk, bool_decide_eq_true_2 by done. cbn [r_claimed_at andb]. rewrite (proj2 (Z.ltb_lt _ _)) by done.
    eexists. split; [done|]. exists created. by rewrite lookup_insert_eq.
Qed.

End InboundStore.
