(* ===== verification/Inbound.v ===== *)
(** * Processing received mail

    Models internal/inbound/usecases: reading delivery reports
    (delivery_report.go), what a received message does (process_inbound_usecase.go)
    and the announcement of a released one (release_held.go).

    [mail.ParseAddress], [mime.ParseMediaType] and [textproto.ReadMIMEHeader] are
    parameters; HMAC is the one of [Tracking].  The screener is the decision of
    [Filter] with whatever rules it read, and recording a decision, recording an
    event and queueing a notification are effects, in order. *)
From S2P Require Import Prelude GoStrings Encoding KVStore Classify Filter Quarantine Events EventStore EventTimeline Tracking InboundStore.
From Stdlib Require Import Ascii.

Module Inbound.
Import GoStrings Encoding KVStore Classify EventTimeline InboundStore.
Local Open Scope string_scope.
Local Open Scope Z_scope.

(** ** Delivery reports *)

(** A header block: its fields in order, names in canonical form. *)
Abbreviation MIMEHeader := (list (string * string)).

Definition HValues (h : MIMEHeader) (name : string) : list string := snd <$> filter (fun f => f.1 = name) h.
Definition HGet (h : MIMEHeader) (name : string) : string := default "" (head (HValues h name)).

Record ReportedRecipient := mkReported {
  Address : string;
  RAction : string;
  RStatus : string;
  Diagnostic : string
}.

Record DeliveryReport := mkReport {
  ReportRecipients : list ReportedRecipient;
  ReturnedHeaders : MIMEHeader
}.

Definition maxReportPart : nat := Z.to_nat 65536.

Section Reports.
Context (ParseAddress : string -> option string).
Context (ParseMediaType : string -> option string).

(** [ReadMIMEHeader]: the block read, whether it ended in an error, and what is
    left. *)
Context (ReadMIMEHeader : string -> MIMEHeader * bool * string).

Definition bareAddress (s : string) : string :=
  let s := TrimSpace s in
  match ParseAddress s with
  | Some a => ToLower a
  | None =>
      let s := Trim s "<>" in
      if negb (str_all (fun c => negb (in_cutset (" " ++ String (ascii_of_nat 9) "<>") c)) s) || negb (Contains s "@") then "" else ToLower s
  end.

Definition reportedAddress (field : string) : string :=
  match Cut field ";"%char with
  | None => bareAddress field
  | Some (addrType, value) =>
      let t := ToLower (TrimSpace addrType) in
      if negb (eqb t "rfc822") && negb (eqb t "utf-8") then "" else bareAddress value
  end.

(** One per-recipient block, if it names an address. *)
Definition reportedBlock (h : MIMEHeader) : list ReportedRecipient :=
  match h with
  | [] => []
  | _ =>
      let address := reportedAddress (HGet h "Final-Recipient") in
      let address := if eqb address "" then reportedAddress (HGet h "Original-Recipient") else address in
      if eqb address "" then []
      else [mkReported address (ToLower (TrimSpace (HGet h "Action"))) (TrimSpace (HGet h "Status")) (TrimSpace (HGet h "Diagnostic-Code"))]
  end.

(** The blocks after the per-message one; [None] is a loop that has not ended. *)
Fixpoint recipientBlocks (fuel : nat) (data : string) : option (list ReportedRecipient) :=
  match fuel with
  | O => None
  | S fuel =>
      let '(h, failed, rest) := ReadMIMEHeader data in
      if failed : bool then Some (reportedBlock h)
      else match recipientBlocks fuel rest with Some more => Some (reportedBlock h ++ more)%list | None => None end
  end.

Fixpoint parseStatusFields (fuel : nat) (data : string) : option (list ReportedRecipient) :=
  match fuel with
  | O => None
  | S fuel =>
      let '(h, failed, rest) := ReadMIMEHeader data in
      if failed : bool then Some []
      else match h with
           | [] => parseStatusFields fuel rest
           | _ => recipientBlocks fuel rest
           end
  end.

Definition readHeaderBlock (data : string) : option MIMEHeader :=
  match (ReadMIMEHeader data).1.1 with [] => None | h => Some h end.

Record Part := mkPart {
  ContentType : string;
  Data : string
}.

(** A block takes a byte at least, so the length of what is read is enough. *)
Definition statusOf (data : string) : list ReportedRecipient := default [] (parseStatusFields (S (S (String.length data))) data).

(** The parts in order: the first delivery status and the first returned
    headers count. *)
Fixpoint readParts (parts : list Part) (report : option (list ReportedRecipient)) (returned : option MIMEHeader) :
    option (list ReportedRecipient) * option MIMEHeader :=
  match parts with
  | [] => (report, returned)
  | p :: rest =>
      match ParseMediaType (ContentType p) with
      | None => readParts rest report returned
      | Some mt =>
          let data := take_str maxReportPart (Data p) in
          if bool_decide (mt ∈ ["message/delivery-status"; "message/global-delivery-status"]) then
            readParts rest (match report with None => Some (statusOf data) | _ => report end) returned
          else if bool_decide (mt ∈ ["text/rfc822-headers"; "message/rfc822"; "message/global"; "message/global-headers"]) then
            readParts rest report (match returned with None => readHeaderBlock data | _ => returned end)
          else readParts rest report returned
      end
  end.

Definition ParseDeliveryReport (parts : list Part) : option DeliveryReport :=
  match readParts parts None None with
  | (Some (r :: rs), returned) => Some (mkReport (r :: rs) (default [] returned))
  | _ => None
  end.

End Reports.

(** What one section says happened. *)
Definition reportedEventType (r : ReportedRecipient) : option EmailEventType :=
  if bool_decide (RAction r ∈ ["delivered"; "relayed"; "expanded"]) then None
  else if eqb (RAction r) "delayed" || HasPrefix (RStatus r) "4" then Some SOFT_BOUNCE
  else if negb (eqb (RAction r) "failed") && negb (HasPrefix (RStatus r) "5") then Some BOUNCED
  else if bool_decide (Type_ (ClassifyError (RStatus r)) = HARD_BOUNCE) then Some HARD_BOUNCE
  else
    let c := Type_ (ClassifyError (TrimSpace (Diagnostic r ++ " " ++ RStatus r))) in
    if bool_decide (c ∈ [HARD_BOUNCE; SOFT_BOUNCE; REJECTED]) then Some c else Some BOUNCED.

(** ** A received message *)

Section Process.
Context {DB : Type} `{!KV DB} {codec : InboundCodec}.
Context {Re : Type}.
Context (hmac : string -> string -> string).
Context (ParseAddress : string -> option string).

(** What processing does beyond the mail store, in order. *)
Inductive inboundEffect :=
| RecordBounce (tenant message : string) (ty : EmailEventType) (address diagnostic : string)
| RecordFiltered (m : @Quarantine.FilteredMessage Re)
| Announce (tenant : string) (e : InboundEmail).

(** What one call meets: the lookup of the id, the events of a message, the
    screener's decision, how the write goes, and what is configured. *)
Record ProcessEnv := mkProcessEnv {
  pe_lookup : option string;                                       (* GetByID's own failure *)
  pe_events : string -> string -> result string (list Events.EmailEvent);
  pe_screen : option (Filter.Message -> result string (@Filter.Decision Re));
  pe_write : fault;
  pe_signer : option string;                                       (* the tracking key *)
  pe_webhooks : bool
}.

Definition wasSentTo (env : ProcessEnv) (tenant message address : string) : bool :=
  match pe_events env tenant message with
  | Err _ => false
  | Ok events =>
      existsb (fun e => (bool_decide (Events.Type_ e = SENT) || bool_decide (Events.Type_ e = DELIVERED)) &&
                        eqb (Events.TenantID e) tenant && eqb (bareAddress ParseAddress (Events.Recipient e)) address) events
  end.

(** The message the first reference that verifies names. *)
Fixpoint verifiedRef (key tenant address : string) (refs : list string) : string :=
  match refs with
  | [] => ""
  | ref :: rest =>
      match Tracking.VerifyBounceRef hmac key ref tenant address with
      | Ok id => id
      | Err _ => verifiedRef key tenant address rest
      end
  end.

Definition BounceRefHeader : string := "X-Panmail-Ref".

Definition recordBounce (env : ProcessEnv) (tenant : string) (report : option DeliveryReport) : list inboundEffect :=
  match report, pe_signer env with
  | Some report, Some key =>
      let refs := HValues (ReturnedHeaders report) BounceRefHeader in
      if eqb key "" || bool_decide (refs = []) then []
      else
        omap (fun rcpt =>
                match reportedEventType rcpt with
                | None => None
                | Some ty =>
                    let message := verifiedRef key tenant (Address rcpt) refs in
                    if eqb message "" || negb (wasSentTo env tenant message (Address rcpt)) then None
                    else Some (RecordBounce tenant message ty (Address rcpt) (Diagnostic rcpt))
                end) (ReportRecipients report)
  | _, _ => []
  end.

Definition singleValueHeaders (h : gmap string string) : gmap string (list string) :=
  map_fold (fun name value acc => <[ToLower (TrimSpace name) := [value]]> acc) ∅ h.

Definition screenedMail (e : InboundEmail) : Filter.Message :=
  Filter.mkMessage (I_From e) (I_To e) [] [] (I_Subject e) (I_BodyHTML e) (I_BodyText e) (singleValueHeaders (I_Headers e)) []
    (Z.of_nat (String.length (I_BodyHTML e) + String.length (I_BodyText e) + String.length (I_Subject e))%nat) "" "" "" "".

Definition withIdentity (id : string) (m : @Quarantine.FilteredMessage Re) : @Quarantine.FilteredMessage Re :=
  Quarantine.mkFiltered (Quarantine.ID m) (Quarantine.TenantID m) (Quarantine.FDirection m) (Quarantine.RuleID m)
    (Quarantine.RuleName m) (Quarantine.FAction m) (Quarantine.FStatus m) id (Quarantine.FFrom m)
    (Quarantine.FRecipients m) (Quarantine.FSubject m) (Quarantine.SizeBytes m) (Quarantine.AttachmentCount m)
    (Quarantine.AttachmentNames m) (Quarantine.Matched m) id (Quarantine.FProviderID m)
    (Quarantine.ReviewedBy m) (Quarantine.ReviewedAt m) (Quarantine.ReviewNote m) (Quarantine.CreatedAt m)
    (Quarantine.ExpiresAt m).

(** The last step: store the message, and announce it once it is stored. *)
Definition storeAndAnnounce (env : ProcessEnv) (e : InboundEmail) (effs : list inboundEffect) (s : Mailbox DB) :
    Mailbox DB * list inboundEffect * option string :=
  match Write (pe_write env) e s with
  | (s', Some err) => (s', effs, Some err)
  | (s', None) => (s', (effs ++ if pe_webhooks env then [Announce (I_TenantID e) e] else [])%list, None)
  end.

(** [Process]: the timestamp of the message is part of it. *)
Definition Process (env : ProcessEnv) (e : InboundEmail) (report : option DeliveryReport) (s : Mailbox DB) :
    Mailbox DB * list inboundEffect * option string :=
  let seen :=
    if eqb (I_ID e) "" then false
    else match pe_lookup env, GetInbound (I_TenantID e) (I_ID e) s with
         | None, Ok (Some _) => true
         | _, _ => false
         end in
  if seen : bool then (s, [], None)
  else
    let bounces := recordBounce env (I_TenantID e) report in
    match pe_screen env with
    | None => storeAndAnnounce env e bounces s
    | Some Screen =>
        match Screen (screenedMail e) with
        | Err _ => storeAndAnnounce env e bounces s
        | Ok d =>
            let record := withIdentity (I_ID e) (Quarantine.NewFilteredMessage (I_TenantID e) Filter.DirectionInbound (screenedMail e) d) in
            match Filter.DAction d with
            | Filter.ActionReject => (s, (bounces ++ [RecordFiltered record])%list, None)
            | Filter.ActionHold =>
                match Write (pe_write env) e s with
                | (s', Some err) => (s', bounces, Some err)
                | (s', None) => (s', (bounces ++ [RecordFiltered record])%list, None)
                end
            | Filter.ActionTag => storeAndAnnounce env e (bounces ++ [RecordFiltered record])%list s
            | _ => storeAndAnnounce env e bounces s
            end
        end
    end.

(** [ReleaseHeld]: what a hold withheld is announced from what was stored. *)
Definition ReleaseHeld (webhooks : bool) (tenant id : string) (s : Mailbox DB) : result string (list inboundEffect) :=
  if negb webhooks then Err "no inbound webhook trigger is configured"
  else
    match GetInbound tenant id s with
    | Err e => Err ("reading the held message: " ++ e)
    | Ok None => Err ("held message " ++ id ++ " is no longer stored")
    | Ok (Some e) => Ok [Announce tenant e]
    end.

End Process.
(** ** What is believed of a report *)

Lemma verifiedRef_in hmac key tenant address refs m : verifiedRef hmac key tenant address refs = m -> m <> "" ->
  exists ref, ref ∈ refs /\ Tracking.VerifyBounceRef hmac key ref tenant address = Ok m.
Proof.
  induction refs as [|ref refs IH]; cbn [verifiedRef]; [by intros <-|].
  destruct (Tracking.VerifyBounceRef hmac key ref tenant address) as [id|] eqn:E; intros Hm Hne.
  - subst id. exists ref. by split; [left|].
  - destruct (IH Hm Hne) as (r & Hr & Hv). exists r. by split; [right|].
Qed.

(** A reference that verifies carries the MAC of the tenant, the message and the
    address. *)
Lemma verified_ref_mac hmac key ref tenant address m : Tracking.VerifyBounceRef hmac key ref tenant address = Ok m ->
  m <> "" /\ exists sig, RawURLDecode sig = Some (hmac key (Tracking.canonical (Tracking.bounceLink tenant m address))) /\
    exists a, TrimSpace ref = a ++ m ++ "." ++ sig.
Proof.
  unfold Tracking.VerifyBounceRef. destruct (HasPrefix (TrimSpace ref) Tracking.bounceRefVersion) eqn:Hp; [|done]. cbn [negb].
  destruct (cut_last _ _) as [[m' sig]|] eqn:Hc; [|done]. destruct (eqb m' "") eqn:Em; [done|]. destruct (eqb sig "") eqn:Es; [done|]. cbn [orb].
  destruct (Tracking.Verify _ _ _ _) eqn:Hv; [done|]. intros [= <-]. split; [by apply eqb_false in Em|]. exists sig. split.
  - unfold Tracking.Verify in Hv. rewrite Es in Hv. destruct (RawURLDecode sig) as [provided|]; [|done]. destruct (Tracking.mac _ _ _) as [sum|] eqn:Hs; [|done].
    unfold Tracking.mac in Hs. destruct (eqb key ""); [done|]. injection Hs as <-.
    destruct (eqb provided _) eqn:E; [|done]. by apply eqb_true in E as ->.
  - apply HasPrefix_spec in Hp as [r Hr]. rewrite Hr, TrimPrefix_app in Hc. apply cut_last_spec in Hc as ->. by exists Tracking.bounceRefVersion.
Qed.

Section Facts.
Context {DB : Type} `{!KV DB} {codec : InboundCodec}.
Context {Re : Type}.
Context (hmac : string -> string -> string).
Context (ParseAddress : string -> option string).

Abbreviation Process := (Process (DB := DB) (Re := Re) hmac ParseAddress).

Lemma storeAndAnnounce_effects env e effs (s : Mailbox DB) s' effs' err : storeAndAnnounce (Re := Re) env e effs s = (s', effs', err) ->
  exists more, effs' = (effs ++ more)%list /\ (forall x, x ∈ more -> x = Announce (I_TenantID e) e /\ err = None).
Proof.
  unfold storeAndAnnounce. destruct (Write _ _ _) as [s1 [er|]]; intros [= <- <- <-]; [exists []; split; [by rewrite app_nil_r|by intros x ?%elem_of_nil]|].
  eexists. split; [done|]. destruct (pe_webhooks env); [|by intros x ?%elem_of_nil]. intros x ->%list_elem_of_singleton. done.
Qed.

(** Bounces come from the report alone, before anything else. *)
Lemma Process_bounces env e report (s s' : Mailbox DB) effs err t m ty a diag : Process env e report s = (s', effs, err) ->
  RecordBounce t m ty a diag ∈ effs -> RecordBounce t m ty a diag ∈ recordBounce hmac ParseAddress env (I_TenantID e) report.
Proof.
  assert (Hsa : forall base, storeAndAnnounce (Re := Re) env e base s = (s', effs, err) -> (RecordBounce t m ty a diag ∈ base -> RecordBounce t m ty a diag ∈ recordBounce hmac ParseAddress env (I_TenantID e) report) ->
    RecordBounce t m ty a diag ∈ effs -> RecordBounce t m ty a diag ∈ recordBounce hmac ParseAddress env (I_TenantID e) report).
  { intros base H Hb Hin. apply storeAndAnnounce_effects in H as (more & -> & Hmore). apply elem_of_app in Hin as [?|Hin]; [by apply Hb|].
    by apply Hmore in Hin as [? _]. }
  assert (Hrec : forall r, RecordBounce t m ty a diag ∈ (recordBounce hmac ParseAddress env (I_TenantID e) report ++ [RecordFiltered r])%list ->
    RecordBounce t m ty a diag ∈ recordBounce hmac ParseAddress env (I_TenantID e) report)
    by (intros r [?|Hin]%elem_of_app; [done|by apply list_elem_of_singleton in Hin]).
  unfold Inbound.Process. destruct (if eqb (I_ID e) "" then _ else _); [intros [= <- <- <-] ?%elem_of_nil; done|].
  destruct (pe_screen env) as [Screen|]; [|intros H Hin; eapply Hsa; [exact H|done|done]].
  destruct (Screen _) as [d|]; [|intros H Hin; eapply Hsa; [exact H|done|done]].
  destruct (Filter.DAction d); try (intros H Hin; eapply Hsa; [exact H|done|done]).
  - destruct (Write _ _ _) as [s1 [er|]]; intros [= <- <- <-]; [done|apply Hrec].
  - intros [= <- <- <-]. apply Hrec.
  - intros H Hin. eapply Hsa; [exact H|apply Hrec|done].
Qed.

(** C24: a bounce is believed only of a copy we sent.  Whatever mail arrives,
    every bounce it makes panmail record is for the tenant whose mailbox it came
    to, for an address the event store shows that tenant's message was sent to,
    and the report hands back a reference with the MAC, under the gateway's key,
    of exactly that tenant, message and address.  So is every suppression that
    recording it makes. *)
Theorem bounce_needs_our_copy env e report (s s' : Mailbox DB) effs err t m ty a diag :
  Process env e report s = (s', effs, err) -> RecordBounce t m ty a diag ∈ effs ->
  t = I_TenantID e /\
  (exists r, report = Some r /\ exists key ref sig before, pe_signer env = Some key /\ key <> "" /\ ref ∈ HValues (ReturnedHeaders r) BounceRefHeader /\
    TrimSpace ref = before ++ m ++ "." ++ sig /\ RawURLDecode sig = Some (hmac key (Tracking.canonical (Tracking.bounceLink t m a)))) /\
  (exists events ev, pe_events env t m = Ok events /\ ev ∈ events /\ (Events.Type_ ev = SENT \/ Events.Type_ ev = DELIVERED) /\
    Events.TenantID ev = t /\ bareAddress ParseAddress (Events.Recipient ev) = a) /\
  forall evenv names t' address reason, (t', address, reason) ∈ Events.suppressions (Events.RecordEvent evenv t "" m ty a "" diag names).1.2 ->
    t' = t /\ (a <> "" -> ToLower (TrimSpace a) = a -> address = a).
Proof.
  intros H Hin. apply (Process_bounces _ _ _ _ _ _ _ _ _ _ _ _ H) in Hin. unfold recordBounce in Hin.
  destruct report as [r|]; [|by apply elem_of_nil in Hin]. destruct (pe_signer env) as [key|] eqn:Hkey; [|by apply elem_of_nil in Hin].
  destruct (eqb key "") eqn:Ek; [by apply elem_of_nil in Hin|]. destruct (bool_decide _); [by apply elem_of_nil in Hin|]. cbn [orb] in Hin.
  apply list_elem_of_omap in Hin as (rcpt & _ & Hr). destruct (reportedEventType rcpt) as [ty'|]; [|done].
  set (m' := verifiedRef hmac key (I_TenantID e) (Address rcpt) (HValues (ReturnedHeaders r) BounceRefHeader)) in *.
  destruct (eqb m' "") eqn:Em; [done|]. destruct (wasSentTo _ _ _ _ _) eqn:Hw; [|done]. injection Hr as <- <- <- <- <-.
  apply eqb_false in Em, Ek. destruct (verifiedRef_in hmac key _ _ _ m' eq_refl Em) as (ref & Href & Hv).
  destruct (verified_ref_mac _ _ _ _ _ _ Hv) as (_ & sig & Hsig & before & Hb).
  split_and!; [done|exists r; split; [done|by exists key, ref, sig, before]| |].
  - unfold wasSentTo in Hw. destruct (pe_events env (I_TenantID e) m') as [events|]; [|done]. exists events.
    apply existsb_exists in Hw as (ev & Hev & Hc). exists ev. apply list_elem_of_In in Hev. split; [done|]. split; [done|].
    apply andb_true_iff in Hc as [Hc Ha]. apply andb_true_iff in Hc as [Hty Ht]. apply eqb_true in Ha, Ht. split; [|by split].
    apply orb_true_iff in Hty as [?%bool_decide_eq_true|?%bool_decide_eq_true]; [by left|by right].
  - intros evenv names t' address reason Hs. destruct (Events.RecordEvent _ _ _ _ _ _ _ _ _) as [[o effs0] nm] eqn:Hre. cbn [fst snd] in Hs.
    rewrite (Events.RecordEvent_suppressions _ _ _ _ _ _ _ _ _ _ _ _ Hre) in Hs. destruct o; [by apply elem_of_nil in Hs|].
    unfold Events.suppressForEvent in Hs. destruct (_ || _); [by apply elem_of_nil in Hs|].
    assert (Hone : t' = I_TenantID e /\ address = Events.f_recipient (Events.recoverFields evenv "" m' (ToLower (TrimSpace (Address rcpt))) "")).
    { destruct (Events.recordedType _ _); simpl in Hs; try (by apply elem_of_nil in Hs); apply list_elem_of_singleton in Hs; by simplify_eq. }
    destruct Hone as [-> ->]. split; [done|]. intros Hne Hlow. rewrite Events.recover_recipient; [done|]. by rewrite Hlow.
Qed.

End Facts.

(** ** Once *)

Section Once.
Context {DB : Type} (merge : option string -> string -> string) `{!KV DB, !KVLaws DB merge} {codec : InboundCodec} {laws : InboundCodecLaws codec}.
Context {Re : Type}.
Context (hmac : string -> string -> string).
Context (ParseAddress : string -> option string).

Abbreviation Process := (Process (DB := DB) (Re := Re) hmac ParseAddress).

(** Arrivals, one after the other: what each meets, the message and its report. *)
Abbreviation arrival := (@ProcessEnv Re * InboundEmail * option DeliveryReport)%type.

Fixpoint arrivals (l : list arrival) (s : Mailbox DB) : Mailbox DB * list (@inboundEffect Re) :=
  match l with
  | [] => (s, [])
  | (env, e, report) :: rest =>
      let '(s', effs, _) := Process env e report s in
      let '(s'', effs') := arrivals rest s' in (s'', (effs ++ effs')%list)
  end.

(** The announcements of one message. *)
Definition announces (tenant id : string) (x : @inboundEffect Re) : Prop :=
  match x with Announce t e => t = tenant /\ I_ID e = id | _ => False end.
#[local] Instance announces_dec tenant id x : Decision (announces tenant id x).
Proof. destruct x; simpl; apply _. Defined.

Definition announcements (tenant id : string) (effs : list (@inboundEffect Re)) : nat := length (filter (announces tenant id) effs).

Lemma announcements_app tenant id a b : announcements tenant id (a ++ b) = (announcements tenant id a + announcements tenant id b)%nat.
Proof. unfold announcements. by rewrite filter_app, length_app. Qed.

Lemma recordBounce_silent env tenant report t id : announcements t id (recordBounce hmac ParseAddress env tenant report) = 0%nat.
Proof.
  unfold recordBounce. destruct report as [r|]; [|done]. destruct (pe_signer env) as [key|]; [|done]. destruct (_ || _); [done|].
  induction (ReportRecipients r) as [|x l IH]; [done|]. cbn [omap list_omap]. destruct (reportedEventType x); [|done]. destruct (_ || _); [done|]. exact IH.
Qed.

(** What one call of [Process] can do to the store. *)
Lemma Process_write env e report (s s' : Mailbox DB) effs err : Process env e report s = (s', effs, err) ->
  (s' = s /\ forall t id, announcements t id effs = 0%nat) \/
  (exists werr, Write (pe_write env) e s = (s', werr)) /\
  forall t id, announcements t id effs = 0%nat \/ Write (pe_write env) e s = (s', None) /\ t = I_TenantID e /\ id = I_ID e /\ announcements t id effs = 1%nat.
Proof.
  assert (Hsa : forall base, (forall t id, announcements t id base = 0%nat) -> storeAndAnnounce (Re := Re) env e base s = (s', effs, err) ->
    (exists werr, Write (pe_write env) e s = (s', werr)) /\
    forall t id, announcements t id effs = 0%nat \/ Write (pe_write env) e s = (s', None) /\ t = I_TenantID e /\ id = I_ID e /\ announcements t id effs = 1%nat).
  { intros base Hb. unfold storeAndAnnounce. destruct (Write _ _ _) as [s1 [er|]]; intros [= <- <- <-]; (split; [by eexists|]); intros t id; [by left|].
    rewrite announcements_app, Hb. destruct (pe_webhooks env); [|by left]. unfold announcements. rewrite filter_cons. destruct (decide _) as [[-> ->]|]; [right|left]; done. }
  pose proof (recordBounce_silent env (I_TenantID e) report) as Hb.
  assert (Hr : forall r t id, announcements t id (recordBounce hmac ParseAddress env (I_TenantID e) report ++ [RecordFiltered r]) = 0%nat)
    by (intros r t id; rewrite announcements_app, Hb; done).
  unfold Inbound.Process. destruct (if eqb (I_ID e) "" then _ else _); [intros [= <- <- <-]; by left|].
  destruct (pe_screen env) as [Screen|]; [|intros H; right; eapply Hsa; [|exact H]; apply Hb].
  destruct (Screen _) as [d|]; [|intros H; right; eapply Hsa; [|exact H]; apply Hb].
  destruct (Filter.DAction d); try (intros H; right; eapply Hsa; [|exact H]; first [apply Hb|apply Hr]).
  - destruct (Write _ _ _) as [s1 [er|]]; intros [= <- <- <-]; right; (split; [by eexists|]); intros t id; left; [apply Hb|apply Hr].
  - intros [= <- <- <-]. left. split; [done|]. apply Hr.
Qed.

(** A message that is stored, and can be looked up, is not processed again. *)
Lemma Process_seen env e report (s : Mailbox DB) : I_ID e <> "" -> pe_lookup env = None -> held (I_TenantID e) (I_ID e) s -> Process env e report s = (s, [], None).
Proof. intros Hid Hl [e0 He]. unfold Inbound.Process. rewrite (proj2 (eqb_false _ _) Hid), Hl, He. done. Qed.

(** Mail with an id, of a tenant whose name keys can hold, looked up without
    failure. *)
Definition regular (x : arrival) : Prop := let '(env, e, _) := x in pe_lookup env = None /\ I_ID e <> "" /\ no_colon (I_TenantID e).

(** Mail is announced once.  However often the poller, IDLE and a provider's
    posts offer a message, one after the other, it is announced at most once, and
    not at all if it was already stored: not to the subscribers, and -- a stored
    message is skipped whole -- with nothing else it does done again. *)
Theorem mail_is_announced_once l (s s' : Mailbox DB) effs tenant id : readable s -> Forall regular l -> no_colon tenant -> arrivals l s = (s', effs) ->
  (announcements tenant id effs <= if decide (is_Some (kv_get (mb_db s) (inboundIdx tenant id))) then 0 else 1)%nat.
Proof.
  intros Hr Hl Ht. revert s effs Hr. induction Hl as [|[[env e] report] l (Hlook & Hid & He) _ IH]; intros s effs Hr; cbn [arrivals].
  - intros [= <- <-]. cbn. lia.
  - destruct (Process env e report s) as [[s1 effs1] err] eqn:Hp. destruct (arrivals l s1) as [s2 effs2] eqn:Ha. intros [= <- <-]. rewrite announcements_app.
    destruct (decide (is_Some (kv_get (mb_db s) (inboundIdx (I_TenantID e) (I_ID e))))) as [Hh|Hh].
    + apply (held_iff _ _ s Hr He) in Hh. rewrite (Process_seen env e report s Hid Hlook Hh) in Hp. injection Hp as <- <- _. by apply IH in Ha.
    + apply Process_write in Hp as [[-> Hz]|[[werr Hw] Hz]]; [rewrite Hz; by apply IH in Ha|].
      pose proof (write_readable merge _ _ _ _ _ He Hw Hr) as Hr1. apply IH in Ha; [|done].
      assert (Hkeep : is_Some (kv_get (mb_db s) (inboundIdx tenant id)) -> is_Some (kv_get (mb_db s1) (inboundIdx tenant id))).
      { intros H. apply (held_iff tenant id s Hr Ht) in H. apply (held_iff tenant id s1 Hr1 Ht). by eapply (write_keeps merge). }
      destruct (Hz tenant id) as [->|(Hw' & -> & -> & ->)].
      * destruct (decide (is_Some (kv_get (mb_db s) _))) as [H|]; [apply Hkeep in H; by rewrite decide_True in Ha|]. destruct (decide _); lia.
      * assert (Hnew : is_Some (kv_get (mb_db s1) (inboundIdx (I_TenantID e) (I_ID e)))).
        { apply (held_iff _ _ s1 Hr1 He). exists e. by eapply (write_held merge). }
        rewrite decide_True in Ha by done. rewrite decide_False by done. lia.
Qed.

(** A held message waits whole.  A message a rule holds is stored as it
    arrived and recorded for review, and announced to nobody; releasing it
    announces exactly what arrived. *)
Theorem held_mail_waits_whole env e report Screen d (s s' : Mailbox DB) effs :
  pe_screen env = Some Screen -> Screen (screenedMail e) = Ok d -> Filter.DAction d = Filter.ActionHold ->
  ~ held (I_TenantID e) (I_ID e) s -> Process env e report s = (s', effs, None) ->
  (forall t id, announcements t id effs = 0%nat) /\
  (exists record, effs = (recordBounce hmac ParseAddress env (I_TenantID e) report ++ [RecordFiltered record])%list /\ Quarantine.MessageID record = I_ID e /\
    Quarantine.PayloadRef record = I_ID e /\ Quarantine.FAction record = Filter.ActionHold) /\
  ReleaseHeld (Re := Re) true (I_TenantID e) (I_ID e) s' = Ok [Announce (I_TenantID e) e].
Proof.
  intros Hs Hd Ha Hnew. unfold Inbound.Process. rewrite Hs, Hd, Ha.
  assert (Hseen : (if eqb (I_ID e) "" then false else match pe_lookup env, GetInbound (I_TenantID e) (I_ID e) s with None, Ok (Some _) => true | _, _ => false end) = false).
  { destruct (eqb (I_ID e) ""); [done|]. destruct (pe_lookup env); [done|]. destruct (GetInbound _ _ s) as [[e0|]|] eqn:E; try done. destruct Hnew. by exists e0. }
  rewrite Hseen. destruct (Write (pe_write env) e s) as [s1 [er|]] eqn:Hw; intros [= <- <-]. split_and!.
  - intros t id. by rewrite announcements_app, recordBounce_silent.
  - eexists. split; [done|]. simpl. by rewrite Ha.
  - unfold ReleaseHeld. cbn [negb]. by rewrite (write_held merge _ _ _ _ Hw).
Qed.

End Once.

End Inbound.
