(* ===== verification/InboundPosts.v ===== *)
(** * Mail posted over HTTP

    Models internal/inbound/transports/http: the endpoint inbound-parse services
    post received mail to (webhook.go), the receipts that recognise a retry
    (dedupe.go) and the posts SES makes through SNS (sns.go).

    The parsers of content types, JSON, forms, raw messages and URLs, SHA-256,
    HMAC, version-5 UUIDs and the two verifiers of gsmail -- Basic credentials and
    SNS signatures -- are parameters. *)
From S2P Require Import Prelude GoStrings Encoding KVStore Classify Filter Quarantine Events EventStore EventTimeline Tracking InboundStore Inbound.
From Stdlib Require Import Ascii.

Module InboundPosts.
Import GoStrings Encoding KVStore Classify EventTimeline InboundStore Inbound.
Local Open Scope string_scope.
Local Open Scope Z_scope.

(** ** Payloads *)

(** A parsed message. *)
Record Parsed := mkParsed {
  q_From : string;
  q_To : list string;
  q_Subject : string;
  q_Body : string;
  q_HTML : string;
  q_Headers : gmap string string;
  q_Parts : list Part
}.

Record inboundPayload := mkPayload {
  p_From : string;
  p_To : list string;
  p_Subject : string;
  p_HTML : string;
  p_Text : string;
  p_Headers : gmap string string;
  p_Raw : string;
  p_EventID : string;
  p_MessageID : string;
  p_raw : option Parsed
}.

Definition or_else (a b : string) : string := if eqb a "" then b else a.

Inductive ProviderType := SES | SENDGRID | OtherType.
#[export] Instance ProviderType_eq_dec : EqDecision ProviderType.
Proof. solve_decision. Defined.

Record Provider := mkProvider {
  pv_type : ProviderType;
  pv_tenant : string;
  pv_id : string;
  pv_secret : string
}.

Record URL := mkURL {
  u_Scheme : string;
  u_User : bool;
  u_Host : string;
  u_Port : string
}.

(** A post: what the server hands over.  [None] is a body too large to read. *)
Record Post := mkPost {
  ps_method : string;
  ps_path : string;
  ps_body : option string;
  ps_contentType : string;
  ps_signature : string;
  ps_authorization : string
}.

Record SNSMessage := mkSNS {
  n_Type : string;
  n_TopicArn : string;
  n_SubscribeURL : string;
  n_Message : string
}.

Record sesReceived := mkSES {
  z_type : string;
  z_messageId : string;
  z_source : string;
  z_destination : list string;
  z_headers : list (string * string);
  z_from : list string;
  z_to : list string;
  z_subject : string;
  z_encoding : string;
  z_bucket : string;
  z_key : string;
  z_content : string
}.

(** What the submission parser makes of a raw message: from, to, subject, text
    and HTML. *)
Record Submission := mkSubmission {
  b_From : string;
  b_To : list string;
  b_Subject : string;
  b_Text : string;
  b_Html : string
}.

Inductive verifyError := Unauthenticated | Unreachable.

(** What is answered: a status, and when to come back. *)
Record response := mkResponse {
  code_ : Z;
  retryAfter : string
}.
Definition status (n : Z) : response := mkResponse n "".

Class Parsers := {
  MediaType : string -> option (string * string);                      (* with the boundary, or none *)
  JSONPayload : string -> option inboundPayload;
  Multipart : string -> string -> option (list (string * string));     (* boundary, body: fields in order *)
  FormQuery : string -> option (list (string * string));
  HeaderBlock : string -> list (string * string);                      (* what a header block yields *)
  RawEmail : string -> option Parsed;
  ParseURL : string -> option URL;
  SNSEnvelope : string -> option (string * string);                    (* TopicArn, SigningCertURL *)
  SNSVerify : string -> result verifyError SNSMessage;
  SESNotification : string -> option sesReceived;
  SubmissionParse : string -> string -> option Submission;
  BasicOk : string -> string -> string -> bool;                        (* Authorization, user, password *)
  SHA256 : string -> string;
  UUID5 : string -> string;
  HMAC : string -> string -> string
}.

(** [sendGridInboundToken]: what is before the token, the credential, and what is
    after it. *)
Fixpoint nonspace (s : string) : string * string :=
  match s with
  | "" => ("", "")
  | String c r => if re_space c then ("", s) else let '(a, b) := nonspace r in (String c a, b)
  end.

Fixpoint inboundToken (s : string) : option (string * string * string) :=
  match s with
  | "" => None
  | String c r =>
      if re_space c && HasPrefix r "inbound=" then let '(cred, rest) := nonspace (TrimPrefix r "inbound=") in Some ("", cred, rest)
      else match inboundToken r with Some (a, cred, rest) => Some (String c a, cred, rest) | None => None end
  end.

(** The public key and the inbound credential of a SendGrid secret. *)
Definition SplitSendGridWebhookSecret (secret : string) : string * string :=
  match (if HasPrefix secret "inbound=" then let '(cred, rest) := nonspace (TrimPrefix secret "inbound=") in Some ("", cred, rest) else inboundToken secret) with
  | None => (TrimSpace secret, "")
  | Some (before, cred, rest) => (TrimSpace (before ++ " " ++ rest), cred)
  end.

Section Posts.
Context {parsers : Parsers}.

Definition readRaw (p : inboundPayload) : inboundPayload :=
  if eqb (p_Raw p) "" then p
  else
    match RawEmail (p_Raw p) with
    | None => p
    | Some q =>
        mkPayload (or_else (p_From p) (q_From q)) (match p_To p with [] => q_To q | l => l end) (or_else (p_Subject p) (q_Subject q))
          (or_else (p_HTML p) (q_HTML q)) (or_else (p_Text p) (q_Body q)) (if bool_decide (p_Headers p = ∅) then q_Headers q else p_Headers p)
          (p_Raw p) (p_EventID p) (p_MessageID p) (Some q)
    end.

Definition empty (p : inboundPayload) : bool :=
  eqb (p_From p) "" && bool_decide (p_To p = []) && eqb (p_Subject p) "" && eqb (p_HTML p) "" && eqb (p_Text p) "".

Definition VGet (values : list (string * string)) (name : string) : string := default "" (head (snd <$> filter (fun v => v.1 = name) values)).

(** The first value of a header is the one kept. *)
Definition firstValues (h : list (string * string)) : gmap string string := foldl (fun m f => match m !! f.1 with Some _ => m | None => <[f.1 := f.2]> m end) ∅ h.

Definition crlf : string := String (ascii_of_nat 13) (String (ascii_of_nat 10) "").

Definition fromForm (values : list (string * string)) : inboundPayload :=
  mkPayload (VGet values "from")
    (filter (fun a => a <> "") (TrimSpace <$> ((snd <$> filter (fun v => v.1 = "to") values) ≫= fun f => Split f ","%char)))
    (VGet values "subject") (VGet values "html") (VGet values "text")
    (let raw := VGet values "headers" in if eqb raw "" then ∅ else firstValues (HeaderBlock (raw ++ crlf ++ crlf)))
    (VGet values "email") (VGet values "event_id") (or_else (VGet values "message_id") (VGet values "Message-Id")) None.

(** A payload, or the status it is refused with. *)
Definition parsePayload (contentType body : string) : result Z inboundPayload :=
  match MediaType contentType with
  | None => Err 415
  | Some (mediaType, boundary) =>
      let parsed :=
        if eqb mediaType "application/json" then match JSONPayload body with Some p => Ok p | None => Err 400 end
        else if eqb mediaType "multipart/form-data" then
          if eqb boundary "" then Err 400 else match Multipart boundary body with Some v => Ok (fromForm v) | None => Err 400 end
        else if eqb mediaType "application/x-www-form-urlencoded" then match FormQuery body with Some v => Ok (fromForm v) | None => Err 400 end
        else Err 415 in
      match parsed with
      | Err e => Err e
      | Ok p => let p := readRaw p in if empty p then Err 400 else Ok p
      end
  end.

(** ** Authentication *)

Definition verifyBasic (authorization secret : string) : bool :=
  match Cut secret ":"%char with
  | None => BasicOk authorization "" secret
  | Some (user, pass) => BasicOk authorization user pass
  end.

Definition verifySignature (secret signature body : string) : bool :=
  match HexDecode (TrimPrefix signature "sha256=") with
  | None => false
  | Some want => eqb (HMAC secret body) want
  end.

Definition authenticate (r : Post) (p : Provider) (body : string) : bool :=
  match pv_type p with
  | SENDGRID =>
      let credential := (SplitSendGridWebhookSecret (pv_secret p)).2 in
      if eqb credential "" then false else verifyBasic (ps_authorization r) credential
  | _ =>
      if negb (eqb (ps_signature r) "") then verifySignature (pv_secret p) (ps_signature r) body
      else if negb (eqb (ps_authorization r) "") then verifyBasic (ps_authorization r) (pv_secret p)
      else false
  end.

(** [lookupProvider]: [find] is the store's answer under a tenant. *)
Definition lookupProvider (find : string -> string -> result string (option Provider)) (tenant id : string) : option Provider :=
  match find tenant id with
  | Ok (Some p) => if eqb (pv_secret p) "" then None else Some p
  | _ => None
  end.

(** ** SNS (sns.go) *)

Definition region_char (c : ascii) : bool := is_digit c || ((97 <=? code c) && (code c <=? 122)) || bool_decide (c = "-"%char).

(** [snsHost]: the region of an SNS endpoint. *)
Definition snsRegion (host : string) : option string :=
  if HasPrefix host "sns." then
    match Cut (TrimPrefix host "sns.") "."%char with
    | Some (region, rest) =>
        if negb (eqb region "") && str_all region_char region && (eqb rest "amazonaws.com" || eqb rest "amazonaws.com.cn") then Some region else None
    | None => None
    end
  else None.

Definition snsURLAllowed (raw region : string) : bool :=
  match ParseURL raw with
  | None => false
  | Some u =>
      if negb (eqb (u_Scheme u) "https") || u_User u || negb (eqb (u_Port u) "") then false
      else match snsRegion (u_Host u) with Some r => eqb r region | None => false end
  end.

Definition topicRegion (arn : string) : string :=
  match Split arn ":"%char with
  | [a; _; s; region; _; _] => if eqb a "arn" && eqb s "sns" then region else ""
  | _ => ""
  end.

Definition topicAllowed (configured arn : string) : bool :=
  if eqb arn "" then false else existsb (fun want => let want := TrimSpace want in negb (eqb want "") && eqb want arn) (Split configured ","%char).

(** What handling a post asks of the network, in order. *)
Inductive request :=
| FetchCertificate (url : string)
| ConfirmSubscription (url : string).

Definition verifySNS (topics body : string) : result verifyError SNSMessage * list request :=
  match SNSEnvelope body with
  | None => (Err Unauthenticated, [])
  | Some (topic, cert) =>
      if negb (topicAllowed topics topic) then (Err Unauthenticated, [])
      else if negb (snsURLAllowed cert (topicRegion topic)) then (Err Unauthenticated, [])
      else (SNSVerify body, [FetchCertificate cert])
  end.

Definition headerSESBucket : string := "X-Panmail-Ses-S3-Bucket".
Definition headerSESObjectKey : string := "X-Panmail-Ses-S3-Object-Key".

Definition parseSESReceived (raw : string) : option inboundPayload :=
  match SESNotification raw with
  | None => None
  | Some n =>
      if negb (eqb (z_type n) "Received") then None
      else
        let from := or_else (default "" (head (z_from n))) (z_source n) in
        let to := match z_to n with [] => z_destination n | l => l end in
        let headers := firstValues (z_headers n) in
        let p := mkPayload from to (z_subject n) "" "" headers "" (z_messageId n) "" None in
        if eqb (z_content n) "" then
          let p :=
            if eqb (z_bucket n) "" then p
            else mkPayload from to (z_subject n) "" "" (<[headerSESObjectKey := z_key n]> (<[headerSESBucket := z_bucket n]> headers)) "" (z_messageId n) "" None in
          if empty p then None else Some p
        else
          match (if EqualFold (z_encoding n) "BASE64" then StdDecode (z_content n) else Some (z_content n)) with
          | None => None
          | Some content =>
              match SubmissionParse content (z_source n) with
              | None => Some (mkPayload from to (z_subject n) "" content headers content (z_messageId n) "" None)
              | Some b =>
                  Some (readRaw (mkPayload (b_From b) (match b_To b with [] => to | l => l end) (or_else (b_Subject b) (z_subject n))
                    (b_Html b) (b_Text b) headers content (z_messageId n) "" None))
              end
          end
  end.

(** [confirmSubscription]; [answer] is what the endpoint says, if it is asked. *)
Definition confirmSubscription (answer : option Z) (msg : SNSMessage) : response * list request :=
  if negb (snsURLAllowed (n_SubscribeURL msg) (topicRegion (n_TopicArn msg))) then (status 400, [])
  else (match answer with Some 200 => status 200 | _ => status 502 end, [ConfirmSubscription (n_SubscribeURL msg)]).

(** The payload of an SES post, or the answer already given. *)
Definition receiveSNS (answer : option Z) (p : Provider) (body : string) : result response inboundPayload * list request :=
  match verifySNS (pv_secret p) body with
  | (Err Unreachable, reqs) => (Err (status 503), reqs)
  | (Err Unauthenticated, reqs) => (Err (status 401), reqs)
  | (Ok msg, reqs) =>
      if eqb (n_Type msg) "SubscriptionConfirmation" then
        let '(r, more) := confirmSubscription answer msg in (Err r, (reqs ++ more)%list)
      else if eqb (n_Type msg) "UnsubscribeConfirmation" then (Err (status 200), reqs)
      else match parseSESReceived (n_Message msg) with
           | None => (Err (status 400), reqs)
           | Some payload => (Ok payload, reqs)
           end
  end.

(** ** Recognising a retry (dedupe.go) *)

(** What is hashed: every part with its length before it. *)
Definition digestInput (parts : list string) : string :=
  foldr (fun part acc => FormatInt (Z.of_nat (String.length part)) ++ ":" ++ part ++ acc) "" parts.
Definition digest (parts : list string) : string := HexEncode (SHA256 (digestInput parts)).

(** [messageID]; a map is read in any order, here in the order of its keys. *)
Definition messageID (p : inboundPayload) : string :=
  let id := TrimSpace (p_MessageID p) in
  if negb (eqb id "") then id
  else
    match filter (fun h : string * string => EqualFold h.1 "Message-ID" = true) (map_to_list (p_Headers p)) with
    | (_, v) :: _ => TrimSpace v
    | [] => ""
    end.

Definition newline : string := String (ascii_of_nat 10) "".

Definition dedupeParts (p : inboundPayload) : list string :=
  if negb (eqb (p_EventID p) "") then ["event"; p_EventID p]
  else
    let id := messageID p in
    if negb (eqb id "") then ["message-id"; id; p_From p; Join (p_To p) newline; p_Subject p; p_Text p; p_HTML p] else [].

Definition dedupeKey (p : inboundPayload) : string :=
  match dedupeParts p with [] => "" | parts => digest parts end.

Definition nulByte : string := String (ascii_of_nat 0) "".

(** [fresh] is what [uuid.NewString] draws. *)
Definition inboundID (fresh tenant provider key : string) : string :=
  if eqb key "" then fresh else UUID5 (tenant ++ nulByte ++ provider ++ nulByte ++ key).

(** ** The handler *)

Section Handler.
Context {DB : Type} `{!KV DB} {codec : InboundCodec} {Re : Type}.
Context (ParseAddress : string -> option string).
Context (ReadMIMEHeader : string -> MIMEHeader * bool * string).
Context (MailMediaType : string -> option string).

Record World := mkWorld {
  w_receipts : Receipts;
  w_mail : Mailbox DB
}.

(** What one post meets. *)
Record PostEnv := mkPostEnv {
  po_find : string -> string -> result string (option Provider);
  po_answer : option Z;
  po_receipts : bool;
  po_round1 : Round;
  po_mid : Receipts -> Receipts;
  po_round2 : Round;
  po_fresh : string;
  po_now : Z;
  po_during : Receipts -> Receipts;         (* what other posts do while this one is processed *)
  po_process : @ProcessEnv Re;
  po_settle : fault
}.

(** [claim]: a store that cannot answer is a claim acquired, with nothing to
    settle.  [Some token] is a claim to settle. *)
Definition claim (env : PostEnv) (k : ReceiptKey) (t : Receipts) : Receipts * ClaimResult * option string :=
  if negb (po_receipts env) || eqb k.2 "" then (t, ClaimAcquired, None)
  else
    match Claim k claimLease (po_round1 env) (po_mid env) (po_round2 env) t with
    | (t, Err _) => (t, ClaimAcquired, None)
    | (t, Ok (ClaimAcquired, token)) => (t, ClaimAcquired, Some token)
    | (t, Ok (r, _)) => (t, r, None)
    end.

Definition settle (env : PostEnv) (stmt : Receipts -> Receipts) (held : option string) (t : Receipts) : Receipts :=
  match held with
  | None => t
  | Some _ => (exec (po_settle env) (fun t => Ok (stmt t, tt)) t).1
  end.

Definition mailOf (env : PostEnv) (tenant provider key : string) (p : inboundPayload) : InboundEmail :=
  mkInbound (inboundID (po_fresh env) tenant provider key) tenant (p_From p) (p_To p) (p_Subject p) (p_HTML p) (p_Text p) (po_now env) (p_Headers p).

(** From the payload on. *)
Definition receive (env : PostEnv) (tenant provider : string) (p : inboundPayload) (w : World) : World * list (@inboundEffect Re) * response :=
  let key := dedupeKey p in
  let k := (tenant, provider, key) in
  match claim env k (w_receipts w) with
  | (t, ClaimDuplicate, _) => (mkWorld t (w_mail w), [], status 202)
  | (t, ClaimInFlight, _) => (mkWorld t (w_mail w), [], mkResponse 503 "30")
  | (t, ClaimAcquired, held) =>
      let report := match p_raw p with Some q => ParseDeliveryReport ParseAddress MailMediaType ReadMIMEHeader (q_Parts q) | None => None end in
      let t := po_during env t in
      match Process HMAC ParseAddress (po_process env) (mailOf env tenant provider key p) report (w_mail w) with
      | (s, effs, Some _) => (mkWorld (settle env (release_receipt k (default "" held)) held t) s, effs, status 500)
      | (s, effs, None) => (mkWorld (settle env (complete_receipt k (default "" held)) held t) s, effs, status 202)
      end
  end.

Definition ServePost (env : PostEnv) (r : Post) (w : World) : World * list (@inboundEffect Re) * list request * response :=
  if negb (eqb (ps_method r) "POST") then (w, [], [], status 405)
  else
    match Split (Trim (ps_path r) "/") "/"%char with
    | [_; tenant; provider] =>
        if eqb tenant "" || eqb provider "" then (w, [], [], status 404)
        else
          match ps_body r with
          | None => (w, [], [], status 413)
          | Some body =>
              match lookupProvider (po_find env) tenant provider with
              | None => (w, [], [], status 401)
              | Some p =>
                  let '(payload, reqs) :=
                    if bool_decide (pv_type p = SES) then receiveSNS (po_answer env) p body
                    else if authenticate r p body then
                      (match parsePayload (ps_contentType r) body with Ok q => Ok q | Err c => Err (status c) end, [])
                    else (Err (status 401), []) in
                  match payload with
                  | Err resp => (w, [], reqs, resp)
                  | Ok q => let '(w', effs, resp) := receive env tenant provider q w in (w', effs, reqs, resp)
                  end
              end
          end
    | _ => (w, [], [], status 404)
    end.

End Handler.
End Posts.
(** ** Who is let in *)

Section LetIn.
Context {parsers : Parsers}.
Context {DB : Type} `{!KV DB} {codec : InboundCodec} {Re : Type}.
Context (ParseAddress : string -> option string).
Context (ReadMIMEHeader : string -> MIMEHeader * bool * string).
Context (MailMediaType : string -> option string).

Abbreviation receive := (receive (DB := DB) (Re := Re) ParseAddress ReadMIMEHeader MailMediaType).
Abbreviation ServePost := (ServePost (DB := DB) (Re := Re) ParseAddress ReadMIMEHeader MailMediaType).

(** The tenant an effect is for. *)
Definition effTenant (x : @inboundEffect Re) : string :=
  match x with RecordBounce t _ _ _ _ => t | RecordFiltered m => Quarantine.TenantID m | Announce t _ => t end.

Lemma recordBounce_tenant env tenant report x : x ∈ recordBounce (Re := Re) HMAC ParseAddress env tenant report -> effTenant x = tenant.
Proof.
  unfold recordBounce. destruct report as [r|]; [|by intros ?%elem_of_nil]. destruct (pe_signer env); [|by intros ?%elem_of_nil].
  destruct (_ || _); [by intros ?%elem_of_nil|]. intros (rcpt & _ & Hx)%list_elem_of_omap. destruct (reportedEventType rcpt); [|done]. destruct (_ || _); [done|].
  by injection Hx as <-.
Qed.

Lemma Process_tenant env e report (s s' : Mailbox DB) effs err x : Process (Re := Re) HMAC ParseAddress env e report s = (s', effs, err) ->
  x ∈ effs -> effTenant x = I_TenantID e.
Proof.
  assert (Hsa : forall base, (forall x, x ∈ base -> effTenant x = I_TenantID e) -> storeAndAnnounce (Re := Re) env e base s = (s', effs, err) -> x ∈ effs -> effTenant x = I_TenantID e).
  { intros base Hb H Hin. apply storeAndAnnounce_effects in H as (more & -> & Hmore). apply elem_of_app in Hin as [?|Hin]; [by apply Hb|]. by apply Hmore in Hin as [-> _]. }
  pose proof (recordBounce_tenant env (I_TenantID e) report) as Hb.
  assert (Hr : forall r, Quarantine.TenantID r = I_TenantID e -> forall x, x ∈ (recordBounce HMAC ParseAddress env (I_TenantID e) report ++ [RecordFiltered r])%list -> effTenant x = I_TenantID e)
    by (intros r Hr y [?| ->%list_elem_of_singleton]%elem_of_app; [by apply Hb|done]).
  unfold Process. destruct (if eqb (I_ID e) "" then _ else _); [intros [= <- <- <-] ?%elem_of_nil; done|].
  destruct (pe_screen env) as [Screen|]; [|by apply Hsa]. destruct (Screen _) as [d|]; [|by apply Hsa].
  destruct (Filter.DAction d); try (by apply Hsa).
  - destruct (Write _ _ _) as [s1 [er|]]; intros [= <- <- <-]; [apply Hb|by apply Hr].
  - intros [= <- <- <-]. by apply Hr.
  - apply Hsa. by apply Hr.
Qed.

Lemma receive_tenant env tenant provider p (w w' : World) effs resp x : receive env tenant provider p w = (w', effs, resp) -> x ∈ effs -> effTenant x = tenant.
Proof.
  unfold InboundPosts.receive. destruct (claim _ _ _) as [[t []] held]; try (intros [= <- <- <-] ?%elem_of_nil; done).
  destruct (Process _ _ _ _ _ _) as [[s effs1] [err|]] eqn:Hp; intros [= <- <- <-] Hin; by apply (Process_tenant _ _ _ _ _ _ _ _ Hp) in Hin.
Qed.

(** The request authenticates as the user and password a secret spells, or with the
    whole secret as the password when it has no colon. *)
Definition carriesSecret (r : Post) (secret : string) : Prop :=
  exists user pass, BasicOk (ps_authorization r) user pass = true /\
    (secret = user ++ ":" ++ pass \/ user = "" /\ pass = secret /\ no_colon secret).

(** The signature is the HMAC of the body under the secret, in hexadecimal. *)
Definition signedWith (r : Post) (secret body : string) : Prop :=
  ps_signature r <> "" /\ HexDecode (TrimPrefix (ps_signature r) "sha256=") = Some (HMAC secret body).

(** An SNS endpoint of a region, over https, as its own. *)
Definition snsEndpoint (url region : string) : Prop :=
  exists u, ParseURL url = Some u /\ u_Scheme u = "https" /\ u_User u = false /\ u_Port u = "" /\
    (u_Host u = "sns." ++ region ++ ".amazonaws.com" \/ u_Host u = "sns." ++ region ++ ".amazonaws.com.cn").

Lemma snsRegion_host host region : snsRegion host = Some region -> host = "sns." ++ region ++ ".amazonaws.com" \/ host = "sns." ++ region ++ ".amazonaws.com.cn".
Proof.
  unfold snsRegion. destruct (HasPrefix host "sns.") eqn:Hp; [|done]. apply HasPrefix_spec in Hp as [r ->]. rewrite TrimPrefix_app.
  destruct (Cut r "."%char) as [[a b]|] eqn:Hc; [|done]. destruct (_ && _) eqn:E; [|done]. intros [= ->].
  apply andb_true_iff in E as [_ E]. apply Cut_spec in Hc as ->. apply orb_true_iff in E as [->%eqb_true| ->%eqb_true]; [by left|by right].
Qed.

Lemma snsURLAllowed_endpoint url region : snsURLAllowed url region = true -> snsEndpoint url region.
Proof.
  unfold snsURLAllowed, snsEndpoint. destruct (ParseURL url) as [u|]; [|done]. destruct (eqb (u_Scheme u) "https") eqn:Hs; [|done]. destruct (u_User u) eqn:Hu; [done|].
  destruct (eqb (u_Port u) "") eqn:Hp; [|done]. cbn [negb orb]. destruct (snsRegion (u_Host u)) as [r|] eqn:Hr; [|done]. intros ->%eqb_true.
  apply eqb_true in Hs, Hp. exists u. split_and!; [done|done|done|done|]. by apply snsRegion_host.
Qed.

(** What proves that a post is a provider's. *)
Definition proves (r : Post) (p : Provider) (body : string) : Prop :=
  pv_secret p <> "" /\
  match pv_type p with
  | SES => exists topic cert msg, SNSEnvelope body = Some (topic, cert) /\ SNSVerify body = Ok msg /\
      topic <> "" /\ topic ∈ (TrimSpace <$> Split (pv_secret p) ","%char) /\ snsEndpoint cert (topicRegion topic)
  | SENDGRID => (SplitSendGridWebhookSecret (pv_secret p)).2 <> "" /\ carriesSecret r (SplitSendGridWebhookSecret (pv_secret p)).2
  | OtherType => signedWith r (pv_secret p) body \/ ps_signature r = "" /\ ps_authorization r <> "" /\ carriesSecret r (pv_secret p)
  end.

Lemma verifyBasic_carries r secret : verifyBasic (ps_authorization r) secret = true -> carriesSecret r secret.
Proof.
  unfold verifyBasic, carriesSecret. destruct (Cut secret ":"%char) as [[user pass]|] eqn:E; intros H.
  - exists user, pass. split; [done|]. left. by apply Cut_spec in E.
  - exists "", secret. split; [done|]. right. split_and!; [done..|]. unfold no_colon. clear H.
    induction secret as [|c s IH]; [done|]. cbn [Cut str_all] in *. destruct (bool_decide (c = ":"%char)); [done|]. cbn [negb andb]. apply IH. by destruct (Cut s ":"%char) as [[? ?]|].
Qed.

Lemma verifySignature_signed r secret body : ps_signature r <> "" -> verifySignature secret (ps_signature r) body = true -> signedWith r secret body.
Proof.
  intros Hs. unfold verifySignature, signedWith. destruct (HexDecode _) as [want|]; [|done]. intros ->%eqb_true. done.
Qed.

Lemma topicAllowed_listed topics topic : topicAllowed topics topic = true -> topic <> "" /\ topic ∈ (TrimSpace <$> Split topics ","%char).
Proof.
  unfold topicAllowed. destruct (eqb topic "") eqn:E; [done|]. apply eqb_false in E. intros (want & Hin & H)%existsb_exists. split; [done|].
  apply andb_true_iff in H as [_ H]. apply eqb_true in H. rewrite <- H. by apply list_elem_of_fmap_2, list_elem_of_In.
Qed.

Lemma authenticate_proves r p body : pv_type p <> SES -> pv_secret p <> "" -> authenticate r p body = true -> proves r p body.
Proof.
  unfold authenticate, proves. intros Ht Hs Ha. split; [done|]. destruct (pv_type p); [done| |].
  - destruct (eqb _ "") eqn:E; [done|]. apply eqb_false in E. split; [done|by apply verifyBasic_carries].
  - destruct (eqb (ps_signature r) "") eqn:E; cbn [negb] in Ha.
    + apply eqb_true in E. right. destruct (eqb (ps_authorization r) "") eqn:E2; [done|]. apply eqb_false in E2. split_and!; [done..|by apply verifyBasic_carries].
    + apply eqb_false in E. left. by apply verifySignature_signed.
Qed.

(** C25: a post proves whose it is.  A post changes nothing -- no mail stored, no
    receipt, no bounce, no notification -- unless the tenant and provider its URL
    names have a secret, and the post is, for SES, a verified SNS message of a topic
    the secret lists, with a certificate of SNS in the topic's region; for SendGrid, authenticated with the credential the secret
    holds; for any other, signed with an HMAC of its body under the secret or, when
    it has no signature, authenticated with the secret.  And then everything it does
    is the tenant's that owns the provider. *)
Theorem post_proves_whose_it_is env r (w w' : World) effs reqs resp :
  ServePost env r w = (w', effs, reqs, resp) -> w' <> w \/ effs <> [] ->
  exists tenant provider p body, (exists a, Split (Trim (ps_path r) "/") "/"%char = [a; tenant; provider]) /\ ps_body r = Some body /\
    po_find env tenant provider = Ok (Some p) /\ proves r p body /\ forall x, x ∈ effs -> effTenant x = tenant.
Proof.
  unfold InboundPosts.ServePost. destruct (negb (eqb (ps_method r) "POST")); [intros [= <- <- <- <-] [?|?]; done|].
  destruct (Split _ _) as [|a [|tenant [|provider [|? ?]]]] eqn:Hsp; try (intros [= <- <- <- <-] [?|?]; done).
  destruct (_ || _); [intros [= <- <- <- <-] [?|?]; done|]. destruct (ps_body r) as [body|] eqn:Hbody; [|intros [= <- <- <- <-] [?|?]; done].
  destruct (lookupProvider _ _ _) as [p|] eqn:Hl; [|intros [= <- <- <- <-] [?|?]; done].
  assert (Hfind : po_find env tenant provider = Ok (Some p) /\ pv_secret p <> "").
  { unfold lookupProvider in Hl. destruct (po_find env tenant provider) as [[p0|]|] eqn:Hf; [|done|done]. destruct (eqb (pv_secret p0) "") eqn:Es; [done|].
    injection Hl as ->. by apply eqb_false in Es. }
  destruct Hfind as [Hfind Hsec]. intros H Hch. exists tenant, provider, p, body.
  assert (Hpr : exists q, (if bool_decide (pv_type p = SES) then receiveSNS (po_answer env) p body
                 else if authenticate r p body then (match parsePayload (ps_contentType r) body with Ok q => Ok q | Err c => Err (status c) end, []) else (Err (status 401), [])) = (Ok q, reqs) /\
                 receive env tenant provider q w = (w', effs, resp)).
  { destruct (if bool_decide (pv_type p = SES) then _ else _) as [[q|e] reqs'].
    - destruct (receive env tenant provider q w) as [[w1 effs1] resp1] eqn:E. injection H as <- <- <- <-. by exists q.
    - injection H as <- <- <- <-. by destruct Hch. }
  destruct Hpr as (q & Hq & Hrec). split_and!; [by exists a|done|done| |].
  - destruct (decide (pv_type p = SES)) as [Ht|Ht].
    + split; [done|]. rewrite Ht. rewrite bool_decide_eq_true_2 in Hq by done. unfold receiveSNS in Hq. destruct (verifySNS _ _) as [[msg|[]] rq] eqn:Hv; try done.
      unfold verifySNS in Hv. destruct (SNSEnvelope body) as [[topic cert]|]; [|done]. destruct (topicAllowed (pv_secret p) topic) eqn:Hta; [|done].
      destruct (snsURLAllowed _ _) eqn:Hu; [|done]. cbn [negb] in Hv. injection Hv as Hv _. apply topicAllowed_listed in Hta as [? ?].
      apply snsURLAllowed_endpoint in Hu. by exists topic, cert, msg.
    + rewrite bool_decide_eq_false_2 in Hq by done. apply authenticate_proves; [done..|]. by destruct (authenticate r p body).
  - intros x Hx. by apply (receive_tenant _ _ _ _ _ _ _ _ _ Hrec).
Qed.

(** The network is asked only of SNS.  Whatever a post says, the only
    addresses handling it makes the gateway fetch are SNS endpoints over https, in
    the region of a topic the provider is configured with (the certificate's), or
    of the topic a verified message names (the confirmation's). *)
Theorem only_sns_is_asked env r (w w' : World) effs reqs resp q :
  ServePost env r w = (w', effs, reqs, resp) -> q ∈ reqs ->
  exists p body, pv_type p = SES /\ ps_body r = Some body /\
    match q with
    | FetchCertificate url => exists topic, topicAllowed (pv_secret p) topic = true /\ snsEndpoint url (topicRegion topic)
    | ConfirmSubscription url => exists msg, SNSVerify body = Ok msg /\ url = n_SubscribeURL msg /\ snsEndpoint url (topicRegion (n_TopicArn msg))
    end.
Proof.
  unfold InboundPosts.ServePost. destruct (negb _); [intros [= <- <- <- <-] ?%elem_of_nil; done|].
  destruct (Split _ _) as [|a [|tenant [|provider [|? ?]]]]; try (intros [= <- <- <- <-] ?%elem_of_nil; done).
  destruct (_ || _); [intros [= <- <- <- <-] ?%elem_of_nil; done|]. destruct (ps_body r) as [body|]; [|intros [= <- <- <- <-] ?%elem_of_nil; done].
  destruct (lookupProvider _ _ _) as [p|]; [|intros [= <- <- <- <-] ?%elem_of_nil; done]. intros H Hin.
  assert (Hreqs : (if bool_decide (pv_type p = SES) then receiveSNS (po_answer env) p body
                 else if authenticate r p body then (match parsePayload (ps_contentType r) body with Ok q => Ok q | Err c => Err (status c) end, []) else (Err (status 401), [])).2 = reqs).
  { destruct (if bool_decide (pv_type p = SES) then _ else _) as [[pay|e] reqs'].
    - destruct (receive env tenant provider pay w) as [[w1 effs1] resp1]. by injection H as _ _ <- _.
    - by injection H as _ _ <- _. }
  destruct (bool_decide_reflect (pv_type p = SES)) as [Ht|]; [|destruct (authenticate r p body); subst reqs; by apply elem_of_nil in Hin].
  exists p, body. split_and!; [done|done|]. subst reqs. unfold receiveSNS, verifySNS in Hin.
  destruct (SNSEnvelope body) as [[topic cert]|]; [|by apply elem_of_nil in Hin]. destruct (topicAllowed (pv_secret p) topic) eqn:Hta; [|by apply elem_of_nil in Hin].
  destruct (snsURLAllowed cert _) eqn:Hu; [|by apply elem_of_nil in Hin]. cbn [negb] in Hin. apply snsURLAllowed_endpoint in Hu.
  assert (Hcert : q ∈ [FetchCertificate cert] -> match q with
    | FetchCertificate url => exists topic, topicAllowed (pv_secret p) topic = true /\ snsEndpoint url (topicRegion topic)
    | ConfirmSubscription url => exists msg, SNSVerify body = Ok msg /\ url = n_SubscribeURL msg /\ snsEndpoint url (topicRegion (n_TopicArn msg)) end)
    by (intros ->%list_elem_of_singleton; by exists topic).
  destruct (SNSVerify body) as [msg|[]] eqn:Hv; [|by apply Hcert|by apply Hcert].
  destruct (eqb (n_Type msg) _); [|destruct (eqb (n_Type msg) _); [by apply Hcert|destruct (parseSESReceived _); by apply Hcert]].
  unfold confirmSubscription in Hin. destruct (snsURLAllowed (n_SubscribeURL msg) _) eqn:Hsub; cbn [negb] in Hin; [|by apply Hcert].
  cbn [fst snd] in Hin. apply elem_of_app in Hin as [?|Hin]; [by apply Hcert|]. apply list_elem_of_singleton in Hin as ->. exists msg. split_and!; [done|done|].
  by apply snsURLAllowed_endpoint.
Qed.

End LetIn.

(** ** Retries *)

Section Retries.
Context {parsers : Parsers}.

Lemma FormatInt_length n : FormatInt (Z.of_nat n) = FormatUint (Z.of_nat n).
Proof. unfold FormatInt. by rewrite (proj2 (Z.ltb_ge _ _)) by lia. Qed.

Lemma digits_no_colon s : str_all is_digit s = true -> no_colon s.
Proof.
  unfold no_colon. induction s as [|c s IH]; [done|]. cbn [str_all]. intros [Hc Hs]%andb_true_iff. rewrite IH by done. rewrite andb_true_r.
  destruct (bool_decide_reflect (c = ":"%char)) as [->|]; [done|done].
Qed.

Lemma app_same_length a b x y : String.length a = String.length b -> a ++ x = b ++ y -> a = b /\ x = y.
Proof.
  revert b. induction a as [|c a IH]; intros [|d b] Hl E; try done. injection Hl as Hl. cbn [String.append] in E. injection E as <- E.
  by destruct (IH b Hl E) as [-> ->].
Qed.

(** Different parts never make the same text to hash. *)
Lemma digestInput_inj a : forall b, digestInput a = digestInput b -> a = b.
Proof.
  assert (Hcons : forall x l, digestInput (x :: l) = FormatUint (Z.of_nat (String.length x)) ++ String ":" (x ++ digestInput l))
    by (intros x l; unfold digestInput; cbn [foldr]; by rewrite FormatInt_length).
  assert (Hne : forall x l, digestInput (x :: l) <> "") by (intros x l; rewrite Hcons; by destruct (FormatUint _)).
  induction a as [|x a IH]; intros [|y b] E; [done|by apply eq_sym, Hne in E|by apply Hne in E|]. rewrite !Hcons in E.
  apply (sep_inj ":"%char) in E as [El E]; [|apply digits_no_colon, FormatUint_digits; lia..].
  apply (f_equal (scan_digits 0)) in El. rewrite !FormatUint_scan in El by lia.
  apply app_same_length in E as [-> E]; [|lia]. f_equal. by apply IH.
Qed.

(** A key tells messages apart.  Two posts with the same key carry the same
    event id, or -- when neither carries one -- the same Message-ID together with
    the same sender, recipients, subject and bodies, as long as SHA-256 does not
    collide on them. *)
Theorem key_tells_messages_apart p q :
  dedupeKey p = dedupeKey q -> dedupeKey p <> "" ->
  (SHA256 (digestInput (dedupeParts p)) = SHA256 (digestInput (dedupeParts q)) -> digestInput (dedupeParts p) = digestInput (dedupeParts q)) ->
  dedupeParts p = dedupeParts q /\
  (p_EventID p <> "" -> p_EventID q = p_EventID p) /\
  (p_EventID p = "" -> p_EventID q = "" /\ messageID q = messageID p /\ p_From q = p_From p /\ Join (p_To q) newline = Join (p_To p) newline /\
    p_Subject q = p_Subject p /\ p_Text q = p_Text p /\ p_HTML q = p_HTML p).
Proof.
  intros E Hne Hsha. assert (Hparts : dedupeParts p = dedupeParts q).
  { unfold dedupeKey in E, Hne. destruct (dedupeParts p) as [|a l] eqn:Ep; [done|]. destruct (dedupeParts q) as [|b l'] eqn:Eq; [by rewrite E in Hne|].
    unfold digest in E. apply digestInput_inj, Hsha. apply (f_equal HexDecode) in E. rewrite !HexDecode_HexEncode in E. by injection E. }
  split; [done|]. unfold dedupeKey in Hne. unfold dedupeParts in *.
  destruct (eqb (p_EventID p) "") eqn:Ep; destruct (eqb (p_EventID q) "") eqn:Eq; cbn [negb] in *; rewrite ?eqb_true, ?eqb_false in *.
  - split; [done|]. intros _. destruct (eqb (messageID p) ""); [done|]. destruct (eqb (messageID q) ""); [done|]. cbn [negb] in Hparts. split; [done|].
    by injection Hparts as -> -> -> -> -> ->.
  - destruct (eqb (messageID p) ""); [done|]. done.
  - destruct (eqb (messageID q) ""); done.
  - injection Hparts as Heq. split; [by intros _|done].
Qed.

End Retries.

Section Settled.
Context {parsers : Parsers}.
Context {DB : Type} `{!KV DB} {codec : InboundCodec} {Re : Type}.
Context (ParseAddress : string -> option string).
Context (ReadMIMEHeader : string -> MIMEHeader * bool * string).
Context (MailMediaType : string -> option string).

Abbreviation receive := (receive (DB := DB) (Re := Re) ParseAddress ReadMIMEHeader MailMediaType).

(** A round whose statements run, with other posts in between. *)
Definition runs (P : receiptOp -> Prop) (x : Round) : Prop := rd_insert x = Up /\ rd_takeover x = Up /\ rd_read x = Up /\ others P (rd_mid1 x) /\ others P (rd_mid2 x).

(** A first round that inserts. *)
Lemma claim_inserts (k : ReceiptKey) (lease : Z) (r1 : Round) (mid : Receipts -> Receipts) (r2 : Round) (t : Receipts) : t !! k = None -> rd_insert r1 = Up ->
  Claim k lease r1 mid r2 t = (<[k := mkReceipt PROCESSING (rd_token r1) (rd_now r1) (rd_now r1)]> t, Ok (ClaimAcquired, rd_token r1)).
Proof. intros Hk Hi. unfold Claim, claimRound, exec, insert_receipt. by rewrite Hi, Hk. Qed.

Lemma claim_ok (k : ReceiptKey) (lease : Z) (r1 : Round) (mid : Receipts -> Receipts) (r2 : Round) (t t' : Receipts) res (P : receiptOp -> Prop) : runs P r1 -> runs P r2 -> Claim k lease r1 mid r2 t = (t', res) -> exists v, res = Ok v.
Proof.
  assert (Hround : forall x t0 t0' o, runs P x -> claimRound k lease x t0 = (t0', o) -> o = None \/ exists v, o = Some (Ok v)).
  { intros x t0 t0' o (Hi & Ht & Hr & _). unfold claimRound, exec. rewrite Hi, Ht, Hr.
    destruct (insert_receipt _ _ _ _) as [t1 n1]. destruct (n1 =? 1); [intros [= <- <-]; right; by eexists|].
    destruct (take_over_receipt _ _ _ _ _) as [t2 n2]. destruct (n2 =? 1); [intros [= <- <-]; right; by eexists|].
    destruct (r_state <$> _) as [[]|]; intros [= <- <-]; [right; by eexists|right; by eexists|by left]. }
  intros H1 H2. unfold Claim. destruct (claimRound k lease r1 t) as [t1 o1] eqn:E1. destruct (Hround _ _ _ _ H1 E1) as [->|[v ->]]; [|intros [= <- <-]; by eexists].
  destruct (claimRound k lease r2 (mid t1)) as [t2 o2] eqn:E2. destruct (Hround _ _ _ _ H2 E2) as [->|[v ->]]; intros [= <- <-]; by eexists.
Qed.

(** Statements that do not prune a receipt of that age. *)
Definition unpruned (created : Z) (o : receiptOp) : Prop := match o with RPrune before => before <= created | _ => True end.

(** C26: an accepted post answers for its retries.  Take a post that carries an event
    id or a Message-ID, of which there is no receipt yet, that claims one and settles
    it: both statements go through, and nobody takes the receipt over or prunes it
    while the post is processed.  If it is answered with 202, every later post of the
    same key to that provider, on any gateway, whenever it comes and whatever other
    posts do between and beside it, is answered with 202 too and does nothing more, as
    long as the receipt is not pruned and the later post's own claim goes through.  If it is answered with
    500 no receipt is left, so its retry is processed. *)
Theorem accepted_post_answers_its_retries env tenant provider p (w w1 : World (DB := DB)) effs resp :
  let k := (tenant, provider, dedupeKey p) in
  let token := rd_token (po_round1 env) in let now := rd_now (po_round1 env) in
  dedupeKey p <> "" -> po_receipts env = true -> w_receipts w !! k = None -> rd_insert (po_round1 env) = Up ->
  others (spares k token now now) (po_during env) -> po_settle env = Up -> receive env tenant provider p w = (w1, effs, resp) ->
  (code_ resp = 500 -> w_receipts w1 !! k = None) /\
  (code_ resp = 202 -> forall later env2 q w2 effs2 resp2, others (unpruned now) later -> dedupeKey q = dedupeKey p -> po_receipts env2 = true ->
    runs (unpruned now) (po_round1 env2) -> runs (unpruned now) (po_round2 env2) -> others (unpruned now) (po_mid env2) ->
    receive env2 tenant provider q (mkWorld (later (w_receipts w1)) (w_mail w1)) = (w2, effs2, resp2) -> code_ resp2 = 202 /\ effs2 = [] /\ w_mail w2 = w_mail w1).
Proof.
  intros k token now Hkey Hrec Hnone Hins Hduring Hsettle. unfold InboundPosts.receive, claim at 1. cbn [fst snd]. rewrite Hrec, (proj2 (eqb_false _ _) Hkey). cbn [negb orb].
  fold k. rewrite (claim_inserts k claimLease _ _ _ _ Hnone Hins). fold token now.
  set (t0 := <[k := mkReceipt PROCESSING token now now]> (w_receipts w)).
  assert (Hk0 : po_during env t0 !! k = Some (mkReceipt PROCESSING token now now)).
  { apply (run_keeps (spares k token now now)); [intros o t Ho; by apply claim_stands|done|]. unfold t0. by rewrite lookup_insert_eq. }
  assert (Hbool : bool_decide (token = token) && bool_decide (PROCESSING = PROCESSING) = true) by (by rewrite !bool_decide_eq_true_2).
  unfold settle. rewrite Hsettle. cbn [exec fst default].
  destruct (Process _ _ _ _ _ _) as [[s effs1] [err|]]; intros [= <- <- <-]; cbn [status code_ w_receipts w_mail]; split; try done.
  - intros _. change (default "" (Some token)) with token. unfold release_receipt. rewrite Hk0. cbn [r_token r_state]. rewrite Hbool. apply lookup_delete_eq.
  - intros _ later env2 q w2 effs2 resp2 Hl Hq Hr2 Hrd1 Hrd2 Hmid. change (default "" (Some token)) with token.
    assert (Hdone : complete_receipt k token (po_during env t0) !! k = Some (mkReceipt DONE token now now)).
    { unfold complete_receipt. rewrite Hk0. cbn [r_token r_state]. rewrite Hbool. by rewrite lookup_insert_eq. }
    set (t1 := complete_receipt k token (po_during env t0)) in *.
    assert (Hsp : forall o t, unpruned now o -> t !! k = Some (mkReceipt DONE token now now) -> receiptStep t o !! k = Some (mkReceipt DONE token now now))
      by (intros o t Ho; apply done_stands; by intros before ->).
    pose proof (run_keeps _ k _ Hsp _ _ Hl Hdone) as Hlater. unfold claim. cbn [fst snd w_receipts w_mail]. rewrite Hr2, Hq, (proj2 (eqb_false _ _) Hkey). cbn [negb orb]. fold k.
    destruct (Claim k claimLease (po_round1 env2) (po_mid env2) (po_round2 env2) (later t1)) as [t2 res] eqn:Hc.
    destruct (claim_ok _ _ _ _ _ _ _ _ _ Hrd1 Hrd2 Hc) as [[v tok] ->].
    destruct (claim_meets k _ claimLease _ _ _ _ _ _ _ Hsp ltac:(intros x [->| ->]; [destruct Hrd1 as (_ & _ & _ & ? & ?)|destruct Hrd2 as (_ & _ & _ & ? & ?)]; by split_and!) Hmid Hlater Hc) as (_ & _ & Hv).
    rewrite (Hv v tok eq_refl). cbn [r_state]. by intros [= <- <- <-].
Qed.

End Settled.

End InboundPosts.
