(* ===== verification/InboundCases.v ===== *)
(** * Received mail on concrete cases

    Instances of what [InboundStore], [Inbound] and [InboundPosts] assume, the
    theorems on them, and two cases where the parts of the gateway disagree: a
    delivery report that is recorded as a complaint, and mail that retention
    removed being announced again. *)
From S2P Require Import Prelude GoStrings Encoding KVStore Classify Filter Quarantine Events EventStore EventTimeline EventCases Tracking.
From S2P Require Import InboundStore Inbound InboundPosts.
From Stdlib Require Import Ascii.

Module InboundCases.
Import GoStrings Encoding KVStore Classify EventTimeline EventCases InboundStore Inbound InboundPosts.
Local Open Scope string_scope.
Local Open Scope Z_scope.

Definition mail1 : InboundEmail :=
  mkInbound "i1" "t1" "mailer-daemon@example.net" ["me@example.com"] "Undelivered" "" "It did not arrive." (unixEpoch + 1700000000 * Second) ∅.
Definition mail2 : InboundEmail :=
  mkInbound "i2" "t1" "bob@d.e" ["me@example.com"] "Hello" "" "Hi" (unixEpoch + 1700000060 * Second) ∅.

#[export] Instance sampleMail : InboundCodec := {
  MarshalInbound e := if bool_decide (e = mail1) then Ok "1" else if bool_decide (e = mail2) then Ok "2" else Err "unsupported";
  UnmarshalInbound v := if eqb v "1" then Ok mail1 else if eqb v "2" then Ok mail2 else Err "invalid"
}.

#[export] Instance sampleMailLaws : InboundCodecLaws sampleMail.
Proof. split. intros e v. simpl. repeat case_bool_decide; intros [= <-]; subst; done. Qed.

Definition emptyBox : Mailbox sampleDB := mkMailbox ∅ false.
Definition addr (s : string) : option string := if Contains s "@" then Some s else None.

(** ** A report *)

Definition sentEvent : Events.EmailEvent := Events.mkEvent "e1" "t1" "p1" "SMTP" "m.1" SENT "bob@d.e" "Hello" (unixEpoch + 1699999999 * Second) "".

Definition plainEnv (screen : option (Filter.Message -> result string (@Filter.Decision string))) : @ProcessEnv string :=
  mkProcessEnv None (fun _ _ => Ok [sentEvent]) screen Up (Some "k") true.

Definition bobRef : string := Tracking.BounceRef Tracking.demo_hmac "k" "t1" "m.1" "bob@d.e".
Definition bobReport : DeliveryReport :=
  mkReport [mkReported "bob@d.e" "failed" "5.1.1" "smtp; 550 user unknown"] [("Subject", "Hello"); ("X-Panmail-Ref", bobRef)].

Lemma bobs_bounce :
  (Process Tracking.demo_hmac addr (plainEnv None) mail1 (Some bobReport) emptyBox).1.2 =
    [RecordBounce "t1" "m.1" HARD_BOUNCE "bob@d.e" "smtp; 550 user unknown"; Announce "t1" mail1].
Proof. vm_compute. reflexivity. Qed.

Lemma bounce_needs_our_copy_witness :
  (Process Tracking.demo_hmac addr (plainEnv None) mail1 (Some bobReport) emptyBox).1.2 =
    [RecordBounce "t1" "m.1" HARD_BOUNCE "bob@d.e" "smtp; 550 user unknown"; Announce "t1" mail1] /\
  exists events ev, pe_events (plainEnv None) "t1" "m.1" = Ok events /\ ev ∈ events /\ (Events.Type_ ev = SENT \/ Events.Type_ ev = DELIVERED) /\
    Events.TenantID ev = "t1" /\ bareAddress addr (Events.Recipient ev) = "bob@d.e".
Proof.
  split; [exact bobs_bounce|].
  destruct (Process Tracking.demo_hmac addr (plainEnv None) mail1 (Some bobReport) emptyBox) as [[s' effs] err] eqn:E.
  destruct (bounce_needs_our_copy Tracking.demo_hmac addr (plainEnv None) mail1 (Some bobReport) emptyBox s' effs err "t1" "m.1" HARD_BOUNCE "bob@d.e" "smtp; 550 user unknown")
    as (_ & _ & H & _).
  - exact E.
  - pose proof (eq_trans (f_equal (fun x => x.1.2) (eq_sym E)) bobs_bounce) as Heffs. cbn [fst snd] in Heffs. rewrite Heffs. left.
  - exact H.
Defined.

Lemma empty_readable : readable emptyBox.
Proof. by intros t i ts _. Qed.

(** The same message offered by the poller twice, and another between. *)
Definition threeArrivals : list (@ProcessEnv string * InboundEmail * option DeliveryReport) :=
  [(plainEnv None, mail1, None); (plainEnv None, mail2, None); (plainEnv None, mail1, None)].

Lemma mail_is_announced_once_witness :
  exists s' effs, arrivals Tracking.demo_hmac addr threeArrivals emptyBox = (s', effs) /\
    (announcements "t1" "i1" effs <= if decide (is_Some (kv_get (mb_db emptyBox) (inboundIdx "t1" "i1"))) then 0 else 1)%nat.
Proof.
  destruct (arrivals Tracking.demo_hmac addr threeArrivals emptyBox) as [s' effs] eqn:E. exists s', effs. split; [reflexivity|].
  assert (Hl : Forall (regular (Re := string)) threeArrivals) by (repeat constructor; discriminate).
  exact (mail_is_announced_once EventStore.counterMerge Tracking.demo_hmac addr threeArrivals emptyBox s' effs "t1" "i1" empty_readable Hl eq_refl E).
Defined.

Definition holdAll : Filter.Message -> result string (@Filter.Decision string) := fun _ => Ok (Filter.mkDecision Filter.ActionHold None []).

Lemma hold_succeeds : (Process Tracking.demo_hmac addr (plainEnv (Some holdAll)) mail1 None emptyBox).2 = None.
Proof. vm_compute. reflexivity. Qed.

Lemma held_mail_waits_whole_witness :
  exists s' effs, Process Tracking.demo_hmac addr (plainEnv (Some holdAll)) mail1 None emptyBox = (s', effs, None) /\
    ReleaseHeld (Re := string) true "t1" "i1" s' = Ok [Announce "t1" mail1].
Proof.
  destruct (Process Tracking.demo_hmac addr (plainEnv (Some holdAll)) mail1 None emptyBox) as [[s' effs] err] eqn:E. exists s', effs.
  pose proof (eq_trans (f_equal snd (eq_sym E)) hold_succeeds) as Herr. cbn [snd] in Herr.
  assert (Hnew : ~ held "t1" "i1" emptyBox) by (intros [e He]; vm_compute in He; discriminate He).
  rewrite Herr in *. split; [reflexivity|].
  destruct (held_mail_waits_whole EventStore.counterMerge Tracking.demo_hmac addr (plainEnv (Some holdAll)) mail1 None holdAll (Filter.mkDecision Filter.ActionHold None []) emptyBox s' effs
    eq_refl eq_refl eq_refl Hnew E) as (_ & _ & H). exact H.
Defined.

(** ** Posts *)

Definition payload1 : inboundPayload := mkPayload "bob@d.e" ["me@example.com"] "Hello" "" "Hi" ∅ "" "ev-1" "" None.

#[export] Instance sampleParsers : Parsers := {
  MediaType s := Some (s, "");
  JSONPayload _ := Some payload1;
  Multipart _ _ := None;
  FormQuery _ := None;
  HeaderBlock _ := [];
  RawEmail _ := None;
  ParseURL s := if eqb s "https://sns.eu-west-1.amazonaws.com/cert.pem" then Some (mkURL "https" false "sns.eu-west-1.amazonaws.com" "") else None;
  SNSEnvelope _ := Some ("arn:aws:sns:eu-west-1:1:inbox", "https://sns.eu-west-1.amazonaws.com/cert.pem");
  SNSVerify _ := Ok (mkSNS "Notification" "arn:aws:sns:eu-west-1:1:inbox" "" "mail");
  SESNotification _ := Some (mkSES "Received" "ses-1" "bob@d.e" ["me@example.com"] [] ["bob@d.e"] ["me@example.com"] "Hello" "" "" "" "");
  SubmissionParse _ _ := None;
  BasicOk auth user pass := eqb auth (user ++ ":" ++ pass);
  SHA256 s := s;
  UUID5 s := "i2";
  HMAC := Tracking.demo_hmac
}.

Definition swift (now : Z) (token : string) : Round := mkRound now token Up (fun t => t) Up (fun t => t) Up.
Definition found (ty : ProviderType) (tenant id : string) : result string (option Provider) := Ok (Some (mkProvider ty tenant id (if bool_decide (ty = SES) then "arn:aws:sns:eu-west-1:1:inbox" else "u:s3cret"))).
Definition postEnv (ty : ProviderType) (now : Z) (token : string) : @PostEnv string :=
  mkPostEnv (found ty) None true (swift now token) (fun t => t) (swift now token) "fresh" (unixEpoch + 1700000060 * Second) (fun t => t) (plainEnv None) Up.
Definition post1 : Post := mkPost "POST" "/inbound/t1/p1" (Some "{}") "application/json" "" "u:s3cret".
Definition world0 : World (DB := sampleDB) := mkWorld ∅ emptyBox.
Definition noHeader (_ : string) : MIMEHeader * bool * string := ([], true, "").

Abbreviation serve := (ServePost (Re := string) addr noHeader Some).
Abbreviation take := (receive (Re := string) addr noHeader Some).

Example posted : (serve (postEnv OtherType 1000 "a") post1 world0).1.1.2 = [Announce "t1" mail2] /\ (serve (postEnv OtherType 1000 "a") post1 world0).2 = status 202.
Proof. vm_compute. split; reflexivity. Qed.

Lemma post_proves_whose_it_is_witness :
  exists tenant provider p body, (exists a, Split (Trim (ps_path post1) "/") "/"%char = [a; tenant; provider]) /\ ps_body post1 = Some body /\
    found OtherType tenant provider = Ok (Some p) /\ proves post1 p body /\ forall x, x ∈ [@Announce string "t1" mail2] -> effTenant x = tenant.
Proof.
  destruct (serve (postEnv OtherType 1000 "a") post1 world0) as [[[w' effs] reqs] resp] eqn:E.
  pose proof (eq_trans (f_equal (fun x => x.1.1.2) (eq_sym E)) (proj1 posted)) as Heffs. cbn [fst snd] in Heffs.
  rewrite Heffs in E. apply (post_proves_whose_it_is addr noHeader Some (postEnv OtherType 1000 "a") post1 world0 w' [Announce "t1" mail2] reqs resp).
  - exact E.
  - right. discriminate.
Defined.

Lemma only_sns_is_asked_witness :
  exists topic, topicAllowed "arn:aws:sns:eu-west-1:1:inbox" topic = true /\ snsEndpoint "https://sns.eu-west-1.amazonaws.com/cert.pem" (topicRegion topic).
Proof.
  destruct (serve (postEnv SES 1000 "a") post1 world0) as [[[w' effs] reqs] resp] eqn:E.
  assert (Hreqs : reqs = [FetchCertificate "https://sns.eu-west-1.amazonaws.com/cert.pem"]) by (vm_compute in E; by injection E).
  rewrite Hreqs in E.
  destruct (only_sns_is_asked addr noHeader Some (postEnv SES 1000 "a") post1 world0 w' effs [FetchCertificate "https://sns.eu-west-1.amazonaws.com/cert.pem"] resp
    (FetchCertificate "https://sns.eu-west-1.amazonaws.com/cert.pem")) as (p & body & Hp & Hb & topic & Ht & Hu).
  - exact E.
  - left.
  - exists (if topicAllowed "arn:aws:sns:eu-west-1:1:inbox" topic then topic else "arn:aws:sns:eu-west-1:1:inbox").
    destruct (topicAllowed "arn:aws:sns:eu-west-1:1:inbox" topic) eqn:Et; [by split|]. split; [reflexivity|].
    exists (mkURL "https" false "sns.eu-west-1.amazonaws.com" ""). repeat split; try reflexivity. by left.
Defined.

Lemma key_tells_messages_apart_witness : p_EventID payload1 = "ev-1" /\ dedupeParts payload1 = dedupeParts payload1.
Proof.
  destruct (key_tells_messages_apart payload1 payload1) as (Hp & He & _).
  - reflexivity.
  - vm_compute. discriminate.
  - intros _. reflexivity.
  - split; [apply He; discriminate|exact Hp].
Defined.

Lemma idle_others (P : receiptOp -> Prop) : others P (fun t => t).
Proof. intros t. by exists []. Qed.

Lemma swift_runs P now token : runs P (swift now token).
Proof. split_and!; try done; apply idle_others. Qed.

Lemma taken : code_ (take (postEnv OtherType 1000 "a") "t1" "p1" payload1 world0).2 = 202.
Proof. vm_compute. reflexivity. Qed.

Lemma accepted_post_answers_its_retries_witness :
  let w1 := (take (postEnv OtherType 1000 "a") "t1" "p1" payload1 world0).1.1 in
  (take (postEnv OtherType 1600 "b") "t1" "p1" payload1 (mkWorld (w_receipts w1) (w_mail w1))).1.2 = [].
Proof.
  destruct (take (postEnv OtherType 1000 "a") "t1" "p1" payload1 world0) as [[w1 effs] resp] eqn:E.
  cbn [fst]. destruct (take (postEnv OtherType 1600 "b") "t1" "p1" payload1 (mkWorld (w_receipts w1) (w_mail w1))) as [[w2 effs2] resp2] eqn:E2.
  destruct (accepted_post_answers_its_retries addr noHeader Some (postEnv OtherType 1000 "a") "t1" "p1" payload1 world0 w1 effs resp) as [_ H].
  - vm_compute. discriminate.
  - reflexivity.
  - reflexivity.
  - reflexivity.
  - apply idle_others.
  - reflexivity.
  - exact E.
  - pose proof (eq_trans (f_equal (fun x => code_ x.2) (eq_sym E)) taken) as Hc. cbn [snd] in Hc.
    apply (H Hc (fun t => t) (postEnv OtherType 1600 "b") payload1 w2 effs2 resp2);
      [apply idle_others|reflexivity|reflexivity|apply swift_runs|apply swift_runs|apply idle_others|exact E2].
Defined.

Definition claimed : Receipts := {[("t1", "p1", "key") := mkReceipt PROCESSING "a" 1000 1000]}.

Lemma one_post_at_a_time_witness :
  (Claim ("t1", "p1", "key") claimLease (swift 1200 "b") (fun t => t) (swift 1201 "b") claimed).2 <> Ok (ClaimAcquired, "b").
Proof.
  destruct (Claim ("t1", "p1", "key") claimLease (swift 1200 "b") (fun t => t) (swift 1201 "b") claimed) as [t' res] eqn:E.
  destruct (one_post_at_a_time ("t1", "p1", "key") "a" 1000 1000 claimed (swift 1200 "b") (fun t => t) (swift 1201 "b") t' res PROCESSING) as (_ & H & _).
  - reflexivity.
  - intros x [->| ->]; (split; [apply idle_others|split; [apply idle_others|intros _; vm_compute; discriminate]]).
  - apply idle_others.
  - exact E.
  - exact (H "b").
Defined.

(** ** Where the parts disagree *)

Definition quietEvents : Events.Env :=
  Events.mkEnv "e2" (unixEpoch + 1700000100 * Second) (fun _ => true) (fun _ => None) (fun _ => None) (fun _ => None) (fun _ => None) true false true.

Definition spamDiagnostic : string := "smtp; 550 5.7.1 message refused: your mail was marked as spam".

(** A delivery report can be recorded as a complaint.  Reading a report keeps
    a complaint out -- a refusal whose text speaks of spam reports is a plain
    bounce -- but recording that bounce classifies the text again: the event is a
    spam report, and the address goes on the suppression list as a complaint. *)
Theorem report_becomes_a_complaint :
  let rcpt := mkReported "bob@d.e" "failed" "5.7.1" spamDiagnostic in
  let report := mkReport [rcpt] [("X-Panmail-Ref", bobRef)] in
  reportedEventType rcpt = Some BOUNCED /\
  (Process Tracking.demo_hmac addr (plainEnv None) mail1 (Some report) emptyBox).1.2 = [RecordBounce "t1" "m.1" BOUNCED "bob@d.e" spamDiagnostic; Announce "t1" mail1] /\
  Events.Type_ <$> Events.recorded (Events.RecordEvent quietEvents "t1" "" "m.1" BOUNCED "bob@d.e" "" spamDiagnostic ∅).1.2 = [SPAM_REPORT] /\
  Events.suppressions (Events.RecordEvent quietEvents "t1" "" "m.1" BOUNCED "bob@d.e" "" spamDiagnostic ∅).1.2 =
    [("t1", "bob@d.e", Events.with_cause Events.complaintReason spamDiagnostic)].
Proof. vm_compute. split_and!; reflexivity. Qed.

(** Pruned mail is announced again.  Retention takes a message's index entry
    with the message, and the index is what tells the poller that it has seen a
    message that is still in the mailbox: the next poll stores it and announces it
    again, and records its bounce again. *)
Theorem pruned_mail_is_announced_again :
  let first := Process Tracking.demo_hmac addr (plainEnv None) mail1 (Some bobReport) emptyBox in
  let again := Process Tracking.demo_hmac addr (plainEnv None) mail1 (Some bobReport) first.1.1 in
  let pruned := TruncateInbound (fun _ => None) (fun _ => None) (unixEpoch + 1800000000 * Second) first.1.1 in
  let after := Process Tracking.demo_hmac addr (plainEnv None) mail1 (Some bobReport) (afterInbound pruned.1.1 first.1.1) in
  again.1.2 = [] /\ pruned.1.2 = 1 /\ after.1.2 = first.1.2 /\
  after.1.2 = [RecordBounce "t1" "m.1" HARD_BOUNCE "bob@d.e" "smtp; 550 user unknown"; Announce "t1" mail1].
Proof. vm_compute. split_and!; reflexivity. Qed.

End InboundCases.
