(* ===== verification/SystemSettings.v ===== *)
(** * System settings and the retention policy

    Models internal/system_settings (entities/settings.go, the store of one row in
    repositories/stores/postgres, usecases/settings_usecase.go, provider.go), the
    policy of internal/retention/policy.go and the redaction levels of
    internal/redact.

    A time is an instant; the JSON of the retry pattern is a codec with a round
    trip.  A call of the use case reads the row and writes it back: what other
    calls do in between is an argument. *)
From S2P Require Import Prelude GoStrings.
From Stdlib Require Import Ascii.

Module SystemSettings.
Import GoStrings.
Local Open Scope string_scope.
Local Open Scope Z_scope.

(** ** Settings and policy *)

Record Settings := mkSettings {
  BaseURL : string;
  RetryPattern : list string;
  LogRetentionDays : option Z;
  WebhookRetentionDays : option Z;
  MessageRetentionDays : Z;
  OutboxRetentionDays : Z;
  AppLogRetentionDays : Z;
  InboundRetentionDays : Z;
  ArchiveRetentionDays : Z;
  QuarantineRetentionDays : Z;
  AnalyticsRetentionDays : Z;
  ContentRedaction : string;
  UpdatedAt : Z
}.

Record Policy := mkPolicy {
  EventDays : Z;
  MessageDays : Z;
  OutboxDays : Z;
  WebhookDays : Z;
  AppLogDays : Z;
  InboundDays : Z;
  ArchiveDays : Z;
  QuarantineDays : Z;
  AnalyticsDays : Z
}.

Definition DefaultEventDays : Z := 14.
Definition DefaultWebhookDays : Z := 7.
Definition MaxDays : Z := 3650.

Definition clampDays (days : Z) : Z := if days <? 0 then 0 else if MaxDays <? days then MaxDays else days.

Definition Resolve (s : option Settings) : Policy :=
  match s with
  | None => mkPolicy DefaultEventDays 0 0 DefaultWebhookDays 0 0 0 0 0
  | Some s =>
      mkPolicy
        (match LogRetentionDays s with Some d => clampDays d | None => DefaultEventDays end)
        (clampDays (MessageRetentionDays s))
        (clampDays (OutboxRetentionDays s))
        (match WebhookRetentionDays s with Some d => clampDays d | None => DefaultWebhookDays end)
        (clampDays (AppLogRetentionDays s))
        (clampDays (InboundRetentionDays s))
        (clampDays (ArchiveRetentionDays s))
        (clampDays (QuarantineRetentionDays s))
        (clampDays (AnalyticsRetentionDays s))
  end.

Definition Apply (p : Policy) (s : Settings) : Settings :=
  mkSettings (BaseURL s) (RetryPattern s) (Some (clampDays (EventDays p))) (Some (clampDays (WebhookDays p)))
    (clampDays (MessageDays p)) (clampDays (OutboxDays p)) (clampDays (AppLogDays p)) (clampDays (InboundDays p))
    (clampDays (ArchiveDays p)) (clampDays (QuarantineDays p)) (clampDays (AnalyticsDays p))
    (ContentRedaction s) (UpdatedAt s).

Definition Duration (days : Z) : Z := if days <=? 0 then 0 else clampDays days * Day.

(** [now.AddDate(0, 0, days)]: the same time of day on another date, by the
    clock on the wall.  [zone] gives the offset of local time from UTC at an
    instant, and at a wall clock read as UTC, which is how [time.Date] looks the
    offset up before it looks again at the instant that gives. *)
Definition AddDays (zone : Z -> Z) (now days : Z) : Z :=
  let wall := now + zone now + days * Day in
  let offset := zone wall in
  if offset =? 0 then wall else wall - zone (wall - offset).

Definition Cutoff (zone : Z -> Z) (days now : Z) : option Z := if days <=? 0 then None else Some (AddDays zone now (- clampDays days)).

(** How far offsets of local time lie apart, at most. *)
Definition swings (zone : Z -> Z) (swing : Z) : Prop := forall a b, zone a - zone b <= swing.

(** A number of days is that many times 24 hours, but for the offset's swing. *)
Lemma AddDays_near zone swing now d : swings zone swing -> Z.abs (AddDays zone now d - (now + d * Day)) <= swing.
Proof.
  intros Hs. unfold AddDays. set (wall := now + zone now + d * Day). destruct (Z.eqb_spec (zone wall) 0) as [E|_].
  - pose proof (Hs now wall). pose proof (Hs wall now). lia.
  - set (utc := wall - zone wall). pose proof (Hs now utc). pose proof (Hs utc now). lia.
Qed.

(** In UTC it is exactly that. *)
Lemma AddDays_UTC now d : AddDays (fun _ => 0) now d = now + d * Day.
Proof. unfold AddDays. cbn. lia. Qed.

(** ** Redaction levels *)

Inductive Level := Passwords | Codes | Secrets | Off.

Definition LevelFromString (s : string) : Level :=
  let s := ToLower (TrimSpace s) in
  if eqb s "off" then Off else if eqb s "codes" then Codes else if eqb s "secrets" then Secrets else Passwords.

Definition LevelString (l : Level) : string :=
  match l with Off => "off" | Codes => "codes" | Secrets => "secrets" | Passwords => "passwords" end.

(** [panmailv1.ContentRedaction]. *)
Inductive Redaction := REDACTION_UNSPECIFIED | REDACTION_OFF | REDACTION_PASSWORDS | REDACTION_CODES | REDACTION_SECRETS.
#[export] Instance Redaction_eq_dec : EqDecision Redaction.
Proof. solve_decision. Defined.

Definition redactionFromProto (v : Redaction) : Level :=
  match v with REDACTION_OFF => Off | REDACTION_CODES => Codes | REDACTION_SECRETS => Secrets | _ => Passwords end.

Definition redactionToProto (l : Level) : Redaction :=
  match l with Off => REDACTION_OFF | Codes => REDACTION_CODES | Secrets => REDACTION_SECRETS | Passwords => REDACTION_PASSWORDS end.

(** ** The row *)

(** A stored row: what may be absent is an option. *)
Record Row := mkRow {
  base_url : string;
  retry_pattern : option string;
  log_retention_days : option Z;
  webhook_retention_days : option Z;
  message_retention_days : Z;
  outbox_retention_days : Z;
  app_log_retention_days : Z;
  inbound_retention_days : Z;
  archive_retention_days : Z;
  quarantine_retention_days : Z;
  analytics_retention_days : Z;
  content_redaction : option string;
  updated_at : Z
}.

Class PatternCodec := {
  MarshalPattern : list string -> string;
  UnmarshalPattern : string -> option (list string)
}.

Class PatternCodecLaws (codec : PatternCodec) := {
  pattern_roundtrip : forall l, UnmarshalPattern (MarshalPattern l) = Some l;
  pattern_nonempty : forall l, l <> [] -> MarshalPattern l <> ""
}.

Section Store.
Context {codec : PatternCodec}.

(** The table holds one row or none. *)
Abbreviation Table := (option Row).

Definition scan (r : Row) : Settings :=
  mkSettings (base_url r)
    (match retry_pattern r with Some x => if eqb x "" then [] else default [] (UnmarshalPattern x) | None => [] end)
    (log_retention_days r) (webhook_retention_days r) (message_retention_days r) (outbox_retention_days r) (app_log_retention_days r)
    (inbound_retention_days r) (archive_retention_days r) (quarantine_retention_days r) (analytics_retention_days r)
    (default "" (content_redaction r)) (updated_at r).

Definition nullableText (v : string) : option string := if eqb v "" then None else Some v.

Definition writeArgs (now : Z) (s : Settings) : Row :=
  mkRow (BaseURL s) (match RetryPattern s with [] => None | l => Some (MarshalPattern l) end)
    (LogRetentionDays s) (WebhookRetentionDays s) (MessageRetentionDays s) (OutboxRetentionDays s) (AppLogRetentionDays s)
    (InboundRetentionDays s) (ArchiveRetentionDays s) (QuarantineRetentionDays s) (AnalyticsRetentionDays s)
    (nullableText (ContentRedaction s)) (if time_is_zero (UpdatedAt s) then now else UpdatedAt s).

Definition Get (f : fault) (t : Table) : Table * result string (option Settings) := exec f (fun t => Ok (t, scan <$> t)) t.
Definition Save (f : fault) (now : Z) (s : Settings) (t : Table) : Table * result string unit := exec f (fun _ => Ok (Some (writeArgs now s), tt)) t.

(** [Seed]: whether it wrote. *)
Definition Seed (f : fault) (now : Z) (s : Settings) (t : Table) : Table * result string bool :=
  exec f (fun t => match t with None => Ok (Some (writeArgs now s), true) | Some _ => Ok (t, false) end) t.

(** ** The use case *)

(** [panmailv1.SystemSettings] of a request: what it mentions. *)
Record Request := mkRequest {
  q_BaseUrl : option string;
  q_RetryPattern : list string;
  q_LogRetentionDays : option Z;
  q_MessageRetentionDays : option Z;
  q_OutboxRetentionDays : option Z;
  q_WebhookRetentionDays : option Z;
  q_AppLogRetentionDays : option Z;
  q_InboundRetentionDays : option Z;
  q_ArchiveRetentionDays : option Z;
  q_QuarantineRetentionDays : option Z;
  q_AnalyticsRetentionDays : option Z;
  q_ContentRedaction : Redaction
}.

(** What the page shows: everything. *)
Record View := mkView {
  v_BaseUrl : string;
  v_RetryPattern : list string;
  v_Policy : Policy;
  v_ContentRedaction : Redaction
}.

Definition defaultRetryPattern : list string := ["5m"; "15m"; "30m"; "1h"; "3h"; "6h"; "12h"; "24h"].

Definition storedRedaction (s : option Settings) : string := match s with None => "" | Some s => ContentRedaction s end.

Definition viewOf (stored : option Settings) : View :=
  mkView (match stored with None => "" | Some s => BaseURL s end)
    (match stored with Some s => match RetryPattern s with [] => defaultRetryPattern | l => l end | None => defaultRetryPattern end)
    (Resolve stored) (redactionToProto (LevelFromString (storedRedaction stored))).

Definition GetSettings (f : fault) (t : Table) : Table * result string View :=
  match Get f t with
  | (t, Err e) => (t, Err e)
  | (t, Ok stored) => (t, Ok (viewOf stored))
  end.

Definition applyPresentRetention (q : Request) (stored : Settings) : Settings :=
  let p := Resolve (Some stored) in
  Apply (mkPolicy (default (EventDays p) (q_LogRetentionDays q)) (default (MessageDays p) (q_MessageRetentionDays q))
    (default (OutboxDays p) (q_OutboxRetentionDays q)) (default (WebhookDays p) (q_WebhookRetentionDays q))
    (default (AppLogDays p) (q_AppLogRetentionDays q)) (default (InboundDays p) (q_InboundRetentionDays q))
    (default (ArchiveDays p) (q_ArchiveRetentionDays q)) (default (QuarantineDays p) (q_QuarantineRetentionDays q))
    (default (AnalyticsDays p) (q_AnalyticsRetentionDays q))) stored.

Definition emptySettings : Settings := mkSettings "" [] None None 0 0 0 0 0 0 0 "" 0.

(** What a save is made of: what is stored with what the request mentions. *)
Definition merged (q : Request) (now : Z) (stored : option Settings) : Settings :=
  let s := default emptySettings stored in
  let s := mkSettings (default (BaseURL s) (q_BaseUrl q)) (match q_RetryPattern q with [] => RetryPattern s | l => l end)
    (LogRetentionDays s) (WebhookRetentionDays s) (MessageRetentionDays s) (OutboxRetentionDays s) (AppLogRetentionDays s)
    (InboundRetentionDays s) (ArchiveRetentionDays s) (QuarantineRetentionDays s) (AnalyticsRetentionDays s) (ContentRedaction s) (UpdatedAt s) in
  let s := applyPresentRetention q s in
  mkSettings (BaseURL s) (RetryPattern s) (LogRetentionDays s) (WebhookRetentionDays s) (MessageRetentionDays s) (OutboxRetentionDays s) (AppLogRetentionDays s)
    (InboundRetentionDays s) (ArchiveRetentionDays s) (QuarantineRetentionDays s) (AnalyticsRetentionDays s)
    (if bool_decide (q_ContentRedaction q = REDACTION_UNSPECIFIED) then ContentRedaction s else LevelString (redactionFromProto (q_ContentRedaction q))) now.

(** [UpdateSettings]: read, save, and read again; [mid1] and [mid2] are what other
    calls commit between.  The middle component is whether the retention worker is
    triggered. *)
Definition UpdateSettings (f1 f2 f3 : fault) (now : Z) (mid1 mid2 : Table -> Table) (q : option Request) (t : Table) :
    Table * bool * result string View :=
  match q with
  | None => (t, false, Err "settings are required")
  | Some q =>
      match Get f1 t with
      | (t, Err e) => (t, false, Err e)
      | (t, Ok stored) =>
          match Save f2 now (merged q now stored) (mid1 t) with
          | (t, Err e) => (t, false, Err e)
          | (t, Ok _) => let '(t, v) := GetSettings f3 (mid2 t) in (t, true, v)
          end
      end
  end.

(** ** The provider (provider.go) *)

(** [Refresh] keeps what it had when the row cannot be read. *)
Definition Refresh (f : fault) (t : Table) (current : option Settings) : option Settings * option string :=
  match Get f t with
  | (_, Err e) => (current, Some e)
  | (_, Ok s) => (s, None)
  end.

(** Trailing slashes off. *)
Definition trimTrailingSlashes (s : string) : string := TrimRightFunc (fun c => bool_decide (c = "/"%char)) s.

Definition ProviderBaseURL (current : option Settings) : string := match current with None => "" | Some s => trimTrailingSlashes (BaseURL s) end.
Definition ProviderRetryPattern (current : option Settings) : list string := match current with None => [] | Some s => RetryPattern s end.
Definition ProviderRedaction (current : option Settings) : Level := match current with None => Passwords | Some s => LevelFromString (ContentRedaction s) end.

End Store.

(** ** The policy *)

Lemma clampDays_range d : 0 <= clampDays d <= MaxDays.
Proof. unfold clampDays, MaxDays. destruct (Z.ltb_spec d 0); [lia|]. destruct (Z.ltb_spec 3650 d); lia. Qed.

Lemma clampDays_id d : 0 <= d <= MaxDays -> clampDays d = d.
Proof. intros H. unfold clampDays. rewrite (proj2 (Z.ltb_ge _ _)), (proj2 (Z.ltb_ge _ _)) by lia. done. Qed.

Lemma clampDays_idem d : clampDays (clampDays d) = clampDays d.
Proof. apply clampDays_id, clampDays_range. Qed.

(** Every period of a policy, in order. *)
Definition periods (p : Policy) : list Z :=
  [EventDays p; MessageDays p; OutboxDays p; WebhookDays p; AppLogDays p; InboundDays p; ArchiveDays p; QuarantineDays p; AnalyticsDays p].

Lemma periods_inj p q : periods p = periods q -> p = q.
Proof. destruct p, q. unfold periods. simpl. by intros [= -> -> -> -> -> -> -> -> ->]. Qed.

Lemma Resolve_range s : Forall (fun d => 0 <= d <= MaxDays) (periods (Resolve s)).
Proof.
  destruct s as [s|]; [|repeat constructor; done]. unfold periods, Resolve. simpl.
  repeat constructor; try apply clampDays_range; destruct (LogRetentionDays s), (WebhookRetentionDays s); try apply clampDays_range; done.
Qed.

Lemma Resolve_Apply p s : periods (Resolve (Some (Apply p s))) = clampDays <$> periods p.
Proof. unfold periods, Resolve, Apply. simpl. by rewrite !clampDays_idem. Qed.

Section Facts.
Context {codec : PatternCodec} {laws : PatternCodecLaws codec}.

(** What is saved is what is read. *)
Lemma scan_writeArgs now s : scan (writeArgs now s) =
  mkSettings (BaseURL s) (RetryPattern s) (LogRetentionDays s) (WebhookRetentionDays s) (MessageRetentionDays s) (OutboxRetentionDays s) (AppLogRetentionDays s)
    (InboundRetentionDays s) (ArchiveRetentionDays s) (QuarantineRetentionDays s) (AnalyticsRetentionDays s) (ContentRedaction s)
    (if time_is_zero (UpdatedAt s) then now else UpdatedAt s).
Proof.
  unfold scan, writeArgs. simpl. f_equal.
  - destruct (RetryPattern s) as [|x l] eqn:E; [done|]. rewrite (proj2 (eqb_false _ _)) by (by apply pattern_nonempty). by rewrite pattern_roundtrip.
  - unfold nullableText. destruct (eqb (ContentRedaction s) "") eqn:E; [by apply eqb_true in E as ->|done].
Qed.

Lemma Resolve_scan now s : Resolve (Some (scan (writeArgs now s))) = Resolve (Some s).
Proof. by rewrite scan_writeArgs. Qed.

Lemma level_roundtrip v : v <> REDACTION_UNSPECIFIED -> redactionToProto (LevelFromString (LevelString (redactionFromProto v))) = v.
Proof. by destruct v. Qed.

(** An update changes what it mentions.  An update of the settings that
    reports success shows, for every field, the value the request carries -- a
    retention clamped to between zero and ten years -- or, where the request
    carries none, what the page showed before; nothing else changes, and what is
    shown is what every gateway reads from then on. *)
Theorem update_changes_what_it_mentions f3 now q (t t' : option Row) trig v :
  UpdateSettings Up Up f3 now (fun t => t) (fun t => t) (Some q) t = (t', trig, Ok v) ->
  let old := viewOf (scan <$> t) in
  trig = true /\ viewOf (scan <$> t') = v /\
  v_BaseUrl v = default (v_BaseUrl old) (q_BaseUrl q) /\
  v_RetryPattern v = (match q_RetryPattern q with [] => v_RetryPattern old | l => l end) /\
  v_ContentRedaction v = (if decide (q_ContentRedaction q = REDACTION_UNSPECIFIED) then v_ContentRedaction old else q_ContentRedaction q) /\
  periods (v_Policy v) = zip_with (fun old new => match new with Some d => clampDays d | None => old end) (periods (v_Policy old))
    [q_LogRetentionDays q; q_MessageRetentionDays q; q_OutboxRetentionDays q; q_WebhookRetentionDays q; q_AppLogRetentionDays q;
     q_InboundRetentionDays q; q_ArchiveRetentionDays q; q_QuarantineRetentionDays q; q_AnalyticsRetentionDays q].
Proof.
  unfold UpdateSettings, GetSettings, Get, Save. cbn [exec]. set (stored := scan <$> t).
  assert (Hf : forall g : option Row -> result string (option Row * option Settings), (forall t, g t = Ok (t, scan <$> t)) -> forall t r,
    (exec f3 g t).2 = Ok r -> exec f3 g t = (t, Ok (scan <$> t))).
  { intros g Hg t0 r. destruct f3; cbn [exec]; rewrite ?Hg; done. }
  destruct (exec f3 _ _) as [t1 [s1|]] eqn:E; intros [= <- <- <-]. pose proof (f_equal snd E) as E2. cbn [snd] in E2.
  rewrite (Hf _ (fun t => eq_refl) _ _ E2) in E. injection E as <- <-. clear Hf E2. cbn [fmap option_fmap option_map].
  split; [done|]. split; [done|]. unfold viewOf at 1 3 5 7. rewrite !scan_writeArgs.
  split_and!.
  - cbn. destruct (q_BaseUrl q); [done|]. unfold stored. by destruct t.
  - cbn. destruct (q_RetryPattern q); [|done]. unfold stored. by destruct t.
  - cbn. unfold storedRedaction. case_decide as Hu.
    + rewrite bool_decide_eq_true_2 by done. unfold stored. by destruct t.
    + rewrite bool_decide_eq_false_2 by done. by apply level_roundtrip.
  - cbn [v_Policy]. set (s0 := mkSettings _ _ _ _ _ _ _ _ _ _ _ _ _).
    assert (Hs : periods (Resolve (Some s0)) = periods (Resolve (Some (applyPresentRetention q (default emptySettings stored))))) by done.
    rewrite Hs. unfold applyPresentRetention. rewrite Resolve_Apply.
    assert (Hold : Resolve (Some (default emptySettings stored)) = v_Policy (viewOf stored)) by (unfold stored; by destruct t). rewrite Hold.
    pose proof (Resolve_range stored) as Hr. change (Resolve stored) with (v_Policy (viewOf stored)) in Hr. unfold periods in *.
    repeat (apply Forall_cons in Hr as [? Hr]). cbn [fmap list_fmap zip_with EventDays MessageDays OutboxDays WebhookDays AppLogDays InboundDays ArchiveDays QuarantineDays AnalyticsDays].
    repeat f_equal; match goal with |- clampDays (default _ ?x) = _ => destruct x; [done|by apply clampDays_id] end.
Qed.

(** C99: an overlapping update is undone.  The use case reads the row, changes
    what the request mentions and writes the whole row back.  Whatever other calls
    commit between the read and the write is gone: the row is the one this call
    alone would have left, although it mentions none of what they changed. *)
Theorem overlapping_update_is_undone f3 now mid q (t : option Row) :
  (UpdateSettings Up Up f3 now mid (fun t => t) (Some q) t).1 = (UpdateSettings Up Up f3 now (fun t => t) (fun t => t) (Some q) t).1.
Proof. reflexivity. Qed.

End Facts.

(** ** On concrete settings *)

Fixpoint bits (p : positive) : string := match p with xH => "" | xO p => String "0" (bits p) | xI p => String "1" (bits p) end.
Fixpoint unbits (s : string) : positive := match s with "" => xH | String c r => if bool_decide (c = "0"%char) then xO (unbits r) else xI (unbits r) end.

Lemma unbits_bits p : unbits (bits p) = p.
Proof. induction p as [p IH|p IH|]; cbn [bits unbits]; [..|done]; rewrite IH; done. Qed.

#[export] Instance samplePattern : PatternCodec := {
  MarshalPattern l := String "p" (bits (encode l));
  UnmarshalPattern s := match s with String _ r => decode (unbits r) | "" => None end
}.

#[export] Instance samplePatternLaws : PatternCodecLaws samplePattern.
Proof. split; [|done]. intros l. simpl. by rewrite unbits_bits, decode_encode. Qed.

Definition justURL : Request := mkRequest (Some "https://mail.example.com/") [] None None None None None None None None None REDACTION_UNSPECIFIED.
Definition forever : Request := mkRequest None [] (Some 0) None None (Some 99999) None (Some (-1)) None None None REDACTION_CODES.

Lemma update_changes_what_it_mentions_witness :
  exists t' v, UpdateSettings Up Up Up 7 (fun t => t) (fun t => t) (Some forever) None = (t', true, Ok v) /\
    periods (v_Policy v) = [0; 0; 0; 3650; 0; 0; 0; 0; 0] /\ v_ContentRedaction v = REDACTION_CODES.
Proof.
  destruct (UpdateSettings Up Up Up 7 (fun t => t) (fun t => t) (Some forever) None) as [[t' trig] [v|e]] eqn:E; [|discriminate E].
  destruct (update_changes_what_it_mentions Up 7 forever None t' trig v E) as (Ht & _ & _ & _ & Hr & Hp).
  exists t', v. split; [rewrite Ht; reflexivity|]. split; [rewrite Hp; reflexivity|rewrite Hr; reflexivity].
Defined.

(** Two saves that overlap: one chooses to keep events forever, the other changes
    the address; events are pruned after a fortnight again. *)
Example forever_is_undone :
  let keep t := (UpdateSettings Up Up Up 6 (fun t => t) (fun t => t) (Some forever) t).1.1 in
  EventDays (Resolve (scan <$> keep None)) = 0 /\
  EventDays (Resolve (scan <$> (UpdateSettings Up Up Up 7 keep (fun t => t) (Some justURL) None).1.1)) = 14.
Proof. split; reflexivity. Qed.

End SystemSettings.
