(* ===== verification/Retention.v ===== *)
(** * The retention worker

    Models internal/retention: the worker that applies the policy of
    [SystemSettings] to every store once per pass (worker.go, deps.go, stats.go),
    and the loop that decides when a pass runs.

    The worker knows its stores by what they can prune, so it is modelled on any
    world with such operations ([Deps]); [storeDeps] is the world of the stores
    modelled here: events, messages and counters, received mail, and receipts. *)
From S2P Require Import Prelude GoStrings Encoding KVStore Calendar Classify Events EventStore EventTimeline EventListing.
From S2P Require Import EventRetention EventCounters EventSeries InboundStore SystemSettings.
From Stdlib Require Import Ascii.

Module Retention.
Import GoStrings KVStore Calendar EventStore EventTimeline EventListing EventRetention SystemSettings.
Local Open Scope string_scope.
Local Open Scope Z_scope.

(** ** The pass (worker.go) *)

Definition MinuteSeriesDays : Z := 30.
Definition ResourceHistoryDays : Z := 7.
Definition InboundReceiptDays : Z := 7.
Definition maxQuarantineExpiriesPerPass : Z := 500.

Section Worker.
Context {W : Type}.

(** What prunes: given a cutoff, the world it leaves, how much it removed and its
    error. *)
Abbreviation pruner := (Z -> W -> W * Z * option string).

Record EventPruner := mkEventPruner {
  ev_events : pruner;
  ev_messages : pruner;
  ev_archives : pruner;
  ev_telemetry : option (pruner * pruner);      (* minutes, resource history *)
  ev_analytics : option pruner                  (* hours and days *)
}.

Record Deps := mkDeps {
  d_settings : option (W -> result string (option Settings));
  d_events : option EventPruner;
  d_logs : option pruner;
  d_inbound : option pruner;
  d_receipts : option pruner;
  d_history : option pruner;                    (* decided reviews *)
  d_quarantine : option (Z -> Z -> W -> W * result string Z);
  d_outbox : option (Z -> W -> W);
  d_webhooks : option (Z -> W -> W);
  d_screener : option (Z -> W -> W)
}.

Record pruneJob := mkJob {
  class : string;
  days : Z;
  prune : pruner
}.

(** Minutes go with the hours and days they add up to. *)
Definition minuteSeriesDays (p : Policy) : Z :=
  if (0 <? AnalyticsDays p) && (AnalyticsDays p <? MinuteSeriesDays) then AnalyticsDays p else MinuteSeriesDays.

Definition job_of (c : string) (d : Z) (o : option pruner) : list pruneJob := match o with Some run => [mkJob c d run] | None => [] end.

Definition jobs (deps : Deps) (p : Policy) : list pruneJob :=
  (match d_events deps with
   | None => []
   | Some ev =>
       [mkJob "events" (EventDays p) (ev_events ev); mkJob "messages" (MessageDays p) (ev_messages ev); mkJob "archives" (ArchiveDays p) (ev_archives ev)] ++
       (match ev_telemetry ev with
        | Some (minutes, resources) => [mkJob "minute_series" (minuteSeriesDays p) minutes; mkJob "resource_history" ResourceHistoryDays resources]
        | None => []
        end) ++
       job_of "analytics_series" (AnalyticsDays p) (ev_analytics ev)
   end ++
   job_of "app_logs" (AppLogDays p) (d_logs deps) ++
   job_of "inbound" (InboundDays p) (d_inbound deps) ++
   job_of "inbound_receipts" InboundReceiptDays (d_receipts deps) ++
   job_of "quarantine" (QuarantineDays p) (d_history deps))%list.

(** The counters of a worker. *)
Record Tally := mkTally {
  t_removed : Z;
  t_failures : Z;
  t_lastRun : Z
}.

(** What a pass asked for: the class and the cutoff. *)
Abbreviation asked := (string * Z)%type.

(** The offset of the process's local time, by which it counts days. *)
Context (zone : Z -> Z).

Definition runJob (now : Z) (job : pruneJob) (w : W) (t : Tally) : W * Tally * list asked :=
  match Cutoff zone (days job) now with
  | None => (w, t, [])
  | Some before =>
      let '(w', removed, err) := prune job before w in
      (w', mkTally (wrap64 (t_removed t + removed)) (match err with Some _ => wrap64 (t_failures t + 1) | None => t_failures t end) (t_lastRun t),
       [(class job, before)])
  end.

(** The jobs in order, until the pass is cut short; [alive i] is whether its
    context still stands before the i-th. *)
Fixpoint runJobs (alive : nat -> bool) (clock : nat -> Z) (i : nat) (l : list pruneJob) (w : W) (t : Tally) : W * Tally * list asked * bool :=
  match l with
  | [] => (w, t, [], true)
  | j :: rest =>
      if negb (alive i) then (w, t, [], false)
      else
        let '(w, t, a) := runJob (clock (S i)) j w t in
        let '(w, t, more, whole) := runJobs alive clock (S i) rest w t in (w, t, (a ++ more)%list, whole)
  end.

Definition set_on (o : option (Z -> W -> W)) (d : Z) (w : W) : W := match o with Some set => set d w | None => w end.

Definition pushToWorkers (deps : Deps) (p : Policy) (w : W) : W :=
  set_on (d_screener deps) (Duration (QuarantineDays p)) (set_on (d_webhooks deps) (Duration (WebhookDays p)) (set_on (d_outbox deps) (Duration (OutboxDays p)) w)).

Definition expireQuarantine (deps : Deps) (now : Z) (w : W) : W :=
  match d_quarantine deps with
  | None => w
  | Some expire => (expire now maxQuarantineExpiriesPerPass w).1
  end.

Definition load (deps : Deps) (w : W) : result string (option Settings) :=
  match d_settings deps with Some get => get w | None => Err "retention has no settings source" end.

(** [RunOnce]; the last component is whether the pass was completed. *)
Definition RunOnce (deps : Deps) (alive : nat -> bool) (clock : nat -> Z) (w : W) (t : Tally) : W * Tally * list asked * bool :=
  match load deps w with
  | Err _ => (w, t, [], false)
  | Ok settings =>
      let p := Resolve settings in
      let w := expireQuarantine deps (clock 0%nat) (pushToWorkers deps p w) in
      let l := jobs deps p in
      let '(w, t, a, whole) := runJobs alive clock 0 l w t in
      if whole : bool then (w, mkTally (t_removed t) (t_failures t) (UnixNano (clock (S (length l)))), a, true) else (w, t, a, false)
  end.

(** [SinceLastRun]. *)
Definition SinceLastRun (startedAt now : Z) (t : Tally) : Z :=
  if t_lastRun t =? 0 then time_sub now startedAt else time_sub now (unixEpoch + t_lastRun t).

End Worker.
Arguments EventPruner W : clear implicits.
Arguments Deps W : clear implicits.
Arguments pruneJob W : clear implicits.

(** ** What a pass asks *)

Section Asks.
Context {W : Type}.
Context (zone : Z -> Z).
Context (deps : Deps W).

(** The cutoff of a class that is pruned. *)
Lemma Cutoff_spec d now before : Cutoff zone d now = Some before <-> 0 < d /\ before = AddDays zone now (- clampDays d).
Proof. unfold Cutoff. destruct (Z.leb_spec d 0); [split; [done|lia]|]. split; [by intros [= <-]|by intros [_ ->]]. Qed.

(** What each job of a list is asked, from the i-th reading of the clock on. *)
Fixpoint due (clock : nat -> Z) (i : nat) (l : list (pruneJob W)) : list (string * Z) :=
  match l with
  | [] => []
  | j :: rest => ((if 0 <? days j then [(class j, AddDays zone (clock (S i)) (- clampDays (days j)))] else []) ++ due clock (S i) rest)%list
  end.

Lemma runJob_asks now j (w w' : W) t t' a : runJob zone now j w t = (w', t', a) -> a = if 0 <? days j then [(class j, AddDays zone now (- clampDays (days j)))] else [].
Proof.
  unfold runJob. destruct (Cutoff zone (days j) now) as [before|] eqn:E.
  - apply Cutoff_spec in E as [H ->]. destruct (prune j _ w) as [[w1 n] err]. intros [= <- <- <-]. by rewrite (proj2 (Z.ltb_lt _ _) H).
  - intros [= <- <- <-]. unfold Cutoff in E. destruct (Z.leb_spec (days j) 0); [|done]. by rewrite (proj2 (Z.ltb_ge _ _)).
Qed.

Lemma runJobs_asks alive clock l : forall i (w w' : W) t t' a whole, runJobs zone alive clock i l w t = (w', t', a, whole) ->
  exists done rest, l = (done ++ rest)%list /\ a = due clock i done /\ (whole = true <-> rest = []) /\
    (whole = false -> exists n, alive n = false).
Proof.
  induction l as [|j l IH]; intros i w w' t t' a whole; cbn [runJobs]; [intros [= <- <- <- <-]; by exists [], []|].
  destruct (alive i) eqn:Ha; cbn [negb]; [|intros [= <- <- <- <-]; exists [], (j :: l); split_and!; [done|done|done|by exists i]].
  destruct (runJob _ _ j w t) as [[w1 t1] a1] eqn:E1. destruct (runJobs zone alive clock (S i) l w1 t1) as [[[w2 t2] a2] wh] eqn:E2. intros [= <- <- <- <-].
  apply runJob_asks in E1 as ->. apply IH in E2 as (dn & rest & -> & -> & Hw & Hd). exists (j :: dn), rest. by split_and!.
Qed.

(** The jobs of a pass with a policy: every class of the policy a store is there
    for, with its own period. *)
Definition period_of (p : Policy) (c : string) : Z :=
  if eqb c "events" then EventDays p else if eqb c "messages" then MessageDays p else if eqb c "archives" then ArchiveDays p
  else if eqb c "minute_series" then minuteSeriesDays p else if eqb c "resource_history" then ResourceHistoryDays
  else if eqb c "analytics_series" then AnalyticsDays p else if eqb c "app_logs" then AppLogDays p
  else if eqb c "inbound" then InboundDays p else if eqb c "inbound_receipts" then InboundReceiptDays else QuarantineDays p.

Lemma jobs_periods p : Forall (fun j => days j = period_of p (class j)) (jobs deps p).
Proof.
  assert (Hjob : forall c d o, d = period_of p c -> Forall (fun j => days j = period_of p (class j)) (job_of (W := W) c d o))
    by (intros c d [run|] ->; unfold job_of; repeat constructor).
  unfold jobs. repeat (apply Forall_app; split); try (by apply Hjob). destruct (d_events deps) as [ev|]; [|done].
  repeat (apply Forall_app; split); [by repeat constructor| |by apply Hjob]. destruct (ev_telemetry ev) as [[a b]|]; by repeat constructor.
Qed.

Lemma period_range settings c : 0 <= period_of (Resolve settings) c <= MaxDays.
Proof.
  pose proof (Resolve_range settings) as Hr. unfold periods in Hr. repeat (apply Forall_cons in Hr as [? Hr]). unfold period_of, minuteSeriesDays, MinuteSeriesDays, ResourceHistoryDays, InboundReceiptDays, MaxDays in *.
  repeat (case_match; try lia).
Qed.

(** A pass does what the policy says.  When the settings cannot be read,
    nothing is touched.  Otherwise the stores are asked, class by class and
    whatever any of them answers, to drop what is older than the period the policy
    gives the class -- a whole number of days, by the local calendar, up to ten
    years before the moment of asking, never the zero time -- and a class that is kept forever is not asked at
    all.  A pass that is not cut short asks every class, and is then recorded. *)
Theorem pass_does_what_the_policy_says alive clock swing (w w' : W) t t' a whole :
  swings zone swing -> RunOnce zone deps alive clock w t = (w', t', a, whole) -> (forall i, MaxDays * Day + swing < clock i) ->
  match load deps w with
  | Err _ => w' = w /\ a = [] /\ whole = false
  | Ok settings =>
      let p := Resolve settings in
      (forall c before, (c, before) ∈ a -> exists i, 0 < period_of p c /\ before = AddDays zone (clock i) (- period_of p c) /\ 0 < before) /\
      (whole = true -> (forall j, j ∈ jobs deps p -> 0 < days j -> exists i, (class j, AddDays zone (clock i) (- days j)) ∈ a) /\ exists now, t_lastRun t' = UnixNano now) /\
      (whole = false -> exists n, alive n = false)
  end.
Proof.
  unfold RunOnce. destruct (load deps w) as [settings|]; [|by intros _ [= <- <- <- <-]]. intros Hsw H Hclock. set (p := Resolve settings) in *.
  destruct (runJobs zone alive clock 0 _ _ t) as [[[w1 t1] a1] wh] eqn:E. apply runJobs_asks in E as (dn & rest & Hl & -> & Hw & Hd).
  pose proof (jobs_periods p) as Hper. rewrite Hl in Hper. apply Forall_app in Hper as [Hper _].
  assert (Hrange : Forall (fun j => 0 <= days j <= MaxDays) dn) by (eapply Forall_impl; [exact Hper|]; intros j ->; apply period_range).
  assert (Ha : a = due clock 0 dn /\ whole = wh /\ (wh = true -> exists now, t_lastRun t' = UnixNano now))
    by (destruct wh; injection H as <- <- <- <-; split_and!; try done; intros _; by eexists).
  destruct Ha as (-> & -> & Hlast). clear H w1.
  assert (Hdue : forall l i c before, Forall (fun j => days j = period_of p (class j)) l -> Forall (fun j => 0 <= days j <= MaxDays) l -> (c, before) ∈ due clock i l ->
    exists i, 0 < period_of p c /\ before = AddDays zone (clock i) (- period_of p c) /\ 0 < before).
  { induction l as [|j l IH]; intros i c before Hp Hr Hin; [by apply elem_of_nil in Hin|]. apply Forall_cons in Hp as [Hp Hp']. apply Forall_cons in Hr as [Hr Hr'].
    cbn [due] in Hin. apply elem_of_app in Hin as [Hin|Hin]; [|by eapply IH]. destruct (Z.ltb_spec 0 (days j)); [|by apply elem_of_nil in Hin].
    apply list_elem_of_singleton in Hin as [= -> ->]. exists (S i). rewrite <- Hp, clampDays_id by done. specialize (Hclock (S i)). split_and!; [done|done|].
    assert (days j * Day <= MaxDays * Day) by (apply Z.mul_le_mono_nonneg_r; [done|lia]).
    pose proof (AddDays_near zone swing (clock (S i)) (- days j) Hsw). lia. }
  split_and!; [intros c before; by apply Hdue| |intros E; by apply Hd].
  intros Hwh. split; [|by apply Hlast]. rewrite (proj1 Hw Hwh), app_nil_r in Hl. intros j Hj Hpos. rewrite Hl in Hj. clear -Hj Hpos Hrange.
  revert Hrange Hj. generalize 0%nat as i. induction dn as [|x l IH]; intros i Hr Hj; [by apply elem_of_nil in Hj|]. apply Forall_cons in Hr as [Hr Hr']. cbn [due].
  apply elem_of_cons in Hj as [<-|Hj].
  - exists (S i). apply elem_of_app. left. rewrite (proj2 (Z.ltb_lt _ _) Hpos), clampDays_id by done. by left.
  - destruct (IH (S i) Hr' Hj) as [n Hn]. exists n. apply elem_of_app. by right.
Qed.

End Asks.

(** ** When a pass runs *)

(** The worker's loop of one instance and the settings it reads: the settings as
    stored; saves this instance served whose [Trigger] is still to come; the slot
    of the trigger channel; where the loop is; the policy the pass under way read;
    the policy of the last pass that went through every class, and whether the
    last pass did; whether the settings were changed, since they were last read,
    without a [Trigger] to follow. *)
Inductive phase := Waiting | Starting | Pruning.

Record Loop := mkLoop {
  l_stored : option Settings;
  l_saving : nat;
  l_pending : bool;
  l_phase : phase;
  l_reading : Policy;
  l_enforced : Policy;
  l_whole : bool;
  l_elsewhere : bool
}.

Definition wakes (pending : bool) (l : Loop) : Loop :=
  mkLoop (l_stored l) (l_saving l) pending Starting (l_reading l) (l_enforced l) (l_whole l) (l_elsewhere l).
Definition rests (enforced : Policy) (whole : bool) (l : Loop) : Loop :=
  mkLoop (l_stored l) (l_saving l) (l_pending l) Waiting (l_reading l) enforced whole (l_elsewhere l).

(** The steps: a save served here, and its [Trigger]; a save served by another
    instance, or one whose answer was lost, which has none; the loop woken by the
    channel or by a timer; the settings read, or not; the pass ended after every
    class, or cut short. *)
Inductive loop_step : Loop -> Loop -> Prop :=
| step_save l s : loop_step l (mkLoop (Some s) (S (l_saving l)) (l_pending l) (l_phase l) (l_reading l) (l_enforced l) (l_whole l) (l_elsewhere l))
| step_elsewhere l s : loop_step l (mkLoop (Some s) (l_saving l) (l_pending l) (l_phase l) (l_reading l) (l_enforced l) (l_whole l) true)
| step_trigger l n : l_saving l = S n -> loop_step l (mkLoop (l_stored l) n true (l_phase l) (l_reading l) (l_enforced l) (l_whole l) (l_elsewhere l))
| step_wake l : l_phase l = Waiting -> l_pending l = true -> loop_step l (wakes false l)
| step_timer l : l_phase l = Waiting -> loop_step l (wakes (l_pending l) l)
| step_load l : l_phase l = Starting ->
    loop_step l (mkLoop (l_stored l) (l_saving l) (l_pending l) Pruning (Resolve (l_stored l)) (l_enforced l) (l_whole l) false)
| step_unread l : l_phase l = Starting -> loop_step l (rests (l_enforced l) false l)
| step_finish l : l_phase l = Pruning -> loop_step l (rests (l_reading l) true l)
| step_cut l : l_phase l = Pruning -> loop_step l (rests (l_enforced l) false l).

(** [Start]: no pass has run. *)
Definition started (stored : option Settings) : Loop := mkLoop stored 0 false Waiting (Resolve None) (Resolve None) false false.

(** A change that is not in force has a pass on its way, or nobody told the loop,
    or its pass was not completed. *)
Definition on_its_way (l : Loop) : Prop :=
  (0 < l_saving l)%nat \/ l_pending l = true \/ l_elsewhere l = true \/
  match l_phase l with
  | Waiting => l_whole l = false \/ l_enforced l = Resolve (l_stored l)
  | Starting => True
  | Pruning => l_reading l = Resolve (l_stored l)
  end.

Lemma on_its_way_step l l' : loop_step l l' -> on_its_way l -> on_its_way l'.
Proof.
  unfold on_its_way. destruct 1 as [l s|l s|l n Hn|l Hp Hq|l Hp|l Hp|l Hp|l Hp|l Hp]; cbn; intros H; [left; lia|tauto..| | | |];
    rewrite ?Hp in H; tauto.
Qed.

(** C37: no change saved here is missed.  However the saves of this instance and
    their triggers, saves elsewhere, timers and passes interleave -- a save that
    lands while a pass is running, a burst of saves that finds the channel full, a
    pass that cannot read the settings or is cut short -- once the loop is at rest,
    with no save half done, its last pass completed, and no change since that pass
    read the settings that came without a trigger (from another instance, or with
    its answer lost), the policy the last pass went through every class with is the
    policy that is stored. *)
Theorem no_change_is_missed stored l :
  rtc loop_step (started stored) l ->
  l_phase l = Waiting -> l_pending l = false -> l_saving l = 0%nat -> l_whole l = true -> l_elsewhere l = false ->
  l_enforced l = Resolve (l_stored l).
Proof.
  intros Hrun Hph Hpe Hsa Hwh Hel. assert (H : on_its_way l).
  { remember (started stored) as l0 eqn:E. assert (Hi : on_its_way l0) by (subst l0; unfold on_its_way; cbn; tauto). clear E.
    induction Hrun as [l|l l1 l2 Hs _ IH]; [done|]. apply IH; [done..|]. by eapply on_its_way_step. }
  unfold on_its_way in H. rewrite Hph in H. destruct H as [?|[?|[?|[?|?]]]]; [lia|congruence..|done].
Qed.

(** ** The stores *)

Section Stores.
Context {DB : Type} `{!KV DB, !KVLaws DB counterMerge} {codec : Codec} {mailCodec : InboundStore.InboundCodec}.
Context {X : Type}.

(** The stores a pass prunes, and the rest of the system. *)
Record Stores := mkStores {
  s_events : DB;
  s_mail : InboundStore.Mailbox DB;
  s_receipts : InboundStore.Receipts;
  s_rest : X
}.

(** What the stores meet on the way: contexts that end, archives and commits that
    fail. *)
Record PassEnv := mkPassEnv {
  pe_events : RetEnv;
  pe_ctx : string -> nat -> option string;      (* by class *)
  pe_fails : string -> nat -> option string
}.

Definition on_events (r : list (list kvop) * Z * option string) (s : Stores) : Stores * Z * option string :=
  let '(bs, n, err) := r in (mkStores (EventSeries.committed bs (s_events s)) (s_mail s) (s_receipts s) (s_rest s), n, err).

(** A walk of the counters ends: [EventSeries.prune_drops_whole_buckets]. *)
Definition walked (r : option (list (list kvop) * Z * option string)) : list (list kvop) * Z * option string := default ([], 0, Some "the walk does not end") r.

Definition on_rest (f : Z -> X -> X * Z * option string) (before : Z) (s : Stores) : Stores * Z * option string :=
  let '(x, n, err) := f before (s_rest s) in (mkStores (s_events s) (s_mail s) (s_receipts s) x, n, err).

Definition eventPruner (env : PassEnv) (archives : Z -> X -> X * Z * option string) : EventPruner Stores :=
  mkEventPruner
    (fun before s => let '(st, err) := EventStore.TruncateBefore (pe_events env) before (s_events s) in
       (mkStores (after_pass st (s_events s)) (s_mail s) (s_receipts s) (s_rest s), r_removed st, err))
    (fun before s => on_events (TruncateMessagesBefore (pe_ctx env "messages") (pe_fails env "messages") before (s_events s)) s)
    (on_rest archives)
    (Some (fun before s => on_events (walked (EventSeries.PruneMinuteSeriesBefore (pe_ctx env "minutes") (pe_fails env "minutes") before (s_events s))) s,
           fun before s => on_events (EventSeries.PruneResourceHistoryBefore (pe_ctx env "resources") (pe_fails env "resources") before (s_events s)) s))
    (Some (fun before s => on_events (walked (EventSeries.PruneHourDaySeriesBefore (pe_ctx env "hours") (pe_ctx env "days") (pe_fails env "series") before (s_events s))) s)).

(** The worker's stores; what they have no model for here acts on the rest. *)
Definition storeDeps (env : PassEnv) (settings : X -> result string (option Settings)) (archives logs history : Z -> X -> X * Z * option string)
    (expire : Z -> Z -> X -> X * result string Z) (outbox webhooks screener : Z -> X -> X) : Deps Stores :=
  let set f d s := mkStores (s_events s) (s_mail s) (s_receipts s) (f d (s_rest s)) in
  mkDeps (Some (fun s => settings (s_rest s))) (Some (eventPruner env archives)) (Some (on_rest logs))
    (Some (fun before s => let '(bs, n, err) := InboundStore.TruncateInbound (pe_ctx env "inbound") (pe_fails env "inbound") before (s_mail s) in
             (mkStores (s_events s) (InboundStore.afterInbound bs (s_mail s)) (s_receipts s) (s_rest s), n, err)))
    (Some (fun before s => let kept := InboundStore.prune_receipts (Unix before) (s_receipts s) in
             (mkStores (s_events s) (s_mail s) kept (s_rest s), Z.of_nat (size (s_receipts s)) - Z.of_nat (size kept), None)))
    (Some (on_rest history))
    (Some (fun now limit s => let '(x, r) := expire now limit (s_rest s) in (mkStores (s_events s) (s_mail s) (s_receipts s) x, r)))
    (Some (set outbox)) (Some (set webhooks)) (Some (set screener)).

End Stores.
Arguments Stores DB X : clear implicits.

(** ** What a pass leaves alone *)

Section Spares.
Context {DB : Type} `{!KV DB, !KVLaws DB counterMerge} {codec : Codec} {mailCodec : InboundStore.InboundCodec}.

(** A key no batch touches keeps its value. *)
Lemma committed_spares (bs : list (list kvop)) (d : DB) k : (forall b o, b ∈ bs -> o ∈ b -> op_key o <> k) ->
  kv_get (EventSeries.committed bs d) k = kv_get d k.
Proof.
  intros H. rewrite EventSeries.kv_committed. apply effects_none, Forall_forall. intros o Ho.
  apply list_elem_of_In, in_concat in Ho as (b & Hb & Ho). apply (H b); by apply list_elem_of_In.
Qed.

(** A key of a family is not in the range of another. *)
Lemma range_prefix (d : DB) p a b k v : (k, v) ∈ kv_iter d (p ++ a) (p ++ b) -> exists r, k = p ++ r.
Proof. intros (_ & Hlo & Hhi)%kv_iter_spec. by eapply between_prefix. Qed.

(** Expiring events touches rows it drew, their ids and their messages' entries. *)
Definition of_events (rows : list (string * string)) (o : kvop) : Prop :=
  (exists k v, (k, v) ∈ rows /\ o = KDelete k) \/ (exists id, o = KDelete (eventIdKey id)) \/ exists e, o = KDelete (msgEventKey e).

Lemma expireAll_touches env held rows : forall chunk lines lines' ops ps, Forall (fun rec => (x_key rec, x_value rec) ∈ rows) chunk ->
  expireAll env held chunk lines = (lines', Ok (ops, ps)) -> Forall (of_events rows) ops.
Proof.
  induction chunk as [|rec rest IH]; intros lines lines' ops ps Hc; cbn [expireAll]; [by intros [= _ <- _]|]. apply Forall_cons in Hc as [Hrec Hc].
  destruct (expireEvent _ _ _ _) as [l1 [[o1 p]|err]] eqn:E1; [|done]. destruct (expireAll env held rest l1) as [l2 [[o2 ps2]|err]] eqn:E2; [|done]. intros [= _ <- _].
  apply Forall_app. split; [|by eapply IH]. apply Forall_forall. intros o Ho. destruct (expireEvent_ops _ _ _ _ _ _ _ E1 o Ho) as [->|[->|(e & _ & ->)]];
    [left; by eexists _, _|right; left; by eexists|right; right; by eexists].
Qed.

Definition touches (rows : list (string * string)) (st : RetState) : Prop := forall ops, RCommit ops ∈ r_actions st -> Forall (of_events rows) ops.

Lemma expireChunk_touches env rows chunk st st' err : Forall (fun rec => (x_key rec, x_value rec) ∈ rows) chunk -> touches rows st ->
  expireChunk env chunk st = (st', err) -> touches rows st'.
Proof.
  intros Hc Hst. unfold expireChunk, expireLatest. destruct chunk as [|rec rest]; [by intros [= <- <-]|].
  destruct (match r_elsewhere env with None => Ok ∅ | Some held => held _ end) as [held|e]; [|by intros [= <- <-]].
  destruct (expireAll _ _ _ _) as [lines [[ops ps]|e]] eqn:E; [|by intros [= <- <-]]. apply (expireAll_touches _ _ rows) in E; [|done].
  destruct (r_commit _ _); [by intros [= <- <-]|].
  assert (Hnew : forall more, (forall o, RCommit o ∉ more) -> forall n r ls, touches rows (mkRet (r_actions st ++ [RCommit ops] ++ more) ls r n)).
  { intros more Hr n r ls o. cbn [r_actions]. rewrite !elem_of_app, list_elem_of_singleton. intros [Ho|[[= ->]|Ho]]; [by apply Hst|done|by destruct (Hr o)]. }
  destruct ps as [|p ps]; [intros [= <- <-]; apply (Hnew []); intros o ?%elem_of_nil; done|].
  destruct (r_expire _ _); intros [= <- <-]; [apply (Hnew []); intros o ?%elem_of_nil; done|].
  simpl. rewrite <- app_assoc. apply (Hnew [RExpire (p :: ps)]). intros o. by rewrite list_elem_of_singleton.
Qed.

Lemma truncateLoop_touches env cutoff rows : forall l i chunk st st' err, (forall x, x ∈ l -> x ∈ rows) -> Forall (fun rec => (x_key rec, x_value rec) ∈ rows) chunk ->
  touches rows st -> truncateLoop env cutoff i l chunk st = (st', err) -> touches rows st'.
Proof.
  induction l as [|[k v] l IH]; intros i chunk st st' err Hsub Hc Hst; cbn [truncateLoop]; [by apply expireChunk_touches|].
  assert (Hsub' : forall x, x ∈ l -> x ∈ rows) by (intros; apply Hsub; by right).
  destruct (r_ctx env i); [by intros [= <- <-]|]. destruct (keyParts k) as [[ts id]|]; [|by apply IH]. destruct (_ <=? _); [by apply IH|].
  assert (Hc' : Forall (fun rec => (x_key rec, x_value rec) ∈ rows) (chunk ++ [mkExpired k id v])) by (apply Forall_app; split; [done|]; constructor; [apply Hsub; by left|done]).
  destruct (_ <? _)%nat; [by apply IH|]. destruct (expireChunk _ _ _) as [st1 [e|]] eqn:E; apply (expireChunk_touches _ rows) in E; [by intros [= <- <-]|done..|by apply IH|done|done].
Qed.

(** A key that is not of the log or its indexes survives an event pass. *)
Lemma truncate_spares_others env before (d : DB) st err k : EventStore.TruncateBefore env before d = (st, err) -> timeline_key k = false ->
  (forall r, k <> "events" ++ r) -> (forall id, k <> eventIdKey id) -> (forall e, k <> msgEventKey e) -> kv_get (after_pass st d) k = kv_get d k.
Proof.
  unfold EventStore.TruncateBefore, truncateBefore. intros H Hk He Hi Hm. destruct (time_is_zero before); [by injection H as <- <-|].
  set (rows := kv_iter d "events:" "events;") in *.
  pose proof (truncateLoop_deletes _ _ _ _ _ (mkRet [] [] 0 0) _ _ ltac:(intros ops ?%elem_of_nil; done) H) as Hdel.
  apply (truncateLoop_touches _ _ rows) in H; [|done|done|by intros ops ?%elem_of_nil].
  apply after_pass_get; [done|done|]. intros (ops & Hin & Hko). apply H in Hin. rewrite Forall_forall in Hin.
  destruct (Hin _ Hko) as [(k' & v & Hr & [= <-])|[(id & [= ->])|(e & [= ->])]]; [|by eapply Hi|by eapply Hm].
  apply (range_prefix d "events" ":" ";") in Hr as [r ->]. by eapply He.
Qed.

(** An event that is not older than the cutoff survives it. *)
Lemma truncate_spares_fresh env before (d : DB) st err e : EventStore.TruncateBefore env before d = (st, err) -> orderly e -> in_era before -> before <= Events.Timestamp e ->
  kv_get (after_pass st d) (eventKey e) = kv_get d (eventKey e).
Proof.
  unfold EventStore.TruncateBefore, truncateBefore. intros H He Hera Hb. destruct (time_is_zero before); [by injection H as <- <-|].
  set (rows := kv_iter d "events:" "events;") in *.
  pose proof (truncateLoop_deletes _ _ _ _ _ (mkRet [] [] 0 0) _ _ ltac:(intros ops ?%elem_of_nil; done) H) as Hdel.
  apply (truncateLoop_accounted _ rows) in H; [|done|done|by intros k (ops & ?%elem_of_nil & _)].
  apply after_pass_get; [done|done|]. intros Hd. destruct (H _ Hd) as (v & ts & id & _ & Hp & Hts & _); [apply prefix_app|].
  destruct (keyParts_row e He) as (id' & E & _). rewrite E in Hp. injection Hp as <- _. destruct He as [He _]. rewrite !descending_era in Hts by done. lia.
Qed.

(** Pruning messages touches messages that are old, and their index. *)
Lemma messages_spare ctx fails before (d : DB) bs n err k : TruncateMessagesBefore ctx fails before d = (bs, n, err) ->
  (forall m, k ∉ recipientMessageKeys m) -> (forall x v m, k = "messages" ++ x -> kv_get d k = Some v -> UnmarshalMessage v = Ok m -> expired (Events.M_CreatedAt m) before = false) ->
  kv_get (EventSeries.committed bs d) k = kv_get d k.
Proof.
  unfold TruncateMessagesBefore. intros H Hr Hfresh. destruct (time_is_zero before); [by injection H as <- <- <-|].
  set (rows := kv_iter d "messages:" "messages;") in *. apply (messagesLoop_spec ctx fails before rows) in H as (H & _); [|done|by intros o ?%elem_of_nil|done|done].
  apply committed_spares. intros b o Hb Ho E. rewrite Forall_forall in H. destruct (H b Hb o Ho) as (k' & v & m & Hin & Hu & Hx & Hop & _).
  apply elem_of_cons in Hop as [->|(k2 & -> & Hk2)%list_elem_of_fmap]; cbn [op_key] in E; subst; [|by eapply Hr].
  destruct (range_prefix d "messages" ":" ";" _ _ Hin) as [x Hkx]. apply kv_iter_spec in Hin as (Hv & _). by rewrite (Hfresh x v m Hkx Hv Hu) in Hx.
Qed.

(** A pruning batch takes keys of the range it walks. *)
Lemma delete_staged fails key p : EventSeries.staged_keys (EventSeries.delete fails key p).1 = (EventSeries.staged_keys p ++ [KDelete key])%list.
Proof.
  unfold EventSeries.delete, EventSeries.staged_keys. cbn [EventSeries.p_pending EventSeries.p_commits EventSeries.p_batch EventSeries.p_removed].
  destruct (_ <? _)%nat; cbn; [by rewrite app_assoc|]. destruct (fails _); cbn; [by rewrite app_assoc|]. rewrite concat_app. cbn. by rewrite !app_nil_r, app_assoc.
Qed.

Definition from_rows (l : list (string * string)) (p : EventSeries.pruneBatch) : Prop := forall o, o ∈ EventSeries.staged_keys p -> exists k v, (k, v) ∈ l /\ o = KDelete k.

Lemma delete_from_rows fails l k v p : (k, v) ∈ l -> from_rows l p -> from_rows l (EventSeries.delete fails k p).1.
Proof. intros Hk Hp o. rewrite delete_staged, elem_of_app, list_elem_of_singleton. intros [?| ->]; [by apply Hp|by exists k, v]. Qed.

Lemma pruneWalk_from_rows rows fuel ctx fails f skip cutoff : forall i l p p' e, (forall x, x ∈ l -> x ∈ rows) -> from_rows rows p ->
  EventSeries.pruneWalk fuel ctx fails f skip cutoff i l p = Some (p', e) -> from_rows rows p'.
Proof.
  induction fuel as [|fuel IH]; intros i [|[k v] l] p p' e Hl Hp; cbn [EventSeries.pruneWalk]; try done; try (by intros [= <- <-]).
  assert (Hsuf : forall x y, y ∈ seekGE x ((k, v) :: l) -> y ∈ rows).
  { intros x y Hy. apply Hl. destruct (EventSeries.seekGE_suffix x ((k, v) :: l)) as [l1 ->]. apply elem_of_app. by right. }
  assert (Htl : forall x, x ∈ l -> x ∈ rows) by (intros x Hx; apply Hl; by right).
  destruct (ctx i); [by intros [= <- <-]|]. destruct (EventSeries.skips skip k); [apply IH; [apply Hsuf|done]|].
  destruct (EventSeries.splitCounterKey k f) as [[tp b]|]; [|by apply IH]. destruct (String.leb cutoff b); [apply IH; [apply Hsuf|done]|].
  pose proof (delete_from_rows fails rows k v p ltac:(apply Hl; by left) Hp) as Hd. destruct (EventSeries.delete fails k p) as [p1 [e1|]]; [by intros [= <- <-]|by apply IH].
Qed.

Lemma outcome_from_rows rows fails p (r : list (list kvop) * Z * option string) : from_rows rows p -> (exists err, r = EventSeries.abandon p err) \/ r = EventSeries.finish fails p ->
  forall b o, b ∈ r.1.1 -> o ∈ b -> exists k v, (k, v) ∈ rows /\ o = KDelete k.
Proof.
  intros Hp Hr b o Hb Ho.
  assert (Hin : b ∈ EventSeries.p_commits p \/ b = EventSeries.p_batch p).
  { destruct Hr as [[err ->]| ->]; [by left|]. unfold EventSeries.finish in Hb. destruct (_ =? _)%nat; [by left|]. destruct (fails _); [by left|].
    cbn in Hb. apply elem_of_app in Hb as [?|?%list_elem_of_singleton]; [by left|by right]. }
  apply Hp. unfold EventSeries.staged_keys. apply elem_of_app. destruct Hin as [Hin| ->]; [left|by right].
  apply list_elem_of_In, in_concat. exists b. split; by apply list_elem_of_In.
Qed.

Lemma pruneCounters_from_rows ctx fails (d : DB) f range skip before p p' e rows : (forall x, x ∈ kv_iter d (EventSeries.lower range) (EventSeries.upper range) -> x ∈ rows) ->
  from_rows rows p -> EventSeries.pruneCounters ctx fails d f range skip before p = Some (p', e) -> from_rows rows p'.
Proof. intros Hl Hp. unfold EventSeries.pruneCounters. by apply pruneWalk_from_rows. Qed.

(** The counters' rows. *)
Definition series_rows (d : DB) : list (string * string) :=
  (kv_iter d (EventSeries.lower EventSeries.minuteSeriesRange) (EventSeries.upper EventSeries.minuteSeriesRange) ++
   kv_iter d (EventSeries.lower EventSeries.hourSeriesRange) (EventSeries.upper EventSeries.hourSeriesRange) ++
   kv_iter d (EventSeries.lower EventSeries.daySeriesRange) (EventSeries.upper EventSeries.daySeriesRange))%list.

Lemma series_rows_prefix (d : DB) k v : (k, v) ∈ series_rows d -> exists r, k = "timeseries" ++ r.
Proof.
  unfold series_rows. rewrite !elem_of_app.
  intros [H|[H|H]]; [apply (range_prefix d "timeseries" ":minute:" ":minute;") in H|apply (range_prefix d "timeseries" ":hour:" ":hour;") in H|apply (range_prefix d "timeseries" ":" ";") in H]; done.
Qed.

Lemma series_spare (d : DB) (r : list (list kvop) * Z * option string) k : (forall b o, b ∈ r.1.1 -> o ∈ b -> exists k v, (k, v) ∈ series_rows d /\ o = KDelete k) -> (forall x, k <> "timeseries" ++ x) ->
  kv_get (EventSeries.committed r.1.1 d) k = kv_get d k.
Proof.
  intros H Hk. apply committed_spares. intros b o Hb Ho E. destruct (H b o Hb Ho) as (k' & v & Hin & ->). cbn [op_key] in E. subst k'.
  apply series_rows_prefix in Hin as [x ->]. by eapply Hk.
Qed.

Lemma minutes_spare ctx fails before (d : DB) k : (forall x, k <> "timeseries" ++ x) ->
  kv_get (EventSeries.committed (walked (EventSeries.PruneMinuteSeriesBefore ctx fails before d)).1.1 d) k = kv_get d k.
Proof.
  intros Hk. unfold EventSeries.PruneMinuteSeriesBefore. destruct (time_is_zero before); [done|].
  destruct (EventSeries.pruneCounters _ _ _ _ _ _ _ _) as [[p e]|] eqn:E; [|done].
  apply (pruneCounters_from_rows _ _ _ _ _ _ _ _ _ _ (series_rows d)) in E;
    [|intros x Hx; unfold series_rows; apply elem_of_app; by left|by intros o ?%elem_of_nil].
  destruct e as [err|]; cbn [walked default]; (apply series_spare; [|done]); eapply (outcome_from_rows _ fails); [exact E|left; by eexists|exact E|by right].
Qed.

Lemma hours_spare ctx1 ctx2 fails before (d : DB) k : (forall x, k <> "timeseries" ++ x) ->
  kv_get (EventSeries.committed (walked (EventSeries.PruneHourDaySeriesBefore ctx1 ctx2 fails before d)).1.1 d) k = kv_get d k.
Proof.
  intros Hk. unfold EventSeries.PruneHourDaySeriesBefore. destruct (time_is_zero before); [done|].
  destruct (EventSeries.pruneCounters ctx1 _ _ _ _ _ _ _) as [[p e]|] eqn:E; [|done].
  apply (pruneCounters_from_rows _ _ _ _ _ _ _ _ _ _ (series_rows d)) in E;
    [|intros x Hx; unfold series_rows; rewrite !elem_of_app; right; by left|by intros o ?%elem_of_nil].
  destruct e as [err|]; [cbn [walked default]; apply series_spare; [|done]; eapply (outcome_from_rows _ fails); [exact E|left; by eexists]|].
  destruct (EventSeries.pruneCounters ctx2 _ _ _ _ _ _ _) as [[p2 e]|] eqn:E2; [|done].
  apply (pruneCounters_from_rows _ _ _ _ _ _ _ _ _ _ (series_rows d)) in E2; [|intros x Hx; unfold series_rows; rewrite !elem_of_app; right; by right|done].
  destruct e as [err|]; cbn [walked default]; (apply series_spare; [|done]); eapply (outcome_from_rows _ fails); [exact E2|left; by eexists|exact E2|by right].
Qed.

Lemma resources_spare ctx fails before (d : DB) k : (forall x, k <> "resource" ++ x) ->
  kv_get (EventSeries.committed (EventSeries.PruneResourceHistoryBefore ctx fails before d).1.1 d) k = kv_get d k.
Proof.
  intros Hk. unfold EventSeries.PruneResourceHistoryBefore. destruct (time_is_zero before); [done|].
  set (from := "resource:" ++ _). set (rows := kv_iter d from "resource;").
  assert (Hloop : forall l i p, (forall x, x ∈ l -> x ∈ rows) -> from_rows rows p -> forall b o, b ∈ (EventSeries.resourceLoop ctx fails i l p).1.1 -> o ∈ b -> exists k v, (k, v) ∈ rows /\ o = KDelete k).
  { induction l as [|[k0 v] l IH]; intros i p Hl Hp; cbn [EventSeries.resourceLoop]; [apply (outcome_from_rows _ fails p); [done|by right]|].
    destruct (ctx i); [apply (outcome_from_rows _ fails p); [done|left; by eexists]|].
    pose proof (delete_from_rows fails rows k0 v p ltac:(apply Hl; by left) Hp) as Hd. destruct (EventSeries.delete fails k0 p) as [p1 [e1|]].
    - apply (outcome_from_rows _ fails p1); [done|left; by eexists].
    - apply IH; [intros x Hx; apply Hl; by right|done]. }
  apply committed_spares. intros b o Hb Ho E. destruct (Hloop rows 0%nat EventSeries.newPruneBatch (fun x H => H) ltac:(by intros o' ?%elem_of_nil) b o Hb Ho) as (k' & v & Hin & ->).
  cbn [op_key] in E. subst k'. apply (range_prefix d "resource" (":" ++ Sprintf_019d (wrap64 (descending before + 1))) ";") in Hin as [r ->]. by eapply Hk.
Qed.

(** Pruning received mail takes messages past the cutoff, and their index. *)
Definition old_mail (rows : list (string * string)) (cutoff : Z) (o : kvop) : Prop :=
  (exists k v ts id, (k, v) ∈ rows /\ keyParts k = Some (ts, id) /\ cutoff < ts /\ o = KDelete k) \/ exists t i, o = KDelete (InboundStore.inboundIdx t i).

Lemma inboundLoop_old ctx fails cutoff rows : forall l i batch pending removed commits commits' n err, (forall x, x ∈ l -> x ∈ rows) ->
  Forall (old_mail rows cutoff) batch -> Forall (Forall (old_mail rows cutoff)) commits ->
  InboundStore.inboundLoop ctx fails cutoff i l batch pending removed commits = (commits', n, err) -> Forall (Forall (old_mail rows cutoff)) commits'.
Proof.
  induction l as [|[k v] l IH]; intros i batch pending removed commits commits' n err Hl Hb Hc; cbn [InboundStore.inboundLoop].
  { destruct (_ =? _)%nat; [by intros [= <- <- <-]|]. destruct (fails _); intros [= <- <- <-]; [done|]. apply Forall_app. split; [done|]. by repeat constructor. }
  assert (Htl : forall x, x ∈ l -> x ∈ rows) by (intros; apply Hl; by right).
  destruct (ctx i); [by intros [= <- <- <-]|]. destruct (keyParts k) as [[ts id]|] eqn:Ek; [|by apply IH]. destruct (Z.leb_spec ts cutoff); [by apply IH|].
  destruct (InboundStore.UnmarshalInbound v) as [e|]; [|by apply IH]. set (batch' := (batch ++ _)%list).
  assert (Hb' : Forall (old_mail rows cutoff) batch').
  { apply Forall_app. split; [done|]. constructor; [left; exists k, v, ts, id; split_and!; [apply Hl; by left|done..]|]. constructor; [right; by eexists _, _|constructor]. }
  destruct (_ <? _)%nat; [by apply IH|]. destruct (fails _); [by intros [= <- <- <-]|]. apply IH; [done|done|]. apply Forall_app. split; [done|]. by repeat constructor.
Qed.

Lemma keyParts_mail e : in_era (InboundStore.I_Timestamp e) -> no_colon (InboundStore.I_TenantID e) ->
  exists id, keyParts (InboundStore.inboundKey e) = Some (descending (InboundStore.I_Timestamp e), id).
Proof.
  intros Hera Ht. unfold keyParts, InboundStore.inboundKey, InboundStore.inboundKeyOf, InboundStore.inboundStamp.
  assert (Hnn : 0 <= descending (InboundStore.I_Timestamp e) <= maxInt64) by (rewrite descending_era by done; unfold in_era in Hera; lia).
  rewrite Sprintf_pad by lia. set (ts := pad 19 _).
  assert (Hts : no_colon ts) by (unfold ts; rewrite <- descendingTimestamp_pad by done; apply descendingTimestamp_no_colon).
  assert (E : "inbound:" ++ InboundStore.I_TenantID e ++ ":" ++ ts ++ ":" ++ InboundStore.I_ID e =
    "inbound" ++ String ":" (InboundStore.I_TenantID e ++ String ":" (ts ++ String ":" (InboundStore.I_ID e)))) by done.
  rewrite E, !Split_head by done. destruct (Split (InboundStore.I_ID e) ":"%char) as [|id ids] eqn:Es; [by apply Split_nonempty in Es|].
  exists id. unfold ts. by rewrite ParseInt_pad.
Qed.

Lemma mail_spare ctx fails before (s : InboundStore.Mailbox DB) bs n err e : InboundStore.TruncateInbound ctx fails before s = (bs, n, err) ->
  in_era before -> in_era (InboundStore.I_Timestamp e) -> no_colon (InboundStore.I_TenantID e) -> before <= InboundStore.I_Timestamp e ->
  kv_get (InboundStore.mb_db (InboundStore.afterInbound bs s)) (InboundStore.inboundKey e) = kv_get (InboundStore.mb_db s) (InboundStore.inboundKey e).
Proof.
  unfold InboundStore.TruncateInbound. intros H Hera He Ht Hb. destruct (time_is_zero before); [by injection H as <- <- <-|].
  apply (inboundLoop_old _ _ _ (kv_iter (InboundStore.mb_db s) "inbound:" "inbound;")) in H; [|done..].
  apply committed_spares. intros b o Hin Ho E. rewrite Forall_forall in H. specialize (H b Hin). rewrite Forall_forall in H.
  destruct (H o Ho) as [(k & v & ts & id & _ & Hp & Hts & ->)|(t & i & ->)]; cbn [op_key] in E; [subst k|done].
  destruct (keyParts_mail e He Ht) as [id' E]. rewrite E in Hp. injection Hp as <- _. rewrite !descending_era in Hts by done. lia.
Qed.

End Spares.

(** ** A whole pass *)

Section Whole.
Context {W : Type} (zone : Z -> Z).
Context (deps : Deps W) (I : W -> Prop).

(** What every operation a pass makes keeps, the pass keeps. *)
Lemma runJobs_keeps alive clock l : (forall j i before w, j ∈ l -> Cutoff zone (days j) (clock i) = Some before -> I w -> I (prune j before w).1.1) ->
  forall i (w w' : W) t t' a whole, I w -> runJobs zone alive clock i l w t = (w', t', a, whole) -> I w'.
Proof.
  induction l as [|j l IH]; intros Hl i w w' t t' a whole Hw; cbn [runJobs]; [by intros [= <- <- <- <-]|].
  destruct (negb (alive i)); [by intros [= <- <- <- <-]|].
  destruct (runJob zone (clock (S i)) j w t) as [[w1 t1] a1] eqn:E1. destruct (runJobs zone alive clock (S i) l w1 t1) as [[[w2 t2] a2] wh] eqn:E2. intros [= <- <- <- <-].
  eapply IH; [|..|exact E2]; [intros j' n before w0 Hj; apply Hl; by right|]. unfold runJob in E1. destruct (Cutoff zone (days j) (clock (S i))) as [before|] eqn:Ec; [|by injection E1 as <- _ _].
  pose proof (Hl j (S i) before w ltac:(by left) Ec Hw) as H. destruct (prune j before w) as [[w3 n] err]. by injection E1 as <- _ _.
Qed.

Lemma RunOnce_keeps alive clock (w w' : W) t t' a whole settings : load deps w = Ok settings ->
  (forall o d w, o ∈ [d_outbox deps; d_webhooks deps; d_screener deps] -> I w -> I (set_on o d w)) ->
  (forall now w, I w -> I (expireQuarantine deps now w)) ->
  (forall j i before w, j ∈ jobs deps (Resolve settings) -> Cutoff zone (days j) (clock i) = Some before -> I w -> I (prune j before w).1.1) ->
  I w -> RunOnce zone deps alive clock w t = (w', t', a, whole) -> I w'.
Proof.
  intros Hload Hset Hexp Hjobs Hw. unfold RunOnce. rewrite Hload.
  set (w1 := expireQuarantine _ _ _). assert (H1 : I w1).
  { apply Hexp. unfold pushToWorkers. apply Hset; [set_solver|]. apply Hset; [set_solver|]. apply Hset; [set_solver|done]. }
  destruct (runJobs _ _ _ _ _ w1 t) as [[[w2 t2] a2] wh] eqn:E. apply (runJobs_keeps alive clock) in E; [|done|done]. destruct wh; by intros [= <- <- <- <-].
Qed.

End Whole.

Section Pass.
Context {DB : Type} `{!KV DB, !KVLaws DB counterMerge} {codec : Codec} {mailCodec : InboundStore.InboundCodec} {X : Type}.

(** Local time, whose offsets lie [swing] apart at most: nothing in UTC, an hour
    or two where clocks are put forward. *)
Context (zone : Z -> Z) (swing : Z).

(** A row that is kept: its class is kept forever, or it is younger than its
    period, by more than that swing, at the last moment of the pass. *)
Definition young (period until t : Z) : Prop := period = 0 \/ until - period * Day + swing <= t.

(** What of the stores a policy keeps, as it was at the start. *)
Definition intact (p : Policy) (until : Z) (w0 w : Stores DB X) : Prop :=
  (forall e, orderly e -> young (EventDays p) until (Events.Timestamp e) -> kv_get (s_events w) (eventKey e) = kv_get (s_events w0) (eventKey e)) /\
  (forall tenant id v m, kv_get (s_events w0) (messageKey tenant id) = Some v -> UnmarshalMessage v = Ok m -> young (MessageDays p) until (Events.M_CreatedAt m) ->
     kv_get (s_events w) (messageKey tenant id) = Some v) /\
  (forall e, in_era (InboundStore.I_Timestamp e) -> no_colon (InboundStore.I_TenantID e) -> young (InboundDays p) until (InboundStore.I_Timestamp e) ->
     kv_get (InboundStore.mb_db (s_mail w)) (InboundStore.inboundKey e) = kv_get (InboundStore.mb_db (s_mail w0)) (InboundStore.inboundKey e)) /\
  (forall k r, s_receipts w0 !! k = Some r -> Unix (until - InboundReceiptDays * Day + swing) <= InboundStore.r_created_at r -> s_receipts w !! k = Some r).

Context (Hswing : swings zone swing).

Lemma cutoff_near d now before : Cutoff zone d now = Some before -> 0 < d /\ 1 <= clampDays d /\ Z.abs (before - (now - clampDays d * Day)) <= swing.
Proof.
  intros [Hd ->]%Cutoff_spec. split_and!; [done|unfold clampDays, MaxDays; repeat case_match; lia|].
  pose proof (AddDays_near zone swing now (- clampDays d) Hswing). lia.
Qed.

Lemma young_cutoff d now until t before : Cutoff zone d now = Some before -> 0 <= d <= MaxDays -> now <= until -> young d until t -> before <= t.
Proof. intros (Hd & _ & Hn)%cutoff_near Hr. rewrite clampDays_id in Hn by done. intros ? [?|?]; [lia|]. unfold Day, Hour, Minute, Second in *. lia. Qed.

Lemma cutoff_era d now before : Cutoff zone d now = Some before -> swing <= Day -> unixEpoch + MaxDays * Day + swing <= now <= unixEpoch + maxInt64 -> in_era before.
Proof.
  intros (Hd & H1 & Hb)%cutoff_near Hs Hn. pose proof (clampDays_range d) as Hr. unfold in_era.
  assert (1 * Day <= clampDays d * Day <= MaxDays * Day) by (split; apply Z.mul_le_mono_nonneg_r; [done|lia|done|lia]). lia.
Qed.

Lemma event_key_rcpt e m : eventKey e ∉ recipientMessageKeys m.
Proof. unfold recipientMessageKeys. by intros (r & E & _)%list_elem_of_fmap. Qed.
Lemma message_key_rcpt tenant id m : messageKey tenant id ∉ recipientMessageKeys m.
Proof. unfold recipientMessageKeys. by intros (r & E & _)%list_elem_of_fmap. Qed.

(** A change to the event store alone. *)
Lemma intact_events p until w0 (w : Stores DB X) d' : intact p until w0 w ->
  (forall e, orderly e -> young (EventDays p) until (Events.Timestamp e) -> kv_get d' (eventKey e) = kv_get (s_events w) (eventKey e)) ->
  (forall tenant id v m, kv_get (s_events w) (messageKey tenant id) = Some v -> UnmarshalMessage v = Ok m -> young (MessageDays p) until (Events.M_CreatedAt m) ->
     kv_get d' (messageKey tenant id) = Some v) ->
  intact p until w0 (mkStores d' (s_mail w) (s_receipts w) (s_rest w)).
Proof.
  intros (H1 & H2 & H3 & H4) He Hm. split_and!; [..|done|done]; cbn [s_events].
  - intros e Ho Hy. rewrite He by done. by apply H1.
  - intros tenant id v m Hv Hu Hy. eapply Hm; [by eapply H2|done|done].
Qed.

(** C27: a pass spares what is fresh.  Whatever a pass of retention over the real
    stores meets -- contexts that end, archives, commits and other stores that
    fail, the order of it all -- every event, every stored message and every
    received message younger than the policy's period for its class, or of a class
    kept forever, is there afterwards as it was, and so is every receipt of the
    last seven days.  Days are counted by local time: younger means younger by
    the swing of its offset as well, which is nothing in UTC. *)
Theorem pass_spares_what_is_fresh env settings archives logs history expire outbox webhooks screener alive clock until (w w' : Stores DB X) t t' a whole s :
  settings (s_rest w) = Ok s -> swing <= Day -> (forall i, unixEpoch + MaxDays * Day + swing <= clock i <= until) -> until <= unixEpoch + maxInt64 ->
  RunOnce zone (storeDeps env settings archives logs history expire outbox webhooks screener) alive clock w t = (w', t', a, whole) ->
  intact (Resolve s) until w w'.
Proof.
  intros Hs Hday Hclock Huntil. set (p := Resolve s). assert (Hrange : forall c, 0 <= period_of p c <= MaxDays) by apply period_range.
  eapply (RunOnce_keeps zone _ (intact p until w)); [exact Hs|..].
  - intros o d w1 Ho (H1 & H2 & H3 & H4). cbn in Ho. rewrite !elem_of_cons in Ho. destruct Ho as [->|[->|[->|Ho]]]; [by split_and!..|by apply elem_of_nil in Ho].
  - intros now w1 (H1 & H2 & H3 & H4). cbn. destruct (expire _ _ _). by split_and!.
  - assert (Hmsg : forall (d d' : DB) (tenant id : string), (forall k, k = messageKey tenant id -> kv_get d' k = kv_get d k) -> forall v m, kv_get d (messageKey tenant id) = Some v ->
      UnmarshalMessage v = Ok m -> young (MessageDays p) until (Events.M_CreatedAt m) -> kv_get d' (messageKey tenant id) = Some v)
      by (intros d d' tenant id E v m Hv _ _; by rewrite E).
    intros j i before w1 Hj Hcut Hi. pose proof (Hclock i) as Hc. assert (Hn : unixEpoch + MaxDays * Day + swing <= clock i <= unixEpoch + maxInt64) by lia. pose proof (cutoff_era _ _ _ Hcut Hday Hn) as Hera.
    assert (Hrest : forall x, intact p until w (mkStores (s_events w1) (s_mail w1) (s_receipts w1) x)) by (intros x; destruct Hi as (H1 & H2 & H3 & H4); by split_and!).
    unfold jobs, storeDeps, eventPruner, job_of in Hj. cbn in Hj. rewrite !elem_of_cons in Hj.
    destruct Hj as [->|[->|[->|[->|[->|[->|[->|[->|[->|[->|Hj]]]]]]]]]]; [..|by apply elem_of_nil in Hj]; cbn [prune days] in *.
    + destruct (EventStore.TruncateBefore _ _ _) as [st err] eqn:E. cbn [fst]. apply intact_events; [done| |].
      * intros e Ho Hy. eapply truncate_spares_fresh; [exact E|done|done|]. eapply young_cutoff; [exact Hcut|apply (Hrange "events")|exact (proj2 Hc)|done].
      * intros tenant id. apply Hmsg. intros k ->. by eapply truncate_spares_others.
    + destruct (TruncateMessagesBefore _ _ _ _) as [[bs n] err] eqn:E. cbn [on_events fst]. apply intact_events; [done| |].
      * intros e _ _. eapply messages_spare; [exact E|apply event_key_rcpt|]. intros x v m Ex. discriminate Ex.
      * intros tenant id v m Hv Hu Hy. rewrite (messages_spare _ _ _ _ _ _ _ _ E); [done|apply message_key_rcpt|]. intros x v' m' _ Hv' Hu'. rewrite Hv in Hv'. injection Hv' as <-. rewrite Hu in Hu'. injection Hu' as <-.
        unfold expired, time_before. destruct (time_is_zero _); [done|]. apply Z.ltb_ge. eapply young_cutoff; [exact Hcut|apply (Hrange "messages")|exact (proj2 Hc)|done].
    + unfold on_rest. destruct (archives _ _) as [[x n] err]. apply Hrest.
    + unfold on_events. destruct (walked _) as [[bs n] err] eqn:E. pose proof (fun k H => minutes_spare (pe_ctx env "minutes") (pe_fails env "minutes") before (s_events w1) k H) as Hsp. rewrite E in Hsp. cbn [fst] in *.
      apply intact_events; [done|intros e _ _; by apply Hsp|]. intros tenant id. apply Hmsg. intros k ->. by apply Hsp.
    + unfold on_events. destruct (EventSeries.PruneResourceHistoryBefore _ _ _ _) as [[bs n] err] eqn:E. pose proof (fun k H => resources_spare (pe_ctx env "resources") (pe_fails env "resources") before (s_events w1) k H) as Hsp. rewrite E in Hsp. cbn [fst] in *.
      apply intact_events; [done|intros e _ _; by apply Hsp|]. intros tenant id. apply Hmsg. intros k ->. by apply Hsp.
    + unfold on_events. destruct (walked _) as [[bs n] err] eqn:E. pose proof (fun k H => hours_spare (pe_ctx env "hours") (pe_ctx env "days") (pe_fails env "series") before (s_events w1) k H) as Hsp. rewrite E in Hsp. cbn [fst] in *.
      apply intact_events; [done|intros e _ _; by apply Hsp|]. intros tenant id. apply Hmsg. intros k ->. by apply Hsp.
    + unfold on_rest. destruct (logs _ _) as [[x n] err]. apply Hrest.
    + destruct (InboundStore.TruncateInbound _ _ _ _) as [[bs n] err] eqn:E. cbn [fst]. destruct Hi as (H1 & H2 & H3 & H4). split_and!; [done|done| |done]. cbn [s_mail].
      intros e He Ht Hy. rewrite (mail_spare _ _ _ _ _ _ _ _ E) by first [done|eapply young_cutoff; [exact Hcut|apply (Hrange "inbound")|exact (proj2 Hc)|done]]. by apply H3.
    + destruct Hi as (H1 & H2 & H3 & H4). split_and!; [done|done|done|]. cbn [s_receipts]. intros k r Hr Hu. apply InboundStore.prune_keeps; [by apply H4|]. etrans; [|exact Hu].
      apply Z.div_le_mono; [done|]. apply cutoff_near in Hcut as (_ & _ & Hb). change (clampDays InboundReceiptDays) with 7 in Hb. unfold InboundReceiptDays. lia.
    + unfold on_rest. destruct (history _ _) as [[x n] err]. apply Hrest.
  - by split_and!.
Qed.

End Pass.

End Retention.
