(* ===== verification/RetentionCases.v ===== *)
(** * Retention on concrete stores

    The theorems of [Retention] on the sample stores of [EventCases] and
    [InboundCases]: a pass a fortnight after an event keeps it, and drops the one
    a minute older. *)
From S2P Require Import Prelude GoStrings Encoding KVStore Calendar Classify Events EventStore EventTimeline EventListing.
From S2P Require Import EventRetention EventCases InboundStore InboundCases SystemSettings Retention.

Module RetentionCases.
Import KVStore EventStore EventListing EventCases InboundCases SystemSettings Retention.
Local Open Scope string_scope.
Local Open Scope Z_scope.

Definition quietPass : PassEnv := mkPassEnv calm (fun _ _ => None) (fun _ _ => None).

Definition sampleStores : Stores sampleDB unit := mkStores (w_db sampleStore) emptyBox ∅ tt.

Definition leave (before : Z) (x : unit) : unit * Z * option string := (x, 0, None).

Definition sampleDeps : Deps (Stores sampleDB unit) :=
  storeDeps quietPass (fun _ => Ok None) leave leave leave (fun _ _ x => (x, Ok 0)) (fun _ x => x) (fun _ x => x) (fun _ x => x).

Definition fortnightLater : Z := Events.Timestamp event2 + 14 * Day - Hour.

(** Local time an hour before UTC in one half of the year and two in the other. *)
Definition summerTime (t : Z) : Z := if t / (26 * 7 * Day) mod 2 =? 0 then Hour else 2 * Hour.

Lemma summerTime_swings : swings summerTime Hour.
Proof. intros a b. unfold summerTime, Hour, Minute, Second. repeat case_match; lia. Qed.

Definition samplePass := RunOnce summerTime sampleDeps (fun _ => true) (fun _ => fortnightLater) sampleStores (mkTally 0 0 0).

(** The events are pruned, minutes and samples and receipts with them; classes
    kept forever are not asked. *)
Example pass_asks : (samplePass.1.2).*1 = ["events"; "minute_series"; "resource_history"; "inbound_receipts"] /\ samplePass.2 = true.
Proof. vm_compute. split; reflexivity. Qed.

(** An hour later, a fortnight to the moment after the second event, the one before
    it goes. *)
Example older_event_is_gone :
  let w := (RunOnce summerTime sampleDeps (fun _ => true) (fun _ => fortnightLater + Hour) sampleStores (mkTally 0 0 0)).1.1.1 in
  kv_get (s_events w) (eventKey event1) = None /\ kv_get (s_events w) (eventKey event2) = Some "e2".
Proof. vm_compute. split; reflexivity. Qed.

(** What the swing is for: counted back over the hour the clocks went forward a day
    is 23 hours, and over the hour they went back 25. *)
Example days_of_summer_time :
  AddDays summerTime (26 * 7 * Day) (-1) = 26 * 7 * Day - 23 * Hour /\
  AddDays summerTime (2 * (26 * 7 * Day)) (-1) = 2 * (26 * 7 * Day) - 25 * Hour.
Proof. vm_compute. split; reflexivity. Qed.

Lemma pass_spares_what_is_fresh_witness :
  exists w', samplePass.1.1.1 = w' /\ kv_get (s_events w') (eventKey event2) = Some "e2" /\ kv_get (s_events w') (messageKey "t1" "m1") = Some "m1".
Proof.
  unfold samplePass. destruct (RunOnce summerTime sampleDeps (fun _ => true) (fun _ => fortnightLater) sampleStores (mkTally 0 0 0)) as [[[w' t'] a] whole] eqn:E.
  exists w'. split; [reflexivity|].
  destruct (pass_spares_what_is_fresh summerTime Hour summerTime_swings quietPass (fun _ => Ok None) leave leave leave (fun _ _ x => (x, Ok 0)) (fun _ x => x) (fun _ x => x) (fun _ x => x)
    (fun _ => true) (fun _ => fortnightLater) fortnightLater sampleStores w' (mkTally 0 0 0) t' a whole None) as (He & Hm & _).
  - reflexivity.
  - vm_compute. discriminate.
  - intros i. vm_compute. split; discriminate.
  - vm_compute. discriminate.
  - exact E.
  - split.
    + rewrite He; [vm_compute; reflexivity| |right; vm_compute; discriminate]. split; [vm_compute; split; discriminate|reflexivity].
    + apply (Hm "t1" "m1" "m1" message1); [vm_compute; reflexivity..|left; reflexivity].
Defined.

Lemma pass_does_what_the_policy_says_witness :
  exists w' t' a whole, samplePass = (w', t', a, whole) /\
    forall c before, (c, before) ∈ a -> exists i : nat, 0 < period_of (Resolve None) c /\ before = AddDays summerTime fortnightLater (- period_of (Resolve None) c) /\ 0 < before.
Proof.
  unfold samplePass. destruct (RunOnce summerTime sampleDeps (fun _ => true) (fun _ => fortnightLater) sampleStores (mkTally 0 0 0)) as [[[w' t'] a] whole] eqn:E.
  exists w', t', a, whole. split; [reflexivity|].
  exact (proj1 (pass_does_what_the_policy_says summerTime sampleDeps (fun _ => true) (fun _ => fortnightLater) Hour sampleStores w' (mkTally 0 0 0) t' a whole summerTime_swings E
    ltac:(intros i; vm_compute; reflexivity))).
Defined.

(** A save elsewhere that a timer's pass finds; a save here that lands while that
    pass runs; its trigger, and the pass it causes. *)
Definition keepForever : Settings := mkSettings "" [] (Some 0) None 0 0 0 0 0 0 0 "" 1.

Lemma no_change_is_missed_witness :
  exists l, rtc loop_step (started None) l /\ l_stored l = Some keepForever /\ EventDays (l_enforced l) = 0.
Proof.
  assert (Hrun : rtc loop_step (started None)
    (mkLoop (Some keepForever) 0 false Waiting (Resolve (Some keepForever)) (Resolve (Some keepForever)) true false)).
  { eapply rtc_l; [apply (step_elsewhere _ keepForever)|]. eapply rtc_l; [by apply step_timer|]. eapply rtc_l; [by apply step_load|].
    eapply rtc_l; [apply (step_save _ keepForever)|]. eapply rtc_l; [by apply step_cut|].
    eapply rtc_l; [by apply (step_trigger _ 0)|]. eapply rtc_l; [by apply step_wake|].
    eapply rtc_l; [by apply step_load|]. eapply rtc_l; [by apply step_finish|]. apply rtc_refl. }
  eexists. split; [exact Hrun|]. split; [reflexivity|].
  rewrite (no_change_is_missed None _ Hrun) by reflexivity. reflexivity.
Defined.

(** What the condition on other instances is for: a change saved elsewhere after
    the last pass leaves the loop at rest with the old policy. *)
Example saved_elsewhere_is_not_seen :
  exists l, rtc loop_step (started None) l /\ l_phase l = Waiting /\ l_pending l = false /\ l_saving l = 0%nat /\ l_whole l = true /\
    EventDays (l_enforced l) = DefaultEventDays /\ EventDays (Resolve (l_stored l)) = 0.
Proof.
  eexists. split.
  - eapply rtc_l; [by apply step_timer|]. eapply rtc_l; [by apply step_load|]. eapply rtc_l; [by apply step_finish|].
    eapply rtc_l; [apply (step_elsewhere _ keepForever)|]. apply rtc_refl.
  - by split_and!.
Qed.

End RetentionCases.
