(* ===== verification/ProviderEvents.v ===== *)
(** * Events providers report

    Models internal/event/transports/http: the endpoint providers post delivery
    events to (webhook_handler.go), how a post is verified (webhook_verifier.go)
    and what Postmark and SES say (webhook_esp.go).  Each event a post reports is
    recorded with [RecordEvent] of [Events].

    The JSON of each provider, HMAC, SHA-256, the parsing and checking of ECDSA
    keys and signatures, URL parsing and the two verifiers of gsmail are
    parameters. *)
From S2P Require Import Prelude GoStrings Encoding Classify Events EventStore InboundPosts.
From Stdlib Require Import Ascii.

Module ProviderEvents.
Import GoStrings Encoding Classify InboundPosts.
Local Open Scope string_scope.
Local Open Scope Z_scope.

(** ** Payloads *)

Record sendGridEvent := mkSendGrid {
  sg_email : string;
  sg_event : string;
  sg_message_id : string;
  sg_reason : string;
  sg_response : string
}.

Record mailgunEvent := mkMailgun {
  mg_event : string;
  mg_recipient : string;
  mg_message_id : string;
  mg_message : string;
  mg_description : string
}.

Record genericEvent := mkGeneric {
  ge_event : string;
  ge_recipient : string;
  ge_message_id : string;
  ge_error : string
}.

Record postmarkRecord := mkPostmark {
  pm_RecordType : string;
  pm_MessageID : string;
  pm_Email : string;
  pm_Recipient : string;
  pm_Type : string;
  pm_Description : string;
  pm_Details : string;
  pm_SuppressSending : bool
}.

Record bouncedRecipient := mkBounced {
  br_emailAddress : string;
  br_diagnosticCode : string;
  br_status : string
}.

Record sesNotification := mkNotification {
  sn_notificationType : string;
  sn_eventType : string;
  sn_messageId : string;
  sn_destination : list string;
  sn_bounce : option (string * list bouncedRecipient);   (* its type *)
  sn_complaint : option (list string * string);          (* the feedback's type *)
  sn_delivery : option (list string);
  sn_reject : option string;
  sn_delay : option string
}.

(** A request, as the server hands it over; [None] is a body too large to
    read. *)
Record Request := mkRequest {
  rq_method : string;
  rq_path : string;
  rq_body : option string;
  rq_sendGridSignature : string;
  rq_sendGridTimestamp : string;
  rq_signature : string;
  rq_authorization : string
}.

Inductive webhookError := ErrNoWebhookSecret | ErrBadWebhookSig | ErrStaleWebhook | ErrMalformedWebhook.

Class EventParsers := {
  SendGridJSON : string -> option (list sendGridEvent);
  MailgunSignature : string -> option (string * string * string);       (* timestamp, token, signature *)
  MailgunJSON : string -> option mailgunEvent;
  GenericJSON : string -> option genericEvent;
  PostmarkJSON : string -> option postmarkRecord;
  SNSTopic : string -> option string;
  SNSJSON : string -> option SNSMessage;
  SESJSON : string -> option sesNotification;
  SNSValid : string -> bool;                                             (* SNSVerifier.Verify *)
  PostmarkOk : string -> string -> string -> bool;                       (* Authorization, user, password *)
  SubscribeURL : string -> option URL;                                   (* url.Parse *)
  PEMBlock : string -> option string;
  ECKey : Type;
  PKIXKey : string -> option ECKey;                                      (* [None]: not a key, or not ECDSA *)
  ECDSASignature : string -> option (Z * Z);
  ECDSAVerify : ECKey -> string -> Z * Z -> bool;
  Sum256 : string -> string;
  HmacSHA256 : string -> string -> string
}.

(** [strconv.ParseInt(s, 10, 64)]. *)
Definition ParseInt64 (s : string) : option Z :=
  let '(neg, digits) :=
    match s with
    | String c r => if bool_decide (c = "-"%char) then (true, r) else if bool_decide (c = "+"%char) then (false, r) else (false, s)
    | "" => (false, s)
    end in
  if eqb digits "" || negb (str_all is_digit digits) then None
  else
    let z := if neg : bool then - scan_digits 0 digits else scan_digits 0 digits in
    if (minInt64 <=? z) && (z <=? maxInt64) then Some z else None.

Section Verify.
Context {parsers : EventParsers}.

(** ** Verification (webhook_verifier.go) *)

Definition webhookTolerance : Z := 5 * Minute.

(** [now] is [time.Now().Unix()]. *)
Definition checkTimestamp (now : Z) (raw : string) : option webhookError :=
  match ParseInt64 raw with
  | None => Some ErrMalformedWebhook
  | Some seconds =>
      let tolerance := webhookTolerance / Second in
      if (wrap64 (now + tolerance) <? seconds) || (seconds <? wrap64 (now - tolerance)) then Some ErrStaleWebhook else None
  end.

Definition parseECDSAPublicKey (encoded : string) : option ECKey :=
  match (match StdDecode encoded with Some der => Some der | None => PEMBlock encoded end) with
  | None => None
  | Some der => PKIXKey der
  end.

Definition verifySendGrid (now : Z) (publicKey signature timestamp body : string) : option webhookError :=
  if eqb publicKey "" then Some ErrNoWebhookSecret
  else if eqb signature "" || eqb timestamp "" then Some ErrMalformedWebhook
  else
    match checkTimestamp now timestamp with
    | Some e => Some e
    | None =>
        match parseECDSAPublicKey publicKey with
        | None => Some ErrMalformedWebhook
        | Some key =>
            match StdDecode signature with
            | None => Some ErrMalformedWebhook
            | Some sig =>
                match ECDSASignature sig with
                | None => Some ErrMalformedWebhook
                | Some rs => if ECDSAVerify key (Sum256 (timestamp ++ body)) rs then None else Some ErrBadWebhookSig
                end
            end
        end
    end.

Definition verifyMailgun (now : Z) (signingKey timestamp token signature : string) : option webhookError :=
  if eqb signingKey "" then Some ErrNoWebhookSecret
  else if eqb timestamp "" || eqb token "" || eqb signature "" then Some ErrMalformedWebhook
  else
    match checkTimestamp now timestamp with
    | Some e => Some e
    | None => if eqb (HexEncode (HmacSHA256 signingKey (timestamp ++ token))) signature then None else Some ErrBadWebhookSig
    end.

Definition verifyGeneric (secret signature body : string) : option webhookError :=
  if eqb secret "" then Some ErrNoWebhookSecret
  else if eqb signature "" then Some ErrMalformedWebhook
  else
    let provided := if (7 <? String.length signature)%nat && HasPrefix signature "sha256=" then TrimPrefix signature "sha256=" else signature in
    if eqb (HexEncode (HmacSHA256 secret body)) provided then None else Some ErrBadWebhookSig.

Definition verifyPostmark (secret authorization : string) : option webhookError :=
  let '(user, pass) := match Cut secret ":"%char with Some up => up | None => ("", secret) end in
  if PostmarkOk authorization user pass then None else Some ErrBadWebhookSig.

(** [verifySNS], with the same [topicAllowed] as the inbound endpoint's. *)
Definition verifySNS (topics body : string) : option webhookError :=
  match SNSTopic body with
  | None => Some ErrMalformedWebhook
  | Some topic => if negb (topicAllowed topics topic) then Some ErrBadWebhookSig else if SNSValid body then None else Some ErrBadWebhookSig
  end.

Definition verifyMailgunPayload (now : Z) (signingKey body : string) : option webhookError :=
  match MailgunSignature body with
  | None => Some ErrMalformedWebhook
  | Some (timestamp, token, signature) => verifyMailgun now signingKey timestamp token signature
  end.

Definition webhookSecret (find : string -> string -> result string (option Provider)) (tenant provider : string) : option string :=
  match find tenant provider with
  | Ok (Some p) => if eqb (pv_secret p) "" then None else Some (pv_secret p)
  | _ => None
  end.

Definition verify (now : Z) (find : string -> string -> result string (option Provider)) (r : Request) (tenant provider kind body : string) : option webhookError :=
  match webhookSecret find tenant provider with
  | None => Some ErrNoWebhookSecret
  | Some secret =>
      if eqb kind "sendgrid" then verifySendGrid now (SplitSendGridWebhookSecret secret).1 (rq_sendGridSignature r) (rq_sendGridTimestamp r) body
      else if eqb kind "mailgun" then verifyMailgunPayload now secret body
      else if eqb kind "postmark" then verifyPostmark secret (rq_authorization r)
      else if eqb kind "ses" then verifySNS secret body
      else verifyGeneric secret (rq_signature r) body
  end.

(** ** What a post reports *)

(** One call of [record]. *)
Record report := mkEventReport {
  re_message : string;
  re_type : EmailEventType;
  re_recipient : string;
  re_error : string
}.

Definition sendGridEventType (event : string) : EmailEventType :=
  if eqb event "delivered" then DELIVERED
  else if eqb event "open" then OPENED
  else if eqb event "click" then CLICKED
  else if eqb event "bounce" then BOUNCED
  else if eqb event "spamreport" then SPAM_REPORT
  else if eqb event "unsubscribe" then UNSUBSCRIBED
  else UNSPECIFIED.

Definition mailgunEventType (event : string) : EmailEventType :=
  if eqb event "delivered" then DELIVERED
  else if eqb event "opened" then OPENED
  else if eqb event "clicked" then CLICKED
  else if eqb event "failed" then BOUNCED
  else if eqb event "complained" then SPAM_REPORT
  else if eqb event "unsubscribed" then UNSUBSCRIBED
  else UNSPECIFIED.

Definition unless_unspecified (r : report) : list report := if bool_decide (re_type r = UNSPECIFIED) then [] else [r].

Definition handleSendGrid (body : string) : list report * response :=
  match SendGridJSON body with
  | None => ([], status 400)
  | Some events =>
      (events ≫= fun e => unless_unspecified (mkEventReport (sg_message_id e) (sendGridEventType (sg_event e)) (sg_email e) (or_else (sg_reason e) (sg_response e))),
       status 200)
  end.

Definition handleMailgun (body : string) : list report * response :=
  match MailgunJSON body with
  | None => ([], status 400)
  | Some e =>
      (unless_unspecified (mkEventReport (mg_message_id e) (mailgunEventType (mg_event e)) (mg_recipient e) (or_else (mg_description e) (mg_message e))), status 200)
  end.

(** [EmailEventType_value], with the prefix of its keys left out. *)
Definition EmailEventType_value (name : string) : option EmailEventType :=
  find (fun t => eqb (EventStore.typeStr t) name)
    [UNSPECIFIED; SENT; DELIVERED; OPENED; CLICKED; BOUNCED; HARD_BOUNCE; SOFT_BOUNCE; SPAM_REPORT; UNSUBSCRIBED; DROPPED; REJECTED; PENDING; DEFERRED; COMPLAINED].

Definition handleGeneric (body : string) : list report * response :=
  match GenericJSON body with
  | None => ([], status 400)
  | Some e =>
      (match EmailEventType_value (ToUpper (ge_event e)) with
       | Some t => unless_unspecified (mkEventReport (ge_message_id e) t (ge_recipient e) (ge_error e))
       | None => []
       end, status 200)
  end.

Definition postmarkEvent (recordType bounceType description details : string) (suppress : bool) : EmailEventType * string :=
  if eqb recordType "Bounce" then
    let reason := or_else details description in
    if eqb bounceType "HardBounce" then (HARD_BOUNCE, reason) else (SOFT_BOUNCE, reason)
  else if eqb recordType "SpamComplaint" then (SPAM_REPORT, description)
  else if eqb recordType "Delivery" then (DELIVERED, "")
  else if eqb recordType "Open" then (OPENED, "")
  else if eqb recordType "Click" then (CLICKED, "")
  else if eqb recordType "SubscriptionChange" then if suppress then (UNSUBSCRIBED, "") else (UNSPECIFIED, "")
  else (UNSPECIFIED, "").

Definition handlePostmark (body : string) : list report * response :=
  match PostmarkJSON body with
  | None => ([], status 400)
  | Some p =>
      let '(t, err) := postmarkEvent (pm_RecordType p) (pm_Type p) (pm_Description p) (pm_Details p) (pm_SuppressSending p) in
      (unless_unspecified (mkEventReport (pm_MessageID p) t (or_else (pm_Email p) (pm_Recipient p)) err), status 200)
  end.

Definition recordEach (message : string) (t : EmailEventType) (recipients : list string) (err : string) : list report :=
  (fun rcpt => mkEventReport message t rcpt err) <$> recipients.

Definition sesReports (n : sesNotification) : list report :=
  let kind := or_else (sn_notificationType n) (sn_eventType n) in
  let msg := sn_messageId n in
  if eqb kind "Bounce" then
    match sn_bounce n with
    | None => []
    | Some (bounceType, rcpts) =>
        let t := if eqb bounceType "Permanent" then HARD_BOUNCE else SOFT_BOUNCE in
        (fun rcpt => mkEventReport msg t (br_emailAddress rcpt) (or_else (br_diagnosticCode rcpt) (br_status rcpt))) <$> rcpts
    end
  else if eqb kind "Complaint" then
    match sn_complaint n with
    | None => []
    | Some (rcpts, feedback) => recordEach msg SPAM_REPORT rcpts feedback
    end
  else if eqb kind "Delivery" then
    recordEach msg DELIVERED (match sn_delivery n with Some (r :: rs) => r :: rs | _ => sn_destination n end) ""
  else if eqb kind "Send" then recordEach msg SENT (sn_destination n) ""
  else if eqb kind "Reject" then recordEach msg REJECTED (sn_destination n) (default "" (sn_reject n))
  else if eqb kind "DeliveryDelay" then recordEach msg DEFERRED (sn_destination n) (default "" (sn_delay n))
  else if eqb kind "Open" then recordEach msg OPENED (sn_destination n) ""
  else if eqb kind "Click" then recordEach msg CLICKED (sn_destination n) ""
  else [].

Definition recordSESNotification (payload : string) : list report :=
  match SESJSON payload with None => [] | Some n => sesReports n end.

(** [snsEndpointHost], with the region left open. *)
Definition snsSubscribeURLAllowed (raw : string) : bool :=
  match SubscribeURL raw with
  | None => false
  | Some u => eqb (u_Scheme u) "https" && bool_decide (is_Some (snsRegion (u_Host u)))
  end.

(** [handleSES]; [answered] is whether the endpoint of a subscription can be
    reached.  The last component is the address that is asked. *)
Definition handleSES (answered : bool) (body : string) : list report * response * option string :=
  match SNSJSON body with
  | None => ([], status 400, None)
  | Some msg =>
      if eqb (n_Type msg) "SubscriptionConfirmation" then
        if negb (snsSubscribeURLAllowed (n_SubscribeURL msg)) then ([], status 400, None)
        else ([], status (if answered then 200 else 502), Some (n_SubscribeURL msg))
      else if eqb (n_Type msg) "UnsubscribeConfirmation" then ([], status 200, None)
      else (recordSESNotification (n_Message msg), status 200, None)
  end.

(** ** The handler *)

(** What a post meets: the clock, the provider store, whether a subscription's
    endpoint answers, and what each call of [RecordEvent] meets. *)
Record EventEnv := mkEventEnv {
  ee_now : Z;
  ee_find : string -> string -> result string (option Provider);
  ee_answered : bool;
  ee_calls : nat -> Events.Env
}.

(** The reports recorded one by one; one that fails is logged. *)
Fixpoint recordAll (calls : nat -> Events.Env) (tenant provider : string) (i : nat) (l : list report) (names : gmap string string) :
    list Events.effect * gmap string string :=
  match l with
  | [] => ([], names)
  | r :: rest =>
      let '(_, effs, names) := Events.RecordEvent (calls i) tenant provider (re_message r) (re_type r) (re_recipient r) "" (re_error r) names in
      let '(more, names) := recordAll calls tenant provider (S i) rest names in ((effs ++ more)%list, names)
  end.

Definition handle (answered : bool) (kind body : string) : list report * response * option string :=
  if eqb kind "sendgrid" then (handleSendGrid body, None)
  else if eqb kind "mailgun" then (handleMailgun body, None)
  else if eqb kind "postmark" then (handlePostmark body, None)
  else if eqb kind "ses" then handleSES answered body
  else (handleGeneric body, None).

Definition ServeEvents (env : EventEnv) (r : Request) (names : gmap string string) :
    list Events.effect * gmap string string * response * option string :=
  if negb (eqb (rq_method r) "POST") then ([], names, status 405, None)
  else
    match Split (Trim (rq_path r) "/") "/"%char with
    | _ :: tenant :: provider :: kind :: _ =>
        match rq_body r with
        | None => ([], names, status 413, None)
        | Some body =>
            let kind := ToLower kind in
            match verify (ee_now env) (ee_find env) r tenant provider kind body with
            | Some _ => ([], names, status 401, None)
            | None =>
                let '(reports, resp, asked) := handle (ee_answered env) kind body in
                let '(effs, names) := recordAll (ee_calls env) tenant provider 0 reports names in
                (effs, names, resp, asked)
            end
        end
    | _ => ([], names, status 400, None)
    end.

End Verify.

(** ** What a post is believed for *)

Section Believed.
Context {parsers : EventParsers}.

(** A timestamp within five minutes of now. *)
Definition recent (now : Z) (raw : string) : Prop := exists seconds, ParseInt64 raw = Some seconds /\ now - 300 <= seconds <= now + 300.

Lemma checkTimestamp_recent now raw : 0 <= now < 2 ^ 62 -> checkTimestamp now raw = None -> recent now raw.
Proof.
  unfold checkTimestamp, recent. change (webhookTolerance / Second) with 300. intros Hnow.
  destruct (ParseInt64 raw) as [seconds|]; [|done]. rewrite !wrap64_id by (unfold minInt64, maxInt64; lia).
  destruct (Z.ltb_spec (now + 300) seconds); [done|]. destruct (Z.ltb_spec seconds (now - 300)); [done|]. intros _. exists seconds. split; [done|lia].
Qed.

(** What vouches for a post of each kind, under a provider's secret. *)
Definition vouched (now : Z) (r : Request) (secret kind body : string) : Prop :=
  if decide (kind = "sendgrid") then
    recent now (rq_sendGridTimestamp r) /\
    exists key sig rs, parseECDSAPublicKey (SplitSendGridWebhookSecret secret).1 = Some key /\ StdDecode (rq_sendGridSignature r) = Some sig /\
      ECDSASignature sig = Some rs /\ ECDSAVerify key (Sum256 (rq_sendGridTimestamp r ++ body)) rs = true
  else if decide (kind = "mailgun") then
    exists timestamp token, recent now timestamp /\ MailgunSignature body = Some (timestamp, token, HexEncode (HmacSHA256 secret (timestamp ++ token)))
  else if decide (kind = "postmark") then
    exists user pass, PostmarkOk (rq_authorization r) user pass = true /\ (secret = user ++ ":" ++ pass \/ user = "" /\ pass = secret)
  else if decide (kind = "ses") then exists topic, SNSTopic body = Some topic /\ topicAllowed secret topic = true /\ SNSValid body = true
  else rq_signature r = HexEncode (HmacSHA256 secret body) \/ rq_signature r = "sha256=" ++ HexEncode (HmacSHA256 secret body).

Lemma verifySendGrid_vouched now publicKey signature timestamp body : 0 <= now < 2 ^ 62 -> verifySendGrid now publicKey signature timestamp body = None ->
  recent now timestamp /\ exists key sig rs, parseECDSAPublicKey publicKey = Some key /\ StdDecode signature = Some sig /\ ECDSASignature sig = Some rs /\
    ECDSAVerify key (Sum256 (timestamp ++ body)) rs = true.
Proof.
  intros Hnow. unfold verifySendGrid. destruct (eqb publicKey ""); [done|]. destruct (_ || _); [done|].
  destruct (checkTimestamp now timestamp) eqn:Ht; [done|]. apply checkTimestamp_recent in Ht; [|done].
  destruct (parseECDSAPublicKey publicKey) as [key|]; [|done]. destruct (StdDecode signature) as [sig|] eqn:Hs; [|done].
  destruct (ECDSASignature sig) as [rs|] eqn:Hrs; [|done]. destruct (ECDSAVerify _ _ _) eqn:Hv; [|done]. intros _. split; [done|]. by exists key, sig, rs.
Qed.

Lemma verifyMailgun_vouched now secret body : 0 <= now < 2 ^ 62 -> verifyMailgunPayload now secret body = None ->
  exists timestamp token, recent now timestamp /\ MailgunSignature body = Some (timestamp, token, HexEncode (HmacSHA256 secret (timestamp ++ token))).
Proof.
  intros Hnow. unfold verifyMailgunPayload, verifyMailgun. destruct (MailgunSignature body) as [[[timestamp token] signature]|]; [|done].
  destruct (eqb secret ""); [done|]. destruct (_ || _ || _); [done|]. destruct (checkTimestamp now timestamp) eqn:Ht; [done|]. apply checkTimestamp_recent in Ht; [|done].
  destruct (eqb _ signature) eqn:E; [|done]. apply eqb_true in E as <-. by exists timestamp, token.
Qed.

Lemma verifyGeneric_vouched secret signature body : verifyGeneric secret signature body = None ->
  signature = HexEncode (HmacSHA256 secret body) \/ signature = "sha256=" ++ HexEncode (HmacSHA256 secret body).
Proof.
  unfold verifyGeneric. destruct (eqb secret ""); [done|]. destruct (eqb signature ""); [done|].
  destruct ((7 <? String.length signature)%nat && HasPrefix signature "sha256=") eqn:E; destruct (eqb _ _) eqn:Es; try done; apply eqb_true in Es; intros _; [|by left].
  apply andb_true_iff in E as [_ [x Hx]%HasPrefix_spec]. rewrite Hx, TrimPrefix_app in Es. right. by rewrite Hx, <- Es.
Qed.

Lemma verify_vouched now find r tenant provider kind body : 0 <= now < 2 ^ 62 -> verify now find r tenant provider kind body = None ->
  exists p, find tenant provider = Ok (Some p) /\ pv_secret p <> "" /\ vouched now r (pv_secret p) kind body.
Proof.
  intros Hnow. unfold verify, webhookSecret, vouched. destruct (find tenant provider) as [[p|]|] eqn:Hf; [|done|done].
  destruct (eqb (pv_secret p) "") eqn:Hs; [done|]. apply eqb_false in Hs. intros H. exists p. split_and!; [done|done|]. unfold eqb in H.
  case_decide as K1; [subst kind; by apply verifySendGrid_vouched in H|]. rewrite bool_decide_eq_false_2 in H by done.
  case_decide as K2; [subst kind; by apply verifyMailgun_vouched in H|]. rewrite bool_decide_eq_false_2 in H by done.
  case_decide as K3; [subst kind; rewrite bool_decide_eq_true_2 in H by done|rewrite bool_decide_eq_false_2 in H by done].
  - unfold verifyPostmark in H. destruct (Cut (pv_secret p) ":"%char) as [[user pass]|] eqn:Hc.
    + apply Cut_spec in Hc. exists user, pass. destruct (PostmarkOk _ _ _); [|done]. split; [done|by left].
    + exists "", (pv_secret p). destruct (PostmarkOk _ _ _); [|done]. split; [done|by right].
  - case_decide as K4; [subst kind; rewrite bool_decide_eq_true_2 in H by done|rewrite bool_decide_eq_false_2 in H by done; by apply verifyGeneric_vouched].
    unfold verifySNS in H. destruct (SNSTopic body) as [topic|]; [|done]. exists topic. destruct (topicAllowed _ _); [|done]. by destruct (SNSValid body).
Qed.

(** Everything a recorded report does is the tenant's. *)
Lemma RecordEvent_owner env tenant provider message ty recipient subject err names o effs names' :
  Events.RecordEvent env tenant provider message ty recipient subject err names = (o, effs, names') ->
  (forall e, e ∈ Events.recorded effs -> Events.TenantID e = tenant /\ (provider <> "" -> Events.ProviderID e = provider)) /\
  (forall t a reason, (t, a, reason) ∈ Events.suppressions effs -> t = tenant).
Proof.
  intros H. split.
  - assert (Hback : forall t m p s l, Events.recorded (Events.backfillProvider env t m p s l) = [])
      by (intros; unfold Events.backfillProvider; repeat case_match; done).
    assert (Hsup : forall t y r e, Events.recorded (Events.suppressForEvent env t y r e) = [])
      by (intros; unfold Events.suppressForEvent; repeat case_match; done).
    unfold Events.RecordEvent in H. destruct (Events.getProviderName _ _ _ _) as [name nm].
    set (f := Events.recoverFields _ _ _ _ _) in *. intros e He.
    assert (Hf : provider <> "" -> Events.f_provider f = provider) by apply Events.recover_provider.
    destruct (Events.en_write env _); injection H as <- <- <-.
    + destruct (bool_decide _); by apply elem_of_nil in He.
    + unfold Events.recorded in *. rewrite omap_app in He. apply elem_of_app in He as [He|He]; [destruct (bool_decide _); by apply elem_of_nil in He|].
      cbn [omap list_omap] in He. apply elem_of_cons in He as [->|He]; [by split|]. rewrite !omap_app, Hsup in He.
      apply elem_of_app in He as [He|He]; [destruct (_ && _ && _); [rewrite Hback in He|]; by apply elem_of_nil in He|].
      apply elem_of_app in He as [He|He]; [destruct (_ && _); by apply elem_of_nil in He|by apply elem_of_nil in He].
  - intros t a reason Hin. rewrite (Events.RecordEvent_suppressions _ _ _ _ _ _ _ _ _ _ _ _ H) in Hin. destruct o; [by apply elem_of_nil in Hin|].
    unfold Events.suppressForEvent in Hin. destruct (_ || _); [by apply elem_of_nil in Hin|].
    destruct (Events.recordedType _ _); simpl in Hin; try (by apply elem_of_nil in Hin); apply list_elem_of_singleton in Hin; by simplify_eq.
Qed.

Lemma recorded_app a b : Events.recorded (a ++ b) = (Events.recorded a ++ Events.recorded b)%list.
Proof. apply omap_app. Qed.

Lemma recordAll_owner calls tenant provider l : forall i names effs names', recordAll calls tenant provider i l names = (effs, names') ->
  (forall e, e ∈ Events.recorded effs -> Events.TenantID e = tenant /\ (provider <> "" -> Events.ProviderID e = provider)) /\
  (forall t a reason, (t, a, reason) ∈ Events.suppressions effs -> t = tenant).
Proof.
  induction l as [|x l IH]; intros i names effs names'; cbn [recordAll].
  - intros [= <- <-]. split; [intros e ?%elem_of_nil; done|intros t a reason ?%elem_of_nil; done].
  - destruct (Events.RecordEvent _ _ _ _ _ _ _ _ _) as [[o effs1] names1] eqn:H1. destruct (recordAll _ _ _ _ l _) as [more names2] eqn:H2. intros [= <- <-].
    apply RecordEvent_owner in H1 as [Hr1 Hs1]. apply IH in H2 as [Hr2 Hs2]. split.
    + intros e. rewrite recorded_app. intros [?|?]%elem_of_app; auto.
    + intros t a reason. rewrite Events.suppressions_app. intros [?|?]%elem_of_app; eauto.
Qed.

(** C28: an event post is vouched for.  A post does something -- records an event,
    suppresses an address, notifies a subscriber, confirms a subscription -- only
    if the tenant and provider its URL names have a secret and the post carries
    what its scheme asks under that secret: SendGrid's signature over the body and
    a timestamp within five minutes, Mailgun's over such a timestamp and a token,
    credentials, a verified message of a configured topic, or the HMAC of the very
    body.  What it records and suppresses is that tenant's, and that provider's. *)
Theorem event_post_is_vouched_for env r names effs names' resp asked :
  0 <= ee_now env < 2 ^ 62 -> ServeEvents env r names = (effs, names', resp, asked) -> effs <> [] \/ asked <> None ->
  exists tenant provider kind body p, (exists a rest, Split (Trim (rq_path r) "/") "/"%char = a :: tenant :: provider :: kind :: rest) /\ rq_body r = Some body /\
    ee_find env tenant provider = Ok (Some p) /\ pv_secret p <> "" /\ vouched (ee_now env) r (pv_secret p) (ToLower kind) body /\
    (forall e, e ∈ Events.recorded effs -> Events.TenantID e = tenant /\ (provider <> "" -> Events.ProviderID e = provider)) /\
    (forall t a reason, (t, a, reason) ∈ Events.suppressions effs -> t = tenant).
Proof.
  intros Hnow. unfold ServeEvents. destruct (negb _); [intros [= <- <- <- <-] [?|?]; done|].
  destruct (Split _ _) as [|a [|tenant [|provider [|kind rest]]]]; try (intros [= <- <- <- <-] [?|?]; done).
  destruct (rq_body r) as [body|]; [|intros [= <- <- <- <-] [?|?]; done].
  destruct (verify _ _ _ _ _ _ _) eqn:Hv; [intros [= <- <- <- <-] [?|?]; done|]. intros H _.
  destruct (verify_vouched _ _ _ _ _ _ _ Hnow Hv) as (p & Hf & Hs & Hvo). destruct (handle _ _ _) as [[reports resp'] asked'].
  destruct (recordAll _ _ _ _ _ _) as [effs1 names1] eqn:Hr. injection H as <- <- <- <-. apply recordAll_owner in Hr as [Hr1 Hr2].
  exists tenant, provider, kind, body, p. split_and!; [by exists a, rest|done..].
Qed.

(** ** Bounces *)

(** A store that takes every event, and a suppression list to put addresses on. *)
Definition working (env : Events.Env) : Prop := (forall e, Events.en_write env e = None) /\ Events.en_suppressor env = true.

Definition address (r : report) : string := ToLower (TrimSpace (re_recipient r)).

(** The addresses one report suppresses. *)
Definition suppressed_by (r : report) : list string :=
  if bool_decide (Events.recordedType (re_type r) (re_error r) ∈ [HARD_BOUNCE; SPAM_REPORT]) then [address r] else [].

Lemma recordAll_suppressions calls tenant provider l : (forall i, working (calls i)) -> tenant <> "" -> Forall (fun r => address r <> "") l ->
  forall i names, (Events.suppressions (recordAll calls tenant provider i l names).1).*1 = ((fun a => (tenant, a)) <$> (l ≫= suppressed_by)).
Proof.
  intros Hw Ht. induction 1 as [|x l Hx _ IH]; intros i names; [done|]. cbn [recordAll].
  destruct (Events.RecordEvent _ _ _ _ _ _ _ _ _) as [[o effs1] names1] eqn:H1. specialize (IH (S i) names1).
  destruct (recordAll _ _ _ _ l _) as [more names2] eqn:H2. cbn [fst] in *. rewrite Events.suppressions_app, fmap_app, IH. cbn [mbind list_bind]. rewrite fmap_app. f_equal.
  rewrite (Events.RecordEvent_suppressions _ _ _ _ _ _ _ _ _ _ _ _ H1). destruct (Hw i) as [Hwr Hsup].
  assert (o = None) as ->.
  { unfold Events.RecordEvent in H1. destruct (Events.getProviderName _ _ _ _). rewrite Hwr in H1. by injection H1 as <- _ _. }
  fold (address x). rewrite Events.recover_recipient by done. unfold Events.suppressForEvent, suppressed_by. rewrite Hsup, !bool_decide_eq_false_2 by done. cbn [negb orb].
  destruct (Events.recordedType _ _); reflexivity.
Qed.

(** Only a permanent bounce costs an address.  A verified SES bounce
    notification suppresses each bounced address for its tenant when its type is
    Permanent, and nobody otherwise; a transient bounce is recorded and no more,
    whatever its diagnostic says. *)
Theorem only_permanent_bounces_suppress env r names tenant provider a kind rest body msg n bounceType rcpts effs names' resp asked :
  Split (Trim (rq_path r) "/") "/"%char = a :: tenant :: provider :: kind :: rest -> ToLower kind = "ses" -> rq_body r = Some body -> tenant <> "" ->
  SNSJSON body = Some msg -> n_Type msg = "Notification" -> SESJSON (n_Message msg) = Some n -> or_else (sn_notificationType n) (sn_eventType n) = "Bounce" ->
  sn_bounce n = Some (bounceType, rcpts) -> Forall (fun x => ToLower (TrimSpace (br_emailAddress x)) <> "") rcpts -> (forall i, working (ee_calls env i)) ->
  ServeEvents env r names = (effs, names', resp, asked) -> code_ resp = 200 ->
  (Events.suppressions effs).*1 = if decide (bounceType = "Permanent") then (fun x => (tenant, ToLower (TrimSpace (br_emailAddress x)))) <$> rcpts else [].
Proof.
  intros Hpath Hk Hbody Ht Hm Hty Hn Hkind Hb Hrc Hw. unfold ServeEvents. rewrite Hpath, Hbody, Hk. destruct (negb _); [by intros [= <- <- <- <-]|].
  destruct (verify _ _ _ _ _ _ _); [by intros [= <- <- <- <-]|]. unfold handle, handleSES, recordSESNotification, sesReports. cbn [eqb]. rewrite Hm, Hty, Hn, Hkind, Hb.
  change (eqb "ses" "sendgrid") with false. change (eqb "ses" "mailgun") with false. change (eqb "ses" "postmark") with false. change (eqb "ses" "ses") with true.
  change (eqb "Notification" "SubscriptionConfirmation") with false. change (eqb "Notification" "UnsubscribeConfirmation") with false. change (eqb "Bounce" "Bounce") with true. cbn match.
  set (l := (fun rcpt => _) <$> rcpts). pose proof (recordAll_suppressions (ee_calls env) tenant provider l Hw Ht) as Hl.
  assert (Hall : Forall (fun x => address x <> "") l) by (unfold l; by apply Forall_fmap).
  specialize (Hl Hall 0%nat names). destruct (recordAll _ _ _ _ l _) as [effs1 names1]. intros [= <- <- <- <-] _. cbn [fst] in Hl. rewrite Hl. unfold l, eqb. clear.
  destruct (decide (bounceType = "Permanent")) as [->|Hne]; [rewrite bool_decide_eq_true_2 by done|rewrite bool_decide_eq_false_2 by done];
    induction rcpts as [|x rcpts IH]; [done| |done|]; cbn [fmap list_fmap mbind list_bind]; [rewrite fmap_app; by f_equal|exact IH].
Qed.

(** The poster chooses the scheme.  The kind a URL ends with, not the type of
    the provider, decides how a post is verified.  A post to any other kind than
    the four named ones, signed with the HMAC of its body under what the provider
    is configured with, is believed: for a SendGrid provider that is its public
    key, for an SES provider the name of its topic.  So whoever knows either can
    have any address suppressed. *)
Theorem poster_chooses_the_scheme env r names a tenant provider kind rest p body e :
  rq_method r = "POST" -> Split (Trim (rq_path r) "/") "/"%char = a :: tenant :: provider :: kind :: rest ->
  ToLower kind ∉ ["sendgrid"; "mailgun"; "postmark"; "ses"] -> tenant <> "" ->
  ee_find env tenant provider = Ok (Some p) -> pv_secret p <> "" -> rq_body r = Some body -> HmacSHA256 (pv_secret p) body <> "" ->
  rq_signature r = "sha256=" ++ HexEncode (HmacSHA256 (pv_secret p) body) ->
  GenericJSON body = Some e -> ToUpper (ge_event e) = "HARD_BOUNCE" -> ToLower (TrimSpace (ge_recipient e)) <> "" -> (forall i, working (ee_calls env i)) ->
  exists effs names' asked, ServeEvents env r names = (effs, names', status 200, asked) /\
    (Events.suppressions effs).*1 = [(tenant, ToLower (TrimSpace (ge_recipient e)))].
Proof.
  intros Hmeth Hpath Hk Ht Hf Hs Hbody Hne Hsig Hj Hev Hrc Hw. unfold ServeEvents. rewrite Hmeth, Hpath, Hbody. cbn [negb]. change (eqb "POST" "POST") with true. cbn [negb].
  assert (Hks : forall x, x ∈ ["sendgrid"; "mailgun"; "postmark"; "ses"] -> eqb (ToLower kind) x = false) by (intros x Hx; apply eqb_false; congruence).
  assert (Hv : verify (ee_now env) (ee_find env) r tenant provider (ToLower kind) body = None).
  { unfold verify, webhookSecret. rewrite Hf, (proj2 (eqb_false _ _) Hs), !Hks by set_solver. unfold verifyGeneric. rewrite (proj2 (eqb_false _ _) Hs), Hsig.
    destruct (HmacSHA256 (pv_secret p) body) as [|c x] eqn:Hm; [done|]. rewrite TrimPrefix_app. cbn [HexEncode String.append]. change (eqb (String "s" _) "") with false.
    cbn [String.length Nat.ltb Nat.leb andb]. rewrite (proj2 (HasPrefix_spec _ "sha256=")) by (by eexists). unfold eqb. by rewrite bool_decide_eq_true_2. }
  rewrite Hv. unfold handle. rewrite !Hks by set_solver. unfold handleGeneric. rewrite Hj, Hev. change (EmailEventType_value "HARD_BOUNCE") with (Some HARD_BOUNCE).
  set (l := [mkEventReport (ge_message_id e) HARD_BOUNCE (ge_recipient e) (ge_error e)]). cbn match. change (unless_unspecified (mkEventReport (ge_message_id e) HARD_BOUNCE (ge_recipient e) (ge_error e))) with l. pose proof (recordAll_suppressions (ee_calls env) tenant provider l Hw Ht) as Hl.
  assert (Hall : Forall (fun x => address x <> "") l) by (unfold l; simpl; repeat constructor; done).
  specialize (Hl Hall 0%nat names). destruct (recordAll _ _ _ _ l _) as [effs1 names1]. exists effs1, names1, None. by split.
Qed.

End Believed.

(** ** On concrete posts *)

Definition sampleNotification (bounceType : string) : sesNotification :=
  mkNotification "Bounce" "" "m.1" ["bob@d.e"] (Some (bounceType, [mkBounced "Bob@D.E " "smtp; 550 5.1.1 user unknown" "5.1.1"])) None None None None.

#[export] Instance sampleEvents : EventParsers := {
  SendGridJSON _ := Some [mkSendGrid "bob@d.e" "delivered" "m.1" "" ""; mkSendGrid "bob@d.e" "processed" "m.1" "" ""];
  MailgunSignature _ := None;
  MailgunJSON _ := None;
  GenericJSON _ := Some (mkGeneric "hard_bounce" "Victim@D.E" "m.1" "forged");
  PostmarkJSON _ := None;
  SNSTopic _ := Some "arn:aws:sns:eu-west-1:1:events";
  SNSJSON body := Some (mkSNS "Notification" "arn:aws:sns:eu-west-1:1:events" "" body);
  SESJSON payload := Some (sampleNotification payload);
  SNSValid _ := true;
  PostmarkOk _ _ _ := false;
  SubscribeURL _ := None;
  PEMBlock _ := None;
  ECKey := string;
  PKIXKey der := Some der;
  ECDSASignature sig := Some (1, 2);
  ECDSAVerify _ _ _ := true;
  Sum256 x := x;
  HmacSHA256 key text := key ++ text
}.

Definition storing : Events.Env :=
  Events.mkEnv "e1" (unixEpoch + 1700000100 * Second) (fun _ => true) (fun _ => None) (fun _ => None) (fun _ => None) (fun _ => None) true false true.

Definition listening (ty : ProviderType) (secret : string) : EventEnv :=
  mkEventEnv 1700000100 (fun tenant id => Ok (Some (mkProvider ty tenant id secret))) true (fun _ => storing).

Lemma storing_works i : working (ee_calls (listening SES "") i).
Proof. by split. Qed.

Definition sendGridPost : Request := mkRequest "POST" "/webhooks/t1/p1/sendgrid" (Some "[]") "AAAA" "1700000000" "" "".

Lemma sendGrid_records : Events.recorded (ServeEvents (listening SENDGRID "AAAA") sendGridPost ∅).1.1.1 =
  [Events.mkEvent "e1" "t1" "p1" "" "m.1" DELIVERED "bob@d.e" "" (unixEpoch + 1700000100 * Second) ""].
Proof. vm_compute. reflexivity. Qed.

Lemma event_post_is_vouched_for_witness :
  exists p, ee_find (listening SENDGRID "AAAA") "t1" "p1" = Ok (Some p) /\ vouched 1700000100 sendGridPost (pv_secret p) "sendgrid" "[]".
Proof.
  destruct (ServeEvents (listening SENDGRID "AAAA") sendGridPost ∅) as [[[effs names'] resp] asked] eqn:E.
  destruct (event_post_is_vouched_for (listening SENDGRID "AAAA") sendGridPost ∅ effs names' resp asked) as (tenant & provider & kind & body & p & (a & rest & Hp) & Hb & Hf & _ & Hv & _).
  - cbn. lia.
  - exact E.
  - left. pose proof (eq_trans (f_equal (fun x => Events.recorded x.1.1.1) (eq_sym E)) sendGrid_records) as H. cbn [fst] in H. intros ->. discriminate H.
  - vm_compute in Hp. injection Hp as _ <- <- <- _. injection Hb as <-. exists p. split; [exact Hf|exact Hv].
Defined.

Definition sesPost (bounceType : string) : Request := mkRequest "POST" "/webhooks/t1/p1/ses" (Some bounceType) "" "" "" "".

Lemma only_permanent_bounces_suppress_witness :
  (Events.suppressions (ServeEvents (listening SES "arn:aws:sns:eu-west-1:1:events") (sesPost "Transient") ∅).1.1.1).*1 = [] /\
  (Events.suppressions (ServeEvents (listening SES "arn:aws:sns:eu-west-1:1:events") (sesPost "Permanent") ∅).1.1.1).*1 = [("t1", "bob@d.e")].
Proof.
  split.
  - destruct (ServeEvents (listening SES "arn:aws:sns:eu-west-1:1:events") (sesPost "Transient") ∅) as [[[effs names'] resp] asked] eqn:E.
    refine (only_permanent_bounces_suppress (listening SES "arn:aws:sns:eu-west-1:1:events") (sesPost "Transient") ∅ "t1" "p1" "webhooks" "ses" [] "Transient"
      (mkSNS "Notification" "arn:aws:sns:eu-west-1:1:events" "" "Transient") (sampleNotification "Transient") "Transient" _ effs names' resp asked
      _ _ _ _ _ _ _ _ _ _ _ E _); try reflexivity; try discriminate.
    + repeat constructor. discriminate.
    + exact storing_works.
    + vm_compute in E. by injection E as _ _ <- _.
  - vm_compute. reflexivity.
Defined.

(** A SendGrid provider, whose secret is the public key of SendGrid's
    signatures. *)
Definition forgedPost : Request := mkRequest "POST" "/webhooks/t1/p1/anything" (Some "{}") "" "" ("sha256=" ++ HexEncode "MFkwEwYHKoZIzj0CAQYIKoZIzj0DAQcDQgAE{}") "".

Lemma poster_chooses_the_scheme_witness :
  exists effs names' asked, ServeEvents (listening SENDGRID "MFkwEwYHKoZIzj0CAQYIKoZIzj0DAQcDQgAE") forgedPost ∅ = (effs, names', status 200, asked) /\
    (Events.suppressions effs).*1 = [("t1", "victim@d.e")].
Proof.
  refine (poster_chooses_the_scheme (listening SENDGRID "MFkwEwYHKoZIzj0CAQYIKoZIzj0DAQcDQgAE") forgedPost ∅ "webhooks" "t1" "p1" "anything" []
    (mkProvider SENDGRID "t1" "p1" "MFkwEwYHKoZIzj0CAQYIKoZIzj0DAQcDQgAE") "{}" (mkGeneric "hard_bounce" "Victim@D.E" "m.1" "forged") _ _ _ _ _ _ _ _ _ _ _ _ _);
    try reflexivity; try discriminate; [by apply (bool_decide_unpack _)|exact storing_works].
Defined.

End ProviderEvents.
