(* ===== verification/Secrets.v ===== *)
(** * Stored credentials: the keyring, its rotation and the change of key

    Models pkg/secrets/keyring.go, the [RotateSecrets] of the four stores that
    keep sealed values (internal/email_provider, internal/webhook,
    internal/sent_copy and internal/smtp_submission), internal/config/keys.go
    and the change of the data key from the dashboard
    (internal/system_settings/usecases/data_key.go).

    SHA-256 and AES-GCM are parameters; hex and base64 are those of [Encoding].
    A rotation reads a table once and then updates it row by row: [others] is
    what other connections commit before each update, [fs] how each update
    goes, [nonces] what the random source gives. *)
From S2P Require Import Prelude GoStrings Encoding.
From Stdlib Require Import Ascii.

Module Secrets.
Import GoStrings Encoding.
Local Open Scope string_scope.
Local Open Scope Z_scope.

(** ** The keyring *)

Definition cipherPrefixV1 : string := "enc:v1:".
Definition cipherPrefixV2 : string := "enc:v2:".

Record keyEntry := mkEntry {
  id : string;
  key : string
}.

Record keySet := mkKeySet {
  primary : keyEntry;
  retired : list keyEntry
}.

(** A [*Keyring] is the set it holds; nil is [None]. *)
Abbreviation Keyring := (option keySet).

Inductive secretError :=
| ErrNoKey
| ErrInvalidKey
| RetiredKey (e : secretError)
| MissingKeyIdentifier
| UnknownFormat
| NotBase64
| TooShort
| NotDecrypted (id : string)
| NotConfigured (id : string)
| NoKeyDecrypts
| RandomFailed (e : string).

(** [IsEncrypted]. *)
Definition IsEncrypted (v : string) : bool := HasPrefix v cipherPrefixV1 || HasPrefix v cipherPrefixV2.

(** [split]: the key id, if the format has one, and the payload. *)
Definition split (v : string) : result secretError (string * string) :=
  let decode (id encoded : string) :=
    match RawStdDecode encoded with
    | None => Err NotBase64
    | Some raw => Ok (id, raw)
    end in
  if HasPrefix v cipherPrefixV2 then
    match Cut (TrimPrefix v cipherPrefixV2) ":"%char with
    | None => Err MissingKeyIdentifier
    | Some (id, encoded) => decode id encoded
    end
  else if HasPrefix v cipherPrefixV1 then decode "" (TrimPrefix v cipherPrefixV1)
  else Err UnknownFormat.

Definition entries (s : keySet) : list keyEntry := primary s :: retired s.

Definition entryFor (s : keySet) (i : string) : option keyEntry :=
  if eqb (id (primary s)) i then Some (primary s)
  else snd <$> list_find (fun e => id e = i) (retired s).

(** [NeedsRotation]. *)
Definition NeedsRotation (k : Keyring) (v : string) : bool :=
  match k with
  | None => false
  | Some s =>
      if eqb v "" || negb (IsEncrypted v) then false
      else
        match split v with
        | Err _ => false
        | Ok (i, _) => negb (eqb i (id (primary s)))
        end
  end.

Definition PrimaryKeyID (k : Keyring) : string := match k with None => "" | Some s => id (primary s) end.

(** The nonce of AES-GCM has twelve bytes. *)
Definition NonceSize : nat := 12.

(** [ParseRetiredKeys]. *)
Definition ParseRetiredKeys (value : string) : list string :=
  filter (fun p => p <> "") (map TrimSpace (Split value ","%char)).

Section Keyring.
(** SHA-256, and AES-GCM under a key and a nonce. *)
Context (SHA256 : string -> string).
Context (Seal : string -> string -> string -> string).
Context (Open_ : string -> string -> string -> option string).

Definition keyID (key : string) : string := HexEncode (take_str 4 (SHA256 key)).

Definition newEntry (keyHex : string) : result secretError keyEntry :=
  match HexDecode (TrimSpace keyHex) with
  | None => Err ErrInvalidKey
  | Some key => if Nat.eqb (String.length key) 32 then Ok (mkEntry (keyID key) key) else Err ErrInvalidKey
  end.

Fixpoint retiredEntries (p : keyEntry) (hs : list string) : result secretError (list keyEntry) :=
  match hs with
  | [] => Ok []
  | h :: rest =>
      if eqb (TrimSpace h) "" then retiredEntries p rest
      else
        match newEntry h with
        | Err e => Err (RetiredKey e)
        | Ok e =>
            if eqb (id e) (id p) then retiredEntries p rest
            else match retiredEntries p rest with Ok es => Ok (e :: es) | Err err => Err err end
        end
  end.

Definition NewKeyring (primaryHex : string) (retiredHex : list string) : result secretError keySet :=
  match newEntry primaryHex with
  | Err e => Err e
  | Ok p => match retiredEntries p retiredHex with Ok rs => Ok (mkKeySet p rs) | Err e => Err e end
  end.

(** [Encrypt]; [nonce] is what [io.ReadFull(rand.Reader, nonce)] gives. *)
Definition Encrypt (nonce : result string string) (k : Keyring) (plaintext : string) : result secretError string :=
  if eqb plaintext "" then Ok ""
  else
    match k with
    | None => Err ErrNoKey
    | Some s =>
        match nonce with
        | Err e => Err (RandomFailed e)
        | Ok n =>
            Ok (cipherPrefixV2 ++ id (primary s) ++ ":" ++ RawStdEncode (n ++ Seal (key (primary s)) n plaintext))
        end
    end.

Definition open (e : keyEntry) (raw : string) : result secretError string :=
  if Nat.ltb (String.length raw) NonceSize then Err TooShort
  else
    match Open_ (key e) (take_str NonceSize raw) (drop_str NonceSize raw) with
    | None => Err (NotDecrypted (id e))
    | Some p => Ok p
    end.

Fixpoint openAny (es : list keyEntry) (raw : string) : result secretError string :=
  match es with
  | [] => Err NoKeyDecrypts
  | e :: rest => match open e raw with Ok p => Ok p | Err _ => openAny rest raw end
  end.

Definition Decrypt (k : Keyring) (v : string) : result secretError string :=
  if eqb v "" then Ok ""
  else if negb (IsEncrypted v) then Ok v
  else
    match k with
    | None => Err ErrNoKey
    | Some s =>
        match split v with
        | Err e => Err e
        | Ok (i, raw) =>
            if negb (eqb i "") then
              match entryFor s i with
              | None => Err (NotConfigured i)
              | Some e => open e raw
              end
            else openAny (entries s) raw
        end
    end.

(** ** Rotation *)

Inductive rotateError :=
| Sealing (e : secretError)
| Store (e : string).

(** Decrypt with whichever key wrote it, then seal with the primary. *)
Definition reseal (nonce : result string string) (k : Keyring) (v : string) : result rotateError string :=
  match Decrypt k v with
  | Err e => Err (Sealing e)
  | Ok plain => match Encrypt nonce k plain with Err e => Err (Sealing e) | Ok sealed => Ok sealed end
  end.

(** The loop of a rotation over the rows it read.  The table, how many rows were
    rewritten, and the error it stopped at. *)
Fixpoint rotateRows {K V} `{Countable K} (needs : V -> bool) (again : nat -> V -> result rotateError V)
    (fs : nat -> fault) (others : nat -> gmap K V -> gmap K V) (rows : list (K * V)) (n : nat) (rotated : Z)
    (t : gmap K V) : gmap K V * Z * option rotateError :=
  match rows with
  | [] => (t, rotated, None)
  | (k, v) :: rest =>
      if negb (needs v) then rotateRows needs again fs others rest (S n) rotated t
      else
        match again n v with
        | Err e => (t, rotated, Some e)
        | Ok v' =>
            match exec (fs n) (fun t => Ok (alter (fun _ => v') k t, tt)) (others n t) with
            | (t', Err e) => (t', rotated, Some (Store e))
            | (t', Ok _) => rotateRows needs again fs others rest (S n) (rotated + 1) t'
            end
        end
  end.

(** What one call of a rotation meets. *)
Record Run (K V : Type) `{Countable K} := mkRun {
  r_list : fault;
  r_updates : nat -> fault;
  r_nonces : nat -> result string string;
  r_others : nat -> gmap K V -> gmap K V
}.
#[global] Arguments mkRun {K V _ _}.
#[global] Arguments r_list {K V _ _}.
#[global] Arguments r_updates {K V _ _}.
#[global] Arguments r_nonces {K V _ _}.
#[global] Arguments r_others {K V _ _}.

Definition rotateTable {K V} `{Countable K} (needs : V -> bool) (again : nat -> V -> result rotateError V)
    (run : Run K V) (t : gmap K V) : gmap K V * Z * option rotateError :=
  match r_list run with
  | Up => rotateRows needs again (r_updates run) (r_others run) (map_to_list t) 0 0 t
  | Down => (t, 0, Some (Store errNotConnected))
  | Refused e | Lost e => (t, 0, Some (Store e))
  end.

(** [rotateColumn] of the Sent copies, and [RotateSecrets] of the webhooks. *)
Definition rotateColumn {K} `{Countable K} (k : Keyring) (run : Run K string) :
    gmap K string -> gmap K string * Z * option rotateError :=
  rotateTable (NeedsRotation k) (fun n v => reseal (r_nonces run n) k v) run.

(** A provider's two sealed columns; the webhook secret may be NULL. *)
Abbreviation ProviderSecrets := (string * option string)%type.

Definition providerNeeds (k : Keyring) (v : ProviderSecrets) : bool :=
  NeedsRotation k v.1 || match v.2 with Some s => NeedsRotation k s | None => false end.

(** Two nonces are drawn for a row: the configuration's and the secret's. *)
Definition providerAgain (nonces : nat -> result string string) (k : Keyring) (n : nat) (v : ProviderSecrets) :
    result rotateError ProviderSecrets :=
  match reseal (nonces (2 * n)%nat) k v.1 with
  | Err e => Err e
  | Ok config =>
      match v.2 with
      | None => Ok (config, None)
      | Some s =>
          if eqb s "" then Ok (config, Some s)
          else match reseal (nonces (2 * n + 1)%nat) k s with
               | Err e => Err e
               | Ok sealed => Ok (config, Some sealed)
               end
      end
  end.

(** [RotateSecrets] of the providers. *)
Definition rotateProviders (k : Keyring) (run : Run string ProviderSecrets) :
    gmap string ProviderSecrets -> gmap string ProviderSecrets * Z * option rotateError :=
  rotateTable (providerNeeds k) (providerAgain (r_nonces run) k) run.

(** [RotateSecrets] of SMTP submission, over the one row of its table, if there
    is one. *)
Definition rotateSMTP (k : Keyring) (f1 f2 : fault) (nonce : result string string) (t : option string) :
    option string * Z * option rotateError :=
  match exec f1 (fun t => Ok (t, t)) t with
  | (_, Err e) => (t, 0, Some (Store e))
  | (_, Ok None) => (t, 0, None)
  | (_, Ok (Some stored)) =>
      if negb (NeedsRotation k stored) then (t, 0, None)
      else
        match reseal nonce k stored with
        | Err e => (t, 0, Some e)
        | Ok sealed =>
            match exec f2 (fun t => Ok ((fun _ => sealed) <$> t, tt)) t with
            | (t', Err e) => (t', 0, Some (Store e))
            | (t', Ok _) => (t', 1, None)
            end
        end
  end.

(** ** The data key (config/keys.go, data_key.go) *)

Record Config := mkConfig {
  DataKey : string;
  RetiredDataKeysCfg : list string
}.

(** PANMAIL_SECRET_KEY and PANMAIL_SECRET_KEYS_RETIRED. *)
Record Environ := mkEnviron {
  envKey : string;
  envRetired : string
}.

Definition ResolveDataKey (e : Environ) (cfg : option Config) : result secretError string :=
  if negb (eqb (envKey e) "") then Ok (envKey e)
  else
    match cfg with
    | Some c => if eqb (DataKey c) "" then Err ErrNoKey else Ok (DataKey c)
    | None => Err ErrNoKey
    end.

Definition RetiredDataKeys (e : Environ) (cfg : option Config) : list string :=
  (ParseRetiredKeys (envRetired e) ++ match cfg with Some c => RetiredDataKeysCfg c | None => [] end)%list.

(** The keyring the process builds when it starts. *)
Definition startKeyring (e : Environ) (cfg : option Config) : result secretError keySet :=
  match ResolveDataKey e cfg with
  | Err err => Err err
  | Ok k => NewKeyring k (RetiredDataKeys e cfg)
  end.

(** Every sealed column of the database. *)
Record DB := mkDB {
  providers : gmap string ProviderSecrets;
  webhooks : gmap string string;
  sent_settings : gmap string string;
  sent_mailboxes : gmap (string * string) string;
  smtp_key : option string
}.

(** What the rotations of one change meet. *)
Record Runs := mkRuns {
  run_providers : Run string ProviderSecrets;
  run_webhooks : Run string string;
  run_settings : Run string string;
  run_mailboxes : Run (string * string) string;
  run_smtp1 : fault;
  run_smtp2 : fault;
  run_smtp_nonce : result string string
}.

(** [RotateSecrets] of the Sent copies: the settings, then the mailboxes. *)
Definition rotateSentCopies (k : Keyring) (rs : Runs) (d : DB) : DB * Z * option rotateError :=
  match rotateColumn k (run_settings rs) (sent_settings d) with
  | (t, n, Some e) => (mkDB (providers d) (webhooks d) t (sent_mailboxes d) (smtp_key d), n, Some e)
  | (t, n, None) =>
      let '(t2, n2, e) := rotateColumn k (run_mailboxes rs) (sent_mailboxes d) in
      (mkDB (providers d) (webhooks d) t t2 (smtp_key d), n + n2, e)
  end.

(** The loop over the rotators, in the order the server wires them. *)
Definition rotateAll (k : Keyring) (rs : Runs) (d : DB) : DB * Z * option rotateError :=
  match rotateProviders k (run_providers rs) (providers d) with
  | (t, n, Some e) => (mkDB t (webhooks d) (sent_settings d) (sent_mailboxes d) (smtp_key d), n, Some e)
  | (t, n, None) =>
      let d := mkDB t (webhooks d) (sent_settings d) (sent_mailboxes d) (smtp_key d) in
      match rotateColumn k (run_webhooks rs) (webhooks d) with
      | (t, n2, Some e) => (mkDB (providers d) t (sent_settings d) (sent_mailboxes d) (smtp_key d), n + n2, Some e)
      | (t, n2, None) =>
          let d := mkDB (providers d) t (sent_settings d) (sent_mailboxes d) (smtp_key d) in
          match rotateSentCopies k rs d with
          | (d, n3, Some e) => (d, n + n2 + n3, Some e)
          | (d, n3, None) =>
              let '(t, n4, e) := rotateSMTP k (run_smtp1 rs) (run_smtp2 rs) (run_smtp_nonce rs) (smtp_key d) in
              (mkDB (providers d) (webhooks d) (sent_settings d) (sent_mailboxes d) t, n + n2 + n3 + n4, e)
          end
      end
  end.

Record World := mkWorld {
  environ : Environ;
  config : option Config;      (* the file; [None] before setup *)
  keyring : keySet;            (* what every store holds *)
  db : DB
}.

Inductive changeError :=
| ErrDataKeyFromEnvironment
| LoadFailed (e : string)
| NotSetUp
| BadKey (e : secretError)
| ErrDataKeyUnchanged
| SaveFailed (e : string)
| RotationStopped (n : Z) (e : rotateError)
| OldKeyNotRemoved (e : string).

Record DataKeyChange := mkChange {
  KeyID : string;
  NewKey : string;
  Rotated : Z
}.

(** [config.Save]; the file is replaced or it is not. *)
Definition save (f : fault) (c : Config) (w : World) : World * result string unit :=
  exec f (fun w => Ok (mkWorld (environ w) (Some c) (keyring w) (db w), tt)) w.

Definition set_ring (s : keySet) (w : World) : World := mkWorld (environ w) (config w) s (db w).
Definition set_db (d : DB) (w : World) : World := mkWorld (environ w) (config w) (keyring w) d.

(** [Change].  [loading] is the read of the file, [random] what [GenerateKey]
    gives, [f1] and [f2] how the two writes of the file go. *)
Definition Change (loading : option string) (random : result string string) (f1 f2 : fault) (rs : Runs)
    (newKeyHex : string) (w : World) : World * result changeError DataKeyChange :=
  if negb (eqb (envKey (environ w)) "") then (w, Err ErrDataKeyFromEnvironment)
  else
    match loading with
    | Some e => (w, Err (LoadFailed e))
    | None =>
        match config w with
        | None => (w, Err NotSetUp)
        | Some cfg =>
            match ResolveDataKey (environ w) (Some cfg) with
            | Err e => (w, Err (BadKey e))
            | Ok current =>
                let generated := eqb newKeyHex "" in
                match (if generated then match random with Ok r => Ok (HexEncode r) | Err e => Err (RandomFailed e) end
                       else Ok newKeyHex) with
                | Err e => (w, Err (BadKey e))
                | Ok newKey =>
                    match NewKeyring newKey [] with
                    | Err e => (w, Err (BadKey e))
                    | Ok next =>
                        if eqb (id (primary next)) (id (primary (keyring w))) then (w, Err ErrDataKeyUnchanged)
                        else
                          let cfg1 := mkConfig newKey (current :: RetiredDataKeysCfg cfg) in
                          match save f1 cfg1 w with
                          | (w, Err e) => (w, Err (SaveFailed e))
                          | (w, Ok _) =>
                              match NewKeyring newKey (RetiredDataKeys (environ w) (Some cfg1)) with
                              | Err e => (w, Err (BadKey e))
                              | Ok moving =>
                                  let w := set_ring moving w in
                                  match rotateAll (Some moving) rs (db w) with
                                  | (d, n, Some e) => (set_db d w, Err (RotationStopped n e))
                                  | (d, n, None) =>
                                      let w := set_db d w in
                                      let cfg2 := mkConfig newKey [] in
                                      match save f2 cfg2 w with
                                      | (w, Err e) => (w, Err (OldKeyNotRemoved e))
                                      | (w, Ok _) =>
                                          match NewKeyring newKey (RetiredDataKeys (environ w) (Some cfg2)) with
                                          | Err e => (w, Err (BadKey e))
                                          | Ok final =>
                                              (set_ring final w,
                                               Ok (mkChange (id (primary final)) (if generated then newKey else "") n))
                                          end
                                      end
                                  end
                              end
                          end
                    end
                end
            end
        end
    end.

(** ** What the ciphers promise *)

(** What is sealed opens under its own key. *)
Definition opens_its_own : Prop :=
  forall k n p, String.length n = NonceSize -> Open_ k n (Seal k n p) = Some p.

(** A digest has bytes. *)
Definition sha_bytes : Prop := forall k, SHA256 k <> "".

(** The random source, when it answers, fills the nonce. *)
Definition fills (nonce : result string string) : Prop := forall n, nonce = Ok n -> String.length n = NonceSize.

Definition wf_entry (e : keyEntry) : Prop := id e = keyID (key e).
Definition wf_set (s : keySet) : Prop := Forall wf_entry (entries s).

Lemma keyID_nonempty k : sha_bytes -> keyID k <> "".
Proof. intros Hs. unfold keyID. specialize (Hs k). by destruct (SHA256 k). Qed.

Lemma keyID_no_colon k : str_all (fun c => negb (bool_decide (c = ":"%char))) (keyID k) = true.
Proof. by apply (str_all_ne is_hex), HexEncode_hex. Qed.

Lemma split_v2 i raw :
  str_all (fun c => negb (bool_decide (c = ":"%char))) i = true ->
  split (cipherPrefixV2 ++ i ++ ":" ++ RawStdEncode raw) = Ok (i, raw) /\
  IsEncrypted (cipherPrefixV2 ++ i ++ ":" ++ RawStdEncode raw) = true.
Proof.
  intros Hi. unfold split, IsEncrypted, HasPrefix. rewrite prefix_app, TrimPrefix_app.
  change (i ++ ":" ++ RawStdEncode raw) with (i ++ String ":"%char (RawStdEncode raw)).
  by rewrite Cut_app, b64_roundtrip, orb_true_r by done.
Qed.

Lemma open_sealed e n p : opens_its_own -> String.length n = NonceSize -> open e (n ++ Seal (key e) n p) = Ok p.
Proof.
  intros Ha Hn. unfold open. rewrite str_length_app, Hn.
  destruct (Nat.ltb_spec (NonceSize + String.length (Seal (key e) n p)) NonceSize); [lia|].
  rewrite <- Hn at 1 2. by rewrite take_str_len, drop_str_app, Ha.
Qed.

(** What one keyring seals, any keyring that holds the key under its id opens. *)
Lemma Encrypt_Decrypt nonce s s' p v :
  opens_its_own -> sha_bytes -> fills nonce -> wf_entry (primary s) ->
  entryFor s' (id (primary s)) = Some (primary s) ->
  Encrypt nonce (Some s) p = Ok v -> Decrypt (Some s') v = Ok p /\ NeedsRotation (Some s) v = false.
Proof.
  intros Ha Hs Hf Hw He. unfold Encrypt. destruct (eqb p "") eqn:Ep; [apply eqb_true in Ep as ->; by intros [= <-]|].
  destruct nonce as [n|]; [|done]. intros E. specialize (Hf n eq_refl).
  assert (Hv : v = cipherPrefixV2 ++ id (primary s) ++ ":" ++ RawStdEncode (n ++ Seal (key (primary s)) n p))
    by (by injection E). clear E.
  destruct (split_v2 (id (primary s)) (n ++ Seal (key (primary s)) n p)) as [Es Ei]; [rewrite Hw; apply keyID_no_colon|].
  rewrite <- Hv in Es, Ei.
  assert (Ev : eqb v "" = false) by (rewrite Hv; by apply bool_decide_eq_false).
  unfold Decrypt, NeedsRotation. rewrite Ev, Ei, Es. cbn [negb orb]. rewrite eqb_refl.
  destruct (eqb (id (primary s)) "") eqn:E0.
  { apply eqb_true in E0. rewrite Hw in E0. by apply keyID_nonempty in E0. }
  cbn [negb]. rewrite He. by rewrite open_sealed.
Qed.

Lemma entryFor_primary s : entryFor s (id (primary s)) = Some (primary s).
Proof. unfold entryFor. by rewrite eqb_refl. Qed.

Lemma reseal_spec nonce s v v' :
  opens_its_own -> sha_bytes -> fills nonce -> wf_entry (primary s) ->
  reseal nonce (Some s) v = Ok v' -> Decrypt (Some s) v' = Decrypt (Some s) v /\ NeedsRotation (Some s) v' = false.
Proof.
  intros Ha Hs Hf Hw. unfold reseal. destruct (Decrypt (Some s) v) as [p|e] eqn:Ed; [|done].
  destruct (Encrypt nonce (Some s) p) as [x|e] eqn:Ee; [|done]. intros [= ->].
  by apply (Encrypt_Decrypt _ s s) in Ee; [|done..|apply entryFor_primary].
Qed.

(** *** More keys open as much *)

Definition unclashing (s : keySet) : Prop :=
  forall e e', e ∈ entries s -> e' ∈ entries s -> id e = id e' -> e = e'.

Lemma entryFor_in s i e : entryFor s i = Some e -> e ∈ entries s /\ id e = i.
Proof.
  unfold entryFor, entries. destruct (eqb (id (primary s)) i) eqn:E.
  - intros [= <-]. apply eqb_true in E. split; [by left|done].
  - destruct (list_find _ _) as [[n x]|] eqn:El; [|done]. intros [= <-].
    apply list_find_Some in El as (Hl & Hi & _). split; [right; by eapply list_elem_of_lookup_2|done].
Qed.

Lemma entryFor_found s e : unclashing s -> e ∈ entries s -> entryFor s (id e) = Some e.
Proof.
  intros Hu He. destruct (entryFor s (id e)) as [e'|] eqn:E.
  - apply entryFor_in in E as [Hin Hid]. f_equal. by apply Hu.
  - unfold entryFor in E. destruct (eqb (id (primary s)) (id e)) eqn:Ep; [done|].
    destruct (list_find _ _) as [[? ?]|] eqn:El; [done|]. apply list_find_None in El.
    apply elem_of_cons in He as [->|He]; [by rewrite eqb_refl in Ep|].
    rewrite Forall_forall in El. by destruct (El e He).
Qed.

Lemma openAny_in es raw p : openAny es raw = Ok p -> exists e, e ∈ es /\ open e raw = Ok p.
Proof.
  induction es as [|e es IH]; [done|]. cbn [openAny]. destruct (open e raw) as [q|] eqn:E.
  - intros [= ->]. exists e. split; [by left|done].
  - intros H. destruct (IH H) as (x & ? & ?). exists x. split; [by right|done].
Qed.

(** These keys do not open one payload to two plaintexts.  AES-GCM does not bind a
    ciphertext to its key, so this is asked of the values that do not name theirs. *)
Definition agreeing (es : list keyEntry) (raw : string) : Prop :=
  forall e e' p p', e ∈ es -> e' ∈ es -> open e raw = Ok p -> open e' raw = Ok p' -> p = p'.

Lemma openAny_some es e raw p : agreeing es raw -> e ∈ es -> open e raw = Ok p -> openAny es raw = Ok p.
Proof.
  induction es as [|x es IH]; [by intros _ ?%elem_of_nil|]. intros Ha Hin Ho. cbn [openAny].
  destruct (open x raw) as [q|] eqn:E; [f_equal; apply (Ha x e); [by left|done..]|].
  apply elem_of_cons in Hin as [->|Hin]; [congruence|]. apply IH; [|done..].
  intros y y' q q' Hy Hy'. apply Ha; by right.
Qed.

Lemma Decrypt_more s s' v p :
  (forall raw, split v = Ok ("", raw) -> agreeing (entries s') raw) ->
  unclashing s' -> (forall e, e ∈ entries s -> e ∈ entries s') ->
  Decrypt (Some s) v = Ok p -> Decrypt (Some s') v = Ok p.
Proof.
  intros Ha Hu Hin. unfold Decrypt. destruct (eqb v ""); [done|]. destruct (negb _); [done|].
  destruct (split v) as [[i raw]|]; [|done]. destruct (eqb i "") eqn:Ei; cbn [negb].
  - apply eqb_true in Ei as ->. intros (e & He & Ho)%openAny_in. eapply openAny_some; eauto.
  - destruct (entryFor s i) as [e|] eqn:E; [|done]. apply entryFor_in in E as [He <-].
    by rewrite (entryFor_found s' e) by auto.
Qed.

(** A value on the primary key opens under any keyring with that primary. *)
Lemma Decrypt_primary s s' v p :
  sha_bytes -> wf_entry (primary s) -> primary s' = primary s ->
  NeedsRotation (Some s) v = false -> Decrypt (Some s) v = Ok p -> Decrypt (Some s') v = Ok p.
Proof.
  intros Hs Hw Hp. unfold NeedsRotation, Decrypt. destruct (eqb v ""); [done|]. cbn [orb].
  destruct (IsEncrypted v); [|done]. cbn [negb]. destruct (split v) as [[i raw]|]; [|done].
  intros Hi%negb_false_iff%eqb_true. subst i. destruct (eqb (id (primary s)) "") eqn:E0.
  { apply eqb_true in E0. rewrite Hw in E0. by apply keyID_nonempty in E0. }
  cbn [negb]. rewrite entryFor_primary. rewrite <- Hp, entryFor_primary. done.
Qed.

(** ** Rotation keeps what is stored *)

#[local] Arguments NeedsRotation : simpl never.
#[local] Arguments Decrypt : simpl never.

(** A rotation whose re-sealing keeps a view of the value, and leaves it needing
    no further rotation, keeps the view of every row of the table; and when it
    ends without an error no row needs rotating. *)
Section Rows.
Context {K V X : Type} `{Countable K} (needs : V -> bool) (again : nat -> V -> result rotateError V) (view : V -> X).
Context (Hagain : forall n v v', again n v = Ok v' -> view v' = view v /\ needs v' = false).

Lemma rotateRows_spec fs (others : nat -> gmap K V -> gmap K V) (rows : list (K * V)) : forall n rotated t t' r e,
  (forall n t, others n t = t) ->
  NoDup rows.*1 -> (forall k v, (k, v) ∈ rows -> t !! k = Some v) ->
  rotateRows needs again fs others rows n rotated t = (t', r, e) ->
  view <$> t' = view <$> t /\
  (forall k, (k ∉ rows.*1) -> t' !! k = t !! k) /\
  (e = None -> forall k v, k ∈ rows.*1 -> t' !! k = Some v -> needs v = false).
Proof.
  induction rows as [|[k v] rows IH]; intros n rotated t t' r e Hq Hnd Hrows; cbn [rotateRows].
  { intros [= <- <- <-]. split_and!; [done|done|]. by intros _ k v ?%elem_of_nil. }
  cbn in Hnd. apply NoDup_cons in Hnd as [Hk Hnd].
  assert (Hkv : t !! k = Some v) by (apply Hrows; by left).
  assert (Hrest : forall k' v', (k', v') ∈ rows -> t !! k' = Some v') by (intros; apply Hrows; by right).
  destruct (needs v) eqn:En; cbn [negb].
  2: { intros Hr. apply IH in Hr as (Hv & Hout & Hdone); [|done..]. split_and!; [done| |].
       - intros x Hx. apply Hout. cbn in Hx. by apply not_elem_of_cons in Hx as [_ Hx].
       - intros He x y Hx Hy. cbn in Hx. apply elem_of_cons in Hx as [->|Hx]; [|by eapply Hdone].
         rewrite (Hout k Hk), Hkv in Hy. by simplify_eq. }
  destruct (again n v) as [v'|e0] eqn:Ea; [|intros [= <- <- <-]; by split_and!].
  destruct (Hagain _ _ _ Ea) as [Hview Hneeds]. rewrite Hq.
  assert (Hset : view <$> alter (fun _ => v') k t = view <$> t).
  { apply map_eq. intros x. rewrite !lookup_fmap. destruct (decide (x = k)) as [->|Hne].
    - by rewrite lookup_alter_eq, Hkv; simpl; rewrite Hview.
    - by rewrite lookup_alter_ne. }
  assert (Hother : forall x, x ∉ (k, v).1 :: rows.*1 -> alter (fun _ => v') k t !! x = t !! x).
  { intros x Hx. cbn in Hx. apply not_elem_of_cons in Hx as [Hx _]. by rewrite lookup_alter_ne. }
  destruct (fs n); simpl; try (intros [= <- <- <-]; by split_and!).
  intros Hr. apply IH in Hr as (Hv & Hout & Hdone); [|done..|].
  - split_and!; [by rewrite Hv, Hset| |].
    + intros x Hx. cbn in Hx. pose proof Hx as [_ Hx']%not_elem_of_cons. rewrite Hout by done. by apply Hother.
    + intros He x y Hx Hy. cbn in Hx. apply elem_of_cons in Hx as [->|Hx]; [|by eapply Hdone].
      rewrite (Hout k Hk), lookup_alter_eq, Hkv in Hy. by simplify_eq/=.
  - intros x y Hxy. rewrite lookup_alter_ne; [by apply Hrest|]. intros <-. apply Hk. apply (list_elem_of_fmap_2 fst) in Hxy. done.
Qed.

Definition quiet (run : Run K V) : Prop := forall n t, r_others run n t = t.

Lemma rotateTable_spec run t t' n e :
  quiet run -> rotateTable needs again run t = (t', n, e) ->
  view <$> t' = view <$> t /\ (e = None -> forall k v, t' !! k = Some v -> needs v = false).
Proof.
  intros Hq. unfold rotateTable. destruct (r_list run); try (intros [= <- <- <-]; by split).
  intros Hr. apply rotateRows_spec in Hr as (Hv & Hout & Hdone); [|done|apply NoDup_fst_map_to_list|intros ? ?; apply elem_of_map_to_list].
  split; [done|]. intros He k v Hkv. eapply Hdone; [done| |exact Hkv].
  assert (Hs : is_Some ((view <$> t) !! k)) by (rewrite <- Hv, lookup_fmap, Hkv; by eexists).
  rewrite lookup_fmap, fmap_is_Some in Hs. destruct Hs as [x Hx].
  apply elem_of_map_to_list in Hx. by apply (list_elem_of_fmap_2 fst) in Hx.
Qed.
End Rows.

Section Keep.
Context (Hopens : opens_its_own) (Hsha : sha_bytes) (s : keySet) (Hw : wf_entry (primary s)).

Lemma rotateColumn_spec {K} `{Countable K} (run : Run K string) t t' n e :
  quiet run -> (forall i, fills (r_nonces run i)) -> rotateColumn (Some s) run t = (t', n, e) ->
  Decrypt (Some s) <$> t' = Decrypt (Some s) <$> t /\
  (e = None -> forall k v, t' !! k = Some v -> NeedsRotation (Some s) v = false).
Proof. intros Hq Hf. eapply rotateTable_spec; [|done]. intros i v v' Hr. by eapply reseal_spec. Qed.

Definition openProvider (k : keySet) (v : ProviderSecrets) : result secretError string * option (result secretError string) :=
  (Decrypt (Some k) v.1, Decrypt (Some k) <$> v.2).

Lemma providerAgain_spec nonces n v v' :
  (forall i, fills (nonces i)) -> providerAgain nonces (Some s) n v = Ok v' ->
  openProvider s v' = openProvider s v /\ providerNeeds (Some s) v' = false.
Proof.
  intros Hf. unfold providerAgain, openProvider, providerNeeds. destruct v as [c x]. simpl.
  destruct (reseal (nonces _) (Some s) c) as [c'|] eqn:Ec; [|done]. apply reseal_spec in Ec as [E1 E2]; [|done..].
  destruct x as [x|]; [|intros [= <-]; simpl; by rewrite E1, E2].
  destruct (eqb x "") eqn:Ex; [apply eqb_true in Ex as ->; intros [= <-]; simpl; by rewrite E1, E2|].
  destruct (reseal _ _ x) as [x'|] eqn:Er; [|done].
  apply reseal_spec in Er as [E3 E4]; [|done..]. intros [= <-]. simpl. by rewrite E1, E2, E3, E4.
Qed.

Lemma rotateProviders_spec run t t' n e :
  quiet run -> (forall i, fills (r_nonces run i)) -> rotateProviders (Some s) run t = (t', n, e) ->
  openProvider s <$> t' = openProvider s <$> t /\
  (e = None -> forall k v, t' !! k = Some v -> providerNeeds (Some s) v = false).
Proof. intros Hq Hf. eapply rotateTable_spec; [|done]. intros i v v' Hr. by eapply providerAgain_spec. Qed.

Lemma rotateSMTP_spec f1 f2 nonce t t' n e :
  fills nonce -> rotateSMTP (Some s) f1 f2 nonce t = (t', n, e) ->
  Decrypt (Some s) <$> t' = Decrypt (Some s) <$> t /\
  (e = None -> forall v, t' = Some v -> NeedsRotation (Some s) v = false).
Proof.
  intros Hf. unfold rotateSMTP.
  destruct f1; simpl; try (intros [= <- <- <-]; by split). destruct t as [v|]; [|intros [= <- <- <-]; by split].
  destruct (NeedsRotation (Some s) v) eqn:En; cbn [negb]; [|intros [= <- <- <-]; split; [done|]; by intros _ ? [= <-]].
  destruct (reseal nonce (Some s) v) as [v'|] eqn:Er; [|intros [= <- <- <-]; by split].
  apply reseal_spec in Er as [E1 E2]; [|done..].
  destruct f2; simpl; intros [= <- <- <-]; simpl; rewrite ?E1; (split; [done|]); try done. by intros _ ? [= <-].
Qed.
End Keep.

(** Everything sealed, as a keyring opens it. *)
Definition opened (k : keySet) (d : DB) :=
  (openProvider k <$> providers d, Decrypt (Some k) <$> webhooks d, Decrypt (Some k) <$> sent_settings d,
   Decrypt (Some k) <$> sent_mailboxes d, Decrypt (Some k) <$> smtp_key d).

(** A sealed value of the database. *)
Definition sealed (d : DB) (v : string) : Prop :=
  (exists i p, providers d !! i = Some p /\ (v = p.1 \/ p.2 = Some v)) \/ (exists i, webhooks d !! i = Some v) \/
  (exists i, sent_settings d !! i = Some v) \/ (exists i, sent_mailboxes d !! i = Some v) \/ smtp_key d = Some v.

Definition readable (k : keySet) (d : DB) : Prop := forall v, sealed d v -> is_ok (Decrypt (Some k) v) = true.

Lemma opened_ext k k' d :
  (forall v, sealed d v -> Decrypt (Some k') v = Decrypt (Some k) v) -> opened k' d = opened k d.
Proof.
  intros He. unfold opened. f_equal; [f_equal; [f_equal; [f_equal|]|]|].
  - apply map_fmap_ext. intros i [c x] Hi. unfold openProvider. simpl. f_equal.
    + apply He. left. exists i, (c, x). by split; [|left].
    + destruct x as [x|]; [|done]. simpl. f_equal. apply He. left. exists i, (c, Some x). by split; [|right].
  - apply map_fmap_ext. intros i x Hi. apply He. right. left. by exists i.
  - apply map_fmap_ext. intros i x Hi. apply He. do 2 right. left. by exists i.
  - apply map_fmap_ext. intros i x Hi. apply He. do 3 right. left. by exists i.
  - destruct (smtp_key d) as [x|] eqn:E; [|done]. simpl. f_equal. apply He. do 4 right. done.
Qed.

(** What opens stays opening when every view is kept. *)
Lemma fmap_view_in {K A B} `{Countable K} (f : A -> B) (t t' : gmap K A) i x :
  f <$> t' = f <$> t -> t' !! i = Some x -> exists y, t !! i = Some y /\ f y = f x.
Proof.
  intros E Hx. assert (Hv : (f <$> t) !! i = Some (f x)) by (by rewrite <- E, lookup_fmap, Hx).
  rewrite lookup_fmap in Hv. destruct (t !! i) as [y|] eqn:Ey; [|done]. exists y. split; [done|]. by simplify_eq/=.
Qed.

Lemma readable_opened k d d' : opened k d' = opened k d -> readable k d -> readable k d'.
Proof.
  unfold opened. intros [= E1 E2 E3 E4 E5] Hr v [(i & p & Hi & Hv)|[(i & Hi)|[(i & Hi)|[(i & Hi)|Hi]]]].
  - apply (fmap_view_in _ _ _ _ _ E1) in Hi as (q & Hq & Eq). destruct p as [c x], q as [c0 x0]. injection Eq as Ec Ex.
    simpl in Hv. destruct Hv as [->|Hv].
    + rewrite <- Ec. apply Hr. left. exists i, (c0, x0). by split; [|left].
    + subst x. destruct x0 as [x0|]; [|done]. injection Ex as Ex. rewrite <- Ex. apply Hr. left. exists i, (c0, Some x0).
      by split; [|right].
  - apply (fmap_view_in _ _ _ _ _ E2) in Hi as (q & Hq & <-). apply Hr. right. left. eauto.
  - apply (fmap_view_in _ _ _ _ _ E3) in Hi as (q & Hq & <-). apply Hr. do 2 right. left. eauto.
  - apply (fmap_view_in _ _ _ _ _ E4) in Hi as (q & Hq & <-). apply Hr. do 3 right. left. eauto.
  - rewrite Hi in E5. destruct (smtp_key d) as [y|] eqn:Ey; [|done]. injection E5 as ->. apply Hr. do 4 right. done.
Qed.

(** The rotations run without others writing, and the random source fills its
    nonces. *)
Definition calm (rs : Runs) : Prop :=
  quiet (run_providers rs) /\ quiet (run_webhooks rs) /\ quiet (run_settings rs) /\ quiet (run_mailboxes rs) /\
  (forall i, fills (r_nonces (run_providers rs) i)) /\ (forall i, fills (r_nonces (run_webhooks rs) i)) /\
  (forall i, fills (r_nonces (run_settings rs) i)) /\ (forall i, fills (r_nonces (run_mailboxes rs) i)) /\
  fills (run_smtp_nonce rs).

Lemma rotateAll_spec s rs d d' n e :
  opens_its_own -> sha_bytes -> wf_entry (primary s) -> calm rs -> rotateAll (Some s) rs d = (d', n, e) ->
  opened s d' = opened s d /\ (e = None -> forall v, sealed d' v -> NeedsRotation (Some s) v = false).
Proof.
  intros Ho Hs Hw (Q1 & Q2 & Q3 & Q4 & F1 & F2 & F3 & F4 & F5). unfold rotateAll, opened.
  destruct (rotateProviders (Some s) _ (providers d)) as [[t1 n1] e1] eqn:R1.
  apply rotateProviders_spec in R1 as [V1 D1]; [|done..].
  destruct e1; [intros [= <- <- <-]; simpl; by rewrite V1|]. cbn [webhooks sent_settings sent_mailboxes smtp_key providers].
  destruct (rotateColumn (Some s) _ (webhooks d)) as [[t2 n2] e2] eqn:R2. apply rotateColumn_spec in R2 as [V2 D2]; [|done..].
  destruct e2; [intros [= <- <- <-]; simpl; by rewrite V1, V2|].
  unfold rotateSentCopies. cbn [webhooks sent_settings sent_mailboxes smtp_key providers].
  destruct (rotateColumn (Some s) _ (sent_settings d)) as [[t3 n3] e3] eqn:R3. apply rotateColumn_spec in R3 as [V3 D3]; [|done..].
  destruct e3; [intros [= <- <- <-]; simpl; by rewrite V1, V2, V3|].
  destruct (rotateColumn (Some s) _ (sent_mailboxes d)) as [[t4 n4] e4] eqn:R4. apply rotateColumn_spec in R4 as [V4 D4]; [|done..].
  destruct e4; [intros [= <- <- <-]; simpl; by rewrite V1, V2, V3, V4|].
  cbn [webhooks sent_settings sent_mailboxes smtp_key providers].
  destruct (rotateSMTP _ _ _ _ _) as [[t5 n5] e5] eqn:R5. apply rotateSMTP_spec in R5 as [V5 D5]; [|done..].
  intros [= <- <- <-]. cbn [webhooks sent_settings sent_mailboxes smtp_key providers].
  split; [by rewrite V1, V2, V3, V4, V5|]. intros -> v [(i & p & Hi & Hv)|[(i & Hi)|[(i & Hi)|[(i & Hi)|Hi]]]]; eauto.
  simpl in Hi. specialize (D1 eq_refl i p Hi). unfold providerNeeds in D1. apply orb_false_iff in D1 as [Da Db].
  destruct Hv as [->|Hv]; [done|]. by rewrite Hv in Db.
Qed.

(** *** Keyrings built from the configuration *)

(** No two of these keys have one fingerprint. *)
Definition distinct_fingerprints (hs : list string) : Prop :=
  forall h h' e e', h ∈ hs -> h' ∈ hs -> newEntry h = Ok e -> newEntry h' = Ok e' -> id e = id e' -> e = e'.

Lemma newEntry_wf h e : newEntry h = Ok e -> wf_entry e.
Proof.
  unfold newEntry. destruct (HexDecode _) as [k|]; [|done]. destruct (Nat.eqb _ _); [|done]. by intros [= <-].
Qed.

Lemma newEntry_blank h : TrimSpace h = "" -> newEntry h = Err ErrInvalidKey.
Proof. unfold newEntry. by intros ->. Qed.

Lemma retiredEntries_spec p hs es :
  retiredEntries p hs = Ok es ->
  (forall e, e ∈ es -> exists h, h ∈ hs /\ newEntry h = Ok e) /\
  (forall h, h ∈ hs -> TrimSpace h <> "" -> exists e, newEntry h = Ok e /\ (e ∈ es \/ id e = id p)).
Proof.
  revert es. induction hs as [|h hs IH]; intros es; cbn [retiredEntries].
  { intros [= <-]. split; [by intros e ?%elem_of_nil|by intros h ?%elem_of_nil]. }
  destruct (eqb (TrimSpace h) "") eqn:Eb.
  { apply eqb_true in Eb. intros [H1 H2]%IH. split; [intros e He; destruct (H1 e He) as (x & ? & ?); exists x; split; [by right|done]|].
    intros x [->|Hx]%elem_of_cons Hn; [done|auto]. }
  destruct (newEntry h) as [e0|] eqn:En; [|done]. destruct (eqb (id e0) (id p)) eqn:Ei.
  - apply eqb_true in Ei. intros [H1 H2]%IH. split.
    + intros e He. destruct (H1 e He) as (x & ? & ?). exists x. split; [by right|done].
    + intros x [->|Hx]%elem_of_cons Hn; [exists e0; split; [done|by right]|auto].
  - destruct (retiredEntries p hs) as [es'|] eqn:Er; [|done]. intros [= <-]. destruct (IH es' eq_refl) as [H1 H2]. split.
    + intros e [->|He]%elem_of_cons; [exists h; split; [by left|done]|].
      destruct (H1 e He) as (x & ? & ?). exists x. split; [by right|done].
    + intros x [->|Hx]%elem_of_cons Hn; [exists e0; split; [done|left; by left]|].
      destruct (H2 x Hx Hn) as (e & ? & [?|?]); exists e; split; try done; [left; by right|by right].
Qed.

Lemma retiredEntries_ok p hs :
  (forall h, h ∈ hs -> TrimSpace h <> "" -> is_ok (newEntry h) = true) -> exists es, retiredEntries p hs = Ok es.
Proof.
  induction hs as [|h hs IH]; intros Hv; cbn [retiredEntries]; [eauto|].
  destruct IH as [es Hes]; [intros x Hx; apply Hv; by right|]. destruct (eqb (TrimSpace h) "") eqn:Eb; [eauto|].
  specialize (Hv h ltac:(by left)). destruct (newEntry h) as [e|].
  - destruct (eqb (id e) (id p)); [eauto|]. rewrite Hes. eauto.
  - exfalso. assert (false = true); [|done]. apply Hv. intros E. by rewrite E in Eb.
Qed.

(** A keyring holds exactly the keys it was built from. *)
Lemma NewKeyring_spec h hs s :
  distinct_fingerprints (h :: hs) -> NewKeyring h hs = Ok s ->
  newEntry h = Ok (primary s) /\ wf_entry (primary s) /\ unclashing s /\
  (forall e, e ∈ entries s <-> exists x, x ∈ h :: hs /\ newEntry x = Ok e).
Proof.
  intros Hd. unfold NewKeyring. destruct (newEntry h) as [p|] eqn:Ep; [|done].
  destruct (retiredEntries p hs) as [es|] eqn:Er; [|done]. intros [= <-]. apply retiredEntries_spec in Er as [H1 H2]. simpl.
  assert (Hin : forall e, e ∈ p :: es <-> exists x, x ∈ h :: hs /\ newEntry x = Ok e).
  { intros e. split.
    - intros [->|He]%elem_of_cons; [exists h; split; [by left|done]|]. destruct (H1 e He) as (x & ? & ?). exists x. split; [by right|done].
    - intros (x & [->|Hx]%elem_of_cons & He); [assert (e = p) as -> by congruence; by left|]. destruct (H2 x Hx) as (e' & He' & Hc).
      { intros Hb. apply newEntry_blank in Hb. congruence. }
      assert (e' = e) as -> by congruence. destruct Hc as [Hc|Hc]; [by right|].
      assert (e = p) as -> by (eapply (Hd x h); [by right|by left|done..]). by left. }
  split_and!; [done|by eapply newEntry_wf| |exact Hin].
  intros e e' He He' Hid. apply Hin in He as (x & ? & ?), He' as (x' & ? & ?). by eapply (Hd x x').
Qed.

(** *** The change *)

Lemma distinct_sub hs hs' :
  (forall h, h ∈ hs' -> h ∈ hs) -> distinct_fingerprints hs -> distinct_fingerprints hs'.
Proof. intros Hs Hd h h' e e' Hh Hh'. apply Hd; auto. Qed.

(** No stored value of the older format, which does not name its key, opens to
    different plaintexts under two of these keys. *)
Definition unambiguous (d : DB) (hs : list string) : Prop :=
  forall v raw h h' e e' p p', sealed d v -> split v = Ok ("", raw) -> h ∈ hs -> h' ∈ hs ->
    newEntry h = Ok e -> newEntry h' = Ok e' -> open e raw = Ok p -> open e' raw = Ok p' -> p = p'.

Lemma unambiguous_agreeing d hs es v raw : unambiguous d hs -> (forall e, e ∈ es -> exists h, h ∈ hs /\ newEntry h = Ok e) ->
  sealed d v -> split v = Ok ("", raw) -> agreeing es raw.
Proof.
  intros Hun Hes Hv Hs e e' p p' He He'. destruct (Hes e He) as (h & Hh & Hn). destruct (Hes e' He') as (h' & Hh' & Hn').
  by apply (Hun v raw h h').
Qed.

Lemma more_keys s s' d :
  (forall v raw, sealed d v -> split v = Ok ("", raw) -> agreeing (entries s') raw) ->
  unclashing s' -> (forall e, e ∈ entries s -> e ∈ entries s') -> readable s d -> opened s' d = opened s d.
Proof.
  intros Ha Hu Hin Hr. apply opened_ext. intros v Hv. specialize (Hr v Hv).
  destruct (Decrypt (Some s) v) as [p|] eqn:E; [|done]. eapply Decrypt_more; eauto.
Qed.

(** The key a change moves to. *)
Definition new_key (random : result string string) (newKeyHex : string) : string :=
  if eqb newKeyHex "" then match random with Ok r => HexEncode r | Err _ => "" end else newKeyHex.

(** Every key the change and the configuration name. *)
Definition in_play (e : Environ) (cfg : option Config) (k : string) : list string :=
  k :: match cfg with Some c => DataKey c :: RetiredDataKeysCfg c | None => [] end ++ ParseRetiredKeys (envRetired e).

Lemma newEntry_named h e : newEntry h = Ok e -> eqb h "" = false.
Proof. intros H. apply bool_decide_eq_false. by intros ->. Qed.

(** The keyrings of the three steps: with the old keys, and without. *)
Lemma step_keyrings env cfg k ring next :
  distinct_fingerprints (in_play env (Some cfg) k) -> eqb (DataKey cfg) "" = false ->
  NewKeyring (DataKey cfg) (RetiredDataKeys env (Some cfg)) = Ok ring -> NewKeyring k [] = Ok next ->
  exists moving final,
    NewKeyring k (RetiredDataKeys env (Some (mkConfig k (DataKey cfg :: RetiredDataKeysCfg cfg)))) = Ok moving /\
    NewKeyring k (RetiredDataKeys env (Some (mkConfig k []))) = Ok final /\
    wf_entry (primary moving) /\ unclashing moving /\ (forall e, e ∈ entries ring -> e ∈ entries moving) /\
    (forall e, e ∈ entries moving -> exists h, h ∈ in_play env (Some cfg) k /\ newEntry h = Ok e) /\
    primary final = primary moving /\ primary moving = primary next /\ eqb k "" = false.
Proof.
  intros Hd Hcur Hring Hnext. unfold RetiredDataKeys in *. cbn [RetiredDataKeysCfg] in *.
  set (ev := ParseRetiredKeys (envRetired env)) in *.
  assert (Hk : newEntry k = Ok (primary next)).
  { unfold NewKeyring in Hnext. destruct (newEntry k); [|done]. simpl in Hnext. by injection Hnext as <-. }
  assert (Hvalid : forall h, h ∈ (ev ++ DataKey cfg :: RetiredDataKeysCfg cfg)%list -> TrimSpace h <> "" -> is_ok (newEntry h) = true).
  { intros h Hh Hb. unfold NewKeyring in Hring. destruct (newEntry (DataKey cfg)) as [p|] eqn:Ep; [|done].
    destruct (retiredEntries p _) as [es|] eqn:Er; [|done]. apply retiredEntries_spec in Er as [_ Hr].
    rewrite elem_of_app, elem_of_cons in Hh. destruct Hh as [Hh|[->|Hh]]; [|by rewrite Ep|];
      (destruct (Hr h) as (e & -> & _); [rewrite elem_of_app; tauto|done|done]). }
  destruct (retiredEntries_ok (primary next) _ Hvalid) as [es Hes].
  destruct (retiredEntries_ok (primary next) ev) as [es' Hes']; [intros h Hh; apply Hvalid, elem_of_app; by left|].
  assert (Hm : NewKeyring k (ev ++ DataKey cfg :: RetiredDataKeysCfg cfg) = Ok (mkKeySet (primary next) es))
    by (unfold NewKeyring; by rewrite Hk, Hes).
  exists (mkKeySet (primary next) es), (mkKeySet (primary next) es'). rewrite app_nil_r.
  apply NewKeyring_spec in Hring as (_ & _ & _ & Hin);
    [|eapply distinct_sub; [|exact Hd]; unfold in_play; intros h; rewrite !elem_of_cons, !elem_of_app, elem_of_cons; tauto].
  pose proof Hm as (_ & Hw & Hu & Hin')%NewKeyring_spec;
    [|eapply distinct_sub; [|exact Hd]; unfold in_play; intros h; rewrite !elem_of_cons, !elem_of_app, elem_of_cons; tauto].
  split_and!; [done|unfold NewKeyring; by rewrite Hk, Hes'|done|done| | |done|done|by eapply newEntry_named].
  - intros e (x & Hx & He)%Hin. apply Hin'. exists x. split; [|done].
    apply elem_of_cons in Hx. rewrite elem_of_app in Hx. rewrite elem_of_cons, elem_of_app, elem_of_cons. tauto.
  - intros e (x & Hx & He)%Hin'. exists x. split; [|done]. unfold in_play.
    rewrite elem_of_cons, elem_of_app, elem_of_cons in Hx. rewrite !elem_of_cons, !elem_of_app, elem_of_cons. unfold ev in Hx. tauto.
Qed.

(** Every credential has the plaintext it had: for the running process, and for
    one started from the file as it is now. *)
Definition kept (w w' : World) : Prop :=
  opened (keyring w') (db w') = opened (keyring w) (db w) /\
  exists s, startKeyring (environ w') (config w') = Ok s /\ opened s (db w') = opened (keyring w) (db w).

(** C7: changing the key loses no credential, whatever fails on the way.  From a
    gateway whose keyring is the one it would start with and which reads all its
    stored credentials, with no two keys of one fingerprint and no value of the
    format that does not name its key opening differently under two of the keys,
    and while nobody else writes a credential: a change -- refused, stopped while
    re-sealing, unable to write the file, or complete -- leaves every credential
    with the plaintext it had, both for the running process and for one started
    from the file as it is then.  And when the change reports success the file
    names the new key alone and nothing stored is left on another. *)
Theorem key_change_loses_nothing loading random f1 f2 rs newKeyHex w w' r :
  opens_its_own -> sha_bytes -> calm rs ->
  unambiguous (db w) (in_play (environ w) (config w) (new_key random newKeyHex)) ->
  startKeyring (environ w) (config w) = Ok (keyring w) -> readable (keyring w) (db w) ->
  distinct_fingerprints (in_play (environ w) (config w) (new_key random newKeyHex)) ->
  Change loading random f1 f2 rs newKeyHex w = (w', r) ->
  kept w w' /\
  (forall c, r = Ok c ->
     config w' = Some (mkConfig (new_key random newKeyHex) []) /\
     forall v, sealed (db w') v -> NeedsRotation (Some (keyring w')) v = false).
Proof.
  intros Ho Hsha Hcalm Hun Hst Hread Hd.
  set (goal := kept w w' /\ _). assert (Hsame : forall e, (w, Err e) = (w', r) -> goal).
  { intros e [= <- <-]. split; [split; [done|eauto]|done]. }
  unfold Change. destruct (eqb (envKey (environ w)) "") eqn:Eenv; cbn [negb]; [|apply Hsame].
  destruct loading; [apply Hsame|]. destruct (config w) as [cfg|] eqn:Ecfg; [|apply Hsame].
  unfold startKeyring, ResolveDataKey in Hst. rewrite Eenv in Hst. cbn [negb] in Hst.
  unfold ResolveDataKey. rewrite Eenv. cbn [negb]. destruct (eqb (DataKey cfg) "") eqn:Ecur; [done|].
  set (k := new_key random newKeyHex) in *.
  destruct (if eqb newKeyHex "" then _ else _) as [newKey|] eqn:Ekey; [|apply Hsame].
  assert (newKey = k) as ->.
  { unfold k, new_key. destruct (eqb newKeyHex ""); [destruct random|]; by simplify_eq. }
  destruct (NewKeyring k []) as [next|] eqn:Enext; [|apply Hsame].
  destruct (eqb (id (primary next)) _); [apply Hsame|].
  destruct (step_keyrings (environ w) cfg k (keyring w) next Hd Ecur Hst Enext)
    as (moving & final & Em & Ef & Hw & Hu & Hin & Hback & Hpf & Hpn & Hkn).
  assert (Ha : forall v raw, sealed (db w) v -> split v = Ok ("", raw) -> agreeing (entries moving) raw)
    by (intros v raw; by apply (unambiguous_agreeing (db w) _ (entries moving) v raw Hun)).
  assert (Hmv : opened moving (db w) = opened (keyring w) (db w)) by (by apply more_keys).
  assert (Hs1 : startKeyring (environ w) (Some (mkConfig k (DataKey cfg :: RetiredDataKeysCfg cfg))) = Ok moving).
  { unfold startKeyring, ResolveDataKey. cbn [DataKey]. by rewrite Eenv, Hkn. }
  assert (Hs2 : startKeyring (environ w) (Some (mkConfig k [])) = Ok final).
  { unfold startKeyring, ResolveDataKey. cbn [DataKey]. by rewrite Eenv, Hkn. }
  assert (Hrm : readable moving (db w)).
  { intros v Hv. specialize (Hread v Hv). destruct (Decrypt (Some (keyring w)) v) as [p|] eqn:Ep; [|done].
    by rewrite (Decrypt_more _ moving _ _ (fun raw => Ha v raw Hv) Hu Hin Ep). }
  destruct f1; cbn [save exec]; [|apply Hsame..|intros [= <- <-]; split; [split; [done|eauto]|done]].
  cbn [environ config keyring db set_ring set_db]. rewrite Em.
  destruct (rotateAll (Some moving) rs (db w)) as [[d n] e] eqn:Er.
  apply rotateAll_spec in Er as [Hop Hdone]; [|done..].
  destruct e as [e|].
  { intros [= <- <-]. split; [split; [by simpl; rewrite Hop|exists moving; by simpl; rewrite Hop]|done]. }
  specialize (Hdone eq_refl).
  assert (Hfin : opened final d = opened (keyring w) (db w)).
  { rewrite <- Hmv, <- Hop. apply opened_ext. intros v Hv.
    pose proof (readable_opened moving (db w) d Hop Hrm v Hv) as Hok.
    destruct (Decrypt (Some moving) v) as [p|] eqn:Ep; [|done]. eapply Decrypt_primary; eauto. }
  destruct f2; cbn [save exec]; cbn [environ config keyring db set_ring set_db].
  - rewrite Ef. intros [= <- <-]. split; [split; [done|by exists final]|]. intros c _. split; [done|]. intros v Hv.
    cbn [keyring set_ring]. specialize (Hdone v Hv). unfold NeedsRotation in *. by rewrite Hpf.
  - intros [= <- <-]. split; [split; [by simpl; rewrite Hop|exists moving; by simpl; rewrite Hop]|done].
  - intros [= <- <-]. split; [split; [by simpl; rewrite Hop|exists moving; by simpl; rewrite Hop]|done].
  - intros [= <- <-]. split; [split; [by simpl; rewrite Hop|by exists final]|done].
Qed.

(** A change that stopped cannot be finished with its own key.  After a
    change to a typed key stopped while re-sealing, asking for the same key
    again is refused as unchanged and moves nothing: the values left on the old
    key stay there until a third key is chosen. *)
Theorem retyped_key_cannot_finish loading random f1 f2 rs k w w' n e random2 g1 g2 rs2 :
  k <> "" -> Change loading random f1 f2 rs k w = (w', Err (RotationStopped n e)) ->
  Change None random2 g1 g2 rs2 k w' = (w', Err ErrDataKeyUnchanged).
Proof.
  intros Hk. unfold Change at 1. destruct (eqb (envKey (environ w)) "") eqn:Eenv; [|done]. cbn [negb].
  destruct loading; [done|]. destruct (config w) as [cfg|]; [|done]. destruct (ResolveDataKey _ _) as [current|]; [|done].
  assert (Ek : eqb k "" = false) by (by apply bool_decide_eq_false). rewrite Ek.
  destruct (NewKeyring k []) as [next|] eqn:En; [|done]. destruct (eqb (id (primary next)) _); [done|].
  destruct f1; cbn [save exec]; try done. cbn [environ].
  destruct (NewKeyring k (RetiredDataKeys _ _)) as [moving|] eqn:Em; [|done].
  destruct (rotateAll _ _ _) as [[d m] [x|]].
  2: { destruct f2; cbn [save exec]; try done. by case_match. }
  intros [= <- <- <-]. unfold Change. cbn [environ config keyring set_ring set_db]. rewrite Eenv. cbn [negb].
  unfold ResolveDataKey. rewrite Eenv. cbn [negb DataKey]. rewrite Ek, En.
  assert (Hp : primary moving = primary next).
  { unfold NewKeyring in En, Em. destruct (newEntry k) as [p|]; [|done]. simpl in En. injection En as <-.
    destruct (retiredEntries p _); [|done]. by injection Em as <-. }
  by rewrite Hp, eqb_refl.
Qed.

(** A rotation writes back what it read.  A provider edited between the
    rotation's read and its update of the row is put back to what it was. *)
Theorem rotation_reverts_a_concurrent_edit s i v v' edited nonces :
  opens_its_own -> sha_bytes -> wf_entry (primary s) -> (forall n, fills (nonces n)) ->
  providerNeeds (Some s) v = true -> providerAgain nonces (Some s) 0 v = Ok v' ->
  let run := mkRun Up (fun _ => Up) nonces (fun _ _ => {[i := edited]}) in
  rotateProviders (Some s) run {[i := v]} = ({[i := v']}, 1, None) /\ openProvider s v' = openProvider s v.
Proof.
  intros Ho Hs Hw Hf Hn Ha run. split; [|by eapply providerAgain_spec].
  unfold rotateProviders, rotateTable, run. cbn [r_list r_updates r_others r_nonces].
  rewrite map_to_list_singleton. cbn [rotateRows]. rewrite Hn. cbn [negb]. rewrite Ha. cbn [exec].
  by rewrite alter_singleton_eq.
Qed.
End Keyring.

(** ** A concrete gateway *)

(** Ciphertexts that name their key, and fingerprints that are its first bytes. *)
Definition demo_sha (k : string) : string := "#" ++ k.
Definition demo_seal (k n p : string) : string := HexEncode k ++ "." ++ p.
Definition demo_open (k n c : string) : option string :=
  match Cut c "."%char with
  | Some (h, p) => if eqb h (HexEncode k) then Some p else None
  | None => None
  end.

Lemma demo_opens : opens_its_own demo_seal demo_open.
Proof.
  intros k n p _. unfold demo_open, demo_seal. change (HexEncode k ++ "." ++ p) with (HexEncode k ++ String "."%char p).
  rewrite Cut_app by (by apply (str_all_ne is_hex), HexEncode_hex). by rewrite eqb_refl.
Qed.

Definition hex64 (c : string) : string := String.concat "" (replicate 64 c).
Definition oldKey : string := hex64 "a".
Definition newKey : string := hex64 "b".
Definition demo_nonce : result string string := Ok "abcdefghijkl".
Definition get_ok {E} (r : result E string) : string := match r with Ok v => v | Err _ => "" end.
Definition ring_of (k : string) (rs : list string) : keySet :=
  match NewKeyring demo_sha k rs with Ok s => s | Err _ => mkKeySet (mkEntry "" "") [] end.
Definition demo_value : string := get_ok (Encrypt demo_seal demo_nonce (Some (ring_of oldKey [])) "smtp password").
Definition demo_db : DB := mkDB {["p1" := (demo_value, None)]} ∅ ∅ ∅ (Some demo_value).
Definition demo_world : World :=
  mkWorld (mkEnviron "" "") (Some (mkConfig oldKey [])) (ring_of oldKey []) demo_db.

Definition good_run {K V} `{Countable K} : Run K V := mkRun Up (fun _ => Up) (fun _ => demo_nonce) (fun _ t => t).
(** The last update, of the SMTP key, is refused. *)
Definition demo_runs (f : fault) : Runs := mkRuns good_run good_run good_run good_run Up f demo_nonce.

Abbreviation change := (Change demo_sha demo_seal demo_open).

Lemma demo_calm f : calm (demo_runs f).
Proof. repeat split; try done; by intros n [= <-] || by intros i n [= <-]. Qed.

Lemma demo_readable : readable demo_open (keyring demo_world) (db demo_world).
Proof.
  intros v [(i & p & Hi & Hv)|[(i & Hi)|[(i & Hi)|[(i & Hi)|Hi]]]]; unfold demo_world, demo_db in Hi;
    cbn [db providers webhooks sent_settings sent_mailboxes smtp_key] in Hi; try (by rewrite lookup_empty in Hi).
  - apply lookup_singleton_Some in Hi as [_ <-]. destruct Hv as [->|?]; [vm_compute; reflexivity|done].
  - injection Hi as <-. vm_compute. reflexivity.
Qed.

(** Every value of the sample names its key. *)
Lemma demo_unambiguous hs : unambiguous demo_sha demo_open (db demo_world) hs.
Proof.
  assert (Hnamed : forall raw, split demo_value <> Ok ("", raw)) by (intros raw H; vm_compute in H; discriminate H).
  intros v raw h h' e e' p p' [(i & q & Hi & Hv)|[(i & Hi)|[(i & Hi)|[(i & Hi)|Hi]]]] Hs; unfold demo_world, demo_db in Hi;
    cbn [db providers webhooks sent_settings sent_mailboxes smtp_key] in Hi; try (by rewrite lookup_empty in Hi).
  - apply lookup_singleton_Some in Hi as [_ <-]. destruct Hv as [->|?]; [by apply Hnamed in Hs|done].
  - injection Hi as <-. by apply Hnamed in Hs.
Qed.

Lemma demo_distinct : distinct_fingerprints demo_sha (in_play (mkEnviron "" "") (Some (mkConfig oldKey [])) newKey).
Proof.
  intros h h' e e' Hh Hh' He He' Hi. unfold in_play in *. simpl in *.
  assert (E : forall x, x ∈ [newKey; oldKey] -> x = newKey \/ x = oldKey) by (intros x; rewrite !elem_of_cons, elem_of_nil; tauto).
  destruct (E h Hh) as [->| ->], (E h' Hh') as [->| ->]; vm_compute in He, He'; injection He as <-; injection He' as <-;
    try reflexivity; vm_compute in Hi; done.
Qed.

(** The change stops at the last store: both credentials are still there. *)
Lemma key_change_loses_nothing_witness :
  let '(w', r) := change None (Err "") Up Up (demo_runs (Refused "disk full")) newKey demo_world in
  r = Err (RotationStopped 1 (Store "disk full")) /\ kept demo_sha demo_open demo_world w'.
Proof.
  destruct (change None (Err "") Up Up (demo_runs (Refused "disk full")) newKey demo_world) as [w' r] eqn:E.
  split; [vm_compute in E; by injection E as _ <-|].
  exact (proj1 (key_change_loses_nothing demo_sha demo_seal demo_open None (Err "") Up Up _ newKey demo_world w' r
    demo_opens ltac:(done) (demo_calm _) (demo_unambiguous _) ltac:(vm_compute; reflexivity) demo_readable demo_distinct E)).
Defined.

Lemma retyped_key_cannot_finish_witness :
  let w' := (change None (Err "") Up Up (demo_runs (Refused "disk full")) newKey demo_world).1 in
  NeedsRotation (Some (keyring w')) demo_value = true /\ smtp_key (db w') = Some demo_value /\
  change None (Err "") Up Up (demo_runs Up) newKey w' = (w', Err ErrDataKeyUnchanged).
Proof.
  intros w'. split; [vm_compute; reflexivity|]. split; [vm_compute; reflexivity|].
  apply (retyped_key_cannot_finish demo_sha demo_seal demo_open None (Err "") Up Up (demo_runs (Refused "disk full"))
    newKey demo_world w' 1 (Store "disk full")); [done|vm_compute; reflexivity].
Defined.

Definition moving : keySet := ring_of newKey [oldKey].
Definition edited : string := get_ok (Encrypt demo_seal demo_nonce (Some moving) "a better password").

Lemma rotation_reverts_a_concurrent_edit_witness :
  let run := mkRun Up (fun _ => Up) (fun _ => demo_nonce) (fun _ _ => {["p1" := (edited, None)]}) in
  exists v', rotateProviders demo_seal demo_open (Some moving) run {["p1" := (demo_value, None)]} = ({["p1" := v']}, 1, None) /\
    Decrypt demo_open (Some moving) v'.1 = Ok "smtp password".
Proof.
  intros run. set (v' := (get_ok (Encrypt demo_seal demo_nonce (Some moving) "smtp password"), @None string)).
  exists v'. split; [|vm_compute; reflexivity].
  refine (proj1 (rotation_reverts_a_concurrent_edit demo_sha demo_seal demo_open moving "p1" (demo_value, None) v'
    (edited, None) (fun _ => demo_nonce) demo_opens _ _ _ _ _));
    [done|vm_compute; reflexivity|by intros _ n [= <-]|vm_compute; reflexivity|vm_compute; reflexivity].
Defined.

End Secrets.
