(* ===== verification/SentCopySettings.v ===== *)
(** * Copies of sent mail: the setting and the mailbox logins

    Models internal/sent_copy: [entities/settings.go], the settings and mailbox
    statements of [repositories/stores/postgres/store.go], [usecases/settings.go]
    and [services/sent_copy_service.go].  The queue of copies and its worker are in
    [SentCopies].

    [gsmail.ParseEmailAddress] is a parameter, and so are the ciphers of [Secrets]
    and what an engine keeps of a time.  A call reads its row and writes it later:
    what other calls do in between is [others]. *)
From S2P Require Import Prelude GoStrings Encoding Calendar Timestamps NetAddr Secrets.
From Stdlib Require Import Ascii.

Module SentCopySettings.
Import GoStrings Encoding Calendar Timestamps NetAddr.
Local Open Scope string_scope.
Local Open Scope Z_scope.

(** ** The setting *)

(** [Mode] is a string in the code and in the table. *)
Definition ModeNone : string := "none".
Definition ModeSharedLogin : string := "shared_login".
Definition ModePerUserLogin : string := "per_user_login".
Definition ModeBccSender : string := "bcc_sender".

Definition DefaultSentFolder : string := "Sent".
Definition DefaultMasterSeparator : string := "*".
Definition DefaultPortSSL : Z := 993.
Definition DefaultPortSTARTTLS : Z := 143.
Definition maxPort : Z := 65535.

Inductive copyError :=
| ErrInvalidMode
| ErrHostRequired
| ErrInvalidHost
| ErrInvalidPort
| ErrMasterRequired
| ErrInvalidFolder
| ErrInvalidSeparator
| ErrAddressRequired
| ErrPasswordRequired
| ErrInvalidCredentials
| ErrEncryptionUnavailable
| ErrMailboxNotFound
| ErrNoEncryptionKey
| EncryptFailed (e : Secrets.secretError)
| DecryptFailed (e : Secrets.secretError)
| Database (e : string).

Record Settings := mkSettings {
  TenantID : string;
  Mode : string;
  IMAPHost : string;
  IMAPPort : Z;
  IMAPUseSSL : bool;
  SentFolder : string;
  MasterUsername : string;
  MasterPassword : string;
  MasterSeparator : string;
  UpdatedAt : Z
}.

(** The zero [time.Time] is 0. *)
Definition Default (tenant : string) : Settings := mkSettings tenant ModeNone "" 0 true "" "" "" "" 0.

Definition UsesIMAP (s : Settings) : bool := eqb (Mode s) ModeSharedLogin || eqb (Mode s) ModePerUserLogin.

Definition Port (s : Settings) : Z :=
  if 0 <? IMAPPort s then IMAPPort s else if IMAPUseSSL s then DefaultPortSSL else DefaultPortSTARTTLS.

Definition Addr (s : Settings) : string := JoinHostPort (IMAPHost s) (FormatInt (Port s)).

Definition Folder (s : Settings) : string := if eqb (SentFolder s) "" then DefaultSentFolder else SentFolder s.

Definition Separator (s : Settings) : string := if eqb (MasterSeparator s) "" then DefaultMasterSeparator else MasterSeparator s.

Definition MasterLogin (s : Settings) (senderLogin : string) : string := senderLogin ++ Separator s ++ MasterUsername s.

Definition Normalise (s : Settings) : Settings :=
  let mode := if eqb (Mode s) "" then ModeNone else Mode s in
  mkSettings (TenantID s) mode (TrimSpace (IMAPHost s)) (IMAPPort s) (IMAPUseSSL s) (TrimSpace (SentFolder s))
    (TrimSpace (MasterUsername s)) (if negb (eqb mode ModeSharedLogin) then "" else MasterPassword s)
    (TrimSpace (MasterSeparator s)) (UpdatedAt s).

(** [strings.ContainsAny]. *)
Definition ContainsAny (s chars : string) : bool := negb (str_all (fun c => negb (in_cutset chars c)) s).

Definition CR : ascii := chr 13.
Definition LF : ascii := chr 10.
Definition TAB : ascii := chr 9.
Definition breaks : string := String CR (String LF "").

Definition hasLineBreak (s : string) : bool := ContainsAny s breaks.

Definition badSeparator (sep : string) : bool :=
  match sep with
  | "" => false
  | String c "" => (code c <=? code " "%char) || (code "~"%char <? code c)
  | _ => true
  end.

Definition Validate (s : Settings) : option copyError :=
  if eqb (Mode s) ModeNone || eqb (Mode s) ModeBccSender then None
  else if negb (UsesIMAP s) then Some ErrInvalidMode
  else if eqb (IMAPHost s) "" then Some ErrHostRequired
  else if ContainsAny (IMAPHost s) (" /:" ++ breaks ++ String TAB "") && negb (ParseIP (IMAPHost s)) then Some ErrInvalidHost
  else if (IMAPPort s <? 0) || (maxPort <? IMAPPort s) then Some ErrInvalidPort
  else if ContainsAny (SentFolder s) breaks then Some ErrInvalidFolder
  else if eqb (Mode s) ModeSharedLogin then
    if eqb (MasterUsername s) "" || eqb (MasterPassword s) "" then Some ErrMasterRequired
    else if hasLineBreak (MasterUsername s) || hasLineBreak (MasterPassword s) then Some ErrInvalidCredentials
    else if badSeparator (MasterSeparator s) then Some ErrInvalidSeparator
    else None
  else None.

(** ** Mailbox logins *)

Record Mailbox := mkMailbox {
  M_TenantID : string;
  M_Address : string;
  M_Username : string;
  M_Password : string;
  M_UpdatedAt : Z
}.

Definition Login (m : Mailbox) : string := if eqb (M_Username m) "" then M_Address m else M_Username m.

Definition NormaliseAddress (address : string) : string := ToLower (TrimSpace address).

Definition ValidateMailbox (m : Mailbox) (requirePassword : bool) : option copyError :=
  if eqb (M_Address m) "" || negb (Contains (M_Address m) "@") then Some ErrAddressRequired
  else if requirePassword && eqb (M_Password m) "" then Some ErrPasswordRequired
  else if hasLineBreak (M_Username m) || hasLineBreak (M_Password m) || hasLineBreak (M_Address m) then Some ErrInvalidCredentials
  else None.

(** ** The tables (0024_sent_copies.sql) *)

Record SettingsRow := mkSettingsRow {
  s_mode : string;
  s_imap_host : string;
  s_imap_port : Z;
  s_imap_use_ssl : bool;
  s_sent_folder : string;
  s_master_username : string;
  s_master_password : string;      (* sealed, or empty *)
  s_master_separator : string;
  s_created_at : Z;
  s_updated_at : Z
}.

Record MailboxRow := mkMailboxRow {
  m_username : string;
  m_password : string;             (* sealed, or empty *)
  m_created_at : Z;
  m_updated_at : Z
}.

Record Tables := mkTables {
  settings : gmap string SettingsRow;
  mailboxes : gmap (string * string) MailboxRow
}.

Definition set_settings (t : gmap string SettingsRow) (d : Tables) : Tables := mkTables t (mailboxes d).
Definition set_mailboxes (t : gmap (string * string) MailboxRow) (d : Tables) : Tables := mkTables (settings d) t.

Definition noTables : Tables := mkTables ∅ ∅.

(** [ORDER BY address]. *)
Definition addressLe (a b : string * MailboxRow) : Prop := String.leb a.1 b.1 = true.
#[local] Instance addressLe_dec a b : Decision (addressLe a b).
Proof. unfold addressLe. apply _. Defined.

Section Store.
Context (ParseEmailAddress : string -> result string string).
Context (Seal : string -> string -> string -> string) (Open_ : string -> string -> string -> option string).
Context (timeColumn : Z -> Z).
(** The store's keyring; nil is [None]. *)
Context (keyring : option Secrets.keySet).

Definition seal (nonce : result string string) (password : string) : result copyError string :=
  if eqb password "" then Ok ""
  else
    match keyring with
    | None => Err ErrNoEncryptionKey
    | Some _ => match Secrets.Encrypt Seal nonce keyring password with Ok v => Ok v | Err e => Err (EncryptFailed e) end
    end.

Definition unseal (stored : string) : result copyError string :=
  if eqb stored "" then Ok ""
  else
    match keyring with
    | None => Err ErrNoEncryptionKey
    | Some _ => match Secrets.Decrypt Open_ keyring stored with Ok p => Ok p | Err e => Err (DecryptFailed e) end
    end.

(** An error of the database, as the store's. *)
Definition dbErr {A} (r : result string A) : result copyError A := match r with Ok a => Ok a | Err e => Err (Database e) end.

Definition scanSettings (tenant : string) (r : SettingsRow) : result copyError Settings :=
  match unseal (s_master_password r) with
  | Err e => Err e
  | Ok p => Ok (mkSettings tenant (s_mode r) (s_imap_host r) (s_imap_port r) (s_imap_use_ssl r) (s_sent_folder r)
                  (s_master_username r) p (s_master_separator r) (s_updated_at r))
  end.

Definition GetSettings (fl : fault) (tenant : string) (d : Tables) : result copyError (option Settings) :=
  match dbErr (query fl (Ok (settings d !! tenant))) with
  | Err e => Err e
  | Ok None => Ok None
  | Ok (Some r) => match scanSettings tenant r with Ok s => Ok (Some s) | Err e => Err e end
  end.

(** save_settings.sql: the row is inserted, or all of it but its creation replaced. *)
Definition save_settings (s : Settings) (sealed : string) (d : Tables) : result string (Tables * unit) :=
  let now := timeColumn (UpdatedAt s) in
  let created := match settings d !! TenantID s with Some r => s_created_at r | None => now end in
  Ok (set_settings (<[TenantID s := mkSettingsRow (Mode s) (IMAPHost s) (IMAPPort s) (IMAPUseSSL s) (SentFolder s)
        (MasterUsername s) sealed (MasterSeparator s) created now]> (settings d)) d, tt).

Definition SaveSettings (nonce : result string string) (fl : fault) (s : Settings) (d : Tables) : Tables * option copyError :=
  match seal nonce (MasterPassword s) with
  | Err e => (d, Some e)
  | Ok sealed =>
      match exec fl (save_settings s sealed) d with
      | (d, Ok _) => (d, None)
      | (d, Err e) => (d, Some (Database e))
      end
  end.

Definition scanMailbox (tenant : string) (r : string * MailboxRow) : result copyError Mailbox :=
  match unseal (m_password r.2) with
  | Err e => Err e
  | Ok p => Ok (mkMailbox tenant r.1 (m_username r.2) p (m_updated_at r.2))
  end.

Fixpoint scanMailboxes (tenant : string) (rows : list (string * MailboxRow)) : result copyError (list Mailbox) :=
  match rows with
  | [] => Ok []
  | r :: rest =>
      match scanMailbox tenant r with
      | Err e => Err e
      | Ok m => match scanMailboxes tenant rest with Ok ms => Ok (m :: ms) | Err e => Err e end
      end
  end.

(** list_mailboxes.sql. *)
Definition mailboxesOf (tenant : string) (d : Tables) : list (string * MailboxRow) :=
  merge_sort addressLe (omap (fun kv => if eqb kv.1.1 tenant then Some (kv.1.2, kv.2) else None) (map_to_list (mailboxes d))).

Definition ListMailboxes (fl : fault) (tenant : string) (d : Tables) : result copyError (list Mailbox) :=
  match dbErr (query fl (Ok (mailboxesOf tenant d))) with
  | Err e => Err e
  | Ok rows => scanMailboxes tenant rows
  end.

Definition GetMailbox (fl : fault) (tenant address : string) (d : Tables) : result copyError (option Mailbox) :=
  match dbErr (query fl (Ok (mailboxes d !! (tenant, address)))) with
  | Err e => Err e
  | Ok None => Ok None
  | Ok (Some r) => match scanMailbox tenant (address, r) with Ok m => Ok (Some m) | Err e => Err e end
  end.

Definition save_mailbox (m : Mailbox) (sealed : string) (d : Tables) : result string (Tables * unit) :=
  let now := timeColumn (M_UpdatedAt m) in
  let k := (M_TenantID m, M_Address m) in
  let created := match mailboxes d !! k with Some r => m_created_at r | None => now end in
  Ok (set_mailboxes (<[k := mkMailboxRow (M_Username m) sealed created now]> (mailboxes d)) d, tt).

Definition SaveMailboxRow (nonce : result string string) (fl : fault) (m : Mailbox) (d : Tables) : Tables * option copyError :=
  match seal nonce (M_Password m) with
  | Err e => (d, Some e)
  | Ok sealed =>
      match exec fl (save_mailbox m sealed) d with
      | (d, Ok _) => (d, None)
      | (d, Err e) => (d, Some (Database e))
      end
  end.

(** delete_mailbox.sql, and whether it removed a row. *)
Definition delete_mailbox (tenant address : string) (d : Tables) : result string (Tables * bool) :=
  Ok (set_mailboxes (delete (tenant, address) (mailboxes d)) d, bool_decide (is_Some (mailboxes d !! (tenant, address)))).

(** ** The use case *)

(** What one call meets. *)
Record CallEnv := mkCallEnv {
  c_read : fault;
  c_others : Tables -> Tables;     (* what others commit between its read and its end *)
  c_nonce : result string string;
  c_now : Z;
  c_write : fault
}.

(** [encryptionAvailable] is whether there is a keyring, as the server wires it. *)
Definition encryptionAvailable : bool := bool_decide (is_Some keyring).

Definition Get (fl : fault) (tenant : string) (d : Tables) : result copyError Settings :=
  match GetSettings fl tenant d with
  | Err e => Err e
  | Ok None => Ok (Default tenant)
  | Ok (Some s) => Ok s
  end.

Definition with_tenant (tenant : string) (s : Settings) : Settings :=
  mkSettings tenant (Mode s) (IMAPHost s) (IMAPPort s) (IMAPUseSSL s) (SentFolder s) (MasterUsername s) (MasterPassword s) (MasterSeparator s) (UpdatedAt s).
Definition with_password (p : string) (s : Settings) : Settings :=
  mkSettings (TenantID s) (Mode s) (IMAPHost s) (IMAPPort s) (IMAPUseSSL s) (SentFolder s) (MasterUsername s) p (MasterSeparator s) (UpdatedAt s).
Definition with_updated (t : Z) (s : Settings) : Settings :=
  mkSettings (TenantID s) (Mode s) (IMAPHost s) (IMAPPort s) (IMAPUseSSL s) (SentFolder s) (MasterUsername s) (MasterPassword s) (MasterSeparator s) t.

(** An empty master password keeps the stored one. *)
Definition keepPassword (fl : fault) (tenant : string) (next : Settings) (d : Tables) : result copyError Settings :=
  if eqb (Mode next) ModeSharedLogin && eqb (MasterPassword next) "" then
    match GetSettings fl tenant d with
    | Err e => Err e
    | Ok (Some current) => Ok (if eqb (Mode current) ModeSharedLogin then with_password (MasterPassword current) next else next)
    | Ok None => Ok next
    end
  else Ok next.

Definition Update (env : CallEnv) (tenant : string) (in_ : Settings) (d : Tables) : Tables * result copyError Settings :=
  match keepPassword (c_read env) tenant (Normalise (with_tenant tenant in_)) d with
  | Err e => (c_others env d, Err e)
  | Ok next =>
      let d := c_others env d in
      match Validate next with
      | Some e => (d, Err e)
      | None =>
          if UsesIMAP next && negb encryptionAvailable then (d, Err ErrEncryptionUnavailable)
          else
            let next := with_updated (c_now env) next in
            match SaveSettings (c_nonce env) (c_write env) next d with
            | (d, Some e) => (d, Err e)
            | (d, None) => (d, Ok next)
            end
      end
  end.

Definition with_m_password (p : string) (m : Mailbox) : Mailbox := mkMailbox (M_TenantID m) (M_Address m) (M_Username m) p (M_UpdatedAt m).
Definition with_m_updated (t : Z) (m : Mailbox) : Mailbox := mkMailbox (M_TenantID m) (M_Address m) (M_Username m) (M_Password m) t.

Definition SaveMailbox (env : CallEnv) (tenant : string) (in_ : Mailbox) (d : Tables) : Tables * result copyError Mailbox :=
  if negb encryptionAvailable then (c_others env d, Err ErrEncryptionUnavailable)
  else
    match ParseEmailAddress (M_Address in_) with
    | Err _ => (c_others env d, Err ErrAddressRequired)
    | Ok address =>
        let next := mkMailbox tenant (NormaliseAddress address) (M_Username in_) (M_Password in_) 0 in
        match GetMailbox (c_read env) tenant (M_Address next) d with
        | Err e => (c_others env d, Err e)
        | Ok current =>
            let d := c_others env d in
            let next := match current with
                        | Some c => if eqb (M_Password next) "" then with_m_password (M_Password c) next else next
                        | None => next
                        end in
            match ValidateMailbox next (match current with None => true | Some _ => false end) with
            | Some e => (d, Err e)
            | None =>
                let next := with_m_updated (c_now env) next in
                match SaveMailboxRow (c_nonce env) (c_write env) next d with
                | (d, Some e) => (d, Err e)
                | (d, None) => (d, Ok next)
                end
            end
        end
    end.

Definition DeleteMailbox (fl : fault) (tenant address : string) (d : Tables) : Tables * option copyError :=
  match exec fl (delete_mailbox tenant (NormaliseAddress address)) d with
  | (d, Err e) => (d, Some (Database e))
  | (d, Ok true) => (d, None)
  | (d, Ok false) => (d, Some ErrMailboxNotFound)
  end.

End Store.

(** ** The service *)

Definition wrap32 (z : Z) : Z := (z + 2 ^ 31) mod 2 ^ 32 - 2 ^ 31.

(** [panmailv1.SentCopySettings]; an enum value is its number. *)
Record SettingsMsg := mkSettingsMsg {
  p_mode : Z;
  p_imap_host : string;
  p_imap_port : Z;
  p_imap_use_ssl : bool;
  p_sent_folder : string;
  p_master_username : string;
  p_master_password : string;
  p_master_password_set : bool;
  p_master_separator : string;
  p_updated_at : string
}.

Record MailboxMsg := mkMailboxMsg {
  q_address : string;
  q_username : string;
  q_password : string;
  q_password_set : bool;
  q_updated_at : string
}.

Definition modeToProto (mode : string) : Z :=
  if eqb mode ModeNone then 1
  else if eqb mode ModeSharedLogin then 2
  else if eqb mode ModePerUserLogin then 3
  else if eqb mode ModeBccSender then 4
  else 0.

(** An unknown number is printed as itself, which no mode is. *)
Definition modeFromProto (m : Z) : string :=
  if m =? 1 then ModeNone
  else if m =? 2 then ModeSharedLogin
  else if m =? 3 then ModePerUserLogin
  else if m =? 4 then ModeBccSender
  else if m =? 0 then ModeNone
  else FormatInt m.

Definition settingsFromProto (m : SettingsMsg) : Settings :=
  mkSettings "" (modeFromProto (p_mode m)) (p_imap_host m) (p_imap_port m) (p_imap_use_ssl m) (p_sent_folder m)
    (p_master_username m) (p_master_password m) (p_master_separator m) 0.

Definition formatRFC3339 (t : Z) : string :=
  formatDay t ++ "T" ++ pad 2 (HourOf t) ++ ":" ++ pad 2 (MinuteOf t) ++ ":" ++ pad 2 (SecondOf t) ++ "Z".

Definition stamp (t : Z) : string := if time_is_zero t then "" else formatRFC3339 t.

Definition settingsToProto (s : Settings) : SettingsMsg :=
  mkSettingsMsg (let m := modeToProto (Mode s) in if m =? 0 then 1 else m) (IMAPHost s) (wrap32 (IMAPPort s)) (IMAPUseSSL s)
    (SentFolder s) (MasterUsername s) "" (negb (eqb (MasterPassword s) "")) (MasterSeparator s) (stamp (UpdatedAt s)).

Definition mailboxToProto (m : Mailbox) : MailboxMsg :=
  mkMailboxMsg (M_Address m) (M_Username m) "" (negb (eqb (M_Password m) "")) (stamp (M_UpdatedAt m)).

Inductive Code := CodeInternal | CodeInvalidArgument | CodeFailedPrecondition | CodeNotFound.

Definition mapError (e : copyError) : Code :=
  match e with
  | ErrEncryptionUnavailable => CodeFailedPrecondition
  | ErrMailboxNotFound => CodeNotFound
  | ErrInvalidMode | ErrHostRequired | ErrInvalidHost | ErrInvalidPort | ErrMasterRequired | ErrInvalidFolder
  | ErrInvalidSeparator | ErrAddressRequired | ErrPasswordRequired | ErrInvalidCredentials => CodeInvalidArgument
  | _ => CodeInternal
  end.

Section Service.
Context (ParseEmailAddress : string -> result string string).
Context (Seal : string -> string -> string -> string) (Open_ : string -> string -> string -> option string).
Context (timeColumn : Z -> Z) (keyring : option Secrets.keySet).

(** The tenant is the one the caller acts in; an absent message is [None]. *)
Definition GetSentCopySettings (fl : fault) (tenant : string) (d : Tables) : result Code (SettingsMsg * bool) :=
  match Get Open_ keyring fl tenant d with
  | Err _ => Err CodeInternal
  | Ok s => Ok (settingsToProto s, encryptionAvailable keyring)
  end.

Definition UpdateSentCopySettings (env : CallEnv) (tenant : string) (in_ : option SettingsMsg) (d : Tables) :
    Tables * result Code SettingsMsg :=
  match in_ with
  | None => (d, Err CodeInvalidArgument)
  | Some m =>
      match Update Seal Open_ timeColumn keyring env tenant (settingsFromProto m) d with
      | (d, Err e) => (d, Err (mapError e))
      | (d, Ok s) => (d, Ok (settingsToProto s))
      end
  end.

Definition ListSentCopyMailboxes (fl : fault) (tenant : string) (d : Tables) : result Code (list MailboxMsg) :=
  match ListMailboxes Open_ keyring fl tenant d with
  | Err _ => Err CodeInternal
  | Ok ms => Ok (mailboxToProto <$> ms)
  end.

Definition SaveSentCopyMailbox (env : CallEnv) (tenant : string) (in_ : option MailboxMsg) (d : Tables) :
    Tables * result Code MailboxMsg :=
  match in_ with
  | None => (d, Err CodeInvalidArgument)
  | Some m =>
      match SaveMailbox ParseEmailAddress Seal Open_ timeColumn keyring env tenant (mkMailbox "" (q_address m) (q_username m) (q_password m) 0) d with
      | (d, Err e) => (d, Err (mapError e))
      | (d, Ok m) => (d, Ok (mailboxToProto m))
      end
  end.

Definition DeleteSentCopyMailbox (fl : fault) (tenant address : string) (d : Tables) : Tables * option Code :=
  match DeleteMailbox fl tenant address d with
  | (d, Some e) => (d, Some (mapError e))
  | (d, None) => (d, None)
  end.

End Service.

(** ** What is stored *)

Section Kept.
Context (SHA256 : string -> string).
Context (Seal : string -> string -> string -> string) (Open_ : string -> string -> string -> option string).
Context (timeColumn : Z -> Z) (ring : Secrets.keySet).
Context (Hopens : Secrets.opens_its_own Seal Open_) (Hsha : Secrets.sha_bytes SHA256) (Hring : Secrets.wf_entry SHA256 (Secrets.primary ring)).

(** A column holding a password: a ciphertext that opens to one. *)
Definition sealedAs (v p : string) : Prop := p <> "" /\ v <> "" /\ Secrets.IsEncrypted v = true /\ Secrets.Decrypt Open_ (Some ring) v = Ok p.

Lemma Encrypt_encrypted nonce s p v : p <> "" -> Secrets.Encrypt Seal nonce (Some s) p = Ok v -> Secrets.IsEncrypted v = true.
Proof.
  intros Hp. unfold Secrets.Encrypt. rewrite (proj2 (eqb_false p "") Hp). destruct nonce as [n|]; [|done]. intros E.
  match type of E with Ok ?x = Ok _ => assert (v = x) as -> by congruence end. clear E.
  unfold Secrets.IsEncrypted, HasPrefix. by rewrite prefix_app, orb_true_r.
Qed.

Lemma seal_inv nonce p v : Secrets.fills nonce -> seal Seal (Some ring) nonce p = Ok v -> p = "" /\ v = "" \/ sealedAs v p.
Proof.
  intros Hf. unfold seal. destruct (eqb p "") eqn:Ep; [apply eqb_true in Ep; intros [= <-]; by left|]. apply eqb_false in Ep.
  destruct (Secrets.Encrypt Seal nonce (Some ring) p) as [v'|] eqn:E; [|done]. intros [= ->]. right.
  pose proof (Secrets.Encrypt_Decrypt SHA256 Seal Open_ nonce ring ring p v Hopens Hsha Hf Hring (Secrets.entryFor_primary ring) E) as [Hd _].
  repeat split; [done| |by eapply Encrypt_encrypted|done]. intros ->. apply Ep. by injection Hd.
Qed.

Lemma unseal_sealed v p : sealedAs v p -> unseal Open_ (Some ring) v = Ok p.
Proof. intros (_ & Hv & _ & Hd). unfold unseal. by rewrite (proj2 (eqb_false v "") Hv), Hd. Qed.

(** A row of the settings: only a shared login has a password, sealed, and its
    fields are those the form accepts. *)
Definition soundSettings (r : SettingsRow) : Prop :=
  exists p, Validate (mkSettings "" (s_mode r) (s_imap_host r) (s_imap_port r) (s_imap_use_ssl r) (s_sent_folder r) (s_master_username r) p (s_master_separator r) 0) = None /\
    (if eqb (s_mode r) ModeSharedLogin then sealedAs (s_master_password r) p else s_master_password r = "").

Definition soundMailbox (k : string * string) (r : MailboxRow) : Prop :=
  NormaliseAddress k.2 = k.2 /\ hasLineBreak k.2 = false /\ exists p, sealedAs (m_password r) p.

Definition sound (d : Tables) : Prop :=
  map_Forall (fun _ r => soundSettings r) (settings d) /\ map_Forall soundMailbox (mailboxes d).

Abbreviation update := (Update Seal Open_ timeColumn (Some ring)).
Abbreviation getSettings := (GetSettings Open_ (Some ring)).

Lemma shared_has_password s : Mode s = ModeSharedLogin -> Validate s = None -> MasterPassword s <> "".
Proof.
  intros Hm Hv Hp. unfold Validate, UsesIMAP in Hv. rewrite Hm, Hp in Hv. rewrite (eqb_refl ModeSharedLogin), (eqb_refl "") in Hv.
  rewrite !orb_true_r in Hv. cbn [orb negb] in Hv. change (eqb ModeSharedLogin ModeNone || eqb ModeSharedLogin ModeBccSender) with false in Hv.
  by repeat case_match.
Qed.

(** The setting a call is about to save: what was asked, its password the one given
    or, for a shared login that gives none, the one stored. *)
Lemma keepPassword_inv fl tenant in_ d next :
  keepPassword Open_ (Some ring) fl tenant (Normalise (with_tenant tenant in_)) d = Ok next ->
  next = with_password (MasterPassword next) (Normalise (with_tenant tenant in_)) /\
  (Mode next <> ModeSharedLogin -> MasterPassword next = "") /\
  (Mode next = ModeSharedLogin -> MasterPassword in_ <> "" -> MasterPassword next = MasterPassword in_) /\
  (Mode next = ModeSharedLogin -> MasterPassword in_ = "" -> MasterPassword next <> "" ->
    exists old, getSettings fl tenant d = Ok (Some old) /\ Mode old = ModeSharedLogin /\ MasterPassword old = MasterPassword next).
Proof.
  unfold keepPassword. set (n := Normalise (with_tenant tenant in_)).
  assert (Hp : MasterPassword n = if negb (eqb (Mode n) ModeSharedLogin) then "" else MasterPassword in_) by done.
  destruct (eqb (Mode n) ModeSharedLogin) eqn:Em; cbn [negb] in Hp.
  2:{ apply eqb_false in Em. intros [= <-]. by repeat split. }
  apply eqb_true in Em. destruct (eqb (MasterPassword n) "") eqn:Ep; cbn [andb].
  2:{ apply eqb_false in Ep. intros [= <-]. repeat split; [done..|]. congruence. }
  apply eqb_true in Ep. destruct (getSettings fl tenant d) as [[old|]|] eqn:Eg; [| |done]; intros [= <-].
  - destruct (eqb (Mode old) ModeSharedLogin) eqn:Eo; [apply eqb_true in Eo|]; repeat split; try (done || congruence).
    intros _ _ _. by exists old.
  - repeat split; (done || congruence).
Qed.

Lemma update_inv env tenant in_ d :
  let '(d', r) := update env tenant in_ d in
  (exists e, r = Err e) /\ d' = c_others env d \/
  exists next sealed, keepPassword Open_ (Some ring) (c_read env) tenant (Normalise (with_tenant tenant in_)) d = Ok next /\
    Validate next = None /\ seal Seal (Some ring) (c_nonce env) (MasterPassword next) = Ok sealed /\
    (d', r) = match exec (c_write env) (save_settings timeColumn (with_updated (c_now env) next) sealed) (c_others env d) with
              | (d1, Ok _) => (d1, Ok (with_updated (c_now env) next))
              | (d1, Err e) => (d1, Err (Database e))
              end.
Proof.
  unfold Update. destruct (keepPassword _ _ _ _ _ _) as [next|e] eqn:Ek; [|left; by eauto].
  destruct (Validate next) as [e|] eqn:Ev; [left; by eauto|]. unfold encryptionAvailable. rewrite bool_decide_true by done. rewrite andb_false_r.
  unfold SaveSettings. cbn [with_updated MasterPassword]. destruct (seal _ _ _ _) as [sealed|e] eqn:Es; [|left; by eauto].
  destruct (exec _ _ _) as [d1 [u|e]] eqn:Ee; right; exists next, sealed; repeat split; try done; by rewrite Ee.
Qed.

Lemma exec_inv {S A} fl (stmt : S -> result string (S * A)) s s' a r : stmt s = Ok (s', a) -> exec fl stmt s = r ->
  (r.1 = s \/ r.1 = s') /\ (forall x, r.2 = Ok x -> r.1 = s' /\ x = a).
Proof. intros Hs <-. unfold exec. rewrite Hs. destruct fl; cbn; naive_solver. Qed.

Lemma update_sound env tenant in_ d : Secrets.fills (c_nonce env) -> sound (c_others env d) -> sound (update env tenant in_ d).1.
Proof.
  intros Hf Ho. pose proof (update_inv env tenant in_ d) as Hi. destruct (update env tenant in_ d) as [d' r]. cbn [fst].
  destruct Hi as [[_ ->]|(next & sealed & Hk & Hv & Hs & Hd)]; [done|].
  destruct (exec _ _ _) as [d1 r1] eqn:Ee in Hd. pose proof (exec_inv _ _ _ _ _ _ eq_refl Ee) as [He _]. cbn [fst] in He.
  assert (d' = d1) as -> by (destruct r1; by injection Hd). destruct He as [->| ->]; [done|]. destruct Ho as [Ho1 Ho2]. split; [|done].
  apply map_Forall_insert_2; [|done]. exists (MasterPassword next). split; [done|]. cbn [s_mode s_master_password with_updated Mode].
  destruct (seal_inv _ _ _ Hf Hs) as [[Hp ->]|Hsealed].
  - destruct (eqb (Mode next) ModeSharedLogin) eqn:Em; [|done]. apply eqb_true in Em. by apply (shared_has_password next) in Hp.
  - destruct (eqb (Mode next) ModeSharedLogin) eqn:Em; [done|]. apply eqb_false in Em. destruct Hsealed as [Hp _].
    by apply keepPassword_inv in Hk as (_ & Hk & _); rewrite (Hk Em) in Hp.
Qed.

(** A setting that was saved reads back as it was answered: the time apart,
    which the engine may round, what Update returned is what the tenant's setting
    now is; it is valid; a shared login has the password given or, when none was
    given, the one stored before; any other mode has none; and nothing else changed. *)
Theorem saved_settings_read_back env tenant in_ d d' s : Secrets.fills (c_nonce env) -> update env tenant in_ d = (d', Ok s) ->
  getSettings Up tenant d' = Ok (Some (with_updated (timeColumn (c_now env)) s)) /\ Validate s = None /\ TenantID s = tenant /\
  (Mode s <> ModeSharedLogin -> MasterPassword s = "") /\
  (Mode s = ModeSharedLogin -> MasterPassword in_ <> "" -> MasterPassword s = MasterPassword in_) /\
  (Mode s = ModeSharedLogin -> MasterPassword in_ = "" ->
    exists old, getSettings (c_read env) tenant d = Ok (Some old) /\ Mode old = ModeSharedLogin /\ MasterPassword s = MasterPassword old) /\
  delete tenant (settings d') = delete tenant (settings (c_others env d)) /\ mailboxes d' = mailboxes (c_others env d).
Proof.
  intros Hf Hu. pose proof (update_inv env tenant in_ d) as Hi. rewrite Hu in Hi.
  destruct Hi as [[[e He] _]|(next & sealed & Hk & Hv & Hs & Hd)]; [done|].
  destruct (exec _ _ _) as [d1 [u|e]] eqn:Ee in Hd; [|done]. injection Hd as -> ->.
  pose proof (exec_inv _ _ _ _ _ _ eq_refl Ee) as [_ He]. destruct (He u eq_refl) as [Hd1 _]. cbn [fst] in Hd1. subst d1.
  apply keepPassword_inv in Hk as (Hn & H1 & H2 & H3). cbn [with_updated MasterPassword Mode TenantID] in *.
  assert (Ht : TenantID next = tenant) by (by rewrite Hn). split_and!; try done.
  - unfold GetSettings, set_settings. cbn [query dbErr settings]. rewrite <- Ht, lookup_insert_eq. unfold scanSettings. cbn [s_master_password].
    destruct (seal_inv _ _ _ Hf Hs) as [[Hp ->]|Hsealed]; [|by rewrite (unseal_sealed _ _ Hsealed)].
    unfold with_updated. by rewrite Hp.
  - intros Hm Hp. pose proof (shared_has_password _ Hm Hv) as Hne. destruct (H3 Hm Hp Hne) as (old & ? & ? & ?). by exists old.
  - cbn [set_settings settings]. rewrite Ht. apply delete_insert_eq.
Qed.

(** *** Mailboxes *)

Context (ParseEmailAddress : string -> result string string).

Abbreviation saveMailbox := (SaveMailbox ParseEmailAddress Seal Open_ timeColumn (Some ring)).

Lemma getMailbox_sound fl tenant address d m : sound d -> GetMailbox Open_ (Some ring) fl tenant address d = Ok (Some m) -> M_Password m <> "".
Proof.
  intros [_ Hm]. unfold GetMailbox, query. destruct fl; [|done..]. cbn [dbErr].
  destruct (mailboxes d !! (tenant, address)) as [r|] eqn:E; [|done]. destruct (Hm _ _ E) as (_ & _ & p & Hp).
  unfold scanMailbox. cbn [fst snd]. rewrite (unseal_sealed _ _ Hp). intros [= <-]. apply Hp.
Qed.

Lemma saveMailbox_sound env tenant in_ d : Secrets.fills (c_nonce env) -> sound d -> sound (c_others env d) -> sound (saveMailbox env tenant in_ d).1.
Proof.
  intros Hf Hd Ho. unfold SaveMailbox. destruct (negb _); [done|]. destruct (ParseEmailAddress (M_Address in_)) as [a|]; [|done]. cbn [M_Address].
  destruct (GetMailbox _ _ _ _ _ _) as [current|e] eqn:Eg; [|done]. set (next := match current with Some _ => _ | None => _ end).
  assert (Hn : M_Address next = NormaliseAddress a) by (by subst next; destruct current as [c|]; [destruct (eqb _ _)|]).
  destruct (ValidateMailbox _ _) as [e|] eqn:Ev; [done|]. unfold SaveMailboxRow. cbn [with_m_updated M_Password].
  destruct (seal _ _ _ _) as [sealed|e] eqn:Es; [|done].
  assert (Hpw : M_Password next <> "").
  { intros Hp. destruct current as [c|].
    - apply (getMailbox_sound _ _ _ _ _ Hd) in Eg. subst next. cbn [M_Password] in Hp. destruct (eqb (M_Password in_) "") eqn:E; [done|by apply eqb_false in E].
    - unfold ValidateMailbox in Ev. rewrite Hp, eqb_refl in Ev. by destruct (_ || _). }
  destruct (exec _ _ _) as [d1 r1] eqn:Ee. pose proof (exec_inv _ _ _ _ _ _ eq_refl Ee) as [He _]. cbn [fst] in He.
  assert (Hs : sound d1).
  { destruct He as [->| ->]; [done|]. destruct Ho as [Ho1 Ho2]. split; [done|]. apply map_Forall_insert_2; [|done].
    destruct (seal_inv _ _ _ Hf Es) as [[? _]|Hsealed]; [done|]. cbn [with_m_updated M_TenantID M_Address snd]. rewrite Hn.
    split; [apply lower_trim_idem|]. split; [|by exists (M_Password next)].
    unfold ValidateMailbox in Ev. destruct (eqb _ _ || _); [done|]. destruct (_ && _); [done|]. rewrite <- Hn.
    destruct (_ || hasLineBreak (M_Address next)) eqn:Eb; [done|]. by apply orb_false_iff in Eb as [_ ?]. }
  by destruct r1.
Qed.

(** The states the tables go through, latest first.  A call read one of them, at
    whatever point before it wrote, and wrote to the latest. *)
Inductive history : list Tables -> Prop :=
| first_state : history [noTables]
| updated h d seen env tenant in_ : history (d :: h) -> seen ∈ d :: h -> Secrets.fills (c_nonce env) -> c_others env seen = d ->
    history ((update env tenant in_ seen).1 :: d :: h)
| saved h d seen env tenant in_ : history (d :: h) -> seen ∈ d :: h -> Secrets.fills (c_nonce env) -> c_others env seen = d ->
    history ((saveMailbox env tenant in_ seen).1 :: d :: h)
| deleted h d fl tenant address : history (d :: h) -> history ((DeleteMailbox fl tenant address d).1 :: d :: h).

(** C19: however the administrators' calls overlap and fail, at every point each
    stored password is a ciphertext that opens to a password, a setting that is not
    a shared login stores none, every setting is one the form accepts, and every
    mailbox is under its address in lower case, without line breaks. *)
Theorem passwords_stay_sealed h d : history h -> d ∈ h -> sound d.
Proof.
  intros Hh. revert d. induction Hh as [|h d seen env tenant in_ _ IH Hs Hf Ho|h d seen env tenant in_ _ IH Hs Hf Ho|h d fl tenant address _ IH];
    intros x Hx; apply elem_of_cons in Hx as [->|Hx]; try by apply IH.
  - by split; apply map_Forall_empty.
  - by apply elem_of_nil in Hx.
  - apply update_sound; [done|]. rewrite Ho. apply IH. by left.
  - apply saveMailbox_sound; [done|by apply IH|]. rewrite Ho. apply IH. by left.
  - destruct (IH d ltac:(by left)) as [H1 H2]. unfold DeleteMailbox. destruct (exec _ _ _) as [d1 r1] eqn:Ee.
    pose proof (exec_inv _ _ _ _ _ _ eq_refl Ee) as [He _]. cbn [fst] in He.
    assert (sound d1) by (destruct He as [->| ->]; split; try done; by apply map_Forall_delete). by destruct r1 as [[]|].
Qed.

End Kept.

(** ** A concrete tenant *)

Definition sampleRing : Secrets.keySet := Secrets.ring_of Secrets.oldKey [].
Definition sampleEnv (d : Tables) (now : Z) : CallEnv := mkCallEnv Up (fun _ => d) Secrets.demo_nonce now Up.
Definition sampleForm (password : string) : Settings :=
  mkSettings "" ModeSharedLogin " imap.example.com " 0 true "" "admin" password "" 0.

Lemma sampleRing_wf : Secrets.wf_entry Secrets.demo_sha (Secrets.primary sampleRing).
Proof. vm_compute. reflexivity. Qed.
Lemma sample_sha : Secrets.sha_bytes Secrets.demo_sha.
Proof. by intros k. Qed.
Lemma sample_fills : Secrets.fills Secrets.demo_nonce.
Proof. by intros n [= <-]. Qed.

Abbreviation sampleUpdate := (Update Secrets.demo_seal Secrets.demo_open (fun t => t) (Some sampleRing)).
Definition sampleTables : Tables := (sampleUpdate (sampleEnv noTables Day) "t1" (sampleForm "secret") noTables).1.

(** A shared login is saved, and then changed without giving its password again. *)
Lemma saved_settings_read_back_witness :
  let r := sampleUpdate (sampleEnv sampleTables (2 * Day)) "t1" (sampleForm "") sampleTables in
  exists s, r.2 = Ok s /\ MasterPassword s = "secret" /\ IMAPHost s = "imap.example.com" /\ GetSettings Secrets.demo_open (Some sampleRing) Up "t1" r.1 = Ok (Some s).
Proof.
  cbv zeta. destruct (sampleUpdate (sampleEnv sampleTables (2 * Day)) "t1" (sampleForm "") sampleTables) as [d' [s|e]] eqn:E.
  - assert (Hp : MasterPassword s = "secret" /\ IMAPHost s = "imap.example.com" /\ with_updated (2 * Day) s = s).
    { assert (Hs : Ok s = (sampleUpdate (sampleEnv sampleTables (2 * Day)) "t1" (sampleForm "") sampleTables).2) by (by rewrite E).
      clear E. vm_compute in Hs. injection Hs as ->. by repeat split. }
    destruct (saved_settings_read_back Secrets.demo_sha Secrets.demo_seal Secrets.demo_open (fun t => t) sampleRing Secrets.demo_opens sample_sha sampleRing_wf
      (sampleEnv sampleTables (2 * Day)) "t1" (sampleForm "") sampleTables d' s sample_fills E) as [Hg _].
    exists s. destruct Hp as (? & ? & Hw). cbn [snd fst]. cbn [sampleEnv c_now] in Hg. rewrite Hw in Hg. by repeat split.
  - exfalso. assert (Hs : @Err copyError Settings e = (sampleUpdate (sampleEnv sampleTables (2 * Day)) "t1" (sampleForm "") sampleTables).2) by (by rewrite E).
    clear E. vm_compute in Hs. discriminate.
Defined.

(** One administrator's update lands while another, who saw the tables empty, saves
    a mailbox. *)
Definition sampleParse (s : string) : result string string := Ok s.
Abbreviation sampleSave := (SaveMailbox sampleParse Secrets.demo_seal Secrets.demo_open (fun t => t) (Some sampleRing)).
Definition sampleBox : Mailbox := mkMailbox "" "Alice@example.com" "" "hers" 0.

Lemma passwords_stay_sealed_witness :
  sound Secrets.demo_open sampleRing (sampleSave (sampleEnv sampleTables Day) "t1" sampleBox noTables).1 /\
  is_Some (mailboxes (sampleSave (sampleEnv sampleTables Day) "t1" sampleBox noTables).1 !! ("t1", "alice@example.com")).
Proof.
  split.
  - apply (passwords_stay_sealed Secrets.demo_sha Secrets.demo_seal Secrets.demo_open (fun t => t) sampleRing Secrets.demo_opens sample_sha sampleRing_wf sampleParse
      [(sampleSave (sampleEnv sampleTables Day) "t1" sampleBox noTables).1; sampleTables; noTables]); [|by left].
    apply saved; [|by right; left|exact sample_fills|reflexivity].
    apply (updated _ _ _ _ _ [] noTables noTables (sampleEnv noTables Day) "t1" (sampleForm "secret")); [apply first_state|by left|exact sample_fills|reflexivity].
  - vm_compute. by eexists.
Defined.

End SentCopySettings.
