(* ===== verification/Webhooks.v ===== *)
(** * Webhook notifications: the delivery queue and its worker

    Models internal/webhook: the entities, the delivery store with the SQL it
    embeds (repositories/stores/postgres/delivery_store.go), the subscriptions
    it reads (store.go), and the worker (worker/durable_worker.go,
    worker/delivery.go).

    The queue is a finite map; a SQL statement is one atomic step, and what
    several gateways do on one database is a list of statements in the order
    they commit ([op], [run]).  On PostgreSQL the claim ranks rows on a
    snapshot and re-checks them under their locks: the snapshot and the rows
    other transactions hold are arguments; on SQLite the snapshot is the
    present state and nothing is locked. *)
From S2P Require Import Prelude GoStrings Encoding.
From Stdlib Require Import Ascii.

Module Webhooks.
Import GoStrings Encoding.
Local Open Scope string_scope.
Local Open Scope Z_scope.

(** ** Data (repositories/entities) *)

Inductive DeliveryStatus :=
| DeliveryStatusPending
| DeliveryStatusDeferred
| DeliveryStatusDelivered
| DeliveryStatusFailed
| DeliveryStatusSending.

#[export] Instance DeliveryStatus_eq_dec : EqDecision DeliveryStatus.
Proof. solve_decision. Defined.

Record WebhookDelivery := mkDelivery {
  ID : string;
  TenantID : string;
  WebhookID : string;
  Event : string;
  Payload : string;
  Status : DeliveryStatus;
  AttemptCount : Z;
  ClaimToken : string;
  NextAttemptAt : Z;
  LastError : string;
  CreatedAt : Z;
  UpdatedAt : Z
}.

Record Webhook := mkWebhook {
  W_ID : string;
  W_TenantID : string;
  W_URL : string;
  W_Events : list Z;
  W_Active : bool;
  W_Secret : string;
  W_CreatedAt : Z
}.

(** A row of [webhook_deliveries], keyed by its id; [None] is SQL NULL. *)
Record Row := mkRow {
  tenant_id : string;
  webhook_id : string;
  event : string;
  payload : string;
  status : DeliveryStatus;
  attempt_count : Z;
  next_attempt_at : Z;
  last_error : string;
  claim_token : option string;
  claimed_until : option Z;
  created_at : Z;
  updated_at : Z
}.

#[export] Instance Row_eq_dec : EqDecision Row.
Proof. solve_decision. Defined.

Abbreviation Queue := (gmap string Row).

(** ** Statements *)

Definition errDuplicate : string := "duplicate key value violates unique constraint".

(** [create_delivery.sql]. *)
Definition insert_delivery (d : WebhookDelivery) (s : Queue) : result string (Queue * unit) :=
  match s !! ID d with
  | Some _ => Err errDuplicate
  | None =>
      Ok (<[ID d := mkRow (TenantID d) (WebhookID d) (Event d) (Payload d) (Status d) (AttemptCount d)
             (NextAttemptAt d) (LastError d) None None (CreatedAt d) (UpdatedAt d)]> s, tt)
  end.

(** The WHERE clause of the claim. *)
Definition due (now : Z) (r : Row) : bool :=
  (next_attempt_at r <=? now) &&
  match status r with
  | DeliveryStatusPending | DeliveryStatusDeferred => true
  | DeliveryStatusSending => match claimed_until r with None => true | Some u => u <? now end
  | DeliveryStatusDelivered | DeliveryStatusFailed => false
  end.

(** [ORDER BY created_at, id]. *)
Definition before (a b : string * Row) : bool :=
  (created_at a.2 <? created_at b.2) || ((created_at a.2 =? created_at b.2) && String.ltb a.1 b.1).

(** [ROW_NUMBER() OVER (PARTITION BY webhook_id ORDER BY created_at, id)] among
    the rows [l]. *)
Definition turn (l : list (string * Row)) (x : string * Row) : nat :=
  S (length (filter (fun y => webhook_id y.2 = webhook_id x.2 /\ before y x = true) l)).

Definition due_rows (now : Z) (s : Queue) : list (string * Row) :=
  filter (fun kv => due now kv.2 = true) (map_to_list s).

(** [ORDER BY turn, created_at]. *)
Definition by_turn (l : list (string * Row)) (a b : string * Row) : Prop :=
  (turn l a < turn l b)%nat \/ (turn l a = turn l b /\ created_at a.2 <= created_at b.2).
#[export] Instance by_turn_dec l : RelDecision (by_turn l).
Proof. intros a b. unfold by_turn. apply _. Defined.

(** The ranked ids, [cap] of a subscription at most, [limit] in all. *)
Definition ranked (now : Z) (cap limit : nat) (s : Queue) : list (string * Row) :=
  let l := due_rows now s in
  take limit (merge_sort (by_turn l) (filter (fun x => (turn l x <= cap)%nat) l)).

Definition claim_row (token : string) (until now : Z) (r : Row) : Row :=
  mkRow (tenant_id r) (webhook_id r) (event r) (payload r) DeliveryStatusSending (attempt_count r) (next_attempt_at r)
    (last_error r) (Some token) (Some until) (created_at r) now.

(** [claim_due_deliveries.sql] and [claim_due_deliveries_pg.sql]. *)
Definition claim_stmt (snap : Queue) (locked : gset string) (token : string) (until now : Z) (limit cap : nat)
    (s : Queue) : Queue :=
  let ids := (ranked now cap limit snap).*1 in
  map_imap (fun id r => Some (if bool_decide (id ∈ ids /\ (id ∉ locked)) && due now r
                              then claim_row token until now r else r)) s.

(** The copy a claimed row is scanned into. *)
Definition scan (token : string) (kv : string * Row) : WebhookDelivery :=
  let r := kv.2 in
  mkDelivery kv.1 (tenant_id r) (webhook_id r) (event r) (payload r) (status r) (attempt_count r) token
    (next_attempt_at r) (last_error r) (created_at r) (updated_at r).

Definition by_created (a b : string * Row) : Prop := created_at a.2 <= created_at b.2.
#[export] Instance by_created_dec : RelDecision by_created.
Proof. intros a b. unfold by_created. apply _. Defined.

(** [list_claimed_deliveries.sql]. *)
Definition list_claimed (token : string) (s : Queue) : list WebhookDelivery :=
  scan token <$> merge_sort by_created (filter (fun kv => claim_token kv.2 = Some token) (map_to_list s)).

(** [update_delivery.sql], with the rows affected. *)
Definition settle_row (d : WebhookDelivery) (now : Z) (r : Row) : Row :=
  mkRow (tenant_id r) (webhook_id r) (event r) (payload r) (Status d) (AttemptCount d) (NextAttemptAt d) (LastError d)
    None None (created_at r) now.

Definition update_stmt (d : WebhookDelivery) (now : Z) (s : Queue) : Queue * Z :=
  match s !! ID d with
  | Some r => if bool_decide (claim_token r = Some (ClaimToken d))
              then (<[ID d := settle_row d now r]> s, 1) else (s, 0)
  | None => (s, 0)
  end.

(** [defer_subscription_deliveries.sql]. *)
Definition defer_row (until now : Z) (r : Row) : Row :=
  mkRow (tenant_id r) (webhook_id r) (event r) (payload r) (status r) (attempt_count r) until (last_error r)
    (claim_token r) (claimed_until r) (created_at r) now.

Definition deferrable (webhook : string) (until : Z) (r : Row) : bool :=
  bool_decide (webhook_id r = webhook) &&
  bool_decide (status r = DeliveryStatusPending \/ status r = DeliveryStatusDeferred) && (next_attempt_at r <? until).

Definition defer_stmt (webhook : string) (until now : Z) (s : Queue) : Queue :=
  (fun r => if deferrable webhook until r then defer_row until now r else r) <$> s.

Definition finished (r : Row) : bool :=
  bool_decide (status r = DeliveryStatusDelivered \/ status r = DeliveryStatusFailed).

(** [prune_terminal_deliveries.sql]. *)
Definition prune_stmt (cutoff : Z) (s : Queue) : Queue :=
  filter (fun kv => finished kv.2 && (updated_at kv.2 <? cutoff) = false) s.

(** [delivery_stats.sql]. *)
Definition stats_stmt (s : Queue) : Z * option Z :=
  let rows := filter (fun r => finished r = false) (map_to_list s).*2 in
  (Z.of_nat (length rows), match map created_at rows with [] => None | t :: ts => Some (foldr Z.min t ts) end).

(** ** The store's methods *)

Inductive updateError :=
| ErrClaimLost
| StoreFailed (e : string).

Definition Create (f : fault) (now : Z) (d : WebhookDelivery) (s : Queue) : Queue * result string unit :=
  let d :=
    mkDelivery (ID d) (TenantID d) (WebhookID d) (Event d) (Payload d) (Status d) (AttemptCount d) (ClaimToken d)
      (if time_is_zero (NextAttemptAt d) then now else NextAttemptAt d) (LastError d)
      (if time_is_zero (CreatedAt d) then now else CreatedAt d) now in
  exec f (insert_delivery d) s.

(** [ClaimDue]; [mid] is what others commit between the two statements. *)
Definition ClaimDue (f1 f2 : fault) (mid : Queue -> Queue) (snap : Queue) (locked : gset string) (now : Z) (token : string)
    (limit perSubscription : nat) (leaseFor : Z) (s : Queue) : Queue * result string (list WebhookDelivery) :=
  let cap := Nat.max 1 perSubscription in
  match exec f1 (fun s => Ok (claim_stmt snap locked token (time_add now leaseFor) now limit cap s, tt)) s with
  | (s1, Err e) => (s1, Err e)
  | (s1, Ok _) => exec f2 (fun s => Ok (s, list_claimed token s)) (mid s1)
  end.

Definition Update (f : fault) (now : Z) (d : WebhookDelivery) (s : Queue) : Queue * result updateError unit :=
  if eqb (ClaimToken d) "" then (s, Err ErrClaimLost)
  else
    match exec f (fun s => Ok (update_stmt d now s)) s with
    | (s', Err e) => (s', Err (StoreFailed e))
    | (s', Ok updated) => if updated =? 0 then (s', Err ErrClaimLost) else (s', Ok tt)
    end.

Definition DeferSubscription (f : fault) (now : Z) (webhook : string) (until : Z) (s : Queue) : Queue * result string unit :=
  exec f (fun s => Ok (defer_stmt webhook until now s, tt)) s.

Definition Delete (f : fault) (id : string) (s : Queue) : Queue * result string unit :=
  exec f (fun s => Ok (delete id s, tt)) s.

Definition PruneTerminal (f : fault) (olderThan : Z) (s : Queue) : Queue * result string Z :=
  exec f (fun s => Ok (prune_stmt olderThan s, Z.of_nat (size s) - Z.of_nat (size (prune_stmt olderThan s)))) s.

(** [Stats]; an empty queue's oldest is the zero time. *)
Definition Stats (f : fault) (s : Queue) : result string (Z * Z) :=
  match snd (exec f (fun s => Ok (s, stats_stmt s)) s) with
  | Ok (n, oldest) => Ok (n, default 0 oldest)
  | Err e => Err e
  end.

(** ** Subscriptions (store.go) *)

Abbreviation Subscriptions := (gmap string Webhook).

(** [GetByID] of the subscriptions: no row is [Ok None]; a secret that does not
    decrypt is an error like any other. *)
Definition GetSubscription (f : fault) (tenant id : string) (w : Subscriptions) : result string (option Webhook) :=
  match f with
  | Up => Ok (match w !! id with
              | Some x => if eqb (W_TenantID x) tenant then Some x else None
              | None => None
              end)
  | Down => Err errNotConnected
  | Refused e | Lost e => Err e
  end.

Definition newest_first (a b : Webhook) : Prop := W_CreatedAt b <= W_CreatedAt a.
#[export] Instance newest_first_dec : RelDecision newest_first.
Proof. intros a b. unfold newest_first. apply _. Defined.

(** [ListActiveByEvent]. *)
Definition ListActiveByEvent (f : fault) (tenant : string) (ev : Z) (w : Subscriptions) : result string (list Webhook) :=
  match f with
  | Up => Ok (filter (fun x => W_Active x = true /\ ev ∈ W_Events x)
                (merge_sort newest_first (filter (fun x => W_TenantID x = tenant) (map_to_list w).*2)))
  | Down => Err errNotConnected
  | Refused e | Lost e => Err e
  end.

(** ** A fair claim *)

Lemma ltb_le a b : String.ltb a b = true <-> String.le a b /\ a <> b.
Proof.
  unfold String.le, String.leb, String.ltb. pose proof (String.compare_eq_iff a b) as He.
  assert (Hr : String.compare a a = Eq).
  { pose proof (String.compare_antisym a a) as H. by destruct (String.compare a a). }
  destruct (String.compare a b) eqn:E; split; try done.
  - by intros [_ Hn]; destruct Hn; apply He.
  - intros _. split; [done|]. intros <-. congruence.
  - by intros [? _].
Qed.

Lemma before_trans x y z : before x y = true -> before y z = true -> before x z = true.
Proof.
  unfold before. rewrite !orb_true_iff, !andb_true_iff, !Z.ltb_lt, !Z.eqb_eq, !ltb_le.
  intros [?|[? [? ?]]] [?|[? [? ?]]]; try (left; lia). right. split; [lia|]. split; [by transitivity (y.1)|].
  intros E. rewrite <- E in *. assert (x.1 = y.1); [|done]. by apply (anti_symm String.le).
Qed.

Lemma before_irrefl x : before x x = false.
Proof.
  destruct (before x x) eqn:E; [|done]. unfold before in E.
  rewrite orb_true_iff, andb_true_iff, Z.ltb_lt, Z.eqb_eq, ltb_le in E. destruct E as [?|[_ [_ ?]]]; [lia|done].
Qed.

Lemma before_total x y : x.1 <> y.1 -> before x y = true \/ before y x = true.
Proof.
  intros Hne. unfold before. rewrite !orb_true_iff, !andb_true_iff, !Z.ltb_lt, !Z.eqb_eq, !ltb_le.
  destruct (Z.lt_total (created_at x.2) (created_at y.2)) as [?|[?|?]]; [left; by left| |right; by left].
  destruct (total String.le x.1 y.1) as [?|?]; [left|right]; right; split; done.
Qed.

(** Turns count up along one subscription's rows. *)
Lemma turn_lt l x y :
  x ∈ l -> webhook_id x.2 = webhook_id y.2 -> before x y = true -> (turn l x < turn l y)%nat.
Proof.
  intros Hx Hw Hb. unfold turn. apply le_n_S.
  assert (Hsub : forall l, (length (filter (fun z => webhook_id z.2 = webhook_id x.2 /\ before z x = true) l)
     <= length (filter (fun z => webhook_id z.2 = webhook_id y.2 /\ before z y = true) l))%nat).
  { clear Hx. induction l0 as [|z l0 IH]; [done|]. rewrite !filter_cons.
    destruct (decide (webhook_id z.2 = webhook_id x.2 /\ before z x = true)) as [[Hz1 Hz2]|Hz].
    - rewrite decide_True by (split; [congruence|by eapply before_trans]). simpl. lia.
    - destruct (decide _); simpl; lia. }
  apply list_elem_of_split in Hx as (l1 & l2 & ->). rewrite !filter_app, !length_app, !filter_cons.
  rewrite (decide_False (P := webhook_id x.2 = webhook_id x.2 /\ _)) by (rewrite before_irrefl; by intros [_ ?]).
  rewrite decide_True by done. simpl. pose proof (Hsub l1). pose proof (Hsub l2). lia.
Qed.

Lemma turn_inj l x y :
  x ∈ l -> y ∈ l -> webhook_id x.2 = webhook_id y.2 -> turn l x = turn l y -> x.1 = y.1.
Proof.
  intros Hx Hy Hw Ht. destruct (decide (x.1 = y.1)) as [|Hne]; [done|]. exfalso.
  destruct (before_total x y Hne) as [Hb|Hb]; [pose proof (turn_lt l x y Hx Hw Hb)|pose proof (turn_lt l y x Hy (eq_sym Hw) Hb)]; lia.
Qed.

#[local] Instance by_turn_total l : Total (by_turn l).
Proof. intros a b. unfold by_turn. destruct (Nat.lt_total (turn l a) (turn l b)) as [?|[?|?]]; lia. Qed.
#[local] Instance by_turn_trans l : Transitive (by_turn l).
Proof. intros a b c. unfold by_turn. lia. Qed.

Lemma elem_of_due_rows now s id r : (id, r) ∈ due_rows now s <-> s !! id = Some r /\ due now r = true.
Proof. unfold due_rows. rewrite list_elem_of_filter, elem_of_map_to_list. tauto. Qed.

Lemma due_turns_NoDup now s : NoDup (due_rows now s).
Proof. apply NoDup_filter, NoDup_map_to_list. Qed.

(** What is left out of the batch comes after everything in it. *)
Lemma take_sorted_rest {A} (R : A -> A -> Prop) `{!Transitive R} n (l : list A) y :
  Sorted R l -> y ∈ l -> (y ∉ take n l) -> length (take n l) = n /\ forall x, x ∈ take n l -> R x y.
Proof.
  intros Hs Hy Hn. rewrite <- (take_drop n l) in Hy. apply elem_of_app in Hy as [?|Hy]; [done|]. split.
  - rewrite length_take. destruct (decide (length l <= n)%nat); [|lia].
    rewrite drop_ge in Hy by done. by apply elem_of_nil in Hy.
  - intros x Hx. apply Sorted_StronglySorted in Hs; [|done]. by eapply strongly_sorted_take_drop.
Qed.

Lemma ranked_in now cap limit s x :
  x ∈ ranked now cap limit s -> x ∈ due_rows now s /\ (turn (due_rows now s) x <= cap)%nat.
Proof.
  intros Hx%(subseteq_take limit). rewrite merge_sort_Permutation in Hx. apply list_elem_of_filter in Hx. tauto.
Qed.

Lemma ranked_rest now cap limit s y :
  y ∈ due_rows now s -> (turn (due_rows now s) y <= cap)%nat -> (y ∉ ranked now cap limit s) ->
  length (ranked now cap limit s) = limit /\
  forall x, x ∈ ranked now cap limit s -> (turn (due_rows now s) x <= turn (due_rows now s) y)%nat.
Proof.
  intros Hy Hc Hn. set (l := due_rows now s) in *.
  destruct (take_sorted_rest (by_turn l) limit (merge_sort (by_turn l) (filter (fun x => (turn l x <= cap)%nat) l)) y)
    as [Hl Hr]; [apply (Sorted_merge_sort _)|rewrite merge_sort_Permutation; apply list_elem_of_filter; done|done|].
  split; [done|]. intros x Hx. apply Hr in Hx. unfold by_turn in Hx. lia.
Qed.

Lemma ranked_NoDup now cap limit s : NoDup (ranked now cap limit s).*1.
Proof.
  apply (NoDup_fst_sub s).
  - unfold ranked. eapply sublist_NoDup; [|apply sublist_take]. rewrite merge_sort_Permutation. apply NoDup_filter, due_turns_NoDup.
  - intros id r Hx. apply ranked_in in Hx as [Hx _]. by apply elem_of_due_rows in Hx as [? _].
Qed.

(** Distinct numbers between one and [n] are at most [n]. *)
Lemma bounded_NoDup (l : list nat) n : NoDup l -> (forall x, x ∈ l -> (1 <= x <= n)%nat) -> (length l <= n)%nat.
Proof.
  intros Hnd Hb. rewrite <- (length_seq n 1). apply submseteq_length, NoDup_submseteq; [done|].
  intros x Hx. apply elem_of_seq. specialize (Hb x Hx). lia.
Qed.

Lemma share_bounded now cap limit s w :
  (length (filter (fun x => webhook_id x.2 = w) (ranked now cap limit s)) <= cap)%nat.
Proof.
  set (l := due_rows now s). rewrite <- (length_fmap (turn l)). apply bounded_NoDup.
  - pose proof (ranked_NoDup now cap limit s) as Hnd.
    assert (Hin : forall x, x ∈ ranked now cap limit s -> x ∈ l) by (intros x Hx; by apply ranked_in in Hx as [? _]).
    revert Hnd Hin. induction (ranked now cap limit s) as [|x r IH]; intros Hnd Hin; [constructor|].
    cbn in Hnd. apply NoDup_cons in Hnd as [Hx Hnd]. rewrite filter_cons. destruct (decide _) as [Hw|]; [|apply IH; [done|]; intros; apply Hin; by right].
    cbn. apply NoDup_cons. split; [|apply IH; [done|]; intros; apply Hin; by right].
    intros (y & Hy & [Hyw Hyr]%list_elem_of_filter)%list_elem_of_fmap. apply Hx.
    assert (E : x.1 = y.1) by (eapply (turn_inj l); [apply Hin; by left|apply Hin; by right|congruence|done]).
    rewrite E. by apply list_elem_of_fmap_2.
  - intros t (x & -> & [_ Hx]%list_elem_of_filter)%list_elem_of_fmap. apply ranked_in in Hx as [_ Hx].
    fold l in Hx. split; [unfold turn|]; lia.
Qed.

Definition token_fresh (token : string) (s : Queue) : Prop :=
  forall id r, s !! id = Some r -> claim_token r <> Some token.

Definition claimed_copy (token : string) (until now : Z) (x : string * Row) : WebhookDelivery :=
  scan token (x.1, claim_row token until now x.2).

Lemma claim_turn_lookup snap locked token until now limit cap s id :
  claim_stmt snap locked token until now limit cap s !! id =
  (fun r => if bool_decide (id ∈ (ranked now cap limit snap).*1 /\ (id ∉ locked)) && due now r
            then claim_row token until now r else r) <$> s !! id.
Proof. unfold claim_stmt. rewrite map_lookup_imap. by destruct (s !! id). Qed.

(** An undisturbed claim returns exactly the ranked rows. *)
Lemma claimed_ranked token until now limit cap s :
  token_fresh token s ->
  list_claimed token (claim_stmt s ∅ token until now limit cap s) ≡ₚ
  claimed_copy token until now <$> ranked now cap limit s.
Proof.
  intros Hf. set (f := fun x : string * Row => (x.1, claim_row token until now x.2)).
  transitivity (scan token <$> (f <$> ranked now cap limit s)); [|by rewrite <- list_fmap_compose].
  unfold list_claimed. apply fmap_Permutation.
  rewrite merge_sort_Permutation. apply NoDup_Permutation.
  - apply NoDup_filter, NoDup_map_to_list.
  - apply NoDup_fmap_1 with (f := fst). rewrite <- list_fmap_compose. apply (ranked_NoDup now cap limit s).
  - intros [id r]. rewrite list_elem_of_filter, elem_of_map_to_list, claim_turn_lookup. rewrite (list_elem_of_fmap f).
    simpl. split.
    + intros [Ht Hl]. destruct (s !! id) as [r0|] eqn:E; [|done]. simpl in Hl. injection Hl as <-.
      case_bool_decide as Hc; [|by destruct (Hf id r0 E)]. destruct (due now r0) eqn:Ed; [|by destruct (Hf id r0 E)].
      simpl in *. destruct Hc as [Hin _]. apply list_elem_of_fmap in Hin as ([i q] & -> & Hq). exists (i, q). simpl. split; [|done].
      apply ranked_in in Hq as [Hq _]. apply elem_of_due_rows in Hq as [Hq _]. simpl in *. by simplify_eq.
    + intros ([i q] & [= -> ->] & Hq). pose proof Hq as [Hd _]%ranked_in. apply elem_of_due_rows in Hd as [Hs Hd].
      simpl. rewrite Hs. simpl. rewrite bool_decide_eq_true_2, Hd; [done|].
      split; [|set_solver]. by apply (list_elem_of_fmap_2 fst) in Hq.
Qed.

(** The subscriptions with something due. *)
Definition due_subscriptions (now : Z) (s : Queue) : gset string := list_to_set ((fun x => webhook_id x.2) <$> due_rows now s).

Lemma oldest_is_ranked now cap limit s y :
  y ∈ due_rows now s -> turn (due_rows now s) y = 1%nat -> (1 <= cap)%nat ->
  (size (due_subscriptions now s) <= limit)%nat -> y ∈ ranked now cap limit s.
Proof.
  intros Hy Ht Hc Hs. destruct (decide (y ∈ ranked now cap limit s)) as [|Hn]; [done|exfalso].
  destruct (ranked_rest now cap limit s y Hy ltac:(lia) Hn) as [Hl Hr]. set (l := due_rows now s) in *.
  set (ws := (fun x => webhook_id x.2) <$> y :: ranked now cap limit s).
  assert (Hturn : forall x, x ∈ ranked now cap limit s -> x ∈ l /\ turn l x = 1%nat).
  { intros x Hx. pose proof (Hr x Hx). apply ranked_in in Hx as [Hx _]. split; [done|]. unfold turn in *. lia. }
  assert (Hnd : NoDup ws).
  { unfold ws. apply NoDup_fmap_2_strong.
    - intros a b Ha Hb Hw.
      assert (E : forall x, x ∈ y :: ranked now cap limit s -> x ∈ l /\ turn l x = 1%nat).
      { intros x [->|Hx]%elem_of_cons; [done|by apply Hturn]. }
      destruct (E a Ha) as [Ha1 Ha2], (E b Hb) as [Hb1 Hb2].
      pose proof (turn_inj l a b Ha1 Hb1 Hw ltac:(congruence)) as Hid.
      destruct a as [i ra], b as [j rb]. simpl in Hid. subst j. f_equal.
      apply elem_of_due_rows in Ha1 as [? _], Hb1 as [? _]. congruence.
    - apply NoDup_cons. split; [done|]. eapply NoDup_fmap_1, ranked_NoDup. }
  assert (Hsub : list_to_set ws ⊆@{gset string} due_subscriptions now s).
  { intros w Hw. apply elem_of_list_to_set, list_elem_of_fmap in Hw as (x & -> & Hx).
    apply elem_of_list_to_set, (list_elem_of_fmap_2 (fun x => webhook_id x.2)).
    apply elem_of_cons in Hx as [->|Hx]; [done|by apply Hturn]. }
  apply subseteq_size in Hsub. rewrite size_list_to_set in Hsub by done. unfold ws in Hsub.
  rewrite length_fmap in Hsub. simpl in Hsub. lia.
Qed.

(** A claim is fair.  An undisturbed claim takes due notifications only, no
    more than the limit and no more than the cap of any one subscription; the
    batch is filled round by round -- a notification left out although within
    its subscription's cap means a full batch of rows whose turn is no later --
    and when no more subscriptions have something due than the batch holds,
    every one of them has its oldest notification claimed. *)
Theorem claim_is_fair now token limit per leaseFor s s' ds :
  token_fresh token s ->
  ClaimDue Up Up (fun s => s) s ∅ now token limit per leaseFor s = (s', Ok ds) ->
  let cap := Nat.max 1 per in let l := due_rows now s in
  NoDup (ID <$> ds) /\ (length ds <= limit)%nat /\
  (forall w, (length (filter (fun d => WebhookID d = w) ds) <= cap)%nat) /\
  (forall d, d ∈ ds -> exists r, s !! ID d = Some r /\ due now r = true) /\
  (forall id r, (id, r) ∈ l -> (turn l (id, r) <= cap)%nat -> (id ∉ ID <$> ds) ->
     length ds = limit /\ forall d q, d ∈ ds -> s !! ID d = Some q -> (turn l (ID d, q) <= turn l (id, r))%nat) /\
  (forall id r, (id, r) ∈ l -> turn l (id, r) = 1%nat -> (size (due_subscriptions now s) <= limit)%nat ->
     id ∈ ID <$> ds).
Proof.
  intros Hf Hc cap l. unfold ClaimDue in Hc. cbn [exec] in Hc. injection Hc as <- <-.
  pose proof (claimed_ranked token (time_add now leaseFor) now limit cap s Hf) as Hp. fold cap in Hp |- *.
  set (ds := list_claimed _ _) in *. set (rk := ranked now cap limit s) in *.
  assert (Hids : ID <$> ds ≡ₚ rk.*1) by (rewrite Hp, <- list_fmap_compose; done).
  assert (Hin : forall d, d ∈ ds -> exists r, (ID d, r) ∈ rk /\ s !! ID d = Some r /\ due now r = true).
  { intros d Hd. rewrite Hp in Hd. apply list_elem_of_fmap in Hd as ([i r] & -> & Hr). exists r. simpl. split; [done|].
    apply ranked_in in Hr as [Hr _]. by apply elem_of_due_rows in Hr. }
  assert (Hlen : length ds = length rk) by (rewrite Hp; apply length_fmap).
  split_and!.
  - rewrite Hids. apply ranked_NoDup.
  - rewrite Hlen. apply firstn_le_length.
  - intros w. rewrite Hp. transitivity (length (filter (fun x => webhook_id x.2 = w) rk)); [|apply share_bounded].
    clear. induction rk as [|x rk IH]; [done|]. rewrite fmap_cons, !filter_cons. simpl. destruct (decide _); simpl; lia.
  - intros d Hd. destruct (Hin d Hd) as (r & _ & ? & ?). eauto.
  - intros id r Hl Ht Hn. destruct (ranked_rest now cap limit s (id, r) Hl Ht) as [Hfull Hr].
    { intros Hr. apply Hn. rewrite Hids. by apply (list_elem_of_fmap_2 fst) in Hr. }
    split; [by rewrite Hlen|]. intros d q Hd Hq. destruct (Hin d Hd) as (q' & Hq' & Hs & _).
    rewrite Hs in Hq. injection Hq as <-. by apply Hr.
  - intros id r Hl Ht Hsz. rewrite Hids. apply (list_elem_of_fmap_2 fst _ (id, r)).
    apply oldest_is_ranked; [done|done|lia|done].
Qed.

(** ** Several gateways on one queue *)

Inductive op :=
| OCreate (d : WebhookDelivery)
| OClaim (snap : Queue) (locked : gset string) (token : string) (until now : Z) (limit cap : nat)
| OUpdate (d : WebhookDelivery) (now : Z)
| ODefer (webhook : string) (until now : Z)
| OPrune (cutoff : Z)
| ODelete (id : string).

Definition step (o : op) (s : Queue) : Queue :=
  match o with
  | OCreate d => match insert_delivery d s with Ok (s', _) => s' | Err _ => s end
  | OClaim snap locked token until now limit cap => claim_stmt snap locked token until now limit cap s
  | OUpdate d now => (update_stmt d now s).1
  | ODefer webhook until now => defer_stmt webhook until now s
  | OPrune cutoff => prune_stmt cutoff s
  | ODelete id => delete id s
  end.

Definition run (os : list op) (s : Queue) : Queue := foldl (fun s o => step o s) s os.

(** The row is claimed under [token] until [until]. *)
Definition owned (id token : string) (until : Z) (s : Queue) : Prop :=
  exists r, s !! id = Some r /\ status r = DeliveryStatusSending /\ claim_token r = Some token /\ claimed_until r = Some until.

(** What another gateway does before [t]: it claims under tokens of its own, no
    later than [t], and settles what it claimed.  Nothing deletes by id. *)
Definition elsewhere (id token : string) (t : Z) (o : op) : Prop :=
  match o with
  | OClaim _ _ token' _ now _ _ => token' <> token /\ now <= t
  | OUpdate d _ => ClaimToken d <> token
  | ODelete id' => id' <> id
  | _ => True
  end.

Lemma owned_step id token until t o s :
  t <= until -> elsewhere id token t o -> owned id token until s -> owned id token until (step o s).
Proof.
  intros Ht Ho (r & Hr & Hst & Htok & Hu). destruct o as [d|snap locked token' until' now limit cap|d now|w u now|cutoff|id']; simpl in *.
  - unfold insert_delivery. destruct (s !! ID d) eqn:E; [by exists r|]. exists r.
    rewrite lookup_insert_ne; [done|]. intros E'. rewrite E' in E. congruence.
  - exists r. rewrite claim_turn_lookup, Hr. simpl.
    assert (Hd : due now r = false). { unfold due. rewrite Hst, Hu. apply andb_false_iff. right. apply Z.ltb_ge. lia. }
    by rewrite Hd, andb_false_r.
  - unfold update_stmt. destruct (s !! ID d) as [q|] eqn:E; [|by exists r]. case_bool_decide as Hc; [|by exists r].
    exists r. simpl. rewrite lookup_insert_ne; [done|]. intros E'. rewrite E' in E. congruence.
  - exists r. unfold defer_stmt. rewrite lookup_fmap, Hr. simpl. unfold deferrable. rewrite Hst.
    by rewrite (bool_decide_eq_false_2 (_ \/ _)), andb_false_r by (by intros [|]).
  - exists r. unfold prune_stmt. split; [|done]. apply map_lookup_filter_Some. split; [done|]. simpl.
    unfold finished. rewrite Hst. by rewrite bool_decide_eq_false_2 by (by intros [|]).
  - exists r. by rewrite lookup_delete_ne.
Qed.

Lemma owned_run id token until t os s :
  t <= until -> Forall (elsewhere id token t) os -> owned id token until s -> owned id token until (run os s).
Proof.
  intros Ht. revert s. induction os as [|o os IH]; intros s Hos Hs; [done|]. apply Forall_cons in Hos as [Ho Hos].
  simpl. apply IH; [done|]. by eapply owned_step.
Qed.

Lemma owned_not_claimed id token until token' s :
  owned id token until s -> token' <> token -> id ∉ ID <$> list_claimed token' s.
Proof.
  intros (r & Hr & _ & Ht & _) Hne. unfold list_claimed. rewrite <- list_fmap_compose.
  intros ([i q] & Hi & Hq)%list_elem_of_fmap. simpl in Hi. subst i. rewrite merge_sort_Permutation in Hq.
  apply list_elem_of_filter in Hq as [Hq1 Hq2]. apply elem_of_map_to_list in Hq2. simpl in *. congruence.
Qed.

Lemma claimed_owned snap locked token until now limit cap s d :
  token_fresh token s -> d ∈ list_claimed token (claim_stmt snap locked token until now limit cap s) ->
  owned (ID d) token until (claim_stmt snap locked token until now limit cap s) /\ ClaimToken d = token.
Proof.
  intros Hf Hd. unfold list_claimed in Hd. apply list_elem_of_fmap in Hd as ([i q] & -> & Hq). simpl. split; [|done].
  rewrite merge_sort_Permutation in Hq. apply list_elem_of_filter in Hq as [Ht Hq]. apply elem_of_map_to_list in Hq. simpl in *.
  exists q. split; [done|]. rewrite claim_turn_lookup in Hq. destruct (s !! i) as [r|] eqn:E; [|done]. simpl in Hq. injection Hq as <-.
  destruct (_ && _); [done|]. by destruct (Hf i r E).
Qed.

(** ** Retries and signatures (worker/delivery.go) *)

Definition retrySchedule : list Z :=
  [10 * Second; 30 * Second; 2 * Minute; 10 * Minute; 30 * Minute; 2 * Hour; 6 * Hour].

Definition nextAttempt (attempt : Z) : option Z :=
  if (attempt <? 1) || (Z.of_nat (length retrySchedule) <? attempt) then None
  else retrySchedule !! Z.to_nat (attempt - 1).

Definition retryable (status : Z) : bool := (status =? 408) || (status =? 429) || (500 <=? status).

(** The request a notification is posted with. *)
Record Post := mkPost {
  P_URL : string;
  P_Event : string;
  P_Delivery : string;
  P_Timestamp : option string;
  P_Signature : option string;
  P_Body : string
}.

Section Worker.
Set Default Proof Using "Type".
(** HMAC-SHA256, the JSON of an envelope, and the names protobuf gives events. *)
Context (HMAC : string -> string -> string).
Context (Marshal : string -> string -> Z -> string -> result string string).
Context (EventName : Z -> string).

(** The text a signature covers. *)
Definition signed_text (timestamp : Z) (body : string) : string := FormatInt timestamp ++ "." ++ body.

Definition sign (secret : string) (timestamp : Z) (body : string) : string :=
  "sha256=" ++ HexEncode (HMAC secret (signed_text timestamp body)).

Definition applySignature (url secret event deliveryID body : string) (now : Z) : Post :=
  if eqb secret "" then mkPost url event deliveryID None None body
  else
    let ts := Unix now in
    mkPost url event deliveryID (Some (FormatInt ts)) (Some (sign secret ts body)) body.

(** ** The worker (worker/durable_worker.go) *)

Record DurableWorker := mkWorker {
  batchSize : nat;
  lease : Z;
  batchBudget : Z;
  perSubscription : nat;
  failureStreak : nat;
  saveReserve : Z;
  timeout : Z;              (* the client's *)
  retention : Z;
  lastPrune : Z
}.

Definition NewDurableWorker : DurableWorker :=
  mkWorker 50 (2 * Minute) Minute 10 2 (10 * Second) (15 * Second) (7 * 24 * Hour) 0.

Definition startWindow (w : DurableWorker) : Z :=
  let window := if timeout w =? 0 then lease w - saveReserve w else lease w - timeout w - saveReserve w in
  Z.min (batchBudget w) window.

Definition with_outcome (st : DeliveryStatus) (attempts next : Z) (err : string) (d : WebhookDelivery) : WebhookDelivery :=
  mkDelivery (ID d) (TenantID d) (WebhookID d) (Event d) (Payload d) st attempts (ClaimToken d) next err (CreatedAt d)
    (UpdatedAt d).

(** [Enqueue].  A subscription's row draws an id and is written on its own; a
    failure is logged.  Whether the loop was woken, with the queue. *)
Definition new_delivery (tenant : string) (ev : Z) (body uuid : string) (sub : Webhook) : WebhookDelivery :=
  mkDelivery uuid tenant (W_ID sub) (EventName ev) body DeliveryStatusPending 0 "" 0 "" 0 0.

Fixpoint enqueueAll (fs : nat -> fault) (uuids : nat -> string) (nows : nat -> Z) (tenant : string) (ev : Z)
    (body : string) (n : nat) (subs : list Webhook) (s : Queue) : Queue :=
  match subs with
  | [] => s
  | sub :: rest =>
      enqueueAll fs uuids nows tenant ev body (S n) rest
        (Create (fs n) (nows n) (new_delivery tenant ev body (uuids n) sub) s).1
  end.

Definition Enqueue (fl : fault) (fs : nat -> fault) (uuids : nat -> string) (now : Z) (nows : nat -> Z)
    (tenant : string) (ev : Z) (data : string) (subs : Subscriptions) (s : Queue) : Queue * bool :=
  match ListActiveByEvent fl tenant ev subs with
  | Err _ => (s, false)
  | Ok [] => (s, false)
  | Ok wanted =>
      match Marshal (EventName ev) tenant (Unix now) data with
      | Err _ => (s, false)
      | Ok body => (enqueueAll fs uuids nows tenant ev body 0 wanted s, true)
      end
  end.

(** What a delivery attempt meets: whether the worker was told to stop and the
    time when it is looked at; the subscription read; how the endpoint answers;
    the times of the signature, of the rescheduling and of the write; what
    others commit meanwhile; and how the write goes. *)
Inductive Answer :=
| Unbuildable (e : string)       (* no request could be made of the URL *)
| Disallowed (e : string)        (* egress.ErrDisallowed *)
| Unreachable (e : string)       (* any other error of the request *)
| Responded (status : Z).

Record Attempt := mkAttempt {
  a_stopped : bool;
  a_checked : Z;
  a_sub : fault;
  a_answer : Answer;
  a_signed : Z;
  a_resched : Z;
  a_mid : Queue -> Queue;
  a_saved : Z;
  a_save : fault
}.

Definition goneReason : string := "the webhook subscription no longer exists".
Definition disabledReason : string := "the webhook subscription is disabled".

(** [finish] and [reschedule]: the delivery as it is saved. *)
Definition finish (st : DeliveryStatus) (reason : string) (d : WebhookDelivery) : WebhookDelivery :=
  with_outcome st (AttemptCount d) (NextAttemptAt d) reason d.

Definition reschedule (now : Z) (reason : string) (d : WebhookDelivery) : WebhookDelivery :=
  match nextAttempt (AttemptCount d) with
  | None => finish DeliveryStatusFailed reason d
  | Some delay => with_outcome DeliveryStatusDeferred (AttemptCount d) (time_add now delay) reason d
  end.

(** The verdict on a delivery whose attempt is already counted, whether the
    endpoint could not be reached, and the request made, if one was. *)
Definition verdict (a : Attempt) (subs : Subscriptions) (d : WebhookDelivery) : WebhookDelivery * bool * option Post :=
  match GetSubscription (a_sub a) (TenantID d) (WebhookID d) subs with
  | Ok None => (finish DeliveryStatusFailed goneReason d, false, None)
  | Err e => (reschedule (a_resched a) ("the webhook subscription could not be read: " ++ e) d, false, None)
  | Ok (Some sub) =>
      if negb (W_Active sub) then (finish DeliveryStatusFailed disabledReason d, false, None)
      else
        let post := applySignature (W_URL sub) (W_Secret sub) (Event d) (ID d) (Payload d) (a_signed a) in
        match a_answer a with
        | Unbuildable e => (reschedule (a_resched a) e d, true, None)
        | Disallowed e => (finish DeliveryStatusFailed e d, false, Some post)
        | Unreachable e => (reschedule (a_resched a) e d, true, Some post)
        | Responded status =>
            if (200 <=? status) && (status <? 300) then (finish DeliveryStatusDelivered "" d, false, Some post)
            else if retryable status then
              (reschedule (a_resched a) ("endpoint returned " ++ FormatInt status) d, false, Some post)
            else (finish DeliveryStatusFailed ("endpoint returned " ++ FormatInt status) d, false, Some post)
        end
  end.

Definition counted (d : WebhookDelivery) : WebhookDelivery :=
  with_outcome (Status d) (AttemptCount d + 1) (NextAttemptAt d) (LastError d) d.

(** [attempt]: the queue afterwards, whether the endpoint was unreachable, the
    attempts counted, and the request made.  [save] only logs a failure. *)
Definition attempt (a : Attempt) (subs : Subscriptions) (d : WebhookDelivery) (s : Queue) :
    Queue * bool * option Post :=
  let '(d', unreachable, post) := verdict a subs (counted d) in
  ((Update (a_save a) (a_saved a) d' (a_mid a s)).1, unreachable, post).

Definition released (d : WebhookDelivery) : WebhookDelivery :=
  with_outcome (if AttemptCount d =? 0 then DeliveryStatusPending else DeliveryStatusDeferred)
    (AttemptCount d) (NextAttemptAt d) (LastError d) d.

(** How the writes of a release go. *)
Record Releasing := mkReleasing {
  r_fault : nat -> fault;
  r_time : nat -> Z
}.

Fixpoint release (rel : Releasing) (n : nat) (rest : list WebhookDelivery) (s : Queue) : Queue :=
  match rest with
  | [] => s
  | d :: rest => release rel (S n) rest (Update (r_fault rel n) (r_time rel n) (released d) s).1
  end.

(** [backOff]: [until] is the time it computes from [now]. *)
Definition backOffDelay (attempts : Z) : Z :=
  match nextAttempt attempts with
  | Some d => d
  | None => default 0 (last retrySchedule)
  end.

Definition postponed (until : Z) (d : WebhookDelivery) : WebhookDelivery :=
  with_outcome (Status d) (AttemptCount d) until (LastError d) d.

Definition backOff (rel : Releasing) (f : fault) (now now2 : Z) (webhook : string) (rest : list WebhookDelivery)
    (attempts : Z) (s : Queue) : Queue :=
  let until := time_add now (backOffDelay attempts) in
  (DeferSubscription f now2 webhook until (release rel 0 (map (postponed until) rest) s)).1.

(** What one subscription's share of a batch meets. *)
Record GroupEnv := mkGroupEnv {
  g_attempt : nat -> Attempt;
  g_release : Releasing;
  g_defer : fault;
  g_backoff : Z;            (* the clock in backOff, and of its statement *)
  g_deferred : Z
}.

(** The loop of one group; [startBy] is when an attempt may last start. *)
Fixpoint deliverGroup (w : DurableWorker) (startBy : Z) (g : GroupEnv) (subs : Subscriptions) (n streak : nat) (worst : Z)
    (group : list WebhookDelivery) (s : Queue) : Queue * list Post :=
  match group with
  | [] => (s, [])
  | d :: rest =>
      let a := g_attempt g n in
      if a_stopped a || negb (time_before (a_checked a) startBy) then (release (g_release g) 0 group s, [])
      else if (0 <? failureStreak w)%nat && (failureStreak w <=? streak)%nat then
        (backOff (g_release g) (g_defer g) (g_backoff g) (g_deferred g) (WebhookID d) group worst s, [])
      else
        let '(s', unreachable, post) := attempt a subs d s in
        let '(s'', posts) :=
          if unreachable : bool then
            deliverGroup w startBy g subs (S n) (S streak) (Z.max worst (AttemptCount d + 1)) rest s'
          else deliverGroup w startBy g subs (S n) 0 worst rest s' in
        (s'', option_list post ++ posts)%list
  end.

(** [bySubscription]: groups in the order they first appear, each in claim
    order. *)
Fixpoint addToGroup (d : WebhookDelivery) (groups : list (list WebhookDelivery)) : list (list WebhookDelivery) :=
  match groups with
  | [] => [[d]]
  | g :: gs =>
      match g with
      | x :: _ => if eqb (WebhookID x) (WebhookID d) then (g ++ [d])%list :: gs else g :: addToGroup d gs
      | [] => g :: addToGroup d gs
      end
  end.

Definition bySubscription (ds : list WebhookDelivery) : list (list WebhookDelivery) :=
  foldl (fun gs d => addToGroup d gs) [] ds.

(** The groups of a batch, one after another.  They run side by side in the
    code; what the others do meanwhile is part of [a_mid]. *)
Fixpoint deliverGroups (w : DurableWorker) (startBy : Z) (gs : nat -> GroupEnv) (subs : Subscriptions) (n : nat)
    (groups : list (list WebhookDelivery)) (s : Queue) : Queue * list Post :=
  match groups with
  | [] => (s, [])
  | g :: rest =>
      let '(s', posts) := deliverGroup w startBy (gs n) subs 0 0 0 g s in
      let '(s'', posts') := deliverGroups w startBy gs subs (S n) rest s' in
      (s'', posts ++ posts')%list
  end.

(** [processDue]: one claim and its batch; whether more may be waiting. *)
Definition processDue (w : DurableWorker) (f1 f2 : fault) (mid : Queue -> Queue) (snap : Queue) (locked : gset string)
    (claimedAt now : Z) (token : string) (gs : nat -> GroupEnv) (subs : Subscriptions) (s : Queue) :
    Queue * bool * list Post :=
  match ClaimDue f1 f2 mid snap locked now token (batchSize w) (perSubscription w) (lease w) s with
  | (s', Err _) => (s', false, [])
  | (s', Ok ds) =>
      let groups := bySubscription ds in
      let '(s'', posts) := deliverGroups w (time_add claimedAt (startWindow w)) gs subs 0 groups s' in
      (s'', (batchSize w <=? length ds)%nat || existsb (fun g => (perSubscription w <=? length g)%nat) groups, posts)
  end.

Definition deliveryPrunePeriod : Z := Hour.

(** [pruneIfDue]; the new [lastPrune] and the queue. *)
Definition pruneIfDue (f : fault) (now1 now2 now3 : Z) (w : DurableWorker) (s : Queue) : Z * Queue :=
  if retention w <=? 0 then (lastPrune w, s)
  else if negb (time_is_zero (lastPrune w)) && (time_sub now1 (lastPrune w) <? deliveryPrunePeriod) then (lastPrune w, s)
  else (now2, (PruneTerminal f (time_add now3 (- retention w)) s).1).

(** ** An attempt and its claim *)

(** A worker's timings: an attempt ends and is recorded within the client's
    timeout and the reserve. *)
Definition in_time (w : DurableWorker) (a : Attempt) : Prop :=
  a_saved a <= a_checked a + timeout w + saveReserve w.

Lemma window_fits w claimedAt now a :
  0 < timeout w -> claimedAt <= now -> time_before (a_checked a) (time_add claimedAt (startWindow w)) = true -> in_time w a ->
  a_saved a < time_add now (lease w).
Proof.
  unfold time_before, time_add, startWindow, in_time. intros Ht Hc Hb Hi. apply Z.ltb_lt in Hb.
  destruct (Z.eqb_spec (timeout w) 0); lia.
Qed.

(** C6: an attempt is made and recorded under its own claim.  A notification
    claimed by a worker stays claimed by it through an attempt the worker
    started inside its window: whatever other gateways claim, settle, create,
    defer or prune until the outcome is written, none of their claims takes the
    notification, and the outcome is written -- the row then holds the verdict
    and no claim. *)
Theorem attempt_under_its_own_claim w snap locked token claimedAt now limit cap s d a subs before_ after_ others :
  0 < timeout w -> claimedAt <= now -> token <> "" -> token_fresh token s ->
  d ∈ list_claimed token (claim_stmt snap locked token (time_add now (lease w)) now limit cap s) ->
  time_before (a_checked a) (time_add claimedAt (startWindow w)) = true -> in_time w a -> a_save a = Up ->
  others = (before_ ++ after_)%list -> Forall (elsewhere (ID d) token (a_saved a)) others -> (forall q, a_mid a q = run after_ q) ->
  let s1 := run before_ (claim_stmt snap locked token (time_add now (lease w)) now limit cap s) in
  (forall done rest token', others = (done ++ rest)%list -> token' <> token ->
     ID d ∉ ID <$> list_claimed token' (run done (claim_stmt snap locked token (time_add now (lease w)) now limit cap s))) /\
  exists r, (attempt a subs d s1).1.1 !! ID d =
      Some (settle_row (verdict a subs (counted d)).1.1 (a_saved a) r) /\ claim_token r = Some token.
Proof.
  intros Ht Hca Htok Hf Hd Hb Hi Hsv -> Hos Hmid s1. pose proof (window_fits w claimedAt now a Ht Hca Hb Hi) as Hfit.
  destruct (claimed_owned _ _ _ _ _ _ _ _ _ Hf Hd) as [Hown Hct]. split.
  - intros dn rest token' E Hne. apply (owned_not_claimed _ token (time_add now (lease w))); [|done].
    eapply owned_run; [|..|exact Hown]; [apply Z.lt_le_incl, Hfit|]. rewrite E in Hos. by apply Forall_app in Hos as [? _].
  - apply Forall_app in Hos as [Hb1 Hb2].
    assert (Hend : owned (ID d) token (time_add now (lease w)) (run after_ s1)).
    { eapply owned_run; [apply Z.lt_le_incl, Hfit|done|]. eapply owned_run; [apply Z.lt_le_incl, Hfit|done|exact Hown]. }
    destruct Hend as (r & Hr & _ & Hrt & _). exists r. split; [|done]. unfold attempt.
    assert (Hv : ID (verdict a subs (counted d)).1.1 = ID d /\ ClaimToken (verdict a subs (counted d)).1.1 = token).
    { unfold verdict, reschedule, finish. repeat case_match; simpl; done. }
    destruct (verdict a subs (counted d)) as [[d' un] post]. simpl in Hv |- *. destruct Hv as [Hid Hct'].
    rewrite Hsv, Hmid. unfold Update. destruct (eqb (ClaimToken d') "") eqn:Ee; [apply eqb_true in Ee; congruence|].
    cbn [exec]. unfold update_stmt. rewrite Hid, Hr, Hrt, Hct', bool_decide_eq_true_2 by done. simpl.
    by rewrite lookup_insert_eq.
Qed.

(** ** A batch *)

Lemma verdict_fields a subs d :
  ID (verdict a subs d).1.1 = ID d /\ ClaimToken (verdict a subs d).1.1 = ClaimToken d /\
  forall p, (verdict a subs d).2 = Some p -> P_Delivery p = ID d.
Proof.
  unfold verdict, reschedule, finish, applySignature.
  repeat case_match; simpl; split_and!; try done; intros p Hp; by simplify_eq/=.
Qed.

(** The rows [s'] has under the token are among those of [s], less [X]. *)
Definition sheds (token : string) (X : list string) (s s' : Queue) : Prop :=
  forall id r, s' !! id = Some r -> claim_token r = Some token ->
    (id ∉ X) /\ exists r0, s !! id = Some r0 /\ claim_token r0 = Some token.

Lemma sheds_refl token s : sheds token [] s s.
Proof. intros id r ? ?. split; [by intros ?%elem_of_nil|eauto]. Qed.

Lemma sheds_trans token X Y s s1 s2 : sheds token X s s1 -> sheds token Y s1 s2 -> sheds token (X ++ Y)%list s s2.
Proof.
  intros H1 H2 id r Hr Ht. destruct (H2 id r Hr Ht) as (HY & r1 & Hr1 & Ht1). destruct (H1 id r1 Hr1 Ht1) as (HX & ?).
  split; [|done]. rewrite elem_of_app. by intros [?|?].
Qed.

Lemma sheds_Update token now d s :
  token <> "" -> ClaimToken d = token -> sheds token [ID d] s (Update Up now d s).1.
Proof.
  intros Hne Hc. unfold Update. rewrite Hc. destruct (eqb token "") eqn:E; [by apply eqb_true in E|]. cbn [exec].
  assert (H : sheds token [ID d] s (update_stmt d now s).1).
  { unfold update_stmt. destruct (s !! ID d) as [q|] eqn:Eq; [case_bool_decide as Hq|]; intros id r Hr Ht; simpl in *.
    - destruct (decide (id = ID d)) as [->|Hid]; [rewrite lookup_insert_eq in Hr; by simplify_eq/=|].
      rewrite lookup_insert_ne in Hr by done. split; [by rewrite list_elem_of_singleton|eauto].
    - split; [|eauto]. rewrite list_elem_of_singleton. intros ->. congruence.
    - split; [|eauto]. rewrite list_elem_of_singleton. intros ->. congruence. }
  destruct (update_stmt d now s) as [s' n]. by destruct (n =? 0).
Qed.

Lemma sheds_release token rel : (forall i, r_fault rel i = Up) -> token <> "" -> forall rest n s,
  Forall (fun d => ClaimToken d = token) rest -> sheds token (ID <$> rest) s (release rel n rest s).
Proof.
  intros Hup Hne. induction rest as [|d rest IH]; intros n s Hall; [apply sheds_refl|].
  apply Forall_cons in Hall as [Hd Hall]. cbn [release]. rewrite Hup.
  change (ID <$> d :: rest) with ([ID (released d)] ++ (ID <$> rest))%list.
  eapply sheds_trans; [by apply sheds_Update|by apply IH].
Qed.

Lemma sheds_defer token f now w until s : sheds token [] s (DeferSubscription f now w until s).1.
Proof.
  assert (H : sheds token [] s (defer_stmt w until now s)).
  { intros id r Hr Ht. split; [by intros ?%elem_of_nil|]. unfold defer_stmt in Hr. rewrite lookup_fmap in Hr.
    destruct (s !! id) as [q|]; [|done]. simpl in Hr. injection Hr as <-. exists q. split; [done|]. by destruct (deferrable _ _ _). }
  unfold DeferSubscription. destruct f; [exact H|apply sheds_refl|apply sheds_refl|exact H].
Qed.

(** No step of others hands out the token. *)
Definition keeps_off (token : string) (f : Queue -> Queue) : Prop := forall s, sheds token [] s (f s).

(** The writes of a group's environment succeed. *)
Definition writes_land (token : string) (g : GroupEnv) : Prop :=
  (forall n, a_save (g_attempt g n) = Up /\ keeps_off token (a_mid (g_attempt g n))) /\ (forall n, r_fault (g_release g) n = Up).

Lemma attempt_sheds token a subs d s :
  token <> "" -> ClaimToken d = token -> a_save a = Up -> keeps_off token (a_mid a) ->
  sheds token [ID d] s (attempt a subs d s).1.1.
Proof.
  intros Hne Hc Hs Hm. unfold attempt. destruct (verdict_fields a subs (counted d)) as (Hid & Hct & _).
  destruct (verdict a subs (counted d)) as [[d' u] p]. simpl in *. rewrite Hs.
  change [ID d] with ([] ++ [ID d])%list. eapply sheds_trans; [apply Hm|]. rewrite <- Hid. apply sheds_Update; [done|congruence].
Qed.

Lemma deliverGroup_spec w startBy token g subs : token <> "" -> writes_land token g -> forall group n streak worst s s' posts,
  Forall (fun d => ClaimToken d = token) group ->
  deliverGroup w startBy g subs n streak worst group s = (s', posts) ->
  sheds token (ID <$> group) s s' /\ sublist (P_Delivery <$> posts) (ID <$> group).
Proof.
  intros Hne [Hsave Hrel]. induction group as [|d rest IH]; intros n streak worst s s' posts Hall; cbn [deliverGroup].
  { intros [= <- <-]. split; [apply sheds_refl|constructor]. }
  destruct (_ || _); [intros [<- <-]%pair_equal_spec; split; [by apply sheds_release|apply sublist_nil_l]|].
  destruct (_ && _).
  { intros [<- <-]%pair_equal_spec. split; [|apply sublist_nil_l]. unfold backOff. rewrite <- (app_nil_r (ID <$> d :: rest)).
    eapply sheds_trans; [|apply sheds_defer].
    set (until := time_add _ _). assert (E : ID <$> d :: rest = ID <$> map (postponed until) (d :: rest)).
    { rewrite map_map. symmetry. apply map_ext. done. }
    rewrite E. apply sheds_release; [done|done|]. apply Forall_map. eapply Forall_impl; [exact Hall|done]. }
  apply Forall_cons in Hall as [Hd Hall]. destruct (Hsave n) as [Hs Hm].
  pose proof (attempt_sheds token (g_attempt g n) subs d s Hne Hd Hs Hm) as Hsh.
  assert (Hp : forall p, (attempt (g_attempt g n) subs d s).2 = Some p -> P_Delivery p = ID d).
  { unfold attempt. destruct (verdict_fields (g_attempt g n) subs (counted d)) as (_ & _ & Hv).
    destruct (verdict _ _ _) as [[d' u] p]. exact Hv. }
  destruct (attempt (g_attempt g n) subs d s) as [[s1 un] post]. simpl in Hsh, Hp.
  destruct (if un then _ else _) as [s2 ps] eqn:Er. intros [= <- <-].
  assert (Hrest : sheds token (ID <$> rest) s1 s2 /\ sublist (P_Delivery <$> ps) (ID <$> rest)) by (destruct un; by eapply IH).
  destruct Hrest as [Hs2 Hps]. split.
  - change (ID <$> d :: rest) with ([ID d] ++ (ID <$> rest))%list. by eapply sheds_trans.
  - destruct post as [p|]; simpl; [rewrite (Hp p eq_refl); by constructor|by constructor].
Qed.

Lemma deliverGroups_spec w startBy token gs subs : token <> "" -> (forall n, writes_land token (gs n)) ->
  forall groups n s s' posts,
  Forall (fun d => ClaimToken d = token) (concat groups) ->
  deliverGroups w startBy gs subs n groups s = (s', posts) ->
  sheds token (ID <$> concat groups) s s' /\ sublist (P_Delivery <$> posts) (ID <$> concat groups).
Proof.
  intros Hne Hw. induction groups as [|g groups IH]; intros n s s' posts Hall; cbn [deliverGroups].
  { intros [= <- <-]. split; [apply sheds_refl|constructor]. }
  cbn [concat] in *. apply Forall_app in Hall as [Hg Hall].
  destruct (deliverGroup w startBy (gs n) subs 0 0 0 g s) as [s1 p1] eqn:E1.
  destruct (deliverGroups w startBy gs subs (S n) groups s1) as [s2 p2] eqn:E2. intros [= <- <-].
  apply (deliverGroup_spec w startBy token) in E1 as [H1 L1]; [|done..]. apply IH in E2 as [H2 L2]; [|done].
  rewrite !fmap_app. split; [by eapply sheds_trans|by apply sublist_app].
Qed.

(** Grouping keeps every notification, and each subscription's in order. *)
Lemma addToGroup_concat d gs : concat (addToGroup d gs) ≡ₚ d :: concat gs.
Proof.
  induction gs as [|[|x g] gs IH]; [done| |]; cbn [addToGroup concat].
  - by rewrite IH.
  - destruct (eqb _ _); cbn [concat].
    + rewrite <- app_assoc. symmetry. apply (Permutation_middle (x :: g)).
    + rewrite IH. symmetry. apply (Permutation_middle (x :: g)).
Qed.

Lemma bySubscription_concat ds : concat (bySubscription ds) ≡ₚ ds.
Proof.
  unfold bySubscription. cut (forall gs, concat (foldl (fun gs d => addToGroup d gs) gs ds) ≡ₚ concat gs ++ ds)%list; [intros H; apply H|].
  induction ds as [|d ds IH]; intros gs; simpl; [by rewrite app_nil_r|].
  rewrite IH, addToGroup_concat. simpl. apply Permutation_middle.
Qed.


Lemma filter_none (P : WebhookDelivery -> Prop) `{!forall x, Decision (P x)} l : filter P l = [] <-> Forall (fun x => ~ P x) l.
Proof.
  induction l as [|x l IH]; [done|]. rewrite filter_cons, Forall_cons. destruct (decide (P x)) as [Hx|Hx]; split; [done|by intros [? _]|rewrite IH; by split|rewrite IH; by intros [_ ?]].
Qed.

(** Groups of distinct subscriptions, one each. *)
Definition sorted_out (gs : list (list WebhookDelivery)) (ws : list string) : Prop :=
  NoDup ws /\ Forall2 (fun g w => g <> [] /\ Forall (fun d => WebhookID d = w) g) gs ws.

Lemma filter_other w gs ws : (w ∉ ws) -> Forall2 (fun g v => g <> [] /\ Forall (fun d => WebhookID d = v) g) gs ws ->
  filter (fun d => WebhookID d = w) (concat gs) = [].
Proof.
  intros Hw Hf. induction Hf as [|g v gs ws [_ Hg] _ IH]; [done|]. apply not_elem_of_cons in Hw as [Hv Hw].
  simpl. rewrite filter_app, IH, app_nil_r by done. apply filter_none. eapply Forall_impl; [exact Hg|]. simpl. congruence.
Qed.

Lemma addToGroup_order d gs ws : sorted_out gs ws ->
  (exists ws', (forall v, v ∈ ws' -> v ∈ ws \/ v = WebhookID d) /\ sorted_out (addToGroup d gs) ws') /\
  forall w, filter (fun x => WebhookID x = w) (concat (addToGroup d gs)) =
    (filter (fun x => WebhookID x = w) (concat gs) ++ filter (fun x => WebhookID x = w) [d])%list.
Proof.
  intros [Hnd Hf]. induction Hf as [|g v gs ws [Hg Hh] Hf IH].
  { split; [|done]. exists [WebhookID d]. split; [intros v; rewrite list_elem_of_singleton; by right|].
    split; [apply NoDup_singleton|]. repeat constructor. done. }
  apply NoDup_cons in Hnd as [Hv Hnd]. destruct g as [|x g]; [done|]. cbn [addToGroup].
  pose proof Hh as [Hx _]%Forall_cons. destruct (eqb (WebhookID x) (WebhookID d)) eqn:E.
  - apply eqb_true in E. split.
    + exists (v :: ws). split; [by left|]. split; [by apply NoDup_cons|]. constructor; [|done]. split; [done|].
      apply Forall_app. split; [done|]. repeat constructor. congruence.
    + intros w. cbn [concat]. rewrite !filter_app, <- app_assoc. destruct (decide (w = v)) as [->|Hw].
      * rewrite (filter_other v gs ws) by done. by rewrite !app_nil_r.
      * assert (filter (fun x => WebhookID x = w) [d] = []) as -> by (apply filter_none; repeat constructor; congruence).
        by rewrite !app_nil_r.
  - destruct (IH Hnd) as [(ws' & Hws & Hnd' & Hf') Hord]. split.
    + exists (v :: ws'). split; [intros u [->|Hu]%elem_of_cons; [left; by left|destruct (Hws u Hu); [left; by right|by right]]|].
      split; [|by constructor]. apply NoDup_cons. split; [|done]. intros Hin. destruct (Hws v Hin) as [?| ->]; [done|].
      rewrite Hx, eqb_refl in E. done.
    + intros w. cbn [concat]. by rewrite !filter_app, Hord, app_assoc.
Qed.

Lemma bySubscription_order ds w :
  filter (fun x => WebhookID x = w) (concat (bySubscription ds)) = filter (fun x => WebhookID x = w) ds.
Proof.
  unfold bySubscription.
  cut (forall gs ws, sorted_out gs ws -> filter (fun x => WebhookID x = w) (concat (foldl (fun gs d => addToGroup d gs) gs ds)) =
    (filter (fun x => WebhookID x = w) (concat gs) ++ filter (fun x => WebhookID x = w) ds)%list).
  { intros H. apply (H [] []). split; [constructor|constructor]. }
  induction ds as [|d ds IH]; intros gs ws Hs; simpl; [by rewrite filter_nil, app_nil_r|].
  destruct (addToGroup_order d gs ws Hs) as [(ws' & _ & Hs') Hord]. rewrite (IH _ ws' Hs'), Hord, <- app_assoc.
  by rewrite <- (filter_app _ [d] ds).
Qed.

Lemma sublist_filter_mono {A} (P : A -> Prop) `{!forall x, Decision (P x)} (l1 l2 : list A) :
  sublist l1 l2 -> sublist (filter P l1) (filter P l2).
Proof.
  induction 1 as [|x l1 l2 Hs IH|x l1 l2 Hs IH]; [constructor| |]; rewrite ?filter_cons; destruct (decide (P x)); by try constructor.
Qed.

(** Within notifications of distinct ids, those of one subscription are found
    by their ids. *)
Lemma filter_ids w l : NoDup (ID <$> l) ->
  filter (fun i => i ∈ ID <$> filter (fun d => WebhookID d = w) l) (ID <$> l) = ID <$> filter (fun d => WebhookID d = w) l.
Proof.
  intros Hnd. cut (forall k, sublist k l -> filter (fun i => i ∈ ID <$> filter (fun d => WebhookID d = w) l) (ID <$> k) =
    ID <$> filter (fun d => WebhookID d = w) k); [intros H; by apply H|].
  assert (Hinj : forall x y, x ∈ l -> y ∈ l -> ID x = ID y -> x = y).
  { intros x y [i Hi]%list_elem_of_lookup [j Hj]%list_elem_of_lookup E.
    assert (i = j) as -> by (eapply (NoDup_lookup (ID <$> l)); [done|by rewrite list_lookup_fmap, Hi|rewrite list_lookup_fmap, Hj; simpl; by rewrite E]).
    congruence. }
  induction k as [|x k IH]; intros Hk; [done|]. rewrite fmap_cons, !filter_cons.
  assert (Hx : x ∈ l) by (eapply elem_of_submseteq; [|by apply sublist_submseteq]; by left).
  assert (Hk' : sublist k l) by (etransitivity; [|exact Hk]; by constructor).
  destruct (decide (WebhookID x = w)) as [Hw|Hw].
  - rewrite decide_True by (by apply list_elem_of_fmap_2, list_elem_of_filter). by rewrite fmap_cons, IH.
  - rewrite decide_False; [by apply IH|]. intros (y & Hy & [Hyw Hyl]%list_elem_of_filter)%list_elem_of_fmap.
    rewrite (Hinj x y Hx Hyl Hy) in Hw. done.
Qed.

Lemma list_claimed_spec token s :
  NoDup (ID <$> list_claimed token s) /\ Forall (fun d => ClaimToken d = token) (list_claimed token s) /\
  forall id r, s !! id = Some r -> claim_token r = Some token -> id ∈ ID <$> list_claimed token s.
Proof.
  unfold list_claimed. set (l := filter _ (map_to_list s)). split_and!.
  - rewrite <- list_fmap_compose. change (ID ∘ scan token) with (@fst string Row). rewrite merge_sort_Permutation.
    apply (NoDup_fst_sub s); [apply NoDup_filter, NoDup_map_to_list|]. intros id r Hr.
    apply list_elem_of_filter in Hr as [_ Hr]. by apply elem_of_map_to_list in Hr.
  - apply Forall_fmap, Forall_true. done.
  - intros id r Hr Ht. rewrite <- list_fmap_compose. apply (list_elem_of_fmap_2 (ID ∘ scan token) _ (id, r)).
    rewrite merge_sort_Permutation. apply list_elem_of_filter. split; [done|]. by apply elem_of_map_to_list.
Qed.

(** C33: a batch answers for everything it claimed.  When its writes land,
    nothing is left under the batch's claim at its end -- each notification was
    settled or handed back, or another gateway has it -- no notification was
    posted twice, and each subscription's were posted in the order they were
    claimed. *)
Theorem batch_answers_for_its_claim w mid snap locked claimedAt now token gs subs s s' more posts ds s1 :
  token <> "" -> token_fresh token s -> keeps_off token mid -> (forall n, writes_land token (gs n)) ->
  ClaimDue Up Up mid snap locked now token (batchSize w) (perSubscription w) (lease w) s = (s1, Ok ds) ->
  processDue w Up Up mid snap locked claimedAt now token gs subs s = (s', more, posts) ->
  token_fresh token s' /\ NoDup (P_Delivery <$> posts) /\ sublist (P_Delivery <$> posts) (ID <$> concat (bySubscription ds)) /\
  forall v, sublist (filter (fun i => i ∈ ID <$> filter (fun d => WebhookID d = v) ds) (P_Delivery <$> posts))
              (ID <$> filter (fun d => WebhookID d = v) ds).
Proof.
  intros Hne Hf Hmid Hw Hc Hp. unfold processDue in Hp. rewrite Hc in Hp.
  unfold ClaimDue in Hc. cbn [exec] in Hc. apply pair_equal_spec in Hc as [<- Hds]. injection Hds as <-.
  set (s1 := mid _) in *. destruct (list_claimed_spec token s1) as (Hnd & Htok & Hall). set (ds := list_claimed token s1) in *.
  destruct (deliverGroups _ _ _ _ _ _ _) as [s2 ps] eqn:E. apply pair_equal_spec in Hp as [Hp <-]. apply pair_equal_spec in Hp as [<- _].
  pose proof (bySubscription_concat ds) as Hperm.
  apply (deliverGroups_spec w _ token) in E as [Hsh Hsub]; [|done|done|by rewrite Hperm].
  assert (Hnd' : NoDup (ID <$> concat (bySubscription ds))) by (by rewrite Hperm).
  split_and!; [|by eapply sublist_NoDup|done|].
  - intros id r Hr Ht. destruct (Hsh id r Hr Ht) as (Hn & r0 & Hr0 & Ht0). apply Hn. rewrite Hperm. by eapply Hall.
  - intros v. etransitivity; [apply sublist_filter_mono, Hsub|]. rewrite <- (bySubscription_order ds v). by rewrite filter_ids.
Qed.

(** ** The end of a notification *)

Definition over (d : WebhookDelivery) : bool :=
  bool_decide (Status d = DeliveryStatusDelivered \/ Status d = DeliveryStatusFailed).

(** A notification through a series of attempts, each with what it meets,
    for as long as it is not over; how many were made. *)
Fixpoint attempts (as_ : list (Attempt * Subscriptions)) (d : WebhookDelivery) : WebhookDelivery * nat :=
  match as_ with
  | [] => (d, 0%nat)
  | (a, subs) :: rest =>
      if over d then (d, 0%nat)
      else let '(d', n) := attempts rest (verdict a subs (counted d)).1.1 in (d', S n)
  end.

Lemma nextAttempt_None n : 8 <= n -> nextAttempt n = None.
Proof. intros Hn. unfold nextAttempt. change (Z.of_nat (length retrySchedule)) with 7. by replace (7 <? n) with true by lia; rewrite orb_true_r. Qed.

Lemma verdict_moves a subs d :
  over (verdict a subs d).1.1 = true \/
  AttemptCount d < 8 /\ AttemptCount (verdict a subs d).1.1 = AttemptCount d.
Proof.
  unfold verdict, reschedule, finish.
  assert (Hn : forall x, nextAttempt (AttemptCount d) = Some x -> AttemptCount d < 8).
  { intros x Hx. destruct (Z_lt_le_dec (AttemptCount d) 8) as [|Hge]; [done|]. by rewrite nextAttempt_None in Hx. }
  repeat case_match; simpl; try (left; by apply bool_decide_eq_true_2; simpl; auto); right; eauto.
Qed.

Lemma attempts_over as_ d : over d = true -> attempts as_ d = (d, 0%nat).
Proof. intros H. destruct as_ as [|[a subs] as_]; [done|]. cbn [attempts]. by rewrite H. Qed.

(** A notification comes to an end.  Whatever its endpoint answers, a
    notification that has been attempted at most seven times is attempted at
    most eight times in all, and once that many attempts were made it is
    delivered or failed. *)
Theorem notification_ends as_ d k :
  0 <= AttemptCount d <= 7 -> AttemptCount d + Z.of_nat k = 8 -> over d = false ->
  ((attempts as_ d).2 <= k)%nat /\ ((k <= length as_)%nat -> over (attempts as_ d).1 = true).
Proof.
  revert d k. induction as_ as [|[a subs] as_ IH]; intros d k Hd Hk Hov; cbn [attempts]; [simpl; split; lia|].
  rewrite Hov. destruct (verdict_moves a subs (counted d)) as [Ho|[Hlt Hc]].
  - rewrite (attempts_over as_ _ Ho). simpl. split; [lia|done].
  - simpl in Hlt, Hc. set (d' := (verdict a subs (counted d)).1.1) in *. destruct (over d') eqn:Ho.
    { rewrite (attempts_over as_ _ Ho). simpl. split; [lia|done]. }
    destruct (IH d' (k - 1)%nat) as [H1 H2]; [lia..|done|]. destruct (attempts as_ d') as [e n]. simpl in *. split; [lia|].
    intros Hl. apply H2. lia.
Qed.

(** ** A dead endpoint *)

(** The endpoint of an active subscription cannot be reached. *)
Definition dead (subs : Subscriptions) (tenant webhook : string) (a : Attempt) : Prop :=
  a_stopped a = false /\ a_sub a = Up /\
  (exists sub, subs !! webhook = Some sub /\ W_TenantID sub = tenant /\ W_Active sub = true) /\
  exists e, a_answer a = Unreachable e \/ a_answer a = Unbuildable e.

Lemma dead_verdict subs tenant webhook a d :
  dead subs tenant webhook a -> TenantID d = tenant -> WebhookID d = webhook -> (verdict a subs d).1.2 = true.
Proof.
  intros (_ & Hf & (sub & Hs & Ht & Ha) & e & He) Hd Hw. unfold verdict, GetSubscription. rewrite Hf, Hd, Hw, Hs, Ht, eqb_refl, Ha.
  simpl. by destruct He as [-> | ->].
Qed.

Lemma nextAttempt_least n x : nextAttempt n = Some x -> 10 * Second <= x.
Proof.
  unfold nextAttempt. destruct (_ || _); [done|]. intros Hx%list_elem_of_lookup_2.
  assert (Hall : Forall (fun x => 10 * Second <= x) retrySchedule) by (unfold retrySchedule; repeat constructor; done).
  rewrite Forall_forall in Hall. by apply Hall.
Qed.

Lemma backOffDelay_least n : 10 * Second <= backOffDelay n.
Proof. unfold backOffDelay. destruct (nextAttempt n) as [x|] eqn:E; [by eapply nextAttempt_least|done]. Qed.

(** Rows of the subscription that wait and may be claimed before [until]. *)
Definition waiting (webhook : string) (r : Row) : Prop :=
  webhook_id r = webhook /\ (status r = DeliveryStatusPending \/ status r = DeliveryStatusDeferred).

Lemma defer_all webhook until now s id r :
  defer_stmt webhook until now s !! id = Some r -> waiting webhook r -> until <= next_attempt_at r.
Proof.
  unfold defer_stmt. rewrite lookup_fmap, fmap_Some. intros (q & _ & ->) Hw. revert Hw.
  unfold deferrable. destruct (Z.ltb_spec (next_attempt_at q) until); rewrite ?andb_true_r, ?andb_false_r; intros [Hw1 Hw2]; [|done].
  destruct (_ && _) eqn:E; [simpl; lia|]. rewrite !bool_decide_eq_true_2 in E; done.
Qed.

(** A dead endpoint is left alone.  A group whose endpoint cannot be
    reached costs a batch [failureStreak] attempts at most; the rest of it is
    handed back, and every notification of the subscription that waits --
    including those queued meanwhile by others -- is put off by ten seconds at
    the least. *)
Theorem dead_endpoint_is_left_alone w startBy g subs tenant webhook group s s' posts :
  (0 < failureStreak w < length group)%nat ->
  Forall (fun d => TenantID d = tenant /\ WebhookID d = webhook) group ->
  (forall n, dead subs tenant webhook (g_attempt g n) /\ time_before (a_checked (g_attempt g n)) startBy = true) ->
  g_defer g = Up ->
  deliverGroup w startBy g subs 0 0 0 group s = (s', posts) ->
  (length posts <= failureStreak w)%nat /\
  forall id r, s' !! id = Some r -> waiting webhook r -> time_add (g_backoff g) (10 * Second) <= next_attempt_at r.
Proof.
  intros [Hpos Hlen] Hall Hdead Hdef.
  cut (forall n streak worst s s' posts, (streak <= failureStreak w)%nat -> (failureStreak w - streak < length group)%nat ->
    deliverGroup w startBy g subs n streak worst group s = (s', posts) ->
    (length posts <= failureStreak w - streak)%nat /\
    forall id r, s' !! id = Some r -> waiting webhook r -> time_add (g_backoff g) (10 * Second) <= next_attempt_at r).
  { intros H Hrun. replace (failureStreak w) with (failureStreak w - 0)%nat by lia. eapply H; [lia..|exact Hrun]. }
  clear s s' posts Hlen. induction Hall as [|d rest [Ht Hw] Hrest IH]; intros n streak worst s s' posts Hs Hl; [simpl in Hl; lia|].
  destruct (Hdead n) as [Hd Hb]. cbn [deliverGroup]. rewrite Hb. pose proof Hd as (Hst & _). rewrite Hst. cbn [orb negb].
  assert (Hp : (0 <? failureStreak w)%nat = true) by (by apply Nat.ltb_lt). rewrite Hp. cbn [andb].
  destruct (Nat.leb_spec (failureStreak w) streak) as [Hle|Hgt].
  - intros [<- <-]%pair_equal_spec. split; [simpl; lia|]. unfold backOff, DeferSubscription. rewrite Hdef. cbn [exec fst].
    rewrite Hw. intros id r Hr Hwt. pose proof (defer_all _ _ _ _ _ _ Hr Hwt). pose proof (backOffDelay_least worst).
    unfold time_add in *. lia.
  - assert (Hu : (attempt (g_attempt g n) subs d s).1.2 = true).
    { unfold attempt. pose proof (dead_verdict subs tenant webhook _ (counted d) Hd Ht Hw) as Hv.
      destruct (verdict _ _ _) as [[d' u] p]. exact Hv. }
    destruct (attempt (g_attempt g n) subs d s) as [[s1 un] post]. simpl in Hu. subst un.
    destruct (deliverGroup _ _ _ _ _ _ _ rest s1) as [s2 ps] eqn:Er. intros [<- <-]%pair_equal_spec.
    apply IH in Er as [Hn Hq]; [|lia|simpl in Hl; lia]. split; [|done].
    rewrite length_app. destruct post; simpl; lia.
Qed.

(** ** Queueing *)

(** Who wants an event. *)
Definition wants (tenant : string) (ev : Z) (x : Webhook) : Prop :=
  W_TenantID x = tenant /\ W_Active x = true /\ ev ∈ W_Events x.

(** The row queued for a subscription. *)
Definition queued (tenant : string) (ev : Z) (body : string) (now : Z) (sub : Webhook) : Row :=
  mkRow tenant (W_ID sub) (EventName ev) body DeliveryStatusPending 0 now "" None None now now.

Lemma enqueueAll_spec fs uuids nows tenant ev body : (forall n, fs n = Up) -> forall subs n s,
  (forall i j, (n <= i < n + length subs)%nat -> (n <= j < n + length subs)%nat -> uuids i = uuids j -> i = j) ->
  (forall i, (n <= i < n + length subs)%nat -> s !! uuids i = None) ->
  (forall i sub, subs !! i = Some sub ->
     enqueueAll fs uuids nows tenant ev body n subs s !! uuids (n + i)%nat = Some (queued tenant ev body (nows (n + i)%nat) sub)) /\
  (forall id, (forall i, (n <= i < n + length subs)%nat -> id <> uuids i) ->
     enqueueAll fs uuids nows tenant ev body n subs s !! id = s !! id).
Proof.
  intros Hup. induction subs as [|sub subs IH]; intros n s Hinj Hnew; [done|]. simpl in Hinj, Hnew.
  cbn [enqueueAll]. unfold Create, new_delivery. rewrite Hup. cbn [exec]. unfold insert_delivery.
  cbn [ID TenantID WebhookID Event Payload Status AttemptCount NextAttemptAt LastError CreatedAt UpdatedAt].
  rewrite (Hnew n) by lia. change (time_is_zero 0) with true. cbn [fst].
  set (s1 := <[uuids n := _]> s). destruct (IH (S n) s1) as [H1 H2].
  - intros i j Hi Hj. apply Hinj; lia.
  - intros i Hi. unfold s1. rewrite lookup_insert_ne; [apply Hnew; lia|]. intros E. apply Hinj in E; lia.
  - split.
    + intros [|i] x Hx; simpl in Hx.
      * injection Hx as <-. rewrite Nat.add_0_r, H2; [unfold s1; by rewrite lookup_insert_eq|].
        intros i Hi E. apply Hinj in E; lia.
      * specialize (H1 i x Hx). by rewrite Nat.add_succ_r.
    + intros id Hid. rewrite H2 by (intros i Hi; apply Hid; simpl; lia). unfold s1. rewrite lookup_insert_ne; [done|].
      apply not_eq_sym, Hid. simpl. lia.
Qed.

(** An event is queued for everyone who wants it.  With the stores up and
    fresh ids drawn, queueing an event adds one row per active subscription of
    the tenant that asked for the event -- to be attempted at once, with the
    envelope as its payload -- and changes nothing else. *)
Theorem event_reaches_its_subscribers fs uuids now nows tenant ev data subs s s' woke body :
  (forall n, fs n = Up) -> (forall i j, uuids i = uuids j -> i = j) -> (forall i, s !! uuids i = None) ->
  Marshal (EventName ev) tenant (Unix now) data = Ok body ->
  Enqueue Up fs uuids now nows tenant ev data subs s = (s', woke) ->
  exists wanted, wanted ≡ₚ filter (wants tenant ev) (map_to_list subs).*2 /\ (woke = true <-> wanted <> []) /\
    (forall n sub, wanted !! n = Some sub -> s' !! uuids n = Some (queued tenant ev body (nows n) sub)) /\
    (forall id, (forall n, (n < length wanted)%nat -> id <> uuids n) -> s' !! id = s !! id).
Proof.
  intros Hup Hinj Hnew Hm. unfold Enqueue, ListActiveByEvent.
  set (wanted := filter _ (merge_sort _ _)). intros He. exists wanted. split.
  { unfold wanted. rewrite merge_sort_Permutation, list_filter_filter. apply Permutation_refl', list_filter_iff. intros x. unfold wants. split; [intros [[? ?] ?]|intros [? [? ?]]]; done. }
  destruct wanted as [|x l] eqn:Ew.
  { injection He as <- <-. split; [by split; [|intros []]|]. split; [by intros n sub ?|done]. }
  rewrite <- Ew in *. rewrite Hm in He.
  assert (E : (enqueueAll fs uuids nows tenant ev body 0 wanted s, true) = (s', woke)) by (by rewrite Ew in He |- *).
  injection E as <- <-. split; [by rewrite Ew|].
  destruct (enqueueAll_spec fs uuids nows tenant ev body Hup wanted 0 s) as [H1 H2]; [by eauto|by eauto|].
  split; [exact H1|]. intros id Hid. apply H2. intros i Hi. apply Hid. lia.
Qed.

(** ** Signatures *)

Lemma FormatInt_no_dot z : str_all (fun c => negb (bool_decide (c = "."%char))) (FormatInt z) = true.
Proof.
  unfold FormatInt. destruct (Z.ltb_spec z 0); [cbn [str_all]; apply andb_true_iff; split; [done|]|];
    (apply (str_all_ne is_digit); [done|apply FormatUint_digits; lia]).
Qed.

Lemma signed_text_inj t t' b b' : signed_text t b = signed_text t' b' -> t = t' /\ b = b'.
Proof.
  unfold signed_text. intros H. apply (sep_inj "."%char) in H as [Ht Hb]; [|apply FormatInt_no_dot..].
  split; [by apply FormatInt_inj|done].
Qed.

(** A signature is for one body at one time.  Where HMAC under a secret
    does not collide, a signed request whose signature is the one computed from
    a timestamp and a body has that body, and carries that timestamp in its
    header: a body or a time put in its place does not verify. *)
Theorem signature_binds_body_and_time url secret event id body now t b p :
  (forall x y, HMAC secret x = HMAC secret y -> x = y) -> secret <> "" ->
  applySignature url secret event id body now = p ->
  (P_Signature p = Some (sign secret t b) <-> P_Timestamp p = Some (FormatInt t) /\ P_Body p = b).
Proof.
  intros Hinj Hne <-. unfold applySignature. destruct (eqb secret "") eqn:E; [by apply eqb_true in E|].
  cbn [P_Signature P_Timestamp P_Body]. split.
  - intros H. injection H as H. apply (f_equal HexDecode) in H. rewrite !HexDecode_HexEncode in H. injection H as H.
    apply Hinj, signed_text_inj in H as [-> ->]. done.
  - intros [H ->]. injection H as H. apply FormatInt_inj in H. by subst t.
Qed.

End Worker.

(** ** Concrete cases *)

Definition sampleHook : Webhook := mkWebhook "h" "t" "https://example.org/hook" [1; 2] true "s3cret" 0.
Definition sampleSubs : Subscriptions := {["h" := sampleHook]}.
Definition sampleRow (hook : string) (created : Z) : Row :=
  mkRow "t" hook "delivered" "{}" DeliveryStatusPending 0 0 "" None None created created.
Definition sampleQueue : Queue :=
  <["a1" := sampleRow "h" 1]> (<["a2" := sampleRow "h" 2]> (<["a3" := sampleRow "h" 3]> {["b1" := sampleRow "k" 4]})).

Definition sampleHMAC (secret text : string) : string := text.
Definition sampleMarshal (event tenant : string) (at_ : Z) (data : string) : result string string := Ok data.
Definition sampleName (ev : Z) : string := "delivered".

Definition sampleAttempt (ans : Answer) : Attempt :=
  mkAttempt false (20 * Second) Up ans (20 * Second) (21 * Second) (fun s => s) (22 * Second) Up.
Definition sampleGroupEnv (ans : Answer) : GroupEnv :=
  mkGroupEnv (fun _ => sampleAttempt ans) (mkReleasing (fun _ => Up) (fun _ => 23 * Second)) Up (23 * Second) (24 * Second).

Lemma sample_fresh token : token_fresh token sampleQueue.
Proof. apply map_Forall_to_list. repeat constructor; done. Qed.

(** Three notifications of one subscription and a later one of another: with
    room for two, both subscriptions are served. *)
Lemma claim_is_fair_witness :
  exists s' ds, ClaimDue Up Up (fun s => s) sampleQueue ∅ 10 "tok" 2 10 Minute sampleQueue = (s', Ok ds) /\
    (length ds <= 2)%nat /\ "b1" ∈ ID <$> ds.
Proof.
  destruct (ClaimDue Up Up (fun s => s) sampleQueue ∅ 10 "tok" 2 10 Minute sampleQueue) as [s' [ds|e]] eqn:E;
    [|by vm_compute in E]. exists s', ds. split; [done|].
  destruct (claim_is_fair 10 "tok" 2 10 Minute sampleQueue s' ds (sample_fresh "tok") E) as (_ & Hl & _ & _ & _ & Ho).
  split; [exact Hl|]. apply (Ho "b1" (sampleRow "k" 4)).
  - apply elem_of_due_rows. split; by vm_compute.
  - by vm_compute.
  - by vm_compute; lia.
Defined.

(** Another gateway claims and prunes while an attempt is under way. *)
Lemma attempt_under_its_own_claim_witness :
  let claim := claim_stmt sampleQueue ∅ "tok" (time_add Second (lease NewDurableWorker)) Second 50 10 sampleQueue in
  let others := [OClaim claim ∅ "other" (30 * Minute) (20 * Second) 50 10; OPrune (22 * Second)] in
  exists d r, d ∈ list_claimed "tok" claim /\
    (attempt sampleHMAC (mkAttempt false (20 * Second) Up (Responded 200) (20 * Second) (21 * Second)
       (run []) (22 * Second) Up) sampleSubs d (run others claim)).1.1 !! ID d = Some r /\
    status r = DeliveryStatusDelivered.
Proof.
  intros claim others. destruct (list_claimed "tok" claim) as [|d ds] eqn:E; [by vm_compute in E|].
  set (a := mkAttempt _ _ _ _ _ _ _ _ _). exists d.
  assert (Hd : d ∈ list_claimed "tok" claim) by (rewrite E; by left).
  destruct (attempt_under_its_own_claim sampleHMAC NewDurableWorker sampleQueue ∅ "tok" 0 Second 50 10 sampleQueue d a
    sampleSubs others [] others) as [_ (r & Hr & _)]; [done|done|done|apply sample_fresh|exact Hd|done|done|done|..].
  - symmetry. apply app_nil_r.
  - repeat constructor; done.
  - done.
  - eexists. split; [by left|]. split; [exact Hr|]. vm_compute in E. injection E as <- _. by vm_compute.
Defined.

Lemma batch_answers_for_its_claim_witness :
  let out := processDue sampleHMAC NewDurableWorker Up Up (fun s => s) sampleQueue ∅ 0 Second "tok"
               (fun _ => sampleGroupEnv (Responded 200)) sampleSubs sampleQueue in
  token_fresh "tok" out.1.1 /\ NoDup (P_Delivery <$> out.2) /\ P_Delivery <$> out.2 = ["a1"; "a2"; "a3"].
Proof.
  intros out.
  destruct (ClaimDue Up Up (fun s => s) sampleQueue ∅ Second "tok" 50 10 (2 * Minute) sampleQueue) as [s1 [ds|e]] eqn:E;
    [|by vm_compute in E].
  destruct out as [[s' more] posts] eqn:Eo.
  destruct (batch_answers_for_its_claim sampleHMAC NewDurableWorker (fun s => s) sampleQueue ∅ 0 Second "tok"
    (fun _ => sampleGroupEnv (Responded 200)) sampleSubs sampleQueue s' more posts ds s1) as (H1 & H2 & _ & _).
  - done.
  - apply sample_fresh.
  - intros s. apply sheds_refl.
  - intros n. split; [|done]. intros m. split; [done|]. intros s. apply sheds_refl.
  - exact E.
  - exact Eo.
  - split; [exact H1|]. split; [exact H2|]. apply (f_equal snd) in Eo. simpl in Eo. subst posts. by vm_compute.
Defined.

Lemma notification_ends_witness :
  let d := mkDelivery "a1" "t" "h" "delivered" "{}" DeliveryStatusSending 0 "tok" 0 "" 1 1 in
  over (attempts sampleHMAC (replicate 9 (sampleAttempt (Responded 500), sampleSubs)) d).1 = true.
Proof.
  intros d. apply (notification_ends sampleHMAC (replicate 9 (sampleAttempt (Responded 500), sampleSubs)) d 8);
    [done|done|done|simpl; lia].
Defined.

Lemma dead_endpoint_is_left_alone_witness :
  let ds := list_claimed "tok" (claim_stmt sampleQueue ∅ "tok" (time_add Second (lease NewDurableWorker)) Second 50 10 sampleQueue) in
  let group := filter (fun d => WebhookID d = "h") ds in
  let out := deliverGroup sampleHMAC NewDurableWorker (30 * Second) (sampleGroupEnv (Unreachable "connection refused"))
               sampleSubs 0 0 0 group sampleQueue in
  (length group = 3 /\ length out.2 <= 2)%nat.
Proof.
  intros ds group out. assert (Hg : length group = 3%nat) by (by vm_compute). split; [exact Hg|].
  destruct out as [s' posts] eqn:E.
  destruct (dead_endpoint_is_left_alone sampleHMAC NewDurableWorker (30 * Second)
    (sampleGroupEnv (Unreachable "connection refused")) sampleSubs "t" "h" group sampleQueue s' posts) as [Hp _].
  - rewrite Hg. simpl. lia.
  - vm_compute. repeat constructor.
  - clear. intros n. split; [|reflexivity]. split; [reflexivity|]. split; [reflexivity|].
    split; [exists sampleHook; split; [apply lookup_singleton_eq|split; reflexivity]|].
    exists "connection refused". left. reflexivity.
  - reflexivity.
  - exact E.
  - exact Hp.
Defined.

Lemma event_reaches_its_subscribers_witness :
  let uuids := fun n => "new" ++ FormatInt (Z.of_nat n) in
  let out := Enqueue sampleMarshal sampleName Up (fun _ => Up) uuids 0 (fun _ => 5) "t" 1 "data" sampleSubs sampleQueue in
  exists id, out.1 !! id = Some (queued sampleName "t" 1 "data" 5 sampleHook).
Proof.
  intros uuids out. destruct out as [s' woke] eqn:E.
  destruct (event_reaches_its_subscribers sampleMarshal sampleName (fun _ => Up) uuids 0 (fun _ => 5) "t" 1 "data" sampleSubs
    sampleQueue s' woke "data") as (wanted & Hp & _ & Hw & _).
  - done.
  - intros i j H. unfold uuids in H. simpl in H. injection H as H. apply FormatInt_inj in H. lia.
  - intros i. unfold uuids, sampleQueue. rewrite !lookup_insert_ne, lookup_singleton_ne by discriminate. reflexivity.
  - done.
  - exact E.
  - destruct wanted as [|x wanted]; [apply Permutation_nil_l in Hp; by vm_compute in Hp|].
    assert (Hx : x = sampleHook).
    { assert (Hin : x ∈ x :: wanted) by (by left). rewrite Hp in Hin. apply list_elem_of_filter in Hin as [_ Hin].
      vm_compute in Hin. by apply list_elem_of_singleton in Hin. }
    subst x. exists (uuids 0%nat). by apply (Hw 0%nat sampleHook).
Defined.

Lemma signature_binds_body_and_time_witness :
  let p := applySignature sampleHMAC "https://example.org/hook" "s3cret" "delivered" "a1" "{}" unixEpoch in
  P_Signature p = Some (sign sampleHMAC "s3cret" 0 "{}").
Proof.
  intros p.
  apply (signature_binds_body_and_time sampleHMAC "https://example.org/hook" "s3cret" "delivered" "a1" "{}" unixEpoch 0 "{}" p);
    [done|done|done|split; by vm_compute].
Defined.

End Webhooks.
