(* ===== verification/Send.v ===== *)
(** * The send path: admission and delivery

    Models [internal/email/usecases/send_email_usecase.go] (SendEmail, doSend
    and their helpers), send_idempotency.go (requestHash, replay, lostKeyRace),
    send_suppression_delivery.go, send_domain.go, send_refusals.go,
    sent_copy.go (queueSentCopy) and the settled events of
    send_recipient_failures.go.

    SendEmail runs twice per message: a client's call admits it and queues a
    row in the outbox ([admit]); the outbox worker's call delivers it
    ([doSend]).  The state a call changes is [World]; its calls on
    collaborators are [effect]s in order; what collaborators answer is [Env].
    Code outside the repository (address parsing, uuid parsing, marshalling and
    hashing, the outlook converter) and the parts not modelled here (template
    rendering, tracking links) are section parameters. *)
From S2P Require Import Prelude GoStrings Cache RateLimit Outbox Classify Admission QueueWorker.
From S2P Require Import Filter Quarantine Suppression Senders SendRate Events.

Module Send.
Import GoStrings Classify Admission.
#[local] Existing Instance Senders.Match_eq_dec.
Local Open Scope Z_scope.

(** ** Data *)

Record SendEmailResponse := mkResponse {
  MessageId : string;
  Status : EmailEventType
}.

(** The parts of a stored template the send path reads. *)
Record Template := mkTemplate {
  T_Subject : string;
  T_BodyHTML : string;
  T_BodyText : string
}.

(** [gsmail.Email], as the send path fills it.  It has no Bcc. *)
Record Email := mkEmail {
  E_From : string;
  E_To : list string;
  E_Cc : list string;
  E_Envelope : list string;
  E_Subject : string;
  E_Body : string;
  E_HTMLBody : string;
  E_ReplyTo : string;
  E_Headers : gmap string string;
  E_Attachments : list Attachment
}.

(** Why a send was refused or failed (send_refusals.go, send_idempotency.go,
    send_rate_limit.go, send_recipient_failures.go); [Plain] is an error with
    only its text. *)
Inductive sendError :=
| Plain (text : string)
| BadFrom (from cause : string)
| BadKey (e : keyError)
| BadRecipients (e : recipientError)
| BadAttachments (e : attachmentError)
| BadReplyHeaders (e : replyHeaderError)
| ProviderNotFound (id : string)
| ProviderSenderRefused (provider sender : string)
| SuppressedRecipient (recipient reason : string)
| FilterRefused (rule : string)
| TemplateRefused (id stage cause : string)
| KeyConflict (message : string)
| KeyInFlight
| OverCapacity (e : SendRate.rateError)
| DeliveryPaced (after : Z)
| FailedRecipients (rf : QueueWorker.RecipientFailuresError).

(** ** Finished recipients *)

(** [settledEvents] (send_recipient_failures.go). *)
Definition settledEvents (t : EmailEventType) : bool :=
  match t with
  | HARD_BOUNCE | SPAM_REPORT | COMPLAINED | UNSUBSCRIBED | REJECTED | DROPPED => true
  | _ => false
  end.

Definition recipientsOf (p : EmailEventType -> bool) (events : list Events.EmailEvent) : gset string :=
  list_to_set (Events.Recipient <$> filter (fun e => p (Events.Type_ e) = true) events).

Definition isDelivered (t : EmailEventType) : bool := bool_decide (t = DELIVERED).

(** [finishedFrom]: the delivered, the settled, and the two together. *)
Definition finishedFrom (events : list Events.EmailEvent) : gset string * gset string * gset string :=
  let delivered := recipientsOf isDelivered events in
  let settled := recipientsOf settledEvents events in
  (delivered, settled, delivered ∪ settled).

Definition FinishedRecipients (history : result string (list Events.EmailEvent)) : result string (gset string) :=
  match history with
  | Ok events => Ok (finishedFrom events).2
  | Err e => Err e
  end.

(** ** Who may send (send_domain.go) *)

Definition providerSenderMatch (p : SendRate.EmailProvider) (address : string) : Senders.Match :=
  Senders.MatchAddress (SendRate.AllowedSenders p) address.

(** What is left of [U] once [d] of it is handled too. *)
Lemma size_left_over (U seen d : gset string) :
  d ⊆ U -> seen ## d -> (size (U ∖ (seen ∪ d)) + size d = size (U ∖ seen))%nat.
Proof.
  intros Hsub Hdis. rewrite <- size_union by (intros y; rewrite elem_of_difference, elem_of_union; tauto). f_equal. apply set_eq. intros x.
  pose proof (Hsub x). pose proof (Hdis x). rewrite elem_of_union, !elem_of_difference, elem_of_union.
  destruct (decide (x ∈ d)); tauto.
Qed.

Section Send.
Context {F : Type} `{Num F} (order : gmap string nat -> list (string * nat)).
Context {CL : Type} `{!TTLCache.CacheSpec CL Limit}.
Context {CB : Type} `{!TTLCache.CacheSpec CB Z}.
Context {CP : Type} `{!TTLCache.CacheSpec CP (list SendRate.EmailProvider)}.
Context {CT : Type} `{!TTLCache.CacheSpec CT Template}.
Context {Re : Type}.

(** Libraries. *)
Context (ParseEmailAddress : string -> result string string).
Context (uuid_ok : string -> bool).
Context (marshalHash : SendEmailRequest -> result string string).   (* proto.Marshal, then sha256 *)
Context (Marshal : SendEmailRequest -> result string string).       (* protojson.Marshal *)
Context (AlreadyConverted : string -> bool) (ToOutlookHTML : string -> string).

(** Parts of the gateway not modelled here: the template renderer, the tracking
    links, the one-click unsubscribe headers and the bounce reference. *)
Context (Render : string -> string -> bool -> result string string).
Context (injectTracking : string -> string -> string -> string -> string).
Context (unsubscribeHeaders : string -> string -> string -> gmap string string).
Context (bounceRef : string -> string -> string -> gmap string string).

Definition nilUUID : string := "00000000-0000-0000-0000-000000000000".

Record World := mkWorld {
  w_db : Outbox.DB;
  w_rates : SendRate.Rates (F := F) (CL := CL) (CB := CB);
  w_providers : CP;
  w_templates : CT
}.

Definition set_db (db : Outbox.DB) (w : World) : World := mkWorld db (w_rates w) (w_providers w) (w_templates w).
Definition set_rates r (w : World) : World := mkWorld (w_db w) r (w_providers w) (w_templates w).
Definition set_providers c (w : World) : World := mkWorld (w_db w) (w_rates w) c (w_templates w).
Definition set_templates c (w : World) : World := mkWorld (w_db w) (w_rates w) (w_providers w) c.

(** Calls on collaborators, in order. *)
Inductive effect :=
| Event (tenant provider message : string) (ty : EmailEventType) (recipient subject err : string)
| RecordFiltered (r : @Quarantine.FilteredMessage Re)
| CopyQueued (tenant message : string) (req : SendEmailRequest)
| SavedMessage (m : Events.EmailMessage)
| TriggerWorker
| Handed (p : SendRate.EmailProvider) (m : Email) (accepted : bool).

(** What one call to SendEmail is answered. *)
Record Env := mkEnv {
  now_cache : Z; now_limit : Z; now_replay : Z; now_key : Z;
  now_next : Z; now_created : Z; now_updated : Z; now_saved : Z;
  new_id : string;
  providers_list : result string (list SendRate.EmailProvider);
  provider_get : string -> result string (option SendRate.EmailProvider);
  template_get : string -> result string (option Template);
  tenant_get : string -> result string (option (Z * Z));
  sup_table : Suppression.Table;
  sup_faults : nat -> fault;
  sup_present : bool;
  screen : option (Filter.Message -> result string (@Filter.Decision Re));
  sent_copies : bool;
  worker : bool;
  f_replay : fault; f_count : fault; f_create : fault; f_reread : fault;
  before_create : list Outbox.op;              (* others' statements since the replay *)
  before_reread : list Outbox.op;
  history : result string (list Events.EmailEvent);
  pace_interrupted : bool;
  ctx_err : string -> option string;           (* ctx.Err() when the loop reaches a recipient *)
  create_sender : SendRate.EmailProvider -> option string;
  send : SendRate.EmailProvider -> Email -> option string;
  range : list (string * string) -> list (string * string)  (* the order a map is visited in *)
}.

(** A step of the send path: the state and the calls made, and a result or the
    error the caller gets. *)
Definition M (A : Type) : Type := World -> World * list effect * result sendError A.

Definition mret_ {A} (a : A) : M A := fun w => (w, [], Ok a).
Definition fail {A} (e : sendError) : M A := fun w => (w, [], Err e).
Definition emit (effs : list effect) : M unit := fun w => (w, effs, Ok tt).
Definition mbind_ {A B} (m : M A) (k : A -> M B) : M B :=
  fun w =>
    match m w with
    | (w1, e1, Ok a) => let '(w2, e2, r) := k a w1 in (w2, e1 ++ e2, r)
    | (w1, e1, Err e) => (w1, e1, Err e)
    end.
Local Notation "'let*' x ':=' m 'in' k" := (mbind_ m (fun x => k))
  (at level 10, x pattern, m at level 100, k at level 200).

Definition lift {A} (r : result sendError A) : M A :=
  match r with Ok a => mret_ a | Err e => fail e end.

(** ** Lookups through the caches *)

Definition getProviders (env : Env) (tenant : string) (w : World) :
    World * result string (list SendRate.EmailProvider) :=
  match TTLCache.cs_get (w_providers w) tenant (now_cache env) with
  | (Some ps, c) => (set_providers c w, Ok ps)
  | (None, c) =>
      match providers_list env with
      | Ok ps => (set_providers (TTLCache.cs_put c tenant ps (now_cache env) (now_cache env)) w, Ok ps)
      | Err e => (set_providers c w, Err e)
      end
  end.

Definition findProvider (id : string) (ps : list SendRate.EmailProvider) : option SendRate.EmailProvider :=
  head (filter (fun p => SendRate.ID p = id) ps).

Definition getProvider (env : Env) (tenant id : string) (w : World) :
    World * result string (option SendRate.EmailProvider) :=
  let '(w', r) := getProviders env tenant w in
  match (match r with Ok ps => findProvider id ps | Err _ => None end) with
  | Some p => (w', Ok (Some p))
  | None => (w', provider_get env id)
  end.

Definition getTemplate (env : Env) (tenant id : string) (w : World) : World * result string (option Template) :=
  let key := (tenant +:+ ":" +:+ id)%string in
  match TTLCache.cs_get (w_templates w) key (now_cache env) with
  | (Some t, c) => (set_templates c w, Ok (Some t))
  | (None, c) =>
      match template_get env id with
      | Ok (Some t) => (set_templates (TTLCache.cs_put c key t (now_cache env) (now_cache env)) w, Ok (Some t))
      | r => (set_templates c w, r)
      end
  end.

(** What a message says once rendered. *)
Record Rendered := mkRendered {
  r_subject : string;
  r_html : string;
  r_text : string
}.

Definition renderParts (req : SendEmailRequest) (t : Template) : result sendError Rendered :=
  let subject := Render (T_Subject t) (TemplateData req) false in
  let html := Render (T_BodyHTML t) (TemplateData req) true in
  let text := Render (T_BodyText t) (TemplateData req) false in
  match subject, html, text with
  | Err e, _, _ => Err (TemplateRefused (TemplateId req) "subject" e)
  | _, Err e, _ => Err (TemplateRefused (TemplateId req) "body_html" e)
  | _, _, Err e => Err (TemplateRefused (TemplateId req) "body_text" e)
  | Ok s, Ok h, Ok x => Ok (mkRendered s h x)
  end.

Definition plainParts (req : SendEmailRequest) : Rendered :=
  if negb (bool_decide (BodyHtml req = ""%string)) || negb (bool_decide (BodyText req = ""%string))
  then mkRendered (Subject req) (BodyHtml req) (BodyText req)
  else if IsHtml req then mkRendered (Subject req) (Body req) ""
  else mkRendered (Subject req) "" (Body req).

Definition renderTemplate (env : Env) (tenant : string) (req : SendEmailRequest) : M Rendered :=
  if bool_decide (TemplateId req = ""%string) then mret_ (plainParts req)
  else fun w =>
    match getTemplate env tenant (TemplateId req) w with
    | (w', Err e) => (w', [], Err (Plain ("failed to get template: " +:+ e)%string))
    | (w', Ok None) => (w', [], Err (TemplateRefused (TemplateId req) "" ""))
    | (w', Ok (Some t)) => (w', [], renderParts req t)
    end.

(** [suppressionsFor]: the reason of each suppressed address. *)
Definition suppressionsFor (env : Env) (tenant : string) (keys : list string) :
    result string (gmap string string) :=
  match Suppression.GetByEmails (sup_faults env) tenant keys (sup_table env) with
  | Ok found => Ok (Suppression.Reason <$> found)
  | Err e => Err e
  end.

(** ** Idempotent replay (send_idempotency.go) *)

Definition without_key (req : SendEmailRequest) : SendEmailRequest :=
  {| From_ := From_ req; To := To req; Cc := Cc req; Bcc := Bcc req; ProviderId := ProviderId req;
     Subject := Subject req; TemplateId := TemplateId req; TemplateData := TemplateData req;
     BodyHtml := BodyHtml req; BodyText := BodyText req; Body := Body req; IsHtml := IsHtml req;
     Attachments := Attachments req; IdempotencyKey := ""; ReplyTo := ReplyTo req;
     InReplyTo := InReplyTo req; References := References req;
     DispositionNotificationTo := DispositionNotificationTo req; SaveSentCopy := SaveSentCopy req |}.

Definition requestHash (req : SendEmailRequest) : result sendError string :=
  match marshalHash (without_key req) with
  | Ok h => Ok h
  | Err e => Err (Plain ("failed to hash request: " +:+ e)%string)
  end.

Definition replay (f : fault) (now : Z) (tenant key hash : string) (db : Outbox.DB) :
    result sendError (option SendEmailResponse) :=
  match Outbox.GetIdempotencyKey f tenant key (time_add now (- IdempotencyKeyWindow)) db with
  | Err e => Err (Plain ("failed to read idempotency key: " +:+ e)%string)
  | Ok None => Ok None
  | Ok (Some k) =>
      if bool_decide (Outbox.K_RequestHash k = hash)
      then Ok (Some (mkResponse (Outbox.K_MessageID k) PENDING))
      else Err (KeyConflict (Outbox.K_MessageID k))
  end.

Definition lostKeyRace (f : fault) (now : Z) (tenant key hash : string) (db : Outbox.DB) :
    result sendError SendEmailResponse :=
  match replay f now tenant key hash db with
  | Err e => Err e
  | Ok None => Err KeyInFlight
  | Ok (Some r) => Ok r
  end.

(** ** Admission *)

(** The checks of a request that look nothing up, in order. *)
Definition validateSend (tenant : string) (req : SendEmailRequest) : result sendError resolvedRecipients :=
  if bool_decide (tenant = ""%string) then Err (Plain "tenant id is mandatory")
  else if negb (uuid_ok tenant) then
    Err (Plain ("invalid tenant id format: " +:+ tenant +:+ ". tenant id must be a valid UUID")%string)
  else if bool_decide (tenant = nilUUID) then
    Err (Plain "tenant id cannot be nil uuid (00000000-0000-0000-0000-000000000000)")
  else if bool_decide (From_ req = ""%string) then Err (Plain "from address is mandatory")
  else if bool_decide (ProviderId req = ""%string) then Err (Plain "provider id is mandatory")
  else if negb (uuid_ok (ProviderId req)) then
    Err (Plain ("invalid provider id format: " +:+ ProviderId req +:+ ". provider id must be a valid UUID")%string)
  else if bool_decide (ProviderId req = nilUUID) then
    Err (Plain "provider id cannot be nil uuid (00000000-0000-0000-0000-000000000000)")
  else if bool_decide (To req = []) then Err (Plain "at least one recipient is required")
  else
    match ValidateIdempotencyKey (IdempotencyKey req) with
    | Err e => Err (BadKey e)
    | Ok _ =>
    match ParseEmailAddress (From_ req) with
    | Err e => Err (BadFrom (From_ req) e)
    | Ok _ =>
    match resolveRecipients ParseEmailAddress [To req; Cc req; Bcc req] with
    | Err e => Err (BadRecipients e)
    | Ok recipients =>
    match validateAttachments req with
    | Err e => Err (BadAttachments e)
    | Ok _ =>
    match validateReplyHeaders ParseEmailAddress req with
    | Err e => Err (BadReplyHeaders e)
    | Ok _ => Ok recipients
    end end end end end.

Definition loadProvider (env : Env) (tenant id : string) : M SendRate.EmailProvider :=
  fun w =>
    match getProvider env tenant id w with
    | (w', Err e) => (w', [], Err (Plain ("failed to get provider: " +:+ e)%string))
    | (w', Ok None) => (w', [], Err (ProviderNotFound id))
    | (w', Ok (Some p)) => (w', [], Ok p)
    end.

Definition senderAddress (from : string) : result sendError string :=
  match Senders.Address ParseEmailAddress from with
  | Ok a => Ok a
  | Err e => Err (Plain e)
  end.

Definition checkRate (env : Env) (tenant : string) (p : SendRate.EmailProvider) (req : SendEmailRequest) : M unit :=
  fun w =>
    let '(o, r) := SendRate.checkSendRate order (tenant_get env) (f_count env) (now_limit env) tenant (Some p)
                     (SendRate.recipientCount (To req) (Cc req) (Bcc req)) (w_db w) (w_rates w) in
    (set_rates r w, [], match o with None => Ok tt | Some e => Err (OverCapacity e) end).

(** The first recipient on the suppression list, and its reason. *)
Fixpoint firstSuppressed (reasons : gmap string string) (addresses normalised : list string) :
    option (string * string) :=
  match addresses, normalised with
  | a :: addresses', k :: normalised' =>
      match reasons !! k with
      | Some reason => Some (a, reason)
      | None => firstSuppressed reasons addresses' normalised'
      end
  | _, _ => None
  end.

Definition checkSuppressed (env : Env) (tenant : string) (recipients : resolvedRecipients) : M unit :=
  match suppressionsFor env tenant (normalised recipients) with
  | Err e => fail (Plain e)
  | Ok reasons =>
      match firstSuppressed reasons (addresses recipients) (normalised recipients) with
      | Some (recipient, reason) =>
          let* _ := emit [Event tenant "" (new_id env) DROPPED recipient "" reason] in
          fail (SuppressedRecipient recipient reason)
      | None => mret_ tt
      end
  end.

(** [filterAttachments] (filter_projection.go). *)
Definition filterAttachments (l : list (option Attachment)) : list Filter.Attachment :=
  omap (fun o => match o with
                 | Some a => Some (Filter.mkAttachment (Filename a) (ContentType a) (strlen (Content a)) (Content a) "")
                 | None => None
                 end) l.

Definition screened (req : SendEmailRequest) (r : Rendered) : Filter.Message :=
  Filter.mkMessage (From_ req) (To req) (Cc req) (Bcc req) (r_subject r) (r_html r) (r_text r) ∅
    (filterAttachments (Attachments req))
    (approximateSize (r_subject r) (r_html r) (r_text r) (Attachments req)) (ProviderId req) "" "" "".

Definition with_message (id payload : string) (m : @Quarantine.FilteredMessage Re) : @Quarantine.FilteredMessage Re :=
  Quarantine.mkFiltered (Quarantine.ID m) (Quarantine.TenantID m) (Quarantine.FDirection m) (Quarantine.RuleID m)
    (Quarantine.RuleName m) (Quarantine.FAction m) (Quarantine.FStatus m) id (Quarantine.FFrom m)
    (Quarantine.FRecipients m) (Quarantine.FSubject m) (Quarantine.SizeBytes m) (Quarantine.AttachmentCount m)
    (Quarantine.AttachmentNames m) (Quarantine.Matched m) payload (Quarantine.FProviderID m)
    (Quarantine.ReviewedBy m) (Quarantine.ReviewedAt m) (Quarantine.ReviewNote m) (Quarantine.CreatedAt m)
    (Quarantine.ExpiresAt m).

(** The filter rules: the status to queue with, and the record of a hold. *)
Definition applyFilter (env : Env) (tenant : string) (req : SendEmailRequest) (recipients : resolvedRecipients)
    (r : Rendered) : M (Outbox.OutboxStatus * option (@Quarantine.FilteredMessage Re)) :=
  match screen env with
  | None => mret_ (Outbox.Pending, None)
  | Some Screen =>
      match Screen (screened req r) with
      | Err e => fail (Plain ("failed to screen message: " +:+ e)%string)
      | Ok d =>
          let record := with_message (new_id env) ""
                          (Quarantine.NewFilteredMessage tenant Filter.DirectionOutbound (screened req r) d) in
          match Filter.DAction d with
          | Filter.ActionReject =>
              let* _ := emit (RecordFiltered record ::
                map (fun x => Event tenant (ProviderId req) (new_id env) REJECTED x ""
                                ("filter rule: " +:+ Quarantine.RuleName record)%string) (addresses recipients)) in
              fail (FilterRefused (Quarantine.RuleName record))
          | Filter.ActionHold =>
              mret_ (Outbox.Held, Some (with_message (new_id env) (new_id env) record))
          | Filter.ActionTag =>
              let* _ := emit [RecordFiltered record] in mret_ (Outbox.Pending, None)
          | _ => mret_ (Outbox.Pending, None)
          end
      end
  end.

(** The row of an accepted message; [Some] is the answer of the request that
    took the key first. *)
Definition enqueue (env : Env) (tenant : string) (req : SendEmailRequest) (keyHash : string)
    (status : Outbox.OutboxStatus) : M (option SendEmailResponse) :=
  match Marshal req with
  | Err e => fail (Plain ("failed to enqueue email: " +:+ e)%string)
  | Ok bytes =>
      let row := Outbox.mkOutboxEmail (new_id env) tenant bytes status 0 (now_next env) ""
                   (now_created env) (now_updated env) "" in
      fun w =>
        let db := Outbox.run (before_create env) (w_db w) in
        if bool_decide (IdempotencyKey req = ""%string) then
          match Outbox.Create (f_create env) row db with
          | (db', Ok _) => (set_db db' w, [], Ok None)
          | (db', Err e) => (set_db db' w, [], Err (Plain ("failed to enqueue email: " +:+ e)%string))
          end
        else
          let k := Outbox.mkIdempotencyKey tenant (IdempotencyKey req) keyHash (new_id env) (now_key env) in
          match Outbox.CreateWithIdempotencyKey (f_create env) row k
                  (time_add (now_key env) (- IdempotencyKeyWindow)) db with
          | (db', Ok _) => (set_db db' w, [], Ok None)
          | (db', Err e) =>
              if bool_decide (e = Outbox.ErrIdempotencyKeyTaken) then
                let db'' := Outbox.run (before_reread env) db' in
                (set_db db'' w, [],
                 match lostKeyRace (f_reread env) (now_key env) tenant (IdempotencyKey req) keyHash db'' with
                 | Ok r => Ok (Some r)
                 | Err e => Err e
                 end)
              else (set_db db' w, [], Err (Plain ("failed to enqueue email: " +:+ e)%string))
          end
  end.

(** [queueSentCopy] (sent_copy.go): the message as sent, template rendered. *)
Definition sentCopyRequest (req : SendEmailRequest) (r : Rendered) : SendEmailRequest :=
  {| From_ := From_ req; To := To req; Cc := Cc req; Bcc := Bcc req; ProviderId := ProviderId req;
     Subject := r_subject r; TemplateId := ""; TemplateData := "";
     BodyHtml := r_html r; BodyText := r_text r; Body := ""; IsHtml := false;
     Attachments := Attachments req; IdempotencyKey := ""; ReplyTo := ReplyTo req;
     InReplyTo := InReplyTo req; References := References req;
     DispositionNotificationTo := DispositionNotificationTo req; SaveSentCopy := SaveSentCopy req |}.

Definition queueSentCopy (env : Env) (tenant : string) (req : SendEmailRequest) (r : Rendered) : list effect :=
  if negb (sent_copies env) || negb (SaveSentCopy req) then []
  else [CopyQueued tenant (new_id env) (sentCopyRequest req r)].

Definition savedMessage (env : Env) (tenant : string) (req : SendEmailRequest) (r : Rendered) : Events.EmailMessage :=
  Events.mkEmailMessage (new_id env) tenant (ProviderId req) (From_ req) (To req) (Cc req) (Bcc req)
    (r_subject r) (r_html r) (r_text r) (Attachments req) (now_saved env).

(** What follows acceptance. *)
Definition accepted (env : Env) (tenant : string) (req : SendEmailRequest) (recipients : resolvedRecipients)
    (r : Rendered) (held : option (@Quarantine.FilteredMessage Re)) : M SendEmailResponse :=
  let* _ := emit (queueSentCopy env tenant req r) in
  let* _ := emit [SavedMessage (savedMessage env tenant req r)] in
  let* _ := emit (map (fun x => Event tenant (ProviderId req) (new_id env) PENDING x "" "") (addresses recipients)) in
  let* _ := emit (match held with
                  | Some record => [RecordFiltered record]
                  | None => if worker env then [TriggerWorker] else []
                  end) in
  mret_ (mkResponse (new_id env) PENDING).

Definition replayed (env : Env) (tenant : string) (req : SendEmailRequest) :
    M (string * option SendEmailResponse) :=
  if bool_decide (IdempotencyKey req = ""%string) then mret_ (""%string, None)
  else
    let* hash := lift (requestHash req) in
    fun w => (w, [], match replay (f_replay env) (now_replay env) tenant (IdempotencyKey req) hash (w_db w) with
                     | Ok r => Ok (hash, r)
                     | Err e => Err e
                     end).

(** Every decision about a new message before it is queued: who may send it, the
    ceilings, the suppression list, the template, the filter rules. *)
Definition vet (env : Env) (tenant : string) (req : SendEmailRequest) (recipients : resolvedRecipients)
    (p : SendRate.EmailProvider) :
    M (Rendered * (Outbox.OutboxStatus * option (@Quarantine.FilteredMessage Re))) :=
  let* sender := lift (senderAddress (From_ req)) in
  if negb (Senders.Allowed (providerSenderMatch p sender))
  then fail (ProviderSenderRefused (SendRate.Name p) sender)
  else
    let* _ := checkRate env tenant p req in
    let* _ := checkSuppressed env tenant recipients in
    let* r := renderTemplate env tenant req in
    let* verdict := applyFilter env tenant req recipients r in
    mret_ (r, verdict).

(** A new message, once no earlier acceptance answers for its key. *)
Definition admitNew (env : Env) (tenant : string) (req : SendEmailRequest) (recipients : resolvedRecipients)
    (p : SendRate.EmailProvider) (keyHash : string) : M SendEmailResponse :=
  let* (r, (status, held)) := vet env tenant req recipients p in
  let* won := enqueue env tenant req keyHash status in
  match won with
  | Some first => mret_ first
  | None => accepted env tenant req recipients r held
  end.

Definition admit_send (env : Env) (tenant : string) (req : SendEmailRequest) (recipients : resolvedRecipients)
    (p : SendRate.EmailProvider) : M SendEmailResponse :=
  let* (keyHash, earlier) := replayed env tenant req in
  match earlier with
  | Some res => mret_ res
  | None => admitNew env tenant req recipients p keyHash
  end.

(** ** Delivery *)

(** The provider a request names, if the tenant still has it: from the cached
    list, else from the store; an error of either reads as none. *)
Definition namedProvider (env : Env) (tenant id : string) (w : World) : World * option SendRate.EmailProvider :=
  if bool_decide (id = ""%string) then (w, None)
  else
    let '(w', all) := getProviders env tenant w in
    match (match all with Ok ps => findProvider id ps | Err _ => None end) with
    | Some p => (w', Some p)
    | None => (w', match provider_get env id with Ok o => o | Err _ => None end)
    end.

(** Of the tenant's senders, those of the most specific authorisation. *)
Definition bestMatches (from : string) (all : list SendRate.EmailProvider) : list SendRate.EmailProvider :=
  let by_ m := filter (fun p => SendRate.receiver p = false /\ providerSenderMatch p from = m) all in
  match by_ Senders.ByAddress, by_ Senders.ByDomain with
  | (_ :: _) as l, _ => l
  | [], (_ :: _) as l => l
  | [], [] => by_ Senders.Unrestricted
  end.

Definition selectProviders (env : Env) (tenant : string) (req : SendEmailRequest) (from : string) :
    M (list SendRate.EmailProvider) :=
  fun w =>
    match namedProvider env tenant (ProviderId req) w with
    | (w1, Some p) =>
        if negb (Senders.Allowed (providerSenderMatch p from))
        then (w1, [], Err (ProviderSenderRefused (SendRate.Name p) from))
        else (w1, [], Ok [p])
    | (w1, None) =>
        match getProviders env tenant w1 with
        | (w2, Err e) => (w2, [], Err (Plain ("failed to list providers: " +:+ e)%string))
        | (w2, Ok all) =>
            match bestMatches from all with
            | [] => (w2, [], Err (Plain ("no email providers available for tenant " +:+ tenant)%string))
            | ps => (w2, [], Ok ps)
            end
        end
    end.

(** [dropSuppressedAtDelivery] (send_suppression_delivery.go): the recipients
    suppressed since admission, each recorded as dropped. *)
Definition dropSuppressedAtDelivery (env : Env) (tenant message subject : string) (recipients : list string)
    (finished : gset string) : M (gset string) :=
  if negb (sup_present env) then mret_ ∅
  else
    let keyOf := map (fun r => (r, suppressionKeyOf ParseEmailAddress r))
                   (filter (fun r => r ∉ finished) recipients) in
    match keyOf with
    | [] => mret_ ∅
    | _ =>
        match suppressionsFor env tenant (map snd keyOf) with
        | Err e => fail (Plain e)
        | Ok reasons =>
            let hit := omap (fun rk => match reasons !! rk.2 with
                                       | Some reason => Some (rk.1, reason)
                                       | None => None
                                       end) (range env keyOf) in
            let* _ := emit (map (fun rr => Event tenant "" message DROPPED rr.1 subject rr.2) hit) in
            mret_ (list_to_set (map fst hit))
        end
    end.

Definition hardenForOutlook (html : string) : string :=
  if bool_decide (html = ""%string) || AlreadyConverted html then html else ToOutlookHTML html.

(** The copy of a message one recipient is sent. *)
Definition copyFor (env : Env) (tenant message : string) (req : SendEmailRequest) (r : Rendered)
    (recipient : string) : Email :=
  let html := if bool_decide (r_html r = ""%string) then r_html r
              else injectTracking tenant message recipient (r_html r) in
  let '(replyTo, headers) :=
    applyReplyHeaders req (bounceRef tenant message recipient ∪ unsubscribeHeaders tenant message recipient) in
  mkEmail (From_ req) (To req) (Cc req) [recipient] (r_subject r) (r_text r) (hardenForOutlook html)
    replyTo headers (omap (fun a => a) (Attachments req)).

(** The loop over providers for one recipient: its calls, whether a provider
    accepted the copy, and the last error. *)
Fixpoint tryProviders (env : Env) (tenant message subject recipient : string) (copy : Email)
    (providers : list SendRate.EmailProvider) (lastErr : option string) : list effect * bool * option string :=
  match providers with
  | [] => ([], false, lastErr)
  | p :: rest =>
      if SendRate.receiver p then tryProviders env tenant message subject recipient copy rest lastErr
      else
        match create_sender env p with
        | Some e => tryProviders env tenant message subject recipient copy rest (Some e)
        | None =>
            match send env p copy with
            | None =>
                ([Handed p copy true;
                  Event tenant (SendRate.ID p) message SENT recipient subject "";
                  Event tenant (SendRate.ID p) message DELIVERED recipient subject ""], true, lastErr)
            | Some e =>
                let '(effs, sent, err) := tryProviders env tenant message subject recipient copy rest (Some e) in
                (Handed p copy false ::
                 Event tenant (SendRate.ID p) message DEFERRED recipient subject e :: effs, sent, err)
            end
        end
  end.

Definition failure (recipient err : string) : QueueWorker.RecipientFailure :=
  QueueWorker.mkFailure recipient err (ClassifyError err).

(** What the loop over recipients has done so far. *)
Record Progress := mkProgress {
  pg_effects : list effect;
  pg_failures : list QueueWorker.RecipientFailure;
  pg_delivered : Z
}.

Definition deliverOne (env : Env) (tenant message : string) (req : SendEmailRequest) (r : Rendered)
    (providers : list SendRate.EmailProvider) (skip : gset string) (pg : Progress) (recipient : string) : Progress :=
  if bool_decide (recipient ∈ skip) then pg
  else
    match ctx_err env recipient with
    | Some e => mkProgress (pg_effects pg) (pg_failures pg ++ [failure recipient e]) (pg_delivered pg)
    | None =>
        let '(effs, sent, err) :=
          tryProviders env tenant message (r_subject r) recipient (copyFor env tenant message req r recipient)
            providers None in
        mkProgress (pg_effects pg ++ effs)
          (match sent, err with
           | false, Some e => pg_failures pg ++ [failure recipient e]
           | _, _ => pg_failures pg
           end)
          (if sent then pg_delivered pg + 1 else pg_delivered pg)
    end.

Definition deliverAll (env : Env) (tenant message : string) (req : SendEmailRequest) (r : Rendered)
    (providers : list SendRate.EmailProvider) (skip : gset string) (recipients : list string) : Progress :=
  foldl (deliverOne env tenant message req r providers skip) (mkProgress [] [] 0) recipients.

Definition pace (env : Env) (tenant : string) (providers : list SendRate.EmailProvider) (pending : Z) : M unit :=
  fun w =>
    let '(o, rates) := SendRate.paceDelivery order (tenant_get env) (pace_interrupted env) (now_limit env) tenant
                         (SendRate.firstSender providers) pending (w_rates w) in
    (set_rates rates w, [], match o with None => Ok tt | Some wait => Err (DeliveryPaced wait) end).

Definition doSend (env : Env) (tenant : string) (req : SendEmailRequest) (messageID : string) :
    M SendEmailResponse :=
  let message := if bool_decide (messageID = ""%string) then new_id env else messageID in
  let* from := lift (senderAddress (From_ req)) in
  let* providers := selectProviders env tenant req from in
  let* r := renderTemplate env tenant req in
  match history env with
  | Err e => fail (Plain ("failed to read delivery history: " +:+ e)%string)
  | Ok events =>
      let '(delivered, settled, finished) := finishedFrom events in
      let recipients := uniqueRecipients [To req; Cc req; Bcc req] in
      let* dropped := dropSuppressedAtDelivery env tenant message (r_subject r) recipients finished in
      let pending := length (filter (fun x => (x ∉ finished) /\ x ∉ dropped) recipients) in
      let* _ := pace env tenant providers (Z.of_nat pending) in
      let pg := deliverAll env tenant message req r providers (delivered ∪ (dropped ∪ settled)) recipients in
      let* _ := emit (pg_effects pg) in
      match pg_failures pg with
      | [] => mret_ (mkResponse message DELIVERED)
      | failures => fail (FailedRecipients (QueueWorker.mkFailures failures (pg_delivered pg)))
      end
  end.

(** ** The two modes *)

Inductive mode :=
| Client
| Worker (messageID : string).

Definition SendEmail (env : Env) (md : mode) (tenant : string) (req : SendEmailRequest) : M SendEmailResponse :=
  let* recipients := lift (validateSend tenant req) in
  let* p := loadProvider env tenant (ProviderId req) in
  match md with
  | Worker messageID => doSend env tenant req messageID
  | Client => admit_send env tenant req recipients p
  end.

(** What the outbox worker reads of a send's result: a paced delivery and
    per-recipient failures by type, permanent refusals by their marker, and
    everything else by its text ([text] for the errors that have more than
    one). *)
Definition outcome (text : sendError -> string) (r : result sendError SendEmailResponse) : QueueWorker.SendOutcome :=
  match r with
  | Ok _ => QueueWorker.Sent
  | Err (DeliveryPaced after) =>
      QueueWorker.SendFailed (QueueWorker.mkSendError "" (Some after) None false)
  | Err (FailedRecipients rf) =>
      QueueWorker.SendFailed (QueueWorker.mkSendError (QueueWorker.failures_Error rf) None (Some rf) false)
  | Err ((ProviderSenderRefused _ _ | TemplateRefused _ _ _) as e) =>
      QueueWorker.SendFailed (QueueWorker.mkSendError (text e) None None true)
  | Err (Plain t) => QueueWorker.SendFailed (QueueWorker.mkSendError t None None false)
  | Err e => QueueWorker.SendFailed (QueueWorker.mkSendError (text e) None None false)
  end.

(** ** One delivery pass *)

(** The copies of a pass: which provider, which message, whether accepted. *)
Definition handed (effs : list effect) : list (SendRate.EmailProvider * Email * bool) :=
  omap (fun x => match x with Handed p m b => Some (p, m, b) | _ => None end) effs.

(** The copies of [x]'s a provider accepted. *)
Definition copies (x : string) (effs : list effect) : nat :=
  length (filter (fun h : SendRate.EmailProvider * Email * bool => E_Envelope h.1.2 = [x] /\ h.2 = true)
            (handed effs)).

(** The recipients a pass records as delivered. *)
Definition deliveredIn (effs : list effect) : gset string :=
  list_to_set (omap (fun x => match x with
                              | Event _ _ _ DELIVERED r _ _ => Some r
                              | _ => None
                              end) effs).

(** The recipients a pass records as dropped. *)
Definition droppedIn (effs : list effect) : gset string :=
  list_to_set (omap (fun x => match x with
                              | Event _ _ _ DROPPED r _ _ => Some r
                              | _ => None
                              end) effs).

Lemma handed_app a b : handed (a ++ b) = handed a ++ handed b.
Proof. apply omap_app. Qed.

Lemma copies_app x a b : copies x (a ++ b) = (copies x a + copies x b)%nat.
Proof. unfold copies. by rewrite handed_app, filter_app, length_app. Qed.

Lemma deliveredIn_app a b : deliveredIn (a ++ b) = deliveredIn a ∪ deliveredIn b.
Proof. unfold deliveredIn. by rewrite omap_app, list_to_set_app_L. Qed.

Lemma no_handed_copies x effs : handed effs = [] -> copies x effs = 0%nat.
Proof. unfold copies. by intros ->. Qed.

(** An error seen is not forgotten unless a later provider accepts. *)
Lemma tryProviders_last env tenant message subject x copy ps : forall err effs sent err',
  is_Some err ->
  tryProviders env tenant message subject x copy ps err = (effs, sent, err') -> sent = true \/ is_Some err'.
Proof.
  induction ps as [|p ps IH]; intros err effs sent err' He H'; simpl in H'.
  { injection H' as <- <- <-. by right. }
  destruct (SendRate.receiver p); [by eapply IH|].
  destruct (create_sender env p); [eapply IH; [|exact H']; eauto|].
  destruct (send env p copy); [|simplify_eq; by left].
  destruct (tryProviders _ _ _ _ _ _ _ _) as [[effs2 sent2] err2] eqn:E. simplify_eq.
  eapply IH; [|exact E]; eauto.
Qed.

(** What the loop over providers does for one recipient: only the recipient's
    own copy is handed out, only to senders of the list, and it is accepted once
    exactly when the loop says it was sent. *)
Lemma tryProviders_spec env tenant message subject x copy ps : forall err effs sent err',
  E_Envelope copy = [x] ->
  tryProviders env tenant message subject x copy ps err = (effs, sent, err') ->
  (forall p m b, (p, m, b) ∈ handed effs -> p ∈ ps /\ SendRate.receiver p = false /\ m = copy) /\
  copies x effs = (if sent then 1 else 0)%nat /\
  deliveredIn effs = (if sent then {[x]} else ∅) /\
  (forall p, p ∈ ps -> SendRate.receiver p = false -> sent = true \/ is_Some err').
Proof.
  induction ps as [|p ps IH]; intros err effs sent err' Hc H'; simpl in H'.
  { simplify_eq. split_and!; [intros ??? Hin; by apply not_elem_of_nil in Hin|done|done|].
    intros p Hin; by apply not_elem_of_nil in Hin. }
  destruct (SendRate.receiver p) eqn:Er; [|destruct (create_sender env p) as [ce|] eqn:Ec].
  - destruct (IH _ _ _ _ Hc H') as (Ha & Hb & Hd & He). split_and!; [|done|done|].
    + intros q m b Hin. destruct (Ha q m b Hin) as (? & ? & ?). split_and!; [by right|done|done].
    + intros q Hq Hr. apply elem_of_cons in Hq as [->|Hq]; [congruence|by eapply He].
  - destruct (IH _ _ _ _ Hc H') as (Ha & Hb & Hd & He). split_and!; [|done|done|].
    + intros q m b Hin. destruct (Ha q m b Hin) as (? & ? & ?). split_and!; [by right|done|done].
    + intros q Hq Hr. eapply tryProviders_last; [|exact H']; eauto.
  - destruct (send env p copy) as [se|] eqn:Es.
    + destruct (tryProviders _ _ _ _ _ _ ps (Some se)) as [[e s] r] eqn:E. simplify_eq.
      destruct (IH _ _ _ _ Hc E) as (Ha & Hb & Hd & He). split_and!.
      * intros q m b Hin. simpl in Hin. apply elem_of_cons in Hin as [Hin|Hin]; [simplify_eq; split_and!; [by left|done|done]|].
        destruct (Ha q m b Hin) as (? & ? & ?). split_and!; [by right|done|done].
      * rewrite <- Hb. unfold copies. simpl. rewrite filter_cons_False; [done|]. by intros [_ ?].
      * done.
      * intros q Hq Hr. eapply tryProviders_last; [|exact E]; eauto.
    + simplify_eq. split_and!.
      * intros q m b Hin. simpl in Hin. apply list_elem_of_singleton in Hin. simplify_eq. split_and!; [by left|done|done].
      * unfold copies. simpl. by rewrite filter_cons_True.
      * unfold deliveredIn. simpl. by rewrite union_empty_r_L.
      * intros; by left.
Qed.

(** [p] sends, and did not take [copy]: its sender could not be made, or it
    refused the copy, with the error [e]. *)
Definition refusedBy (env : Env) (p : SendRate.EmailProvider) (copy : Email) (e : string) : Prop :=
  SendRate.receiver p = false /\
  (create_sender env p = Some e \/ create_sender env p = None /\ send env p copy = Some e).

(** The recipient [x]'s own error: that the pass was cancelled when its turn
    came; or else, none of the providers that send having taken its copy, the
    error of the last of them. *)
Definition own_error (env : Env) (ps : list SendRate.EmailProvider) (copy : Email) (x e : string) : Prop :=
  ctx_err env x = Some e \/
  ctx_err env x = None /\
  (forall q, q ∈ ps -> SendRate.receiver q = false -> exists e', refusedBy env q copy e') /\
  exists pre p post, ps = pre ++ p :: post /\ refusedBy env p copy e /\
    Forall (fun q => SendRate.receiver q = true) post.

(** The error a loop that reached nobody ends with. *)
Lemma tryProviders_cause env tenant message subject x copy ps : forall err effs err',
  tryProviders env tenant message subject x copy ps err = (effs, false, err') ->
  (forall q, q ∈ ps -> SendRate.receiver q = false -> exists e', refusedBy env q copy e') /\
  (err' = err /\ Forall (fun q => SendRate.receiver q = true) ps \/
   exists e pre p post, err' = Some e /\ ps = pre ++ p :: post /\ refusedBy env p copy e /\
     Forall (fun q => SendRate.receiver q = true) post).
Proof.
  induction ps as [|p ps IH]; intros err effs err' H'; simpl in H'.
  { simplify_eq. split; [|by left; constructor]. intros q Hq. by apply not_elem_of_nil in Hq. }
  destruct (SendRate.receiver p) eqn:Er.
  { destruct (IH _ _ _ H') as [Ha Hb]. split.
    - intros q Hq Hr. apply elem_of_cons in Hq as [->|Hq]; [congruence|by apply Ha].
    - destruct Hb as [[-> Hb]|(e & pre & q & post & -> & -> & ? & ?)]; [left; split; [done|by constructor]|].
      right. by exists e, (p :: pre), q, post. }
  assert (Hstep : forall e effs', refusedBy env p copy e ->
    tryProviders env tenant message subject x copy ps (Some e) = (effs', false, err') ->
    (forall q, q ∈ p :: ps -> SendRate.receiver q = false -> exists e', refusedBy env q copy e') /\
    exists e pre q post, err' = Some e /\ p :: ps = pre ++ q :: post /\ refusedBy env q copy e /\
      Forall (fun q => SendRate.receiver q = true) post).
  { intros e effs' Hp E. destruct (IH _ _ _ E) as [Ha Hb]. split.
    - intros q Hq Hr. apply elem_of_cons in Hq as [->|Hq]; [by exists e|by apply Ha].
    - destruct Hb as [[-> Hb]|(e' & pre & q & post & -> & -> & ? & ?)]; [by exists e, [], p, ps|].
      by exists e', (p :: pre), q, post. }
  destruct (create_sender env p) as [ce|] eqn:Ec.
  { destruct (Hstep ce effs) as [? ?]; [split; [done|by left]|done|]. split; [done|by right]. }
  destruct (send env p copy) as [se|] eqn:Es; [|by simplify_eq].
  destruct (tryProviders _ _ _ _ _ _ ps (Some se)) as [[e s'] r] eqn:E. simplify_eq.
  destruct (Hstep se e) as [? ?]; [split; [done|by right]|done|]. split; [done|by right].
Qed.

Lemma copyFor_envelope env tenant message req r x :
  E_Envelope (copyFor env tenant message req r x) = [x] /\
  E_To (copyFor env tenant message req r x) = To req /\ E_Cc (copyFor env tenant message req r x) = Cc req.
Proof. unfold copyFor. by destruct (applyReplyHeaders _ _). Qed.

(** What the loop over recipients has when it is done with [l]. *)
Record delivers env tenant message req r (ps : list SendRate.EmailProvider) (skip : gset string) (l : list string) (pg : Progress) : Prop := {
  dl_handed : forall p m b, (p, m, b) ∈ handed (pg_effects pg) ->
    p ∈ ps /\ SendRate.receiver p = false /\
    exists x, x ∈ l /\ (x ∉ skip) /\ m = copyFor env tenant message req r x;
  dl_once : forall x, copies x (pg_effects pg) = if bool_decide (x ∈ deliveredIn (pg_effects pg)) then 1%nat else 0%nat;
  dl_scope : forall x, x ∈ deliveredIn (pg_effects pg) -> x ∈ l /\ x ∉ skip;
  dl_count : pg_delivered pg = Z.of_nat (size (deliveredIn (pg_effects pg)));
  dl_failed : forall f, f ∈ pg_failures pg ->
    QueueWorker.Recipient f ∈ l /\ (QueueWorker.Recipient f ∉ skip) /\
    (QueueWorker.Recipient f ∉ deliveredIn (pg_effects pg)) /\
    QueueWorker.Class_ f = ClassifyError (QueueWorker.Cause f) /\
    own_error env ps (copyFor env tenant message req r (QueueWorker.Recipient f)) (QueueWorker.Recipient f)
      (QueueWorker.Cause f);
  dl_all : (exists p, p ∈ ps /\ SendRate.receiver p = false) -> forall x, x ∈ l -> x ∉ skip ->
    x ∈ deliveredIn (pg_effects pg) \/ x ∈ (QueueWorker.Recipient <$> pg_failures pg)
}.

Lemma copies_elsewhere env tenant message req r x y effs :
  (forall p m b, (p, m, b) ∈ handed effs -> m = copyFor env tenant message req r x) -> y <> x ->
  copies y effs = 0%nat.
Proof.
  intros Hm Hne. unfold copies. induction (handed effs) as [|[[p m] b] hs IH]; [done|].
  rewrite filter_cons_False.
  - apply IH. intros p' m' b' Hin. apply (Hm p' m' b'). by right.
  - simpl. rewrite (Hm p m b ltac:(by left)). destruct (copyFor_envelope env tenant message req r x) as [-> _].
    intros [E _]. by simplify_eq.
Qed.

Lemma deliverOne_step env tenant message req r ps skip l pg x :
  x ∉ l -> delivers env tenant message req r ps skip l pg ->
  delivers env tenant message req r ps skip (l ++ [x])
    (deliverOne env tenant message req r ps skip pg x).
Proof.
  intros Hx [Hh Ho Hs Hc Hf Ha].
  assert (Hnew : forall y, y ∈ l ++ [x] <-> y ∈ l \/ y = x).
  { intros y. rewrite elem_of_app, list_elem_of_singleton. done. }
  unfold deliverOne. case_bool_decide as Hsk; [|destruct (ctx_err env x) as [ce|] eqn:Ectx].
  - constructor; [| |intros y Hy; destruct (Hs y Hy); rewrite Hnew; tauto|done| |].
    + intros p m b Hin. destruct (Hh p m b Hin) as (? & ? & y & ? & ? & ?). split_and!; [done|done|].
      exists y. rewrite Hnew. tauto.
    + done.
    + intros f Hin. rewrite Hnew. destruct (Hf f Hin) as (? & ? & ? & ? & ?). tauto.
    + intros Hp y Hy Hny. apply Hnew in Hy as [Hy| ->]; [by apply Ha|done].
  - constructor; simpl; [| |intros y Hy; destruct (Hs y Hy); rewrite Hnew; tauto|done| |].
    + intros p m b Hin. destruct (Hh p m b Hin) as (? & ? & y & ? & ? & ?). split_and!; [done|done|].
      exists y. rewrite Hnew. tauto.
    + done.
    + intros f Hin. rewrite Hnew. apply elem_of_app in Hin as [Hin|Hin].
      * destruct (Hf f Hin) as (? & ? & ? & ? & ?). tauto.
      * apply list_elem_of_singleton in Hin. subst f. simpl. split_and!; [by right|done| |done|by left].
        intros Hd. by destruct (Hs x Hd).
    + intros Hp y Hy Hny. rewrite fmap_app, elem_of_app. apply Hnew in Hy as [Hy| ->].
      * destruct (Ha Hp y Hy Hny); [by left|by right; left].
      * right. right. by left.
  - destruct (tryProviders _ _ _ _ _ _ _ _) as [[effs sent] err] eqn:E.
    destruct (copyFor_envelope env tenant message req r x) as (Hcx & _ & _).
    destruct (tryProviders_spec _ _ _ _ _ _ _ _ _ _ _ Hcx E) as (Hth & Hto & Htd & Hta).
    assert (Hxd : x ∉ deliveredIn (pg_effects pg)) by (intros Hd; by destruct (Hs x Hd)).
    assert (Hin : forall y, y ∈ deliveredIn (pg_effects pg ++ effs) <->
                    y ∈ deliveredIn (pg_effects pg) \/ (sent = true /\ y = x)).
    { intros y. rewrite deliveredIn_app, elem_of_union, Htd. destruct sent.
      - rewrite elem_of_singleton. tauto.
      - pose proof (not_elem_of_empty (C := gset string) y). intuition congruence. }
    constructor; simpl.
    + intros p m b Hp. rewrite handed_app in Hp. apply elem_of_app in Hp as [Hp|Hp].
      * destruct (Hh p m b Hp) as (? & ? & y & ? & ? & ?). split_and!; [done|done|].
        exists y. rewrite Hnew. tauto.
      * destruct (Hth p m b Hp) as (? & ? & ->). split_and!; [done|done|].
        exists x. rewrite Hnew. tauto.
    + intros y. rewrite copies_app, Ho. destruct (decide (y = x)) as [->|Hne].
      * rewrite (bool_decide_eq_false_2 _ Hxd), Hto. destruct sent.
        -- by rewrite bool_decide_eq_true_2 by (apply Hin; tauto).
        -- rewrite bool_decide_eq_false_2; [done|]. rewrite Hin. intuition congruence.
      * rewrite (copies_elsewhere env tenant message req r x y effs); [|by intros p m b Hp; destruct (Hth p m b Hp) as (_ & _ & ?)|done].
        rewrite Nat.add_0_r. erewrite bool_decide_ext; [done|]. rewrite Hin. tauto.
    + intros y Hy. rewrite Hnew. apply Hin in Hy as [Hy|[_ ->]]; [destruct (Hs y Hy)|]; tauto.
    + rewrite deliveredIn_app, Htd. destruct sent.
      * rewrite size_union, size_singleton, Hc; [lia|].
        intros y Hy Hy'. apply elem_of_singleton in Hy' as ->. done.
      * by rewrite union_empty_r_L.
    + intros f Hfin.
      assert (Hold : f ∈ pg_failures pg -> QueueWorker.Recipient f ∈ l ++ [x] /\
        (QueueWorker.Recipient f ∉ skip) /\ (QueueWorker.Recipient f ∉ deliveredIn (pg_effects pg ++ effs)) /\
        QueueWorker.Class_ f = ClassifyError (QueueWorker.Cause f) /\
        own_error env ps (copyFor env tenant message req r (QueueWorker.Recipient f)) (QueueWorker.Recipient f)
          (QueueWorker.Cause f)).
      { intros H'. destruct (Hf f H') as (Hl & ? & Hnd & ? & ?). rewrite Hnew, Hin. split_and!; [tauto|done| |done|done].
        intros [?|[_ Heq]]; [done|]. by rewrite Heq in Hl. }
      destruct sent; [by apply Hold|]. destruct err as [e|]; [|by apply Hold].
      apply elem_of_app in Hfin as [Hfin|Hfin]; [by apply Hold|].
      apply list_elem_of_singleton in Hfin. subst f. simpl. rewrite Hnew, Hin.
      split_and!; [by right|done|intuition congruence|done|]. right. split; [done|].
      apply tryProviders_cause in E as [Hr [[? _]|(e' & pre & p & post & [= <-] & ? & ? & ?)]]; [done|].
      split; [done|]. by exists pre, p, post.
    + intros Hp y Hy Hny. rewrite Hin. apply Hnew in Hy as [Hy| ->].
      * destruct (Ha Hp y Hy Hny) as [?|Hfy]; [tauto|]. right.
        destruct sent; [done|]. destruct err; [|done]. rewrite fmap_app. apply elem_of_app. by left.
      * destruct Hp as (p & Hp1 & Hp2). destruct (Hta p Hp1 Hp2) as [-> |[e ->]]; [tauto|].
        destruct sent; [tauto|]. right. rewrite fmap_app. apply elem_of_app. right. by left.
Qed.

Lemma deliverAll_delivers env tenant message req r ps skip l :
  NoDup l -> delivers env tenant message req r ps skip l (deliverAll env tenant message req r ps skip l).
Proof.
  unfold deliverAll. induction l as [|x l IH] using rev_ind; intros Hnd.
  - constructor; simpl; try done; [..|intros _]; intros * Hin; by apply not_elem_of_nil in Hin || apply not_elem_of_empty in Hin.
  - rewrite foldl_snoc. apply NoDup_app in Hnd as (Hnd & Hd & _). apply deliverOne_step; [|by apply IH].
    intros Hin. apply (Hd x Hin). by left.
Qed.

(** ** Taking a run apart *)

Lemma bind_inv {A B} (m : M A) (k : A -> M B) w w' effs r :
  mbind_ m k w = (w', effs, r) ->
  (exists e, m w = (w', effs, Err e) /\ r = Err e) \/
  (exists w1 e1 a e2, m w = (w1, e1, Ok a) /\ k a w1 = (w', e2, r) /\ effs = e1 ++ e2).
Proof.
  unfold mbind_. destruct (m w) as [[w1 e1] [a|e]] eqn:E; [|intros; simplify_eq; left; eauto].
  destruct (k a w1) as [[w2 e2] r2] eqn:Ek. intros; simplify_eq. right. eauto 10.
Qed.

Lemma lift_inv {A} (x : result sendError A) w w' effs r : lift x w = (w', effs, r) -> w' = w /\ effs = [] /\ r = x.
Proof. unfold lift, mret_, fail. destruct x; intros; by simplify_eq. Qed.

(** A step that makes no calls. *)
Definition quiet {A} (m : M A) : Prop := forall w w' effs r, m w = (w', effs, r) -> effs = [].

Lemma quiet_lift {A} (x : result sendError A) : quiet (lift x).
Proof. intros w w' effs r H'. by apply lift_inv in H' as (_ & ? & _). Qed.

Lemma quiet_render env tenant req : quiet (renderTemplate env tenant req).
Proof. intros w w' effs r. unfold renderTemplate, mret_. repeat case_match; intros; by simplify_eq. Qed.

Lemma quiet_select env tenant req from : quiet (selectProviders env tenant req from).
Proof. intros w w' effs r. unfold selectProviders. repeat case_match; intros; by simplify_eq. Qed.

Lemma quiet_pace env tenant ps n : quiet (pace env tenant ps n).
Proof. intros w w' effs r. unfold pace. repeat case_match; intros; by simplify_eq. Qed.

Lemma quiet_load env tenant id : quiet (loadProvider env tenant id).
Proof. intros w w' effs r. unfold loadProvider. repeat case_match; intros; by simplify_eq. Qed.

(** The keys a delivery looks up: those of the recipients not finished. *)
Definition lookupPairs (finished : gset string) (recipients : list string) : list (string * string) :=
  map (fun r => (r, suppressionKeyOf ParseEmailAddress r)) (filter (fun r => r ∉ finished) recipients).

Lemma drop_inv env tenant message subject recipients finished w w' effs r :
  dropSuppressedAtDelivery env tenant message subject recipients finished w = (w', effs, r) ->
  handed effs = [] /\ deliveredIn effs = ∅ /\
  (forall rf, r <> Err (FailedRecipients rf)) /\
  (forall dropped, r = Ok dropped -> dropped ⊆ droppedIn effs) /\
  forall dropped, r = Ok dropped -> sup_present env = true -> (forall l, range env l ≡ₚ l) ->
    forall x s, x ∈ recipients -> (x ∉ finished) -> (x ∉ dropped) ->
    s ∈ sup_table env -> Suppression.TenantID s = tenant -> Suppression.Email s <> ""%string ->
    Suppression.Email s <> suppressionKeyOf ParseEmailAddress x.
Proof.
  unfold dropSuppressedAtDelivery, mret_, fail, emit, mbind_. fold (lookupPairs finished recipients).
  destruct (sup_present env); simpl; [|intros; simplify_eq; split_and!; try done; intros; by simplify_eq].
  assert (Hmem : forall x, x ∈ recipients -> x ∉ finished ->
            (x, suppressionKeyOf ParseEmailAddress x) ∈ lookupPairs finished recipients).
  { intros x Hx Hf. unfold lookupPairs. apply list_elem_of_fmap. exists x. split; [done|]. by apply list_elem_of_filter. }
  destruct (lookupPairs finished recipients) as [|pr prs] eqn:El.
  { intros; simplify_eq. split_and!; [done|done|done|intros; simplify_eq; done|]. intros dropped _ _ _ x s Hx Hf.
    by destruct (not_elem_of_nil _ (Hmem x Hx Hf)). }
  rewrite <- El in *. clear El pr prs. generalize dependent (lookupPairs finished recipients). intros prs Hmem.
  unfold suppressionsFor. destruct (Suppression.GetByEmails _ _ _ _) as [found|e] eqn:Eg; [|intros; by simplify_eq].
  destruct (Suppression.GetByEmails_ok _ _ _ _ _ Eg) as [_ Hcomp].
  set (hit := omap _ (range env prs)). intros Hrun.
  assert (Hsh : forall l : list (string * string),
    handed (map (fun rr => Event tenant "" message DROPPED rr.1 subject rr.2) l) = [] /\
    deliveredIn (map (fun rr => Event tenant "" message DROPPED rr.1 subject rr.2) l) = ∅ /\
    droppedIn (map (fun rr => Event tenant "" message DROPPED rr.1 subject rr.2) l) = list_to_set (map fst l)).
  { induction l as [|a l (IH1 & IH2 & IH3)]; [done|]. split_and!; [done|done|].
    simpl list_to_set. by rewrite <- IH3. }
  simpl in Hrun. injection Hrun as <- <- <-. rewrite app_nil_r.
  destruct (Hsh hit) as (-> & -> & ->). split_and!; [done|done|done|intros; by simplify_eq|].
  intros dropped Hd _ Hperm x s Hx Hf Hnd Hs Ht Hne Heq. injection Hd as <-. apply Hnd.
  apply elem_of_list_to_set, list_elem_of_fmap.
  assert (Hk : is_Some (found !! Suppression.Email s)).
  { apply Hcomp; [done|done|done|]. rewrite Heq. apply list_elem_of_fmap.
    exists (suppressionKeyOf ParseEmailAddress x). split; [by rewrite Suppression.suppressionKeyOf_normal|].
    apply list_elem_of_fmap. by exists (x, suppressionKeyOf ParseEmailAddress x); auto. }
  destruct Hk as [row Hrow]. exists (x, Suppression.Reason row). split; [done|].
  apply list_elem_of_omap. exists (x, suppressionKeyOf ParseEmailAddress x). split; [rewrite Hperm; by apply Hmem|].
  simpl. by rewrite lookup_fmap, <- Heq, Hrow.
Qed.

#[local] Arguments finishedFrom : simpl never.

(** A pass either stops before it hands anything out, or is the loop over the
    recipients. *)
Lemma doSend_inv env tenant req messageID w w' effs r :
  doSend env tenant req messageID w = (w', effs, r) ->
  (handed effs = [] /\ deliveredIn effs = ∅ /\ (exists e, r = Err e) /\ forall rf, r <> Err (FailedRecipients rf)) \/
  exists from ps w1 w2 rnd events dropped drops w3 w4,
    let message := if bool_decide (messageID = ""%string) then new_id env else messageID in
    let recipients := uniqueRecipients [To req; Cc req; Bcc req] in
    let delivered := recipientsOf isDelivered events in
    let settled := recipientsOf settledEvents events in
    let pg := deliverAll env tenant message req rnd ps (delivered ∪ (dropped ∪ settled)) recipients in
    selectProviders env tenant req from w = (w1, [], Ok ps) /\
    renderTemplate env tenant req w1 = (w2, [], Ok rnd) /\
    history env = Ok events /\
    dropSuppressedAtDelivery env tenant message (r_subject rnd) recipients (delivered ∪ settled) w3 = (w4, drops, Ok dropped) /\
    effs = drops ++ pg_effects pg /\
    r = match pg_failures pg with
        | [] => Ok (mkResponse message DELIVERED)
        | failures => Err (FailedRecipients (QueueWorker.mkFailures failures (pg_delivered pg)))
        end.
Proof.
  unfold doSend. intros H'.
  apply bind_inv in H' as [(e & H' & ->)|(w1 & e1 & from & e2 & H1' & H' & ->)].
  { apply lift_inv in H' as (_ & -> & Hs). left. split_and!; [done|done|by eauto|].
    intros rf. revert Hs. unfold senderAddress. case_match; congruence. }
  apply lift_inv in H1' as (-> & -> & _). simpl.
  apply bind_inv in H' as [(e & H' & ->)|(w2 & e3 & ps & e4 & Hsel & H' & ->)].
  { left. rewrite (quiet_select _ _ _ _ _ _ _ _ H'). split_and!; [done|done|by eauto|].
    intros rf ?. revert H'. unfold selectProviders. repeat case_match; intros; simplify_eq. }
  pose proof (quiet_select _ _ _ _ _ _ _ _ Hsel) as ->. simpl.
  apply bind_inv in H' as [(e & H' & ->)|(w3 & e5 & rnd & e6 & Hren & H' & ->)].
  { left. rewrite (quiet_render _ _ _ _ _ _ _ H'). split_and!; [done|done|by eauto|].
    intros rf ?. revert H'. unfold renderTemplate, mret_, renderParts. repeat case_match; intros; simplify_eq. }
  pose proof (quiet_render _ _ _ _ _ _ _ Hren) as ->. simpl.
  destruct (history env) as [events|he] eqn:Eh; [|left; unfold fail in H'; simplify_eq; split_and!; [done|done|by eauto|done]].
  destruct (finishedFrom events) as [[delivered settled] finished] eqn:Ef.
  apply bind_inv in H' as [(e & H' & ->)|(w4 & e7 & dropped & e8 & Hdrop & H' & ->)].
  { left. destruct (drop_inv _ _ _ _ _ _ _ _ _ _ H') as (? & ? & Hnf & _ & _). split_and!; [done|done|by eauto|].
    intros rf Hr. apply (Hnf rf). congruence. }
  destruct (drop_inv _ _ _ _ _ _ _ _ _ _ Hdrop) as (Hdh & Hdd & _ & _ & _).
  apply bind_inv in H' as [(e & H' & ->)|(w5 & e9 & [] & e10 & Hpace & H' & ->)].
  { left. rewrite (quiet_pace _ _ _ _ _ _ _ _ H'), app_nil_r. split_and!; [done|done|by eauto|].
    intros rf ?. revert H'. unfold pace. repeat case_match; intros; simplify_eq. }
  pose proof (quiet_pace _ _ _ _ _ _ _ _ Hpace) as ->. simpl.
  right. exists from, ps, w2, w3, rnd, events, dropped, e7, w3, w4. 
  unfold finishedFrom in Ef. injection Ef as <- <- <-.
  apply bind_inv in H' as [(e & H' & ->)|(w6 & e11 & [] & e12 & Hemit & H' & ->)]; unfold emit in *; [by simplify_eq|].
  simplify_eq. cbv zeta.
  set (pg := deliverAll env tenant _ req rnd ps _ _) in *. clearbody pg.
  destruct (pg_failures pg); unfold mret_, fail in H'; simplify_eq; rewrite app_nil_r; by split_and!.
Qed.

(** C3: delivery respects what is finished and what is suppressed.  Every copy a
    pass hands to a provider goes to exactly one address, a recipient of the
    message; its headers name the visible To and Cc and nothing else; that
    recipient was neither delivered nor settled in the history the pass read,
    and has no row on the tenant's suppression list.  So a history or a
    suppression list that cannot be read hands out nothing. *)
Theorem delivery_respects_lists env tenant req messageID w w' effs r p m b :
  sup_present env = true -> (forall l, range env l ≡ₚ l) ->
  doSend env tenant req messageID w = (w', effs, r) -> (p, m, b) ∈ handed effs ->
  exists x events,
    history env = Ok events /\ x ∈ uniqueRecipients [To req; Cc req; Bcc req] /\
    E_Envelope m = [x] /\ E_To m = To req /\ E_Cc m = Cc req /\ SendRate.receiver p = false /\
    (x ∉ recipientsOf isDelivered events) /\ (x ∉ recipientsOf settledEvents events) /\
    (forall s, s ∈ sup_table env -> Suppression.TenantID s = tenant -> Suppression.Email s <> ""%string ->
       Suppression.Email s <> suppressionKeyOf ParseEmailAddress x).
Proof.
  intros Hp Hr H' Hin. apply doSend_inv in H' as [(Hno & _)|H'].
  { rewrite Hno in Hin. by apply not_elem_of_nil in Hin. }
  destruct H' as (from & ps & w1 & w2 & rnd & events & dropped & drops & w3 & w4 & _ & _ & Hh & Hd & -> & _).
  destruct (drop_inv _ _ _ _ _ _ _ _ _ _ Hd) as (Hdh & _ & _ & _ & Hsup).
  rewrite handed_app, Hdh in Hin. simpl in Hin.
  destruct (uniqueFrom_spec ∅ (concat [To req; Cc req; Bcc req])) as [Hnd _].
  destruct (dl_handed _ _ _ _ _ _ _ _ _ (deliverAll_delivers _ _ _ _ _ _ _ _ Hnd) _ _ _ Hin)
    as (_ & Hrec & x & Hx & Hns & ->).
  destruct (copyFor_envelope env tenant (if bool_decide (messageID = ""%string) then new_id env else messageID)
              req rnd x) as (He & Ht & Hc).
  rewrite !not_elem_of_union in Hns. destruct Hns as (Hn1 & Hn2 & Hn3).
  exists x, events. split_and!; try done.
  intros s Hs Hts Hse. eapply Hsup; try done. rewrite not_elem_of_union. done.
Qed.

(** What one pass contributes: each recipient at most one accepted copy, and
    only one the history did not have. *)
Lemma pass_copies env tenant req messageID w w' effs r x :
  doSend env tenant req messageID w = (w', effs, r) ->
  copies x effs = (if bool_decide (x ∈ deliveredIn effs) then 1 else 0)%nat /\
  (x ∈ deliveredIn effs -> exists events, history env = Ok events /\ x ∉ recipientsOf isDelivered events).
Proof.
  intros H'. apply doSend_inv in H' as [(Hno & Hde & _)|H'].
  { rewrite (no_handed_copies x effs Hno), Hde. split; [|intros Hx; by apply not_elem_of_empty in Hx].
    rewrite bool_decide_eq_false_2; [done|apply not_elem_of_empty]. }
  destruct H' as (from & ps & w1 & w2 & rnd & events & dropped & drops & w3 & w4 & _ & _ & Hh & Hd & -> & _).
  destruct (drop_inv _ _ _ _ _ _ _ _ _ _ Hd) as (Hdh & Hdd & _).
  destruct (uniqueFrom_spec ∅ (concat [To req; Cc req; Bcc req])) as [Hnd _].
  pose proof (deliverAll_delivers env tenant (if bool_decide (messageID = ""%string) then new_id env else messageID)
    req rnd ps (recipientsOf isDelivered events ∪ (dropped ∪ recipientsOf settledEvents events)) _ Hnd) as Hdl.
  rewrite copies_app, (no_handed_copies x drops Hdh), deliveredIn_app, Hdd, union_empty_l_L.
  split; [apply (dl_once _ _ _ _ _ _ _ _ _ Hdl)|].
  intros Hx. apply (dl_scope _ _ _ _ _ _ _ _ _ Hdl) in Hx as [_ Hx].
  rewrite !not_elem_of_union in Hx. exists events. tauto.
Qed.

(** The calls of successive passes over one message. *)
Fixpoint redeliver (tenant : string) (req : SendEmailRequest) (messageID : string) (envs : list Env) (w : World) :
    list effect :=
  match envs with
  | [] => []
  | env :: rest =>
      let '(w', effs, _) := doSend env tenant req messageID w in
      effs ++ redeliver tenant req messageID rest w'
  end.

(** Every pass that reads a history finds in it what the passes before recorded
    as delivered. *)
Fixpoint remembered (tenant : string) (req : SendEmailRequest) (messageID : string) (seen : gset string)
    (envs : list Env) (w : World) : Prop :=
  match envs with
  | [] => True
  | env :: rest =>
      (forall events, history env = Ok events -> seen ⊆ recipientsOf isDelivered events) /\
      let '(w', effs, _) := doSend env tenant req messageID w in
      remembered tenant req messageID (seen ∪ deliveredIn effs) rest w'
  end.

Lemma redeliver_copies tenant req messageID x envs : forall seen w,
  remembered tenant req messageID seen envs w ->
  (copies x (redeliver tenant req messageID envs w) <= if bool_decide (x ∈ seen) then 0 else 1)%nat.
Proof.
  induction envs as [|env envs IH]; intros seen w Hr; simpl in *; [case_bool_decide; unfold copies; simpl; lia|].
  destruct Hr as [Hh Hr]. destruct (doSend env tenant req messageID w) as [[w' effs] r] eqn:E.
  destruct (pass_copies _ _ _ _ _ _ _ _ x E) as [Hc Hf].
  rewrite copies_app, Hc. specialize (IH _ _ Hr).
  destruct (decide (x ∈ deliveredIn effs)) as [Hd|Hd].
  - destruct (Hf Hd) as (events & Hev & Hn).
    rewrite (bool_decide_eq_true_2 _ Hd). rewrite (bool_decide_eq_true_2 (x ∈ seen ∪ _)) in IH by (apply elem_of_union; by right).
    rewrite bool_decide_eq_false_2; [lia|]. intros Hs. apply Hn. by apply (Hh events Hev).
  - rewrite (bool_decide_eq_false_2 _ Hd). etransitivity; [exact IH|].
    erewrite bool_decide_ext; [done|]. rewrite elem_of_union. tauto.
Qed.

(** C1: no recipient is sent a second copy.  Over any number of passes of one
    message -- retries after transient failures, after lost claims, after other
    recipients' failures, with any providers, errors and cancellations -- as long
    as a pass that reads the history finds what earlier passes recorded as
    delivered, each recipient's copy is accepted by a provider at most once. *)
Theorem never_a_second_copy tenant req messageID envs w x :
  remembered tenant req messageID ∅ envs w ->
  (copies x (redeliver tenant req messageID envs w) <= 1)%nat.
Proof.
  intros H'. etransitivity; [by eapply redeliver_copies|]. by case_bool_decide; lia.
Qed.

(** ** Retries *)

(** What a worker's pass delivered, and what its error says of it: recipients
    of the message, none the history had, and as many as the error counts. *)
Lemma pass_delivers text env tenant req messageID w w' effs r err :
  SendEmail env (Worker messageID) tenant req w = (w', effs, r) -> outcome text r = QueueWorker.SendFailed err ->
  QueueWorker.delivered_by err = Z.of_nat (size (deliveredIn effs)) /\
  deliveredIn effs ⊆ list_to_set (uniqueRecipients [To req; Cc req; Bcc req]) /\
  forall seen : gset string, (forall events, history env = Ok events -> seen ⊆ recipientsOf isDelivered events) ->
    seen ## deliveredIn effs.
Proof.
  intros H' Hout.
  assert (Hnone : handed effs = [] /\ deliveredIn effs = ∅ /\ (exists e, r = Err e) /\
            (forall rf, r <> Err (FailedRecipients rf)) ->
    QueueWorker.delivered_by err = Z.of_nat (size (deliveredIn effs)) /\
    deliveredIn effs ⊆ list_to_set (uniqueRecipients [To req; Cc req; Bcc req]) /\
    forall seen : gset string, (forall events, history env = Ok events -> seen ⊆ recipientsOf isDelivered events) ->
      seen ## deliveredIn effs).
  { intros (_ & -> & [e ->] & Hnf). rewrite size_empty. split_and!; [|set_solver|set_solver].
    destruct e; simpl in Hout; simplify_eq; try done. by destruct (Hnf rf). }
  unfold SendEmail in H'. apply bind_inv in H' as [(e & H' & ->)|(w1 & e1 & rs & e2 & H1' & H' & ->)].
  { apply lift_inv in H' as (_ & -> & Hv). apply Hnone. split_and!; [done|done|by eauto|].
    intros rf [= ->]. revert Hv. unfold validateSend. repeat case_match; intros; simplify_eq. }
  apply lift_inv in H1' as (-> & -> & _). simpl in *.
  apply bind_inv in H' as [(e & H' & ->)|(w2 & e3 & p & e4 & H1' & H' & ->)].
  { pose proof (quiet_load _ _ _ _ _ _ _ H') as ->. apply Hnone. split_and!; [done|done|by eauto|].
    intros rf [= ->]. revert H'. unfold loadProvider. repeat case_match; intros; simplify_eq. }
  pose proof (quiet_load _ _ _ _ _ _ _ H1') as ->. simpl in *.
  apply doSend_inv in H' as [Hn|H']; [by apply Hnone|]. clear Hnone.
  destruct H' as (from & ps & w3 & w4 & rnd & events & dropped & drops & w5 & w6 & _ & _ & Hh & Hd & -> & ->).
  destruct (drop_inv _ _ _ _ _ _ _ _ _ _ Hd) as (_ & Hdd & _).
  destruct (uniqueFrom_spec ∅ (concat [To req; Cc req; Bcc req])) as [Hnd _].
  pose proof (deliverAll_delivers env tenant (if bool_decide (messageID = ""%string) then new_id env else messageID)
    req rnd ps (recipientsOf isDelivered events ∪ (dropped ∪ recipientsOf settledEvents events)) _ Hnd) as Hdl.
  set (pg := deliverAll _ _ _ _ _ _ _ _) in *. 
  assert (deliveredIn (drops ++ pg_effects pg) = deliveredIn (pg_effects pg)) as ->.
  { by rewrite deliveredIn_app, Hdd, union_empty_l_L. }
  pose proof (dl_count _ _ _ _ _ _ _ _ _ Hdl) as Hc. pose proof (dl_scope _ _ _ _ _ _ _ _ _ Hdl) as Hs.
  split_and!.
  - destruct (pg_failures pg); simpl in Hout; simplify_eq. exact Hc.
  - intros x Hx. apply elem_of_list_to_set. by apply Hs.
  - intros seen Hseen x Hx1 Hx2. destruct (Hs x Hx2) as [_ Hns]. apply Hns, elem_of_union_l. by apply (Hseen _ Hh).
Qed.

(** A message put back for another attempt, again and again.  At each pass some
    worker, with any providers, errors, clocks, cache of schedules and settings,
    takes the row as the pass before left it, finds in the history what the
    passes before recorded as delivered, runs the send and puts the row back as
    deferred.  [retried seen rc k]: from a retry count [rc] and the recipients
    [seen] delivered, [k] passes that were not paced. *)
Inductive retried {CR} `{!TTLCache.CacheSpec CR (list string)} (n : Z) (tenant : string) (req : SendEmailRequest)
    (messageID : string) : gset string -> Z -> nat -> Prop :=
| retried_stop seen rc : retried n tenant req messageID seen rc 0
| retried_again seen rc k text env w w' effs r err src tp now1 now2 fin (c : CR) e ws e1 c1 :
    (forall events, history env = Ok events -> seen ⊆ recipientsOf isDelivered events) ->
    SendEmail env (Worker messageID) tenant req w = (w', effs, r) ->
    outcome text r = QueueWorker.SendFailed err ->
    QueueWorker.schedules_bounded src tp n -> QueueWorker.cache_bounded_by n c ->
    Outbox.RetryCount e = rc ->
    QueueWorker.handleFailure src tp now1 now2 fin c e req err = (ws, QueueWorker.SettleUpdate e1, c1) ->
    Outbox.Status e1 = Outbox.Deferred ->
    retried n tenant req messageID (seen ∪ deliveredIn effs) (Outbox.RetryCount e1) k ->
    retried n tenant req messageID seen rc (match QueueWorker.Paced err with Some _ => k | None => S k end).

Lemma retried_bound {CR} `{!TTLCache.CacheSpec CR (list string)} n tenant req messageID seen rc k :
  retried (CR := CR) n tenant req messageID seen rc k -> 0 <= rc ->
  Z.of_nat k <= Z.max 0 (n - rc) +
    Z.of_nat (size (list_to_set (uniqueRecipients [To req; Cc req; Bcc req]) ∖ seen : gset string)).
Proof.
  set (U := list_to_set (uniqueRecipients [To req; Cc req; Bcc req]) : gset string).
  induction 1 as [|seen rc k text env w w' effs r err src tp now1 now2 fin c e ws e1 c1 Hrem Hsend Hout Hsb Hcb
    Hrc Hfail Hst Hr IH]; intros H0'; [lia|].
  destruct (pass_delivers _ _ _ _ _ _ _ _ _ _ Hsend Hout) as (Hby & Hsub & Hdis). specialize (Hdis seen Hrem).
  assert (Hsize : (size (U ∖ (seen ∪ deliveredIn effs)) + size (deliveredIn effs) = size (U ∖ seen))%nat).
  { by apply size_left_over. }
  destruct (QueueWorker.Paced err) as [after|] eqn:Ep.
  - rewrite (QueueWorker.pacing_is_free _ _ _ _ _ _ _ _ _ _ _ _ ltac:(by rewrite Ep) Hfail), Hrc in IH.
    specialize (IH H0'). lia.
  - destruct (QueueWorker.deferral_costs src tp n now1 now2 fin c e req err ws e1 c1) as (_ & Hc & Hz);
      [done|done|done|lia|lia|done|done|]. rewrite Hrc in *. specialize (IH ltac:(lia)).
    destruct (decide (QueueWorker.delivered_by err = 0)) as [E|]; [specialize (Hz E)|]; lia.
Qed.

(** C38: retries end.  If no retry schedule has more than [n] steps, a message
    is put back for another attempt at most [n] times plus once for each of its
    recipients, as long as each pass finds in the history what earlier ones
    recorded as delivered and the row as the pass before wrote it: every such
    pass either spends a step of the schedule or delivered to somebody.  A pass
    that pacing put back, which attempted nothing, is not counted, and there is
    no bound on those: it leaves the count as it was. *)
Theorem retries_end {CR} `{!TTLCache.CacheSpec CR (list string)} n tenant req messageID k :
  0 <= n -> retried (CR := CR) n tenant req messageID ∅ 0 k ->
  Z.of_nat k <= n + Z.of_nat (length (uniqueRecipients [To req; Cc req; Bcc req])).
Proof.
  intros Hn Hr. pose proof (retried_bound _ _ _ _ _ _ _ Hr (Z.le_refl 0)) as Hk.
  rewrite difference_empty_L, size_list_to_set in Hk by apply (uniqueFrom_spec ∅ (concat [To req; Cc req; Bcc req])).
  lia.
Qed.

(** C32: a message reported as delivered is finished with.  When a pass succeeds
    and the providers it chose include one that sends, every recipient was
    delivered or settled before, is accepted by a provider in this pass, or is
    recorded as dropped; when it fails per recipient, every recipient is one of
    those or is in the failures, and the count of deliveries is the number of
    recipients accepted.  A failure names a recipient no provider accepted, with
    its own error -- the cancellation its turn met, or, every sending provider
    chosen having refused its copy, the answer of the last of them -- and the
    class of that very error. *)
Theorem pass_accounts_for_everyone env tenant req messageID w w' effs r x :
  doSend env tenant req messageID w = (w', effs, r) ->
  (forall from w1 ps, selectProviders env tenant req from w = (w1, [], Ok ps) ->
     exists p, p ∈ ps /\ SendRate.receiver p = false) ->
  x ∈ uniqueRecipients [To req; Cc req; Bcc req] ->
  let handled := exists events, history env = Ok events /\
    (x ∈ recipientsOf isDelivered events \/ x ∈ recipientsOf settledEvents events \/
     x ∈ deliveredIn effs \/ x ∈ droppedIn effs) in
  match r with
  | Ok _ => handled
  | Err (FailedRecipients rf) =>
      (handled \/ x ∈ (QueueWorker.Recipient <$> QueueWorker.Failures rf)) /\
      QueueWorker.Delivered rf = Z.of_nat (size (deliveredIn effs)) /\
      (forall f, f ∈ QueueWorker.Failures rf ->
         (QueueWorker.Recipient f ∉ deliveredIn effs) /\
         QueueWorker.Class_ f = ClassifyError (QueueWorker.Cause f) /\
         exists from w1 ps w2 rnd,
           selectProviders env tenant req from w = (w1, [], Ok ps) /\
           renderTemplate env tenant req w1 = (w2, [], Ok rnd) /\
           own_error env ps
             (copyFor env tenant (if bool_decide (messageID = ""%string) then new_id env else messageID) req rnd
                (QueueWorker.Recipient f))
             (QueueWorker.Recipient f) (QueueWorker.Cause f))
  | Err _ => True
  end.
Proof.
  intros H' Hsend Hx. apply doSend_inv in H' as [(_ & _ & [e ->] & Hnf)|H'].
  { destruct e; try done. by destruct (Hnf rf). }
  destruct H' as (from & ps & w1 & w2 & rnd & events & dropped & drops & w3 & w4 & Hsel & Hren & Hh & Hd & -> & ->).
  destruct (drop_inv _ _ _ _ _ _ _ _ _ _ Hd) as (_ & Hdd & _ & Hdr & _).
  destruct (uniqueFrom_spec ∅ (concat [To req; Cc req; Bcc req])) as [Hnd _].
  pose proof (deliverAll_delivers env tenant (if bool_decide (messageID = ""%string) then new_id env else messageID)
    req rnd ps (recipientsOf isDelivered events ∪ (dropped ∪ recipientsOf settledEvents events)) _ Hnd) as Hdl.
  set (pg := deliverAll _ _ _ _ _ _ _ _) in *. rewrite deliveredIn_app, Hdd, union_empty_l_L.
  assert (Hdrops : forall y, y ∈ dropped -> y ∈ droppedIn (drops ++ pg_effects pg)).
  { intros y Hy. unfold droppedIn. rewrite omap_app, list_to_set_app. apply elem_of_union_l. by apply (Hdr dropped). }
  assert (Hcase : (exists events', Ok events = Ok (E := string) events' /\
    (x ∈ recipientsOf isDelivered events' \/ x ∈ recipientsOf settledEvents events' \/
     x ∈ deliveredIn (pg_effects pg) \/ x ∈ droppedIn (drops ++ pg_effects pg))) \/
    x ∈ (QueueWorker.Recipient <$> pg_failures pg)).
  { destruct (decide (x ∈ recipientsOf isDelivered events ∪ (dropped ∪ recipientsOf settledEvents events))) as [Hs|Hs].
    - left. exists events. split; [done|]. rewrite !elem_of_union in Hs.
      destruct Hs as [Hs|[Hs|Hs]]; auto 6.
    - destruct (dl_all _ _ _ _ _ _ _ _ _ Hdl (Hsend _ _ _ Hsel) x Hx Hs); [left; exists events; tauto|by right]. }
  rewrite Hh. destruct (pg_failures pg) as [|f fs] eqn:Ef.
  - destruct Hcase as [?|Hn]; [done|by apply not_elem_of_nil in Hn].
  - split_and!; [done|apply (dl_count _ _ _ _ _ _ _ _ _ Hdl)|].
    intros g Hg. rewrite <- Ef in Hg. destruct (dl_failed _ _ _ _ _ _ _ _ _ Hdl g Hg) as (_ & _ & ? & ? & ?).
    split_and!; [done|done|]. by exists from, w1, ps, w2, rnd.
Qed.

(** ** Admission *)

(** The calls that tell the rest of the system a message was accepted. *)
Definition announces (x : effect) : bool :=
  match x with
  | Event _ _ _ PENDING _ _ _ | CopyQueued _ _ _ | SavedMessage _ | TriggerWorker => true
  | _ => false
  end.

(** A step that leaves the database alone and announces nothing. *)
Definition prior {A} (m : M A) : Prop := forall w w' effs r,
  m w = (w', effs, r) -> w_db w' = w_db w /\ filter (fun x => announces x = true) effs = [].

Lemma prior_bind {A B} (m : M A) (k : A -> M B) : prior m -> (forall a, prior (k a)) -> prior (mbind_ m k).
Proof.
  intros Hm Hk w w' effs r H'. apply bind_inv in H' as [(e & H' & _)|(w1 & e1 & a & e2 & H1' & H2' & ->)].
  - by apply Hm in H'.
  - apply Hm in H1' as [<- He1]. apply Hk in H2' as [<- He2]. by rewrite filter_app, He1, He2.
Qed.

Lemma prior_ret {A} (a : A) : prior (mret_ a).
Proof. intros w w' effs r. unfold mret_. intros; by simplify_eq. Qed.
Lemma prior_fail {A} e : prior (fail (A := A) e).
Proof. intros w w' effs r. unfold fail. intros; by simplify_eq. Qed.
Lemma prior_lift {A} (x : result sendError A) : prior (lift x).
Proof. destruct x; [apply prior_ret|apply prior_fail]. Qed.
Lemma prior_emit effs : filter (fun x => announces x = true) effs = [] -> prior (emit effs).
Proof. intros Hn w w' e r. unfold emit. intros; by simplify_eq. Qed.

Lemma getProviders_db env tenant w w' r : getProviders env tenant w = (w', r) -> w_db w' = w_db w.
Proof. unfold getProviders. repeat case_match; intros; by simplify_eq. Qed.

Lemma prior_load env tenant id : prior (loadProvider env tenant id).
Proof.
  intros w w' effs r. unfold loadProvider, getProvider.
  destruct (getProviders env tenant w) as [w1 ps] eqn:E. apply getProviders_db in E.
  repeat case_match; intros; by simplify_eq.
Qed.

Lemma prior_render env tenant req : prior (renderTemplate env tenant req).
Proof.
  intros w w' effs r. unfold renderTemplate, getTemplate, mret_. repeat case_match; intros; by simplify_eq.
Qed.

Lemma prior_rate env tenant p req : prior (checkRate env tenant p req).
Proof. intros w w' effs r. unfold checkRate. repeat case_match; intros; by simplify_eq. Qed.

Lemma prior_suppressed env tenant recipients : prior (checkSuppressed env tenant recipients).
Proof.
  unfold checkSuppressed. repeat case_match; try apply prior_fail; try apply prior_ret.
  apply prior_bind; [by apply prior_emit|intros; apply prior_fail].
Qed.

Lemma prior_filter env tenant req recipients rnd : prior (applyFilter env tenant req recipients rnd).
Proof.
  unfold applyFilter. repeat case_match; try apply prior_fail; try apply prior_ret.
  - apply prior_bind; [|intros; apply prior_fail]. apply prior_emit. simpl.
    induction (addresses recipients); done.
  - apply prior_bind; [by apply prior_emit|intros; apply prior_ret].
Qed.

Lemma prior_replayed env tenant req : prior (replayed env tenant req).
Proof.
  unfold replayed. case_match; [apply prior_ret|]. apply prior_bind; [apply prior_lift|].
  intros h w w' effs r. intros; by simplify_eq.
Qed.

(** The database as other processes left it, around one call. *)
Definition others_only (env : Env) (db db' : Outbox.DB) : Prop :=
  db' = db \/ db' = Outbox.run (before_create env) db \/
  db' = Outbox.run (before_reread env) (Outbox.run (before_create env) db).

Definition holds_key (tenant key hash message : string) (db : Outbox.DB) : Prop :=
  exists k, Outbox.send_idempotency_keys db !! (tenant, key) = Some k /\
    Outbox.K_RequestHash k = hash /\ Outbox.K_MessageID k = message.

Lemma replay_inv f now tenant key hash db res :
  replay f now tenant key hash db = Ok (Some res) ->
  holds_key tenant key hash (MessageId res) db /\ Status res = PENDING.
Proof.
  unfold replay, Outbox.GetIdempotencyKey. destruct f; simpl; try done.
  unfold Outbox.select_key. destruct (_ !! (tenant, key)) as [k|] eqn:E; [|done].
  destruct (_ <=? _); [|done]. case_bool_decide; intros; simplify_eq. split; [|done]. by exists k.
Qed.

Lemma enqueue_inv env tenant req hash status w w' effs r :
  enqueue env tenant req hash status w = (w', effs, r) ->
  effs = [] /\
  match r with
  | Ok None =>
      (exists row, Outbox.outbox (w_db w') !! new_id env = Some row /\
         Outbox.tenant_id row = tenant /\ Outbox.status row = status /\ Outbox.retry_count row = 0 /\
         Marshal req = Ok (Outbox.request row)) /\
      (IdempotencyKey req <> ""%string -> holds_key tenant (IdempotencyKey req) hash (new_id env) (w_db w'))
  | Ok (Some res) =>
      ((forall e, f_create env <> Lost e) -> others_only env (w_db w) (w_db w')) /\
      Status res = PENDING /\ IdempotencyKey req <> ""%string /\
      holds_key tenant (IdempotencyKey req) hash (MessageId res) (w_db w')
  | Err _ => (forall e, f_create env <> Lost e) -> others_only env (w_db w) (w_db w')
  end.
Proof.
  unfold enqueue. destruct (Marshal req) as [bytes|e]; [|unfold fail; intros; simplify_eq; split; [done|]; intros; by left].
  set (row := Outbox.mkOutboxEmail _ _ _ _ _ _ _ _ _ _).
  set (db := Outbox.run (before_create env) (w_db w)).
  case_bool_decide as Hk.
  - destruct (Outbox.Create (f_create env) row db) as [db' [u|e]] eqn:Ec; intros; simplify_eq; simpl; split; try done.
    + apply Outbox.exec_ok in Ec as [_ Ec]. unfold Outbox.insert_outbox in Ec.
      destruct (Outbox.outbox db !! Outbox.ID row); simplify_eq. simpl.
      split; [|done]. eexists. rewrite lookup_insert_eq. split_and!; done.
    + intros Hl. right. left. by eapply Outbox.exec_err.
  - destruct (Outbox.CreateWithIdempotencyKey _ _ _ _ _) as [db' [u|e]] eqn:Ec.
    + intros; simplify_eq; simpl. apply Outbox.exec_ok in Ec as [_ Ec].
      apply Outbox.create_with_key_ok in Ec as [Ho Hke]. split; [done|]. split.
      * eexists. split_and!; [exact Ho|done..].
      * intros _. eexists. split_and!; [exact Hke|done..].
    + case_bool_decide as Hte; intros; simplify_eq; simpl; split; try done.
      * unfold lostKeyRace. destruct (replay _ _ _ _ _ _) as [[res|]|] eqn:Er.
        -- apply replay_inv in Er as [Hh Hs]. split_and!; try done.
           intros Hl. right. right. by rewrite (Outbox.exec_err _ _ _ _ _ Ec Hl).
        -- intros Hl. right. right. by rewrite (Outbox.exec_err _ _ _ _ _ Ec Hl).
        -- intros Hl. right. right. by rewrite (Outbox.exec_err _ _ _ _ _ Ec Hl).
      * intros Hl. right. left. by eapply Outbox.exec_err.
Qed.

(** The calls that follow acceptance. *)
Definition acceptance (env : Env) (tenant : string) (req : SendEmailRequest) (recipients : resolvedRecipients)
    (rnd : Rendered) (held : option (@Quarantine.FilteredMessage Re)) : list effect :=
  queueSentCopy env tenant req rnd ++ [SavedMessage (savedMessage env tenant req rnd)] ++
  map (fun x => Event tenant (ProviderId req) (new_id env) PENDING x "" "") (addresses recipients) ++
  match held with
  | Some record => [RecordFiltered record]
  | None => if worker env then [TriggerWorker] else []
  end.

Lemma accepted_run env tenant req recipients rnd held w :
  accepted env tenant req recipients rnd held w =
  (w, acceptance env tenant req recipients rnd held, Ok (mkResponse (new_id env) PENDING)).
Proof. unfold accepted, acceptance, mbind_, emit, mret_. by rewrite app_nil_r. Qed.

Lemma filter_hold env tenant req recipients rnd w w' effs status held :
  applyFilter env tenant req recipients rnd w = (w', effs, Ok (status, held)) ->
  (status = Outbox.Pending /\ held = None) \/
  (status = Outbox.Held /\ exists m, held = Some m /\ Quarantine.PayloadRef m = new_id env /\
     Quarantine.MessageID m = new_id env).
Proof.
  unfold applyFilter, mbind_, emit, mret_, fail. repeat case_match; intros; simplify_eq; eauto 10.
Qed.

Lemma prior_vet env tenant req recipients p : prior (vet env tenant req recipients p).
Proof.
  unfold vet. apply prior_bind; [apply prior_lift|]. intros sender. case_match; [apply prior_fail|].
  apply prior_bind; [apply prior_rate|intros _]. apply prior_bind; [apply prior_suppressed|intros _].
  apply prior_bind; [apply prior_render|intros rnd]. apply prior_bind; [apply prior_filter|intros; apply prior_ret].
Qed.

Lemma vet_hold env tenant req recipients p w w' effs rnd status held :
  vet env tenant req recipients p w = (w', effs, Ok (rnd, (status, held))) ->
  (status = Outbox.Pending /\ held = None) \/
  (status = Outbox.Held /\ exists m, held = Some m /\ Quarantine.PayloadRef m = new_id env /\
     Quarantine.MessageID m = new_id env).
Proof.
  unfold vet. intros H'.
  apply bind_inv in H' as [(? & _ & ?)|(? & ? & ? & ? & _ & H' & _)]; [done|].
  case_match; [unfold fail in H'; by simplify_eq|].
  do 3 (apply bind_inv in H' as [(? & _ & ?)|(? & ? & ? & ? & _ & H' & _)]; [done|]).
  apply bind_inv in H' as [(? & _ & ?)|(? & ? & ? & ? & Hf & H' & _)]; [done|].
  unfold mret_ in H'. simplify_eq. by eapply filter_hold.
Qed.

(** What a client's call came to: a refusal, an earlier acceptance, or a new
    message. *)
Lemma admit_send_inv env tenant req recipients p w w' effs r :
  admit_send env tenant req recipients p w = (w', effs, r) ->
  match r with
  | Err _ => filter (fun x => announces x = true) effs = [] /\
             ((forall e, f_create env <> Lost e) -> others_only env (w_db w) (w_db w'))
  | Ok res =>
      Status res = PENDING /\
      (IdempotencyKey req <> ""%string -> exists hash, requestHash req = Ok hash /\
         holds_key tenant (IdempotencyKey req) hash (MessageId res) (w_db w')) /\
      ((IdempotencyKey req <> ""%string /\ filter (fun x => announces x = true) effs = [] /\
        ((forall e, f_create env <> Lost e) -> others_only env (w_db w) (w_db w'))) \/
       (MessageId res = new_id env /\
        exists row rnd held before,
          Outbox.outbox (w_db w') !! new_id env = Some row /\ Outbox.tenant_id row = tenant /\
          Outbox.retry_count row = 0 /\ Marshal req = Ok (Outbox.request row) /\
          effs = before ++ acceptance env tenant req recipients rnd held /\
          match held with
          | None => Outbox.status row = Outbox.Pending
          | Some m => Outbox.status row = Outbox.Held /\ Quarantine.PayloadRef m = new_id env
          end))
  end.
Proof.
  assert (Hsame : forall w0, others_only env (w_db w0) (w_db w0)) by (intros; by left).
  unfold admit_send. intros H'.
  apply bind_inv in H' as [(e & H' & ->)|(w1 & e1 & [hash earlier] & e2 & H1' & H' & ->)].
  { apply prior_replayed in H' as [-> ?]. auto. }
  pose proof (prior_replayed _ _ _ _ _ _ _ H1') as [Hdb1 He1].
  assert (Hhash : IdempotencyKey req <> ""%string -> requestHash req = Ok hash /\
    forall res, earlier = Some res -> holds_key tenant (IdempotencyKey req) hash (MessageId res) (w_db w1) /\ Status res = PENDING).
  { intros Hk. unfold replayed in H1'. rewrite bool_decide_eq_false_2 in H1' by done.
    apply bind_inv in H1' as [(e & _ & ?)|(w0 & e0 & h & e3 & Hl & Hr & _)]; [done|].
    apply lift_inv in Hl as (-> & _ & Hl). injection Hr as -> _ Hr.
    destruct (replay _ _ _ _ h _) as [o|] eqn:Er; simplify_eq. split; [done|].
    intros res ->. by eapply replay_inv. }
  destruct earlier as [res|].
  { unfold mret_ in H'. simplify_eq. rewrite app_nil_r.
    destruct (decide (IdempotencyKey req = ""%string)) as [Hk|Hk].
    { unfold replayed in H1'. rewrite bool_decide_eq_true_2 in H1' by done. unfold mret_ in H1'. by simplify_eq. }
    destruct (Hhash Hk) as [Hh Hr]. destruct (Hr _ eq_refl) as [Hho Hst].
    split_and!; [done|by eauto|]. left. split_and!; [done|done|]. rewrite Hdb1. auto. }
  unfold admitNew in H'.
  apply bind_inv in H' as [(e & H' & ->)|(w2 & e3 & [rnd [status held]] & e4 & Hv & H' & ->)].
  { apply prior_vet in H' as [-> He]. rewrite filter_app, He1, He, Hdb1. auto. }
  pose proof (prior_vet _ _ _ _ _ _ _ _ _ Hv) as [Hdb2 He3]. apply vet_hold in Hv.
  assert (Hq : filter (fun x => announces x = true) (e1 ++ e3) = []) by by rewrite filter_app, He1, He3.
  rewrite app_assoc. rewrite <- Hdb1, <- Hdb2. clear He1 He3 H1'.
  apply bind_inv in H' as [(e & H' & ->)|(w3 & e5 & won & e6 & He & H' & ->)].
  { apply enqueue_inv in H' as [-> H']. by rewrite app_nil_r. }
  apply enqueue_inv in He as [-> He]. simpl. destruct won as [res|].
  - unfold mret_ in H'. simplify_eq. rewrite app_nil_r. destruct He as (Ho & Hs & Hk & Hh).
    destruct (Hhash Hk) as [Hh1 _]. split_and!; [done|by eauto|]. by left.
  - rewrite accepted_run in H'. simplify_eq. destruct He as [(row & Hrow & Ht & Hst & Hrc & Hm) Hkey].
    simpl. split_and!; [done|intros Hk; destruct (Hhash Hk); eauto|]. right. split; [done|].
    exists row, rnd, held, (e1 ++ e3). split_and!; try done.
    destruct Hv as [[-> ->]|(-> & m & -> & Hp & _)]; auto.
Qed.

Lemma client_inv env tenant req w w' effs r :
  SendEmail env Client tenant req w = (w', effs, r) ->
  (exists e, r = Err e /\ effs = [] /\ w_db w' = w_db w) \/
  exists recipients p w1,
    validateSend tenant req = Ok recipients /\
    loadProvider env tenant (ProviderId req) w = (w1, [], Ok p) /\ w_db w1 = w_db w /\
    admit_send env tenant req recipients p w1 = (w', effs, r).
Proof.
  unfold SendEmail. intros H'.
  apply bind_inv in H' as [(e & H' & ->)|(w1 & e1 & recipients & e2 & H1' & H' & ->)].
  { apply lift_inv in H' as (-> & -> & _). left. eauto. }
  apply lift_inv in H1' as (-> & -> & Hv). simpl.
  apply bind_inv in H' as [(e & H' & ->)|(w2 & e3 & p & e4 & H2' & H' & ->)].
  { pose proof (quiet_load _ _ _ _ _ _ _ H') as ->. apply prior_load in H' as [-> _]. left. eauto. }
  pose proof (quiet_load _ _ _ _ _ _ _ H2') as ->. right. exists recipients, p, w2.
  split_and!; [done|done|by apply prior_load in H2' as [-> _]|done].
Qed.

(** C5: a send is accepted whole or not at all.  A client's call that is refused
    leaves the database as the other processes left it -- no row and no key,
    unless the answer of the insert itself was lost -- and announces nothing: no
    PENDING event, no stored message, no Sent copy, no wake-up.  A call that is
    accepted answers PENDING and either repeats an earlier acceptance of its
    idempotency key, announcing nothing, or has put the request in the outbox
    under the id it answers, with every recipient announced as PENDING and, when
    a filter rule holds it, the row held and its review record pointing at it. *)
Theorem admission_is_all_or_nothing env tenant req w w' effs r :
  SendEmail env Client tenant req w = (w', effs, r) ->
  match r with
  | Err _ => filter (fun x => announces x = true) effs = [] /\
             ((forall e, f_create env <> Lost e) -> others_only env (w_db w) (w_db w'))
  | Ok res =>
      Status res = PENDING /\
      ((IdempotencyKey req <> ""%string /\ filter (fun x => announces x = true) effs = [] /\
        (exists hash, holds_key tenant (IdempotencyKey req) hash (MessageId res) (w_db w')) /\
        ((forall e, f_create env <> Lost e) -> others_only env (w_db w) (w_db w'))) \/
       (MessageId res = new_id env /\
        exists row, Outbox.outbox (w_db w') !! new_id env = Some row /\ Outbox.tenant_id row = tenant /\
          Marshal req = Ok (Outbox.request row) /\
          (forall x, x ∈ uniqueRecipients [To req; Cc req; Bcc req] ->
             Event tenant (ProviderId req) (new_id env) PENDING x "" "" ∈ effs) /\
          (Outbox.status row = Outbox.Pending \/
           Outbox.status row = Outbox.Held /\
           exists m, RecordFiltered m ∈ effs /\ Quarantine.PayloadRef m = new_id env)))
  end.
Proof.
  intros H'. apply client_inv in H' as [(e & -> & -> & ->)|(recipients & p & w1 & Hv & _ & Hdb & H')].
  { split; [done|]. intros _. by left. }
  assert (Hrec : addresses recipients = uniqueRecipients [To req; Cc req; Bcc req]).
  { clear H'. unfold validateSend in Hv. repeat case_match; simplify_eq.
    unfold resolveRecipients in *. case_match; simplify_eq. by eapply resolveFrom_addresses. }
  apply admit_send_inv in H'. rewrite Hdb in H'. destruct r as [res|e]; [|done].
  destruct H' as (Hs & Hk & [(Hne & Hq & Ho)|(Hid & row & rnd & held & before & Hrow & Ht & _ & Hm & -> & Hheld)]).
  - split; [done|]. left. destruct (Hk Hne) as (hash & _ & Hh). split_and!; eauto.
  - split; [done|]. right. split; [done|]. exists row. split_and!; try done.
    + intros x Hx. apply elem_of_app. right. unfold acceptance. rewrite !elem_of_app. right. right. left.
      apply list_elem_of_fmap. exists x. split; [done|]. by rewrite Hrec.
    + destruct held as [m|]; [right|by left]. destruct Hheld as [Hst Hp]. split; [done|]. exists m. split; [|done].
      apply elem_of_app. right. unfold acceptance. rewrite !elem_of_app. do 3 right. by left.
Qed.

(** C31: a retried send is answered with the first acceptance.  Once a call with
    an idempotency key was accepted, a repeat of the same request -- while the
    key is on record and within its window, whatever became of the message, the
    suppression list, the rate or the provider's allowed senders in between --
    returns the same message id, queues nothing, charges nothing and records
    nothing. *)
Theorem retry_is_answered_with_the_first env1 env2 tenant req w w1 effs1 res w2 wp p w3 effs3 r3 :
  IdempotencyKey req <> ""%string ->
  SendEmail env1 Client tenant req w = (w1, effs1, Ok res) ->
  (forall k, Outbox.send_idempotency_keys (w_db w1) !! (tenant, IdempotencyKey req) = Some k ->
     Outbox.send_idempotency_keys (w_db w2) !! (tenant, IdempotencyKey req) = Some k /\
     time_add (now_replay env2) (- IdempotencyKeyWindow) <= Outbox.K_CreatedAt k) ->
  f_replay env2 = Up ->
  loadProvider env2 tenant (ProviderId req) w2 = (wp, [], Ok p) ->
  SendEmail env2 Client tenant req w2 = (w3, effs3, r3) ->
  r3 = Ok res /\ effs3 = [] /\ w_db w3 = w_db w2 /\ w_rates w3 = w_rates w2.
Proof.
  intros Hk H1' Hlive Hup Hload H3'.
  apply client_inv in H1' as [(e & ? & _)|(recipients & p1 & w1a & Hv & _ & _ & H1')]; [done|].
  apply admit_send_inv in H1' as (Hs & Hkey & _).
  destruct (Hkey Hk) as (hash & Hh & k & Hkk & Hkh & Hkm). destruct (Hlive k Hkk) as [Hk2 Hage].
  unfold SendEmail in H3'. rewrite Hv in H3'. unfold mbind_ in H3'. simpl in H3'. rewrite Hload in H3'.
  unfold admit_send, replayed, mbind_ in H3'. rewrite bool_decide_eq_false_2 in H3' by done.
  rewrite Hh in H3'. simpl in H3'.
  pose proof (prior_load _ _ _ _ _ _ _ Hload) as [Hdbp _].
  unfold replay, Outbox.GetIdempotencyKey, Outbox.select_key in H3'. rewrite Hup in H3'. simpl in H3'.
  rewrite Hdbp, Hk2 in H3'. rewrite (proj2 (Z.leb_le _ _)) in H3' by done.
  rewrite bool_decide_eq_true_2 in H3' by done. unfold mret_ in H3'. simplify_eq.
  split_and!; [|done|done|].
  - destruct res as [mid st]. simpl in *. by subst.
  - revert Hload. unfold loadProvider, getProvider, getProviders. repeat case_match; intros; by simplify_eq.
Qed.
(** ** A bounce and the next send *)

(** The suppressions an event set off, each through [Suppression.Add]. *)
Fixpoint autoSuppress (norm : string -> string) (uuids : nat -> string) (now : Z)
    (l : list (string * string * string)) (t : Suppression.Table) : Suppression.Table :=
  match l with
  | [] => t
  | (tenant, email, reason) :: rest =>
      autoSuppress norm (fun n => uuids (S n)) now rest
        (Suppression.Add norm Up (uuids 0%nat) now tenant email reason t).1
  end.

Lemma firstSuppressed_hit reasons k : forall addresses normalised,
  length addresses = length normalised -> k ∈ normalised -> is_Some (reasons !! k) ->
  is_Some (firstSuppressed reasons addresses normalised).
Proof.
  intros addresses normalised. revert addresses.
  induction normalised as [|k' ns IH]; intros [|a addresses] Hl Hin Hk; try done;
    [by apply not_elem_of_nil in Hin|]. simpl.
  destruct (reasons !! k') eqn:E; [by eauto|]. apply elem_of_cons in Hin as [->|Hin]; [by destruct Hk; simplify_eq|].
  apply IH; [by injection Hl|done|done].
Qed.

(** A message to an address on the list is refused by the checks before it can
    be queued. *)
Lemma vet_suppressed env tenant req recipients p s w w' effs r :
  (forall n, sup_faults env n = Up) ->
  length (addresses recipients) = length (normalised recipients) ->
  s ∈ sup_table env -> Suppression.TenantID s = tenant -> Suppression.Email s <> ""%string ->
  Suppression.Email s ∈ normalised recipients -> normal (Suppression.Email s) = Suppression.Email s ->
  vet env tenant req recipients p w = (w', effs, r) -> exists e, r = Err e.
Proof.
  intros Hup Hl Hs Ht Hne Hin Hn H'. unfold vet in H'.
  apply bind_inv in H' as [(e & _ & ->)|(? & ? & sender & ? & _ & H' & _)]; [by eauto|].
  case_match; [unfold fail in H'; simplify_eq; eauto|].
  apply bind_inv in H' as [(e & _ & ->)|(? & ? & [] & ? & _ & H' & _)]; [by eauto|].
  apply bind_inv in H' as [(e & _ & ->)|(? & ? & [] & ? & Hc & _ & _)]; [by eauto|].
  unfold checkSuppressed, suppressionsFor in Hc.
  destruct (Suppression.GetByEmails_up (sup_faults env) tenant (normalised recipients) (sup_table env) Hup)
    as (m & Hm & _ & Hcomp). rewrite Hm in Hc.
  destruct (Hcomp s Hs Ht Hne) as [row Hrow].
  { apply list_elem_of_fmap. by exists (Suppression.Email s). }
  destruct (firstSuppressed_hit (Suppression.Reason <$> m) (Suppression.Email s) _ _ Hl Hin) as [[a reason] Ha];
    [rewrite lookup_fmap, Hrow; by eauto|].
  rewrite Ha in Hc. unfold mbind_, emit, fail in Hc. by simplify_eq.
Qed.

End Send.

End Send.
