(* ===== verification/SendCases.v ===== *)
(** * The send path on concrete messages

    One small gateway -- an SMTP provider, a mailbox that only receives, a
    parser that knows one display-name form -- on which the theorems of [Send]
    are applied, and a message that is lost. *)
From S2P Require Import Prelude GoStrings Cache RateLimit Outbox Classify Admission QueueWorker.
From S2P Require Import Filter Quarantine Suppression Senders SendRate Events Send.

Module SendCases.
Import Classify Admission Send.
Local Open Scope Z_scope.
#[local] Existing Instance TTLCache.ttl_cache_spec.
#[local] Existing Instance RateLimit.Q_laws.

(** ** The gateway *)

Definition uuid_ok (s : string) : bool := negb (bool_decide (s = ""%string)).
Definition hash (req : SendEmailRequest) : result string string := Ok (Admission.Subject req).
Definition encode (req : SendEmailRequest) : result string string := Ok "{}"%string.
Definition decode (req : SendEmailRequest) (s : string) : result string SendEmailRequest := Ok req.
Definition render (tpl data : string) (html : bool) : result string string := Ok tpl.
Definition links (tenant message recipient html : string) : string := html.
Definition no_headers (tenant message recipient : string) : gmap string string := ∅.

Definition mailer : SendRate.EmailProvider := SendRate.mkProvider "p1" "main" SendRate.SMTP [] 0 0.
Definition mailbox : SendRate.EmailProvider := SendRate.mkProvider "p2" "inbox" SendRate.IMAP [] 0 0.

Definition request (provider key : string) : SendEmailRequest :=
  mkRequest "a@x.com" ["b@x.com"; "c@x.com"]%string [] ["Bob <Bob@X.com>"]%string provider "hi" "" "" "" "body" ""
    false [] key "" "" [] "" false.

Abbreviation SendState := (Send.World (F := QArith_base.Q) (CL := TTLCache.t Limit) (CB := TTLCache.t Z)
  (CP := TTLCache.t (list SendRate.EmailProvider)) (CT := TTLCache.t Send.Template)).

Definition start : SendState :=
  Send.mkWorld (Outbox.mkDB ∅ ∅) (SendRate.mkRates None None None) (TTLCache.New Minute) (TTLCache.New Minute).

Definition event (ty : EmailEventType) (recipient : string) : Events.EmailEvent :=
  Events.mkEvent "e" "t1" "p1" "main" "m1" ty recipient "hi" 0 "".

(** A call at [now], with the suppression list [sups], the history [events] and
    the provider answering [send]. *)
Definition call (now : Z) (id : string) (sups : Suppression.Table) (events : list Events.EmailEvent)
    (send : SendRate.EmailProvider -> Send.Email -> option string) : Send.Env (Re := unit) :=
  Send.mkEnv now now now now now now now now id (Ok [mailer; mailbox])
    (fun _ => Ok None) (fun _ => Ok None) (fun _ => Ok None) sups (fun _ => Up) true None false true
    Up Up Up Up [] [] (Ok events) false (fun _ => None) (fun _ => None) send (fun l => l).

Definition takes_all (p : SendRate.EmailProvider) (m : Send.Email) : option string := None.
Definition refuses (x : string) (p : SendRate.EmailProvider) (m : Send.Email) : option string :=
  if bool_decide (Send.E_Envelope m = [x]) then Some "421 try again later"%string else None.

Abbreviation deliver := (Send.doSend map_to_list demo_parse (fun s => false) (fun s => s) render links no_headers
  no_headers (CL := TTLCache.t Limit) (CB := TTLCache.t Z) (CP := TTLCache.t (list SendRate.EmailProvider))
  (CT := TTLCache.t Send.Template) (F := QArith_base.Q) (Re := unit)).
Abbreviation SendEmail := (Send.SendEmail map_to_list demo_parse uuid_ok hash encode (fun s => false) (fun s => s)
  render links no_headers no_headers (CL := TTLCache.t Limit) (CB := TTLCache.t Z)
  (CP := TTLCache.t (list SendRate.EmailProvider))
  (CT := TTLCache.t Send.Template) (F := QArith_base.Q) (Re := unit)).

(** ** Deliveries *)

Definition dropped_bob : Suppression.Table := [Suppression.mkSuppression "s1" "t1" "bob@x.com" "bounced" 1].
Definition first_pass := deliver (call 1 "m1" dropped_bob [event DELIVERED "b@x.com"] takes_all) "t1"
                           (request "p1" "") "m1" start.

Lemma delivery_respects_lists_witness :
  exists p m b, handed first_pass.1.2 = [(p, m, b)] /\ E_Envelope m = ["c@x.com"]%string /\
    E_To m = ["b@x.com"; "c@x.com"]%string.
Proof.
  eexists _, _, _. split; [vm_compute; reflexivity|].
  edestruct (Send.delivery_respects_lists map_to_list demo_parse uuid_ok hash encode (fun s => false) (fun s => s)
    render links no_headers no_headers (call 1 "m1" dropped_bob [event DELIVERED "b@x.com"] takes_all) "t1" (request "p1" "") "m1"
    start first_pass.1.1 first_pass.1.2 first_pass.2)
    as (x & events & _ & _ & He & Ht & _); [done|done|vm_compute; reflexivity|vm_compute; by left|].
  split; [reflexivity|exact Ht].
Defined.

(** A pass that defers one recipient, and the pass after it. *)
Definition passes : list (Send.Env (Re := unit)) :=
  [call 1 "m1" [] [] (refuses "c@x.com");
   call 2 "m1" [] [event DELIVERED "b@x.com"; event DELIVERED "bob <bob@x.com>"] takes_all].

Lemma never_a_second_copy_witness :
  (copies "b@x.com" (redeliver map_to_list demo_parse (fun s => false) (fun s => s) render links no_headers no_headers
     "t1" (request "p1" "") "m1" passes start) <= 1)%nat.
Proof.
  apply (Send.never_a_second_copy map_to_list demo_parse uuid_ok hash encode (fun s => false) (fun s => s)
    render links no_headers no_headers "t1" (request "p1" "") "m1" passes start "b@x.com").
  vm_compute. split; [done|]. split; [|done].
  intros events E. injection E as <-. by vm_compute.
Defined.

Definition one_refused : QueueWorker.RecipientFailuresError :=
  QueueWorker.mkFailures [failure "c@x.com" "421 try again later"] 1.

Lemma pass_accounts_for_everyone_witness :
  let env := call 1 "m1" dropped_bob [] (refuses "c@x.com") in
  let run := deliver (call 1 "m1" dropped_bob [] (refuses "c@x.com")) "t1" (request "p1" "") "m1" start in
  run.2 = Err (FailedRecipients one_refused) /\ size (deliveredIn run.1.2) = 1%nat /\
  exists ps copy, own_error env ps copy "c@x.com" "421 try again later".
Proof.
  intros env run.
  destruct (Send.pass_accounts_for_everyone map_to_list demo_parse uuid_ok hash encode (fun s => false) (fun s => s)
    render links no_headers no_headers env "t1" (request "p1" "") "m1" start run.1.1 run.1.2
    (Err (FailedRecipients one_refused)) "bob <bob@x.com>") as (_ & Hsize & Hcause).
  - vm_compute. reflexivity.
  - intros from w1 ps Hsel. exists mailer. split; [|done].
    revert Hsel. unfold selectProviders.
    destruct (namedProvider env "t1" _ start) as [w2 o] eqn:E. vm_compute in E. injection E as <- <-.
    destruct (negb _); intros H'; [done|]. injection H' as _ <-. by left.
  - vm_compute. by right; right; left.
  - split; [vm_compute; reflexivity|]. split; [simpl in Hsize; lia|].
    destruct (Hcause (failure "c@x.com" "421 try again later") ltac:(by left)) as (_ & _ & from & w1 & ps & w2 & rnd & _ & _ & Hown).
    by eexists ps, _.
Defined.

(** The message of which two recipients are delivered at the first attempt and
    the third refuses twice: two retries, within the eight steps of the default
    schedule and three recipients. *)
Definition schedules : TTLCache.t (list string) := TTLCache.New QueueWorker.retryPatternTTL.
Definition claimed (retries : Z) : Outbox.OutboxEmail :=
  Outbox.mkOutboxEmail "m1" "t1" "{}" Outbox.Sending retries 0 "" 1 1 "tok".

Lemma retries_end_witness :
  retried map_to_list demo_parse uuid_ok hash encode (fun s => false) (fun s => s) render links no_headers no_headers
    (CL := TTLCache.t Limit) (CB := TTLCache.t Z) (CP := TTLCache.t (list SendRate.EmailProvider))
    (CT := TTLCache.t Send.Template) (F := QArith_base.Q) (Re := unit)
    (CR := TTLCache.t (list string)) 8 "t1" (request "p1" "") "m1" ∅ 0 2 /\ 2 <= 8 + 3.
Proof.
  assert (Hsb : QueueWorker.schedules_bounded None QueueWorker.Demo.tenants 8) by (intros tenant; vm_compute; congruence).
  assert (Hcb : QueueWorker.cache_bounded_by 8 schedules) by (intros k v Hk; vm_compute in Hk; congruence).
  assert (Hr : retried map_to_list demo_parse uuid_ok hash encode (fun s => false) (fun s => s) render links no_headers no_headers
    (CL := TTLCache.t Limit) (CB := TTLCache.t Z) (CP := TTLCache.t (list SendRate.EmailProvider))
    (CT := TTLCache.t Send.Template) (F := QArith_base.Q) (Re := unit)
    (CR := TTLCache.t (list string)) 8 "t1" (request "p1" "") "m1" ∅ 0 2).
  { eapply (retried_again _ _ _ _ _ _ _ _ _ _ _ 8 "t1" (request "p1" "") "m1" ∅ 0 1 (fun _ => ""%string)
      (call 1 "m1" [] [] (refuses "c@x.com")) start _ _ _
      (QueueWorker.mkSendError _ None _ false) None QueueWorker.Demo.tenants 10 10 (Ok ∅) schedules (claimed 0));
      [by intros events _ x|vm_compute; reflexivity|vm_compute; reflexivity|exact Hsb|exact Hcb|reflexivity
      |vm_compute; reflexivity|reflexivity|].
    eapply (retried_again _ _ _ _ _ _ _ _ _ _ _ 8 "t1" (request "p1" "") "m1" _ 0 0 (fun _ => ""%string)
      (call 2 "m1" [] [event DELIVERED "b@x.com"; event DELIVERED "bob <bob@x.com>"] (refuses "c@x.com")) start _ _ _
      (QueueWorker.mkSendError _ None _ false) None QueueWorker.Demo.tenants 20 20 (Ok ∅) schedules (claimed 0));
      [|vm_compute; reflexivity|vm_compute; reflexivity|exact Hsb|exact Hcb|reflexivity
      |vm_compute; reflexivity|reflexivity|constructor].
    intros events [= <-]. by vm_compute. }
  split; [exact Hr|].
  exact (Send.retries_end map_to_list demo_parse uuid_ok hash encode (fun s => false) (fun s => s) render links
    no_headers no_headers 8 "t1" (request "p1" "") "m1" 2 ltac:(lia) Hr).
Defined.

(** ** Admissions *)

Definition admitted := SendEmail (call 1 "m1" [] [] takes_all) Client "t1" (request "p1" "key-1") start.

Lemma admission_is_all_or_nothing_witness :
  exists row, Outbox.outbox (w_db admitted.1.1) !! "m1"%string = Some row /\
    Event "t1" "p1" "m1" PENDING "bob <bob@x.com>" "" "" ∈ admitted.1.2.
Proof.
  destruct (Send.admission_is_all_or_nothing map_to_list demo_parse uuid_ok hash encode (fun s => false) (fun s => s)
    render links no_headers no_headers (call 1 "m1" [] [] takes_all) "t1" (request "p1" "key-1") start
    admitted.1.1 admitted.1.2 (Ok (mkResponse "m1" PENDING))) as [_ [(_ & Hn & _)|(_ & row & Hrow & _ & _ & Hev & _)]].
  - vm_compute. reflexivity.
  - exfalso. revert Hn. vm_compute. discriminate.
  - exists row. split; [exact Hrow|]. apply Hev. vm_compute. by right; right; left.
Defined.

(** The retry comes a minute later, from another process: its caches are empty
    and a recipient has been suppressed since. *)
Definition elsewhere : SendState :=
  Send.mkWorld (w_db admitted.1.1) (SendRate.mkRates None None None) (TTLCache.New Minute) (TTLCache.New Minute).

Lemma retry_is_answered_with_the_first_witness :
  let env := call Minute "m2" dropped_bob [] takes_all in
  (SendEmail env Client "t1" (request "p1" "key-1") elsewhere).2 = Ok (mkResponse "m1" PENDING).
Proof.
  intros env.
  refine (proj1 (Send.retry_is_answered_with_the_first map_to_list demo_parse uuid_ok hash encode (fun s => false)
    (fun s => s) render links no_headers no_headers (call 1 "m1" [] [] takes_all) env "t1" (request "p1" "key-1") start
    admitted.1.1 admitted.1.2 (mkResponse "m1" PENDING) elsewhere
    (loadProvider env "t1" "p1" elsewhere).1.1 mailer
    (SendEmail env Client "t1" (request "p1" "key-1") elsewhere).1.1
    (SendEmail env Client "t1" (request "p1" "key-1") elsewhere).1.2 _ _ _ _ _ _ _));
    [done|vm_compute; reflexivity| |done|vm_compute; reflexivity|vm_compute; reflexivity].
  intros k Hk. split; [exact Hk|]. revert Hk. vm_compute. intros E. injection E as <-. discriminate.
Defined.

(** ** A bounce, then a send *)

Definition bounce : Events.Env :=
  Events.mkEnv "e1" 5 (fun _ => true) (fun _ => None) (fun _ => None) (fun _ => None) (fun _ => None) true false true.
Definition bounced :=
  Events.RecordEvent bounce "t1" "p1" "m1" BOUNCED "Bob@X.com" "hi" "550 5.1.1 user unknown" ∅.
Definition after_bounce : Suppression.Table :=
  autoSuppress Suppression.demo_norm Suppression.demo_uuid 6 (Events.suppressions bounced.1.2) [].

Lemma demo_norm_normalizes : Suppression.normalizes demo_parse Suppression.demo_norm.
Proof. by intros a Ha. Qed.


(** ** A message that is lost *)

Definition queued := SendEmail (call 1 "m1" [] [] takes_all) Client "t1" (request "p2" "") start.
Definition its_delivery := SendEmail (call 2 "x" [] [] takes_all) (Worker "m1") "t1" (request "p2" "") start.
Definition its_pass : QueueWorker.Env :=
  QueueWorker.mkEnv Up 2 (outcome (fun _ => ""%string) its_delivery.2) [] [] (Ok ∅) 2 2 (fun _ => Up).

(** A message to a provider that only receives is lost.  A send that names an
    IMAP provider is accepted and queued; its delivery skips the provider, hands
    no copy to anyone, records nothing -- no failure, no event -- and reports
    DELIVERED; the worker then deletes the row. *)
Theorem receiver_provider_loses_mail :
  queued.2 = Ok (mkResponse "m1" PENDING) /\
  (exists row, Outbox.outbox (w_db queued.1.1) !! "m1"%string = Some row) /\
  its_delivery.2 = Ok (mkResponse "m1" DELIVERED) /\ its_delivery.1.2 = [] /\
  let '(n, db, _, effs) :=
    QueueWorker.processPending None (fun _ => Ok None) QueueWorker.messageLease (decode (request "p2" "")) Up Up ∅ 2
      "tok" [its_pass] (TTLCache.New (V := list string) QueueWorker.retryPatternTTL) (w_db queued.1.1) in
  n = 1%nat /\ Outbox.outbox db = ∅ /\ effs = [].
Proof.
  split_and!; [vm_compute; reflexivity|eexists; vm_compute; reflexivity|vm_compute; reflexivity|
    vm_compute; reflexivity|].
  vm_compute. done.
Qed.

End SendCases.
