(* ===== verification/SentCopies.v ===== *)
(** * Copies of sent mail: the queue and its worker

    Models internal/sent_copy: the job statements of
    [repositories/stores/postgres/store.go], [usecases/worker.go] (the queue the
    send path hands copies to, and the worker that files them) and
    [usecases/imap.go]; and [SentCopyEmail] of internal/email/usecases.

    The address parser, the message renderer and the JSON of a request are
    parameters ([stored] is what the JSON column gives back of a text); what the
    provider store, the senders and the mail server answer are arguments.  Times in
    the table are seconds.  Workers on several gateways share the table: what others
    commit between two statements of a call is a list of statements. *)
From S2P Require Import Prelude GoStrings Encoding Secrets Admission SendRate SentCopySettings Send.
From Stdlib Require Import Ascii.

Module SentCopies.
Import GoStrings Encoding Admission SentCopySettings.
Local Open Scope string_scope.
Local Open Scope Z_scope.
#[local] Existing Instance SendRate.ProviderType_eq_dec.

(** ** The table of jobs *)

Record Job := mkJob {
  J_ID : string;
  J_TenantID : string;
  J_MessageID : string;
  J_Request : string;
  J_Attempts : Z;
  J_ClaimToken : string;
  J_LastError : string;
  J_CreatedAt : Z
}.

Record JobRow := mkJobRow {
  j_tenant_id : string;
  j_message_id : string;
  j_request : string;
  j_attempts : Z;
  j_next_attempt_at : Z;
  j_claim_token : string;
  j_claimed_at : Z;
  j_last_error : string;
  j_created_at : Z
}.

Abbreviation Jobs := (gmap string JobRow).

Definition workerBatchSize : nat := 20.
Definition claimLease : Z := 5 * Minute.
Definition maxAttempts : Z := 10.
Definition firstRetry : Z := Minute.
Definition maxRetry : Z := 6 * Hour.

(** The statements, and what they answer. *)
Definition enqueue_job (stored : string -> string) (j : Job) (now : Z) (t : Jobs) : result string (Jobs * unit) :=
  match t !! J_ID j with
  | Some _ => Err "duplicate key"
  | None => Ok (<[J_ID j := mkJobRow (J_TenantID j) (J_MessageID j) (stored (J_Request j)) 0 (Unix now) "" 0 "" (Unix now)]> t, tt)
  end.

Definition isDue (now stale : Z) (r : JobRow) : bool :=
  (j_next_attempt_at r <=? now) && (eqb (j_claim_token r) "" || (j_claimed_at r <? stale)).

Definition claim_job (token : string) (now : Z) (id prev : string) (t : Jobs) : result string (Jobs * Z) :=
  match t !! id with
  | Some r =>
      if eqb (j_claim_token r) prev then
        Ok (<[id := mkJobRow (j_tenant_id r) (j_message_id r) (j_request r) (j_attempts r) (j_next_attempt_at r) token now (j_last_error r) (j_created_at r)]> t, 1)
      else Ok (t, 0)
  | None => Ok (t, 0)
  end.

Definition scanJob (id : string) (r : JobRow) : Job :=
  mkJob id (j_tenant_id r) (j_message_id r) (j_request r) (j_attempts r) (j_claim_token r) (j_last_error r) (unixEpoch + j_created_at r * Second).

Definition complete_job (id token : string) (t : Jobs) : result string (Jobs * unit) :=
  Ok (match t !! id with Some r => if eqb (j_claim_token r) token then delete id t else t | None => t end, tt).

Definition reschedule_job (id token : string) (attempts next : Z) (lastError : string) (t : Jobs) : result string (Jobs * unit) :=
  Ok (match t !! id with
      | Some r =>
          if eqb (j_claim_token r) token then
            <[id := mkJobRow (j_tenant_id r) (j_message_id r) (j_request r) attempts next "" 0 lastError (j_created_at r)]> t
          else t
      | None => t
      end, tt).

(** One statement of another connection, committed. *)
Inductive jobOp :=
| OpEnqueue (j : Job) (now : Z)
| OpClaim (id prev token : string) (now : Z)
| OpComplete (id token : string)
| OpReschedule (id token : string) (attempts next : Z) (lastError : string).

Definition after {A} (stmt : Jobs -> result string (Jobs * A)) (t : Jobs) : Jobs := match stmt t with Ok (t', _) => t' | Err _ => t end.

(** [ORDER BY next_attempt_at]. *)
Definition sooner (a b : string * JobRow) : Prop := j_next_attempt_at a.2 <= j_next_attempt_at b.2.
#[local] Instance sooner_dec a b : Decision (sooner a b).
Proof. unfold sooner. apply _. Defined.

Section Queue.
Context (ParseEmailAddress : string -> result string string).
Context (RenderMessage : Send.Email -> result string string).
Context (Marshal : SendEmailRequest -> result string string) (Unmarshal : string -> result string SendEmailRequest) (stored : string -> string).
Context (Open_ : string -> string -> string -> option string) (keyring : option Secrets.keySet).
(** The order the engine meets a table's rows in, which decides between equals. *)
Context (heapOrder : Jobs -> list (string * JobRow)).

Definition opStep (o : jobOp) (t : Jobs) : Jobs :=
  match o with
  | OpEnqueue j now => after (enqueue_job stored j now) t
  | OpClaim id prev token now => after (claim_job token (Unix now) id prev) t
  | OpComplete id token => after (complete_job id token) t
  | OpReschedule id token attempts next e => after (reschedule_job id token attempts next e) t
  end.

Definition opSteps (os : list jobOp) (t : Jobs) : Jobs := foldl (fun t o => opStep o t) t os.

(** due_jobs.sql: the candidates with the tokens they had. *)
Definition due_jobs (now stale : Z) (limit : nat) (t : Jobs) : list (string * string) :=
  (fun r => (r.1, j_claim_token r.2)) <$> take limit (merge_sort sooner (filter (fun r => isDue now stale r.2 = true) (heapOrder t))).

(** ** Claiming *)

(** What a claim meets: its clock, the random source, each statement, and what
    others commit before each statement of the i-th candidate. *)
Record ClaimEnv := mkClaimEnv {
  k_now : Z;
  k_select : fault;
  k_token : nat -> result string string;
  k_before : nat -> list jobOp;
  k_claim : nat -> fault;
  k_between : nat -> list jobOp;
  k_get : nat -> fault
}.

Fixpoint claimEach (env : ClaimEnv) (i : nat) (cands : list (string * string)) (t : Jobs) : Jobs * list Job * option string :=
  match cands with
  | [] => (t, [], None)
  | (id, prev) :: rest =>
      match k_token env i with
      | Err e => (t, [], Some e)
      | Ok token =>
          match exec (k_claim env i) (claim_job token (Unix (k_now env)) id prev) (opSteps (k_before env i) t) with
          | (t, Err e) => (t, [], Some e)
          | (t, Ok n) =>
              if negb (n =? 1) then claimEach env (S i) rest t
              else
                let t := opSteps (k_between env i) t in
                match query (k_get env i) (match t !! id with Some r => Ok r | None => Err "sql: no rows in result set" end) with
                | Err e => (t, [], Some e)
                | Ok r =>
                    let '(t, js, err) := claimEach env (S i) rest t in
                    (t, scanJob id r :: js, err)
                end
          end
      end
  end.

Definition ClaimJobs (env : ClaimEnv) (lease : Z) (limit : nat) (t : Jobs) : Jobs * list Job * option string :=
  match query (k_select env) (Ok (due_jobs (Unix (k_now env)) (Unix (k_now env - lease)) limit t)) with
  | Err e => (t, [], Some e)
  | Ok cands => claimEach env 0 cands t
  end.

(** ** Queueing a copy *)

Inductive queueError :=
| Unread (e : copyError)
| NotEncoded (e : string)
| NotQueued (e : string).

(** [Queue.Enqueue]: the table, why it failed, and whether the worker was woken. *)
Definition Enqueue (fr fw : fault) (uuid : string) (now : Z) (tenant message : string) (req : SendEmailRequest) (s : Tables) (t : Jobs) :
    Jobs * option queueError * bool :=
  match GetSettings Open_ keyring fr tenant s with
  | Err e => (t, Some (Unread e), false)
  | Ok set =>
      if match set with None => true | Some set => eqb (Mode set) ModeNone || eqb (Mode set) "" end then (t, None, false)
      else
        match Marshal req with
        | Err e => (t, Some (NotEncoded e), false)
        | Ok raw =>
            match exec fw (enqueue_job stored (mkJob uuid tenant message raw 0 "" "" 0) now) t with
            | (t, Err e) => (t, Some (NotQueued e), false)
            | (t, Ok _) => (t, None, true)
            end
        end
  end.

(** ** Filing a copy *)

(** [SentCopyEmail] (internal/email/usecases/sent_copy.go). *)
Definition SentCopyEmail (req : SendEmailRequest) : Send.Email :=
  let '(replyTo, headers) := applyReplyHeaders req ∅ in
  Send.mkEmail (From_ req) (To req) (Cc req) [] (Subject req) (BodyText req) (BodyHtml req) replyTo headers
    (default (mkAttachment "" "" "" "") <$> Attachments req).

(** What filing does outside: a message appended to a mailbox, or handed to a
    provider. *)
Inductive copyEffect :=
| Appended (set : Settings) (login password message : string) (at_ : Z)
| Mailed (p : SendRate.EmailProvider) (m : Send.Email).

Inductive fileError :=
| Permanent (why : string)
| Transient (why : string).

(** What filing one copy meets: the settings as they are by then, how they are
    read, and what the collaborators answer. *)
Record FileEnv := mkFileEnv {
  f_tables : Tables;
  f_settings : fault;
  f_mailbox : fault;
  f_append : option string;
  f_provider : string -> string -> result string (option SendRate.EmailProvider);
  f_createSender : SendRate.EmailProvider -> option string;
  f_send : option string
}.

(** The text of an error of the store. *)
Definition copyErrorText (e : copyError) : string :=
  match e with Database e => e | ErrNoEncryptionKey => "no data encryption key is configured" | _ => "failed to decrypt a Sent copies password" end.

Definition transient (e : option string) : option fileError := match e with Some e => Some (Transient e) | None => None end.

Definition addressed (p : SendRate.EmailProvider) (msg : Send.Email) (sender : string) : Send.Email :=
  if bool_decide (SendRate.Type_ p = SendRate.SMTP) then
    Send.mkEmail (Send.E_From msg) (Send.E_To msg) (Send.E_Cc msg) [sender] (Send.E_Subject msg) (Send.E_Body msg) (Send.E_HTMLBody msg)
      (Send.E_ReplyTo msg) (Send.E_Headers msg) (Send.E_Attachments msg)
  else
    Send.mkEmail (Send.E_From msg) [sender] [] (Send.E_Envelope msg) (Send.E_Subject msg) (Send.E_Body msg) (Send.E_HTMLBody msg)
      (Send.E_ReplyTo msg) (Send.E_Headers msg) (Send.E_Attachments msg).

Definition mailToSender (env : FileEnv) (tenant provider : string) (msg : Send.Email) (sender : string) : list copyEffect * option fileError :=
  match f_provider env tenant provider with
  | Err e => ([], Some (Transient e))
  | Ok None => ([], Some (Permanent ("the provider " ++ provider ++ " no longer exists")))
  | Ok (Some p) =>
      match f_createSender env p with
      | Some e => ([], Some (Transient e))
      | None => ([Mailed p (addressed p msg sender)], transient (f_send env))
      end
  end.

Definition append (env : FileEnv) (set : Settings) (login password : string) (msg : Send.Email) (at_ : Z) : list copyEffect * option fileError :=
  match RenderMessage msg with
  | Err e => ([], Some (Permanent ("render the Sent copy: " ++ e)))
  | Ok raw => ([Appended set login password raw at_], transient (f_append env))
  end.

Definition file (env : FileEnv) (job : Job) : list copyEffect * option fileError :=
  match GetSettings Open_ keyring (f_settings env) (J_TenantID job) (f_tables env) with
  | Err e => ([], Some (Transient (copyErrorText e)))
  | Ok None => ([], None)
  | Ok (Some set) =>
      if eqb (Mode set) ModeNone || eqb (Mode set) "" then ([], None)
      else
        match Unmarshal (J_Request job) with
        | Err e => ([], Some (Permanent ("read the queued Sent copy: " ++ e)))
        | Ok req =>
            match ParseEmailAddress (From_ req) with
            | Err e => ([], Some (Permanent ("the sender is not an address: " ++ e)))
            | Ok from =>
                let sender := NormaliseAddress from in
                let msg := SentCopyEmail req in
                if eqb (Mode set) ModeBccSender then mailToSender env (J_TenantID job) (ProviderId req) msg sender
                else if eqb (Mode set) ModeSharedLogin then append env set (MasterLogin set sender) (MasterPassword set) msg (J_CreatedAt job)
                else if eqb (Mode set) ModePerUserLogin then
                  match GetMailbox Open_ keyring (f_mailbox env) (J_TenantID job) sender (f_tables env) with
                  | Err e => ([], Some (Transient (copyErrorText e)))
                  | Ok None => ([], Some (Permanent ("no mailbox login is stored for " ++ sender)))
                  | Ok (Some m) => append env set (Login m) (M_Password m) msg (J_CreatedAt job)
                  end
                else ([], Some (Permanent "unknown Sent copies mode"))
            end
        end
  end.

(** ** Settling a job *)

(** The loop of [retryDelay], [n] turns at most. *)
Fixpoint doubled (n : nat) (d : Z) : Z :=
  match n with O => d | S n => if d <? maxRetry then doubled n (d * 2) else d end.

Definition retryDelay (attempts : Z) : Z := Z.min (doubled (Z.to_nat (attempts - 1)) firstRetry) maxRetry.

(** What settling meets: its clock, what others commit while the copy is filed, and
    how its own statement goes. *)
Record ProcessEnv := mkProcessEnv {
  p_file : FileEnv;
  p_others : list jobOp;
  p_now : Z;
  p_settle : fault
}.

Definition whyText (e : fileError) : string := match e with Permanent w | Transient w => w end.

Definition process (env : ProcessEnv) (job : Job) (t : Jobs) : Jobs * list copyEffect :=
  let '(effs, err) := file (p_file env) job in
  let t := opSteps (p_others env) t in
  let complete := (exec (p_settle env) (complete_job (J_ID job) (J_ClaimToken job)) t).1 in
  match err with
  | None => (complete, effs)
  | Some (Permanent _) => (complete, effs)
  | Some e =>
      let attempts := J_Attempts job + 1 in
      if maxAttempts <=? attempts then (complete, effs)
      else ((exec (p_settle env) (reschedule_job (J_ID job) (J_ClaimToken job) attempts (Unix (p_now env + retryDelay attempts)) (whyText e)) t).1, effs)
  end.

(** [RunOnce]: a batch is claimed and filed job by job; [alive i] says whether the
    context still is before the i-th. *)
Fixpoint processAll (alive : nat -> bool) (envs : nat -> ProcessEnv) (i : nat) (js : list Job) (t : Jobs) : Jobs * list copyEffect :=
  match js with
  | [] => (t, [])
  | j :: rest =>
      if negb (alive i) then (t, [])
      else
        let '(t, effs) := process (envs i) j t in
        let '(t, more) := processAll alive envs (S i) rest t in
        (t, (effs ++ more)%list)
  end.

Definition RunOnce (alive : nat -> bool) (claim : ClaimEnv) (envs : nat -> ProcessEnv) (t : Jobs) : Jobs * list copyEffect * nat :=
  let '(t, js, _) := ClaimJobs claim claimLease workerBatchSize t in
  let '(t, effs) := processAll alive envs 0 js t in
  (t, effs, length js).

End Queue.

(** ** Filing over IMAP (imap.go) *)

(** What the client of the mail server is asked to do, in order. *)
Inductive imapCall :=
| DialTLS (addr serverName : string)
| Dial (addr : string)
| SupportStartTLS
| StartTLS (serverName : string)
| LogIn (login password : string)
| AppendTo (folder : string) (flags : list string) (when : Z) (message : string)
| Logout.

(** What the server answers to each. *)
Record Server := mkServer {
  v_dial : option string;
  v_offers : result string bool;
  v_startTLS : option string;
  v_login : option string;
  v_append : option string
}.

Inductive appendError :=
| ErrNoSTARTTLS
| NotConnected (addr e : string)
| NotAsked (addr e : string)
| NotStarted (addr e : string)
| NotLoggedIn (addr login e : string)
| NotFiled (folder e : string).

(** What follows the connection; the deferred [Logout] comes last. *)
Definition logInAndAppend (srv : Server) (set : Settings) (login password message : string) (when : Z) : list imapCall * option appendError :=
  match v_login srv with
  | Some e => ([LogIn login password], Some (NotLoggedIn (Addr set) login e))
  | None =>
      ([LogIn login password; AppendTo (Folder set) [String (chr 92) "Seen"] when message],
       match v_append srv with Some e => Some (NotFiled (Folder set) e) | None => None end)
  end.

Definition secured (srv : Server) (set : Settings) (k : list imapCall * option appendError) : list imapCall * option appendError :=
  if IMAPUseSSL set then k
  else
    match v_offers srv with
    | Err e => ([SupportStartTLS], Some (NotAsked (Addr set) e))
    | Ok false => ([SupportStartTLS], Some ErrNoSTARTTLS)
    | Ok true =>
        match v_startTLS srv with
        | Some e => ([SupportStartTLS; StartTLS (IMAPHost set)], Some (NotStarted (Addr set) e))
        | None => (SupportStartTLS :: StartTLS (IMAPHost set) :: k.1, k.2)
        end
    end.

Definition Append (srv : Server) (set : Settings) (login password message : string) (when : Z) : list imapCall * option appendError :=
  let dial := if IMAPUseSSL set then DialTLS (Addr set) (IMAPHost set) else Dial (Addr set) in
  match v_dial srv with
  | Some e => ([dial], Some (NotConnected (Addr set) e))
  | None =>
      let '(calls, err) := secured srv set (logInAndAppend srv set login password message when) in
      ((dial :: calls ++ [Logout])%list, err)
  end.

(** What a conversation was told under encryption: the calls after TLS is up, by
    [DialTLS] or by a [StartTLS] that the server accepted. *)
Fixpoint inTheClear (accepts : bool) (calls : list imapCall) : list imapCall :=
  match calls with
  | [] => []
  | DialTLS _ _ :: _ => []
  | StartTLS n :: rest => if accepts then [] else StartTLS n :: inTheClear accepts rest
  | c :: rest => c :: inTheClear accepts rest
  end.

(** Nothing but the dial and the two questions of STARTTLS ever crosses the
    connection unencrypted: no login, no password and no message is sent before TLS
    is up, whatever the server answers. *)
Theorem password_needs_tls srv set login password message when c :
  c ∈ inTheClear (bool_decide (v_startTLS srv = None)) (Append srv set login password message when).1 ->
  c = Dial (Addr set) \/ c = SupportStartTLS \/ c = StartTLS (IMAPHost set) \/ c = Logout.
Proof.
  unfold Append, secured, logInAndAppend. destruct (IMAPUseSSL set), (v_dial srv), (v_offers srv) as [[]|], (v_startTLS srv), (v_login srv);
    rewrite ?bool_decide_true by done; rewrite ?bool_decide_false by done; cbn; rewrite ?elem_of_cons, ?elem_of_nil; tauto.
Qed.

(** ** One worker at a time *)

Section Claims.
Context (stored : string -> string) (heapOrder : Jobs -> list (string * JobRow)) (Horder : forall t, heapOrder t ≡ₚ map_to_list t).

Abbreviation due := (due_jobs heapOrder).
Abbreviation step := (opStep stored).

Lemma due_inv now stale limit t id tok : (id, tok) ∈ due now stale limit t ->
  exists r, t !! id = Some r /\ j_claim_token r = tok /\ j_next_attempt_at r <= now /\ (tok = "" \/ j_claimed_at r < stale).
Proof.
  unfold due_jobs. intros [[i r] [[= -> ->] Hr]]%list_elem_of_fmap. apply elem_of_take in Hr as (n & Hn & _).
  apply list_elem_of_lookup_2 in Hn. rewrite merge_sort_Permutation in Hn. apply list_elem_of_filter in Hn as [Hd Hin].
  rewrite Horder in Hin. apply elem_of_map_to_list in Hin. unfold isDue in Hd. cbn [snd] in *. b2p. exists r. split_and!; [done..|lia|].
  match goal with H : _ \/ _ |- _ => destruct H as [He|He] end; [left; by apply eqb_true|right; lia].
Qed.

(** The states the table goes through, latest first.  A claim names a candidate, with
    the token it had, that was due in some state its worker read. *)
Definition allowed (h : list Jobs) (o : jobOp) : Prop :=
  match o with
  | OpClaim id prev _ now => exists seen, seen ∈ h /\ (id, prev) ∈ due (Unix now) (Unix (now - claimLease)) workerBatchSize seen
  | _ => True
  end.

Inductive run : Jobs -> list Jobs -> list jobOp -> Jobs -> Prop :=
| run_nil t h : run t h [] t
| run_cons t h o os t' : allowed (t :: h) o -> run (step o t) (t :: h) os t' -> run t h (o :: os) t'.

(** What others may do while a claim is held: read before it runs out, draw tokens
    of their own, and settle only what they hold. *)
Definition keepsOut (token : string) (until : Z) (o : jobOp) : Prop :=
  match o with
  | OpEnqueue _ _ => True
  | OpClaim _ _ t now => t <> token /\ now <= until
  | OpComplete _ t | OpReschedule _ t _ _ _ => t <> token
  end.

Lemma Unix_mono x y : x <= y -> Unix x <= Unix y.
Proof. intros H. unfold Unix. apply Z.div_le_mono; [done|lia]. Qed.

Lemma held_not_due token claimed now limit t id r :
  t !! id = Some r -> j_claim_token r = token -> token <> "" -> j_claimed_at r = Unix claimed -> now <= claimed + claimLease ->
  forall prev, (id, prev) ∉ due (Unix now) (Unix (now - claimLease)) limit t.
Proof.
  intros Hr Ht Hne Hc Hn prev (r' & Hr' & Htok & _ & Hd)%due_inv. rewrite Hr in Hr'. injection Hr' as <-.
  destruct Hd as [->|Hd]; [congruence|]. pose proof (Unix_mono (now - claimLease) claimed). lia.
Qed.

Lemma step_keeps o t id r : t !! id = Some r ->
  (forall prev tok now, o = OpClaim id prev tok now -> prev <> j_claim_token r) ->
  (forall tok, o = OpComplete id tok -> tok <> j_claim_token r) -> (forall tok a n e, o = OpReschedule id tok a n e -> tok <> j_claim_token r) ->
  step o t !! id = Some r.
Proof.
  intros Hr H1 H2 H3. destruct o as [j now|i prev tok now|i tok|i tok a n e]; unfold opStep, after.
  - unfold enqueue_job. destruct (t !! J_ID j) eqn:E; [done|]. rewrite lookup_insert_ne; [done|congruence].
  - unfold claim_job. destruct (t !! i) as [r'|] eqn:E; [|done]. destruct (eqb _ prev) eqn:Ep; [|done]. apply eqb_true in Ep.
    destruct (decide (i = id)) as [->|]; [|by rewrite lookup_insert_ne]. rewrite Hr in E. injection E as <-. by edestruct H1.
  - unfold complete_job. destruct (t !! i) as [r'|] eqn:E; [|done]. destruct (eqb _ tok) eqn:Ep; [|done]. apply eqb_true in Ep.
    destruct (decide (i = id)) as [->|]; [|by rewrite lookup_delete_ne]. rewrite Hr in E. injection E as <-. by edestruct H2.
  - unfold reschedule_job. destruct (t !! i) as [r'|] eqn:E; [|done]. destruct (eqb _ tok) eqn:Ep; [|done]. apply eqb_true in Ep.
    destruct (decide (i = id)) as [->|]; [|by rewrite lookup_insert_ne]. rewrite Hr in E. injection E as <-. by edestruct H3.
Qed.

(** A state that does not know a token, or in which it holds the row. *)
Definition unknownOrHeld (id : string) (r : JobRow) (t : Jobs) : Prop :=
  (forall r', t !! id = Some r' -> j_claim_token r' <> j_claim_token r) \/ t !! id = Some r.

Lemma claims_keep id r claimed t h os t' : run t h os t' -> t !! id = Some r -> j_claim_token r <> "" -> j_claimed_at r = Unix claimed ->
  Forall (unknownOrHeld id r) h -> Forall (keepsOut (j_claim_token r) (claimed + claimLease)) os -> t' !! id = Some r.
Proof.
  intros Hrun Hr Hne Hc. revert Hr. induction Hrun as [|t h o os t' Ho _ IH]; intros Hr Hh Hos; [done|]. apply Forall_cons in Hos as [Hk Hos].
  assert (Hth : Forall (unknownOrHeld id r) (t :: h)) by (constructor; [by right|done]).
  apply IH; [|done..]. apply (step_keeps o t id r); [done| | |].
  - intros prev tok now -> ->. destruct Hk as [_ Hk]. destruct Ho as (seen & Hs & Hd). rewrite Forall_forall in Hth.
    destruct (Hth seen Hs) as [Hu|Hu].
    + apply due_inv in Hd as (r' & Hr' & Ht & _). by apply (Hu r').
    + by eapply held_not_due in Hd.
  - by intros tok ->.
  - by intros tok a n e ->.
Qed.

(** Whatever others do meanwhile, a call returns jobs among its candidates only. *)
Lemma claimEach_ids env : forall cands i t t' js err, claimEach stored env i cands t = (t', js, err) -> forall j, j ∈ js -> exists prev, (J_ID j, prev) ∈ cands.
Proof.
  induction cands as [|[id prev] rest IH]; intros i t t' js err H j Hj; cbn [claimEach] in H; [by injection H as <- <- <-; apply elem_of_nil in Hj|].
  assert (Hnil : forall (x : Jobs) (e : option string), (x, [], e) = (t', js, err) -> False) by (intros x e [= _ <- _]; by apply elem_of_nil in Hj).
  destruct (k_token env i) as [token|]; [|by destruct (Hnil _ _ H)]. destruct (exec _ _ _) as [t1 [n|]]; [|by destruct (Hnil _ _ H)].
  destruct (negb (n =? 1)); [destruct (IH _ _ _ _ _ H j Hj) as [q Hq]; exists q; by right|].
  destruct (query _ _) as [r|]; [|by destruct (Hnil _ _ H)]. destruct (claimEach stored env (S i) rest _) as [[t2 js2] err2] eqn:E.
  injection H as <- <- <-. apply elem_of_cons in Hj as [->|Hj]; [exists prev; by left|]. destruct (IH _ _ _ _ _ E j Hj) as [q Hq]. exists q. by right.
Qed.

(** A call that others leave alone is a run of claims of its own. *)
Definition alone (env : ClaimEnv) : Prop := (forall i, k_before env i = []) /\ (forall i, k_between env i = []).

Lemma claimEach_run env seen : alone env -> forall cands i t h t' js err, seen ∈ t :: h ->
  (forall c, c ∈ cands -> c ∈ due (Unix (k_now env)) (Unix (k_now env - claimLease)) workerBatchSize seen) ->
  claimEach stored env i cands t = (t', js, err) -> exists os, run t h os t'.
Proof.
  intros [Hb Hm]. induction cands as [|[id prev] rest IH]; intros i t h t' js err Hs Hd H; cbn [claimEach] in H; [injection H as <- <- <-; exists []; by constructor|].
  destruct (k_token env i) as [token|]; [|injection H as <- <- <-; exists []; by constructor]. rewrite Hb in H. cbn [opSteps foldl] in H.
  assert (Hstep : exists t1 n, claim_job token (Unix (k_now env)) id prev t = Ok (t1, n)) by (unfold claim_job; repeat case_match; eauto).
  destruct Hstep as (t1 & n & Hc). assert (Hone : forall os x, run t1 (t :: h) os x -> run t h (OpClaim id prev token (k_now env) :: os) x).
  { intros os x Hx. apply run_cons; [exists seen; split; [done|]; apply Hd; by left|]. unfold opStep, after. by rewrite Hc. }
  destruct (exec _ _ t) as [t2 r] eqn:E. pose proof (exec_inv _ _ _ _ _ _ Hc E) as [He Hok]. cbn [fst snd] in *.
  destruct r as [m|e]; [|injection H as <- <- <-; destruct He as [->| ->]; [exists []; by constructor|exists [OpClaim id prev token (k_now env)]; apply Hone; by constructor]].
  destruct (Hok m eq_refl) as [-> _].
  assert (Hrest : forall js' err', claimEach stored env (S i) rest t1 = (t', js', err') -> exists os, run t h os t').
  { intros js' err' Hr. apply (IH _ _ (t :: h)) in Hr as [os Hos]; [eexists; by apply Hone|by right|]. intros c Hin. apply Hd. by right. }
  destruct (negb (m =? 1)); [by eapply Hrest|]. rewrite Hm in H. cbn [opSteps foldl] in H.
  destruct (query _ _) as [r|]; [|injection H as <- <- <-; exists [OpClaim id prev token (k_now env)]; apply Hone; by constructor].
  destruct (claimEach stored env (S i) rest t1) as [[t3 js3] err3]. injection H as <- <- <-. by eapply Hrest.
Qed.

Lemma ClaimJobs_run env t h t' js err : alone env -> ClaimJobs stored heapOrder env claimLease workerBatchSize t = (t', js, err) -> exists os, run t h os t'.
Proof.
  intros Ha. unfold ClaimJobs. destruct (query _ _) as [cands|e] eqn:E; [|intros [= <- <- <-]; exists []; by constructor].
  apply claimEach_run with (seen := t); [done|by left|]. intros c Hc. unfold query in E. destruct (k_select env); [|done..]. by injection E as <-.
Qed.

(** C17: a copy is in one worker's hands for as long as its claim lasts.  Once a
    claim took effect under a token nobody has seen, then whatever claims, by workers
    that read the table at any earlier point, and whatever other statements follow,
    up to the lease the row stays as the claim left it and no worker's ClaimJobs
    returns that copy. *)
Theorem copy_is_in_one_hand id prev token claimed r t h os t' :
  token <> "" -> t !! id = Some r -> j_claim_token r = prev -> Forall (map_Forall (fun _ r => j_claim_token r <> token)) (t :: h) ->
  run t h (OpClaim id prev token claimed :: os) t' -> Forall (keepsOut token (claimed + claimLease)) os ->
  (exists r', t' !! id = Some r' /\ j_claim_token r' = token /\ j_attempts r' = j_attempts r /\ j_request r' = j_request r) /\
  forall env t2 js err, k_now env <= claimed + claimLease -> ClaimJobs stored heapOrder env claimLease workerBatchSize t' = (t2, js, err) ->
    Forall (fun j => J_ID j <> id) js.
Proof.
  intros Hne Hr Hp Hfresh Hrun Hos. inversion Hrun as [|? ? ? ? ? Ho Hrest]; subst. unfold opStep, after, claim_job in Hrest. rewrite Hr, eqb_refl in Hrest.
  set (r1 := mkJobRow _ _ _ _ _ _ _ _ _) in Hrest.
  assert (Hk : t' !! id = Some r1).
  { apply (claims_keep id r1 claimed _ _ _ _ Hrest); [apply lookup_insert_eq|done..| |done].
    eapply Forall_impl; [exact Hfresh|]. intros x Hx. left. intros r' Hr'. by apply (Hx _ _ Hr'). }
  split; [by exists r1|]. intros env t2 js err Hn Hc. apply Forall_forall. intros j Hj Hid. unfold ClaimJobs in Hc.
  destruct (query _ _) as [cands|e] eqn:E; [|injection Hc as <- <- <-; by apply elem_of_nil in Hj].
  unfold query in E. destruct (k_select env); [|done..]. injection E as <-. destruct (claimEach_ids _ _ _ _ _ _ _ Hc j Hj) as [q Hq]. rewrite Hid in Hq.
  by eapply held_not_due in Hq.
Qed.

End Claims.

(** ** Whose copy it is, and how long it is tried *)

Section Filing.
Context (ParseEmailAddress : string -> result string string).
Context (RenderMessage : Send.Email -> result string string).
Context (Marshal : SendEmailRequest -> result string string) (Unmarshal : string -> result string SendEmailRequest) (stored : string -> string).
Context (Open_ : string -> string -> string -> option string) (keyring : option Secrets.keySet).

Abbreviation fileCopy := (file ParseEmailAddress RenderMessage Unmarshal Open_ keyring).
Abbreviation settle := (process ParseEmailAddress RenderMessage Unmarshal stored Open_ keyring).
Abbreviation settingsNow env job := (GetSettings Open_ keyring (f_settings env) (J_TenantID job) (f_tables env)).

(** Filed in the sender's own mailbox, with the login its mode gives: the
    administrator's on that mailbox, or the one stored for that address. *)
Definition toMailbox (env : FileEnv) (job : Job) (req : SendEmailRequest) (sender : string) (eff : copyEffect) : Prop :=
  exists set raw login password, eff = Appended set login password raw (J_CreatedAt job) /\ settingsNow env job = Ok (Some set) /\
    RenderMessage (SentCopyEmail req) = Ok raw /\
    (Mode set = ModeSharedLogin /\ login = sender ++ Separator set ++ MasterUsername set /\ password = MasterPassword set \/
     Mode set = ModePerUserLogin /\ exists m, GetMailbox Open_ keyring (f_mailbox env) (J_TenantID job) sender (f_tables env) = Ok (Some m) /\
       M_Address m = sender /\ login = Login m /\ password = M_Password m).

(** Mailed through the message's own provider, to the sender alone: in the envelope
    when the provider has one, and as the only one named when it does not. *)
Definition toSender (env : FileEnv) (job : Job) (req : SendEmailRequest) (sender : string) (eff : copyEffect) : Prop :=
  exists p m, eff = Mailed p m /\ f_provider env (J_TenantID job) (ProviderId req) = Ok (Some p) /\
    (if decide (SendRate.Type_ p = SendRate.SMTP) then Send.E_Envelope m = [sender] /\ Send.E_To m = To req /\ Send.E_Cc m = Cc req
     else Send.E_To m = [sender] /\ Send.E_Cc m = [] /\ Send.E_Envelope m = []) /\
    Send.E_Subject m = Subject req /\ Send.E_Body m = BodyText req /\ Send.E_HTMLBody m = BodyHtml req.

Lemma GetMailbox_address fl tenant address d m : GetMailbox Open_ keyring fl tenant address d = Ok (Some m) -> M_Address m = address.
Proof.
  unfold GetMailbox, scanMailbox. destruct (dbErr _) as [[r|]|]; [|done..]. destruct (unseal _ _ _); [|done]. by intros [= <-].
Qed.

Lemma append_effects env set login password req at_ effs err : append RenderMessage env set login password (SentCopyEmail req) at_ = (effs, err) ->
  effs = [] /\ is_Some err \/ exists raw, RenderMessage (SentCopyEmail req) = Ok raw /\ effs = [Appended set login password raw at_] /\ err = transient (f_append env).
Proof. unfold append. destruct (RenderMessage _) as [raw|e]; intros [= <- <-]; [right; by exists raw|left; by eauto]. Qed.

Lemma mailToSender_effects env job req sender effs err : mailToSender env (J_TenantID job) (ProviderId req) (SentCopyEmail req) sender = (effs, err) ->
  effs = [] /\ is_Some err \/ exists eff, effs = [eff] /\ toSender env job req sender eff /\ err = transient (f_send env).
Proof.
  unfold mailToSender. destruct (f_provider _ _ _) as [[p|]|] eqn:Ep; [|intros [= <- <-]; left; by eauto..].
  destruct (f_createSender env p); intros [= <- <-]; [left; by eauto|right]. eexists. split; [done|]. split; [|done].
  exists p, (addressed p (SentCopyEmail req) sender). split_and!; [done..| | | |];
    unfold addressed, SentCopyEmail; destruct (applyReplyHeaders req ∅); cbn; destruct (decide (SendRate.Type_ p = SendRate.SMTP));
    rewrite ?bool_decide_true by done; rewrite ?bool_decide_false by done; by repeat split.
Qed.

Lemma file_spec env job effs err : fileCopy env job = (effs, err) ->
  effs = [] /\ (err = None -> exists set, settingsNow env job = Ok set /\ forall s, set = Some s -> Mode s = ModeNone \/ Mode s = "") \/
  exists req from eff, Unmarshal (J_Request job) = Ok req /\ ParseEmailAddress (From_ req) = Ok from /\ effs = [eff] /\
    (toMailbox env job req (NormaliseAddress from) eff \/ toSender env job req (NormaliseAddress from) eff).
Proof.
  unfold file. destruct (settingsNow env job) as [[set|]|e] eqn:Es; [|intros [= <- <-]; left; split; [done|]; intros _; exists None; by split|intros [= <- <-]; left; by split].
  destruct (eqb (Mode set) ModeNone || eqb (Mode set) "") eqn:En.
  { intros [= <- <-]. left. split; [done|]. intros _. exists (Some set). split; [done|]. intros ? [= <-].
    apply orb_true_iff in En as [?%eqb_true|?%eqb_true]; [by left|by right]. }
  destruct (Unmarshal (J_Request job)) as [req|] eqn:Eu; [|intros [= <- <-]; left; by split].
  destruct (ParseEmailAddress (From_ req)) as [from|] eqn:Ep; [|intros [= <- <-]; left; by split].
  destruct (eqb (Mode set) ModeBccSender).
  { intros [[-> [? ->]]|(eff & -> & Hs & _)]%mailToSender_effects; [left; by split|]. right. exists req, from, eff. split_and!; try done. by right. }
  destruct (eqb (Mode set) ModeSharedLogin) eqn:Em.
  { apply eqb_true in Em. intros [[-> [? ->]]|(raw & Hraw & -> & _)]%append_effects; [left; by split|]. right. exists req, from. eexists. split_and!; try done. left.
    exists set, raw. do 2 eexists. split_and!; try done. by left. }
  destruct (eqb (Mode set) ModePerUserLogin) eqn:Eper; [|intros [= <- <-]; left; by split]. apply eqb_true in Eper.
  destruct (GetMailbox _ _ _ _ _ _) as [[m|]|] eqn:Eg; [|intros [= <- <-]; left; by split..].
  intros [[-> [? ->]]|(raw & Hraw & -> & _)]%append_effects; [left; by split|]. right. exists req, from. eexists. split_and!; try done. left.
  exists set, raw. do 2 eexists. split_and!; try done. right. split; [done|]. exists m. split_and!; try done. by eapply GetMailbox_address.
Qed.

(** No statement but an insert changes whose copy a row is, or of what. *)
Lemma step_same_copy o t id r r' : t !! id = Some r -> opStep stored o t !! id = Some r' ->
  j_tenant_id r' = j_tenant_id r /\ j_request r' = j_request r /\ j_created_at r' = j_created_at r.
Proof.
  intros Hr. destruct o as [j now|i prev tok now|i tok|i tok a n e]; unfold opStep, after, enqueue_job, claim_job, complete_job, reschedule_job.
  - destruct (t !! J_ID j) eqn:E; [|rewrite lookup_insert_ne by congruence]; by rewrite Hr; intros [= <-].
  - destruct (t !! i) as [x|] eqn:E; [destruct (eqb _ prev)|]; try (rewrite Hr; by intros [= <-]).
    destruct (decide (i = id)) as [->|]; [rewrite lookup_insert_eq; intros [= <-]; by simplify_eq|rewrite lookup_insert_ne, Hr by done; by intros [= <-]].
  - destruct (t !! i) as [x|] eqn:E; [destruct (eqb _ tok)|]; try (rewrite Hr; by intros [= <-]).
    destruct (decide (i = id)) as [->|]; [by rewrite lookup_delete_eq|rewrite lookup_delete_ne, Hr by done; by intros [= <-]].
  - destruct (t !! i) as [x|] eqn:E; [destruct (eqb _ tok)|]; try (rewrite Hr; by intros [= <-]).
    destruct (decide (i = id)) as [->|]; [rewrite lookup_insert_eq; intros [= <-]; by simplify_eq|rewrite lookup_insert_ne, Hr by done; by intros [= <-]].
Qed.

(** Statements by which no other copy is queued under an id. *)
Definition notQueuedAgain (id : string) (o : jobOp) : Prop := match o with OpEnqueue j _ => J_ID j <> id | _ => True end.

Lemma step_absent o t id : notQueuedAgain id o -> t !! id = None -> opStep stored o t !! id = None.
Proof.
  intros Hn Ht. destruct o as [j now|i prev tok now|i tok|i tok a n e]; unfold opStep, after, enqueue_job, claim_job, complete_job, reschedule_job; cbn in Hn.
  - destruct (t !! J_ID j); [done|]. by rewrite lookup_insert_ne.
  - destruct (t !! i) as [x|] eqn:E; [|done]. destruct (eqb _ prev); [|done]. rewrite lookup_insert_ne; [done|congruence].
  - destruct (t !! i) as [x|] eqn:E; [|done]. destruct (eqb _ tok); [|done]. rewrite lookup_delete_ne; [done|congruence].
  - destruct (t !! i) as [x|] eqn:E; [|done]. destruct (eqb _ tok); [|done]. rewrite lookup_insert_ne; [done|congruence].
Qed.

Lemma steps_same_copy id os : Forall (notQueuedAgain id) os -> forall t r r', t !! id = Some r -> opSteps stored os t !! id = Some r' ->
  j_tenant_id r' = j_tenant_id r /\ j_request r' = j_request r /\ j_created_at r' = j_created_at r.
Proof.
  induction 1 as [|o os Ho Hos IH]; intros t r r' Hr; cbn [opSteps foldl]; [rewrite Hr; by intros [= <-]|].
  change (foldl _ _ os) with (opSteps stored os (opStep stored o t)). destruct (opStep stored o t !! id) as [r1|] eqn:E1.
  - intros H. destruct (step_same_copy o t id r r1 Hr E1) as (<- & <- & <-). by eapply IH.
  - assert (Hn : opSteps stored os (opStep stored o t) !! id = None).
    { clear -E1 Hos. revert E1. generalize (opStep stored o t). induction Hos as [|q os Hq _ IH]; intros x Hx; [done|]. apply IH. by apply step_absent. }
    by rewrite Hn.
Qed.

(** C18: a copy goes to the sender of the message and to nobody else.  Once a copy of
    a request is queued for a tenant, then whatever claims and settlements follow,
    filing it touches the outside once at most: it is put in the sender's mailbox of
    the tenant's own server, with the login the tenant's present mode gives, or
    mailed to the sender alone through the message's provider, and it carries that
    request; and when nothing is done and no failure reported, the tenant makes no
    copies any more. *)
Theorem copy_goes_to_its_sender fr fw uuid now tenant message req s t t' os r env effs err :
  (forall q raw, Marshal q = Ok raw -> Unmarshal (stored raw) = Ok q) ->
  Enqueue Marshal stored Open_ keyring fr fw uuid now tenant message req s t = (t', None, true) ->
  Forall (notQueuedAgain uuid) os -> opSteps stored os t' !! uuid = Some r -> fileCopy env (scanJob uuid r) = (effs, err) ->
  J_TenantID (scanJob uuid r) = tenant /\
  (effs = [] /\ (err = None -> exists set, settingsNow env (scanJob uuid r) = Ok set /\ forall s, set = Some s -> Mode s = ModeNone \/ Mode s = "") \/
   exists from eff, ParseEmailAddress (From_ req) = Ok from /\ effs = [eff] /\
     (toMailbox env (scanJob uuid r) req (NormaliseAddress from) eff \/ toSender env (scanJob uuid r) req (NormaliseAddress from) eff)).
Proof.
  intros Hcodec Hq Hos Hr Hf. unfold Enqueue in Hq. destruct (GetSettings _ _ _ _ _) as [set|]; [|done].
  destruct (match set with None => true | Some set => _ end); [done|]. destruct (Marshal req) as [raw|] eqn:Em; [|done].
  destruct (exec fw _ t) as [t1 [u|]] eqn:Ee; [|done]. injection Hq as ->.
  set (row := mkJobRow tenant message (stored raw) 0 (Unix now) "" 0 "" (Unix now)).
  assert (Ht' : t' !! uuid = Some row).
  { unfold exec, enqueue_job in Ee. cbn [J_ID] in Ee. destruct fw, (t !! uuid); try done; injection Ee as <-; apply lookup_insert_eq. }
  destruct (steps_same_copy uuid os Hos t' row r Ht' Hr) as (Hten & Hreq & _). split; [done|].
  destruct (file_spec _ _ _ _ Hf) as [?|(q & from & eff & Hu & H)]; [by left|right].
  cbn [scanJob J_Request] in Hu. change (j_request row) with (stored raw) in Hreq. rewrite Hreq, (Hcodec req raw Em) in Hu. injection Hu as <-. by exists from, eff.
Qed.

(** *** Retries *)

(** A job still held when it is settled: it is gone, or waits for its next attempt
    with the attempt counted, whatever others did while it was filed. *)
Lemma process_settles env job t r : p_settle env = Up -> opSteps stored (p_others env) t !! J_ID job = Some r -> j_claim_token r = J_ClaimToken job ->
  (settle env job t).1 !! J_ID job = None \/
  J_Attempts job + 1 < maxAttempts /\ exists r', (settle env job t).1 !! J_ID job = Some r' /\ j_attempts r' = J_Attempts job + 1.
Proof.
  intros Hs Hr Ht. unfold process. destruct (file _ _ _ _ _ _ _) as [effs err]. rewrite Hs. cbn [exec].
  unfold complete_job, reschedule_job. rewrite Hr, Ht, eqb_refl.
  destruct err as [[w|w]|]; [left; apply lookup_delete_eq| |left; apply lookup_delete_eq].
  destruct (maxAttempts <=? _) eqn:E; [left; apply lookup_delete_eq|]. apply Z.leb_gt in E. right. split; [done|].
  eexists. split; [apply lookup_insert_eq|done].
Qed.

(** One attempt at a copy: after others' statements, among them those of attempts that
    lose their claim, it is claimed, read and processed. *)
Record Attempt := mkAttempt { a_before : list jobOp; a_token : string; a_now : Z; a_env : ProcessEnv }.

Definition claimedBy (id : string) (t : Jobs) (a : Attempt) : Jobs :=
  let t := opSteps stored (a_before a) t in
  match t !! id with
  | None => t
  | Some r => after (claim_job (a_token a) (Unix (a_now a)) id (j_claim_token r)) t
  end.

Definition attempt (id : string) (t : Jobs) (a : Attempt) : Jobs :=
  let t := claimedBy id t a in
  match t !! id with Some r => (settle (a_env a) (scanJob id r) t).1 | None => t end.

(** What others do to the copy meanwhile: they do not queue another under its id, and
    whoever holds it puts it back with a count no lower than it has. *)
Fixpoint countKept (id : string) (os : list jobOp) (t : Jobs) : Prop :=
  match os with
  | [] => True
  | o :: os =>
      notQueuedAgain id o /\
      (forall tok n next why r, o = OpReschedule id tok n next why -> t !! id = Some r -> j_claim_token r = tok -> j_attempts r <= n) /\
      countKept id os (opStep stored o t)
  end.

(** An attempt that settles what it claimed: its statement goes through, and the claim
    is still its own when it does. *)
Definition settlesItsClaim (id : string) (t : Jobs) (a : Attempt) : Prop :=
  p_settle (a_env a) = Up /\ countKept id (a_before a) t /\
  forall r, claimedBy id t a !! id = Some r ->
    exists r', opSteps stored (p_others (a_env a)) (claimedBy id t a) !! id = Some r' /\ j_claim_token r' = a_token a.

Fixpoint allSettle (id : string) (t : Jobs) (es : list Attempt) : Prop :=
  match es with
  | [] => True
  | a :: es => settlesItsClaim id t a /\ allSettle id (attempt id t a) es
  end.

Lemma step_count o t id r r' :
  (forall tok n next why r, o = OpReschedule id tok n next why -> t !! id = Some r -> j_claim_token r = tok -> j_attempts r <= n) ->
  t !! id = Some r -> opStep stored o t !! id = Some r' -> j_attempts r <= j_attempts r'.
Proof.
  intros Hres Hr. destruct o as [j now|i prev tok now|i tok|i tok a n e]; unfold opStep, after, enqueue_job, claim_job, complete_job, reschedule_job.
  - destruct (t !! J_ID j) eqn:E; [|rewrite lookup_insert_ne by congruence]; rewrite Hr; by intros [= <-].
  - destruct (t !! i) as [x|] eqn:E; [destruct (eqb _ prev)|]; try (rewrite Hr; by intros [= <-]).
    destruct (decide (i = id)) as [->|]; [rewrite lookup_insert_eq; intros [= <-]; by simplify_eq|rewrite lookup_insert_ne, Hr by done; by intros [= <-]].
  - destruct (t !! i) as [x|] eqn:E; [destruct (eqb _ tok)|]; try (rewrite Hr; by intros [= <-]).
    destruct (decide (i = id)) as [->|]; [by rewrite lookup_delete_eq|rewrite lookup_delete_ne, Hr by done; by intros [= <-]].
  - destruct (t !! i) as [x|] eqn:E; [destruct (eqb _ tok) eqn:Et|]; try (rewrite Hr; by intros [= <-]).
    destruct (decide (i = id)) as [->|]; [|rewrite lookup_insert_ne, Hr by done; by intros [= <-]].
    rewrite lookup_insert_eq. intros [= <-]. simplify_eq. by apply (Hres tok a n e r), eqb_true.
Qed.

Lemma steps_count id os : forall t, countKept id os t ->
  match t !! id, opSteps stored os t !! id with
  | Some r, Some r' => j_attempts r <= j_attempts r'
  | None, Some _ => False
  | _, None => True
  end.
Proof.
  induction os as [|o os IH]; intros t Hk; [cbn; destruct (t !! id); [lia|done]|]. destruct Hk as (Hn & Hres & Hk).
  cbn [opSteps foldl]. change (foldl _ _ os) with (opSteps stored os (opStep stored o t)). specialize (IH _ Hk).
  pose proof (fun r r' => step_count o t id r r' Hres) as Hstep. clear Hres.
  destruct (t !! id) as [r|] eqn:Hr; [|by rewrite (step_absent o t id Hn Hr) in IH].
  destruct (opStep stored o t !! id) as [r1|] eqn:E1; [|by destruct (opSteps stored os _ !! id)].
  specialize (Hstep r r1 eq_refl eq_refl). destruct (opSteps stored os _ !! id); [lia|done].
Qed.

(** A settled attempt leaves no row, or one with a higher count, below the bound. *)
Lemma attempt_counts id t a : settlesItsClaim id t a ->
  match t !! id, attempt id t a !! id with
  | Some r, Some r' => j_attempts r + 1 <= j_attempts r' < maxAttempts
  | None, Some _ => False
  | _, None => True
  end.
Proof.
  intros (Hs & Hk & Hheld). pose proof (steps_count id _ _ Hk) as Hc. unfold attempt. unfold claimedBy in *.
  destruct (opSteps stored (a_before a) t !! id) as [r|] eqn:E; [|cbv zeta; rewrite !E; by destruct (t !! id)].
  destruct (t !! id) as [r0|]; [|done]. revert Hheld. unfold after, claim_job. rewrite E, eqb_refl, lookup_insert_eq.
  set (r1 := mkJobRow _ _ _ _ _ _ _ _ _). intros Hheld. destruct (Hheld r1 eq_refl) as (r' & Hr' & Ht').
  destruct (process_settles (a_env a) (scanJob id r1) _ r' Hs Hr' Ht') as [Hnone|(Hlt & r2 & Hr2 & Ha)]; cbn [scanJob J_ID J_Attempts] in *.
  - by rewrite Hnone.
  - rewrite Hr2, Ha. change (j_attempts r1) with (j_attempts r) in *. lia.
Qed.

(** C39: a copy is not tried for ever.  Ten attempts that settle their own claim are the
    last, whatever the mail server, the provider and the settings do, and whatever
    other workers' statements come before each attempt and while it files: the copy is
    filed or given up, and its row gone.  An attempt settles its claim when its last
    statement goes through and nobody took the claim over meanwhile; one that does not
    is not counted. *)
Theorem copy_retries_end id t r es : t !! id = Some r -> allSettle id t es ->
  maxAttempts - j_attempts r <= Z.of_nat (length es) -> (0 < length es)%nat ->
  foldl (attempt id) t es !! id = None.
Proof.
  assert (Hgone : forall es t, allSettle id t es -> t !! id = None -> foldl (attempt id) t es !! id = None).
  { induction es0 as [|a es0 IH]; intros x Hes Hx; [done|]. destruct Hes as [Ha Hes]. cbn [foldl]. apply IH; [done|].
    pose proof (attempt_counts id x a Ha) as Hc. rewrite Hx in Hc. by destruct (attempt id x a !! id). }
  revert t r. induction es as [|a es IH]; intros t r Hr Hes Hn Hlen; cbn [length] in *; [lia|]. destruct Hes as [Ha Hes]. cbn [foldl].
  pose proof (attempt_counts id t a Ha) as Hc. rewrite Hr in Hc.
  destruct (attempt id t a !! id) as [r'|] eqn:E; [|by apply Hgone]. apply (IH _ r' E); [done|lia|].
  destruct es; cbn in *; lia.
Qed.

End Filing.

(** The waits between a copy's attempts, in minutes. *)
Definition waits : list Z := (fun n => retryDelay (Z.of_nat n)) <$> seq 1 9.

(** Between its first attempt and its tenth and last a copy waits eight hours and
    thirty-one minutes in all, where the comment beside the bound says about a day;
    the longest wait is four hours and sixteen minutes, and the cap of six hours is
    never reached. *)
Theorem copy_is_given_up_the_same_day : foldr Z.add 0 waits = 511 * Minute /\ Forall (fun d => d <= 256 * Minute /\ d < maxRetry) waits.
Proof. split; [vm_compute; reflexivity|]. repeat constructor; vm_compute; done. Qed.

(** ** A gateway with two workers *)

Definition sampleRequest : SendEmailRequest :=
  mkRequest "Alice <Alice@example.com>" ["bob@example.net"] [] ["carol@example.net"] "prov" "hello" "" "" "" "hi" "" false [] "" "" "" [] "" true.
Definition otherRequest : SendEmailRequest :=
  mkRequest "Alice <Alice@example.com>" ["dave@example.net"] [] [] "prov" "again" "" "" "" "hi" "" false [] "" "" "" [] "" true.

#[local] Instance Attachment_eq_dec : EqDecision Attachment.
Proof. solve_decision. Defined.
#[local] Instance SendEmailRequest_eq_dec : EqDecision SendEmailRequest.
Proof. solve_decision. Defined.

(** A codec of these two requests, and an address parser that takes what is between
    angle brackets. *)
Definition sampleMarshal (q : SendEmailRequest) : result string string :=
  if decide (q = sampleRequest) then Ok "hello" else if decide (q = otherRequest) then Ok "again" else Err "not a sample".
Definition sampleUnmarshal (s : string) : result string SendEmailRequest :=
  if eqb s "hello" then Ok sampleRequest else if eqb s "again" then Ok otherRequest else Err "unknown".
Definition sampleAddress (s : string) : result string string :=
  match Cut s "<"%char with
  | Some (_, r) => match Cut r ">"%char with Some (a, _) => Ok a | None => Err "no address" end
  | None => Ok s
  end.
Definition sampleRender (m : Send.Email) : result string string := Ok ("Subject: " ++ Send.E_Subject m).

Definition T0 : Z := unixEpoch + 1700000000 * Second.
(** Eight copies, queued a second apart. *)
Definition sampleRow (i : nat) : string * JobRow :=
  let at_ := 1700000000 + Z.of_nat i in
  ("j" ++ FormatInt (Z.of_nat i), mkJobRow "t1" "m" (if (i =? 0)%nat then "hello" else "again") 0 at_ "" 0 "" at_).
Definition sampleQueue : Jobs := list_to_map (sampleRow <$> seq 0 8).

Definition sampleClaim (prefix : string) (now : Z) : ClaimEnv :=
  mkClaimEnv now Up (fun i => Ok (prefix ++ FormatInt (Z.of_nat i))) (fun _ => []) (fun _ => Up) (fun _ => []) (fun _ => Up).
Definition sampleFile : FileEnv :=
  mkFileEnv sampleTables Up Up None (fun _ _ => Ok None) (fun _ => None) None.
Definition sampleProcess (now : Z) : ProcessEnv := mkProcessEnv sampleFile [] now Up.

Abbreviation sampleClaimJobs := (ClaimJobs id map_to_list).
Abbreviation sampleSettle := (process sampleAddress sampleRender sampleUnmarshal id Secrets.demo_open (Some sampleRing)).

(** Two workers, both well.  The first claims eight copies at once and files them one
    by one, each in forty-five seconds; five minutes and two seconds after its claim
    it is at the seventh, and the second worker finds the eighth free to take over. *)
Definition firstClaim := sampleClaimJobs (sampleClaim "a" (T0 + Minute)) claimLease workerBatchSize sampleQueue.
Definition firstFiled := processAll sampleAddress sampleRender sampleUnmarshal id Secrets.demo_open (Some sampleRing) (fun _ => true)
  (fun i => sampleProcess (T0 + Minute + Z.of_nat (S i) * 45 * Second)) 0 (take 6 firstClaim.1.2) firstClaim.1.1.
Definition secondClaim := sampleClaimJobs (sampleClaim "b" (T0 + Minute + claimLease + 2 * Second)) claimLease workerBatchSize firstFiled.1.

(** The lease of five minutes is longer than one append can take, as its comment
    says, but a worker claims up to twenty copies at once and files them one by one:
    here the last copy of a batch still waits when its lease ends, another worker
    takes it over, and both file it, so that the sender's Sent folder has it twice. *)
Theorem batch_outlives_its_lease :
  exists a b, a ∈ firstClaim.1.2 /\ b ∈ secondClaim.1.2 /\ J_ID a = "j7" /\ J_ID b = "j7" /\
    let now := T0 + 8 * Minute in
    (sampleSettle (sampleProcess now) a secondClaim.1.1).2 = (sampleSettle (sampleProcess now) b secondClaim.1.1).2 /\
    length (sampleSettle (sampleProcess now) a secondClaim.1.1).2 = 1%nat.
Proof.
  exists (mkJob "j7" "t1" "m" "again" 0 "a7" "" (unixEpoch + 1700000007 * Second)), (mkJob "j7" "t1" "m" "again" 0 "b1" "" (unixEpoch + 1700000007 * Second)).
  split; [apply list_elem_of_lookup_2 with 7%nat; vm_compute; reflexivity|]. split; [apply list_elem_of_lookup_2 with 1%nat; vm_compute; reflexivity|].
  repeat split; vm_compute; reflexivity.
Qed.

Lemma sample_codec q raw : sampleMarshal q = Ok raw -> sampleUnmarshal (id raw) = Ok q.
Proof. unfold sampleMarshal. destruct (decide _) as [->|]; [by intros [= <-]|]. destruct (decide _) as [->|]; [by intros [= <-]|done]. Qed.

(** The copy is queued, claimed once and put back, and then filed. *)
Definition queuedOnce := Enqueue sampleMarshal id Secrets.demo_open (Some sampleRing) Up Up "j1" T0 "t1" "m1" sampleRequest sampleTables ∅.
Definition putBack : list jobOp := [OpClaim "j1" "" "a" T0; OpReschedule "j1" "a" 1 0 "busy"].

Lemma copy_goes_to_its_sender_witness :
  exists r eff, opSteps id putBack queuedOnce.1.1 !! "j1" = Some r /\
    (file sampleAddress sampleRender sampleUnmarshal Secrets.demo_open (Some sampleRing) sampleFile (scanJob "j1" r)).1 = [eff] /\
    (toMailbox sampleRender Secrets.demo_open (Some sampleRing) sampleFile (scanJob "j1" r) sampleRequest "alice@example.com" eff \/
     toSender sampleFile (scanJob "j1" r) sampleRequest "alice@example.com" eff).
Proof.
  set (r := mkJobRow "t1" "m1" "hello" 1 0 "" 0 "busy" 1700000000).
  assert (Er : opSteps id putBack queuedOnce.1.1 !! "j1" = Some r) by (vm_compute; reflexivity).
  destruct (file sampleAddress sampleRender sampleUnmarshal Secrets.demo_open (Some sampleRing) sampleFile (scanJob "j1" r)) as [effs err] eqn:Ef.
  assert (Hq : queuedOnce = (queuedOnce.1.1, None, true)) by (vm_compute; reflexivity).
  assert (Hlen : length effs = 1%nat).
  { apply (f_equal (fun x => length x.1)) in Ef. cbn [fst] in Ef. rewrite <- Ef. vm_compute. reflexivity. }
  destruct (copy_goes_to_its_sender sampleAddress sampleRender sampleMarshal sampleUnmarshal id Secrets.demo_open (Some sampleRing) Up Up "j1" T0 "t1" "m1"
    sampleRequest sampleTables ∅ queuedOnce.1.1 putBack r sampleFile effs err sample_codec Hq ltac:(repeat constructor) Er Ef) as [_ [[-> _]|(from & eff & Hp & -> & H)]];
    [discriminate Hlen|]. exists r, eff. split; [exact Er|]. split; [rewrite Ef; reflexivity|].
  assert (Hfrom : sampleAddress (From_ sampleRequest) = Ok "Alice@example.com") by (vm_compute; reflexivity). rewrite Hfrom in Hp. injection Hp as <-. exact H.
Defined.

(** Copy j3 is claimed by a worker; then another that read the table before tries to
    claim it too, a third settles a copy of its own, and a fourth looks a minute
    before the claim runs out. *)
Definition laterOps : list jobOp := [OpClaim "j3" "" "z" (T0 + Minute); OpComplete "j2" "y"].

Lemma copy_is_in_one_hand_witness :
  let t := opSteps id laterOps (opStep id (OpClaim "j3" "" "x" (T0 + Minute)) sampleQueue) in
  (exists r, t !! "j3" = Some r /\ j_claim_token r = "x") /\
  Forall (fun j => J_ID j <> "j3") (sampleClaimJobs (sampleClaim "b" (T0 + claimLease)) claimLease workerBatchSize t).1.2.
Proof.
  cbv zeta. set (t := opSteps id laterOps _). set (r := (sampleRow 3).2).
  assert (Hdue : ("j3", "") ∈ due_jobs map_to_list (Unix (T0 + Minute)) (Unix (T0 + Minute - claimLease)) workerBatchSize sampleQueue)
    by (apply list_elem_of_lookup_2 with 3%nat; vm_compute; reflexivity).
  destruct (copy_is_in_one_hand id map_to_list (fun _ => reflexivity _) "j3" "" "x" (T0 + Minute) r sampleQueue [] laterOps t) as [(r' & Hr' & Ht & _) Hno].
  - done.
  - vm_compute. reflexivity.
  - reflexivity.
  - constructor; [|constructor]. apply map_Forall_to_list. repeat constructor; vm_compute; discriminate.
  - apply run_cons; [exists sampleQueue; split; [by left|exact Hdue]|]. apply run_cons; [exists sampleQueue; split; [by right; left|exact Hdue]|].
    apply run_cons; [done|]. apply run_nil.
  - repeat constructor; try discriminate; unfold claimLease; lia.
  - split; [by exists r'|]. destruct (sampleClaimJobs (sampleClaim "b" (T0 + claimLease)) claimLease workerBatchSize t) as [[t2 js] err] eqn:E.
    apply (Hno _ t2 js err) in E; [done|]. cbn [sampleClaim k_now]. unfold claimLease, Minute, Second. lia.
Defined.

(** A server that never takes the copy. *)
Definition deadServer : ProcessEnv := mkProcessEnv (mkFileEnv sampleTables Up Up (Some "unreachable") (fun _ _ => Ok None) (fun _ => None) None) [] T0 Up.

(** The same attempt again and again; before each, a worker whose claim is gone puts
    the copy back, and while it files another takes a copy of its own. *)
Definition deadAttempt : Attempt :=
  mkAttempt [OpReschedule "j0" "lost" 0 0 "late"] "tok" T0
    (mkProcessEnv (p_file deadServer) [OpClaim "j3" "" "x" T0] T0 Up).

Lemma copy_retries_end_witness :
  let attempts n := foldl (attempt sampleAddress sampleRender sampleUnmarshal id Secrets.demo_open (Some sampleRing) "j0") sampleQueue (replicate n deadAttempt) in
  attempts 10%nat !! "j0" = None /\ is_Some (attempts 9%nat !! "j0").
Proof.
  cbv zeta. split; [|vm_compute; by eexists]. set (r := (sampleRow 0).2).
  apply (copy_retries_end sampleAddress sampleRender sampleUnmarshal id Secrets.demo_open (Some sampleRing) "j0" sampleQueue r); [vm_compute; reflexivity| |vm_compute; discriminate|cbn; lia].
  cbn [replicate allSettle]. unfold settlesItsClaim.
  repeat match goal with
  | |- _ /\ _ => split
  | |- p_settle _ = Up => reflexivity
  | |- countKept _ _ _ _ => split; [exact I|split; [|exact I]]
  | |- True => exact I
  | |- forall r, claimedBy _ _ _ _ !! _ = Some r -> _ => intros r' _; eexists; split; vm_compute; reflexivity
  | |- forall tok n next why r, _ => intros tok n next why r' [= <- <- <- <-] Hr' Ht'; exfalso; vm_compute in Hr'; injection Hr' as <-; discriminate Ht'
  end.
Defined.

(** On a server without TLS, which does not offer STARTTLS, nothing is said. *)
Lemma password_needs_tls_witness :
  SupportStartTLS = Dial "imap.example.com:143" \/ SupportStartTLS = SupportStartTLS \/ SupportStartTLS = StartTLS "imap.example.com" \/ SupportStartTLS = Logout.
Proof.
  apply (password_needs_tls (mkServer None (Ok false) None None None) (mkSettings "t1" ModeSharedLogin "imap.example.com" 0 false "" "admin" "secret" "" 0)
    "alice@example.com*admin" "secret" "message" T0 SupportStartTLS).
  apply list_elem_of_lookup_2 with 1%nat. vm_compute. reflexivity.
Defined.

End SentCopies.
