(* ===== verification/SmtpMime.v ===== *)
(** * Submitted messages

    Models internal/email/transports/smtp/mime: how a message submitted over SMTP
    becomes a send request (parser.go, headers.go, threading.go, charset.go).

    Go's readers of messages, multiparts, media types, encoded words, address lists
    and quoted-printable are parameters, and so is the index of character sets;
    base64 is the one of [Encoding].  A reader is what can be read from it and how it
    ends ([Stream]). *)
From S2P Require Import Prelude GoStrings Encoding Admission.
From Stdlib Require Import Ascii.

Module SmtpMime.
Import GoStrings Encoding Admission.
Local Open Scope string_scope.
Local Open Scope Z_scope.

(** ** Headers *)

Definition headerFrom : string := "From".
Definition headerTo : string := "To".
Definition headerCc : string := "Cc".
Definition headerSubject : string := "Subject".
Definition headerMessageID : string := "Message-Id".
Definition headerContentType : string := "Content-Type".
Definition headerContentEncoding : string := "Content-Transfer-Encoding".
Definition headerDisposition : string := "Content-Disposition".
Definition headerReplyTo : string := "Reply-To".
Definition headerContentID : string := "Content-Id".
Definition ProviderHeader : string := "X-Panmail-Provider-Id".
Definition contentTypeTextPlain : string := "text/plain".
Definition contentTypeTextHTML : string := "text/html".
Definition contentTypeOctet : string := "application/octet-stream".
Definition dispositionAttachment : string := "attachment".
Definition maxNestingDepth : nat := 10.

(** A header is a map of canonical names. *)
Abbreviation Header := (gmap string (list string)).

(** [textproto.CanonicalMIMEHeaderKey]: a name with a byte that no field name has is
    left as it is. *)
Definition is_tchar (c : ascii) : bool := is_letter c || is_digit c || in_cutset "!#$%&'*+-.^_`|~" c.

Fixpoint canonical (up : bool) (s : string) : string :=
  match s with
  | "" => ""
  | String c r => String (if up then upper c else lower c) (canonical (bool_decide (c = "-"%char)) r)
  end.

Definition CanonicalMIMEHeaderKey (s : string) : string := if str_all is_tchar s then canonical true s else s.

Definition headerValue (h : Header) (key : string) : string :=
  match h !! CanonicalMIMEHeaderKey key with
  | Some (v :: _) => v
  | _ => match h !! key with Some (v :: _) => v | _ => "" end
  end.

(** [mail.Header.Get]. *)
Definition Get (h : Header) (key : string) : string := match h !! CanonicalMIMEHeaderKey key with Some (v :: _) => v | _ => "" end.

(** ** Address lists *)

(** The state of [splitAddressList]'s scan. *)
Record scan := mkScan {
  inQuote : bool;
  inAngle : bool;
  inGroup : bool;
  comments : nat
}.

Definition outside : scan := mkScan false false false 0.

Definition DQUOTE : ascii := chr 34.
Definition BACKSLASH : ascii := chr 92.

(** One byte: the state after it, whether it separates two entries, and whether the
    byte after it is skipped. *)
Definition scanByte (s : scan) (c : ascii) : scan * bool * bool :=
  if bool_decide (c = BACKSLASH) && (inQuote s || (0 <? comments s)%nat) then (s, false, true)
  else if inQuote s then (if bool_decide (c = DQUOTE) then mkScan false (inAngle s) (inGroup s) (comments s) else s, false, false)
  else if bool_decide (c = DQUOTE) then (mkScan true (inAngle s) (inGroup s) (comments s), false, false)
  else if bool_decide (c = "("%char) then (mkScan (inQuote s) (inAngle s) (inGroup s) (S (comments s)), false, false)
  else if bool_decide (c = ")"%char) && (0 <? comments s)%nat then (mkScan (inQuote s) (inAngle s) (inGroup s) (comments s - 1), false, false)
  else if (0 <? comments s)%nat then (s, false, false)
  else if bool_decide (c = "<"%char) then (mkScan (inQuote s) true (inGroup s) (comments s), false, false)
  else if bool_decide (c = ">"%char) then (mkScan (inQuote s) false (inGroup s) (comments s), false, false)
  else if inAngle s then (s, false, false)
  else if bool_decide (c = ":"%char) then (mkScan (inQuote s) (inAngle s) true (comments s), false, false)
  else if bool_decide (c = ";"%char) then (mkScan (inQuote s) (inAngle s) false (comments s), false, false)
  else (s, bool_decide (c = ","%char) && negb (inGroup s), false).

Definition cons_head (c : ascii) (l : list string) : list string :=
  match l with [] => [String c ""] | e :: es => String c e :: es end.

(** The entries, untrimmed: the one being read and those after it. *)
Fixpoint rawEntries (skip : bool) (s : scan) (value : string) : list string :=
  match value with
  | "" => [""]
  | String c r =>
      if skip then cons_head c (rawEntries false s r)
      else
        let '(s', sep, esc) := scanByte s c in
        if sep then "" :: rawEntries esc s' r else cons_head c (rawEntries esc s' r)
  end.

Definition splitAddressList (value : string) : list string :=
  filter (fun e => e <> "") (TrimSpace <$> rawEntries false outside value).

(** ** Names and identifiers *)

(** [strings.ReplaceAll(name, "\\", "/")]. *)
Fixpoint slashes (s : string) : string :=
  match s with "" => "" | String c r => String (if bool_decide (c = BACKSLASH) then "/"%char else c) (slashes r) end.

Definition baseName (s : string) : string := match cut_last s "/"%char with Some (_, b) => b | None => s end.

Definition sanitiseName (name : string) : string :=
  let name := TrimSpace (Trim (baseName (slashes (TrimSpace name))) ".") in
  if eqb name "" then "attachment" else name.

Definition maxMessageIDLength : Z := 255.
Definition maxReferences : nat := 100.

Definition printableToken (s : string) : bool :=
  str_all (fun c => negb ((code c <=? code " "%char) || (code "~"%char <? code c) || bool_decide (c = "<"%char) || bool_decide (c = ">"%char))) s.

Definition wellFormedMessageID (id : string) : bool :=
  if (strlen id <? 5) || (maxMessageIDLength <? strlen id) || negb (HasPrefix id "<") || negb (bool_decide (last_char id = Some ">"%char)) then false
  else if negb (printableToken (inner id)) then false
  else match Cut (inner id) "@"%char with Some (a, b) => negb (eqb a "") && negb (eqb b "") | None => false end.

(** The loop of [messageIDs]; a turn takes a byte at least. *)
Fixpoint scanIDs (fuel : nat) (value : string) : list string :=
  match fuel with
  | O => []
  | S fuel =>
      match Cut value "<"%char with
      | None => []
      | Some (_, rest) =>
          match Cut rest ">"%char with
          | None => []
          | Some (mid, rest) =>
              let id := "<" ++ mid ++ ">" in
              if wellFormedMessageID id then id :: scanIDs fuel rest else scanIDs fuel rest
          end
      end
  end.

Definition messageIDs (value : string) : list string := scanIDs (S (String.length value)) value.

Definition firstMessageID (value : string) : string := default "" (head (messageIDs value)).

Definition references (value : string) : list string :=
  let ids := messageIDs value in
  if (length ids <=? maxReferences)%nat then ids
  else match ids with [] => [] | first :: _ => first :: drop (length ids - maxReferences + 1) ids end.

(** [strings.TrimSuffix(s, ">")]. *)
Definition TrimSuffix1 (s : string) (c : ascii) : string :=
  if bool_decide (last_char s = Some c) then take_str (String.length s - 1) s else s.

Definition contentID (h : Header) : string :=
  let id := TrimSuffix1 (TrimPrefix (TrimSpace (headerValue h headerContentID)) "<") ">"%char in
  if eqb id "" || (maxMessageIDLength <? strlen id) || negb (printableToken id) then "" else id.

(** ** Reading parts *)

Record Stream := mkStream {
  bytes : string;
  fails : option string
}.

Inductive readError :=
| Broken (e : string)
| TooLarge (limit : Z).

Definition readBounded (r : Stream) (limit : Z) : result readError string :=
  if (0 <? limit) && (limit <? strlen (bytes r)) then Err (TooLarge limit)
  else match fails r with Some e => Err (Broken e) | None => Ok (bytes r) end.

Inductive parseError :=
| NotAMessage (e : string)
| BadFromAddress (e : string)
| ErrNoFrom
| NestsTooDeep
| NoBoundary
| BadMultipart (e : string)
| BadBody (e : readError)
| TooManyParts (limit : Z)
| BadAttachment (e : readError).

Definition appendPart (existing addition : string) : string :=
  if eqb existing "" then addition else if eqb addition "" then existing else existing ++ String (chr 10) addition.

Record bodyParts := mkParts {
  text : string;
  html : string;
  attachments : list Attachment
}.

Record Message := mkMessage {
  ProviderID : string;
  MessageID : string;
  Request : SendEmailRequest
}.

Section Parser.
(** [mail.ReadMessage]; [mime.ParseMediaType]; the parts of a multipart up to its end
    or an error; [DecodeHeader]; [AddressParser.Parse] and [ParseList], addresses only. *)
Context (ReadMessage : string -> result string (Header * Stream)).
Context (ParseMediaType : string -> option (string * gmap string string)).
Context (Parts : string -> Stream -> list (Header * Stream) * option string).
Context (DecodeHeader : string -> option string).
Context (ParseOne : string -> result string string) (ParseList : string -> option (list string)).
Context (quotedPrintable : Stream -> Stream).
(** The character set a label names, if the index knows one that converts. *)
Context (charset : string -> option (Stream -> Stream)).
(** The parser's limits. *)
Context (maxAttachmentBytes : Z) (maxAttachments : Z).

Definition singleAddress (value : string) : result parseError string :=
  let value := TrimSpace value in
  if eqb value "" then Ok "" else match ParseOne value with Ok a => Ok a | Err e => Err (BadFromAddress e) end.

Definition addressList (value : string) : list string :=
  let value := TrimSpace value in
  if eqb value "" then []
  else
    filter (fun a => a <> "")
      match ParseList value with
      | Some l => l
      | None => concat (default [] ∘ ParseList <$> splitAddressList value)
      end.

Definition firstAddress (value : string) : string := default "" (head (addressList value)).

Definition passthroughCharsets : list string := [""; "utf-8"; "utf8"; "us-ascii"; "ascii"].

Definition decodeCharset (r : Stream) (label : string) : Stream :=
  let label := ToLower (TrimSpace label) in
  if bool_decide (label ∈ passthroughCharsets) then r
  else match charset label with None => r | Some f => f r end.

Definition newlineStripper (r : Stream) : Stream := mkStream (drop_breaks (bytes r)) (fails r).

(** [base64.NewDecoder]. *)
Definition base64Reader (r : Stream) : Stream :=
  match b64_decode StdAlphabet true (bytes r) with
  | Some d => mkStream d (fails r)
  | None => mkStream "" (Some "illegal base64 data")
  end.

Definition decodeTransferEncoding (r : Stream) (encoding : string) : Stream :=
  let e := ToLower (TrimSpace encoding) in
  if eqb e "base64" then base64Reader (newlineStripper r)
  else if eqb e "quoted-printable" then quotedPrintable r
  else r.

Definition isAttachment (h : Header) (mediaType : string) : bool :=
  let disposition := headerValue h headerDisposition in
  (negb (eqb disposition "") &&
   match ParseMediaType disposition with Some (kind, _) => EqualFold kind dispositionAttachment | None => false end) ||
  (negb (eqb mediaType contentTypeTextPlain) && negb (eqb mediaType contentTypeTextHTML)).

Definition decodeWord (value : string) : string := default value (DecodeHeader value).

Definition param (ps : gmap string string) (k : string) : string := default "" (ps !! k).

Definition attachmentName (h : Header) (ps : gmap string string) : string :=
  let disposition := headerValue h headerDisposition in
  let filename := if eqb disposition "" then ""
                  else match ParseMediaType disposition with Some (_, dps) => param dps "filename" | None => "" end in
  if negb (eqb filename "") then sanitiseName (decodeWord filename)
  else if negb (eqb (param ps "name") "") then sanitiseName (decodeWord (param ps "name"))
  else "attachment".

Definition attach (body : Stream) (h : Header) (mediaType : string) (ps : gmap string string) (out : bodyParts) : result parseError bodyParts :=
  if (0 <? maxAttachments) && (maxAttachments <=? Z.of_nat (length (attachments out))) then Err (TooManyParts maxAttachments)
  else
    match readBounded body maxAttachmentBytes with
    | Err e => Err (BadAttachment e)
    | Ok content =>
        let mediaType := if eqb mediaType "" then contentTypeOctet else mediaType in
        Ok (mkParts (text out) (html out) (attachments out ++ [mkAttachment (attachmentName h ps) mediaType (contentID h) content])%list)
    end.

Definition leaf (body : Stream) (h : Header) (mediaType : string) (ps : gmap string string) (out : bodyParts) : result parseError bodyParts :=
  let decoded := decodeTransferEncoding body (headerValue h headerContentEncoding) in
  if isAttachment h mediaType then attach decoded h mediaType ps out
  else
    match readBounded (decodeCharset decoded (param ps "charset")) maxAttachmentBytes with
    | Err e => Err (BadBody e)
    | Ok content =>
        if eqb mediaType contentTypeTextHTML then Ok (mkParts (text out) (appendPart (html out) content) (attachments out))
        else Ok (mkParts (appendPart (text out) content) (html out) (attachments out))
    end.

(** The loop over a multipart's parts, with what each part does. *)
Fixpoint eachPart (f : Stream -> Header -> bodyParts -> result parseError bodyParts) (parts : list (Header * Stream)) (ends : option string) (out : bodyParts) :
    result parseError bodyParts :=
  match parts with
  | [] => match ends with Some e => Err (BadMultipart e) | None => Ok out end
  | (h, b) :: rest => match f b h out with Err e => Err e | Ok out => eachPart f rest ends out end
  end.

(** The media type of a part and its parameters. *)
Definition mediaTypeOf (h : Header) : string * gmap string string :=
  let contentType := headerValue h headerContentType in
  match ParseMediaType (if eqb contentType "" then contentTypeTextPlain else contentType) with
  | Some r => r
  | None => (contentTypeTextPlain, ∅)
  end.

(** [walk] at depth [d], with [levels] = [maxNestingDepth] + 1 - [d] left. *)
Fixpoint walk (levels : nat) (body : Stream) (h : Header) (out : bodyParts) : result parseError bodyParts :=
  match levels with
  | O => Err NestsTooDeep
  | S levels =>
      let '(mediaType, ps) := mediaTypeOf h in
      if HasPrefix mediaType "multipart/" then
        if eqb (param ps "boundary") "" then Err NoBoundary
        else let '(parts, ends) := Parts (param ps "boundary") body in eachPart (walk levels) parts ends out
      else leaf body h mediaType ps out
  end.

Definition Parse (raw : string) (envelopeFrom : string) : result parseError Message :=
  match ReadMessage raw with
  | Err e => Err (NotAMessage e)
  | Ok (h, body) =>
      match singleAddress (Get h headerFrom) with
      | Err e => Err e
      | Ok from =>
          let from := if eqb from "" then TrimSpace envelopeFrom else from in
          if eqb from "" then Err ErrNoFrom
          else
            match walk (S maxNestingDepth) body h (mkParts "" "" []) with
            | Err e => Err e
            | Ok parts =>
                Ok (mkMessage (TrimSpace (Get h ProviderHeader)) (TrimSpace (Get h headerMessageID))
                  (mkRequest from (addressList (Get h headerTo)) (addressList (Get h headerCc)) [] ""
                     (default (Get h headerSubject) (DecodeHeader (Get h headerSubject))) "" "" (html parts) (text parts) "" false
                     (Some <$> attachments parts) "" (firstAddress (Get h headerReplyTo)) (firstMessageID (Get h headerInReplyTo))
                     (references (Get h headerReferences)) (firstAddress (Get h headerDispositionNotificationTo)) false))
            end
      end
  end.

End Parser.

(** ** What is kept of identifiers *)

Lemma printableToken_spec s : printableToken s = str_all token_char s.
Proof. done. Qed.

(** The parser and the send path agree on what a Message-ID is. *)
Lemma wellFormed_spec id : wellFormedMessageID id = true <-> messageIDProblem id = None.
Proof.
  unfold wellFormedMessageID, messageIDProblem. rewrite printableToken_spec. unfold has_inner_at, eqb.
  change maxMessageIDLength with MaxMessageIDLength. destruct (MaxMessageIDLength <? strlen id); [by rewrite orb_true_r|].
  rewrite orb_false_r. destruct (strlen id <? 5); [done|]. destruct (HasPrefix id "<"); [|done].
  destruct (bool_decide (last_char id = Some ">"%char)); [|done]. cbn [negb orb].
  destruct (str_all token_char (inner id)); [|done]. cbn [negb]. destruct (Cut (inner id) "@") as [[a b]|]; [|done].
  by destruct (negb _ && negb _).
Qed.

Lemma scanIDs_sound fuel : forall value, Forall (fun i => messageIDProblem i = None) (scanIDs fuel value).
Proof.
  induction fuel as [|fuel IH]; intros value; cbn [scanIDs]; [done|]. destruct (Cut value "<") as [[? rest]|]; [|done].
  destruct (Cut rest ">") as [[mid rest']|]; [|done]. destruct (wellFormedMessageID _) eqn:E; [|done]. constructor; [by apply wellFormed_spec|done].
Qed.

Lemma references_spec value : (length (references value) <= maxReferences)%nat /\ Forall (fun i => messageIDProblem i = None) (references value) /\
  exists dropped, messageIDs value = match references value with [] => dropped | first :: recent => first :: dropped ++ recent end.
Proof.
  unfold references. set (ids := messageIDs value). assert (Hall : Forall (fun i => messageIDProblem i = None) ids) by apply scanIDs_sound.
  destruct (Nat.leb_spec (length ids) maxReferences) as [Hle|Hgt].
  { split; [done|]. split; [done|]. exists []. by destruct ids. }
  destruct ids as [|first ids'] eqn:E; [cbn in Hgt; lia|]. rewrite <- E in *. split_and!.
  - cbn [length]. rewrite length_drop. unfold maxReferences in *. lia.
  - constructor; [|by apply Forall_drop]. rewrite E in Hall. by inversion Hall.
  - rewrite E. unfold maxReferences in *. cbn [length] in *. exists (take (S (length ids') - 100) ids').
    replace (S (length ids') - 100 + 1)%nat with (S (S (length ids') - 100)) by lia. cbn [drop]. by rewrite take_drop.
Qed.

Lemma firstMessageID_spec value : firstMessageID value = "" \/ messageIDProblem (firstMessageID value) = None.
Proof.
  unfold firstMessageID, messageIDs. pose proof (scanIDs_sound (S (String.length value)) value) as H.
  destruct (scanIDs _ value) as [|i l]; [by left|right]. by inversion H.
Qed.

Lemma contentID_ok h : contentIDProblem (contentID h) = None.
Proof.
  unfold contentID. set (i := TrimSuffix1 _ _). destruct (eqb i "" || _ || _) eqn:E; [done|].
  apply orb_false_iff in E as [[E1 E2]%orb_false_iff E3]. unfold contentIDProblem. unfold eqb in E1. rewrite E1.
  change MaxMessageIDLength with maxMessageIDLength. rewrite E2. rewrite printableToken_spec in E3. apply negb_false_iff in E3. by rewrite E3.
Qed.

(** *** File names *)

Lemma str_all_TrimFunc p q s : str_all p s = true -> str_all p (TrimFunc q s) = true.
Proof.
  intros H. unfold TrimFunc.
  assert (Hl : forall t, str_all p t = true -> str_all p (TrimLeftFunc q t) = true).
  { induction t as [|c t IH]; [done|]. intros Ht. cbn [TrimLeftFunc]. destruct (q c); [|done]. apply IH. by apply andb_true_iff in Ht as [_ ?]. }
  assert (Hr : forall t, str_all p t = true -> str_all p (TrimRightFunc q t) = true).
  { induction t as [|c t IH]; [done|]. cbn [str_all TrimRightFunc]. intros [Hc Ht]%andb_true_iff. specialize (IH Ht).
    destruct (TrimRightFunc q t); [destruct (q c); cbn [str_all]; by rewrite ?Hc|]. cbn [str_all] in *. by rewrite Hc. }
  auto.
Qed.

Definition not_separator (c : ascii) : bool := negb (bool_decide (c = "/"%char)) && negb (bool_decide (c = BACKSLASH)).

Lemma slashes_no_backslash s : str_all (fun c => negb (bool_decide (c = BACKSLASH))) (slashes s) = true.
Proof. induction s as [|c s IH]; cbn [slashes str_all]; [done|]. rewrite IH, andb_true_r. destruct (bool_decide (c = BACKSLASH)) eqn:E; [done|]. by rewrite E. Qed.

Lemma baseName_spec p s : str_all p s = true -> str_all p (baseName s) = true /\ str_all (fun c => negb (bool_decide (c = "/"%char))) (baseName s) = true.
Proof.
  intros Hp. unfold baseName. destruct (cut_last s "/") as [[a b]|] eqn:E.
  - split; [apply cut_last_spec in E; subst s; rewrite str_all_app in Hp; cbn [str_all] in Hp; by repeat apply andb_true_iff in Hp as [_ Hp]|].
    clear Hp. revert a b E. induction s as [|c s IH]; intros a b; cbn [cut_last]; [done|]. destruct (cut_last s "/") as [[a' b']|] eqn:E.
    + intros [= <- <-]. by eapply IH.
    + destruct (bool_decide (c = "/"%char)) eqn:Ec; [|done]. intros [= <- <-]. clear -E. induction s as [|d s IH]; [done|]. cbn [cut_last] in E.
      destruct (cut_last s "/") as [[? ?]|]; [done|]. cbn [str_all]. destruct (bool_decide (d = "/"%char)); [done|]. by rewrite IH.
  - split; [done|]. clear Hp. induction s as [|d s IH]; [done|]. cbn [cut_last] in E. destruct (cut_last s "/") as [[? ?]|]; [done|].
    cbn [str_all]. destruct (bool_decide (d = "/"%char)); [done|]. by rewrite IH.
Qed.

Lemma sanitiseName_bare name : sanitiseName name <> "" /\ str_all not_separator (sanitiseName name) = true.
Proof.
  unfold sanitiseName. set (b := baseName _). assert (Hb : str_all not_separator b = true).
  { destruct (baseName_spec _ _ (slashes_no_backslash (TrimSpace name))) as [H1 H2]. fold b in H1, H2. clearbody b. induction b as [|c b IH]; [done|].
    cbn [str_all] in *. apply andb_true_iff in H1 as [? ?], H2 as [? ?]. rewrite IH by done. unfold not_separator. by apply andb_true_iff; split; [apply andb_true_iff|]. }
  destruct (eqb _ "") eqn:E; [done|]. apply eqb_false in E. split; [done|]. by apply str_all_TrimFunc, str_all_TrimFunc.
Qed.

(** No dot has a blank beside it. *)
Fixpoint tame (s : string) : bool :=
  match s with
  | String a (String b _ as r) => negb (is_space a && bool_decide (b = "."%char) || bool_decide (a = "."%char) && is_space b) && tame r
  | _ => true
  end.

(** No dot is at either end. *)
Definition undotted (s : string) : Prop := HasPrefix s "." = false /\ last_char s <> Some "."%char.

Lemma undotted_attachment : undotted "attachment".
Proof. split; [reflexivity|discriminate]. Qed.

Lemma tame_tail c s : tame (String c s) = true -> tame s = true.
Proof. destruct s as [|d s]; [done|]. cbn [tame]. by intros [_ ?]%andb_true_iff. Qed.

Lemma tame_after a b : tame (a ++ b) = true -> tame b = true.
Proof. induction a as [|c a IH]; [done|]. intros H. by apply IH, (tame_tail c). Qed.

Lemma tame_left p s : tame s = true -> tame (TrimLeftFunc p s) = true.
Proof. induction s as [|c s IH]; [done|]. intros H. cbn [TrimLeftFunc]. destruct (p c); [by eapply IH, tame_tail|done]. Qed.

Lemma tame_right p s : tame s = true -> tame (TrimRightFunc p s) = true.
Proof.
  induction s as [|c s IH]; [done|]. intros H. pose proof (IH (tame_tail _ _ H)) as Ht. cbn [TrimRightFunc]. destruct (TrimRightFunc p s) as [|d r] eqn:E; [by destruct (p c)|].
  apply TrimRightFunc_head in E as [r' ->]. cbn [tame] in H |- *. apply andb_true_iff in H as [-> _]. done.
Qed.

Lemma tame_trim p s : tame s = true -> tame (TrimFunc p s) = true.
Proof. intros H. by apply tame_right, tame_left. Qed.

Lemma tame_base s : tame s = true -> tame (baseName (slashes s)) = true.
Proof.
  intros H. assert (Hs : tame (slashes s) = true).
  { induction s as [|c s IH]; [done|]. pose proof (IH (tame_tail _ _ H)) as Ht. destruct s as [|d s]; [done|]. cbn [slashes tame] in H, Ht |- *. rewrite Ht, andb_true_r.
    apply andb_true_iff in H as [H _]. destruct (bool_decide_reflect (c = BACKSLASH)) as [->|], (bool_decide_reflect (d = BACKSLASH)) as [->|]; try done.
  }
  unfold baseName. destruct (cut_last (slashes s) "/") as [[a b]|] eqn:E; [|done]. apply cut_last_spec in E. rewrite E in Hs. by apply tame_after, tame_tail in Hs.
Qed.

Lemma last_cons c d s : last_char (String c (String d s)) = last_char (String d s).
Proof. done. Qed.

Lemma last_right p s c : last_char (TrimRightFunc p s) = Some c -> p c = false.
Proof.
  induction s as [|d s IH]; [done|]. cbn [TrimRightFunc]. destruct (TrimRightFunc p s) as [|e r].
  - destruct (p d) eqn:E; [done|]. by intros [= <-].
  - rewrite last_cons. exact IH.
Qed.

Lemma last_left p s c : last_char (TrimLeftFunc p s) = Some c -> last_char s = Some c.
Proof.
  induction s as [|d s IH]; [done|]. cbn [TrimLeftFunc]. destruct (p d); [|done]. intros H. specialize (IH H). destruct s; [done|]. by rewrite last_cons.
Qed.

(** Blanks trimmed off a tame string that has no dot at its ends uncover none. *)
Lemma undotted_left s : tame s = true -> HasPrefix s "." = false -> HasPrefix (TrimLeftFunc is_space s) "." = false.
Proof.
  induction s as [|c s IH]; [done|]. intros Ht Hp. cbn [TrimLeftFunc]. destruct (is_space c) eqn:Ec; [|done]. apply IH; [by eapply tame_tail|].
  destruct s as [|d s]; [done|]. cbn [tame] in Ht. rewrite Ec in Ht. unfold HasPrefix. cbn [String.prefix]. destruct (ascii_dec "." d) as [<-|]; [|done]. cbn in Ht. done.
Qed.

Lemma undotted_right s : tame s = true -> last_char s <> Some "."%char -> last_char (TrimRightFunc is_space s) <> Some "."%char.
Proof.
  induction s as [|c s IH]; [done|]. intros Ht Hl. cbn [TrimRightFunc]. destruct (TrimRightFunc is_space s) as [|d r] eqn:E.
  - destruct (is_space c) eqn:Ec; [done|]. intros [= ->]. destruct s as [|d s]; [by apply Hl|].
    assert (Hd : is_space d = true). { cbn [TrimRightFunc] in E. destruct (TrimRightFunc is_space s); [by destruct (is_space d)|done]. }
    cbn [tame] in Ht. rewrite Hd in Ht. by rewrite orb_true_r in Ht.
  - rewrite last_cons. apply IH; [by eapply tame_tail|]. destruct s as [|e s]; [done|]. by rewrite last_cons in Hl.
Qed.

Lemma sanitiseName_undotted name : tame name = true -> undotted (sanitiseName name).
Proof.
  intros Ht. unfold sanitiseName. destruct (eqb _ "") eqn:E; [apply undotted_attachment|]. clear E. set (b := baseName _).
  assert (Hb : tame b = true) by (by apply tame_base, tame_trim). clearbody b. set (t := Trim b "."). assert (Htt : tame t = true) by (by apply tame_trim).
  assert (H1 : HasPrefix t "." = false).
  { unfold t, Trim, TrimFunc. destruct (TrimRightFunc _ _) as [|c r] eqn:E; [done|]. apply TrimRightFunc_head in E as [r' E]. apply TrimLeftFunc_head in E.
    unfold HasPrefix. cbn [String.prefix]. destruct (ascii_dec "." c) as [<-|]; [|done]. done. }
  assert (H2 : last_char t <> Some "."%char) by (intros H; by apply last_right in H).
  unfold TrimSpace, TrimFunc. split.
  - pose proof (undotted_left t Htt H1) as H. destruct (TrimRightFunc is_space _) as [|c r] eqn:E; [done|]. apply TrimRightFunc_head in E as [r' E]. rewrite E in H.
    unfold HasPrefix in *. cbn [String.prefix] in *. destruct (ascii_dec "." c); [|done]. by destruct r'.
  - apply undotted_right; [by apply tame_left|]. intros H. by apply last_left in H.
Qed.

(** A name that is stripped of its path can still be the parent directory: the
    dots at its ends are trimmed before the blanks, and the blanks may hide more. *)
Example sanitised_name_can_be_the_parent : sanitiseName ". .. ." = "..".
Proof. vm_compute. reflexivity. Qed.

(** ** What a parsed message is *)

Section Parsed.
Context (ReadMessage : string -> result string (Header * Stream)).
Context (ParseMediaType : string -> option (string * gmap string string)).
Context (Parts : string -> Stream -> list (Header * Stream) * option string).
Context (DecodeHeader : string -> option string).
Context (ParseOne : string -> result string string) (ParseList : string -> option (list string)).
Context (quotedPrintable : Stream -> Stream) (charset : string -> option (Stream -> Stream)).
Context (maxAttachmentBytes maxAttachments : Z).

Abbreviation parse := (Parse ReadMessage ParseMediaType Parts DecodeHeader ParseOne ParseList quotedPrintable charset maxAttachmentBytes maxAttachments).
Abbreviation walkTree := (walk ParseMediaType Parts DecodeHeader quotedPrintable charset maxAttachmentBytes maxAttachments).

(** The parts of a message with this header and body, however deep. *)
Inductive partOf (h0 : Header) (b0 : Stream) : Header -> Stream -> Prop :=
| part_whole : partOf h0 b0 h0 b0
| part_inner h b h' b' : partOf h0 b0 h b -> (h', b') ∈ (Parts (param (mediaTypeOf ParseMediaType h).2 "boundary") b).1 -> partOf h0 b0 h' b'.

(** The name a part declares: the file name of its disposition, else the name of its
    content type, decoded. *)
Definition declaredName (h : Header) : string :=
  let filename := match ParseMediaType (headerValue h headerDisposition) with Some (_, ps) => param ps "filename" | None => "" end in
  if eqb (headerValue h headerDisposition) "" || eqb filename "" then decodeWord DecodeHeader (param (mediaTypeOf ParseMediaType h).2 "name")
  else decodeWord DecodeHeader filename.

(** An attachment the send path will take: within the limit, with a Content-ID it
    accepts and a bare file name.  It holds what a part of the message holds, decoded,
    and its name has no dot at its ends when no dot of the name that part declares has
    a blank beside it. *)
Definition carried (h0 : Header) (b0 : Stream) (a : Attachment) : Prop :=
  contentIDProblem (ContentId a) = None /\ Filename a <> "" /\ str_all not_separator (Filename a) = true /\
  (exists h b, partOf h0 b0 h b /\ Content a = bytes (decodeTransferEncoding quotedPrintable b (headerValue h headerContentEncoding)) /\
     (tame (declaredName h) = true -> undotted (Filename a))) /\
  (0 < maxAttachmentBytes -> strlen (Content a) <= maxAttachmentBytes).

Definition within (h0 : Header) (b0 : Stream) (out : bodyParts) : Prop :=
  Forall (carried h0 b0) (attachments out) /\ (0 < maxAttachments -> Z.of_nat (length (attachments out)) <= maxAttachments).

Lemma readBounded_within r limit content : readBounded r limit = Ok content -> content = bytes r /\ fails r = None /\ (0 < limit -> strlen content <= limit).
Proof.
  unfold readBounded. destruct ((0 <? limit) && (limit <? strlen (bytes r))) eqn:E; [done|]. destruct (fails r); [done|]. intros [= <-].
  split_and!; [done..|]. intros H. apply andb_false_iff in E as [E|E]; [apply Z.ltb_ge in E; lia|by apply Z.ltb_ge in E].
Qed.

Lemma attachmentName_bare h ps : attachmentName ParseMediaType DecodeHeader h ps <> "" /\ str_all not_separator (attachmentName ParseMediaType DecodeHeader h ps) = true.
Proof. unfold attachmentName. cbv zeta. destruct (negb _); [apply sanitiseName_bare|]. by destruct (negb _); [apply sanitiseName_bare|]. Qed.

Lemma attachmentName_undotted h : tame (declaredName h) = true -> undotted (attachmentName ParseMediaType DecodeHeader h (mediaTypeOf ParseMediaType h).2).
Proof.
  unfold attachmentName, declaredName. cbv zeta. destruct (eqb (headerValue h headerDisposition) ""); cbn [orb].
  - change (negb (eqb "" "")) with false. cbn iota. destruct (negb _); [by apply sanitiseName_undotted|intros _; apply undotted_attachment].
  - destruct (eqb (match ParseMediaType _ with Some _ => _ | None => _ end) "") eqn:E; cbn [negb]; [|by apply sanitiseName_undotted].
    destruct (negb _); [by apply sanitiseName_undotted|intros _; apply undotted_attachment].
Qed.

Lemma leaf_within h0 b0 body h mt out out' : partOf h0 b0 h body ->
  leaf ParseMediaType DecodeHeader quotedPrintable charset maxAttachmentBytes maxAttachments body h mt (mediaTypeOf ParseMediaType h).2 out = Ok out' -> within h0 b0 out -> within h0 b0 out'.
Proof.
  intros Hpart. set (ps := (mediaTypeOf ParseMediaType h).2). unfold leaf. cbv zeta. destruct (isAttachment _ _ _).
  - unfold attach. destruct ((0 <? maxAttachments) && _) eqn:E; [done|]. destruct (readBounded _ _) as [content|] eqn:Er; [|done]. intros [= <-] [Hall Hn].
    split; cbn [attachments].
    + apply Forall_app. split; [done|]. constructor; [|done]. destruct (attachmentName_bare h ps). apply readBounded_within in Er as (Ec & _ & Hlim).
      split_and!; cbn; [apply contentID_ok|done|done|exists h, body; split_and!; [done|done|apply attachmentName_undotted]|done].
    + intros Hpos. rewrite length_app. cbn [length]. apply andb_false_iff in E as [E|E]; [apply Z.ltb_ge in E; lia|apply Z.leb_gt in E; lia].
  - destruct (readBounded _ _); [|done]. by destruct (eqb mt contentTypeTextHTML); intros [= <-].
Qed.

Lemma eachPart_within h0 b0 f parts ends : (forall b h out out', (h, b) ∈ parts -> f b h out = Ok out' -> within h0 b0 out -> within h0 b0 out') ->
  forall out out', eachPart f parts ends out = Ok out' -> within h0 b0 out -> within h0 b0 out'.
Proof.
  induction parts as [|[h b] rest IH]; intros Hf out out'; cbn [eachPart]; [by destruct ends; intros [= <-]|].
  destruct (f b h out) as [out1|] eqn:E; [|done]. intros H Hw. eapply IH; [|exact H|eapply Hf; [by left|done..]]. intros b' h' o o' Hin. apply Hf. by right.
Qed.

Lemma walk_within h0 b0 levels : forall body h out out', partOf h0 b0 h body -> walkTree levels body h out = Ok out' -> within h0 b0 out -> within h0 b0 out'.
Proof.
  induction levels as [|levels IH]; intros body h out out' Hp; cbn [walk]; [done|]. pose proof (leaf_within h0 b0 body h) as Hleaf. pose proof (part_inner h0 b0 h body) as Hin.
  destruct (mediaTypeOf _ h) as [mt ps]. cbn [snd] in Hleaf, Hin.
  destruct (HasPrefix mt "multipart/"); [|by apply Hleaf]. destruct (eqb _ ""); [done|]. destruct (Parts _ _) as [parts ends] eqn:E.
  apply eachPart_within. intros b' h' o o' Hb. apply IH. by apply Hin.
Qed.


(** *** Address lists *)

(** Scanning an entry: the state it ends in, or [None] when a comma of its own would
    separate it. *)
Fixpoint scanEntry (skip : bool) (s : scan) (e : string) : option (bool * scan) :=
  match e with
  | "" => Some (skip, s)
  | String c r =>
      if skip then scanEntry false s r
      else let '(s', sep, esc) := scanByte s c in if sep then None else scanEntry esc s' r
  end.

(** An entry that closes what it opens. *)
Definition closed (e : string) : Prop := scanEntry false outside e = Some (false, outside).

Lemma rawEntries_entry e : forall skip s r, scanEntry skip s e = Some (false, outside) -> rawEntries skip s (e ++ "," ++ r) = e :: rawEntries false outside r.
Proof.
  induction e as [|c e IH]; intros skip s r; cbn [scanEntry]; [by intros [= -> ->]|].
  change (String c e ++ "," ++ r) with (String c (e ++ "," ++ r)). cbn [rawEntries]. destruct skip; [intros H; by rewrite IH|].
  destruct (scanByte s c) as [[s' sep] esc]. destruct sep; [done|]. intros H. by rewrite IH.
Qed.

Lemma rawEntries_last e : forall skip s x, scanEntry skip s e = Some x -> rawEntries skip s e = [e].
Proof.
  induction e as [|c e IH]; intros skip s x; cbn [scanEntry rawEntries]; [done|]. destruct skip; [intros H; by rewrite (IH _ _ _ H)|].
  destruct (scanByte s c) as [[s' sep] esc]. destruct sep; [done|]. intros H. by rewrite (IH _ _ _ H).
Qed.

Lemma rawEntries_Join es : es <> [] -> Forall closed es -> rawEntries false outside (Join es ",") = es.
Proof.
  intros Hne. induction 1 as [|e es He Hes IH]; [done|]. destruct es as [|e' es].
  - cbn. by eapply rawEntries_last.
  - change (Join (e :: e' :: es) ",") with (e ++ "," ++ Join (e' :: es) ","). rewrite rawEntries_entry by done. by rewrite IH.
Qed.

(** One bad entry in a list of addresses loses only itself: whatever Go's parser
    makes of the list as a whole, when it refuses it the addresses read are those of
    the entries that parse, in order, for entries that close the quotes, brackets,
    comments and groups they open. *)
Theorem bad_entry_loses_only_itself es : es <> [] -> Forall closed es -> Forall (fun e => TrimSpace e <> "") es -> TrimSpace (Join es ",") = Join es "," ->
  ParseList (Join es ",") = None ->
  addressList ParseList (Join es ",") = filter (fun a => a <> "") (concat ((fun e => default [] (ParseList (TrimSpace e))) <$> es)).
Proof.
  intros Hne Hc Hn Ht Hp. unfold addressList. cbv zeta. rewrite Ht, Hp. unfold splitAddressList. rewrite rawEntries_Join by done.
  assert (Hj : eqb (Join es ",") "" = false).
  { apply eqb_false. intros H. rewrite H in Ht. destruct es as [|e [|e' es]]; [done|cbn in H; subst e; by inversion Hn|].
    change (Join (e :: e' :: es) ",") with (e ++ "," ++ Join (e' :: es) ",") in H. by destruct e. }
  rewrite Hj. f_equal. f_equal. clear -Hn. induction Hn as [|e es He Hes IH]; [done|]. cbn [fmap list_fmap].
  rewrite filter_cons_True by done. cbn [fmap list_fmap]. by f_equal.
Qed.

End Parsed.

(** ** A message *)

(** Readers of one message: a text and a file in a multipart. *)
Definition sampleHeader : Header :=
  <["From" := ["app@example.com"]]> (<["To" := ["ann@example.net, bob@example.net"]]> (<["In-Reply-To" := ["(see) <m1@example.net> <m2@example.net>"]]>
    (<["References" := ["<root@example.net> <broken> <m1@example.net>"]]> (<["Content-Type" := ["multipart/mixed"]]> (<["Message-Id" := ["<new@example.com>"]]>
      {["X-Panmail-Provider-Id" := ["11111111-1111-1111-1111-111111111111"]]}))))).
Definition samplePart : Header :=
  <["Content-Type" := ["image/png"]]> (<["Content-Disposition" := ["attachment"]]> {["Content-Transfer-Encoding" := ["Base64"]]}).
Definition sampleRead (raw : string) : result string (Header * Stream) := if eqb raw "" then Err "empty" else Ok (sampleHeader, mkStream raw None).
Definition sampleMedia (v : string) : option (string * gmap string string) :=
  if eqb v "multipart/mixed" then Some (v, {["boundary" := "b"]})
  else if eqb v "attachment" then Some (v, {["filename" := "..\evil.png"]}) else Some (v, ∅).
Definition sampleParts (b : string) (s : Stream) : list (Header * Stream) * option string :=
  ([(∅, mkStream "hello" None); (samplePart, mkStream "aGk=" None)], None).
Definition sampleList (v : string) : option (list string) :=
  let l := TrimSpace <$> Split v ","%char in if forallb (fun a => Contains a "@" && negb (Contains a " ")) l then Some l else None.
Abbreviation sampleParser := (Parse sampleRead sampleMedia sampleParts Some Ok sampleList id (fun _ => None) 100 5).


(** The second of three entries is no address. *)
Lemma bad_entry_loses_only_itself_witness :
  addressList sampleList "ann@example.net,not an address,bob@example.net" = ["ann@example.net"; "bob@example.net"].
Proof.
  change "ann@example.net,not an address,bob@example.net" with (Join ["ann@example.net"; "not an address"; "bob@example.net"] ",").
  rewrite (bad_entry_loses_only_itself sampleList ["ann@example.net"; "not an address"; "bob@example.net"]); [vm_compute; reflexivity|done| | |vm_compute; reflexivity..].
  - repeat constructor.
  - repeat constructor; vm_compute; discriminate.
Defined.

(** A quoted comma separates nothing. *)
Example quoted_comma : splitAddressList (String DQUOTE "Doe, Jane" ++ String DQUOTE " <jane@example.net>, (a, b) team: x@y, z@y;, w@y") =
  [String DQUOTE "Doe, Jane" ++ String DQUOTE " <jane@example.net>"; "(a, b) team: x@y, z@y;"; "w@y"].
Proof. vm_compute. reflexivity. Qed.

End SmtpMime.
