(* ===== verification/Policy.v ===== *)
(** * Who may call what

    Models [internal/auth/entities/role.go] and scope.go, the authorization
    table of [internal/auth/middlewares/policy.go] and the decision of
    rbac_interceptor.go.  Roles, scopes and procedures are the strings the code
    compares; a procedure not in the table is a string like any other. *)
From S2P Require Import Prelude GoStrings.

Module Policy.
Import GoStrings.
Local Open Scope string_scope.

(** ** Roles (entities/role.go) *)

Definition RoleViewer := "USER_ROLE_VIEWER".
Definition RoleEditor := "USER_ROLE_EDITOR".
Definition RoleAdmin := "USER_ROLE_ADMIN".
Definition RoleSuperAdmin := "USER_ROLE_SUPER_ADMIN".

Definition IsTenantRole (role : string) : bool :=
  eqb role RoleViewer || eqb role RoleEditor || eqb role RoleAdmin.

(** ** Scopes (entities/scope.go) *)

Definition ScopeEmailSend := "email:send".
Definition ScopeProvidersRead := "providers:read".
Definition ScopeProvidersWrite := "providers:write".
Definition ScopeTemplatesRead := "templates:read".
Definition ScopeTemplatesWrite := "templates:write".
Definition ScopeSuppressionsRead := "suppressions:read".
Definition ScopeSuppressionsWrite := "suppressions:write".
Definition ScopeWebhooksRead := "webhooks:read".
Definition ScopeWebhooksWrite := "webhooks:write".
Definition ScopeEventsRead := "events:read".
Definition ScopeInboundRead := "inbound:read".
Definition ScopeFiltersRead := "filters:read".
Definition ScopeFiltersWrite := "filters:write".
Definition ScopeFiltersRelease := "filters:release".

Definition AllScopes : list string :=
  [ScopeEmailSend; ScopeProvidersRead; ScopeProvidersWrite; ScopeTemplatesRead; ScopeTemplatesWrite;
   ScopeSuppressionsRead; ScopeSuppressionsWrite; ScopeWebhooksRead; ScopeWebhooksWrite; ScopeEventsRead;
   ScopeInboundRead; ScopeFiltersRead; ScopeFiltersWrite; ScopeFiltersRelease].

Definition DefaultScopes : list string := [ScopeEmailSend].

Definition IsValidScope (s : string) : bool := bool_decide (s ∈ AllScopes).

(** The loop of [NormalizeScopes]. *)
Fixpoint keepScopes (out requested : list string) : list string :=
  match requested with
  | [] => out
  | s :: rest =>
      if IsValidScope s && negb (bool_decide (s ∈ out)) then keepScopes (out ++ [s]) rest
      else keepScopes out rest
  end.

Definition NormalizeScopes (requested : list string) : list string :=
  match keepScopes [] requested with
  | [] => DefaultScopes
  | out => out
  end.

(** ** The table (middlewares/policy.go) *)

Definition roleLevel (role : string) : option nat :=
  if eqb role RoleViewer then Some 1%nat
  else if eqb role RoleEditor then Some 2%nat
  else if eqb role RoleAdmin then Some 3%nat
  else if eqb role RoleSuperAdmin then Some 4%nat
  else None.

Record access := mkAccess {
  public : bool;
  minRole : string;
  scope : string
}.

(** The three shapes a row has. *)
Definition anyone : access := mkAccess true "" "".
Definition users (min : string) : access := mkAccess false min "".
Definition usersAndKeys (min s : string) : access := mkAccess false min s.

Definition procedurePolicy : list (string * access) :=
  [
   ("/panmail.v1.AuthService/SignIn", anyone);
   ("/panmail.v1.AuthService/SignOut", anyone);
   ("/panmail.v1.AuthService/VerifyTwoFactor", anyone);
   ("/panmail.v1.SetupService/GetSetupStatus", anyone);
   ("/panmail.v1.SetupService/Setup", anyone);
   ("/panmail.v1.SetupService/TestDatabaseConnection", anyone);
   ("/panmail.v1.AuthService/GetCurrentUser", users RoleViewer);
   ("/panmail.v1.UserService/ListUserTenants", users RoleViewer);
   ("/panmail.v1.AuthService/SetupTwoFactor", users RoleViewer);
   ("/panmail.v1.AuthService/EnableTwoFactor", users RoleViewer);
   ("/panmail.v1.AuthService/DisableTwoFactor", users RoleViewer);
   ("/panmail.v1.TenantService/CreateTenant", users RoleSuperAdmin);
   ("/panmail.v1.TenantService/UpdateTenant", users RoleSuperAdmin);
   ("/panmail.v1.TenantService/DeleteTenant", users RoleSuperAdmin);
   ("/panmail.v1.TenantService/ListTenants", users RoleSuperAdmin);
   ("/panmail.v1.UserService/AssignUserToTenant", users RoleSuperAdmin);
   ("/panmail.v1.UserService/RemoveUserFromTenant", users RoleSuperAdmin);
   ("/panmail.v1.SystemSettingsService/UpdateSettings", users RoleSuperAdmin);
   ("/panmail.v1.SystemSettingsService/UpdateSmtpSubmission", users RoleSuperAdmin);
   ("/panmail.v1.SystemSettingsService/GetDataKey", users RoleSuperAdmin);
   ("/panmail.v1.SystemSettingsService/ChangeDataKey", users RoleSuperAdmin);
   ("/panmail.v1.EventService/GetPerformanceMetrics", users RoleSuperAdmin);
   ("/panmail.v1.ApiKeyService/CreateApiKey", users RoleAdmin);
   ("/panmail.v1.ApiKeyService/ListApiKeys", users RoleAdmin);
   ("/panmail.v1.ApiKeyService/UpdateApiKey", users RoleAdmin);
   ("/panmail.v1.ApiKeyService/DeleteApiKey", users RoleAdmin);
   ("/panmail.v1.ApiKeyService/EnableApiKey", users RoleAdmin);
   ("/panmail.v1.ApiKeyService/DisableApiKey", users RoleAdmin);
   ("/panmail.v1.UserService/CreateUser", users RoleAdmin);
   ("/panmail.v1.SentCopyService/GetSentCopySettings", users RoleAdmin);
   ("/panmail.v1.SentCopyService/UpdateSentCopySettings", users RoleAdmin);
   ("/panmail.v1.SentCopyService/ListSentCopyMailboxes", users RoleAdmin);
   ("/panmail.v1.SentCopyService/SaveSentCopyMailbox", users RoleAdmin);
   ("/panmail.v1.SentCopyService/DeleteSentCopyMailbox", users RoleAdmin);
   ("/panmail.v1.UserService/ListUsers", users RoleAdmin);
   ("/panmail.v1.UserService/DeleteUser", users RoleAdmin);
   ("/panmail.v1.UserService/UpdateUserRole", users RoleAdmin);
   ("/panmail.v1.UserService/UpdateUserTwoFactor", users RoleAdmin);
   ("/panmail.v1.EmailProviderService/CreateEmailProvider", usersAndKeys RoleEditor ScopeProvidersWrite);
   ("/panmail.v1.EmailProviderService/UpdateEmailProvider", usersAndKeys RoleEditor ScopeProvidersWrite);
   ("/panmail.v1.EmailProviderService/DeleteEmailProvider", usersAndKeys RoleEditor ScopeProvidersWrite);
   ("/panmail.v1.EmailProviderService/TestEmailProvider", usersAndKeys RoleEditor ScopeProvidersWrite);
   ("/panmail.v1.EmailProviderService/TestEmailProviderConfig", usersAndKeys RoleEditor ScopeProvidersWrite);
   ("/panmail.v1.TemplateService/CreateTemplate", usersAndKeys RoleEditor ScopeTemplatesWrite);
   ("/panmail.v1.TemplateService/UpdateTemplate", usersAndKeys RoleEditor ScopeTemplatesWrite);
   ("/panmail.v1.TemplateService/DeleteTemplate", usersAndKeys RoleEditor ScopeTemplatesWrite);
   ("/panmail.v1.EmailFilterService/CreateFilterRule", usersAndKeys RoleEditor ScopeFiltersWrite);
   ("/panmail.v1.EmailFilterService/UpdateFilterRule", usersAndKeys RoleEditor ScopeFiltersWrite);
   ("/panmail.v1.EmailFilterService/DeleteFilterRule", usersAndKeys RoleEditor ScopeFiltersWrite);
   ("/panmail.v1.EmailFilterService/ReleaseFilteredMessage", usersAndKeys RoleAdmin ScopeFiltersRelease);
   ("/panmail.v1.EmailFilterService/RejectFilteredMessage", usersAndKeys RoleAdmin ScopeFiltersRelease);
   ("/panmail.v1.SuppressionService/AddSuppression", usersAndKeys RoleEditor ScopeSuppressionsWrite);
   ("/panmail.v1.SuppressionService/ImportSuppressions", usersAndKeys RoleEditor ScopeSuppressionsWrite);
   ("/panmail.v1.SuppressionService/RemoveSuppression", usersAndKeys RoleEditor ScopeSuppressionsWrite);
   ("/panmail.v1.WebhookService/CreateWebhook", usersAndKeys RoleEditor ScopeWebhooksWrite);
   ("/panmail.v1.WebhookService/UpdateWebhook", usersAndKeys RoleEditor ScopeWebhooksWrite);
   ("/panmail.v1.WebhookService/DeleteWebhook", usersAndKeys RoleEditor ScopeWebhooksWrite);
   ("/panmail.v1.WebhookService/TestWebhook", usersAndKeys RoleEditor ScopeWebhooksWrite);
   ("/panmail.v1.EmailService/SendEmail", usersAndKeys RoleEditor ScopeEmailSend);
   ("/panmail.v1.EmailProviderService/GetEmailProvider", usersAndKeys RoleViewer ScopeProvidersRead);
   ("/panmail.v1.EmailProviderService/ListEmailProviders", usersAndKeys RoleViewer ScopeProvidersRead);
   ("/panmail.v1.EmailProviderService/CheckDomainHealth", usersAndKeys RoleViewer ScopeProvidersRead);
   ("/panmail.v1.TemplateService/GetTemplate", usersAndKeys RoleViewer ScopeTemplatesRead);
   ("/panmail.v1.TemplateService/ListTemplates", usersAndKeys RoleViewer ScopeTemplatesRead);
   ("/panmail.v1.EmailFilterService/ListFilterRules", usersAndKeys RoleViewer ScopeFiltersRead);
   ("/panmail.v1.EmailFilterService/ListFilteredMessages", usersAndKeys RoleViewer ScopeFiltersRead);
   ("/panmail.v1.EmailFilterService/GetFilteredMessage", usersAndKeys RoleViewer ScopeFiltersRead);
   ("/panmail.v1.SuppressionService/ListSuppressions", usersAndKeys RoleViewer ScopeSuppressionsRead);
   ("/panmail.v1.SuppressionService/CheckSuppression", usersAndKeys RoleViewer ScopeSuppressionsRead);
   ("/panmail.v1.WebhookService/ListWebhooks", usersAndKeys RoleViewer ScopeWebhooksRead);
   ("/panmail.v1.WebhookService/ListWebhookEventSamples", usersAndKeys RoleViewer ScopeWebhooksRead);
   ("/panmail.v1.EventService/ListEvents", usersAndKeys RoleViewer ScopeEventsRead);
   ("/panmail.v1.EventService/GetEvent", usersAndKeys RoleViewer ScopeEventsRead);
   ("/panmail.v1.EventService/GetMetrics", usersAndKeys RoleViewer ScopeEventsRead);
   ("/panmail.v1.EventService/GetTimeSeriesMetrics", usersAndKeys RoleViewer ScopeEventsRead);
   ("/panmail.v1.InboundService/ListInboundEmails", usersAndKeys RoleViewer ScopeInboundRead);
   ("/panmail.v1.InboundService/GetInboundEmail", usersAndKeys RoleViewer ScopeInboundRead);
   ("/panmail.v1.SystemSettingsService/GetSettings", users RoleViewer);
   ("/panmail.v1.EventService/ListArchives", users RoleViewer);
   ("/panmail.v1.EventService/DownloadArchive", users RoleViewer);
   ("/panmail.v1.LogService/ListLogs", users RoleAdmin);
   ("/panmail.v1.LogService/StreamLogs", users RoleAdmin)].

Definition lookupPolicy (procedure : string) : option access :=
  list_to_map (M := gmap string access) procedurePolicy !! procedure.

Definition roleSatisfies (role min : string) : bool :=
  if eqb min "" then false
  else
    match roleLevel role with
    | None => false
    | Some have => (default 0 (roleLevel min) <=? have)%nat
    end.

(** ** The caller (middlewares/context.go) *)

Definition PrincipalUser := "user".
Definition PrincipalAPIKey := "api_key".

Record Principal := mkPrincipal {
  Kind : string;
  UserID : string;
  TenantID : string;
  Role : string;
  Scopes : list string
}.

Definition HasScope (p : Principal) (s : string) : bool := bool_decide (s ∈ Scopes p).

(** [HasRole]: the caller meets one of the given roles; no caller has the role
    [""]. *)
Definition HasRole (role : string) (required : list string) : bool :=
  existsb (roleSatisfies role) required.

(** ** The decision (rbac_interceptor.go) *)

Inductive denial :=
| UnknownProcedure
| Unauthenticated
| NoKeys                       (* the endpoint takes no API key *)
| MissingScope (s : string)
| InsufficientRole (min : string).

Definition authorizeAPIKey (p : Principal) (rule : access) : option denial :=
  if eqb (scope rule) "" then Some NoKeys
  else if negb (HasScope p (scope rule)) then Some (MissingScope (scope rule))
  else None.

Definition authorizeUser (p : Principal) (rule : access) : option denial :=
  if eqb (Role p) RoleSuperAdmin then None
  else if negb (roleSatisfies (Role p) (minRole rule)) then Some (InsufficientRole (minRole rule))
  else None.

(** [None] lets the call through. *)
Definition authorize (caller : option Principal) (procedure : string) : option denial :=
  match lookupPolicy procedure with
  | None => Some UnknownProcedure
  | Some rule =>
      if public rule then None
      else
        match caller with
        | None => Some Unauthenticated
        | Some p =>
            if eqb (Kind p) PrincipalAPIKey then authorizeAPIKey p rule
            else if eqb (Kind p) PrincipalUser then authorizeUser p rule
            else Some Unauthenticated
        end
  end.

(** ** The table is well formed *)

(** Each procedure has one rule; a rule that is not public names a role of the
    ladder; a scope it names is one a key can be granted. *)
Definition wf_rule (a : access) : bool :=
  if public a then eqb (minRole a) "" && eqb (scope a) ""
  else bool_decide (is_Some (roleLevel (minRole a))) && (eqb (scope a) "" || IsValidScope (scope a)).

Lemma policy_keys : NoDup procedurePolicy.*1.
Proof. apply (bool_decide_unpack _). vm_compute. exact I. Qed.

Lemma policy_wf : forallb (fun r => wf_rule r.2) procedurePolicy = true.
Proof. vm_compute. reflexivity. Qed.

Lemma lookupPolicy_in procedure rule :
  lookupPolicy procedure = Some rule <-> (procedure, rule) ∈ procedurePolicy.
Proof. symmetry. apply elem_of_list_to_map, policy_keys. Qed.

#[local] Opaque lookupPolicy.

(** A check of every row holds of every rule found. *)
Lemma policy_row (f : access -> bool) procedure rule :
  forallb (fun r => f r.2) procedurePolicy = true -> lookupPolicy procedure = Some rule -> f rule = true.
Proof.
  intros Hf Hl. apply lookupPolicy_in in Hl. rewrite forallb_forall in Hf.
  apply (Hf (procedure, rule)). by apply list_elem_of_In.
Qed.

Lemma roleSatisfies_level role min :
  roleSatisfies role min = true <->
  min <> "" /\ exists have, roleLevel role = Some have /\ (default 0 (roleLevel min) <= have)%nat.
Proof.
  unfold roleSatisfies. destruct (eqb min "") eqn:E.
  - apply eqb_true in E. split; [done|]. by intros [? _].
  - assert (min <> "") by (intros ->; done). destruct (roleLevel role) as [have|].
    + rewrite Nat.leb_le. split; [eauto|]. intros (_ & h & ? & ?). by simplify_eq.
    + split; [done|]. by intros (_ & h & ? & _).
Qed.

(** What a call that was let through had going for it. *)
Lemma authorize_inv caller procedure :
  authorize caller procedure = None ->
  exists rule, (procedure, rule) ∈ procedurePolicy /\
    (public rule = true \/
     exists p, caller = Some p /\
       ((Kind p = PrincipalAPIKey /\ scope rule <> "" /\ scope rule ∈ Scopes p) \/
        (Kind p = PrincipalUser /\ (Role p = RoleSuperAdmin \/ roleSatisfies (Role p) (minRole rule) = true)))).
Proof.
  unfold authorize. destruct (lookupPolicy procedure) as [rule|] eqn:E; [|done].
  intros H. exists rule. split; [by apply lookupPolicy_in|].
  destruct (public rule); [by left|right]. destruct caller as [p|]; [|done].
  exists p. split; [done|]. destruct (eqb (Kind p) PrincipalAPIKey) eqn:Ek.
  - apply eqb_true in Ek. left. unfold authorizeAPIKey, HasScope in H.
    destruct (eqb (scope rule) "") eqn:Es; [done|]. case_bool_decide; [|done].
    split_and!; [done| |done]. intros Hs. rewrite Hs in Es. done.
  - destruct (eqb (Kind p) PrincipalUser) eqn:Eu; [|done]. apply eqb_true in Eu. right. split; [done|].
    unfold authorizeUser in H. destruct (eqb (Role p) RoleSuperAdmin) eqn:Er; [left; by apply eqb_true|].
    destruct (roleSatisfies (Role p) (minRole rule)); [by right|done].
Qed.
(** What the table says of the rows an API key can reach: the scope is one a key
    can be granted; no row of the deployment's operator has one; the only
    administrator's rows that have one are the release of held mail; a row is
    open to a read scope exactly when any viewer may call it. *)
Definition key_row (a : access) : bool :=
  eqb (scope a) "" ||
  (IsValidScope (scope a) && negb (eqb (minRole a) RoleSuperAdmin) &&
   (negb (eqb (minRole a) RoleAdmin) || eqb (scope a) ScopeFiltersRelease) &&
   Bool.eqb (HasSuffix (scope a) ":read") (eqb (minRole a) RoleViewer)).

Lemma policy_key_rows : forallb (fun r => key_row r.2) procedurePolicy = true.
Proof. vm_compute. reflexivity. Qed.

(** An API key does what its scopes name and nothing else.  A key that gets
    past authorization calls a public procedure, or one whose rule names a scope
    the key holds; whatever scopes it was given, it never reaches a super
    admin's procedure, reaches an administrator's only to release or reject held
    mail with the scope for exactly that, and with read scopes only reaches no
    procedure that changes anything. *)
Theorem api_keys_are_confined p procedure :
  Kind p = PrincipalAPIKey -> authorize (Some p) procedure = None ->
  exists rule, (procedure, rule) ∈ procedurePolicy /\
    (public rule = true \/
     (scope rule ∈ Scopes p /\ scope rule ∈ AllScopes /\ minRole rule <> RoleSuperAdmin /\
      (minRole rule = RoleAdmin -> scope rule = ScopeFiltersRelease) /\
      ((forall s, s ∈ Scopes p -> HasSuffix s ":read" = true) -> minRole rule = RoleViewer))).
Proof.
  intros Hk H. apply authorize_inv in H as (rule & Hin & H). exists rule. split; [done|].
  destruct H as [?|(q & Hq & [(_ & Hne & Hs)|(Hu & _)])]; [by left| |].
  2: { injection Hq as <-. rewrite Hk in Hu. vm_compute in Hu. discriminate. }
  right. injection Hq as <-. split; [done|].
  apply lookupPolicy_in in Hin. pose proof (policy_row key_row _ _ policy_key_rows Hin) as Hr. clear Hin.
  unfold key_row in Hr. destruct (eqb (scope rule) "") eqn:E; [by apply eqb_true in E|]. simpl in Hr.
  apply andb_true_iff in Hr as [Hr Hview]. apply andb_true_iff in Hr as [Hr Hadm].
  apply andb_true_iff in Hr as [Hval Hsup]. split_and!.
  - by apply bool_decide_eq_true in Hval.
  - intros Ha. rewrite Ha in Hsup. done.
  - intros Ha. rewrite Ha in Hadm. by apply eqb_true.
  - intros Hall. rewrite (Hall _ Hs) in Hview.
    destruct (eqb (minRole rule) RoleViewer) eqn:Ev; [by apply eqb_true|done].
Qed.

Definition demo_key : Principal := mkPrincipal PrincipalAPIKey "" "t1" "" [ScopeEventsRead; ScopeProvidersRead].

Lemma api_keys_are_confined_witness :
  exists rule, ("/panmail.v1.EventService/ListEvents", rule) ∈ procedurePolicy /\ minRole rule = RoleViewer.
Proof.
  destruct (api_keys_are_confined demo_key "/panmail.v1.EventService/ListEvents") as (rule & Hin & H);
    [reflexivity|vm_compute; reflexivity|].
  exists rule. split; [exact Hin|]. destruct H as [Hp|(_ & _ & _ & _ & H)].
  - apply lookupPolicy_in in Hin. vm_compute in Hin. inversion Hin; subst rule. discriminate Hp.
  - apply H. intros s Hs. apply elem_of_cons in Hs as [->|Hs]; [reflexivity|].
    apply list_elem_of_singleton in Hs as ->. reflexivity.
Defined.

(** The roles are a ladder.  Whatever a signed-in user's role lets them call,
    every role at least as high may call too; and a role that is not on the
    ladder -- an empty or unknown string in the account -- lets its holder call
    nothing but the public procedures. *)
Theorem roles_are_a_ladder p q procedure :
  Kind p = PrincipalUser -> Kind q = PrincipalUser -> authorize (Some p) procedure = None ->
  (forall lp lq, roleLevel (Role p) = Some lp -> roleLevel (Role q) = Some lq -> (lp <= lq)%nat ->
     authorize (Some q) procedure = None) /\
  (roleLevel (Role p) = None -> authorize None procedure = None).
Proof.
  intros Hp Hq H. unfold authorize in *. destruct (lookupPolicy procedure) as [rule|] eqn:E; [|done].
  pose proof (policy_row wf_rule _ _ policy_wf E) as Hw. clear E.
  destruct (public rule); [done|]. rewrite Hp in H. rewrite Hq.
  change (eqb PrincipalUser PrincipalAPIKey) with false in *. cbn [eqb] in *. rewrite eqb_refl in *.
  unfold authorizeUser in *. split.
  - intros lp lq Hlp Hlq Hle. destruct (eqb (Role q) RoleSuperAdmin) eqn:Eq; [done|].
    enough (roleSatisfies (Role q) (minRole rule) = true) as ->; [done|].
    apply roleSatisfies_level. destruct (eqb (Role p) RoleSuperAdmin) eqn:Ep.
    + exfalso. apply eqb_true in Ep. rewrite Ep in Hlp. vm_compute in Hlp. injection Hlp as <-.
      revert Hlq. unfold roleLevel. rewrite Eq. repeat case_match; intros; simplify_eq; lia.
    + destruct (roleSatisfies (Role p) (minRole rule)) eqn:Er; [|done].
      apply roleSatisfies_level in Er as (Hne & have & Hh & Hl). simplify_eq. split; [done|]. exists lq. split; [done|lia].
  - intros Hn. exfalso. destruct (eqb (Role p) RoleSuperAdmin) eqn:Ep.
    + apply eqb_true in Ep. rewrite Ep in Hn. done.
    + destruct (roleSatisfies (Role p) (minRole rule)) eqn:Er; [|done].
      apply roleSatisfies_level in Er as (_ & have & Hh & _). congruence.
Qed.

Lemma roles_are_a_ladder_witness :
  authorize (Some (mkPrincipal PrincipalUser "u2" "t1" RoleAdmin [])) "/panmail.v1.EmailService/SendEmail" = None.
Proof.
  apply (roles_are_a_ladder (mkPrincipal PrincipalUser "u1" "t1" RoleEditor [])
    (mkPrincipal PrincipalUser "u2" "t1" RoleAdmin []) "/panmail.v1.EmailService/SendEmail" eq_refl eq_refl)
    with (lp := 2%nat) (lq := 3%nat); [vm_compute; reflexivity|reflexivity|reflexivity|lia].
Defined.

(** ** Scopes *)

Lemma keepScopes_spec requested : forall out,
  NoDup out -> (forall s, s ∈ out -> s ∈ AllScopes) ->
  NoDup (keepScopes out requested) /\
  forall s, s ∈ keepScopes out requested <-> s ∈ out \/ (s ∈ requested /\ s ∈ AllScopes).
Proof.
  induction requested as [|x rest IH]; intros out Hnd Hall; simpl.
  - split; [done|]. intros s. split; [by left|]. intros [?|[Hs _]]; [done|by apply not_elem_of_nil in Hs].
  - unfold IsValidScope. repeat case_bool_decide; simpl.
    + destruct (IH out Hnd Hall) as [? Hs]. split; [done|]. intros s. rewrite Hs, elem_of_cons.
      split; [tauto|]. intros [?|[[->|?] ?]]; tauto.
    + destruct (IH (out ++ [x])%list) as [? Hs].
      * apply NoDup_app. split_and!; [done| |apply NoDup_singleton].
        intros y Hy Hyx. apply list_elem_of_singleton in Hyx as ->. done.
      * intros s Hs. apply elem_of_app in Hs as [?|Hs]; [by apply Hall|]. by apply list_elem_of_singleton in Hs as ->.
      * split; [done|]. intros s. rewrite Hs, elem_of_app, list_elem_of_singleton, elem_of_cons.
        split; [|tauto]. intros [[?| ->]|?]; tauto.
    + destruct (IH out Hnd Hall) as [? Hs]. split; [done|]. intros s. rewrite Hs, elem_of_cons.
      split; [tauto|]. intros [?|[[->|?] ?]]; tauto.
    + destruct (IH out Hnd Hall) as [? Hs]. split; [done|]. intros s. rewrite Hs, elem_of_cons.
      split; [tauto|]. intros [?|[[->|?] ?]]; tauto.
Qed.

(** Normalising a grant keeps exactly the known scopes asked for, once each, and
    falls back to sending when there is none. *)
Lemma NormalizeScopes_spec requested :
  NoDup (NormalizeScopes requested) /\ NormalizeScopes requested <> [] /\
  forall s, s ∈ NormalizeScopes requested <->
    (s ∈ requested /\ s ∈ AllScopes) \/
    ((forall x, x ∈ requested -> x ∉ AllScopes) /\ s = ScopeEmailSend).
Proof.
  destruct (keepScopes_spec requested []) as [Hnd Hs]; [constructor|intros s Hs; by apply not_elem_of_nil in Hs|].
  unfold NormalizeScopes. destruct (keepScopes [] requested) as [|x l] eqn:E.
  - assert (Hno : forall y, y ∈ requested -> y ∉ AllScopes).
    { intros y Hy Ha. apply (not_elem_of_nil y). apply Hs. by right. }
    split_and!; [apply NoDup_singleton|done|]. intros s. unfold DefaultScopes. rewrite list_elem_of_singleton.
    split; [intros ->; by right|]. intros [[Hr Ha]|[_ ?]]; [by destruct (Hno s Hr)|done].
  - split_and!; [done|done|]. intros s. rewrite Hs. split.
    + intros [Hn|?]; [by apply not_elem_of_nil in Hn|by left].
    + intros [?|[Hno _]]; [by right|]. exfalso. assert (Hx : x ∈ x :: l) by by left.
      apply Hs in Hx as [Hx|[Hx Ha]]; [by apply not_elem_of_nil in Hx|by apply (Hno x)].
Qed.

Lemma NormalizeScopes_idem l : NormalizeScopes (NormalizeScopes l) = NormalizeScopes l.
Proof.
  assert (Hk : forall l out, NoDup (out ++ l) -> (forall s, s ∈ l -> s ∈ AllScopes) -> keepScopes out l = (out ++ l)%list).
  { clear l. induction l as [|x l IH]; intros out Hnd Hall; simpl; [by rewrite app_nil_r|].
    unfold IsValidScope. rewrite bool_decide_eq_true_2 by (apply Hall; by left).
    rewrite bool_decide_eq_false_2.
    - simpl. rewrite IH; [by rewrite <- app_assoc|by rewrite <- app_assoc|]. intros s Hs. apply Hall. by right.
    - intros Hx. apply NoDup_app in Hnd as (_ & Hd & _). apply (Hd x Hx). by left. }
  destruct (NormalizeScopes_spec l) as (Hnd & Hne & Hs).
  unfold NormalizeScopes at 1. rewrite Hk; [|done|].
  - simpl. by destruct (NormalizeScopes l).
  - intros s Hin. apply Hs in Hin as [[_ ?]|[_ ->]]; [done|]. by left.
Qed.

End Policy.
