(* ===== verification/Accounts.v ===== *)
(** * Accounts and memberships

    Models the user and membership stores of
    [internal/auth/repositories/stores/postgres] (store.go, membership_store.go
    and their statements), [internal/auth/usecases/user_usecase.go] and
    membership_usecase.go, and the guards of
    [internal/auth/services/user_service.go].  A call takes the fault of each
    database call it makes, in order; bcrypt is a parameter. *)
From S2P Require Import Prelude GoStrings Policy.

Module Accounts.
Import GoStrings.
Local Open Scope Z_scope.

(** ** Data (entities/user.go, user_tenant.go) *)

Record User := mkUser {
  ID : string;
  TenantID : string;
  Email : string;
  Password : string;
  Name : string;
  Role : string;
  TwoFactorEnabled : bool;
  TwoFactorSecret : string;
  CreatedAt : Z;
  UpdatedAt : Z
}.

#[export] Instance User_eq_dec : EqDecision User.
Proof. solve_decision. Defined.

Record UserTenant := mkUserTenant {
  M_UserID : string;
  M_TenantID : string;
  M_TenantName : string;
  M_Role : string;
  M_IsHome : bool;
  M_CreatedAt : Z;
  M_UpdatedAt : Z
}.

(** The columns of [user_tenants] besides its key. *)
Record MRow := mkMRow {
  m_role : string;
  m_created : Z;
  m_updated : Z
}.

Record DB := mkDB {
  users : gmap string User;
  user_tenants : gmap (string * string) MRow;
  tenants : gmap string string              (* a tenant's name *)
}.

Definition set_users (m : gmap string User) (s : DB) : DB := mkDB m (user_tenants s) (tenants s).
Definition set_memberships (m : gmap (string * string) MRow) (s : DB) : DB := mkDB (users s) m (tenants s).

Definition with_role (role : string) (now : Z) (u : User) : User :=
  mkUser (ID u) (TenantID u) (Email u) (Password u) (Name u) role (TwoFactorEnabled u) (TwoFactorSecret u)
    (CreatedAt u) now.
Definition with_two_factor (enabled : bool) (secret : string) (now : Z) (u : User) : User :=
  mkUser (ID u) (TenantID u) (Email u) (Password u) (Name u) (Role u) enabled secret (CreatedAt u) now.
(** [user.Role = role] in memory. *)
Definition as_role (role : string) (u : User) : User :=
  mkUser (ID u) (TenantID u) (Email u) (Password u) (Name u) role (TwoFactorEnabled u) (TwoFactorSecret u)
    (CreatedAt u) (UpdatedAt u).

(** ** The stores *)

(** Reads tell a missing row from a failed call. *)
Inductive storeError :=
| NoRows
| Failed (e : string).

Definition read {A} (f : fault) (o : option A) : result storeError A :=
  match f with
  | Up => match o with Some a => Ok a | None => Err NoRows end
  | Down => Err (Failed errNotConnected)
  | Refused e | Lost e => Err (Failed e)
  end.

Definition errConstraint : string := "constraint violated".

(** [create_user.sql]: the id and the address are unique, the tenant exists. *)
Definition insert_user (u : User) (s : DB) : result string (DB * unit) :=
  if bool_decide (is_Some (users s !! ID u)) ||
     existsb (fun p => bool_decide (Email p.2 = Email u)) (map_to_list (users s)) ||
     negb (bool_decide (is_Some (tenants s !! TenantID u)))
  then Err errConstraint
  else Ok (set_users (<[ID u := u]> (users s)) s, tt).

Definition Create (f : fault) (u : User) : DB -> DB * result string unit := exec f (insert_user u).

Definition GetByID (f : fault) (id : string) (s : DB) : result storeError User := read f (users s !! id).

Definition GetByEmail (f : fault) (email : string) (s : DB) : result storeError User :=
  read f (snd <$> head (filter (fun p : string * User => Email p.2 = email) (map_to_list (users s)))).

(** [update_user_role.sql], [update_user_two_factor.sql]. *)
Definition UpdateRole (f : fault) (now : Z) (id role : string) : DB -> DB * result string unit :=
  exec f (fun s => Ok (set_users (alter (with_role role now) id (users s)) s, tt)).
Definition UpdateTwoFactor (f : fault) (now : Z) (id : string) (enabled : bool) (secret : string) :
    DB -> DB * result string unit :=
  exec f (fun s => Ok (set_users (alter (with_two_factor enabled secret now) id (users s)) s, tt)).

(** [delete_user.sql]: refused while a membership points at the user. *)
Definition Delete (f : fault) (id : string) : DB -> DB * result string unit :=
  exec f (fun s =>
    if existsb (fun p => bool_decide (p.1.1 = id)) (map_to_list (user_tenants s)) then Err errConstraint
    else Ok (set_users (delete id (users s)) s, tt)).

(** [assign_membership.sql]: a second assignment changes the role. *)
Definition Assign (f : fault) (m : UserTenant) : DB -> DB * result string unit :=
  exec f (fun s =>
    if bool_decide (is_Some (users s !! M_UserID m)) && bool_decide (is_Some (tenants s !! M_TenantID m)) then
      let k := (M_UserID m, M_TenantID m) in
      let row := match user_tenants s !! k with
                 | Some r => mkMRow (M_Role m) (m_created r) (M_UpdatedAt m)
                 | None => mkMRow (M_Role m) (M_CreatedAt m) (M_UpdatedAt m)
                 end in
      Ok (set_memberships (<[k := row]> (user_tenants s)) s, tt)
    else Err errConstraint).

Definition MRemove (f : fault) (user tenant : string) : DB -> DB * result string unit :=
  exec f (fun s => Ok (set_memberships (delete (user, tenant) (user_tenants s)) s, tt)).

Definition row_membership (user tenant : string) (r : MRow) : UserTenant :=
  mkUserTenant user tenant "" (m_role r) false (m_created r) (m_updated r).

(** A missing row is the answer [None], not an error. *)
Definition MGet (f : fault) (user tenant : string) (s : DB) : result string (option UserTenant) :=
  match read f (user_tenants s !! (user, tenant)) with
  | Ok r => Ok (Some (row_membership user tenant r))
  | Err NoRows => Ok None
  | Err (Failed e) => Err e
  end.

Definition MUpdateRole (f : fault) (now : Z) (user tenant role : string) : DB -> DB * result string unit :=
  exec f (fun s => Ok (set_memberships
    (alter (fun r => mkMRow role (m_created r) now) (user, tenant) (user_tenants s)) s, tt)).

Definition RemoveAllForUser (f : fault) (user : string) : DB -> DB * result string unit :=
  exec f (fun s => Ok (set_memberships (filter (fun p => p.1.1 <> user) (user_tenants s)) s, tt)).

(** [list_memberships_by_user.sql], in the order of the tenants' names. *)
Definition ListByUser (f : fault) (order : list UserTenant -> list UserTenant) (user : string) (s : DB) :
    result string (list UserTenant) :=
  snd (exec f (fun s => Ok (s, order (omap (fun p : string * string * MRow =>
    if bool_decide (p.1.1 = user) then
      name ← tenants s !! p.1.2;
      Some (mkUserTenant user p.1.2 name (m_role p.2) false (m_created p.2) (m_updated p.2))
    else None) (map_to_list (user_tenants s))))) s).

(** [list_users_by_tenant.sql]: the members of a tenant with the role they are
    shown with (without paging). *)
Definition listed_role (u : User) (m : MRow) : string :=
  if bool_decide (Role u = Policy.RoleSuperAdmin) then Role u else m_role m.
Definition ListByTenantID (tenant : string) (s : DB) : list User :=
  omap (fun p : string * string * MRow =>
    if bool_decide (p.1.2 = tenant) then u ← users s !! p.1.1; Some (as_role (listed_role u p.2) u)
    else None) (map_to_list (user_tenants s)).

(** ** Errors of the use cases and the service *)

Inductive acctError :=
| ErrUserNotFound
| ErrTenantNotFound
| ErrNotAMember
| ErrHomeTenantRemoval
| ErrRoleNotAssignable (role : string)
| ErrSuperAdminFromGuestTenant
| ErrHomeTenantOnlyDeletion
| ErrPasswordTooShort
| PermissionDenied
| UnauthenticatedCaller
| InvalidArgument
| Unimplemented
| StoreFailed (e : string).

(** A store's write as the last word of a use case. *)
Definition stored_ (p : DB * result string unit) : DB * result acctError unit :=
  match p with
  | (s, Ok _) => (s, Ok tt)
  | (s, Err e) => (s, Err (StoreFailed e))
  end.

(** [MinPasswordLength] and [ValidatePassword] (auth_usecase.go). *)
Definition MinPasswordLength : Z := 12.
Definition ValidatePassword (password : string) : bool :=
  negb (Z.of_nat (String.length password) <? MinPasswordLength).

Section Accounts.
Context (HashPassword : string -> result string string).       (* bcrypt.GenerateFromPassword *)
Context (memberships : bool).                                  (* the membership store is configured *)
Implicit Types (s : DB) (fs : nat -> fault).

(** ** Users (user_usecase.go) *)

Definition assignHomeMembership (f : fault) (u : User) (s : DB) : DB * result string unit :=
  if bool_decide (TenantID u = ""%string) || negb memberships then (s, Ok tt)
  else
    let role := if Policy.IsTenantRole (Role u) then Role u else Policy.RoleAdmin in
    Assign f (mkUserTenant (ID u) (TenantID u) "" role false (CreatedAt u) (UpdatedAt u)) s.

Definition CreateUser fs (uuid : string) (now : Z) (tenant email password name role : string) s :
    DB * result acctError User :=
  if negb (ValidatePassword password) then (s, Err ErrPasswordTooShort)
  else
    match HashPassword password with
    | Err e => (s, Err (StoreFailed e))
    | Ok hashed =>
        let u := mkUser uuid tenant email hashed name role false "" now now in
        match Create (fs 0%nat) u s with
        | (s1, Err e) => (s1, Err (StoreFailed e))
        | (s1, Ok _) =>
            match assignHomeMembership (fs 1%nat) u s1 with
            | (s2, Err e) => (s2, Err (StoreFailed e))
            | (s2, Ok _) => (s2, Ok u)
            end
        end
    end.

Definition GetInTenant fs (tenant id : string) s : result acctError User :=
  match GetByID (fs 0%nat) id s with
  | Err _ => Err ErrUserNotFound
  | Ok u =>
      if bool_decide (TenantID u = tenant) then Ok u
      else if negb memberships then Err ErrUserNotFound
      else
        match MGet (fs 1%nat) id tenant s with
        | Err e => Err (StoreFailed e)
        | Ok None => Err ErrUserNotFound
        | Ok (Some m) =>
            Ok (if bool_decide (Role u = Policy.RoleSuperAdmin) then u else as_role (M_Role m) u)
        end
  end.

Definition UpdateUserRole fs (now1 now2 : Z) (tenant id role : string) s : DB * result acctError unit :=
  match GetInTenant fs tenant id s with
  | Err e => (s, Err e)
  | Ok u =>
      let isHome := bool_decide (TenantID u = tenant) in
      if bool_decide (role = Policy.RoleSuperAdmin) then stored_ (UpdateRole (fs 2%nat) now1 id role s)
      else if bool_decide (Role u = Policy.RoleSuperAdmin) && negb isHome then (s, Err ErrSuperAdminFromGuestTenant)
      else if isHome then
        match UpdateRole (fs 2%nat) now1 id role s with
        | (s1, Err e) => (s1, Err (StoreFailed e))
        | (s1, Ok _) =>
            if negb memberships then (s1, Ok tt)
            else stored_ (MUpdateRole (fs 3%nat) now2 id tenant role s1)
        end
      else if negb memberships then (s, Err ErrNotAMember)
      else stored_ (MUpdateRole (fs 2%nat) now1 id tenant role s)
  end.

Definition UpdateUserTwoFactor fs (now : Z) (tenant id : string) (enabled : bool) s : DB * result acctError unit :=
  match GetInTenant fs tenant id s with
  | Err e => (s, Err e)
  | Ok u => stored_ (UpdateTwoFactor (fs 2%nat) now id enabled (TwoFactorSecret u) s)
  end.

Definition DeleteUser fs (tenant id : string) s : DB * result acctError unit :=
  match GetInTenant fs tenant id s with
  | Err e => (s, Err e)
  | Ok u =>
      if negb (bool_decide (TenantID u = tenant)) then (s, Err ErrHomeTenantOnlyDeletion)
      else if memberships then
        match RemoveAllForUser (fs 2%nat) id s with
        | (s1, Err e) => (s1, Err (StoreFailed e))
        | (s1, Ok _) => stored_ (Delete (fs 3%nat) id s1)
        end
      else stored_ (Delete (fs 3%nat) id s)
  end.

(** ** Memberships (membership_usecase.go) *)

Definition AssignUserToTenant fs (now1 now2 : Z) (user tenant role : string) s : DB * result acctError UserTenant :=
  if negb (Policy.IsTenantRole role) then (s, Err (ErrRoleNotAssignable role))
  else
    match GetByID (fs 0%nat) user s with
    | Err _ => (s, Err ErrUserNotFound)
    | Ok u =>
        match read (fs 1%nat) (tenants s !! tenant) with
        | Err _ => (s, Err ErrTenantNotFound)
        | Ok name =>
            let m := mkUserTenant user tenant name role (bool_decide (tenant = TenantID u)) now1 now1 in
            match Assign (fs 2%nat) m s with
            | (s1, Err e) => (s1, Err (StoreFailed e))
            | (s1, Ok _) =>
                if M_IsHome m && negb (bool_decide (Role u = Policy.RoleSuperAdmin)) then
                  match UpdateRole (fs 3%nat) now2 user role s1 with
                  | (s2, Err e) => (s2, Err (StoreFailed e))
                  | (s2, Ok _) => (s2, Ok m)
                  end
                else (s1, Ok m)
            end
        end
    end.

Definition RemoveUserFromTenant fs (user tenant : string) s : DB * result acctError unit :=
  match GetByID (fs 0%nat) user s with
  | Err _ => (s, Err ErrUserNotFound)
  | Ok u =>
      if bool_decide (tenant = TenantID u) then (s, Err ErrHomeTenantRemoval)
      else
        match MGet (fs 1%nat) user tenant s with
        | Err e => (s, Err (StoreFailed e))
        | Ok None => (s, Err ErrNotAMember)
        | Ok (Some _) => stored_ (MRemove (fs 2%nat) user tenant s)
        end
  end.

Definition effective (u : User) (m : UserTenant) : UserTenant :=
  let home := bool_decide (M_TenantID m = TenantID u) in
  mkUserTenant (M_UserID m) (M_TenantID m) (M_TenantName m)
    (if bool_decide (Role u = Policy.RoleSuperAdmin) then Policy.RoleSuperAdmin
     else if home then Role u else M_Role m)
    home (M_CreatedAt m) (M_UpdatedAt m).

Definition ListUserTenants fs (order : list UserTenant -> list UserTenant) (user : string) s :
    result acctError (list UserTenant) :=
  match GetByID (fs 0%nat) user s with
  | Err _ => Err ErrUserNotFound
  | Ok u =>
      match ListByUser (fs 1%nat) order user s with
      | Err e => Err (StoreFailed e)
      | Ok ms => Ok (map (effective u) ms)
      end
  end.

(** The role a user holds in a tenant, [""] for none. *)
Definition RoleIn fs (user tenant : string) s : result acctError string :=
  match GetByID (fs 0%nat) user s with
  | Err NoRows => Err ErrUserNotFound
  | Err (Failed e) => Err (StoreFailed e)
  | Ok u =>
      if bool_decide (Role u = Policy.RoleSuperAdmin) then Ok Policy.RoleSuperAdmin
      else if bool_decide (tenant = TenantID u) then Ok (Role u)
      else
        match MGet (fs 1%nat) user tenant s with
        | Err e => Err (StoreFailed e)
        | Ok None => Ok ""%string
        | Ok (Some m) => Ok (M_Role m)
        end
  end.

(** ** The service's guards (user_service.go) *)

(** What the request's context carries of the caller. *)
Record Caller := mkCaller {
  c_user : string;
  c_role : string;
  c_tenant : string
}.

Definition super (c : Caller) : bool := bool_decide (c_role c = Policy.RoleSuperAdmin).

Definition callerTenant (c : Caller) : result acctError string :=
  if bool_decide (c_tenant c = ""%string) then Err UnauthenticatedCaller else Ok (c_tenant c).

Definition resolveTargetInTenant fs (c : Caller) (tenant id : string) s : result acctError User :=
  match GetInTenant fs tenant id s with
  | Err e => Err e
  | Ok u =>
      if bool_decide (Role u = Policy.RoleSuperAdmin) && negb (super c) then Err PermissionDenied else Ok u
  end.

Definition guardTwoFactorTarget fs (c : Caller) (tenant id : string) s : result acctError unit :=
  match resolveTargetInTenant fs c tenant id s with
  | Err e => Err e
  | Ok u => if negb (bool_decide (TenantID u = tenant)) && negb (super c) then Err PermissionDenied else Ok tt
  end.

(** The guard's reads come first; the use case makes its own. *)
Definition later fs : nat -> fault := fun n => fs (2 + n)%nat.

Definition svcCreateUser fs uuid now (c : Caller) (email password name role : string) s :
    DB * result acctError User :=
  if bool_decide (role = Policy.RoleSuperAdmin) && negb (super c) then (s, Err PermissionDenied)
  else
    match callerTenant c with
    | Err e => (s, Err e)
    | Ok tenant => CreateUser fs uuid now tenant email password name role s
    end.

Definition svcUpdateUserRole fs now1 now2 (c : Caller) (id role : string) s : DB * result acctError unit :=
  if bool_decide (role = Policy.RoleSuperAdmin) && negb (super c) then (s, Err PermissionDenied)
  else
    match callerTenant c with
    | Err e => (s, Err e)
    | Ok tenant =>
        match resolveTargetInTenant fs c tenant id s with
        | Err e => (s, Err e)
        | Ok _ => UpdateUserRole (later fs) now1 now2 tenant id role s
        end
    end.

Definition svcDeleteUser fs (c : Caller) (id : string) s : DB * result acctError unit :=
  match callerTenant c with
  | Err e => (s, Err e)
  | Ok tenant =>
      match resolveTargetInTenant fs c tenant id s with
      | Err e => (s, Err e)
      | Ok _ => DeleteUser (later fs) tenant id s
      end
  end.

Definition svcUpdateUserTwoFactor fs now (c : Caller) (id : string) (enabled : bool) s :
    DB * result acctError unit :=
  match callerTenant c with
  | Err e => (s, Err e)
  | Ok tenant =>
      match guardTwoFactorTarget fs c tenant id s with
      | Err e => (s, Err e)
      | Ok _ => UpdateUserTwoFactor (later fs) now tenant id enabled s
      end
  end.

Definition roleUnspecified : string := "USER_ROLE_UNSPECIFIED".

Definition svcAssignUserToTenant fs now1 now2 (user tenant role : string) s : DB * result acctError UserTenant :=
  if negb memberships then (s, Err Unimplemented)
  else if bool_decide (user = ""%string) || bool_decide (tenant = ""%string) then (s, Err InvalidArgument)
  else
    AssignUserToTenant fs now1 now2 user tenant
      (if bool_decide (role = roleUnspecified) then Policy.RoleViewer else role) s.

Definition svcRemoveUserFromTenant fs (user tenant : string) s : DB * result acctError unit :=
  if negb memberships then (s, Err Unimplemented) else RemoveUserFromTenant fs user tenant s.

Definition svcListUserTenants fs order (c : Caller) (user : string) s : result acctError (list UserTenant) :=
  if negb memberships then Err Unimplemented
  else
    let target := if bool_decide (user = ""%string) then c_user c else user in
    if bool_decide (target = ""%string) then Err UnauthenticatedCaller
    else if negb (bool_decide (target = c_user c)) && negb (Policy.HasRole (c_role c) [Policy.RoleSuperAdmin])
    then Err PermissionDenied
    else ListUserTenants fs order target s.

(** ** The calls that change accounts *)

Inductive op :=
| OCreate (fs : nat -> fault) (uuid : string) (now : Z) (email password name role : string)
| OUpdateRole (fs : nat -> fault) (now1 now2 : Z) (id role : string)
| ODelete (fs : nat -> fault) (id : string)
| OTwoFactor (fs : nat -> fault) (now : Z) (id : string) (enabled : bool)
| OAssign (fs : nat -> fault) (now1 now2 : Z) (user tenant role : string)
| ORemove (fs : nat -> fault) (user tenant : string).

Definition procedure (o : op) : string :=
  match o with
  | OCreate _ _ _ _ _ _ _ => "/panmail.v1.UserService/CreateUser"
  | OUpdateRole _ _ _ _ _ => "/panmail.v1.UserService/UpdateUserRole"
  | ODelete _ _ => "/panmail.v1.UserService/DeleteUser"
  | OTwoFactor _ _ _ _ => "/panmail.v1.UserService/UpdateUserTwoFactor"
  | OAssign _ _ _ _ _ _ => "/panmail.v1.UserService/AssignUserToTenant"
  | ORemove _ _ _ => "/panmail.v1.UserService/RemoveUserFromTenant"
  end.

Definition principal (c : Caller) : Policy.Principal :=
  Policy.mkPrincipal Policy.PrincipalUser (c_user c) (c_tenant c) (c_role c) [].

(** A signed-in caller's request: authorized first, then handled. *)
Definition step (c : Caller) (o : op) s : DB :=
  match Policy.authorize (Some (principal c)) (procedure o) with
  | Some _ => s
  | None =>
      match o with
      | OCreate fs uuid now email password name role => (svcCreateUser fs uuid now c email password name role s).1
      | OUpdateRole fs n1 n2 id role => (svcUpdateUserRole fs n1 n2 c id role s).1
      | ODelete fs id => (svcDeleteUser fs c id s).1
      | OTwoFactor fs now id enabled => (svcUpdateUserTwoFactor fs now c id enabled s).1
      | OAssign fs n1 n2 user tenant role => (svcAssignUserToTenant fs n1 n2 user tenant role s).1
      | ORemove fs user tenant => (svcRemoveUserFromTenant fs user tenant s).1
      end
  end.

(** ** What a write can have done *)

Lemma exec_cases {A} f (stmt : DB -> result string (DB * A)) s :
  (exec f stmt s).1 = s \/ exists a, stmt s = Ok ((exec f stmt s).1, a).
Proof. unfold exec. destruct f; [|by left..|]; destruct (stmt s) as [[s' a]|er]; simpl; eauto. Qed.

Lemma stored_fst p : (stored_ p).1 = p.1.
Proof. by destruct p as [s [u|e]]. Qed.

(** What a caller acting in [tenant] left alone: the accounts of other homes and
    of super admins, other tenants' memberships of those accounts, who is a super
    admin, and the tenants. *)
Record confined (tenant : string) (s s' : DB) : Prop := {
  cf_users : forall id u, users s !! id = Some u -> TenantID u <> tenant \/ Role u = Policy.RoleSuperAdmin ->
    users s' !! id = Some u;
  cf_members : forall id u t, t <> tenant -> users s !! id = Some u ->
    TenantID u <> tenant \/ Role u = Policy.RoleSuperAdmin -> user_tenants s' !! (id, t) = user_tenants s !! (id, t);
  cf_super : forall id u, users s' !! id = Some u -> Role u = Policy.RoleSuperAdmin -> users s !! id = Some u;
  cf_tenants : tenants s' = tenants s
}.

Lemma confined_refl tenant s : confined tenant s s.
Proof. by split. Qed.

Lemma confined_trans tenant s1 s2 s3 : confined tenant s1 s2 -> confined tenant s2 s3 -> confined tenant s1 s3.
Proof.
  intros [U1 M1 S1 T1] [U2 M2 S2 T2]. split.
  - eauto.
  - intros id u t Ht Hu Hc. rewrite (M2 id u t Ht (U1 _ _ Hu Hc) Hc). eauto.
  - eauto.
  - congruence.
Qed.

(** A write that took effect or did not. *)
Lemma confined_exec {A} tenant f (stmt : DB -> result string (DB * A)) s :
  (forall s' a, stmt s = Ok (s', a) -> confined tenant s s') -> confined tenant s (exec f stmt s).1.
Proof.
  intros H. destruct (exec_cases f stmt s) as [->|[a Ha]]; [apply confined_refl|by eapply H].
Qed.

(** An account of the tenant itself, not a super admin's, may be changed to
    anything that is not a super admin. *)
Lemma confined_alter tenant g id u s :
  users s !! id = Some u -> TenantID u = tenant -> Role u <> Policy.RoleSuperAdmin ->
  Role (g u) <> Policy.RoleSuperAdmin ->
  confined tenant s (set_users (alter g id (users s)) s).
Proof.
  intros Hu Ht Hr Hg. split; simpl; [| |intros id' u' Hu' Hr'|done].
  - intros id' u' Hu' Hc. rewrite lookup_alter_ne; [done|]. intros ->. simplify_eq. by destruct Hc.
  - done.
  - destruct (decide (id' = id)) as [->|Hne].
    + rewrite lookup_alter_eq, Hu in Hu'. simpl in Hu'. by simplify_eq.
    + by rewrite lookup_alter_ne in Hu'.
Qed.

(** A membership of the tenant may be changed at will. *)
Lemma confined_members (tenant : string) (m : gmap (string * string) MRow) s :
  (forall id t : string, t <> tenant -> m !! (id, t) = user_tenants s !! (id, t)) ->
  confined tenant s (set_memberships m s).
Proof. intros H. split; simpl; eauto. Qed.

Lemma confined_MUpdateRole tenant f now id role s : confined tenant s (MUpdateRole f now id tenant role s).1.
Proof.
  apply confined_exec. intros s' a [= <- _]. apply confined_members.
  intros id' t Ht. apply lookup_alter_ne. congruence.
Qed.

(** Whom a guard lets a tenant's administrator act on. *)
Lemma GetInTenant_inv fs tenant id s u :
  GetInTenant fs tenant id s = Ok u ->
  exists u0, users s !! id = Some u0 /\ TenantID u = TenantID u0 /\ TwoFactorSecret u = TwoFactorSecret u0 /\
    (Role u0 = Policy.RoleSuperAdmin -> u = u0) /\ (TenantID u0 = tenant -> u = u0).
Proof.
  unfold GetInTenant, GetByID. destruct (read (fs 0%nat) (users s !! id)) as [u0|] eqn:E; [|done].
  assert (users s !! id = Some u0) as Hu.
  { unfold read in E. destruct (fs 0%nat); try done. by destruct (users s !! id); simplify_eq. }
  case_bool_decide as Ht; [intros [= <-]; by exists u0|].
  destruct memberships; [|done]. simpl. destruct (MGet _ _ _ _) as [[m|]|]; try done.
  case_bool_decide; intros [= <-]; exists u0; split_and!; try done.
Qed.

Lemma resolve_inv fs c tenant id s u :
  c_role c <> Policy.RoleSuperAdmin -> resolveTargetInTenant fs c tenant id s = Ok u ->
  exists u0, users s !! id = Some u0 /\ TenantID u = TenantID u0 /\ Role u0 <> Policy.RoleSuperAdmin.
Proof.
  intros Hc. unfold resolveTargetInTenant. destruct (GetInTenant _ _ _ _) as [u'|] eqn:E; [|done].
  apply GetInTenant_inv in E as (u0 & Hu & Ht & _ & Hs & _).
  unfold super. rewrite (bool_decide_eq_false_2 (c_role c = _)) by done.
  case_bool_decide as Hr; [done|]. intros [= <-]. exists u0. split_and!; [done|done|].
  intros H0. apply Hr. by rewrite (Hs H0).
Qed.

Lemma confined_UpdateUserRole fs now1 now2 tenant id role s u0 :
  users s !! id = Some u0 -> Role u0 <> Policy.RoleSuperAdmin -> role <> Policy.RoleSuperAdmin ->
  confined tenant s (UpdateUserRole fs now1 now2 tenant id role s).1.
Proof.
  intros Hu Hr Hrole. unfold UpdateUserRole.
  destruct (GetInTenant fs tenant id s) as [u|] eqn:E; [|apply confined_refl].
  apply GetInTenant_inv in E as (u1 & Hu1 & Ht & _). simplify_eq.
  rewrite (bool_decide_eq_false_2 (role = _)) by done.
  destruct (_ && _); [apply confined_refl|]. case_bool_decide as Hh.
  - destruct (UpdateRole _ _ _ _ s) as [s1 r] eqn:Ew.
    assert (Hc : confined tenant s s1).
    { change s1 with (s1, r).1. rewrite <- Ew. apply confined_exec. intros s' a [= <- _].
      eapply confined_alter; [done|congruence|done|done]. }
    destruct r; [|done]. destruct memberships; [|done]. simpl. rewrite stored_fst.
    eapply confined_trans; [exact Hc|apply confined_MUpdateRole].
  - destruct memberships; [|apply confined_refl]. simpl. rewrite stored_fst. apply confined_MUpdateRole.
Qed.

Lemma confined_DeleteUser fs tenant id s u0 :
  users s !! id = Some u0 -> Role u0 <> Policy.RoleSuperAdmin ->
  confined tenant s (DeleteUser fs tenant id s).1.
Proof.
  intros Hu Hr. unfold DeleteUser.
  destruct (GetInTenant fs tenant id s) as [u|] eqn:E; [|apply confined_refl].
  apply GetInTenant_inv in E as (u1 & Hu1 & Ht & _). simplify_eq.
  case_bool_decide as Hh; simpl; [|apply confined_refl].
  assert (Hdel : forall s1 f, users s1 = users s -> confined tenant s1 (Delete f id s1).1).
  { intros s1 f Hs1. apply confined_exec. intros s' a H. destruct (existsb _ _); [done|]. injection H as <- _.
    split; simpl; [|done| |done]; rewrite Hs1.
    - intros id' u' Hu' Hc. rewrite lookup_delete_ne; [done|]. intros ->. simplify_eq. destruct Hc; congruence.
    - intros id' u' Hu' _. by apply lookup_delete_Some in Hu' as [_ ?]. }
  destruct memberships; [|rewrite stored_fst; by apply Hdel].
  destruct (RemoveAllForUser _ _ s) as [s1 r] eqn:Ew.
  assert (Hc : confined tenant s s1 /\ users s1 = users s).
  { change s1 with (s1, r).1. rewrite <- Ew. unfold RemoveAllForUser.
    destruct (exec_cases (fs 2%nat) (fun s => Ok (set_memberships (filter (fun p => p.1.1 <> id) (user_tenants s)) s, tt)) s)
      as [->|[a Ha]]; [split; [apply confined_refl|done]|]. injection Ha as <- _. split; [|done]. split; simpl; [done| |done|done].
    intros id' u' t Ht' Hu' Hc. destruct (decide (id' = id)) as [->|Hne]; [simplify_eq; destruct Hc; congruence|].
    destruct (user_tenants s !! (id', t)) eqn:El.
    - by apply map_lookup_filter_Some.
    - apply map_lookup_filter_None. by left. }
  destruct Hc as [Hc Hus]. destruct r; [|done]. rewrite stored_fst. eapply confined_trans; [exact Hc|by apply Hdel].
Qed.

Lemma confined_CreateUser fs uuid now tenant email password name role s :
  role <> Policy.RoleSuperAdmin ->
  confined tenant s (CreateUser fs uuid now tenant email password name role s).1.
Proof.
  intros Hr. unfold CreateUser. destruct (negb _); [apply confined_refl|].
  destruct (HashPassword password) as [h|]; [|apply confined_refl].
  set (u := mkUser _ _ _ _ _ _ _ _ _ _). destruct (Create (fs 0%nat) u s) as [s1 r] eqn:Ec.
  assert (Hc : confined tenant s s1).
  { change s1 with (s1, r).1. rewrite <- Ec. apply confined_exec. intros s' a H. unfold insert_user in H.
    case_bool_decide as Hex; [done|]. destruct (_ || _); [done|]. injection H as <- _.
    assert (Hn : users s !! uuid = None) by (apply eq_None_not_Some; exact Hex).
    split; simpl; [|done| |done].
    - intros id u' Hu' _. rewrite lookup_insert_ne; [done|]. intros <-. congruence.
    - intros id u' Hu' Hr'. apply lookup_insert_Some in Hu' as [[_ <-]|[_ ?]]; [done|done]. }
  destruct r as [[]|]; [|done]. destruct (assignHomeMembership _ u s1) as [s2 r2] eqn:Ea.
  enough (confined tenant s s2) by (by destruct r2).
  eapply confined_trans; [exact Hc|]. change s2 with (s2, r2).1. rewrite <- Ea. unfold assignHomeMembership.
  destruct (_ || _); [apply confined_refl|]. apply confined_exec. intros s' a H. destruct (_ && _); [|done].
  injection H as <- _. apply confined_members. intros id t Ht. apply lookup_insert_ne. simpl. congruence.
Qed.

(** Only a super admin gets past the policy to another tenant's memberships. *)
Lemma policy_super p proc :
  Policy.Kind p = Policy.PrincipalUser -> Policy.lookupPolicy proc = Some (Policy.users Policy.RoleSuperAdmin) ->
  Policy.authorize (Some p) proc = None -> Policy.Role p = Policy.RoleSuperAdmin.
Proof.
  intros Hk Hl H. unfold Policy.authorize in H. rewrite Hl, Hk in H. clear Hl. simpl in H.
  unfold Policy.authorizeUser in H. destruct (eqb (Policy.Role p) Policy.RoleSuperAdmin) eqn:E; [by apply eqb_true|].
  destruct (Policy.roleSatisfies (Policy.Role p) (Policy.minRole (Policy.users Policy.RoleSuperAdmin))) eqn:Er; [|done].
  apply Policy.roleSatisfies_level in Er as (_ & have & Hh & Hl'). simpl in Hl'.
  unfold Policy.roleLevel in Hh. rewrite E in Hh. repeat case_match; simplify_eq; simpl in Hl'; lia.
Qed.

(** C36: a tenant's administrator is confined to the tenant.  Whatever a signed-in
    caller who is not a super admin asks of the user service -- create, change a
    role, delete, set two-factor, assign, remove -- with whatever database
    failures on the way, every account homed in another tenant and every super
    admin's account is as it was, so are those accounts' memberships of every
    other tenant, and nobody becomes a super admin. *)
Theorem tenant_admin_is_confined c o s :
  c_role c <> Policy.RoleSuperAdmin -> confined (c_tenant c) s (step c o s).
Proof.
  intros Hc. unfold step. destruct (Policy.authorize (Some (principal c)) (procedure o)) as [d|] eqn:Ea;
    [apply confined_refl|].
  assert (Hs : super c = false) by by apply bool_decide_eq_false_2.
  assert (Hct : forall t, callerTenant c = Ok t -> t = c_tenant c).
  { intros t. unfold callerTenant. case_bool_decide; congruence. }
  destruct o as [fs uuid now email password name role|fs n1 n2 id role|fs id|fs now id en|fs n1 n2 u t role|fs u t].
  - unfold svcCreateUser. rewrite Hs. case_bool_decide; [apply confined_refl|]. simpl.
    destruct (callerTenant c) as [t|] eqn:Et; [|apply confined_refl]. rewrite (Hct _ eq_refl).
    by apply confined_CreateUser.
  - unfold svcUpdateUserRole. rewrite Hs. case_bool_decide; [apply confined_refl|]. simpl.
    destruct (callerTenant c) as [t|] eqn:Et; [|apply confined_refl]. rewrite (Hct _ eq_refl).
    destruct (resolveTargetInTenant _ _ _ _ _) eqn:Er; [|apply confined_refl].
    apply resolve_inv in Er as (u0 & Hu & _ & Hr); [|done]. by eapply confined_UpdateUserRole.
  - unfold svcDeleteUser. destruct (callerTenant c) as [t|] eqn:Et; [|apply confined_refl]. rewrite (Hct _ eq_refl).
    destruct (resolveTargetInTenant _ _ _ _ _) eqn:Er; [|apply confined_refl].
    apply resolve_inv in Er as (u0 & Hu & _ & Hr); [|done]. by eapply confined_DeleteUser.
  - unfold svcUpdateUserTwoFactor. destruct (callerTenant c) as [t|] eqn:Et; [|apply confined_refl].
    rewrite (Hct _ eq_refl). unfold guardTwoFactorTarget. rewrite Hs.
    destruct (resolveTargetInTenant _ _ _ _ _) as [v|] eqn:Er; [|apply confined_refl].
    apply resolve_inv in Er as (u0 & Hu & Ht & Hr); [|done].
    case_bool_decide as Hh; simpl; [|apply confined_refl].
    unfold UpdateUserTwoFactor. destruct (GetInTenant _ _ _ _) as [v'|]; [|apply confined_refl].
    rewrite stored_fst. apply confined_exec. intros s' a [= <- _].
    eapply confined_alter; [done|congruence|done|done].
  - exfalso. apply Hc. apply (policy_super (principal c) (procedure (OAssign fs n1 n2 u t role))); [done| |done].
    vm_compute. reflexivity.
  - exfalso. apply Hc. apply (policy_super (principal c) (procedure (ORemove fs u t))); [done| |done].
    vm_compute. reflexivity.
Qed.

(** ** Memberships carry local roles *)

(** No membership row holds the deployment-wide role. *)
Definition local_roles s : Prop :=
  forall k r, user_tenants s !! k = Some r -> m_role r <> Policy.RoleSuperAdmin.

Lemma tenant_role_local role : Policy.IsTenantRole role = true -> role <> Policy.RoleSuperAdmin.
Proof. intros H ->. vm_compute in H. discriminate. Qed.

Lemma local_exec {A} f (stmt : DB -> result string (DB * A)) s :
  local_roles s -> (forall s' a, stmt s = Ok (s', a) -> local_roles s') -> local_roles (exec f stmt s).1.
Proof. intros Hl H. destruct (exec_cases f stmt s) as [->|[a Ha]]; [done|by eapply H]. Qed.

Lemma local_same s s' : user_tenants s' = user_tenants s -> local_roles s -> local_roles s'.
Proof. intros E H k r. rewrite E. apply H. Qed.

Lemma local_Assign f m s : M_Role m <> Policy.RoleSuperAdmin -> local_roles s -> local_roles (Assign f m s).1.
Proof.
  intros Hm Hl. apply local_exec; [done|]. intros s' a H. destruct (_ && _); [|done]. injection H as <- _.
  intros k r Hr. simpl in Hr. apply lookup_insert_Some in Hr as [[_ <-]|[_ Hr]]; [by case_match|by apply (Hl k)].
Qed.

Lemma local_MUpdateRole f now user tenant role s :
  role <> Policy.RoleSuperAdmin -> local_roles s -> local_roles (MUpdateRole f now user tenant role s).1.
Proof.
  intros Hm Hl. apply local_exec; [done|]. intros s' a [= <- _] k r Hr. simpl in Hr. apply lookup_alter_Some in Hr as
    [(_ & x & Hx & ->)|[_ Hr]]; [done|by apply (Hl k)].
Qed.

Lemma local_UpdateRole f now id role s : local_roles s -> local_roles (UpdateRole f now id role s).1.
Proof. intros Hl. apply local_exec; [done|]. intros s' a [= <- _]. done. Qed.

Lemma local_remove f user s : local_roles s -> local_roles (RemoveAllForUser f user s).1.
Proof.
  intros Hl. apply local_exec; [done|]. intros s' a [= <- _] k r Hr. simpl in Hr.
  apply map_lookup_filter_Some in Hr as [Hr _]. by apply (Hl k).
Qed.

Lemma local_step c o s : local_roles s -> local_roles (step c o s).
Proof.
  intros Hl. unfold step. destruct (Policy.authorize _ _); [done|].
  assert (Hdel : forall f id s, local_roles s -> local_roles (Delete f id s).1).
  { intros f id s0 H0. apply local_exec; [done|]. intros s' a H. destruct (existsb _ _); [done|]. by injection H as <- _. }
  destruct o as [fs uuid now email password name role|fs n1 n2 id role|fs id|fs now id en|fs n1 n2 u t role|fs u t].
  - unfold svcCreateUser. destruct (_ && _); [done|]. destruct (callerTenant c) as [t|]; [|done].
    unfold CreateUser. destruct (negb _); [done|]. destruct (HashPassword password); [|done].
    set (u := mkUser _ _ _ _ _ _ _ _ _ _). destruct (Create (fs 0%nat) u s) as [s1 r] eqn:Ec.
    assert (H1 : local_roles s1).
    { change s1 with (s1, r).1. rewrite <- Ec. apply local_exec; [done|]. intros s' b H. unfold insert_user in H.
      destruct (_ || _); [done|]. by injection H as <- _. }
    destruct r; [|done]. destruct (assignHomeMembership _ u s1) as [s2 r2] eqn:Ea.
    enough (local_roles s2) by (by destruct r2). change s2 with (s2, r2).1. rewrite <- Ea.
    unfold assignHomeMembership. destruct (_ || _); [done|]. apply local_Assign; [|done]. simpl.
    destruct (Policy.IsTenantRole role) eqn:Er; [by apply tenant_role_local|done].
  - unfold svcUpdateUserRole. destruct (_ && _); [done|]. destruct (callerTenant c); [|done].
    destruct (resolveTargetInTenant _ _ _ _ _); [|done]. unfold UpdateUserRole.
    destruct (GetInTenant _ _ _ _); [|done]. case_bool_decide as Hr; [rewrite stored_fst; by apply local_UpdateRole|].
    destruct (_ && _); [done|]. case_bool_decide.
    + destruct (UpdateRole _ _ _ _ s) as [s1 r] eqn:Ew.
      assert (H1 : local_roles s1) by (change s1 with (s1, r).1; rewrite <- Ew; by apply local_UpdateRole).
      destruct r; [|done]. destruct memberships; [|done]. simpl. rewrite stored_fst. by apply local_MUpdateRole.
    + destruct memberships; [|done]. simpl. rewrite stored_fst. by apply local_MUpdateRole.
  - unfold svcDeleteUser. destruct (callerTenant c); [|done]. destruct (resolveTargetInTenant _ _ _ _ _); [|done].
    unfold DeleteUser. destruct (GetInTenant _ _ _ _); [|done]. destruct (negb _); [done|].
    destruct memberships; [|rewrite stored_fst; by apply Hdel].
    destruct (RemoveAllForUser _ _ s) as [s1 r] eqn:Ew.
    assert (H1 : local_roles s1) by (change s1 with (s1, r).1; rewrite <- Ew; by apply local_remove).
    destruct r; [|done]. rewrite stored_fst. by apply Hdel.
  - unfold svcUpdateUserTwoFactor. destruct (callerTenant c); [|done]. destruct (guardTwoFactorTarget _ _ _ _ _); [|done].
    unfold UpdateUserTwoFactor. destruct (GetInTenant _ _ _ _); [|done]. rewrite stored_fst.
    apply local_exec; [done|]. by intros s' b [= <- _].
  - unfold svcAssignUserToTenant, AssignUserToTenant. destruct (negb memberships); [exact Hl|].
    destruct (_ || _); [exact Hl|]. set (r := if bool_decide (role = _) then _ else role).
    destruct (Policy.IsTenantRole r) eqn:Er; [|done]. simpl. destruct (GetByID _ _ _) as [v|]; [|done].
    destruct (read _ _) as [nm|]; [|done]. destruct (Assign _ _ _) as [s1 [?|?]] eqn:Ea.
    + assert (H1 : local_roles s1).
      { change s1 with (s1, Ok (E := string) a).1. rewrite <- Ea. apply local_Assign; [|done]. by apply tenant_role_local. }
      destruct (_ && _); [|done]. destruct (UpdateRole _ _ _ _ s1) as [s2 [?|?]] eqn:Eu; simpl.
      * change s2 with (s2, Ok (E := string) a0).1. rewrite <- Eu. by apply local_UpdateRole.
      * change s2 with (s2, Err (A := unit) e).1. rewrite <- Eu. by apply local_UpdateRole.
    + simpl. change s1 with (s1, Err (A := unit) e).1. rewrite <- Ea. apply local_Assign; [|done]. by apply tenant_role_local.
  - unfold svcRemoveUserFromTenant, RemoveUserFromTenant. destruct (negb _); [done|].
    destruct (GetByID _ _ _); [|done]. case_bool_decide; [done|]. destruct (MGet _ _ _ _) as [[m|]|]; [|done..].
    rewrite stored_fst. apply local_exec; [done|]. intros s' b [= <- _] k x Hx. simpl in Hx.
    apply lookup_delete_Some in Hx as [_ Hx]. by apply (Hl k).
Qed.

(** Calls by any callers, one after another. *)
Definition run (calls : list (Caller * op)) s : DB := foldl (fun s co => step co.1 co.2 s) s calls.

Lemma RoleIn_up user tenant s :
  RoleIn (fun _ => Up) user tenant s =
  match users s !! user with
  | None => Err ErrUserNotFound
  | Some u =>
      Ok (if bool_decide (Role u = Policy.RoleSuperAdmin) then Policy.RoleSuperAdmin
          else if bool_decide (tenant = TenantID u) then Role u
          else match user_tenants s !! (user, tenant) with Some r => m_role r | None => ""%string end)
  end.
Proof.
  unfold RoleIn, GetByID, MGet, read. destruct (users s !! user) as [u|]; [|done].
  repeat case_bool_decide; try done. by destruct (user_tenants s !! (user, tenant)).
Qed.

(** Super admin is held on the account and nowhere else.  From a database
    whose memberships carry tenant roles, after any calls of the user service by
    anyone, a user acts as a super admin in a tenant only if the account itself
    is a super admin's: no assignment, role change or account creation turns
    standing in one tenant into standing in all. *)
Theorem super_admin_is_global_only calls s user tenant :
  local_roles s ->
  RoleIn (fun _ => Up) user tenant (run calls s) = Ok Policy.RoleSuperAdmin ->
  exists u, users (run calls s) !! user = Some u /\ Role u = Policy.RoleSuperAdmin.
Proof.
  intros Hl. assert (Hr : local_roles (run calls s)).
  { unfold run. revert s Hl. induction calls as [|[c o] calls IH]; intros s Hl; [done|]. simpl.
    apply IH. by apply local_step. }
  generalize dependent (run calls s). clear s Hl calls. intros s Hr. rewrite RoleIn_up.
  destruct (users s !! user) as [u|]; [|done]. intros [= H]. exists u. split; [done|].
  case_bool_decide as Hs; [done|]. case_bool_decide; [done|].
  destruct (user_tenants s !! (user, tenant)) eqn:E; [by apply Hr in E|done].
Qed.

Lemma ListByUser_elem order user s l m :
  (forall l, order l ≡ₚ l) -> ListByUser Up order user s = Ok l ->
  m ∈ l <-> exists t name r, tenants s !! t = Some name /\ user_tenants s !! (user, t) = Some r /\
    m = mkUserTenant user t name (m_role r) false (m_created r) (m_updated r).
Proof.
  intros Ho. unfold ListByUser. simpl. intros [= <-]. rewrite Ho, list_elem_of_omap. split.
  - intros ([[u t] r] & Hin & Hm). simpl in Hm. apply elem_of_map_to_list in Hin.
    case_bool_decide; [|done]. subst u. destruct (tenants s !! t) as [name|] eqn:Et; simplify_eq/=.
    by exists t, name, r.
  - intros (t & name & r & Ht & Hr & ->). exists (user, t, r). split; [by apply elem_of_map_to_list|]. simpl.
    by rewrite bool_decide_eq_true_2, Ht by done.
Qed.

(** The tenants a user is shown are those the user can act in, as what.  A
    tenant is listed exactly when it exists and the user has a membership of it,
    and the role shown is the one a request there would act with -- the global
    role of a super admin, the account's own role at home, the membership's
    elsewhere. *)
Theorem listed_tenants_are_the_roles order user s l :
  (forall l, order l ≡ₚ l) -> ListUserTenants (fun _ => Up) order user s = Ok l ->
  (forall m, m ∈ l -> RoleIn (fun _ => Up) user (M_TenantID m) s = Ok (M_Role m)) /\
  (forall t, is_Some (tenants s !! t) -> is_Some (user_tenants s !! (user, t)) -> t ∈ (M_TenantID <$> l)).
Proof.
  intros Ho. unfold ListUserTenants, GetByID, read.
  destruct (users s !! user) as [u|] eqn:Eu; [|done].
  destruct (ListByUser Up order user s) as [ms|] eqn:El; [|done]. intros [= <-].
  pose proof (fun m => ListByUser_elem _ _ _ _ m Ho El) as Hms. split.
  - intros m Hm. apply list_elem_of_fmap in Hm as (m0 & -> & Hm). apply Hms in Hm as (t & name & r & Ht & Hr & ->).
    rewrite RoleIn_up, Eu. unfold effective. simpl. rewrite Hr. repeat case_bool_decide; done.
  - intros t [name Ht] [r Hr]. apply list_elem_of_fmap. eexists. split; [|apply list_elem_of_fmap; eexists; split;
      [reflexivity|apply Hms; by exists t, name, r]]. done.
Qed.
End Accounts.

(** ** Concrete accounts *)

Definition demo_hash (p : string) : result string string := Ok p.
Definition demo_user (id tenant role : string) : User := mkUser id tenant (id +:+ "@x.com") "h" id role true "s" 1 1.

(** Ann administers t1, Bob is a viewer of t2 lent to t1 as an editor, Root is a
    super admin homed in t1. *)
Definition demo_db : DB :=
  mkDB {["ann" := demo_user "ann" "t1" Policy.RoleAdmin; "bob" := demo_user "bob" "t2" Policy.RoleViewer;
         "root" := demo_user "root" "t1" Policy.RoleSuperAdmin]}
    {[("ann", "t1") := mkMRow Policy.RoleAdmin 1 1; ("bob", "t2") := mkMRow Policy.RoleViewer 1 1;
      ("bob", "t1") := mkMRow Policy.RoleEditor 1 1; ("root", "t1") := mkMRow Policy.RoleAdmin 1 1]}
    {["t1" := "one"; "t2" := "two"]}%string.

Definition ann : Caller := mkCaller "ann" Policy.RoleAdmin "t1".
Definition ups : nat -> fault := fun _ => Up.

Lemma tenant_admin_is_confined_witness :
  users (step demo_hash true ann (OTwoFactor ups 5 "bob" false) demo_db) !! "bob"%string =
  Some (demo_user "bob" "t2" Policy.RoleViewer).
Proof.
  apply (cf_users _ _ _ (tenant_admin_is_confined demo_hash true ann (OTwoFactor ups 5 "bob" false) demo_db
    ltac:(done))); [reflexivity|left; vm_compute; discriminate].
Defined.

Lemma demo_local : local_roles demo_db.
Proof.
  intros k r Hr. unfold demo_db in Hr. simpl in Hr.
  repeat (apply lookup_insert_Some in Hr as [[_ <-]|[_ Hr]]; [done|]). apply lookup_singleton_Some in Hr as [_ <-]. done.
Qed.

Definition root : Caller := mkCaller "root" Policy.RoleSuperAdmin "t1".

Lemma super_admin_is_global_only_witness :
  let s := run demo_hash true [(root, OUpdateRole ups 5 5 "ann" Policy.RoleSuperAdmin)] demo_db in
  exists u, users s !! "ann"%string = Some u /\ Role u = Policy.RoleSuperAdmin.
Proof.
  apply (super_admin_is_global_only demo_hash true [(root, OUpdateRole ups 5 5 "ann" Policy.RoleSuperAdmin)] demo_db
    "ann" "t2" demo_local). vm_compute. reflexivity.
Defined.

Lemma listed_tenants_are_the_roles_witness :
  exists l, ListUserTenants ups (fun l => l) "bob" demo_db = Ok l /\ "t1"%string ∈ (M_TenantID <$> l).
Proof.
  eexists. split; [vm_compute; reflexivity|].
  refine (proj2 (listed_tenants_are_the_roles (fun l => l) "bob" demo_db _ (fun l => Permutation_refl l) _) "t1"%string _ _);
    [vm_compute; reflexivity|by exists "one"%string|by exists (mkMRow Policy.RoleEditor 1 1)].
Defined.

(** An account created without a role acts as nobody, yet the tenant's list of
    users shows an administrator: its home membership was written with the role
    a super admin's gets. *)
Theorem unspecified_role_is_listed_as_admin :
  let s := step demo_hash true ann (OCreate ups "eve" 5 "eve@y.com" "twelve chars" "Eve" roleUnspecified) demo_db in
  RoleIn ups "eve" "t1" s = Ok roleUnspecified /\ Policy.roleLevel roleUnspecified = None /\
  exists u, u ∈ ListByTenantID "t1" s /\ ID u = "eve"%string /\ Role u = Policy.RoleAdmin.
Proof.
  split_and!; [vm_compute; reflexivity|reflexivity|].
  eexists (mkUser "eve" "t1" "eve@y.com" "twelve chars" "Eve" Policy.RoleAdmin false "" 5 5). split; [|done].
  apply (bool_decide_unpack _). vm_compute. exact I.
Qed.
End Accounts.
