(* ===== verification/ApiKeys.v ===== *)
(** * API keys

    Models the key store of
    [internal/auth/repositories/stores/postgres/api_key_store.go] and
    [internal/auth/usecases/api_key_usecase.go]: minting, editing, revoking and
    verifying keys, with the cache of verified keys through its interface.
    SHA-256 and the JSON codec are parameters; a call takes the faults of its
    database calls and its clock readings in order. *)
From S2P Require Import Prelude GoStrings Cache Policy.
From Stdlib Require Import Ascii.

Module ApiKeys.
Import GoStrings.
Local Open Scope Z_scope.

Record ApiKey := mkApiKey {
  ID : string;
  TenantID : string;
  Name : string;
  KeyHash : string;
  Prefix : string;
  Scopes : list string;
  LastUsedAt : option Z;
  ExpiresAt : option Z;
  IsEnabled : bool;
  CreatedAt : Z;
  UpdatedAt : Z
}.

(** A row of [api_keys] besides its id; [None] is SQL NULL. *)
Record Row := mkRow {
  tenant_id : string;
  name : string;
  key_hash : string;
  prefix_ : string;
  scopes : option string;
  last_used_at : option Z;
  expires_at : option Z;
  is_enabled : bool;
  created_at : Z;
  updated_at : Z
}.

Abbreviation Table := (gmap string Row).

Inductive keyError :=
| ErrApiKeyNotFound
| KeyDisabled
| KeyExpired
| NoRow
| StoreFailed (e : string)
| EntropyFailed (e : string).

Definition apiKeyCacheTTL : Z := 5 * Second.
Definition apiKeyCacheMaxEntries : Z := 4096.
Definition lastUsedResolution : Z := Minute.

Section ApiKeys.
Context {C : Type} `{!TTLCache.CacheSpec C ApiKey}.
Context (Sha256Hex : string -> string).                            (* hex of sha256 *)
Context (Marshal : list string -> result string string).           (* json.Marshal *)
Context (Unmarshal : string -> result string (list string)).       (* json.Unmarshal *)

(** ** The store *)

Definition encodeScopes (l : list string) : result string string := Marshal (Policy.NormalizeScopes l).

Definition decodeScopes (stored : option string) : list string :=
  match stored with
  | None => Policy.NormalizeScopes []
  | Some s =>
      if bool_decide (TrimSpace s = ""%string) then Policy.NormalizeScopes []
      else
        match Unmarshal s with
        | Err _ => Policy.NormalizeScopes []
        | Ok l => Policy.NormalizeScopes l
        end
  end.

Definition scanApiKey (id : string) (r : Row) : ApiKey :=
  mkApiKey id (tenant_id r) (name r) (key_hash r) (prefix_ r) (decodeScopes (scopes r)) (last_used_at r)
    (expires_at r) (is_enabled r) (created_at r) (updated_at r).

Definition read_one (f : fault) (o : option ApiKey) : result keyError ApiKey :=
  match f with
  | Up => match o with Some k => Ok k | None => Err NoRow end
  | Down => Err (StoreFailed errNotConnected)
  | Refused e | Lost e => Err (StoreFailed e)
  end.

(** [create_api_key.sql]. *)
Definition Create (f : fault) (k : ApiKey) (t : Table) : Table * result string unit :=
  match encodeScopes (Scopes k) with
  | Err e => (t, Err (match f with Down => errNotConnected | _ => e end))
  | Ok enc =>
      exec f (fun t =>
        if bool_decide (is_Some (t !! ID k)) then Err "duplicate key"%string
        else Ok (<[ID k := mkRow (TenantID k) (Name k) (KeyHash k) (Prefix k) (Some enc) None (ExpiresAt k)
                             (IsEnabled k) (CreatedAt k) (UpdatedAt k)]> t, tt)) t
  end.

Definition Delete (f : fault) (id tenant : string) (t : Table) : Table * result string unit :=
  exec f (fun t => Ok (match t !! id with
                       | Some r => if bool_decide (tenant_id r = tenant) then delete id t else t
                       | None => t
                       end, tt)) t.

(** [get_api_key_by_hash.sql], [get_api_key_by_id.sql]. *)
Definition GetByHash (f : fault) (hash : string) (t : Table) : result keyError ApiKey :=
  read_one f ((fun p => scanApiKey p.1 p.2) <$>
    head (filter (fun p : string * Row => key_hash p.2 = hash) (map_to_list t))).

Definition GetByID (f : fault) (id tenant : string) (t : Table) : result keyError ApiKey :=
  read_one f (match t !! id with
              | Some r => if bool_decide (tenant_id r = tenant) then Some (scanApiKey id r) else None
              | None => None
              end).

Definition edited (nm enc : string) (now : Z) (r : Row) : Row :=
  mkRow (tenant_id r) nm (key_hash r) (prefix_ r) (Some enc) (last_used_at r) (expires_at r) (is_enabled r)
    (created_at r) now.
Definition with_status (on : bool) (now : Z) (r : Row) : Row :=
  mkRow (tenant_id r) (name r) (key_hash r) (prefix_ r) (scopes r) (last_used_at r) (expires_at r) on
    (created_at r) now.
Definition with_last_used (now : Z) (r : Row) : Row :=
  mkRow (tenant_id r) (name r) (key_hash r) (prefix_ r) (scopes r) (Some now) (expires_at r) (is_enabled r)
    (created_at r) now.

Definition alter_own (g : Row -> Row) (id tenant : string) (t : Table) : Table * Z :=
  match t !! id with
  | Some r => if bool_decide (tenant_id r = tenant) then (<[id := g r]> t, 1) else (t, 0)
  | None => (t, 0)
  end.

(** [update_api_key.sql]; no row affected is an error. *)
Definition Update (f : fault) (now : Z) (id tenant nm : string) (l : list string) (t : Table) :
    Table * result keyError unit :=
  match encodeScopes l with
  | Err e => (t, Err (StoreFailed (match f with Down => errNotConnected | _ => e end)))
  | Ok enc =>
      match exec f (fun t => Ok (alter_own (edited nm enc now) id tenant t)) t with
      | (t', Err e) => (t', Err (StoreFailed e))
      | (t', Ok n) => if n =? 0 then (t', Err ErrApiKeyNotFound) else (t', Ok tt)
      end
  end.

Definition UpdateStatus (f : fault) (now : Z) (id tenant : string) (on : bool) (t : Table) :
    Table * result string unit :=
  exec f (fun t => Ok ((alter_own (with_status on now) id tenant t).1, tt)) t.

Definition UpdateLastUsed (f : fault) (now : Z) (id : string) (t : Table) : Table * result string unit :=
  exec f (fun t => Ok (alter (with_last_used now) id t, tt)) t.

(** ** The use case *)

Record St := mkSt {
  db : Table;
  verified : C;
  lastUsedFlush : gmap string Z
}.

Definition set_db (t : Table) (s : St) : St := mkSt t (verified s) (lastUsedFlush s).
Definition set_verified (c : C) (s : St) : St := mkSt (db s) c (lastUsedFlush s).
Definition set_flush (m : gmap string Z) (s : St) : St := mkSt (db s) (verified s) m.

Record NewApiKey := mkNewApiKey {
  N_TenantID : string;
  N_Name : string;
  N_Scopes : list string;
  N_ExpiresAt : option Z
}.

(** [random] is the hex of the 24 random bytes, or why they could not be read. *)
Definition CreateApiKey (f : fault) (random : result string string) (uuid : string) (now1 now2 : Z)
    (req : NewApiKey) (s : St) : St * result keyError (ApiKey * string) :=
  match random with
  | Err e => (s, Err (EntropyFailed e))
  | Ok hex =>
      let plain := ("pm_" +:+ hex)%string in
      let k := mkApiKey uuid (N_TenantID req) (N_Name req) (Sha256Hex plain) (String.substring 0 7 plain)
                 (Policy.NormalizeScopes (N_Scopes req)) None (N_ExpiresAt req) true now1 now2 in
      match Create f k (db s) with
      | (t, Ok _) => (set_db t s, Ok (k, plain))
      | (t, Err e) => (set_db t s, Err (StoreFailed e))
      end
  end.

(** [hashOf]; [""] when it cannot be read. *)
Definition hashOf (f : fault) (id tenant : string) (s : St) : string :=
  match GetByID f id tenant (db s) with
  | Ok k => KeyHash k
  | Err _ => ""%string
  end.

Definition forget (hash : string) (s : St) : St :=
  if bool_decide (hash = ""%string) then s
  else set_verified (TTLCache.cs_delete (verified s) hash) s.

Definition UpdateApiKey (f1 f2 : fault) (now1 now2 : Z) (id tenant nm : string) (l : list string) (s : St) :
    St * result keyError ApiKey :=
  match GetByID f1 id tenant (db s) with
  | Err e => (s, Err e)
  | Ok k =>
      let granted := Policy.NormalizeScopes l in
      match Update f2 now1 id tenant nm granted (db s) with
      | (t, Err e) => (set_db t s, Err e)
      | (t, Ok _) =>
          (forget (KeyHash k) (set_db t s),
           Ok (mkApiKey (ID k) (TenantID k) nm (KeyHash k) (Prefix k) granted (LastUsedAt k) (ExpiresAt k)
                 (IsEnabled k) (CreatedAt k) now2))
      end
  end.

Definition DeleteApiKey (f1 f2 : fault) (id tenant : string) (s : St) : St * result keyError unit :=
  let hash := hashOf f1 id tenant s in
  match Delete f2 id tenant (db s) with
  | (t, Err e) => (set_db t s, Err (StoreFailed e))
  | (t, Ok _) => (forget hash (set_db t s), Ok tt)
  end.

(** [DisableApiKey] and [EnableApiKey]. *)
Definition SetStatus (on : bool) (f1 f2 : fault) (now : Z) (id tenant : string) (s : St) : St * result keyError unit :=
  match UpdateStatus f1 now id tenant on (db s) with
  | (t, Err e) => (set_db t s, Err (StoreFailed e))
  | (t, Ok _) => (forget (hashOf f2 id tenant (set_db t s)) (set_db t s), Ok tt)
  end.
Definition DisableApiKey := SetStatus false.
Definition EnableApiKey := SetStatus true.

Definition pruneLastUsedLocked (now : Z) (m : gmap string Z) : gmap string Z :=
  filter (fun p => (lastUsedResolution <? time_sub now p.2) = false) m.

Definition shouldFlushLastUsed (now : Z) (id : string) (s : St) : bool * St :=
  if match lastUsedFlush s !! id with
     | Some last => time_sub now last <? lastUsedResolution
     | None => false
     end
  then (false, s)
  else (true, set_flush (<[id := now]> (pruneLastUsedLocked now (lastUsedFlush s))) s).

(** A failed write is only logged. *)
Definition touchLastUsed (f : fault) (now1 now2 : Z) (id : string) (s : St) : St :=
  match shouldFlushLastUsed now1 id s with
  | (false, s') => s'
  | (true, s') => set_db (UpdateLastUsed f now2 id (db s')).1 s'
  end.

Definition expired_hit (k : ApiKey) (now : Z) : bool :=
  match ExpiresAt k with Some e => negb (time_after e now) | None => false end.
Definition expired_read (k : ApiKey) (now : Z) : bool :=
  match ExpiresAt k with Some e => time_before e now | None => false end.

(** The cached answer, if it has not expired; an expired one is dropped. *)
Definition cachedKey (clk : nat -> Z) (hash : string) (s : St) : option ApiKey * St :=
  let '(hit, c) := TTLCache.cs_get (verified s) hash (clk 0%nat) in
  let s1 := set_verified c s in
  match hit with
  | Some k =>
      if expired_hit k (clk 1%nat) then (None, set_verified (TTLCache.cs_delete c hash) s1) else (Some k, s1)
  | None => (None, s1)
  end.

(** The checks of a key read from the database. *)
Definition checkKey (clk : nat -> Z) (k : ApiKey) : result keyError ApiKey :=
  if negb (IsEnabled k) then Err KeyDisabled
  else if expired_read k (clk 2%nat) then Err KeyExpired
  else Ok k.

Definition rememberKey (clk : nat -> Z) (hash : string) (k : ApiKey) (s : St) : St :=
  set_verified (TTLCache.cs_put (verified s) hash k (clk 3%nat) (clk 4%nat)) s.

Definition VerifyApiKey (f1 f2 : fault) (clk : nat -> Z) (key : string) (s : St) : St * result keyError ApiKey :=
  let hash := Sha256Hex key in
  match cachedKey clk hash s with
  | (Some k, s1) => (touchLastUsed f2 (clk 5%nat) (clk 6%nat) (ID k) s1, Ok k)
  | (None, s1) =>
      match GetByHash f1 hash (db s1) with
      | Err e => (s1, Err e)
      | Ok k =>
          match checkKey clk k with
          | Err e => (s1, Err e)
          | Ok k => (touchLastUsed f2 (clk 5%nat) (clk 6%nat) (ID k) (rememberKey clk hash k s1), Ok k)
          end
      end
  end.

(** ** What a verified key was *)

(** [k] is how the table has a key of this hash, and the key is usable. *)
Definition live (t : Table) (hash : string) (k : ApiKey) : Prop :=
  exists id r, t !! id = Some r /\ key_hash r = hash /\ is_enabled r = true /\ k = scanApiKey id r.

Lemma read_one_ok f o k : read_one f o = Ok k -> f = Up /\ o = Some k.
Proof. destruct f; try done. destruct o; intros; by simplify_eq/=. Qed.

Lemma GetByHash_ok f hash t k :
  GetByHash f hash t = Ok k -> exists id r, t !! id = Some r /\ key_hash r = hash /\ k = scanApiKey id r.
Proof.
  intros Hq. apply read_one_ok in Hq as [_ Hq].
  destruct (filter _ _) as [|[id r] l] eqn:E; [done|]. simpl in Hq. injection Hq as <-.
  assert (Hin : (id, r) ∈ (id, r) :: l) by by left.
  rewrite <- E in Hin. apply list_elem_of_filter in Hin as [Hh Hin]. apply elem_of_map_to_list in Hin.
  by exists id, r.
Qed.

Lemma touch_verified f n1 n2 id s : verified (touchLastUsed f n1 n2 id s) = verified s.
Proof. unfold touchLastUsed, shouldFlushLastUsed. by repeat case_match; simplify_eq. Qed.

Lemma forget_db hash s : db (forget hash s) = db s.
Proof. unfold forget. by case_bool_decide. Qed.

(** What the process has read, each time with the clock the entry was cached
    at, and what it remembers. *)
Definition remembers (log : list (Z * Table)) (s : St) : Prop :=
  TTLCache.cs_ttl (verified s) = apiKeyCacheTTL /\
  TTLCache.grounded (fun hash k t0 => exists t, (t0, t) ∈ log /\ live t hash k) (verified s).

(** The calls of one process, and other processes' changes to the table. *)
Inductive call :=
| CVerify (f1 f2 : fault) (clk : nat -> Z) (key : string)
| CCreate (f : fault) (random : result string string) (uuid : string) (now1 now2 : Z) (req : NewApiKey)
| CUpdate (f1 f2 : fault) (now1 now2 : Z) (id tenant nm : string) (l : list string)
| CDelete (f1 f2 : fault) (id tenant : string)
| CStatus (on : bool) (f1 f2 : fault) (now : Z) (id tenant : string)
| CForeign (g : Table -> Table).

Definition step (c : call) (s : St) : St :=
  match c with
  | CVerify f1 f2 clk key => (VerifyApiKey f1 f2 clk key s).1
  | CCreate f random uuid n1 n2 req => (CreateApiKey f random uuid n1 n2 req s).1
  | CUpdate f1 f2 n1 n2 id tenant nm l => (UpdateApiKey f1 f2 n1 n2 id tenant nm l s).1
  | CDelete f1 f2 id tenant => (DeleteApiKey f1 f2 id tenant s).1
  | CStatus on f1 f2 now id tenant => (SetStatus on f1 f2 now id tenant s).1
  | CForeign g => set_db (g (db s)) s
  end.

(** The tables a run read keys from, each with the time it was remembered. *)
Fixpoint reads (calls : list call) (s : St) : list (Z * Table) :=
  match calls with
  | [] => []
  | c :: rest =>
      (match c with CVerify _ _ clk _ => [(clk 4%nat, db s)] | _ => [] end) ++ reads rest (step c s)
  end.

Definition run (calls : list call) (s : St) : St := foldl (fun s c => step c s) s calls.

Lemma keys_remembers_weaken log log' s : (forall x, x ∈ log -> x ∈ log') -> remembers log s -> remembers log' s.
Proof.
  intros Hl [Ht Hg]. split; [done|]. eapply TTLCache.grounded_mono; [|exact Hg].
  intros k v t (tb & ? & ?). eauto.
Qed.

Lemma keys_remembers_same log s s' : verified s' = verified s -> remembers log s -> remembers log s'.
Proof. unfold remembers. by intros ->. Qed.

Lemma remembers_forget log hash s : remembers log s -> remembers log (forget hash s).
Proof.
  intros [Ht Hg]. unfold forget. case_bool_decide; [done|]. split; simpl.
  - by rewrite TTLCache.cs_delete_ttl.
  - by apply TTLCache.grounded_delete.
Qed.

Lemma cachedKey_remembers log clk hash s o s1 :
  remembers log s -> cachedKey clk hash s = (o, s1) ->
  remembers log s1 /\ db s1 = db s /\
  (forall k, o = Some k -> expired_hit k (clk 1%nat) = false /\
     exists t0 t, (t0, t) ∈ log /\ live t hash k /\ clk 0%nat <= t0 + apiKeyCacheTTL).
Proof.
  intros [Ht Hg]. unfold cachedKey. destruct (TTLCache.cs_get (verified s) hash (clk 0%nat)) as [hit c] eqn:E.
  assert (Hc : c = (TTLCache.cs_get (verified s) hash (clk 0%nat)).2) by by rewrite E.
  assert (Hr : remembers log (set_verified c s)).
  { split; simpl; rewrite Hc; [by rewrite TTLCache.cs_get_ttl|by apply TTLCache.grounded_get]. }
  destruct hit as [k|]; [|intros [= <- <-]; split_and!; done].
  destruct (expired_hit k (clk 1%nat)) eqn:Ex; intros [= <- <-].
  - split_and!; [|done|done]. destruct Hr as [Hr1 Hr2]. split; simpl.
    + by rewrite TTLCache.cs_delete_ttl.
    + by apply TTLCache.grounded_delete.
  - split_and!; [done|done|]. intros k' [= <-]. split; [done|].
    destruct (TTLCache.grounded_hit _ _ hash (clk 0%nat) k Hg) as (t0 & (t & Hl & Hk) & Hle); [by rewrite E|].
    rewrite Ht in Hle. eauto.
Qed.

Lemma verify_remembers log f1 f2 clk key s :
  remembers log s -> remembers ((clk 4%nat, db s) :: log) (VerifyApiKey f1 f2 clk key s).1.
Proof.
  intros Hr. unfold VerifyApiKey. destruct (cachedKey clk (Sha256Hex key) s) as [o s1] eqn:E.
  destruct (cachedKey_remembers _ _ _ _ _ _ Hr E) as (Hr1 & Hdb & _).
  apply (keys_remembers_weaken _ ((clk 4%nat, db s) :: log)) in Hr1; [|by intros x; right].
  destruct o as [k|]; [by eapply keys_remembers_same; [apply touch_verified|]|].
  destruct (GetByHash f1 (Sha256Hex key) (db s1)) as [k|] eqn:Eg; [|done].
  unfold checkKey. destruct (IsEnabled k) eqn:Een; [|done]. destruct (expired_read k (clk 2%nat)); [done|]. simpl.
  eapply keys_remembers_same; [apply touch_verified|]. destruct Hr1 as [Ht Hg]. split; simpl.
  - by rewrite TTLCache.cs_put_ttl.
  - apply TTLCache.grounded_put; [|done]. exists (db s). split; [by left|].
    apply GetByHash_ok in Eg as (id & r & Hid & Hh & ->). rewrite Hdb in Hid. by exists id, r.
Qed.

Lemma keys_step_remembers log c s :
  remembers log s ->
  remembers ((match c with CVerify _ _ clk _ => [(clk 4%nat, db s)] | _ => [] end) ++ log) (step c s).
Proof.
  intros Hr. destruct c as [f1 f2 clk key|f random uuid n1 n2 req|f1 f2 n1 n2 id tenant nm l|f1 f2 id tenant|on f1 f2 now id tenant|g];
    simpl; [by apply verify_remembers|..|done].
  - unfold CreateApiKey. destruct random; [|done]. by destruct (Create _ _ _) as [t [?|?]].
  - unfold UpdateApiKey. destruct (GetByID _ _ _ _); [|done]. destruct (Update _ _ _ _ _ _ _) as [t [?|?]]; [|done].
    by apply remembers_forget.
  - unfold DeleteApiKey. destruct (Delete _ _ _ _) as [t [?|?]]; [|done]. by apply remembers_forget.
  - unfold SetStatus. destruct (UpdateStatus _ _ _ _ _ _) as [t [?|?]]; [|done]. by apply remembers_forget.
Qed.

Lemma keys_run_remembers calls : forall log s, remembers log s -> remembers (reads calls s ++ log) (run calls s).
Proof.
  induction calls as [|c calls IH]; intros log s Hr; [done|]. simpl.
  eapply keys_remembers_weaken; [|by apply IH, keys_step_remembers]. intros x. rewrite !elem_of_app. tauto.
Qed.

(** A key is accepted for what the database said at most five seconds ago.
    Whatever calls this process served before -- verifications, edits,
    revocations, with whatever failures -- and whatever other processes did to
    the table in between, a key that verifies is one the table had enabled,
    under the hash of the key presented and with exactly the tenant and scopes
    now granted, either in this very call or in a read no older than the cache's
    five seconds; and it has not expired. *)
Theorem verified_key_is_recent calls s0 f1 f2 clk key k :
  TTLCache.cs_contents (verified s0) = ∅ -> TTLCache.cs_ttl (verified s0) = apiKeyCacheTTL ->
  (VerifyApiKey f1 f2 clk key (run calls s0)).2 = Ok k ->
  (exists t0 t, live t (Sha256Hex key) k /\
     (t = db (run calls s0) \/ ((t0, t) ∈ reads calls s0 /\ clk 0%nat <= t0 + apiKeyCacheTTL))) /\
  (forall e, ExpiresAt k = Some e -> clk 1%nat < e \/ clk 2%nat <= e).
Proof.
  intros Hempty Httl Hv.
  assert (Hr : remembers (reads calls s0) (run calls s0)).
  { rewrite <- (app_nil_r (reads calls s0)). apply keys_run_remembers. split; [done|].
    intros h v e. rewrite Hempty, lookup_empty. done. }
  generalize dependent (reads calls s0). generalize dependent (run calls s0). intros s Hv log Hr.
  unfold VerifyApiKey in Hv. destruct (cachedKey clk (Sha256Hex key) s) as [o s1] eqn:E.
  destruct (cachedKey_remembers _ _ _ _ _ _ Hr E) as (_ & Hdb & Hhit).
  destruct o as [k'|].
  - injection Hv as <-. destruct (Hhit k' eq_refl) as (Hex & t0 & t & Hl & Hk & Hle). split; [by eauto 10|].
    intros e He. left. unfold expired_hit in Hex. rewrite He in Hex. unfold time_after in Hex. b2p. lia.
  - destruct (GetByHash f1 (Sha256Hex key) (db s1)) as [k'|] eqn:Eg; [|done].
    unfold checkKey in Hv. destruct (IsEnabled k') eqn:Een; [|done]. simpl in Hv.
    destruct (expired_read k' (clk 2%nat)) eqn:Ex; [done|]. injection Hv as <-.
    apply GetByHash_ok in Eg as (id & r & Hid & Hh & ->). split.
    + exists 0, (db s). rewrite Hdb in Hid. split; [by exists id, r|by left].
    + intros e He. right. unfold expired_read in Ex. rewrite He in Ex. unfold time_before in Ex. b2p. lia.
Qed.

(** ** Revocation *)

Lemma verify_refused f1 f2 clk key s :
  (forall now, (TTLCache.cs_get (verified s) (Sha256Hex key) now).1 = None) ->
  (forall id r, db s !! id = Some r -> key_hash r = Sha256Hex key -> is_enabled r = false) ->
  exists e, (VerifyApiKey f1 f2 clk key s).2 = Err e.
Proof.
  intros Hc Hd. unfold VerifyApiKey, cachedKey.
  destruct (TTLCache.cs_get (verified s) (Sha256Hex key) (clk 0%nat)) as [hit c] eqn:E.
  assert (hit = None) as -> by (rewrite <- (Hc (clk 0%nat)), E; done). simpl.
  destruct (GetByHash f1 (Sha256Hex key) (db s)) as [k|] eqn:Eg; [|by eauto].
  apply GetByHash_ok in Eg as (id & r & Hid & Hh & ->). unfold checkKey. simpl. rewrite (Hd id r Hid Hh). simpl. eauto.
Qed.

Lemma forget_no_hit hash s now :
  hash <> ""%string -> (TTLCache.cs_get (verified (forget hash s)) hash now).1 = None.
Proof. intros Hh. unfold forget. rewrite bool_decide_eq_false_2 by done. apply TTLCache.delete_no_hit. Qed.

(** A key revoked through this process stops working at once.  When the
    disabling or deletion of a key has returned, the next request presenting the
    key is refused, whatever the cache held and whatever happens to the database
    call that looks it up. *)
Theorem revocation_is_immediate now id r s key f1 f2 clk :
  db s !! id = Some r -> key_hash r = Sha256Hex key -> Sha256Hex key <> ""%string ->
  (forall id' r', db s !! id' = Some r' -> key_hash r' = Sha256Hex key -> id' = id) ->
  (exists e, (VerifyApiKey f1 f2 clk key (DisableApiKey Up Up now id (tenant_id r) s).1).2 = Err e) /\
  (exists e, (VerifyApiKey f1 f2 clk key (DeleteApiKey Up Up id (tenant_id r) s).1).2 = Err e).
Proof.
  intros Hid Hh Hne Huniq. split.
  - unfold DisableApiKey, SetStatus, UpdateStatus, alter_own. simpl. rewrite Hid, bool_decide_eq_true_2 by done. simpl.
    unfold hashOf, GetByID. simpl. rewrite lookup_insert_eq. simpl. rewrite bool_decide_eq_true_2 by done. simpl.
    rewrite Hh. apply verify_refused; [intros n; by apply forget_no_hit|].
    rewrite forget_db. simpl. intros id' r' Hr' Hh'. apply lookup_insert_Some in Hr' as [[_ <-]|[Hn Hr']]; [done|].
    by destruct Hn; symmetry; eapply Huniq.
  - unfold DeleteApiKey, Delete, hashOf, GetByID. simpl. rewrite Hid, bool_decide_eq_true_2 by done. simpl.
    rewrite Hh. apply verify_refused; [intros n; by apply forget_no_hit|].
    rewrite forget_db. simpl. intros id' r' Hr' Hh'. apply lookup_delete_Some in Hr' as [Hn Hr'].
    by destruct Hn; symmetry; eapply Huniq.
Qed.

(** ** A grant survives storage *)

(** The JSON codec: a list of known scopes it writes it reads back, and it writes
    no blank. *)
Definition codec : Prop :=
  forall l, (forall x, x ∈ l -> x ∈ Policy.AllScopes) -> exists enc, Marshal l = Ok enc /\ Unmarshal enc = Ok l /\ TrimSpace enc <> ""%string.

(** A key keeps exactly the grant it was given.  A key minted with any list
    of requested scopes reads back from the database with the known ones of
    them, once each, or with sending alone when there is none -- the same list
    the caller was shown; and so does an edited key. *)
Theorem grant_roundtrip random uuid n1 n2 req s k plain :
  codec ->
  (CreateApiKey Up random uuid n1 n2 req s).2 = Ok (k, plain) ->
  GetByID Up uuid (N_TenantID req) (db (CreateApiKey Up random uuid n1 n2 req s).1) =
    Ok (mkApiKey uuid (N_TenantID req) (N_Name req) (Sha256Hex plain) (Prefix k) (Policy.NormalizeScopes (N_Scopes req))
          None (N_ExpiresAt req) true n1 n2) /\
  k = mkApiKey uuid (N_TenantID req) (N_Name req) (Sha256Hex plain) (Prefix k)
        (Policy.NormalizeScopes (N_Scopes req)) None (N_ExpiresAt req) true n1 n2.
Proof.
  intros Hc. unfold CreateApiKey. destruct random as [hex|]; [|done]. unfold Create, encodeScopes. simpl.
  rewrite Policy.NormalizeScopes_idem. destruct (Hc (Policy.NormalizeScopes (N_Scopes req))) as (enc & He & Hu & Ht).
  { intros x Hx. destruct (Policy.NormalizeScopes_spec (N_Scopes req)) as (_ & _ & Hs).
    apply Hs in Hx as [[_ ?]|[_ ->]]; [done|by left]. }
  rewrite He. simpl. case_bool_decide; [done|]. simpl. intros [= <- <-]. split; [|done].
  unfold GetByID. rewrite lookup_insert_eq. simpl. rewrite bool_decide_eq_true_2 by done. simpl.
  unfold scanApiKey, decodeScopes. simpl. rewrite bool_decide_eq_false_2 by done.
  by rewrite Hu, Policy.NormalizeScopes_idem.
Qed.
End ApiKeys.

(** ** Concrete keys *)

#[local] Existing Instance TTLCache.ttl_cache_spec.

Definition demo_sha (s : string) : string := ("#" +:+ s)%string.
Definition demo_marshal (l : list string) : result string string := Ok (String "=" (Join l ",")).
Definition demo_unmarshal (s : string) : result string (list string) :=
  match s with
  | String _ "" => Ok []
  | String _ r => Ok (Split r ","%char)
  | "" => Err "unexpected end"%string
  end.

Definition demo_row : Row :=
  mkRow "t1" "ci" (demo_sha "pm_secret") "pm_secr" (Some "=email:send"%string) None None true 1 1.
Definition start : St (C := TTLCache.t ApiKey) :=
  mkSt {["k1"%string := demo_row]} (TTLCache.NewWithLimit apiKeyCacheTTL apiKeyCacheMaxEntries) ∅.
Definition at_ (t : Z) : nat -> Z := fun _ => t.

Abbreviation verify := (VerifyApiKey (C := TTLCache.t ApiKey) demo_sha demo_unmarshal).

Lemma verified_key_is_recent_witness :
  let calls := [CVerify Up Up (at_ 10) "pm_secret"; CForeign (fun _ => ∅)] in
  exists k t0 t, (verify Up Up (at_ 20) "pm_secret" (run demo_sha demo_marshal demo_unmarshal calls start)).2 = Ok k /\
    live demo_unmarshal t (demo_sha "pm_secret") k /\
    (t = ∅ \/ ((t0, t) ∈ reads demo_sha demo_marshal demo_unmarshal calls start /\ 20 <= t0 + apiKeyCacheTTL)).
Proof.
  intros calls.
  destruct (verified_key_is_recent demo_sha demo_marshal demo_unmarshal calls start Up Up (at_ 20) "pm_secret"
    (scanApiKey demo_unmarshal "k1" demo_row)) as [(t0 & t & Hl & Ht) _];
    [vm_compute; reflexivity|reflexivity|vm_compute; reflexivity|].
  exists (scanApiKey demo_unmarshal "k1" demo_row), t0, t. split; [vm_compute; reflexivity|]. split; [exact Hl|exact Ht].
Defined.

Definition used_row : Row :=
  mkRow "t1" "ci" (demo_sha "pm_secret") "pm_secr" (Some "=email:send"%string) (Some 10) None true 1 10.

Lemma revocation_is_immediate_witness :
  exists e, (verify Up Up (at_ 11) "pm_secret"
    (DisableApiKey demo_unmarshal Up Up 11 "k1" "t1" (verify Up Up (at_ 10) "pm_secret" start).1).1).2 = Err e.
Proof.
  assert (E : db (verify Up Up (at_ 10) "pm_secret" start).1 = {["k1"%string := used_row]}) by (vm_compute; reflexivity).
  refine (proj1 (revocation_is_immediate demo_sha demo_unmarshal 11 "k1" used_row
    (verify Up Up (at_ 10) "pm_secret" start).1 "pm_secret" Up Up (at_ 11) _ _ _ _));
    [vm_compute; reflexivity|reflexivity|discriminate|].
  intros id' r' Hr' _. rewrite E in Hr'. by apply lookup_singleton_Some in Hr' as [<- _].
Defined.

Lemma demo_key_codec : codec demo_marshal demo_unmarshal.
Proof.
  intros l Hl. eexists. split; [reflexivity|].
  assert (Ht : forall r, TrimSpace (String "="%char r) <> ""%string).
  { intros r. unfold TrimSpace, TrimFunc. simpl. by destruct (TrimRightFunc is_space r). }
  split; [|apply Ht]. destruct l as [|a l]; [done|].
  assert (Hf : forallb (fun x => negb (bool_decide (x = ""%string)) && str_all (fun c => negb (bool_decide (c = ","%char))) x)
                 Policy.AllScopes = true) by (vm_compute; reflexivity).
  rewrite forallb_forall in Hf.
  assert (Hx : forall x, x ∈ a :: l -> x <> ""%string /\ str_all (fun c => negb (bool_decide (c = ","%char))) x = true).
  { intros x Hx. apply Hl, list_elem_of_In, Hf in Hx. b2p. split; [|done]. by case_bool_decide. }
  unfold demo_unmarshal. destruct (Join (a :: l) ",") eqn:E.
  - exfalso. destruct (Hx a ltac:(by left)) as [Ha _]. apply Ha. unfold Join in E. destruct a; [done|]. by destruct l.
  - rewrite <- E. f_equal. apply Split_Join; [done|]. intros x H. by apply Hx.
Qed.

Lemma grant_roundtrip_witness :
  let req := mkNewApiKey "t1" "ci" ["templates:read"; "bogus"; "templates:read"]%string None in
  exists k, (CreateApiKey demo_sha demo_marshal Up (Ok "00") "k2" 5 5 req start).2 = Ok (k, "pm_00"%string) /\
    k = mkApiKey "k2" "t1" "ci" (demo_sha "pm_00") (Prefix k) ["templates:read"%string] None None true 5 5.
Proof.
  intros req. eexists. split; [vm_compute; reflexivity|].
  refine (proj2 (grant_roundtrip demo_sha demo_marshal demo_unmarshal (Ok "00"%string) "k2" 5 5 req start _ "pm_00"
    demo_key_codec _)). vm_compute. reflexivity.
Defined.

(** A verification already under way outlives a revocation.  A request that
    has read its key from the database but not yet remembered it, and a
    revocation of that key completed meanwhile by the same process, leave the
    revoked key in the cache: requests presenting it are accepted for the
    cache's five seconds although the database has it disabled. *)
Theorem revoked_key_survives_a_race :
  let hash := demo_sha "pm_secret" in
  (* the request misses the cache and reads its key *)
  let '(miss, s1) := cachedKey (at_ 10) hash start in
  let row := GetByHash demo_unmarshal Up hash (db s1) in
  (* the same process disables the key *)
  let '(s2, done_) := DisableApiKey demo_unmarshal Up Up 11 "k1" "t1" s1 in
  (* the request goes on *)
  exists k,
    miss = None /\ row = Ok k /\ checkKey (at_ 12) k = Ok k /\ done_ = Ok tt /\
    let s3 := rememberKey (at_ 12) hash k s2 in
    (exists r, db s3 !! "k1"%string = Some r /\ is_enabled r = false) /\
    (verify Up Up (at_ (12 + apiKeyCacheTTL)) "pm_secret" s3).2 = Ok k.
Proof.
  simpl. eexists. split_and!; try (vm_compute; reflexivity). eexists. split; vm_compute; reflexivity.
Qed.
End ApiKeys.
