(* ===== verification/SignIn.v ===== *)
(** * Signing in

    Models the tokens of [pkg/auth] (payload.go, paseto_maker.go,
    swappable_token_maker.go), the pending enrolments of
    [internal/auth/usecases/pending_two_factor_store.go] and the sign-in and
    two-factor calls of auth_usecase.go, over the attempt limiters and the user
    store.  PASETO, bcrypt and TOTP are parameters.

    A call is [None] when the code would dereference nil; the limiter's own
    development shows it never does. *)
From S2P Require Import Prelude GoStrings AttemptLimiter Policy Accounts.
From Stdlib Require Import Ascii.

Module SignIn.
Import GoStrings.
Local Open Scope string_scope.
Local Open Scope Z_scope.

(** ** Tokens (pkg/auth) *)

Definition PurposeSession := "session".
Definition PurposeTwoFactorChallenge := "two_factor_challenge".

Record TokenPayload := mkPayload {
  P_UserID : string;
  P_TenantID : string;
  P_Role : string;
  P_Purpose : string;
  P_IssuedAt : Z;
  P_ExpiredAt : Z
}.

Record TokenRequest := mkTokenRequest {
  Q_UserID : string;
  Q_TenantID : string;
  Q_Role : string;
  Q_Purpose : string;
  Q_Duration : Z
}.

Inductive tokenError :=
| ErrInvalidToken
| ErrExpiredToken
| ErrWrongTokenPurpose
| ErrNoPurpose
| EncryptFailed (e : string).

Definition Valid (now : Z) (p : TokenPayload) (purpose : string) : option tokenError :=
  if time_after now (P_ExpiredAt p) then Some ErrExpiredToken
  else if negb (eqb (P_Purpose p) purpose) then Some ErrWrongTokenPurpose
  else None.

(** ** Pending enrolments *)

Definition pendingEnrolmentTTL : Z := 10 * Minute.

Record pendingEnrolment := mkEnrolment {
  secret_ : string;
  expiresAt : Z
}.

Abbreviation pendingStore := (gmap string pendingEnrolment).

Definition evictExpiredLocked (now : Z) (m : pendingStore) : pendingStore :=
  filter (fun p => time_after now (expiresAt p.2) = false) m.

Definition Put (now1 now2 : Z) (user secret : string) (m : pendingStore) : pendingStore :=
  <[user := mkEnrolment secret (time_add now2 pendingEnrolmentTTL)]> (evictExpiredLocked now1 m).

Definition Get (now : Z) (user : string) (m : pendingStore) : option string * pendingStore :=
  match m !! user with
  | None => (None, m)
  | Some e => if time_after now (expiresAt e) then (None, delete user m) else (Some (secret_ e), m)
  end.

Definition Delete (user : string) (m : pendingStore) : pendingStore := delete user m.

(** ** The use case *)

Definition sessionTokenTTL : Z := 24 * Hour.
Definition challengeTokenTTL : Z := 5 * Minute.
Definition maxLoginAttempts : Z := 5.
Definition loginBlockPeriod : Z := 15 * Minute.
Definition maxTwoFactorAttempts : Z := 5.
Definition twoFactorBlockPeriod : Z := 15 * Minute.

Record TwoFactorSetup := mkSetup {
  Secret : string;
  QRCodeURL : string
}.

Record SignInResult := mkResult {
  R_User : Accounts.User;
  R_Token : string;
  R_TwoFactorRequired : bool;
  R_TwoFactorSetupRequired : bool;
  R_ChallengeToken : string;
  R_TwoFactorSetup : option TwoFactorSetup
}.

Inductive signInError :=
| TooManyAttempts (minutes : Z)
| InvalidCredentials
| InvalidChallenge
| NotSetUp
| InvalidCode
| NoPendingSetup
| UserMissing
| TokenFailed (e : tokenError)
| StoreError (e : string)
| GenerateFailed (e : string).

Record World := mkWorld {
  db : Accounts.DB;
  loginLimiter : AttemptLimiter.attemptLimiter;
  twoFactorLimiter : AttemptLimiter.attemptLimiter;
  pendingTwoFactor : pendingStore
}.

Definition newAuthUsecase (s : Accounts.DB) : World :=
  mkWorld s (AttemptLimiter.newAttemptLimiter maxLoginAttempts loginBlockPeriod)
    (AttemptLimiter.newAttemptLimiter maxTwoFactorAttempts twoFactorBlockPeriod) ∅.

Definition set_db s w := mkWorld s (loginLimiter w) (twoFactorLimiter w) (pendingTwoFactor w).
Definition set_login l w := mkWorld (db w) l (twoFactorLimiter w) (pendingTwoFactor w).
Definition set_two l w := mkWorld (db w) (loginLimiter w) l (pendingTwoFactor w).
Definition set_pending m w := mkWorld (db w) (loginLimiter w) (twoFactorLimiter w) m.

(** What one call is answered by the database and reads off the clock, in
    order. *)
Record Env := mkEnv {
  faults : nat -> fault;
  clk : nat -> Z
}.

Section SignIn.
Context (Encrypt : TokenPayload -> result string string).
Context (Decrypt : string -> result string TokenPayload).
Context (CompareHashAndPassword : string -> string -> bool).
Context (Validate : string -> string -> Z -> bool).                   (* code, secret, time *)
Context (Generate : string -> result string (string * string)).       (* secret and URL *)

Definition CreateToken (now1 now2 : Z) (q : TokenRequest) : result tokenError string :=
  if eqb (Q_Purpose q) "" then Err ErrNoPurpose
  else
    match Encrypt (mkPayload (Q_UserID q) (Q_TenantID q) (Q_Role q) (Q_Purpose q) now1 (time_add now2 (Q_Duration q))) with
    | Ok t => Ok t
    | Err e => Err (EncryptFailed e)
    end.

Definition VerifyToken (now : Z) (token purpose : string) : result tokenError TokenPayload :=
  match Decrypt token with
  | Err _ => Err ErrInvalidToken
  | Ok p => match Valid now p purpose with Some e => Err e | None => Ok p end
  end.

Definition tokenFor (purpose : string) (ttl : Z) (u : Accounts.User) : TokenRequest :=
  mkTokenRequest (Accounts.ID u) (Accounts.TenantID u) (Accounts.Role u) purpose ttl.

Definition issueSessionToken (env : Env) (u : Accounts.User) : result signInError string :=
  match CreateToken (clk env 10%nat) (clk env 11%nat) (tokenFor PurposeSession sessionTokenTTL u) with
  | Ok t => Ok t
  | Err e => Err (TokenFailed e)
  end.

Definition authenticatePassword (env : Env) (email password : string) (w : World) : result signInError Accounts.User :=
  match Accounts.GetByEmail (faults env 0%nat) email (db w) with
  | Err _ => Err InvalidCredentials
  | Ok u =>
      if CompareHashAndPassword (Accounts.Password u) password then Ok u else Err InvalidCredentials
  end.

Definition SetupTwoFactor (env : Env) (user : string) (w : World) : World * result signInError TwoFactorSetup :=
  match Accounts.GetByID (faults env 1%nat) user (db w) with
  | Err _ => (w, Err UserMissing)
  | Ok u =>
      match Generate (Accounts.Email u) with
      | Err e => (w, Err (GenerateFailed e))
      | Ok (secret, url) =>
          (set_pending (Put (clk env 6%nat) (clk env 7%nat) (Accounts.ID u) secret (pendingTwoFactor w)) w,
           Ok (mkSetup secret url))
      end
  end.

Definition startTwoFactorChallenge (env : Env) (u : Accounts.User) (w : World) :
    World * result signInError SignInResult :=
  match CreateToken (clk env 4%nat) (clk env 5%nat) (tokenFor PurposeTwoFactorChallenge challengeTokenTTL u) with
  | Err e => (w, Err (TokenFailed e))
  | Ok challenge =>
      if eqb (Accounts.TwoFactorSecret u) "" then
        match SetupTwoFactor env (Accounts.ID u) w with
        | (w', Err e) => (w', Err e)
        | (w', Ok setup) => (w', Ok (mkResult u "" false true challenge (Some setup)))
        end
      else (w, Ok (mkResult u "" true false challenge None))
  end.

Definition retryMinutes (d : Z) : Z := Z.quot d Minute + 1.

(** What follows a correct password. *)
Definition passwordAccepted (env : Env) (u : Accounts.User) (w : World) : World * result signInError SignInResult :=
  if Accounts.TwoFactorEnabled u then startTwoFactorChallenge env u w
  else
    match issueSessionToken env u with
    | Err e => (w, Err e)
    | Ok t => (w, Ok (mkResult u t false false "" None))
    end.

(** The deferred [Abandon] runs whatever the call returns. *)
Definition abandonLogin (a : nat) (p : World * result signInError SignInResult) :
    option (World * result signInError SignInResult) :=
  (fun l => (set_login l p.1, p.2)) <$> AttemptLimiter.Abandon a (loginLimiter p.1).

Definition SignIn (env : Env) (email password : string) (w : World) :
    option (World * result signInError SignInResult) :=
  match AttemptLimiter.Begin email (clk env 0%nat) (clk env 1%nat) (loginLimiter w) with
  | None => None
  | Some (AttemptLimiter.Refused d, l) => Some (set_login l w, Err (TooManyAttempts (retryMinutes d)))
  | Some (AttemptLimiter.Granted a, l) =>
      let w := set_login l w in
      match authenticatePassword env email password w with
      | Err e =>
          match AttemptLimiter.Failed a (clk env 2%nat) (clk env 2%nat) (clk env 3%nat) (loginLimiter w) with
          | None => None
          | Some l' => abandonLogin a (set_login l' w, Err e)
          end
      | Ok u =>
          match AttemptLimiter.Succeeded a (loginLimiter w) with
          | None => None
          | Some l' => abandonLogin a (passwordAccepted env u (set_login l' w))
          end
      end
  end.

Definition resolveTwoFactorSecret (env : Env) (u : Accounts.User) (w : World) : string * bool * World :=
  if negb (eqb (Accounts.TwoFactorSecret u) "") then (Accounts.TwoFactorSecret u, false, w)
  else
    match Get (clk env 4%nat) (Accounts.ID u) (pendingTwoFactor w) with
    | (Some s, m) => (s, true, set_pending m w)
    | (None, m) => ("", false, set_pending m w)
    end.

Definition abandonTwo {A} (a : nat) (p : World * result signInError A) : option (World * result signInError A) :=
  (fun l => (set_two l p.1, p.2)) <$> AttemptLimiter.Abandon a (twoFactorLimiter p.1).

Definition enrolled (secret : string) (u : Accounts.User) : Accounts.User :=
  Accounts.mkUser (Accounts.ID u) (Accounts.TenantID u) (Accounts.Email u) (Accounts.Password u) (Accounts.Name u)
    (Accounts.Role u) true secret (Accounts.CreatedAt u) (Accounts.UpdatedAt u).

(** What follows a correct code. *)
Definition codeAccepted (env : Env) (u : Accounts.User) (secret : string) (enrolling : bool) (w : World) :
    World * result signInError SignInResult :=
  let finish u w :=
    match issueSessionToken env u with
    | Err e => (w, Err e)
    | Ok t => (w, Ok (mkResult u t false false "" None))
    end in
  if enrolling then
    match Accounts.UpdateTwoFactor (faults env 1%nat) (clk env 8%nat) (Accounts.ID u) true secret (db w) with
    | (s, Err e) => (set_db s w, Err (StoreError e))
    | (s, Ok _) =>
        finish (enrolled secret u)
          (set_pending (Delete (Accounts.ID u) (pendingTwoFactor w)) (set_db s w))
    end
  else finish u w.

Definition VerifyTwoFactorLogin (env : Env) (challenge code : string) (w : World) :
    option (World * result signInError SignInResult) :=
  match VerifyToken (clk env 0%nat) challenge PurposeTwoFactorChallenge with
  | Err _ => Some (w, Err InvalidChallenge)
  | Ok p =>
      match AttemptLimiter.Begin (P_UserID p) (clk env 1%nat) (clk env 2%nat) (twoFactorLimiter w) with
      | None => None
      | Some (AttemptLimiter.Refused d, l) => Some (set_two l w, Err (TooManyAttempts (retryMinutes d)))
      | Some (AttemptLimiter.Granted a, l) =>
          let w := set_two l w in
          match Accounts.GetByID (faults env 0%nat) (P_UserID p) (db w) with
          | Err _ => abandonTwo a (w, Err InvalidChallenge)
          | Ok u =>
              match resolveTwoFactorSecret env u w with
              | (secret, enrolling, w) =>
                  if eqb secret "" then abandonTwo a (w, Err NotSetUp)
                  else if negb (Validate code secret (clk env 5%nat)) then
                    match AttemptLimiter.Failed a (clk env 6%nat) (clk env 6%nat) (clk env 7%nat) (twoFactorLimiter w) with
                    | None => None
                    | Some l' => abandonTwo a (set_two l' w, Err InvalidCode)
                    end
                  else
                    match AttemptLimiter.Succeeded a (twoFactorLimiter w) with
                    | None => None
                    | Some l' => abandonTwo a (codeAccepted env u secret enrolling (set_two l' w))
                    end
              end
          end
      end
  end.

Definition EnableTwoFactor (env : Env) (user code : string) (w : World) : option (World * result signInError unit) :=
  match AttemptLimiter.Begin user (clk env 1%nat) (clk env 2%nat) (twoFactorLimiter w) with
  | None => None
  | Some (AttemptLimiter.Refused d, l) => Some (set_two l w, Err (TooManyAttempts (retryMinutes d)))
  | Some (AttemptLimiter.Granted a, l) =>
      let w := set_two l w in
      match Get (clk env 4%nat) user (pendingTwoFactor w) with
      | (None, m) => abandonTwo a (set_pending m w, Err NoPendingSetup)
      | (Some secret, m) =>
          let w := set_pending m w in
          if negb (Validate code secret (clk env 5%nat)) then
            match AttemptLimiter.Failed a (clk env 6%nat) (clk env 6%nat) (clk env 7%nat) (twoFactorLimiter w) with
            | None => None
            | Some l' => abandonTwo a (set_two l' w, Err InvalidCode)
            end
          else
            match AttemptLimiter.Succeeded a (twoFactorLimiter w) with
            | None => None
            | Some l' =>
                abandonTwo a
                  (match Accounts.UpdateTwoFactor (faults env 1%nat) (clk env 8%nat) user true secret (db w) with
                   | (s, Err e) => (set_db s (set_two l' w), Err (StoreError e))
                   | (s, Ok _) => (set_pending (Delete user (pendingTwoFactor w)) (set_db s (set_two l' w)), Ok tt)
                   end)
            end
      end
  end.

Definition DisableTwoFactor (env : Env) (user : string) (w : World) : World * result signInError unit :=
  let w := set_pending (Delete user (pendingTwoFactor w)) w in
  match Accounts.UpdateTwoFactor (faults env 1%nat) (clk env 8%nat) user false "" (db w) with
  | (s, Ok _) => (set_db s w, Ok tt)
  | (s, Err e) => (set_db s w, Err (StoreError e))
  end.

(** ** Tokens *)

(** What the codec promises: a token decrypts to what was encrypted. *)
Definition token_codec : Prop := forall p t, Encrypt p = Ok t -> Decrypt t = Ok p.

Lemma CreateToken_ok now1 now2 q t :
  token_codec -> CreateToken now1 now2 q = Ok t ->
  Decrypt t = Ok (mkPayload (Q_UserID q) (Q_TenantID q) (Q_Role q) (Q_Purpose q) now1 (time_add now2 (Q_Duration q))).
Proof.
  intros Hc. unfold CreateToken. destruct (eqb _ _); [done|].
  destruct (Encrypt _) as [t'|] eqn:E; [|done]. intros [= <-]. by apply Hc.
Qed.

Lemma VerifyToken_ok now t purpose p :
  VerifyToken now t purpose = Ok p -> Decrypt t = Ok p /\ P_Purpose p = purpose /\ now <= P_ExpiredAt p.
Proof.
  unfold VerifyToken, Valid, time_after. destruct (Decrypt t) as [q|]; [|done].
  destruct (P_ExpiredAt q <? now) eqn:E; [done|]. destruct (eqb (P_Purpose q) purpose) eqn:Ep; [|done].
  intros [= <-]. b2p. apply eqb_true in Ep. split_and!; [done|done|lia].
Qed.

Lemma issueSession_ok env u t :
  token_codec -> issueSessionToken env u = Ok t ->
  exists p, Decrypt t = Ok p /\ P_Purpose p = PurposeSession /\ P_UserID p = Accounts.ID u /\
    P_TenantID p = Accounts.TenantID u /\ P_Role p = Accounts.Role u.
Proof.
  intros Hc. unfold issueSessionToken. destruct (CreateToken _ _ _) as [t'|] eqn:E; [|done]. intros [= <-].
  apply CreateToken_ok in E; [|done]. by eexists.
Qed.

(** ** What one call proves *)

Lemma read_ok {A} f (o : option A) a : Accounts.read f o = Ok a -> o = Some a.
Proof. destruct f; try done. destruct o; intros; by simplify_eq/=. Qed.

Definition of_address (email : string) (u : Accounts.User) (s : Accounts.DB) : Prop :=
  (exists id, Accounts.users s !! id = Some u) /\ Accounts.Email u = email.

Lemma GetByEmail_ok f email s u : Accounts.GetByEmail f email s = Ok u -> of_address email u s.
Proof.
  intros H'. apply read_ok in H'. destruct (filter _ _) as [|[id x] l] eqn:E; [done|]. simpl in H'. injection H' as <-.
  assert (Hin : (id, x) ∈ (id, x) :: l) by by left. rewrite <- E in Hin.
  apply list_elem_of_filter in Hin as [Hm Hin]. apply elem_of_map_to_list in Hin. split; [by exists id|done].
Qed.

Lemma abandonLogin_inv a p w' r :
  abandonLogin a p = Some (w', r) -> r = p.2 /\ db w' = db p.1 /\ pendingTwoFactor w' = pendingTwoFactor p.1.
Proof. unfold abandonLogin. destruct (AttemptLimiter.Abandon a _); [|done]. by intros [= <- <-]. Qed.

Lemma abandonTwo_inv {A} a (p : World * result signInError A) w' r :
  abandonTwo a p = Some (w', r) -> r = p.2 /\ db w' = db p.1 /\ pendingTwoFactor w' = pendingTwoFactor p.1.
Proof. unfold abandonTwo. destruct (AttemptLimiter.Abandon a _); [|done]. by intros [= <- <-]. Qed.

(** A sign-in that answers found the account by its address and checked its
    password; it hands a session to an account without a second factor, and to
    one with it only a challenge. *)
Lemma SignIn_ok env email password w w' r :
  token_codec -> SignIn env email password w = Some (w', Ok r) ->
  of_address email (R_User r) (db w) /\ CompareHashAndPassword (Accounts.Password (R_User r)) password = true /\
  db w' = db w /\
  (Accounts.TwoFactorEnabled (R_User r) = false /\ R_ChallengeToken r = "" /\ pendingTwoFactor w' = pendingTwoFactor w \/
   Accounts.TwoFactorEnabled (R_User r) = true /\ R_Token r = "" /\
   exists p, Decrypt (R_ChallengeToken r) = Ok p /\ P_Purpose p = PurposeTwoFactorChallenge /\
     P_UserID p = Accounts.ID (R_User r)).
Proof.
  intros Hc. unfold SignIn. destruct (AttemptLimiter.Begin _ _ _ _) as [[[a|d] l]|]; [|done|done].
  destruct (authenticatePassword env email password (set_login l w)) as [u|e] eqn:Ea.
  2: { destruct (AttemptLimiter.Failed _ _ _ _ _); [|done]. intros H'. by apply abandonLogin_inv in H' as [? _]. }
  unfold authenticatePassword in Ea. destruct (Accounts.GetByEmail _ _ _) as [u0|] eqn:Eg; [|done].
  destruct (CompareHashAndPassword _ _) eqn:Ep; [|done]. injection Ea as ->. apply GetByEmail_ok in Eg. simpl in Eg.
  destruct (AttemptLimiter.Succeeded _ _) as [l'|]; [|done]. intros H'. apply abandonLogin_inv in H' as (Hr & Hd & Hp).
  simpl in Hr, Hd, Hp. unfold passwordAccepted in *. destruct (Accounts.TwoFactorEnabled u) eqn:E2.
  - unfold startTwoFactorChallenge, SetupTwoFactor in *.
    destruct (CreateToken _ _ _) as [ch|] eqn:Et; [|by simplify_eq/=]. apply CreateToken_ok in Et; [|done].
    destruct (eqb (Accounts.TwoFactorSecret u) "").
    + destruct (Accounts.GetByID _ _ _); [|by simplify_eq/=]. destruct (Generate _) as [[sec url]|]; [|by simplify_eq/=].
      simplify_eq/=. split_and!; [done|done|done|]. right. split_and!; [done|done|by eexists].
    + simplify_eq/=. split_and!; [done|done|done|]. right. split_and!; [done|done|by eexists].
  - destruct (issueSessionToken env u); simplify_eq/=. split_and!; [done|done|done|]. by left.
Qed.

(** The secret a second factor is checked against: the account's own, or one
    pending for the account. *)
Definition own_secret (u : Accounts.User) (w : World) (now : Z) (secret : string) : Prop :=
  (Accounts.TwoFactorSecret u = secret /\ secret <> "") \/
  (Accounts.TwoFactorSecret u = "" /\
   exists e, pendingTwoFactor w !! Accounts.ID u = Some e /\ secret_ e = secret /\ now <= expiresAt e).

(** What a session given for a challenge means. *)
Lemma second_factor_spec env challenge code w w' r :
  token_codec ->
  VerifyTwoFactorLogin env challenge code w = Some (w', Ok r) ->
  exists p u secret,
    Decrypt challenge = Ok p /\ P_Purpose p = PurposeTwoFactorChallenge /\ clk env 0%nat <= P_ExpiredAt p /\
    Accounts.users (db w) !! P_UserID p = Some u /\ own_secret u w (clk env 4%nat) secret /\
    Validate code secret (clk env 5%nat) = true /\
    (exists q, Decrypt (R_Token r) = Ok q /\ P_Purpose q = PurposeSession /\ P_UserID q = Accounts.ID u /\
       P_Role q = Accounts.Role u) /\
    R_ChallengeToken r = "" /\ Accounts.ID (R_User r) = Accounts.ID u /\
    forall now, VerifyToken now challenge PurposeSession <> Ok p.
Proof.
  intros Hc. unfold VerifyTwoFactorLogin. destruct (VerifyToken _ _ _) as [p|] eqn:Ev; [|done].
  apply VerifyToken_ok in Ev as (Hd & Hpu & Hex).
  destruct (AttemptLimiter.Begin _ _ _ _) as [[[a|d] l]|]; [|done|done].
  assert (Hab : forall W e, abandonTwo a (W, Err e) <> Some (w', Ok r)).
  { intros W e H'. by apply abandonTwo_inv in H' as [? _]. }
  destruct (Accounts.GetByID _ _ _) as [u|] eqn:Eu; [|intros H'; by destruct (Hab _ _ H')].
  apply read_ok in Eu. simpl in Eu.
  assert (Hns : forall now, VerifyToken now challenge PurposeSession <> Ok p).
  { intros now H'. apply VerifyToken_ok in H' as (_ & Hp' & _). rewrite Hpu in Hp'. vm_compute in Hp'. discriminate. }
  destruct (resolveTwoFactorSecret env u (set_two l w)) as [[secret enrolling] w1] eqn:Er.
  destruct (eqb secret "") eqn:Es; [intros H'; by destruct (Hab _ _ H')|].
  assert (Hown : own_secret u w (clk env 4%nat) secret).
  { unfold resolveTwoFactorSecret in Er. destruct (eqb (Accounts.TwoFactorSecret u) "") eqn:E0; simpl in Er.
    - apply eqb_true in E0. right. split; [done|]. unfold Get, time_after in Er. simpl in Er.
      destruct (pendingTwoFactor w !! Accounts.ID u) as [e|]; [|by simplify_eq].
      destruct (expiresAt e <? _) eqn:Et; simplify_eq. exists e. b2p. split_and!; [done|done|lia].
    - simplify_eq. left. split; [done|]. intros E'. by rewrite E' in E0. }
  destruct (Validate code secret (clk env 5%nat)) eqn:Eval; simpl.
  2: { destruct (AttemptLimiter.Failed _ _ _ _ _); [|done]. intros H'. by destruct (Hab _ _ H'). }
  destruct (AttemptLimiter.Succeeded _ _) as [l'|]; [|done]. intros H'. apply abandonTwo_inv in H' as (Hr & _ & _).
  simpl in Hr. exists p, u, secret. split_and!; try done; unfold codeAccepted in Hr; destruct enrolling.
  all: try (destruct (Accounts.UpdateTwoFactor _ _ _ _ _ _) as [s [?|?]]; [|done]).
  all: destruct (issueSessionToken _ _) as [t|] eqn:Et; simplify_eq/=; try done.
  all: apply issueSession_ok in Et as (q & ? & ? & ? & ? & ?); [|done]; by eauto.
Qed.

Lemma second_factor_bound env challenge code w w' r :
  token_codec -> VerifyTwoFactorLogin env challenge code w = Some (w', Ok r) ->
  exists p u, Decrypt challenge = Ok p /\ P_Purpose p = PurposeTwoFactorChallenge /\
    Accounts.users (db w) !! P_UserID p = Some u /\ Accounts.ID (R_User r) = Accounts.ID u.
Proof.
  intros Hc H'. apply second_factor_spec in H' as (p & u & sec & ? & ? & _ & ? & _ & _ & _ & _ & ? & _); [|done].
  by exists p, u.
Qed.

(** The second step of a sign-in is bound to the first.  A session given for
    a challenge token means the token was minted as a challenge and has not
    expired, and that the code is right for the secret of the account the token
    names -- the one stored with the account or one this server holds pending
    for it, never one the caller brought.  The session is that account's; the
    challenge itself is no session, and no other sign-in step gives an account
    with a second factor a session. *)
Theorem second_factor_is_bound env challenge code w w' r :
  token_codec ->
  VerifyTwoFactorLogin env challenge code w = Some (w', Ok r) ->
  exists p u secret,
    Decrypt challenge = Ok p /\ P_Purpose p = PurposeTwoFactorChallenge /\ clk env 0%nat <= P_ExpiredAt p /\
    Accounts.users (db w) !! P_UserID p = Some u /\ own_secret u w (clk env 4%nat) secret /\
    Validate code secret (clk env 5%nat) = true /\
    (exists q, Decrypt (R_Token r) = Ok q /\ P_Purpose q = PurposeSession /\ P_UserID q = Accounts.ID u /\
       P_Role q = Accounts.Role u) /\
    R_ChallengeToken r = "" /\ Accounts.ID (R_User r) = Accounts.ID u /\
    forall now, VerifyToken now challenge PurposeSession <> Ok p.
Proof. apply second_factor_spec. Qed.

(** ** Over any sequence of calls *)

Inductive call :=
| CSignIn (env : Env) (email password : string)
| CVerify (env : Env) (challenge code : string)
| CSetup (env : Env) (user : string)
| CEnable (env : Env) (user code : string)
| CDisable (env : Env) (user : string)
| COthers (g : Accounts.DB -> Accounts.DB).

(** What happened at a call: an address and a password were presented, with the
    accounts as they stood, whatever the answer; an answer carried a challenge;
    an answer carried a session. *)
Inductive event :=
| Tried (email password : string) (accounts : Accounts.DB)
| ChallengeGiven (token user : string)
| SessionGiven (user : string).

Definition signedIn (r : SignInResult) : list event :=
  ((if eqb (R_ChallengeToken r) "" then [] else [ChallengeGiven (R_ChallengeToken r) (Accounts.ID (R_User r))]) ++
   (if eqb (R_Token r) "" then [] else [SessionGiven (Accounts.ID (R_User r))]))%list.

(** A password was presented for the address of the account [user], and it is
    the one the account's stored hash was made from. *)
Definition right (user : string) (e : event) : Prop :=
  match e with
  | Tried email password s =>
      exists u, of_address email u s /\ Accounts.ID u = user /\
        CompareHashAndPassword (Accounts.Password u) password = true
  | _ => False
  end.

Definition step (c : call) (w : World) : option (World * list event) :=
  match c with
  | CSignIn env email password =>
      (fun p => (p.1, Tried email password (db w) :: match p.2 with Ok r => signedIn r | Err _ => [] end)) <$>
        SignIn env email password w
  | CVerify env challenge code =>
      (fun p => (p.1, match p.2 with Ok r => [SessionGiven (Accounts.ID (R_User r))] | Err _ => [] end)) <$>
        VerifyTwoFactorLogin env challenge code w
  | CSetup env user => Some ((SetupTwoFactor env user w).1, [])
  | CEnable env user code => (fun p => (p.1, [])) <$> EnableTwoFactor env user code w
  | CDisable env user => Some ((DisableTwoFactor env user w).1, [])
  | COthers g => Some (set_db (g (db w)) w, [])
  end.

Fixpoint run (calls : list call) (w : World) : option (World * list event) :=
  match calls with
  | [] => Some (w, [])
  | c :: rest =>
      match step c w with
      | None => None
      | Some (w', es) =>
          match run rest w' with
          | None => None
          | Some (w'', es') => Some (w'', es ++ es')%list
          end
      end
  end.

(** Users are stored under their own id. *)
Definition keyed (s : Accounts.DB) : Prop := forall id u, Accounts.users s !! id = Some u -> Accounts.ID u = id.

(** A token cannot be made up: one that decrypts to a challenge is one that was
    given out.  Other writers of the user table keep users under their id. *)
Fixpoint genuine (seen : list event) (calls : list call) (w : World) : Prop :=
  match calls with
  | [] => True
  | c :: rest =>
      match c with
      | CVerify _ challenge _ =>
          forall p, Decrypt challenge = Ok p -> P_Purpose p = PurposeTwoFactorChallenge ->
            exists user, ChallengeGiven challenge user ∈ seen
      | COthers g => forall s, keyed s -> keyed (g s)
      | _ => True
      end /\
      match step c w with
      | None => True
      | Some (w', es) => genuine (seen ++ es)%list rest w'
      end
  end.

(** Each event has its reason among the earlier ones, and a challenge is for
    the account its token names. *)
Definition reason (earlier : list event) (e : event) : Prop :=
  match e with
  | Tried _ _ _ => True
  | ChallengeGiven t user => Exists (right user) earlier /\ exists p, Decrypt t = Ok p /\ P_UserID p = user
  | SessionGiven user => Exists (right user) earlier
  end.
Definition reasoned (log : list event) : Prop :=
  forall pre e post, log = (pre ++ e :: post)%list -> reason pre e.

Lemma reasoned_snoc log e : reasoned log -> reason log e -> reasoned (log ++ [e]).
Proof.
  intros Hl He pre x post E.
  destruct post as [|y post] using rev_ind.
  - apply app_inj_tail in E as [<- <-]. done.
  - rewrite app_comm_cons, app_assoc in E. apply app_inj_tail in E as [E _]. by apply (Hl pre x post).
Qed.

Lemma reasoned_challenge log t user :
  reasoned log -> ChallengeGiven t user ∈ log ->
  Exists (right user) log /\ exists p, Decrypt t = Ok p /\ P_UserID p = user.
Proof.
  intros Hl Hin. apply list_elem_of_split in Hin as (pre & post & ->). destruct (Hl pre _ post eq_refl) as [Hp ?].
  split; [|done]. apply Exists_app. by left.
Qed.

(** What a sign-in that answers lets out has its reason in what was presented. *)
Lemma reasoned_signed seen env email pw w w' r :
  token_codec -> reasoned seen -> SignIn env email pw w = Some (w', Ok r) ->
  reasoned (seen ++ Tried email pw (db w) :: signedIn r).
Proof.
  intros Hc Hs E. apply SignIn_ok in E as (Ha & Hp & _ & Hcase); [|done]. rewrite cons_middle, app_assoc.
  assert (H1 : reasoned (seen ++ [Tried email pw (db w)])) by by apply reasoned_snoc.
  assert (Hr : Exists (right (Accounts.ID (R_User r))) (seen ++ [Tried email pw (db w)])).
  { apply Exists_app. right. constructor. by exists (R_User r). }
  unfold signedIn. destruct Hcase as [(_ & -> & _)|(_ & -> & p & Hd & _ & Hu)]; simpl.
  - destruct (eqb (R_Token r) ""); [by rewrite app_nil_r|by apply reasoned_snoc].
  - rewrite app_nil_r. destruct (eqb (R_ChallengeToken r) ""); [by rewrite app_nil_r|].
    apply reasoned_snoc; [done|]. split; [done|]. by exists p.
Qed.

Lemma keyed_two f now id en sec s : keyed s -> keyed (Accounts.UpdateTwoFactor f now id en sec s).1.
Proof.
  intros Hk. unfold Accounts.UpdateTwoFactor.
  destruct (Accounts.exec_cases f (fun s => Ok (Accounts.set_users
    (alter (Accounts.with_two_factor en sec now) id (Accounts.users s)) s, tt)) s) as [->|[a Ha]]; [done|]. injection Ha as <- _. simpl. intros id' u Hu. simpl in Hu.
  apply lookup_alter_Some in Hu as [(-> & x & Hx & ->)|[_ Hu]]; [|by apply Hk]. simpl. by apply Hk.
Qed.

Lemma keyed_step c w w' es :
  step c w = Some (w', es) -> (match c with COthers g => forall s, keyed s -> keyed (g s) | _ => True end) ->
  keyed (db w) -> keyed (db w').
Proof.
  intros Hs Hg Hk. destruct c as [env email pw|env ch code|env user|env user code|env user|g]; simpl in Hs.
  - destruct (SignIn env email pw w) as [[w1 r]|] eqn:E; [|done]. injection Hs as <- _. simpl.
    enough (db w1 = db w) as -> by done. unfold SignIn in E.
    destruct (AttemptLimiter.Begin _ _ _ _) as [[[a|d] l]|]; [|by simplify_eq|done].
    destruct (authenticatePassword _ _ _ _) as [u|].
    + destruct (AttemptLimiter.Succeeded _ _); [|done]. apply abandonLogin_inv in E as (_ & -> & _).
      unfold passwordAccepted, startTwoFactorChallenge, SetupTwoFactor. by repeat case_match; simplify_eq.
    + destruct (AttemptLimiter.Failed _ _ _ _ _); [|done]. by apply abandonLogin_inv in E as (_ & -> & _).
  - destruct (VerifyTwoFactorLogin env ch code w) as [[w1 r]|] eqn:E; [|done]. injection Hs as <- _. simpl.
    unfold VerifyTwoFactorLogin in E. destruct (VerifyToken _ _ _) as [p|]; [|by simplify_eq].
    destruct (AttemptLimiter.Begin _ _ _ _) as [[[a|d] l]|]; [|by simplify_eq|done].
    destruct (Accounts.GetByID _ _ _) as [u|]; [|by apply abandonTwo_inv in E as (_ & -> & _)].
    destruct (resolveTwoFactorSecret env u (set_two l w)) as [[sec en] w2] eqn:Er.
    assert (Hd : db w2 = db w).
    { unfold resolveTwoFactorSecret in Er. by repeat case_match; simplify_eq. }
    rewrite <- Hd in Hk. clear Er Hd.
    destruct (eqb sec ""); [by apply abandonTwo_inv in E as (_ & -> & _)|].
    destruct (negb _).
    + destruct (AttemptLimiter.Failed _ _ _ _ _); [|done]. by apply abandonTwo_inv in E as (_ & -> & _).
    + destruct (AttemptLimiter.Succeeded _ _); [|done]. apply abandonTwo_inv in E as (_ & -> & _).
      unfold codeAccepted. destruct en; [|by case_match].
      pose proof (keyed_two (faults env 1%nat) (clk env 8%nat) (Accounts.ID u) true sec _ Hk) as Hk'. simpl.
      destruct (Accounts.UpdateTwoFactor _ _ _ _ _ _) as [s [?|?]]; [by case_match|done].
  - injection Hs as <- _. unfold SetupTwoFactor. by repeat case_match.
  - destruct (EnableTwoFactor env user code w) as [[w1 r]|] eqn:E; [|done]. injection Hs as <- _. simpl.
    unfold EnableTwoFactor in E. destruct (AttemptLimiter.Begin _ _ _ _) as [[[a|d] l]|]; [|by simplify_eq|done].
    destruct (Get _ _ _) as [[sec|] m]; [|by apply abandonTwo_inv in E as (_ & -> & _)].
    destruct (negb _).
    + destruct (AttemptLimiter.Failed _ _ _ _ _); [|done]. by apply abandonTwo_inv in E as (_ & -> & _).
    + destruct (AttemptLimiter.Succeeded _ _); [|done]. apply abandonTwo_inv in E as (_ & -> & _). simpl.
      pose proof (keyed_two (faults env 1%nat) (clk env 8%nat) user true sec (db w) Hk) as Hk'.
      by destruct (Accounts.UpdateTwoFactor _ _ _ _ _ _) as [s [?|?]].
  - injection Hs as <- _. unfold DisableTwoFactor. simpl.
    pose proof (keyed_two (faults env 1%nat) (clk env 8%nat) user false "" (db w) Hk) as Hk'.
    by destruct (Accounts.UpdateTwoFactor _ _ _ _ _ _) as [s [?|?]].
  - injection Hs as <- _. by apply Hg.
Qed.

Lemma run_reasoned calls : forall seen w w' log,
  token_codec -> genuine seen calls w -> keyed (db w) -> reasoned seen ->
  run calls w = Some (w', log) -> reasoned (seen ++ log).
Proof.
  induction calls as [|c calls IH]; intros seen w w' log Hc Hg Hk Hr Hrun; simpl in Hrun.
  { injection Hrun as <- <-. by rewrite app_nil_r. }
  destruct (step c w) as [[w1 es]|] eqn:Es; [|done]. destruct (run calls w1) as [[w2 es']|] eqn:Er; [|done].
  injection Hrun as <- <-. rewrite app_assoc. simpl in Hg. rewrite Es in Hg. destruct Hg as [Hcall Hg].
  eapply IH; [done|exact Hg| | |exact Er].
  { apply (keyed_step c w w1 es Es); [by destruct c|exact Hk]. }
  destruct c as [env email pw|env ch code|env user|env user code|env user|g]; simpl in Es.
  - destruct (SignIn env email pw w) as [[w3 [r|e]]|] eqn:E; [| |done]; injection Es as <- <-.
    + by eapply reasoned_signed.
    + by apply reasoned_snoc.
  - destruct (VerifyTwoFactorLogin env ch code w) as [[w3 [r|e]]|] eqn:E; [| |done]; injection Es as <- <-;
      [|by rewrite app_nil_r].
    apply second_factor_bound in E as (p & u & Hd & Hp & Hu & Hid); [|done]. apply reasoned_snoc; [done|].
    destruct (Hcall p Hd Hp) as (user & Hin). apply reasoned_challenge in Hin as (Hpw & p' & Hd' & Hu'); [|done].
    rewrite Hd in Hd'. injection Hd' as <-. rewrite Hid, (Hk _ _ Hu), Hu'. done.
  - injection Es as <- <-. by rewrite app_nil_r.
  - destruct (EnableTwoFactor _ _ _ _) as [[? ?]|]; [|done]. injection Es as <- <-. by rewrite app_nil_r.
  - injection Es as <- <-. by rewrite app_nil_r.
  - injection Es as <- <-. by rewrite app_nil_r.
Qed.

(** C30: a session always follows a right password.  Over any calls of any
    callers, in any order and with any failures -- sign-ins, second steps,
    enrolments, changes to the accounts by others -- whenever an answer carries
    a session for an account, then earlier in the run, or in that very call,
    that account's address was presented with a password its stored hash, as the
    accounts then stood, was made from; so the second step alone, with guessed
    codes or a challenge of one's own, opens no other account.  Challenge tokens
    are not forged: one that decrypts was given out in the run ([genuine]); and
    accounts are stored under their ids ([keyed]). *)
Theorem session_follows_a_password calls s w' log pre user post :
  token_codec -> keyed s -> genuine [] calls (newAuthUsecase s) ->
  run calls (newAuthUsecase s) = Some (w', log) ->
  log = (pre ++ SessionGiven user :: post)%list -> exists e, e ∈ pre /\ right user e.
Proof.
  intros Hc Hk Hg Hrun ->.
  assert (Hr : reasoned (pre ++ SessionGiven user :: post)).
  { eapply (run_reasoned calls []); [done|exact Hg|done| |exact Hrun].
    intros [|? ?] x p' Ex; discriminate Ex. }
  specialize (Hr pre _ post eq_refl). by apply Exists_exists in Hr.
Qed.
End SignIn.

(** ** A concrete sign-in *)

(** Tokens written out in full, as binary digits. *)
Fixpoint digits (p : positive) : string :=
  match p with
  | xH => ""
  | xO p => String "0"%char (digits p)
  | xI p => String "1"%char (digits p)
  end.
Fixpoint undigits (s : string) : positive :=
  match s with
  | "" => xH
  | String c r => if eqb (String c "") "0" then xO (undigits r) else xI (undigits r)
  end.

Lemma undigits_digits p : undigits (digits p) = p.
Proof. induction p as [p IH|p IH|]; simpl; by rewrite ?IH. Qed.

Definition demo_encrypt (p : TokenPayload) : result string string :=
  Ok (digits (encode (P_UserID p, P_TenantID p, P_Role p, P_Purpose p, P_IssuedAt p, P_ExpiredAt p))).
Definition demo_decrypt (t : string) : result string TokenPayload :=
  match decode (A := string * string * string * string * Z * Z) (undigits t) with
  | Some (u, t, r, p, i, e) => Ok (mkPayload u t r p i e)
  | None => Err "not a token"
  end.

Lemma demo_codec : token_codec demo_encrypt demo_decrypt.
Proof.
  intros [u t r p i e] tok [= <-]. unfold demo_decrypt. by rewrite undigits_digits, decode_encode.
Qed.

Definition demo_compare (hash password : string) : bool := eqb hash password.
Definition demo_validate (code secret : string) (now : Z) : bool := eqb code secret.
Definition demo_generate (email : string) : result string (string * string) := Ok ("new", "otpauth:").

Definition demo_env (t : Z) : Env := mkEnv (fun _ => Up) (fun _ => t).
Definition demo_challenge : string :=
  digits (encode ("ann", "t1", Policy.RoleAdmin, PurposeTwoFactorChallenge, 1, 1 + challengeTokenTTL)).

(** Ann signs in with her password, then with the code of her stored secret. *)
Definition demo_calls : list call :=
  [CSignIn (demo_env 1) "ann@x.com" "h"; CVerify (demo_env 2) demo_challenge "s"].

Abbreviation demo_run := (run demo_encrypt demo_decrypt demo_compare demo_validate demo_generate).

Lemma second_factor_is_bound_witness :
  let w := newAuthUsecase Accounts.demo_db in
  exists p u secret, demo_decrypt demo_challenge = Ok p /\ Accounts.users (db w) !! P_UserID p = Some u /\
    own_secret u w 2 secret /\ demo_validate "s" secret 2 = true.
Proof.
  intros w.
  destruct (second_factor_is_bound demo_encrypt demo_decrypt demo_validate (demo_env 2) demo_challenge "s" w
    (default (w, Err InvalidChallenge)
       (VerifyTwoFactorLogin demo_encrypt demo_decrypt demo_validate (demo_env 2) demo_challenge "s" w)).1
    (mkResult (Accounts.demo_user "ann" "t1" Policy.RoleAdmin)
       (digits (encode ("ann", "t1", Policy.RoleAdmin, PurposeSession, 2, 2 + sessionTokenTTL))) false false "" None)
    demo_codec) as (p & u & secret & H1 & _ & _ & H2 & H3 & H4 & _); [vm_compute; reflexivity|].
  exists p, u, secret. split_and!; [exact H1|exact H2|exact H3|exact H4].
Defined.

Lemma demo_keyed : keyed Accounts.demo_db.
Proof.
  intros id u Hu. unfold Accounts.demo_db in Hu. simpl in Hu.
  repeat (apply lookup_insert_Some in Hu as [[<- <-]|[_ Hu]]; [done|]). by apply lookup_singleton_Some in Hu as [<- <-].
Qed.

Definition demo_tried : event := Tried "ann@x.com" "h" Accounts.demo_db.

Lemma session_follows_a_password_witness :
  exists log, (snd <$> demo_run demo_calls (newAuthUsecase Accounts.demo_db)) = Some log /\
    log = [demo_tried; ChallengeGiven demo_challenge "ann"; SessionGiven "ann"] /\
    exists e, e ∈ [demo_tried; ChallengeGiven demo_challenge "ann"] /\ right demo_compare "ann" e.
Proof.
  eexists. split; [vm_compute; reflexivity|]. split; [vm_compute; reflexivity|].
  refine (session_follows_a_password demo_encrypt demo_decrypt demo_compare demo_validate demo_generate demo_calls
    Accounts.demo_db
    (default (newAuthUsecase Accounts.demo_db, []) (demo_run demo_calls (newAuthUsecase Accounts.demo_db))).1
    [demo_tried; ChallengeGiven demo_challenge "ann"; SessionGiven "ann"] _ "ann" []
    demo_codec demo_keyed _ _ _); [|vm_compute; reflexivity|reflexivity].
  split; [done|]. vm_compute. split; [|done]. intros p _ _. exists "ann". right. by left.
Defined.

End SignIn.
