(* ===== verification/Gate.v ===== *)
(** * The front door

    Models [internal/auth/middlewares/auth_middleware.go]: who a request is
    from, in which tenant and with what role, and, with the decision of
    rbac_interceptor.go, whether it is served.  The session's account is read
    again on every request, through a cache of a few seconds. *)
From S2P Require Import Prelude GoStrings Cache Policy Accounts ApiKeys SignIn.
From Stdlib Require Import Ascii.

Module Gate.
Import GoStrings.
Local Open Scope string_scope.
Local Open Scope Z_scope.

Definition rpcPathPrefix := "/panmail.v1.".
Definition membershipCacheTTL : Z := 5 * Second.
Definition membershipCacheMaxEntries : Z := 4096.

(** The parts of an HTTP request the middleware reads. *)
Record Request := mkRequest {
  Path : string;
  XAPIKey : string;
  Authorization : string;
  XTenantID : string
}.

Inductive authError :=
| InvalidToken
| Token (e : SignIn.tokenError)
| Key (e : ApiKeys.keyError)
| ErrTenantNotPermitted
| AccountUnavailable (e : Accounts.acctError).

(** What one request is answered by the database, and its clock readings. *)
Record Env := mkEnv {
  faults : nat -> fault;
  kf1 : fault; kf2 : fault; kclk : nat -> Z;       (* the key lookup *)
  now_token : Z; now_get : Z; now_put1 : Z; now_put2 : Z
}.

Section Gate.
Context {CK : Type} `{!TTLCache.CacheSpec CK ApiKeys.ApiKey}.
Context {CR : Type} `{!TTLCache.CacheSpec CR string}.
Context (Sha256Hex : string -> string) (Unmarshal : string -> result string (list string)).
Context (Decrypt : string -> result string SignIn.TokenPayload).
Context (hasKeys hasTokens hasMemberships : bool).              (* what the middleware is built with *)

Record St := mkSt {
  accounts : Accounts.DB;
  apiKeys : ApiKeys.St (C := CK);
  resolvedRoles : CR
}.

Definition set_keys k s := mkSt (accounts s) k (resolvedRoles s).
Definition set_roles c s := mkSt (accounts s) (apiKeys s) c.

Definition nul : Ascii.ascii := Ascii.ascii_of_nat 0.

(** [resolveRole]: only a positive answer is cached. *)
Definition resolveRole (env : Env) (user tenant : string) (s : St) : St * result authError string :=
  let key := user +:+ String nul tenant in
  match TTLCache.cs_get (resolvedRoles s) key (now_get env) with
  | (Some role, c) => (set_roles c s, Ok role)
  | (None, c) =>
      let s := set_roles c s in
      match Accounts.RoleIn (faults env) user tenant (accounts s) with
      | Err Accounts.ErrUserNotFound => (s, Err ErrTenantNotPermitted)
      | Err e => (s, Err (AccountUnavailable e))
      | Ok role =>
          (if eqb role "" then s
           else set_roles (TTLCache.cs_put c key role (now_put1 env) (now_put2 env)) s, Ok role)
      end
  end.

(** [actIn]: the tenant the caller acts in and the role held there. *)
Definition actIn (env : Env) (p : Policy.Principal) (target : string) (s : St) :
    St * result authError Policy.Principal :=
  match resolveRole env (Policy.UserID p) target s with
  | (s', Err e) => (s', Err e)
  | (s', Ok role) =>
      if eqb role "" then (s', Err ErrTenantNotPermitted)
      else (s', Ok (Policy.mkPrincipal (Policy.Kind p) (Policy.UserID p) target role (Policy.Scopes p)))
  end.

Definition identifyAPIKey (env : Env) (key : string) (s : St) : St * result authError Policy.Principal :=
  if negb hasKeys then (s, Err InvalidToken)
  else
    match ApiKeys.VerifyApiKey Sha256Hex Unmarshal (kf1 env) (kf2 env) (kclk env) key (apiKeys s) with
    | (k, Err e) => (set_keys k s, Err (Key e))
    | (k, Ok key) =>
        (set_keys k s,
         Ok (Policy.mkPrincipal Policy.PrincipalAPIKey "" (ApiKeys.TenantID key) "" (ApiKeys.Scopes key)))
    end.

Definition identifyBearer (env : Env) (header tenantHeader : string) (s : St) :
    St * result authError Policy.Principal :=
  match Cut header " "%char with
  | None => (s, Err InvalidToken)
  | Some (scheme, token) =>
      if negb (EqualFold scheme "Bearer") || eqb token "" || negb hasTokens then (s, Err InvalidToken)
      else
        match SignIn.VerifyToken Decrypt (now_token env) token SignIn.PurposeSession with
        | Err e => (s, Err (Token e))
        | Ok payload =>
            let p := Policy.mkPrincipal Policy.PrincipalUser (SignIn.P_UserID payload) (SignIn.P_TenantID payload)
                       (SignIn.P_Role payload) [] in
            let target := if eqb tenantHeader "" then SignIn.P_TenantID payload else tenantHeader in
            if negb hasMemberships then
              if eqb target (SignIn.P_TenantID payload) then (s, Ok p)
              else if negb (eqb (Policy.Role p) Policy.RoleSuperAdmin) then (s, Err ErrTenantNotPermitted)
              else (s, Ok (Policy.mkPrincipal Policy.PrincipalUser (Policy.UserID p) target (Policy.Role p) []))
            else actIn env p target s
        end
  end.

(** [identify]: [None] when no credential was presented. *)
Definition identify (env : Env) (r : Request) (s : St) : St * result authError (option Policy.Principal) :=
  let lift_ (x : St * result authError Policy.Principal) :=
    match x with (s', Ok p) => (s', Ok (Some p)) | (s', Err e) => (s', Err e) end in
  if negb (eqb (XAPIKey r) "") then lift_ (identifyAPIKey env (XAPIKey r) s)
  else if eqb (Authorization r) "" then (s, Ok None)
  else lift_ (identifyBearer env (Authorization r) (XTenantID r) s).

(** What becomes of a request: refused by the middleware, refused by the
    interceptor, passed to a handler as [caller], or not an RPC at all. *)
Inductive outcome :=
| Unavailable
| Unauthorized
| Denied (d : Policy.denial)
| Served (caller : option Policy.Principal)
| NotRPC.

(** [Handle], then [authorize] for the procedure the path names. *)
Definition Handle (env : Env) (r : Request) (s : St) : St * outcome :=
  if negb (HasPrefix (Path r) rpcPathPrefix) then (s, NotRPC)
  else
    match identify env r s with
    | (s', Err (AccountUnavailable _)) => (s', Unavailable)
    | (s', Err _) => (s', Unauthorized)
    | (s', Ok caller) =>
        match Policy.authorize caller (Path r) with
        | Some d => (s', Denied d)
        | None => (s', Served caller)
        end
    end.

(** ** Runs *)

(** Requests, and changes to accounts and keys by anyone. *)
Inductive event :=
| Req (env : Env) (r : Request)
| Accts (g : Accounts.DB -> Accounts.DB)
| Keys (g : ApiKeys.St (C := CK) -> ApiKeys.St (C := CK)).

Definition step (e : event) (s : St) : St :=
  match e with
  | Req env r => (Handle env r s).1
  | Accts g => mkSt (g (accounts s)) (apiKeys s) (resolvedRoles s)
  | Keys g => set_keys (g (apiKeys s)) s
  end.

Definition run (es : list event) (s : St) : St := foldl (fun s e => step e s) s es.

(** The account tables a run may have read roles from, each with the time the
    answer was remembered. *)
Fixpoint reads (es : list event) (s : St) : list (Z * Accounts.DB) :=
  match es with
  | [] => []
  | e :: rest => (match e with Req env _ => [(now_put2 env, accounts s)] | _ => [] end) ++ reads rest (step e s)
  end.

(** User ids, which this server mints as UUIDs, hold no NUL. *)
Definition no_nul (s : string) : Prop := str_all (fun c => negb (bool_decide (c = nul))) s = true.
Definition plain_ids : Prop := forall t p, Decrypt t = Ok p -> no_nul (SignIn.P_UserID p).

(** [role] is what the account tables say [user] is in [tenant]. *)
Definition held (d : Accounts.DB) (user tenant role : string) : Prop :=
  Accounts.RoleIn (fun _ => Up) user tenant d = Ok role.

Lemma RoleIn_held fs user tenant d role : Accounts.RoleIn fs user tenant d = Ok role -> held d user tenant role.
Proof.
  unfold held. rewrite Accounts.RoleIn_up. unfold Accounts.RoleIn, Accounts.GetByID, Accounts.MGet, Accounts.read.
  destruct (fs 0%nat); try done. destruct (Accounts.users d !! user) as [u|]; [|done].
  repeat case_bool_decide; try done. destruct (fs 1%nat); try done.
  by destruct (Accounts.user_tenants d !! (user, tenant)).
Qed.

Definition remembers (log : list (Z * Accounts.DB)) (s : St) : Prop :=
  TTLCache.cs_ttl (resolvedRoles s) = membershipCacheTTL /\
  TTLCache.grounded (fun key role t0 => exists d user tenant,
    (t0, d) ∈ log /\ key = user +:+ String nul tenant /\ no_nul user /\ held d user tenant role) (resolvedRoles s).

Lemma remembers_weaken log log' s : (forall x, x ∈ log -> x ∈ log') -> remembers log s -> remembers log' s.
Proof.
  intros Hl [Ht Hg]. split; [done|]. eapply TTLCache.grounded_mono; [|exact Hg].
  intros k v t (d & u & tn & ? & ? & ? & ?). eauto 10.
Qed.

Lemma remembers_same log s s' : resolvedRoles s' = resolvedRoles s -> remembers log s -> remembers log s'.
Proof. unfold remembers. by intros ->. Qed.

Lemma resolveRole_spec log env user tenant s s' o :
  no_nul user -> remembers log s -> resolveRole env user tenant s = (s', o) ->
  remembers ((now_put2 env, accounts s) :: log) s' /\ accounts s' = accounts s /\ apiKeys s' = apiKeys s /\
  (forall role, o = Ok role -> role <> "" ->
     held (accounts s) user tenant role \/
     exists t0 d, (t0, d) ∈ log /\ now_get env <= t0 + membershipCacheTTL /\ held d user tenant role).
Proof.
  intros Hn [Ht Hg] Hr. unfold resolveRole in Hr. set (key := user +:+ String nul tenant) in *.
  destruct (TTLCache.cs_get (resolvedRoles s) key (now_get env)) as [hit c] eqn:E.
  assert (Hc : c = (TTLCache.cs_get (resolvedRoles s) key (now_get env)).2) by by rewrite E.
  assert (Hr0 : remembers log (set_roles c s)).
  { split; simpl; rewrite Hc; [by rewrite TTLCache.cs_get_ttl|by apply TTLCache.grounded_get]. }
  assert (Hr1 : remembers ((now_put2 env, accounts s) :: log) (set_roles c s)).
  { eapply remembers_weaken; [|exact Hr0]. by intros x; right. }
  destruct hit as [role|].
  - injection Hr as <- <-. split_and!; [done|done|done|]. intros role' [= <-] _. right.
    destruct (TTLCache.grounded_hit _ _ key (now_get env) role Hg) as (t0 & (d & u & tn & Hl & Hk & Hu & Hh) & Hle);
      [by rewrite E|]. apply sep_inj in Hk as [-> ->]; [|done|done]. rewrite Ht in Hle. eauto.
  - simpl in Hr. destruct (Accounts.RoleIn (faults env) user tenant (accounts s)) as [role|e] eqn:Er.
    + apply RoleIn_held in Er. injection Hr as <- <-. split_and!; [|by destruct (eqb role "")..|].
      * destruct (eqb role ""); [done|]. destruct Hr1 as [Hr1 Hr2]. split; simpl.
        -- by rewrite TTLCache.cs_put_ttl.
        -- apply TTLCache.grounded_put; [|done]. exists (accounts s), user, tenant. split_and!; [by left|done..].
      * intros role' [= <-] _. by left.
    + assert (Hs : s' = set_roles c s) by (by destruct e; injection Hr as <- <-). subst s'.
      split_and!; [done|done|done|]. intros role ->. by destruct e.
Qed.

(** Who a request was taken to be from, for a request with a session. *)
Definition recent (log : list (Z * Accounts.DB)) (env : Env) (s : St) (p : Policy.Principal) : Prop :=
  Policy.Kind p = Policy.PrincipalUser ->
  Policy.Role p <> "" /\
  (held (accounts s) (Policy.UserID p) (Policy.TenantID p) (Policy.Role p) \/
   exists t0 d, (t0, d) ∈ log /\ now_get env <= t0 + membershipCacheTTL /\
     held d (Policy.UserID p) (Policy.TenantID p) (Policy.Role p)).

Lemma identify_spec log env r s s' o :
  hasMemberships = true -> plain_ids -> remembers log s -> identify env r s = (s', o) ->
  remembers ((now_put2 env, accounts s) :: log) s' /\ accounts s' = accounts s /\
  (forall p, o = Ok (Some p) -> recent log env s p).
Proof.
  intros Hm Hids Hr. unfold identify.
  assert (Hr' : remembers ((now_put2 env, accounts s) :: log) s).
  { eapply remembers_weaken; [|exact Hr]. by intros x; right. }
  destruct (negb (eqb (XAPIKey r) "")).
  { unfold identifyAPIKey. destruct (negb hasKeys); [intros [= <- <-]; done|].
    destruct (ApiKeys.VerifyApiKey _ _ _ _ _ _ _) as [k [key|e]]; intros [= <- <-]; split_and!; try done.
    intros p [= <-]. by intros Hk. }
  destruct (eqb (Authorization r) ""); [intros [= <- <-]; done|].
  unfold identifyBearer. destruct (Cut _ _) as [[scheme token]|]; [|intros [= <- <-]; done].
  destruct (_ || _); [intros [= <- <-]; done|].
  destruct (SignIn.VerifyToken _ _ _ _) as [payload|] eqn:Ev; [|intros [= <- <-]; done].
  apply SignIn.VerifyToken_ok in Ev as (Hd & _ & _). rewrite Hm. simpl. unfold actIn. simpl.
  set (target := if eqb (XTenantID r) "" then _ else _). clearbody target.
  destruct (resolveRole env (SignIn.P_UserID payload) target s) as [s1 [role|e]] eqn:Err.
  - apply (resolveRole_spec log) in Err as (H1 & H2 & H3 & H4); [|by eapply Hids|done].
    destruct (eqb role "") eqn:E0; intros [= <- <-]; split_and!; try done.
    assert (Hne : role <> "") by (by intros ->). intros p [= <-] _. simpl. split; [done|]. by apply H4.
  - apply (resolveRole_spec log) in Err as (H1 & H2 & H3 & H4); [|by eapply Hids|done].
    intros [= <- <-]. split_and!; done.
Qed.

Lemma step_remembers log e s :
  hasMemberships = true -> plain_ids -> remembers log s ->
  remembers ((match e with Req env _ => [(now_put2 env, accounts s)] | _ => [] end) ++ log) (step e s).
Proof.
  intros Hm Hids Hr. destruct e as [env r|g|g]; [|done|done]. simpl. unfold Handle.
  destruct (negb _); [eapply remembers_weaken; [|exact Hr]; by intros x; right|].
  destruct (identify env r s) as [s' o] eqn:E. apply (identify_spec log) in E as (H1 & _ & _); [|done..].
  destruct o as [caller|err]; [|by destruct err]. by destruct (Policy.authorize caller (Path r)).
Qed.

Lemma run_remembers es : forall log s,
  hasMemberships = true -> plain_ids -> remembers log s -> remembers (reads es s ++ log) (run es s).
Proof.
  induction es as [|e es IH]; intros log s Hm Hids Hr; [done|]. simpl.
  eapply remembers_weaken; [|by apply IH, step_remembers]. intros x. rewrite !elem_of_app. tauto.
Qed.

(** C4: a session has the authority the account has now, not the one it signed in
    with.  After any requests and any changes to accounts, memberships and keys,
    a request that reaches a handler is for a procedure of the policy table, and
    either the procedure is public, or its caller is an API key holding the
    procedure's scope, or its caller is a user whose role in the tenant it acts
    in -- as the account tables say now, or said within the last five seconds --
    is enough for the procedure.  A deleted, demoted or removed user is out after
    five seconds, whatever the token says. *)
Theorem authority_is_current es s0 env r caller :
  hasMemberships = true -> plain_ids ->
  TTLCache.cs_contents (resolvedRoles s0) = ∅ -> TTLCache.cs_ttl (resolvedRoles s0) = membershipCacheTTL ->
  (Handle env r (run es s0)).2 = Served caller ->
  exists rule, (Path r, rule) ∈ Policy.procedurePolicy /\
    (Policy.public rule = true \/
     exists p, caller = Some p /\
       ((Policy.Kind p = Policy.PrincipalAPIKey /\ Policy.scope rule ∈ Policy.Scopes p) \/
        (Policy.Kind p = Policy.PrincipalUser /\
         (Policy.Role p = Policy.RoleSuperAdmin \/ Policy.roleSatisfies (Policy.Role p) (Policy.minRole rule) = true) /\
         exists t0 d, held d (Policy.UserID p) (Policy.TenantID p) (Policy.Role p) /\
           (d = accounts (run es s0) \/
            ((t0, d) ∈ reads es s0 /\ now_get env <= t0 + membershipCacheTTL))))).
Proof.
  intros Hm Hids Hempty Httl Hs.
  assert (Hr : remembers (reads es s0) (run es s0)).
  { rewrite <- (app_nil_r (reads es s0)). apply run_remembers; [done|done|]. split; [done|].
    intros k v e. rewrite Hempty, lookup_empty. done. }
  generalize dependent (reads es s0). generalize dependent (run es s0). intros s Hs log Hr.
  unfold Handle in Hs. destruct (negb _); [done|]. destruct (identify env r s) as [s' o] eqn:E.
  apply (identify_spec log) in E as (_ & _ & Hrec); [|done..].
  destruct o as [c|err]; [|by destruct err]. destruct (Policy.authorize c (Path r)) eqn:Ea; [done|].
  injection Hs as <-. apply Policy.authorize_inv in Ea as (rule & Hin & Hcase). exists rule. split; [done|].
  destruct Hcase as [?|(p & -> & [(Hk & _ & Hsc)|(Hu & Hro)])]; [by left|right..].
  - exists p. split; [done|]. by left.
  - exists p. split; [done|]. right. split_and!; [done|done|].
    destruct (Hrec p eq_refl Hu) as [_ [Hh|(t0 & d & Hl & Hle & Hh)]]; [exists 0; eauto|eauto 10].
Qed.
End Gate.

(** ** A concrete door *)

#[local] Existing Instance TTLCache.ttl_cache_spec.

(** Tokens that name a user of tenant t1, good for an hour. *)
Definition demo_decrypt (t : string) : result string SignIn.TokenPayload :=
  if eqb t "bob-session" then Ok (SignIn.mkPayload "bob" "t2" Policy.RoleViewer SignIn.PurposeSession 0 Hour)
  else Err "not a token".

Definition door : St (CK := TTLCache.t ApiKeys.ApiKey) (CR := TTLCache.t string) :=
  mkSt Accounts.demo_db ApiKeys.start (TTLCache.NewWithLimit membershipCacheTTL membershipCacheMaxEntries).

Definition demo_env (t : Z) : Env := mkEnv (fun _ => Up) Up Up (fun _ => t) t t t t.
(** Bob, of t2, sends from t1, where he is an editor. *)
Definition demo_request : Request :=
  mkRequest "/panmail.v1.EmailService/SendEmail" "" "Bearer bob-session" "t1".

Abbreviation handle := (Handle ApiKeys.demo_sha ApiKeys.demo_unmarshal demo_decrypt true true true).

(** His membership is removed right after his first request. *)
Definition demo_events : list (event (CK := TTLCache.t ApiKeys.ApiKey)) :=
  [Req (demo_env 1) demo_request;
   Accts (fun d => Accounts.set_memberships (delete ("bob", "t1") (Accounts.user_tenants d)) d)].

Abbreviation demo_run := (run ApiKeys.demo_sha ApiKeys.demo_unmarshal demo_decrypt true true true demo_events door).

Definition bob_in_t1 : Policy.Principal :=
  Policy.mkPrincipal Policy.PrincipalUser "bob" "t1" Policy.RoleEditor [].

Lemma authority_is_current_witness :
  (handle (demo_env 2) demo_request demo_run).2 = Served (Some bob_in_t1) /\
  (handle (demo_env (2 + membershipCacheTTL)) demo_request demo_run).2 = Unauthorized /\
  exists rule, ("/panmail.v1.EmailService/SendEmail", rule) ∈ Policy.procedurePolicy.
Proof.
  split; [vm_compute; reflexivity|]. split; [vm_compute; reflexivity|].
  destruct (authority_is_current ApiKeys.demo_sha ApiKeys.demo_unmarshal demo_decrypt true true true demo_events door
    (demo_env 2) demo_request (Some bob_in_t1)) as (rule & Hin & _);
    [reflexivity| |vm_compute; reflexivity|reflexivity|vm_compute; reflexivity|by exists rule].
  intros t p. unfold demo_decrypt. destruct (eqb t "bob-session"); [|done]. by intros [= <-].
Defined.

End Gate.
