(* ===== verification/SmtpSession.v ===== *)
(** * SMTP submission

    Models internal/email/transports/smtp: one conversation (session.go), the LOGIN
    mechanism (login.go), the reply codes (errors.go) and the configuration a
    listener starts with (config.go).  The library that reads the commands and calls
    these in turn, and TLS, are outside; a conversation is the list of its calls.

    What the key verifier and the send path answer are arguments: [ApiKeys] and
    [Send] are what they are in the gateway.  [uuid.Parse] and SHA-256 are
    parameters, and the parser of messages is that of [SmtpMime]. *)
From S2P Require Import Prelude GoStrings Encoding Classify Admission SendRate Send Policy ApiKeys SmtpMime.
From Stdlib Require Import Ascii.

Module SmtpSession.
Import GoStrings Encoding Admission SmtpMime.
Local Open Scope string_scope.
Local Open Scope Z_scope.

(** ** Replies *)

(** The texts of a refused header and of a message that does not parse end with the
    error's own text, which is left out. *)

Definition codeRateLimited : Z := 451.
Definition codeBacklogFull : Z := 452.
Definition codeTemporaryFailure : Z := 451.
Definition codeAuthFailed : Z := 535.
Definition codeNotAuthorized : Z := 550.
Definition codeBadArguments : Z := 501.

Record SMTPError := mkError {
  Code : Z;
  EnhancedCode : Z * Z * Z;
  Text : string
}.

Definition enhancedPolicyRefusal := (4, 7, 1).
Definition enhancedNoStorage := (4, 3, 1).
Definition enhancedTempFailure := (4, 3, 0).
Definition enhancedBadCredentials := (5, 7, 8).
Definition enhancedNotAuthorized := (5, 7, 1).
Definition enhancedBadArguments := (5, 5, 4).
Definition enhancedNoValidRecipient := (5, 1, 3).

(** [int(math.Ceil(d.Seconds()))], at least one. *)
Definition retrySeconds (d : Z) : Z := Z.max 1 (- ((- d) / Second)).

Definition submissionError (e : Send.sendError) : SMTPError :=
  match e with
  | Send.OverCapacity (SendRate.RateLimited _ after) =>
      mkError codeRateLimited enhancedPolicyRefusal ("Too many messages, retry in " ++ FormatInt (retrySeconds after) ++ "s")
  | Send.KeyConflict message =>
      mkError codeNotAuthorized enhancedNotAuthorized ("A different message with this Message-ID was already accepted as " ++ message)
  | Send.BadReplyHeaders _ => mkError codeBadArguments enhancedBadArguments "a reply header is not usable"
  | Send.OverCapacity (SendRate.BacklogFull _ pending _) =>
      mkError codeBacklogFull enhancedNoStorage ("Queue is full (" ++ FormatInt pending ++ " pending), retry later")
  | _ => mkError codeTemporaryFailure enhancedTempFailure "Message could not be queued, retry later"
  end.

(** ** The envelope *)

Definition normaliseAddress (address : string) : string := ToLower (TrimSpace address).

Fixpoint blindFrom (visible seen : gset string) (envelope : list string) : list string :=
  match envelope with
  | [] => []
  | address :: rest =>
      let key := normaliseAddress address in
      if eqb key "" then blindFrom visible seen rest
      else if bool_decide (key ∈ visible) then blindFrom visible seen rest
      else if bool_decide (key ∈ seen) then blindFrom visible seen rest
      else address :: blindFrom visible ({[key]} ∪ seen) rest
  end.

Definition blindRecipients (envelope to cc : list string) : list string :=
  blindFrom (list_to_set (normaliseAddress <$> (to ++ cc)%list)) ∅ envelope.

Definition NUL : string := String (chr 0) "".

Definition hasScope (scopes : list string) (want : string) : bool := bool_decide (want ∈ scopes).

(** ** A conversation *)

Record session := mkSession {
  tenantID : string;
  providerID : string;
  keyID : string;
  from : string;
  rcpts : list string
}.

Definition NewSession : session := mkSession "" "" "" "" [].

Section Session.
(** [uuid.Parse], in its canonical form. *)
Context (uuidParse : string -> option string).
Context (SHA256 : string -> string).
(** The parser of the server, and its limit on recipients. *)
Context (parse : string -> string -> result parseError Message) (maxRecipients : Z).

Definition submissionKey (messageID : string) (rcpts : list string) : string :=
  if eqb messageID "" then ""
  else "smtp:" ++ HexEncode (SHA256 (messageID ++ String.concat "" ((fun r => NUL ++ r) <$> merge_sort String.le (normaliseAddress <$> rcpts)))).

Definition validateProviderID (id : string) : option string :=
  match uuidParse id with
  | None => Some "provider id must be a UUID"
  | Some u => if eqb u Send.nilUUID then Some "provider id must not be the nil UUID" else None
  end.

Definition errNotAuthenticated : SMTPError := mkError codeAuthFailed enhancedBadCredentials "Authentication required".

(** [authenticate]: [key] is what the verifier makes of the password. *)
Definition authenticate (username : string) (key : result string ApiKeys.ApiKey) (s : session) : session * option SMTPError :=
  match key with
  | Err _ => (s, Some (mkError codeAuthFailed enhancedBadCredentials "Authentication failed"))
  | Ok k =>
      if negb (hasScope (ApiKeys.Scopes k) Policy.ScopeEmailSend) then
        (s, Some (mkError codeAuthFailed enhancedBadCredentials "This API key is not permitted to send email"))
      else
        let provider := TrimSpace username in
        match (if eqb provider "" then None else validateProviderID provider) with
        | Some e => (s, Some (mkError codeAuthFailed enhancedBadCredentials e))
        | None => (mkSession (ApiKeys.TenantID k) provider (ApiKeys.ID k) (from s) (rcpts s), None)
        end
  end.

Definition Mail (address : string) (s : session) : session * option SMTPError :=
  if eqb (tenantID s) "" then (s, Some errNotAuthenticated)
  else (mkSession (tenantID s) (providerID s) (keyID s) address [], None).

Definition Rcpt (to : string) (s : session) : session * option SMTPError :=
  if eqb (tenantID s) "" then (s, Some errNotAuthenticated)
  else if maxRecipients <=? Z.of_nat (length (rcpts s)) then
    (s, Some (mkError codeNotAuthorized enhancedNotAuthorized ("Too many recipients, the limit is " ++ FormatInt maxRecipients)))
  else (mkSession (tenantID s) (providerID s) (keyID s) (from s) (rcpts s ++ [to])%list, None).

Definition resolveProvider (fromHeader : string) (s : session) : result SMTPError string :=
  let provider := TrimSpace fromHeader in
  let provider := if eqb provider "" then providerID s else provider in
  if eqb provider "" then
    Err (mkError codeBadArguments enhancedBadArguments ("No provider given: send the provider id as the AUTH username or in the " ++ ProviderHeader ++ " header"))
  else
    match validateProviderID provider with
    | Some e => Err (mkError codeBadArguments enhancedBadArguments e)
    | None => Ok provider
    end.

(** The request a submission becomes. *)
Definition submitted (m : Message) (provider : string) (s : session) : SendEmailRequest :=
  let q := Request m in
  mkRequest (From_ q) (To q) (Cc q) (blindRecipients (rcpts s) (To q) (Cc q)) provider (Subject q) (TemplateId q) (TemplateData q)
    (BodyHtml q) (BodyText q) (Body q) (IsHtml q) (Attachments q) (submissionKey (MessageID m) (rcpts s)) (ReplyTo q) (InReplyTo q)
    (References q) (DispositionNotificationTo q) true.

(** [Data]: the reply, and the request handed to the send path, with its tenant;
    [send] is what the send path answers. *)
Definition Data (raw : string) (send : string -> SendEmailRequest -> result Send.sendError Send.SendEmailResponse) (s : session) :
    option SMTPError * option (string * SendEmailRequest) :=
  if eqb (tenantID s) "" then (Some errNotAuthenticated, None)
  else if (length (rcpts s) =? 0)%nat then (Some (mkError codeNotAuthorized enhancedNoValidRecipient "No valid recipients"), None)
  else
    match parse raw (from s) with
    | Err ErrNoFrom =>
        (Some (mkError codeNotAuthorized enhancedNotAuthorized "Message has no From address and the envelope sender is empty"), None)
    | Err _ => (Some (mkError codeBadArguments enhancedBadArguments "Message could not be parsed"), None)
    | Ok m =>
        match resolveProvider (ProviderID m) s with
        | Err e => (Some e, None)
        | Ok provider =>
            let req := submitted m provider s in
            (match send (tenantID s) req with Err e => Some (submissionError e) | Ok _ => None end, Some (tenantID s, req))
        end
    end.

Definition Reset (s : session) : session := mkSession (tenantID s) (providerID s) (keyID s) "" [].
Definition Logout (s : session) : session := mkSession "" "" "" (from (Reset s)) (rcpts (Reset s)).

(** *** The LOGIN mechanism *)

Record loginServer := mkLogin {
  username : string;
  step : nat
}.

Inductive loginReply :=
| Challenge (text : string)
| Authenticate (username password : string)
| LoginError (text : string).

Definition Next (l : loginServer) (response : option string) : loginServer * loginReply :=
  match step l with
  | 0%nat =>
      match response with
      | None => (mkLogin (username l) 1, Challenge "Username:")
      | Some u => (mkLogin u 2, Challenge "Password:")
      end
  | 1%nat =>
      match response with
      | None => (l, LoginError "sasl: expected a username")
      | Some u => (mkLogin u 2, Challenge "Password:")
      end
  | 2%nat =>
      match response with
      | None => (l, LoginError "sasl: expected a password")
      | Some p => (mkLogin (username l) 3, Authenticate (username l) p)
      end
  | _ => (l, LoginError "sasl: unexpected client response")
  end.

(** *** Whole conversations *)

(** The calls the library makes; AUTH carries the credentials either mechanism
    gathered and what the verifier answers. *)
Inductive call :=
| CAuth (username : string) (key : result string ApiKeys.ApiKey)
| CMail (address : string)
| CRcpt (to : string)
| CData (raw : string) (send : string -> SendEmailRequest -> result Send.sendError Send.SendEmailResponse)
| CReset
| CLogout.

(** A call's session, reply and submission. *)
Definition perform (c : call) (s : session) : session * option SMTPError * option (string * SendEmailRequest) :=
  match c with
  | CAuth u k => (authenticate u k s, None)
  | CMail a => (Mail a s, None)
  | CRcpt a => (Rcpt a s, None)
  | CData raw send => let '(e, out) := Data raw send s in (s, e, out)
  | CReset => (Reset s, None, None)
  | CLogout => (Logout s, None, None)
  end.

(** The submissions of a conversation, in order, and the session it leaves. *)
Fixpoint converse (cs : list call) (s : session) : session * list (string * SendEmailRequest) :=
  match cs with
  | [] => (s, [])
  | c :: rest =>
      let '(s', _, out) := perform c s in
      let '(s'', more) := converse rest s' in
      (s'', (match out with Some o => o :: more | None => more end))
  end.

End Session.

(** ** Who submits *)

Section Submissions.
Context (uuidParse : string -> option string) (SHA256 : string -> string).
Context (parse : string -> string -> result parseError Message).

Abbreviation data := (Data uuidParse SHA256 parse).

Lemma resolveProvider_ok h s p : resolveProvider uuidParse h s = Ok p -> exists u, uuidParse p = Some u /\ u <> Send.nilUUID.
Proof.
  unfold resolveProvider. cbv zeta. destruct (eqb _ ""); [done|]. unfold validateProviderID. destruct (uuidParse _) as [u|] eqn:E; [|done].
  destruct (eqb u Send.nilUUID) eqn:En; [done|]. apply eqb_false in En. intros [= <-]. by exists u.
Qed.

Lemma data_inv raw send s r tenant req : data raw send s = (r, Some (tenant, req)) ->
  tenantID s <> "" /\ rcpts s <> [] /\ tenant = tenantID s /\ (r = None <-> is_ok (send tenant req) = true) /\
  exists m p, parse raw (from s) = Ok m /\ resolveProvider uuidParse (ProviderID m) s = Ok p /\ req = submitted SHA256 m p s.
Proof.
  unfold Data. destruct (eqb (tenantID s) "") eqn:Et; [done|]. apply eqb_false in Et. destruct (Nat.eqb_spec (length (rcpts s)) 0) as [|Hr]; [done|].
  destruct (parse raw (from s)) as [m|e] eqn:Ep; [|by destruct e]. destruct (resolveProvider uuidParse (ProviderID m) s) as [p|e] eqn:Er; [|done].
  intros [= <- <- <-]. split_and!; [done|by destruct (rcpts s)|done| |by exists m, p]. by destruct (send _ _).
Qed.

(** *** The envelope *)

Lemma blindFrom_spec visible envelope : forall seen,
  let out := blindFrom visible seen envelope in
  (forall b, b ∈ out -> b ∈ envelope /\ (normaliseAddress b ∉ visible) /\ (normaliseAddress b ∉ seen)) /\ NoDup (normaliseAddress <$> out) /\
  (forall a, a ∈ envelope -> normaliseAddress a = "" \/ normaliseAddress a ∈ visible \/ normaliseAddress a ∈ seen \/ normaliseAddress a ∈ (normaliseAddress <$> out)).
Proof.
  induction envelope as [|a rest IH]; intros seen; cbn [blindFrom]; [split_and!; [by intros b ?%elem_of_nil|constructor|by intros b ?%elem_of_nil]|].
  assert (Hskip : forall P : Prop, P -> (P -> normaliseAddress a = "" \/ normaliseAddress a ∈ visible \/ normaliseAddress a ∈ seen) ->
    let out := blindFrom visible seen rest in
    (forall b, b ∈ out -> b ∈ a :: rest /\ (normaliseAddress b ∉ visible) /\ (normaliseAddress b ∉ seen)) /\ NoDup (normaliseAddress <$> out) /\
    (forall x, x ∈ a :: rest -> normaliseAddress x = "" \/ normaliseAddress x ∈ visible \/ normaliseAddress x ∈ seen \/ normaliseAddress x ∈ (normaliseAddress <$> out))).
  { intros P HP Ha. destruct (IH seen) as (H1 & H2 & H3). split_and!; [|done|].
    - intros b Hb. destruct (H1 b Hb) as (? & ? & ?). split_and!; [by right|done..].
    - intros x [->|Hx]%elem_of_cons; [|by apply H3]. destruct (Ha HP) as [?|[?|?]]; auto. }
  destruct (eqb (normaliseAddress a) "") eqn:E; [apply eqb_true in E; by apply (Hskip _ E); auto|]. apply eqb_false in E.
  destruct (bool_decide_reflect (normaliseAddress a ∈ visible)) as [Hv|Hv]; [by apply (Hskip _ Hv); auto|].
  destruct (bool_decide_reflect (normaliseAddress a ∈ seen)) as [Hs|Hs]; [by apply (Hskip _ Hs); auto|]. clear Hskip.
  destruct (IH ({[normaliseAddress a]} ∪ seen)) as (H1 & H2 & H3). cbn [fmap list_fmap]. split_and!.
  - intros b [->|Hb]%elem_of_cons; [split_and!; [by left|done..]|]. destruct (H1 b Hb) as (? & ? & Hns). split_and!; [by right|done|]. intros ?. apply Hns. by apply elem_of_union_r.
  - constructor; [|done]. intros (b & Hab & Hb)%list_elem_of_fmap. destruct (H1 b Hb) as (_ & _ & Hns). apply Hns. rewrite <- Hab. by apply elem_of_union_l, elem_of_singleton.
  - intros x [->|Hx]%elem_of_cons; [right; right; right; by left|]. destruct (H3 x Hx) as [?|[?|[Hx'|?]]]; [by auto..| |right; right; right; by right].
    apply elem_of_union in Hx' as [->%elem_of_singleton|?]; [right; right; right; by left|by auto].
Qed.

(** C21: everyone in the envelope is sent the message, and nobody blind is shown: each
    envelope recipient is among the recipients of the request, the Bcc names only
    envelope recipients that no header names, each once, and when the headers name
    only envelope recipients the request's recipients are the envelope's, no more. *)
Theorem envelope_is_sent_to raw send s r tenant req : data raw send s = (r, Some (tenant, req)) ->
  (forall a, a ∈ rcpts s -> normaliseAddress a <> "" -> normaliseAddress a ∈ uniqueRecipients [To req; Cc req; Bcc req]) /\
  (forall b, b ∈ Bcc req -> b ∈ rcpts s /\ normaliseAddress b ∉ (normaliseAddress <$> (To req ++ Cc req)%list)) /\ NoDup (normaliseAddress <$> Bcc req) /\
  ((forall a, a ∈ (To req ++ Cc req)%list -> normaliseAddress a ∈ (normaliseAddress <$> rcpts s)) ->
    uniqueRecipients [To req; Cc req; Bcc req] ≡ₚ uniqueRecipients [rcpts s]).
Proof.
  intros (_ & _ & _ & _ & m & p & _ & _ & ->)%data_inv. cbn [submitted To Cc Bcc]. set (q := Request m).
  destruct (blindFrom_spec (list_to_set (normaliseAddress <$> (To q ++ Cc q)%list)) (rcpts s) ∅) as (H1 & H2 & H3). fold (blindRecipients (rcpts s) (To q) (Cc q)) in H1, H2, H3.
  assert (Hcov : forall a, a ∈ rcpts s -> normaliseAddress a <> "" -> normaliseAddress a ∈ uniqueRecipients [To q; Cc q; blindRecipients (rcpts s) (To q) (Cc q)]).
  { intros a Ha Hne. apply uniqueFrom_spec. split_and!; [set_solver|done|]. cbn [concat]. rewrite app_nil_r, app_assoc, fmap_app. apply elem_of_app.
    destruct (H3 a Ha) as [?|[?%elem_of_list_to_set|[?%elem_of_empty|?]]]; [done|by left|done|by right]. }
  split_and!; [done| |done|].
  - intros b Hb. destruct (H1 b Hb) as (? & Hv & _). split; [done|]. intros ?. apply Hv. by apply elem_of_list_to_set.
  - intros Hsub. destruct (uniqueFrom_spec ∅ (concat [To q; Cc q; blindRecipients (rcpts s) (To q) (Cc q)])) as [Hnd Hin], (uniqueFrom_spec ∅ (concat [rcpts s])) as [Hnd' Hin'].
    apply NoDup_Permutation; [done..|]. intros x. unfold uniqueRecipients. split.
    + intros (_ & Hne & (a & -> & Ha)%list_elem_of_fmap)%Hin. apply Hin'. split_and!; [set_solver|done|]. cbn [concat]. rewrite app_nil_r.
      cbn [concat] in Ha. rewrite app_nil_r, app_assoc in Ha. apply elem_of_app in Ha as [Ha|Ha]; [by apply Hsub|]. apply list_elem_of_fmap_2. by apply H1.
    + intros (_ & Hne & (a & -> & Ha)%list_elem_of_fmap)%Hin'. cbn [concat] in Ha. rewrite app_nil_r in Ha. by apply Hcov.
Qed.

(** *** Whose it is *)

Context (maxRecipients : Z) (Hmax : 0 <= maxRecipients).

Abbreviation talk := (converse uuidParse SHA256 parse maxRecipients).
Abbreviation act := (perform uuidParse SHA256 parse maxRecipients).

(** Credentials AUTH accepts, whatever the session. *)
Definition grants (u : string) (k : result string ApiKeys.ApiKey) : bool := match (authenticate uuidParse u k NewSession).2 with None => true | Some _ => false end.

(** The identity a call leaves: AUTH that is accepted gives one, the end takes it. *)
Definition identityStep (i : option ApiKeys.ApiKey) (c : call) : option ApiKeys.ApiKey :=
  match c with
  | CAuth u (Ok k) => if grants u (Ok k) then Some k else i
  | CLogout => None
  | _ => i
  end.
Definition identity (cs : list call) : option ApiKeys.ApiKey := foldl identityStep None cs.

(** The envelope a call leaves. *)
Definition holds (i : option ApiKeys.ApiKey) (s : session) : Prop :=
  match i with
  | None => tenantID s = "" /\ rcpts s = []
  | Some k => tenantID s = ApiKeys.TenantID k /\ keyID s = ApiKeys.ID k /\ Policy.ScopeEmailSend ∈ ApiKeys.Scopes k
  end /\ Z.of_nat (length (rcpts s)) <= maxRecipients.

Lemma grants_spec u k s : grants u (Ok k) = true ->
  authenticate uuidParse u (Ok k) s = (mkSession (ApiKeys.TenantID k) (TrimSpace u) (ApiKeys.ID k) (from s) (rcpts s), None) /\ Policy.ScopeEmailSend ∈ ApiKeys.Scopes k.
Proof.
  unfold grants, authenticate, hasScope. destruct (bool_decide_reflect (Policy.ScopeEmailSend ∈ ApiKeys.Scopes k)); [|done]. cbn [negb]. cbv zeta.
  by destruct (if eqb (TrimSpace u) "" then None else _).
Qed.

Lemma refuses_spec u k s : grants u k = false -> (authenticate uuidParse u k s).1 = s.
Proof.
  unfold grants, authenticate. destruct k as [k|]; [|done]. destruct (negb _); [done|]. cbv zeta.
  by destruct (if eqb (TrimSpace u) "" then None else _).
Qed.

Lemma act_holds i c s : holds i s -> holds (identityStep i c) (act c s).1.1.
Proof.
  intros [Hi Hn]. destruct c as [u [k|e]|a|a|raw send| |]; cbn [identityStep perform fst].
  - destruct (grants u (Ok k)) eqn:E; [|rewrite refuses_spec by done; by split]. destruct (grants_spec u k s E) as [-> ?]. by split.
  - by split.
  - unfold Mail. destruct (eqb (tenantID s) "") eqn:E; [by split|]. split; [|done]. destruct i; [by destruct Hi|]. destruct Hi as [Ht _]. by rewrite Ht in E.
  - unfold Rcpt. destruct (eqb (tenantID s) "") eqn:E; [by split|]. destruct (maxRecipients <=? _) eqn:El; [by split|]. apply Z.leb_gt in El.
    split; [destruct i; [by destruct Hi|]; destruct Hi as [Ht _]; by rewrite Ht in E|]. cbn [fst rcpts]. rewrite length_app. cbn [length]. lia.
  - destruct (Data _ _ _ _ _ _). by split.
  - split; [|done]. destruct i; [by destruct Hi|]. by destruct Hi.
  - by split.
Qed.

Lemma talk_holds cs : forall i s, holds i s -> holds (foldl identityStep i cs) (talk cs s).1.
Proof.
  induction cs as [|c cs IH]; intros i s Hs; cbn [converse foldl]; [done|]. pose proof (act_holds i c s Hs) as Ha.
  destruct (act c s) as [[s' e] out]. cbn [fst] in Ha. specialize (IH _ _ Ha). by destruct (talk cs s') as [s'' more].
Qed.

(** C20: nothing is submitted but under a key that may send.  Whatever a client does
    in a conversation, a message reaches the send path only for the tenant of the key
    the conversation last authenticated with and has not logged out of; that key has
    the scope to send; the message names a provider, by the header or by AUTH, that
    is a UUID and not the nil one; there is a recipient and there are no more than
    the limit; and the client is told it was accepted exactly when the send path
    accepted it. *)
Theorem submission_is_authorised before raw send r tenant req :
  data raw send (talk before NewSession).1 = (r, Some (tenant, req)) ->
  exists k, identity before = Some k /\ ApiKeys.TenantID k = tenant /\ Policy.ScopeEmailSend ∈ ApiKeys.Scopes k /\ tenant <> "" /\
    (exists u, uuidParse (ProviderId req) = Some u /\ u <> Send.nilUUID) /\
    0 < Z.of_nat (length (rcpts (talk before NewSession).1)) <= maxRecipients /\ SaveSentCopy req = true /\
    (r = None <-> is_ok (send tenant req) = true).
Proof.
  intros Hd. destruct (data_inv _ _ _ _ _ _ Hd) as (Ht & Hr & -> & Hok & m & p & _ & Hp & ->).
  pose proof (talk_holds before None NewSession) as [Hi Hn]; [by repeat split|]. fold (identity before) in Hi.
  destruct (identity before) as [k|]; [|by destruct Hi]. destruct Hi as (Hk & _ & Hs). exists k.
  split_and!; try done; [by apply resolveProvider_ok in Hp|]. destruct (rcpts _); [done|]. cbn [length]. lia.
Qed.

End Submissions.

(** ** Resubmissions *)

Section Keys.
Context (SHA256 : string -> string).

Abbreviation keyOf := (submissionKey SHA256).

(** A resubmission has the key of the first submission: the order and the
    spelling in case and blanks of the envelope recipients do not matter, and with a
    digest of 32 bytes the key is one the send path accepts, whatever the Message-ID. *)
Theorem resubmission_has_the_same_key id r r' : normaliseAddress <$> r ≡ₚ normaliseAddress <$> r' ->
  keyOf id r = keyOf id r' /\ ((forall x, String.length (SHA256 x) = 32%nat) -> ValidateIdempotencyKey (keyOf id r) = Ok tt).
Proof.
  intros Hp. split.
  - unfold submissionKey. destruct (eqb id ""); [done|]. do 6 f_equal. apply (Sorted_unique String.le); [apply (Sorted_merge_sort String.le)..|].
    by rewrite !merge_sort_Permutation.
  - intros Hlen. unfold submissionKey. destruct (eqb id ""); [done|]. set (d := SHA256 _). unfold ValidateIdempotencyKey.
    assert (Hl : forall x, String.length (HexEncode x) = (2 * String.length x)%nat) by (induction x as [|c x IH]; [done|]; cbn [HexEncode String.length]; rewrite IH; lia).
    unfold strlen. rewrite str_length_app, Hl. unfold d. rewrite Hlen. cbn [String.length Nat.add Nat.mul].
    destruct (Z.ltb_spec MaxIdempotencyKeyLength (Z.of_nat 69)) as [Hlt|_]; [unfold MaxIdempotencyKeyLength in Hlt; lia|].
    rewrite str_all_app. apply (f_equal (fun b => if b : bool then Ok tt else Err KeyNotPrintable) (y := true)).
    apply andb_true_iff. split; [done|]. apply (str_all_weaken is_hex); [|apply HexEncode_hex]. intros c. destruct c as [[] [] [] [] [] [] [] []]; vm_compute; done.
Qed.

(** A text without a zero byte. *)
Definition no_nul (s : string) : bool := str_all (fun c => negb (bool_decide (c = chr 0))) s.

Lemma nul_separated a b l l' : no_nul a = true -> no_nul b = true -> Forall (fun x => no_nul x = true) l -> Forall (fun x => no_nul x = true) l' ->
  a ++ String.concat "" ((fun r => NUL ++ r) <$> l) = b ++ String.concat "" ((fun r => NUL ++ r) <$> l') -> a = b /\ l = l'.
Proof.
  intros Ha Hb Hl. revert a b l' Ha Hb. induction Hl as [|x l Hx Hl IH]; intros a b l' Ha Hb Hl' H.
  - destruct Hl' as [|y l' Hy Hl']; [by rewrite !string_app_nil in H|]. exfalso. cbn [fmap list_fmap] in H. rewrite concat_cons_nosep in H. rewrite string_app_nil in H.
    subst a. unfold no_nul in Ha. rewrite str_all_app in Ha. apply andb_true_iff in Ha as [_ Ha]. by cbn in Ha.
  - destruct Hl' as [|y l' Hy Hl'].
    + exfalso. cbn [fmap list_fmap] in H. rewrite concat_cons_nosep in H. rewrite string_app_nil in H.
      subst b. unfold no_nul in Hb. rewrite str_all_app in Hb. apply andb_true_iff in Hb as [_ Hb]. by cbn in Hb.
    + cbn [fmap list_fmap] in H. rewrite !concat_cons_nosep in H. unfold NUL in H. change (String (chr 0) "" ++ x) with (String (chr 0) x) in H. change (String (chr 0) "" ++ y) with (String (chr 0) y) in H.
      change (String (chr 0) x ++ ?r) with (String (chr 0) (x ++ r)) in H. change (String (chr 0) y ++ ?r) with (String (chr 0) (y ++ r)) in H.
      apply (sep_inj (chr 0)) in H as [-> H]; [|done..]. apply IH in H as [-> ->]; by try done.
Qed.

(** Two submissions share a key only when they are the same message to the same
    people: with a digest that does not collide on them, equal keys have the same
    Message-ID and the same envelope recipients, up to order, case and blanks. *)
Theorem key_names_its_envelope id id' r r' : (forall x y, SHA256 x = SHA256 y -> x = y) -> id <> "" ->
  Forall (fun x => no_nul x = true) (id :: id' :: (normaliseAddress <$> (r ++ r')%list)) -> keyOf id r = keyOf id' r' ->
  id = id' /\ normaliseAddress <$> r ≡ₚ normaliseAddress <$> r'.
Proof.
  intros Hsha Hne Hn. unfold submissionKey. apply Forall_cons in Hn as [Hi Hn]. apply Forall_cons in Hn as [Hi' Hn]. rewrite fmap_app in Hn. apply Forall_app in Hn as [Hr Hr'].
  rewrite (proj2 (eqb_false id "") Hne). destruct (eqb id' ""); [done|]. intros H.
  assert (Hx : forall x y : string, "smtp:" ++ x = "smtp:" ++ y -> x = y) by (intros x y; by intros [= ->]).
  apply Hx in H. apply (f_equal HexDecode) in H. rewrite !HexDecode_HexEncode in H. injection H as H. apply Hsha in H.
  apply nul_separated in H as [-> H]; [|done..|by rewrite merge_sort_Permutation|by rewrite merge_sort_Permutation]. split; [done|].
  by rewrite <- (merge_sort_Permutation String.le (normaliseAddress <$> r)), H, merge_sort_Permutation.
Qed.

End Keys.

(** A submission is refused for good only when a retry cannot succeed as it is:
    the reply to an error of the send path is temporary, with an enhanced code that
    agrees, unless the Message-ID was used for another message or a reply header is
    refused. *)
Theorem refusals_invite_a_retry e :
  let reply := submissionError e in
  if bool_decide (400 <= Code reply < 500) then (EnhancedCode reply).1.1 = 4
  else 500 <= Code reply < 600 /\ (EnhancedCode reply).1.1 = 5 /\ ((exists m, e = Send.KeyConflict m) \/ exists h, e = Send.BadReplyHeaders h).
Proof. destruct e as [| | | | | | | | | | | | |[]| |]; cbn; try done; split_and!; eauto; done. Qed.

(** ** What a listener starts with *)

Record Config := mkConfig {
  Addr : string;
  Domain : string;
  TLSConfig : bool;              (* whether there is one *)
  AllowInsecureAuth : bool;
  MaxMessageBytes : Z;
  MaxRecipients : Z;
  MaxAttachments : Z;
  ReadTimeout : Z;
  WriteTimeout : Z
}.

Definition withDefaults (c : Config) : Config * option string :=
  let pos (x d : Z) := if x <=? 0 then d else x in
  (mkConfig (if eqb (Addr c) "" then ":587" else Addr c) (if eqb (Domain c) "" then "panmail" else Domain c) (TLSConfig c) (AllowInsecureAuth c)
     (pos (MaxMessageBytes c) (Z.shiftl 25 20)) (pos (MaxRecipients c) 100) (pos (MaxAttachments c) 25)
     (pos (ReadTimeout c) (60 * Second)) (pos (WriteTimeout c) (60 * Second)),
   if negb (TLSConfig c) && negb (AllowInsecureAuth c)
   then Some "smtp: AUTH without TLS is only allowed when AllowInsecureAuth is set explicitly" else None).

(** ** A relay that splits its envelope *)

Definition sampleKey : ApiKeys.ApiKey := ApiKeys.mkApiKey "k1" "t1" "relay" "" "" [Policy.ScopeEmailSend] None None true 0 0.
Definition acceptAll (tenant : string) (req : SendEmailRequest) : result Send.sendError Send.SendEmailResponse := Ok (Send.mkResponse "m" Classify.PENDING).
Definition sampleUuid (s : string) : option string := if (String.length s =? 36)%nat then Some s else None.

Definition greeting : list call := [CAuth "" (Ok sampleKey); CMail "app@example.com"].
Definition toAnn : list call := (greeting ++ [CRcpt "Ann@example.net"])%list.

Abbreviation sampleTalk := (converse sampleUuid id sampleParser 100).
Abbreviation sampleData := (Data sampleUuid id sampleParser "raw" acceptAll).

(** One message to ann and bob, sent by a relay in two transactions, one for each. *)
Definition splitRelay : list call :=
  (toAnn ++ [CData "raw" acceptAll; CReset; CMail "app@example.com"; CRcpt "bob@example.net"; CData "raw" acceptAll])%list.

(** The envelope does not decide who receives the message when the headers name
    more: a relay that splits one message into two transactions, one recipient each,
    has it sent to both recipients twice, under two keys, where the comment says the
    envelope decides and that each transaction is a message of its own to queue. *)
Theorem split_message_is_sent_twice :
  (fun o => uniqueRecipients [To o.2; Cc o.2; Bcc o.2]) <$> (sampleTalk splitRelay NewSession).2 =
    [["ann@example.net"; "bob@example.net"]; ["ann@example.net"; "bob@example.net"]] /\
  NoDup ((fun o => IdempotencyKey o.2) <$> (sampleTalk splitRelay NewSession).2).
Proof.
  split; [vm_compute; reflexivity|]. apply (bool_decide_unpack _). vm_compute. exact I.
Qed.

Lemma submission_is_authorised_witness :
  exists tenant req, (sampleData (sampleTalk toAnn NewSession).1).2 = Some (tenant, req) /\ tenant = "t1" /\ identity sampleUuid toAnn = Some sampleKey.
Proof.
  destruct (sampleData (sampleTalk toAnn NewSession).1) as [r [[tenant req]|]] eqn:E; [|exfalso; revert E; vm_compute; discriminate].
  destruct (submission_is_authorised sampleUuid id sampleParser 100 ltac:(lia) toAnn "raw" acceptAll r tenant req E) as (k & Hk & Ht & _).
  assert (Hi : identity sampleUuid toAnn = Some sampleKey) by (vm_compute; reflexivity). rewrite Hi in Hk. injection Hk as <-.
  exists tenant, req. split; [reflexivity|]. split; [by rewrite <- Ht|exact Hi].
Defined.

Lemma envelope_is_sent_to_witness :
  exists req, (sampleData (sampleTalk (toAnn ++ [CRcpt " Carol@example.net"]) NewSession).1).2 = Some ("t1", req) /\
    "carol@example.net" ∈ uniqueRecipients [To req; Cc req; Bcc req] /\ Bcc req = [" Carol@example.net"].
Proof.
  destruct (sampleData (sampleTalk (toAnn ++ [CRcpt " Carol@example.net"]) NewSession).1) as [r [[tenant req]|]] eqn:E; [|exfalso; revert E; vm_compute; discriminate].
  destruct (envelope_is_sent_to sampleUuid id sampleParser _ _ _ _ _ _ E) as [Hall _]. exists req.
  assert (Ht : Some (tenant, Bcc req) = Some ("t1", [" Carol@example.net"])).
  { apply (f_equal (fun x => (fun o : string * SendEmailRequest => (o.1, Bcc o.2)) <$> x.2)) in E. cbn [fmap option_fmap option_map snd fst] in E. rewrite <- E. vm_compute. reflexivity. }
  injection Ht as -> Hb. split; [reflexivity|]. split; [|exact Hb]. apply (Hall " Carol@example.net"); [|vm_compute; discriminate].
  apply list_elem_of_lookup_2 with 1%nat. vm_compute. reflexivity.
Defined.

Lemma resubmission_has_the_same_key_witness :
  submissionKey id "<m@x>" ["Ann@x"; "bob@y"] = submissionKey id "<m@x>" [" bob@y"; "ann@x"].
Proof. apply (resubmission_has_the_same_key id "<m@x>" ["Ann@x"; "bob@y"] [" bob@y"; "ann@x"]). cbn. apply perm_swap. Defined.

Lemma key_names_its_envelope_witness : "<m@x>" = "<m@x>" /\ normaliseAddress <$> ["Ann@x"; "bob@y"] ≡ₚ normaliseAddress <$> [" bob@y"; "ann@x"].
Proof.
  apply (key_names_its_envelope id "<m@x>" "<m@x>" ["Ann@x"; "bob@y"] [" bob@y"; "ann@x"]); [done|done| |vm_compute; reflexivity].
  repeat constructor.
Defined.

End SmtpSession.
