(* ===== verification/SmtpListener.v ===== *)
(** * The SMTP listener: its configuration and its life cycle

    Models internal/smtp_submission: the stored configuration (entities/config.go,
    repositories/stores/postgres/store.go), the supervisor that alone opens and closes
    the listener (usecases/supervisor.go) and the use case that stores changes and
    reconciles each gateway with them (usecases/usecase.go).

    The supervisor's methods hold one mutex, so a history is a list of them and of
    accept loops that end on their own.  The system's sockets are part of the state:
    which listeners this process has open, at which address.  Which addresses clash
    is a parameter, and what else holds a port is an argument of each call;
    [tls.X509KeyPair] is a parameter. *)
From S2P Require Import Prelude GoStrings Encoding NetAddr Secrets SmtpSession.
From Stdlib Require Import Ascii.

Module SmtpListener.
Import GoStrings Encoding NetAddr.
Local Open Scope string_scope.
Local Open Scope Z_scope.

(** ** The configuration *)

Definition BindScopeLoopback : string := "loopback".
Definition BindScopeAllInterfaces : string := "all_interfaces".
Definition loopbackHost : string := "127.0.0.1".
Definition allInterfacesHost : string := "0.0.0.0".
Definition SubmissionPort : Z := 587.
Definition smtpRelayPort : Z := 25.
Definition maxPort : Z := 65535.

Inductive cfgError :=
| ErrInvalidBindScope
| ErrInvalidPort
| ErrRelayPort
| ErrInsecureAuthOffLoopback
| ErrTLSRequired
| ErrIncompleteTLS
| ErrNoAuthPath
| InvalidKeypair (e : string)
| ErrManagedByFlags
| ErrTLSPairRequired
| ErrClearAndSetTLS
| ErrNoEncryptionKey
| KeyNotSealed (e : Secrets.secretError)
| KeyNotOpened (e : Secrets.secretError)
| Database (e : string)
| NotUsable (e : cfgError)
| NotServed (e : string).

Record Config := mkConfig {
  Enabled : bool;
  BindScope : string;
  Port : Z;
  TLSCertPEM : string;
  TLSKeyPEM : string;
  AllowInsecureAuth : bool;
  UpdatedAt : Z
}.

Definition Default : Config := mkConfig false BindScopeLoopback SubmissionPort "" "" false 0.

Definition HasTLS (c : Config) : bool := negb (eqb (TLSCertPEM c) "") && negb (eqb (TLSKeyPEM c) "").

Definition Host (c : Config) : string := if eqb (BindScope c) BindScopeAllInterfaces then allInterfacesHost else loopbackHost.

Definition Addr (c : Config) : string := JoinHostPort (Host c) (FormatInt (Port c)).

Section Listener.
(** Why a certificate and a key are no pair. *)
Context (X509KeyPair : string -> string -> option string).

Definition Keypair (c : Config) : option cfgError :=
  match X509KeyPair (TLSCertPEM c) (TLSKeyPEM c) with Some e => Some (InvalidKeypair e) | None => None end.

Definition Validate (c : Config) : option cfgError :=
  if negb (eqb (BindScope c) BindScopeLoopback || eqb (BindScope c) BindScopeAllInterfaces) then Some ErrInvalidBindScope
  else if (Port c <=? 0) || (maxPort <? Port c) then Some ErrInvalidPort
  else if Port c =? smtpRelayPort then Some ErrRelayPort
  else if negb (Bool.eqb (eqb (TLSCertPEM c) "") (eqb (TLSKeyPEM c) "")) then Some ErrIncompleteTLS
  else if AllowInsecureAuth c && negb (eqb (BindScope c) BindScopeLoopback) then Some ErrInsecureAuthOffLoopback
  else if eqb (BindScope c) BindScopeAllInterfaces && negb (HasTLS c) then Some ErrTLSRequired
  else if Enabled c && negb (HasTLS c) && negb (AllowInsecureAuth c) then Some ErrNoAuthPath
  else if HasTLS c then Keypair c
  else None.

(** ** The sockets and the supervisor *)

(** The listeners this process has open, by a number of their own. *)
Record Sockets := mkSockets {
  open_ : gmap nat string;
  nextSocket : nat
}.

(** Whether a listener at one address keeps another from being bound. *)
Context (clash : string -> string -> bool).

(** [net.Listen]; [taken] is what else, outside this process, holds an address. *)
Definition Listen (taken : string -> option string) (addr : string) (k : Sockets) : result string (nat * Sockets) :=
  if existsb (fun p => clash p.2 addr) (map_to_list (open_ k)) then Err "bind: address already in use"
  else match taken addr with
       | Some e => Err e
       | None => Ok (nextSocket k, mkSockets (<[nextSocket k := addr]> (open_ k)) (S (nextSocket k)))
       end.

Definition Close_ (l : nat) (k : Sockets) : Sockets := mkSockets (delete l (open_ k)) (nextSocket k).

(** The supervisor's fields; a server is known by the listener it was built for.
    [loops] are the accept loops that were started and have not reported, with the
    generation each was started in: one that is closed reports nothing, one that
    failed just before may still report its error.  The wait for a loop to end, which
    delays a stop and decides nothing, is left out. *)
Record Supervisor := mkSupervisor {
  server : option nat;
  running : option Config;
  listener : option nat;
  generation : nat;
  lastErr : string;
  sockets : Sockets;
  loops : gmap nat nat
}.

Definition NewSupervisor : Supervisor := mkSupervisor None None None 0 "" (mkSockets ∅ 0) ∅.

Definition with_err (e : string) (s : Supervisor) : Supervisor :=
  mkSupervisor (server s) (running s) (listener s) (generation s) e (sockets s) (loops s).
Definition with_sockets (k : Sockets) (s : Supervisor) : Supervisor :=
  mkSupervisor (server s) (running s) (listener s) (generation s) (lastErr s) k (loops s).

(** The text of an error. *)
Definition errText (e : cfgError) : string := match e with InvalidKeypair e => "smtp submission: invalid TLS keypair: " ++ e | NotServed e => e | _ => "smtp submission" end.

Definition buildLocked (c : Config) : option string :=
  match (if HasTLS c then Keypair c else None) with
  | Some e => Some (errText e)
  | None => (SmtpSession.withDefaults (SmtpSession.mkConfig (Addr c) "" (HasTLS c) (AllowInsecureAuth c) 0 0 0 0 0)).2
  end.

Definition bindLocked (taken : string -> option string) (c : Config) (k : Sockets) : result string (nat * Sockets) :=
  match buildLocked c with
  | Some e => Err e
  | None => match Listen taken (Addr c) k with Err e => Err ("cannot listen on " ++ Addr c ++ ": " ++ e) | Ok r => Ok r end
  end.

Definition installLocked (c : Config) (l : nat) (s : Supervisor) : Supervisor :=
  mkSupervisor (Some l) (Some c) (Some l) (S (generation s)) (lastErr s) (sockets s) (<[l := S (generation s)]> (loops s)).

Definition stopLocked (s : Supervisor) : Supervisor :=
  match server s with
  | None => s
  | Some _ =>
      mkSupervisor None None None (S (generation s)) (lastErr s)
        (match listener s with Some l => Close_ l (sockets s) | None => sockets s end) (loops s)
  end.

Definition startLocked (taken : string -> option string) (c : Config) (s : Supervisor) : Supervisor * option string :=
  match bindLocked taken c (sockets s) with
  | Err e => (s, Some e)
  | Ok (l, k) => (installLocked c l (with_sockets k s), None)
  end.

Definition matchesRunning (s : Supervisor) (d : Config) : bool :=
  if negb (Enabled d) then match running s with None => true | Some _ => false end
  else
    match running s with
    | None => false
    | Some c => eqb (Addr c) (Addr d) && Bool.eqb (AllowInsecureAuth c) (AllowInsecureAuth d) && eqb (TLSCertPEM c) (TLSCertPEM d) && eqb (TLSKeyPEM c) (TLSKeyPEM d)
    end.

Definition restoreLocked (taken : string -> option string) (previous : option Config) (cause : string) (s : Supervisor) : Supervisor * string :=
  match previous with
  | None => (s, cause)
  | Some p =>
      if negb (Enabled p) then (s, cause)
      else
        match startLocked taken p s with
        | (s, Some e) =>
            let combined := cause ++ " (the previous listener could not be restored either: " ++ e ++ ")" in
            (with_err combined s, combined)
        | (s, None) => (with_err cause s, cause)
        end
  end.

(** [Apply]; [taken] when the new address is bound, [taken'] when the previous one is
    bound again. *)
Definition Apply (taken taken' : string -> option string) (desired : option Config) (s : Supervisor) : Supervisor * option cfgError :=
  let d := default Default desired in
  match Validate d with
  | Some e => (s, Some e)
  | None =>
      if matchesRunning s d then (with_err "" s, None)
      else if negb (Enabled d) then (with_err "" (stopLocked s), None)
      else if match running s with None => true | Some c => negb (eqb (Addr c) (Addr d)) end then
        match bindLocked taken d (sockets s) with
        | Err e => (with_err e s, Some (NotServed e))
        | Ok (l, k) => (with_err "" (installLocked d l (stopLocked (with_sockets k s))), None)
        end
      else
        let previous := running s in
        match startLocked taken d (stopLocked s) with
        | (s, Some e) => let '(s, e) := restoreLocked taken' previous e (with_err e s) in (s, Some (NotServed e))
        | (s, None) => (with_err "" s, None)
        end
  end.

Definition Close (s : Supervisor) : Supervisor := stopLocked s.

(** The end of [serve]: the accept loop of a listener ended with an error that is not
    its being closed. *)
Definition loopEnds (l : nat) (e : string) (s : Supervisor) : Supervisor :=
  match loops s !! l with
  | None => s
  | Some g =>
      let ls := delete l (loops s) in
      if (generation s =? g)%nat then mkSupervisor None None None (generation s) e (sockets s) ls
      else mkSupervisor (server s) (running s) (listener s) (generation s) (lastErr s) (sockets s) ls
  end.

(** ** Storing a change *)

Record Row := mkRow {
  r_enabled : bool;
  r_bind_scope : string;
  r_port : Z;
  r_tls_certificate : string;
  r_tls_private_key : string;       (* sealed, or empty *)
  r_allow_insecure_auth : bool;
  r_updated_at : Z
}.

Context (Seal : string -> string -> string -> string) (Open_ : string -> string -> string -> option string).
Context (keyring : option Secrets.keySet).

Definition sealKey (nonce : result string string) (pem : string) : result cfgError string :=
  if eqb pem "" then Ok ""
  else
    match keyring with
    | None => Err ErrNoEncryptionKey
    | Some _ => match Secrets.Encrypt Seal nonce keyring pem with Ok v => Ok v | Err e => Err (KeyNotSealed e) end
    end.

Definition unsealKey (stored : string) : result cfgError string :=
  if eqb stored "" then Ok ""
  else
    match keyring with
    | None => Err ErrNoEncryptionKey
    | Some _ => match Secrets.Decrypt Open_ keyring stored with Ok v => Ok v | Err e => Err (KeyNotOpened e) end
    end.

Definition GetConfig (f : fault) (row : option Row) : result cfgError (option Config) :=
  match query f (Ok row) with
  | Err e => Err (Database e)
  | Ok None => Ok None
  | Ok (Some r) =>
      match unsealKey (r_tls_private_key r) with
      | Err e => Err e
      | Ok k => Ok (Some (mkConfig (r_enabled r) (r_bind_scope r) (r_port r) (r_tls_certificate r) k (r_allow_insecure_auth r) (r_updated_at r)))
      end
  end.

Definition SaveConfig (nonce : result string string) (f : fault) (c : Config) (row : option Row) : option Row * option cfgError :=
  match sealKey nonce (TLSKeyPEM c) with
  | Err e => (row, Some e)
  | Ok sealed =>
      match exec f (fun _ => Ok (Some (mkRow (Enabled c) (BindScope c) (Port c) (TLSCertPEM c) sealed (AllowInsecureAuth c) (UpdatedAt c)), tt)) row with
      | (row, Ok _) => (row, None)
      | (row, Err e) => (row, Some (Database e))
      end
  end.

Definition stored (f : fault) (row : option Row) : result cfgError Config :=
  match GetConfig f row with Err e => Err e | Ok None => Ok Default | Ok (Some c) => Ok c end.

Record Change := mkChange {
  ch_Enabled : bool;
  ch_BindScope : string;
  ch_Port : Z;
  ch_TLSCertPEM : string;
  ch_TLSKeyPEM : string;
  ch_AllowInsecureAuth : bool;
  ch_ClearTLS : bool
}.

Definition merge (c : Config) (ch : Change) : result cfgError Config :=
  let out cert key := mkConfig (ch_Enabled ch) (ch_BindScope ch) (ch_Port ch) cert key (ch_AllowInsecureAuth ch) (UpdatedAt c) in
  let suppliedCert := negb (eqb (ch_TLSCertPEM ch) "") in
  let suppliedKey := negb (eqb (ch_TLSKeyPEM ch) "") in
  if ch_ClearTLS ch && (suppliedCert || suppliedKey) then Err ErrClearAndSetTLS
  else if ch_ClearTLS ch then Ok (out "" "")
  else if negb (Bool.eqb suppliedCert suppliedKey) then Err ErrTLSPairRequired
  else if suppliedCert && suppliedKey then Ok (out (ch_TLSCertPEM ch) (ch_TLSKeyPEM ch))
  else Ok (out (TLSCertPEM c) (TLSKeyPEM c)).

Definition with_updated (t : Z) (c : Config) : Config :=
  mkConfig (Enabled c) (BindScope c) (Port c) (TLSCertPEM c) (TLSKeyPEM c) (AllowInsecureAuth c) t.

(** What one call meets. *)
Record CallEnv := mkCallEnv {
  c_read : fault;
  c_nonce : result string string;
  c_now : Z;
  c_write : fault;
  c_taken : string -> option string;
  c_taken' : string -> option string
}.

(** [Update], up to the description it answers with: the row, the supervisor, why it
    was refused, and why it is stored but not served.  [flags] says that process flags
    own the listener. *)
Definition Update (flags : bool) (env : CallEnv) (ch : Change) (row : option Row) (s : Supervisor) :
    option Row * Supervisor * result cfgError (option cfgError) :=
  if flags then (row, s, Err ErrManagedByFlags)
  else
    match stored (c_read env) row with
    | Err e => (row, s, Err e)
    | Ok current =>
        match merge current ch with
        | Err e => (row, s, Err e)
        | Ok d =>
            match Validate d with
            | Some e => (row, s, Err e)
            | None =>
                let d := with_updated (c_now env) d in
                match SaveConfig (c_nonce env) (c_write env) d row with
                | (row, Some e) => (row, s, Err e)
                | (row, None) => let '(s, e) := Apply (c_taken env) (c_taken' env) (Some d) s in (row, s, Ok e)
                end
            end
        end
    end.

Definition Reconcile (flags : bool) (env : CallEnv) (row : option Row) (s : Supervisor) : Supervisor * option cfgError :=
  if flags then (s, None)
  else
    match stored (c_read env) row with
    | Err e => (s, Some e)
    | Ok c =>
        match Validate c with
        | Some e => (s, Some (NotUsable e))
        | None => Apply (c_taken env) (c_taken' env) (Some c) s
        end
    end.

End Listener.

(** ** What is served *)

Section Served.
Context (X509KeyPair : string -> string -> option string) (clash : string -> string -> bool).

Abbreviation valid c := (Validate X509KeyPair c = None).
Abbreviation apply := (Apply X509KeyPair clash).
Abbreviation start := (startLocked X509KeyPair clash).

Inductive event :=
| EApply (taken taken' : string -> option string) (desired : option Config)
| EClose
| ELoopEnds (l : nat) (e : string).

Definition step (s : Supervisor) (ev : event) : Supervisor :=
  match ev with
  | EApply taken taken' d => (apply taken taken' d s).1
  | EClose => Close s
  | ELoopEnds l e => loopEnds l e s
  end.

Definition history (evs : list event) : Supervisor := foldl step NewSupervisor evs.

(** What is running is a valid configuration, on a listener that is open at its
    address; nothing else is supervised. *)
Definition supervised (s : Supervisor) : Prop :=
  match running s with
  | Some c => valid c /\ Enabled c = true /\ exists l, listener s = Some l /\ server s = Some l /\ open_ (sockets s) !! l = Some (Addr c)
  | None => server s = None /\ listener s = None
  end /\
  (forall l a, open_ (sockets s) !! l = Some a -> (l < nextSocket (sockets s))%nat).

(** Besides, no port of an earlier listener is left open. *)
Definition nothingElseOpen (s : Supervisor) : Prop :=
  forall l a, open_ (sockets s) !! l = Some a -> listener s = Some l.

Lemma stop_supervised s : supervised s -> supervised (stopLocked s) /\ running (stopLocked s) = None /\ (nothingElseOpen s -> nothingElseOpen (stopLocked s)).
Proof.
  intros [Hr Hn]. unfold stopLocked. destruct (server s) as [x|] eqn:Es.
  - destruct (running s) as [c|] eqn:Er; [|by destruct Hr]. destruct Hr as (_ & _ & l & Hl & _ & _). rewrite Hl. split_and!; [|done|].
    + split; [done|]. cbn. intros i a [_ Hi]%lookup_delete_Some. by eapply Hn.
    + intros He i a. cbn. intros [Hne Hi]%lookup_delete_Some. apply He in Hi. congruence.
  - destruct (running s) as [c|] eqn:Er; [destruct Hr as (_ & _ & l & _ & Hs & _); congruence|]. split; [|done]. split; [|done]. rewrite Er. by destruct Hr.
Qed.

Lemma bindLocked_inv taken c k l k' : bindLocked X509KeyPair clash taken c k = Ok (l, k') ->
  l = nextSocket k /\ k' = mkSockets (<[l := Addr c]> (open_ k)) (S (nextSocket k)) /\ (forall i a, open_ k !! i = Some a -> clash a (Addr c) = false).
Proof.
  unfold bindLocked, Listen. destruct (buildLocked _ c); [done|]. destruct (existsb _ _) eqn:E; [done|]. destruct (taken (Addr c)); [done|].
  intros [= <- <-]. split_and!; [done..|]. intros i a Hi. destruct (clash a (Addr c)) eqn:Ec; [|done]. exfalso.
  assert (Ht : existsb (fun p : nat * string => clash p.2 (Addr c)) (map_to_list (open_ k)) = true).
  { apply existsb_exists. exists (i, a). split; [|done]. apply list_elem_of_In. by apply elem_of_map_to_list. }
  congruence.
Qed.

Lemma install_supervised s c l : valid c -> Enabled c = true -> open_ (sockets s) !! l = Some (Addr c) ->
  (forall i a, open_ (sockets s) !! i = Some a -> (i < nextSocket (sockets s))%nat) -> supervised (installLocked c l s).
Proof. intros Hv He Ho Hn. split; [|done]. split_and!; [done..|]. by exists l. Qed.

Lemma fresh_socket s c : (forall i a, open_ (sockets s) !! i = Some a -> (i < nextSocket (sockets s))%nat) ->
  forall i a, <[nextSocket (sockets s) := Addr c]> (open_ (sockets s)) !! i = Some a -> (i < S (nextSocket (sockets s)))%nat.
Proof. intros Hn i a [[<- _]|[_ Hi]]%lookup_insert_Some; [lia|]. specialize (Hn i a Hi). lia. Qed.

Lemma start_supervised taken c s : supervised s -> running s = None -> valid c -> Enabled c = true ->
  let '(s', r) := start taken c s in
  supervised s' /\ (nothingElseOpen s -> nothingElseOpen s') /\ match r with None => running s' = Some c | Some _ => s' = s end.
Proof.
  intros [Hr Hn] Hnone Hv He. unfold startLocked. destruct (bindLocked _ _ _ _ _) as [[l k]|e] eqn:Eb; [|by split_and!].
  apply bindLocked_inv in Eb as (-> & -> & _). split_and!; [|..|done].
  - apply install_supervised; [done..| |]; cbn; [apply lookup_insert_eq|by apply fresh_socket].
  - intros Hne i a. cbn. intros [[<- _]|[_ Hi]]%lookup_insert_Some; [done|]. apply Hne in Hi. rewrite Hnone in Hr. destruct Hr as [_ Hl]. congruence.
Qed.

(** The move to another address: bound first, then the old listener goes. *)
Lemma move_supervised taken d s l k : supervised s -> valid d -> Enabled d = true -> bindLocked X509KeyPair clash taken d (sockets s) = Ok (l, k) ->
  let s' := installLocked d l (stopLocked (with_sockets k s)) in supervised s' /\ (nothingElseOpen s -> nothingElseOpen s').
Proof.
  intros [Hr Hn] Hv He Hb. apply bindLocked_inv in Hb as (-> & -> & _). set (l := nextSocket (sockets s)). cbv zeta.
  assert (Hsock : exists o, sockets (stopLocked (with_sockets (mkSockets (<[l := Addr d]> (open_ (sockets s))) (S l)) s)) = mkSockets o (S l) /\
    o !! l = Some (Addr d) /\ (forall i a, o !! i = Some a -> i = l \/ open_ (sockets s) !! i = Some a) /\
    (nothingElseOpen s -> forall i a, o !! i = Some a -> i = l)).
  { unfold stopLocked. cbn [with_sockets server listener]. destruct (server s) as [x|] eqn:Es.
    - destruct (running s) as [c|]; [|by destruct Hr]. destruct Hr as (_ & _ & x' & Hl & Hs & Ho). rewrite Hl. cbn.
      assert (Hne : x' <> l) by (specialize (Hn _ _ Ho); unfold l; lia). exists (delete x' (<[l := Addr d]> (open_ (sockets s)))). split; [done|]. split_and!.
      + rewrite lookup_delete_ne by done. apply lookup_insert_eq.
      + intros i a [_ [[-> _]|[_ Hi]]%lookup_insert_Some]%lookup_delete_Some; auto.
      + intros Hne' i a [Hx [[-> _]|[_ Hi]]%lookup_insert_Some]%lookup_delete_Some; [done|]. apply Hne' in Hi. congruence.
    - exists (<[l := Addr d]> (open_ (sockets s))). split; [done|]. split_and!; [apply lookup_insert_eq|by intros i a [[-> _]|[_ Hi]]%lookup_insert_Some; auto|].
      intros Hne' i a [[-> _]|[_ Hi]]%lookup_insert_Some; [done|]. apply Hne' in Hi. destruct (running s); [destruct Hr as (_ & _ & y & _ & Hs & _); congruence|]. destruct Hr. congruence. }
  destruct Hsock as (o & Hs & Ho & Hin & Hone). split.
  - apply install_supervised; [done..| |]; rewrite Hs; cbn; [done|]. intros i a [->|Hi]%Hin; [lia|]. specialize (Hn i a Hi). unfold l. lia.
  - intros Hne i a. cbn [installLocked sockets]. rewrite Hs. cbn. intros Hi. cbn. by rewrite (Hone Hne i a Hi).
Qed.

Lemma apply_supervised taken taken' desired s : supervised s ->
  supervised (apply taken taken' desired s).1 /\ (nothingElseOpen s -> nothingElseOpen (apply taken taken' desired s).1).
Proof.
  intros Hs. unfold Apply. cbv zeta. set (d := default Default desired). destruct (Validate X509KeyPair d) eqn:Hv; [by split|].
  destruct (matchesRunning s d); [by split|]. destruct (Enabled d) eqn:He; cbn [negb]; [|destruct (stop_supervised s Hs) as (? & _ & ?); by split].
  destruct (match running s with None => true | Some c => negb (eqb (Addr c) (Addr d)) end).
  { destruct (bindLocked _ _ _ _ _) as [[l k]|e] eqn:Eb; [|by split]. by destruct (move_supervised _ _ _ _ _ Hs Hv He Eb). }
  destruct (stop_supervised s Hs) as (Hs1 & Hn1 & Ho1). pose proof (start_supervised taken d (stopLocked s) Hs1 Hn1 Hv He) as H2.
  destruct (start taken d (stopLocked s)) as [s2 [e|]]; [|destruct H2 as (H2 & H2o & _); split; [done|]; intros ?; by apply H2o, Ho1]. destruct H2 as (_ & _ & ->).
  unfold restoreLocked. destruct (running s) as [p|] eqn:Ep; [|by split; [|intros ?; apply Ho1]]. destruct Hs as [Hr _]. rewrite Ep in Hr. destruct Hr as (Hpv & Hpe & _). rewrite Hpe. cbn [negb].
  pose proof (start_supervised taken' p (with_err e (stopLocked s)) Hs1 Hn1 Hpv Hpe) as H3. destruct (start taken' p _) as [s3 [e'|]]; destruct H3 as (H3 & H3o & _);
    (split; [done|]; intros ?; by apply H3o, Ho1).
Qed.

Lemma loopEnds_supervised l e s : supervised s -> supervised (loopEnds l e s).
Proof. intros [Hr Hn]. unfold loopEnds. destruct (loops s !! l) as [g|]; [|done]. by destruct (generation s =? g)%nat. Qed.

Lemma step_supervised s ev : supervised s -> supervised (step s ev).
Proof.
  intros Hs. destruct ev as [taken taken' d| |l e]; cbn [step]; [by apply apply_supervised|by apply stop_supervised|by apply loopEnds_supervised].
Qed.

Lemma new_supervised : supervised NewSupervisor.
Proof. by split. Qed.

Lemma history_supervised evs : supervised (history evs).
Proof.
  unfold history. generalize NewSupervisor new_supervised. induction evs as [|ev evs IH]; intros s Hs; cbn [foldl]; [done|]. by apply IH, step_supervised.
Qed.

(** A configuration that keeps API keys off the network in the clear. *)
Definition guarded (c : Config) : Prop := HasTLS c = true \/ AllowInsecureAuth c = true /\ Host c = loopbackHost.

Lemma valid_guarded c : valid c -> Enabled c = true -> guarded c /\ (AllowInsecureAuth c = true -> Host c = loopbackHost) /\ 1 <= Port c <= maxPort.
Proof.
  unfold Validate, guarded, Host. intros Hv He. rewrite He in Hv. destruct (negb (_ || _)) eqn:Es; [done|]. destruct ((Port c <=? 0) || _) eqn:Ep; [done|].
  apply orb_false_iff in Ep as [Ep1%Z.leb_gt Ep2%Z.ltb_ge]. destruct (Port c =? smtpRelayPort); [done|]. destruct (negb (Bool.eqb _ _)); [done|].
  destruct (AllowInsecureAuth c) eqn:Ei; cbn [andb] in Hv.
  - destruct (negb (eqb (BindScope c) BindScopeLoopback)) eqn:El; [done|]. apply negb_false_iff, eqb_true in El. rewrite El in *.
    split_and!; [right|..]; done || lia.
  - destruct (HasTLS c); [|by destruct (eqb (BindScope c) BindScopeAllInterfaces)]. split_and!; [by left|done|lia..].
Qed.

(** C23: Whatever changes are applied, however binding fails and accept loops end, what
    is served is a configuration that passed every check and is enabled, on a listener
    open at its address; it has a certificate, or takes passwords in the clear on the
    loopback address only. *)
Theorem served_listener_is_safe evs c : running (history evs) = Some c ->
  valid c /\ Enabled c = true /\ guarded c /\ (AllowInsecureAuth c = true -> Host c = loopbackHost) /\
  exists l, listener (history evs) = Some l /\ open_ (sockets (history evs)) !! l = Some (Addr c).
Proof.
  intros Hr. destruct (history_supervised evs) as [Hs _]. rewrite Hr in Hs. destruct Hs as (Hv & He & l & Hl & _ & Ho).
  destruct (valid_guarded c Hv He) as (Hg & Hi & _). split_and!; try done. by exists l.
Qed.

(** As long as no accept loop fails on its own, no port outlives its listener: the
    only socket open is that of what is served, and when nothing is served none is. *)
Theorem no_port_is_left_open evs : Forall (fun ev => match ev with ELoopEnds _ _ => False | _ => True end) evs ->
  open_ (sockets (history evs)) = match running (history evs), listener (history evs) with Some c, Some l => {[l := Addr c]} | _, _ => ∅ end.
Proof.
  intros Hev. assert (H : supervised (history evs) /\ nothingElseOpen (history evs)).
  { unfold history. assert (H0 : supervised NewSupervisor /\ nothingElseOpen NewSupervisor) by (split; [apply new_supervised|by intros l a]).
    revert H0. generalize NewSupervisor. induction Hev as [|ev evs Hev _ IH]; intros s [Hs Hn]; cbn [foldl]; [done|]. apply IH.
    destruct ev as [taken taken' d| |l e]; [|destruct (stop_supervised s Hs) as (? & _ & ?); by auto|done].
    destruct (apply_supervised taken taken' d s Hs); by auto. }
  destruct H as [[Hs _] Hn]. destruct (running (history evs)) as [c|].
  - destruct Hs as (_ & _ & l & Hl & _ & Ho). rewrite Hl. apply map_eq. intros i. destruct (decide (i = l)) as [->|Hne]; [by rewrite lookup_singleton_eq|].
    rewrite lookup_singleton_ne by done. destruct (open_ _ !! i) as [a|] eqn:E; [|done]. apply Hn in E. congruence.
  - destruct Hs as [_ Hl]. apply map_eq. intros i. rewrite lookup_empty. destruct (open_ _ !! i) as [a|] eqn:E; [|done]. apply Hn in E. congruence.
Qed.

(** ** What an application does *)

(** An application that reports no error has taken effect: what is asked for is
    what is served, and no error is shown.  One that reports an error has changed
    nothing when the configuration is refused; when another address cannot be bound
    the running listener goes on untouched; and when the same address cannot be
    bound again the previous configuration is served, or nothing is. *)
Theorem apply_outcome taken taken' d s s' r : supervised s -> apply taken taken' (Some d) s = (s', r) ->
  match r with
  | None => lastErr s' = "" /\ matchesRunning s' d = true
  | Some e =>
      (Validate X509KeyPair d = Some e /\ s' = s) \/
      (exists why, s' = with_err why s /\ e = NotServed why /\ Enabled d = true) \/
      (exists c, running s = Some c /\ Addr c = Addr d /\ (running s' = Some c \/ running s' = None))
  end.
Proof.
  intros Hs. unfold Apply. cbv zeta. change (default Default (Some d)) with d. destruct (Validate X509KeyPair d) as [e|] eqn:Hv; [intros [= <- <-]; by left|].
  destruct (matchesRunning s d) eqn:Hm; [by intros [= <- <-]|]. destruct (Enabled d) eqn:He; cbn [negb].
  2:{ intros [= <- <-]. split; [done|]. unfold matchesRunning. rewrite He. cbn. by rewrite (proj1 (proj2 (stop_supervised s Hs))). }
  assert (Hself : forall l x, matchesRunning (with_err "" (installLocked d l x)) d = true).
  { intros l x. unfold matchesRunning. rewrite He. cbn. rewrite !eqb_refl. by destruct (AllowInsecureAuth d). }
  destruct (running s) as [c|] eqn:Er; [destruct (eqb (Addr c) (Addr d)) eqn:Ea; cbn [negb]|].
  - apply eqb_true in Ea. unfold startLocked at 1. destruct (bindLocked _ _ taken d _) as [[l k]|e] eqn:Eb; [by intros [= <- <-]|].
    destruct (stop_supervised s Hs) as (Hs1 & Hn1 & _). destruct Hs as [Hr _]. rewrite Er in Hr. destruct Hr as (Hcv & Hce & _).
    unfold restoreLocked. rewrite Hce. cbn [negb]. pose proof (start_supervised taken' c (with_err e (stopLocked s)) Hs1 Hn1 Hcv Hce) as H3.
    destruct (start taken' c _) as [s3 [e'|]]; destruct H3 as (_ & _ & H3); intros [= <- <-]; right; right; exists c; split_and!; try done; [right|left; done].
    by rewrite H3.
  - destruct (bindLocked _ _ _ _ _) as [[l k]|e]; intros [= <- <-]; [by split|]. right; left. by exists e.
  - destruct (bindLocked _ _ _ _ _) as [[l k]|e]; intros [= <- <-]; [by split|]. right; left. by exists e.
Qed.

(** Applying again what is served does nothing, whatever the ports are. *)
Lemma apply_again taken taken' d s : Validate X509KeyPair d = None -> matchesRunning s d = true -> lastErr s = "" -> apply taken taken' (Some d) s = (s, None).
Proof. intros Hv Hm He. unfold Apply. cbv zeta. change (default Default (Some d)) with d. rewrite Hv, Hm. unfold with_err. rewrite <- He. by destruct s. Qed.

(** A change to an address that clashes with the one being served never takes
    effect, however often it is tried: the new address is bound while the old
    listener still holds it.  (On Linux a listener on every interface clashes with
    one on the loopback address at the same port, so moving between the two scopes
    fails for ever.) *)
Theorem clashing_move_never_applies d c s (tries : list ((string -> option string) * (string -> option string))) :
  supervised s -> running s = Some c -> Addr c <> Addr d -> clash (Addr c) (Addr d) = true -> Enabled d = true ->
  running (foldl (fun s t => (apply t.1 t.2 (Some d) s).1) s tries) = Some c /\
  forall t, is_Some (apply t.1 t.2 (Some d) (foldl (fun s t => (apply t.1 t.2 (Some d) s).1) s tries)).2.
Proof.
  intros Hs Hr Ha Hc He.
  assert (Hone : forall s t, supervised s -> running s = Some c -> running (apply t.1 t.2 (Some d) s).1 = Some c /\ is_Some (apply t.1 t.2 (Some d) s).2).
  { intros x t Hx Hrx. unfold Apply. cbv zeta. change (default Default (Some d)) with d. destruct (Validate X509KeyPair d); [by eauto|].
    assert (Hm : matchesRunning x d = false).
    { unfold matchesRunning. rewrite He, Hrx. cbn [negb]. rewrite (proj2 (eqb_false (Addr c) (Addr d)) Ha). done. }
    rewrite Hm, He, Hrx. cbn [negb]. rewrite (proj2 (eqb_false (Addr c) (Addr d)) Ha). cbn [negb].
    destruct (bindLocked _ _ _ _ _) as [[l k]|e] eqn:Eb; [|by eauto]. exfalso. apply bindLocked_inv in Eb as (_ & _ & Hfree).
    destruct Hx as [Hx _]. rewrite Hrx in Hx. destruct Hx as (_ & _ & i & _ & _ & Ho). specialize (Hfree _ _ Ho). congruence. }
  assert (Hall : supervised (foldl (fun s t => (apply t.1 t.2 (Some d) s).1) s tries) /\ running (foldl (fun s t => (apply t.1 t.2 (Some d) s).1) s tries) = Some c).
  { revert s Hs Hr. induction tries as [|t tries IH]; intros s Hs Hr; cbn [foldl]; [done|]. apply IH; [by apply apply_supervised|by apply Hone]. }
  destruct Hall as [H1 H2]. split; [done|]. intros t. by apply Hone.
Qed.

(** A listener whose accept loop fails keeps its port: the supervisor forgets it
    without closing it, so serving the same address again fails. *)
Lemma dead_listener_keeps_its_port taken taken' s c l e : supervised s -> running s = Some c -> listener s = Some l -> loops s !! l = Some (generation s) ->
  clash (Addr c) (Addr c) = true -> is_Some (apply taken taken' (Some c) (loopEnds l e s)).2 /\ running (apply taken taken' (Some c) (loopEnds l e s)).1 = None.
Proof.
  intros [Hs _] Hr Hl Hg Hc. rewrite Hr in Hs. destruct Hs as (Hv & He & l' & Hl' & _ & Ho). assert (l' = l) as -> by congruence.
  unfold loopEnds. rewrite Hg, Nat.eqb_refl. unfold Apply. cbv zeta. change (default Default (Some c)) with c. rewrite Hv. unfold matchesRunning. cbn [running]. rewrite He. cbn [negb].
  destruct (bindLocked _ _ _ _ _) as [[i k]|err] eqn:Eb; [|by eauto]. exfalso. apply bindLocked_inv in Eb as (_ & _ & Hfree). specialize (Hfree _ _ Ho). congruence.
Qed.

End Served.

(** ** Changes *)

Section Changes.
Context (X509KeyPair : string -> string -> option string) (clash : string -> string -> bool) (SHA256 : string -> string).
Context (Seal : string -> string -> string -> string) (Open_ : string -> string -> string -> option string) (ring : Secrets.keySet).
Context (Hopens : Secrets.opens_its_own Seal Open_) (Hsha : Secrets.sha_bytes SHA256) (Hring : Secrets.wf_entry SHA256 (Secrets.primary ring)).

Abbreviation update := (Update X509KeyPair clash Seal Open_ (Some ring) false).
Abbreviation storedNow := (stored Open_ (Some ring)).

Lemma seal_roundtrip nonce p v : Secrets.fills nonce -> sealKey Seal (Some ring) nonce p = Ok v -> unsealKey Open_ (Some ring) v = Ok p.
Proof.
  intros Hf. unfold sealKey. destruct (eqb p "") eqn:Ep; [apply eqb_true in Ep as ->; by intros [= <-]|].
  destruct (Secrets.Encrypt Seal nonce (Some ring) p) as [v'|] eqn:E; [|done]. intros [= ->].
  destruct (Secrets.Encrypt_Decrypt SHA256 Seal Open_ nonce ring ring p v Hopens Hsha Hf Hring (Secrets.entryFor_primary ring) E) as [Hd _].
  unfold unsealKey. destruct (eqb v "") eqn:Ev; [|by rewrite Hd]. apply eqb_true in Ev as ->. apply eqb_false in Ep. by injection Hd.
Qed.

(** What a change makes of the key pair. *)
Definition pairAfter (c : Config) (ch : Change) : string * string :=
  if ch_ClearTLS ch then ("", "") else if eqb (ch_TLSCertPEM ch) "" then (TLSCertPEM c, TLSKeyPEM c) else (ch_TLSCertPEM ch, ch_TLSKeyPEM ch).

Lemma merge_inv c ch d : merge c ch = Ok d ->
  (TLSCertPEM d, TLSKeyPEM d) = pairAfter c ch /\ Enabled d = ch_Enabled ch /\ BindScope d = ch_BindScope ch /\ Port d = ch_Port ch /\ AllowInsecureAuth d = ch_AllowInsecureAuth ch.
Proof.
  unfold merge, pairAfter. destruct (ch_ClearTLS ch), (eqb (ch_TLSCertPEM ch) ""), (eqb (ch_TLSKeyPEM ch) ""); cbn; intros [= <-]; by split_and!.
Qed.

(** An accepted change is stored before it is served and reads back as it was
    asked: every gateway that reconciles from then on is given exactly that
    configuration, with the key pair the form sent, or the stored one when it sent
    none, or none when it asked to clear it; it passed every check; and what the call
    answers of serving it is what the supervisor made of it. *)
Theorem accepted_change_is_stored env ch row s row' s' served current : Secrets.fills (c_nonce env) ->
  update env ch row s = (row', s', Ok served) -> storedNow (c_read env) row = Ok current ->
  exists d, storedNow Up row' = Ok d /\ Validate X509KeyPair d = None /\ (TLSCertPEM d, TLSKeyPEM d) = pairAfter current ch /\
    Enabled d = ch_Enabled ch /\ BindScope d = ch_BindScope ch /\ Port d = ch_Port ch /\ AllowInsecureAuth d = ch_AllowInsecureAuth ch /\
    (s', served) = Apply X509KeyPair clash (c_taken env) (c_taken' env) (Some d) s.
Proof.
  intros Hf Hu Hc. unfold Update in Hu. rewrite Hc in Hu. destruct (merge current ch) as [d|] eqn:Em; [|done]. destruct (Validate X509KeyPair d) eqn:Ev; [done|].
  unfold SaveConfig in Hu. destruct (sealKey _ _ _ _) as [sealed|] eqn:Es; [|done]. apply merge_inv in Em as (H1 & H2 & H3 & H4 & H5).
  apply seal_roundtrip in Es; [|done]. cbn [with_updated TLSKeyPEM] in Es.
  assert (Hup : c_write env = Up) by (revert Hu; unfold exec; by destruct (c_write env)). rewrite Hup in Hu. cbn [exec] in Hu.
  destruct (Apply _ _ _ _ _ _) as [s1 e1] eqn:Ea in Hu. injection Hu as <- <- <-. exists (with_updated (c_now env) d).
  split_and!; try done. unfold stored, GetConfig. cbn [query r_tls_private_key]. by rewrite Es.
Qed.

End Changes.

(** ** A gateway *)

Definition anyPair (c k : string) : option string := None.
Definition free (addr : string) : option string := None.

(** Linux: a listener on every interface takes the port on all of them. *)
Definition linuxClash (a b : string) : bool :=
  match cut_last a ":"%char, cut_last b ":"%char with
  | Some (h, p), Some (h', p') => eqb p p' && (eqb h h' || eqb h allInterfacesHost || eqb h' allInterfacesHost)
  | _, _ => false
  end.

Definition local587 : Config := mkConfig true BindScopeLoopback 587 "cert" "key" false 0.
Definition everywhere587 : Config := mkConfig true BindScopeAllInterfaces 587 "cert" "key" false 0.
Definition enabling : list event := [EApply free free (Some local587)].

Lemma served_listener_is_safe_witness : guarded local587 /\ running (history anyPair linuxClash enabling) = Some local587.
Proof.
  assert (Hr : running (history anyPair linuxClash enabling) = Some local587) by (vm_compute; reflexivity). split; [|exact Hr].
  apply (served_listener_is_safe anyPair linuxClash enabling local587 Hr).
Defined.

Lemma no_port_is_left_open_witness :
  open_ (sockets (history anyPair linuxClash (enabling ++ [EApply free free (Some (mkConfig true BindScopeLoopback 2525 "cert" "key" false 0)); EClose])%list)) = ∅.
Proof.
  rewrite (no_port_is_left_open anyPair linuxClash (enabling ++ [EApply free free (Some (mkConfig true BindScopeLoopback 2525 "cert" "key" false 0)); EClose])%list).
  - vm_compute. reflexivity.
  - repeat constructor.
Defined.

(** The new port is taken by another program. *)
Lemma apply_outcome_witness :
  let s := history anyPair linuxClash enabling in
  let d := mkConfig true BindScopeLoopback 2525 "cert" "key" false 0 in
  (Apply anyPair linuxClash (fun _ => Some "in use") free (Some d) s).2 = Some (NotServed "cannot listen on 127.0.0.1:2525: in use") /\
  running (Apply anyPair linuxClash (fun _ => Some "in use") free (Some d) s).1 = Some local587.
Proof.
  cbv zeta. set (s := history anyPair linuxClash enabling). set (d := mkConfig true BindScopeLoopback 2525 "cert" "key" false 0).
  assert (Hr : running s = Some local587) by (vm_compute; reflexivity).
  assert (He : (Apply anyPair linuxClash (fun _ => Some "in use") free (Some d) s).2 = Some (NotServed "cannot listen on 127.0.0.1:2525: in use")) by (vm_compute; reflexivity).
  split; [exact He|]. destruct (Apply anyPair linuxClash (fun _ => Some "in use") free (Some d) s) as [s' r] eqn:E. cbn [snd] in He. subst r.
  pose proof (apply_outcome anyPair linuxClash _ _ d s s' _ (history_supervised anyPair linuxClash enabling) E) as H. cbn [fst].
  destruct H as [[H _]|[(why & -> & _)|(c & Hc & Ha & _)]]; [vm_compute in H; discriminate|exact Hr|].
  exfalso. rewrite Hr in Hc. injection Hc as <-. vm_compute in Ha. discriminate.
Defined.

(** From the loopback address to every interface, at the same port. *)
Lemma clashing_move_never_applies_witness :
  let s := history anyPair linuxClash enabling in
  running (foldl (fun s t => (Apply anyPair linuxClash t.1 t.2 (Some everywhere587) s).1) s (replicate 3 (free, free))) = Some local587 /\
  Validate anyPair everywhere587 = None.
Proof.
  cbv zeta. split; [|vm_compute; reflexivity].
  apply (clashing_move_never_applies anyPair linuxClash everywhere587 local587 _ (replicate 3 (free, free)) (history_supervised anyPair linuxClash enabling));
    [vm_compute; reflexivity|vm_compute; discriminate|vm_compute; reflexivity..].
Defined.

Definition sampleRing : Secrets.keySet := Secrets.ring_of Secrets.oldKey [].
Definition firstChange : Change := mkChange true BindScopeAllInterfaces 587 "cert" "key" false false.
Definition portChange : Change := mkChange true BindScopeAllInterfaces 2525 "" "" false false.
Definition sampleCall : CallEnv := mkCallEnv Up Secrets.demo_nonce 1 Up free free.
Definition sampleRow : option Row := (Update anyPair linuxClash Secrets.demo_seal Secrets.demo_open (Some sampleRing) false sampleCall firstChange None NewSupervisor).1.1.

(** The port is changed without sending the key pair again. *)
Lemma accepted_change_is_stored_witness :
  exists d, stored Secrets.demo_open (Some sampleRing) Up
      (Update anyPair linuxClash Secrets.demo_seal Secrets.demo_open (Some sampleRing) false sampleCall portChange sampleRow NewSupervisor).1.1 = Ok d /\
    TLSCertPEM d = "cert" /\ TLSKeyPEM d = "key" /\ Port d = 2525.
Proof.
  destruct (Update anyPair linuxClash Secrets.demo_seal Secrets.demo_open (Some sampleRing) false sampleCall portChange sampleRow NewSupervisor) as [[row' s'] r] eqn:E.
  assert (Hr : r = Ok None) by (apply (f_equal snd) in E; cbn [snd] in E; rewrite <- E; vm_compute; reflexivity). subst r.
  assert (Hc : stored Secrets.demo_open (Some sampleRing) Up sampleRow = Ok (mkConfig true BindScopeAllInterfaces 587 "cert" "key" false 1)) by (vm_compute; reflexivity).
  destruct (accepted_change_is_stored anyPair linuxClash Secrets.demo_sha Secrets.demo_seal Secrets.demo_open sampleRing Secrets.demo_opens
    ltac:(by intros k) ltac:(vm_compute; reflexivity) sampleCall portChange sampleRow NewSupervisor row' s' None _ ltac:(by intros n [= <-]) E Hc)
    as (d & Hd & _ & Hp & _ & _ & Hport & _). exists d. cbn [fst]. split; [exact Hd|].
  assert (Hpair : pairAfter (mkConfig true BindScopeAllInterfaces 587 "cert" "key" false 1) portChange = ("cert", "key")) by (vm_compute; reflexivity).
  rewrite Hpair in Hp. apply pair_equal_spec in Hp as [Hcert Hkey]. split; [exact Hcert|split; [exact Hkey|exact Hport]].
Defined.

End SmtpListener.
